(* ===== verification/_CoqProject ===== *)
-Q . S2P
Prelude.v
Floats.v
Sums.v
DataHash.v
AggregatedHash.v
MerkleSubtree.v
Chunking.v
ChunkStability.v
ByteGrouping.v
Bg4Prediction.v
Codec.v
FileStructs.v
XorbStructs.v
ChunkFormat.v
RawXorb.v
XorbInfo.v
XorbObject.v
Interpolation.v
ShardMemory.v
ShardFormat.v
ShardPass.v
ShardExport.v
SetOperations.v
StreamingShard.v
ShardExamples.v
Defrag.v
Dedup.v
Aggregator.v
DedupExamples.v
AdjustableSemaphore.v
Singleflight.v
TaskLock.v
UploadTracking.v
ShardProgress.v
CasTypes.v
ChunkWindows.v
UploadSession.v
RangeUpload.v
UploadExamples.v
ReconstructionRanges.v
FileTerms.v
Reconstructor.v
MemoryClient.v
ServerContract.v
DownloadExamples.v
