(* ===== verification/Prelude.v ===== *)
(** * xet-core verification library

    A model of the content-addressed storage core of xet-core, with the theorems that make it
    correct.  Sources are named relative to [src/].

    ** The program

    A file is cut into chunks by a rolling hash (content-defined chunking), each chunk is named by
    a keyed blake3 hash, chunks already known to a shard are referred to and the others are packed
    into xorbs, and the file becomes a list of segments [(xorb, first chunk, last chunk)].  Xorbs
    and files are named by a Merkle hash over their chunk hashes.  Chunks travel compressed behind
    an 8-byte header, followed in a xorb object by a footer; files and xorbs are described by
    48-byte records in shards.  An upload session drives this for many files and hands xorbs and
    shards to a server; a file that is edited is uploaded by the windows around its edits only.  A
    download asks the server for the terms of the file, a block at a time ahead of what is written,
    fetches the ranges of xorbs behind them and writes the bytes in order.

    ** Files and what they model

    Hashes ([xet_core_structures/src/merklehash/]):
    - [DataHash] ([data_hash.rs]): the 256-bit hash, its byte and hexadecimal forms, the keyed hash
      functions.
    - [AggregatedHash] ([aggregated_hashes.rs]): the cut rule, the text of a group, the in-place
      collapse to the xorb or file hash.
    - [MerkleSubtree] ([merkle_hash_subtree.rs]): the mergeable representation of a range of chunk
      hashes.

    Xorbs ([xet_core_structures/src/xorb_object/]):
    - [ByteGrouping] and [Bg4Prediction] ([byte_grouping/]): the byte permutation applied before
      compression and the statistic that recommends it.
    - [ChunkFormat] ([compression_scheme.rs], [xorb_chunk_format.rs] and its
      [deserialize_async.rs]): compression schemes and the chunk streams of a xorb.
    - [RawXorb] ([raw_xorb_data.rs], [metadata_shard/chunk_verification.rs]): a xorb built from chunks.
    - [XorbInfo] and [XorbObject] ([xorb_object_format.rs]): the two versions of the footer, and the
      object written, opened, validated, read by ranges and rebuilt from its chunks.

    Shards ([xet_core_structures/src/metadata_shard/]):
    - [Codec] ([utils/serialization_utils.rs]), [FileStructs] ([file_structs.rs]) and [XorbStructs]
      ([xorb_structs.rs]): the binary records of a shard and the views that read them in place.
    - [Interpolation] ([interpolation_search.rs]): the search of the lookup tables.
    - [ShardMemory] ([shard_in_memory.rs]): the shard being built and its queries.
    - [ShardFormat], [ShardPass] and [ShardExport] ([shard_format.rs]): the shard file, its lookups, the
      passes that copy one and the export with keyed hashes; [SetOperations] ([set_operations.rs]): union
      and difference of shard files; [StreamingShard] ([streaming_shard.rs]): shards read and written
      as a stream.  [ShardExamples] applies the theorems to a shard.

    Deduplication ([xet_data/src/deduplication/]):
    - [Chunking] and [ChunkStability] ([chunking.rs], [xorb_object/constants.rs]): the chunker, stable
      boundaries and the partitions for parallel chunking.
    - [Defrag], [Dedup], [Aggregator]: the fragmentation control, the file deduper and the aggregation of
      its remainders; [DedupExamples] instantiates their interface.

    Runtime ([xet_runtime/src/utils/]): [AdjustableSemaphore], [Singleflight] and [TaskLock], step
    relations between the points where threads or tasks interleave.

    Uploads ([xet_data/src/processing/], [progress_tracking/], [xet_client/src/]):
    - [UploadTracking] and [ShardProgress]: which bytes of which file are done, and the counters of shard
      uploads; [Sums] has the sums over maps they need and [Floats] the doubles.
    - [CasTypes] ([cas_types/mod.rs]): ranges and the reconstruction responses.
    - [ChunkWindows] ([cas_client/chunk_window_builder.rs]): the answer of a server to a client that is about
      to edit a file.
    - [UploadSession] ([file_upload_session.rs], [file_cleaner.rs], [deduplication_interface.rs],
      [sha256.rs]) and [RangeUpload] ([range_upload.rs]); [UploadExamples] instantiates their backend.

    Downloads ([xet_data/src/file_reconstruction/], [xet_client/src/cas_client/simulation/]):
    - [ReconstructionRanges] ([xorb_utils.rs]): which chunks and byte ranges answer a query.
    - [FileTerms] ([reconstruction_terms/]): the terms of a block, their data and the refresh of URLs.
    - [Reconstructor] ([manager.rs], [file_reconstructor.rs], [sequential_writer.rs], [run_state.rs]): the
      run that prefetches, fetches and writes.
    - [MemoryClient] ([memory_client.rs]): the server that holds what was uploaded.
    - [ServerContract]: the server meets what [FileTerms] assumes of it, and the path from upload to
      download.  [DownloadExamples] runs it.

    This file holds what they share: bytes, results and errors, slices, machine words, hints and
    tactics.

    ** How the code is translated

    Definitions keep the names of the code.  A mutable structure is a record passed through its
    operations; a [Result] is [result], with the bind of stdpp for [?]; a panic is [None], or an
    error such as [Panic] where an operation also fails in other ways; a reader is a function from the
    bytes ahead to a value and the bytes left.  Fixed-width integers are in [Z] with [wrap32] and
    [wrap64] where the code can wrap, or in [nat] for sizes of data in memory.  Floating-point numbers
    are the IEEE values of [SpecFloat].  Debug assertions are not part of the release behaviour that
    is modelled; the targets are little-endian, with 64-bit sizes.  Memory is not modelled: where the code
    reserves room for a number of records that its input announces, the reservation is taken to
    succeed.

    Concurrent code is a step relation.  A step is what a thread or a task does between two points
    where another can run, which are the accesses to atomics and locks and the awaits; time and
    estimates of rates are arguments of the steps, so the theorems hold for every value of them.
    Operations that run under one lock are functions, and a run is a sequence of them.

    A loop that is not structural has fuel.  It is always a bound that the data gives: the length of
    the data for the chunker and for the stream readers, the number of nodes for the collapse of a
    hash list, the number of chunks for the deduper, the number of keys for the interpolation
    search, one round more than there are bytes for the set operations.  The theorems that say a loop
    computes its reference definition hold at that fuel, so it is enough; in [Dedup], where a wrong
    implementation of the interface could make the code loop, running out is the error [Diverges],
    which is proved not to occur.  The step relations have no fuel: that a run ends is a theorem with a
    measure.

    Code that is not in the repository is a class with its documented laws: blake3 ([Blake3], the
    length of its output), the gear hash ([GearHasher], [next_match] and the 64-byte window), lz4
    ([Compression], a frame decodes to what was encoded), SHA-256 ([Sha2]), base64 ([Base64], decoding
    what was encoded), the unstable sort ([SortUnstable], a sorted permutation), and tokio's primitives
    ([Semaphore], [Notify], [RwLock]).  The configurable constants are classes too ([ChunkConstants],
    [XorbConstants]).  The interfaces between components are classes with a contract, against which
    the client is proved and which the implementation discharges: [DeduplicationDataInterface] with
    [DedupContract] (discharged by the data manager of [UploadSession]), [SessionBackend] with
    [SessionContract] (what the session knows, what was sent and what the server has), [RangeClient], and [ReconstructionClient] with [serves] (discharged by
    [MemoryClient] in [ServerContract]).  Every class has an instance with which the properties are
    applied.  Both contracts of uploads say that a xorb whose hash is the all-ones marker is refused: the
    code uses the marker as a placeholder and relies on no xorb having that hash.

    ** What is shown

    - Hashes: the byte and hexadecimal forms are bijective on exactly the strings accepted
      ([from_slice_roundtrip], [hex_roundtrip], [from_hex_accepts]).
    - Merkle hashes: the in-place collapse terminates and computes the root defined by repeated
      promotion ([aggregated_node_hash_correct]); the text hashed for a group determines it and fits
      its buffer ([merge_text_injective], [merge_buffer_in_bounds]); merging the subtrees of the
      ranges of a file from left to right gives the hash of the file ([merge_file_ranges]), another
      order may not ([merge_order_matters]).
    - Chunking: the chunks do not depend on how the data arrives ([chunking_independent_of_blocks])
      and partition the file within the size limits ([chunks_partition_file]); stable boundaries
      survive any change before them ([stable_boundary]); partitions are sound when triggers are not
      close ([partitions_sound]) and not always ([partition_not_a_boundary]).
    - Compression and format: the byte grouping is a permutation ([bg4_roundtrip]); the vectorised
      histograms equal the reference ([add_data_correct]); chunks, chunk streams and xorb objects
      round-trip through every scheme and reader ([chunk_roundtrip], [chunk_stream_roundtrip],
      [xorb_object_roundtrip]), and an object that validates is what it says ([validate_sound]).
    - Shards: writers and readers are inverse, readers are total on arbitrary bytes, and the views
      agree with the parsed records ([file_info_roundtrip], [file_info_deserialize_total],
      [shard_file_roundtrip], [memory_reader_sound], [streaming_readers_agree]); the interpolation
      search ends and finds all values of a key ([interpolation_search_terminates],
      [interpolation_search_correct]), so lookups and queries in the file agree with the shard in
      memory ([shard_file_lookup], [shard_file_query]); set operations on files are those in memory,
      byte for byte ([set_operation_agrees]).
    - Deduplication: whatever is deduplicated, the file information that results names exactly the
      chunks of the file ([dedup_file_correct]), also after remainders of several files are merged
      into one xorb ([merged_files_resolve]); runs end, without a panic, and hand over only xorbs
      within the limits ([dedup_total_within_limits]).
    - Runtime: permits are conserved and waiting requests served ([semaphore_conserves],
      [waiting_requests_served]); one call in flight gives its result to all that wait, and all return
      ([singleflight_results], [singleflight_all_return]); a guard has the value of the task with
      every accepted update ([task_lock_value], [task_lock_all_end]).
    - Uploads: the bytes of every file are accounted for ([tracking_conserves],
      [shard_progress_refines]); a session that ends without an error has left on the server a shard with
      every file, under the hash it returns, and the xorbs of its segments ([upload_session_settles]); uploading the edited ranges gives the hash of
      the whole edited file ([upload_ranges_correct], with [chunk_windows_laid_out]).
    - Downloads: the terms of a block cover the requested range and their data is that of the file
      ([reconstruction_ranges_cover], [file_terms_correct]), also after the URLs are refreshed
      from the server ([refresh_keeps_terms]); however the parts of a run and the other users of the download buffer
      interleave, and whether writes fail or not, what is written is a prefix of the file, all of it when
      the run finishes ([reconstruction_correct]), and a run makes a bounded number of steps and only
      ever waits for permits that others hold ([reconstruction_terminates]); the two writer loops write
      the same ([vectored_writer_writes_all]).  These hold when the chunk cache and multi-range fetches are
      not both in use, where reading can panic ([cache_misses_second_range]); the server meets its contract ([server_serves_files]), so what is
      downloaded is what was uploaded ([download_what_was_uploaded]).

    Some lemmas state behaviour that the documentation of the code does not promise or contradicts,
    among them [merge_order_matters], [partition_not_a_boundary], [partition_single_chunk_panics],
    [empty_counters_never_recommended], [file_view_long_slice], [dedup_metrics_counts],
    [export_without_files_misreads], [request_starves], [two_tasks_in_flight],
    [cancelled_reader_loses_value], [composed_file_loses_bytes], [empty_file_sha_differs],
    [refresh_checks_range_only], [cache_misses_second_range], [vectored_writer_empty_item] and
    [client_error_masked].

    ** Not modelled

    Left out are input and output (HTTP, files on disk, processes), logging, configuration, the
    language bindings and command-line tools, whose effect is outside the kernel's reach; the
    floating-point control of concurrency and the speed estimates, on whose values nothing modelled
    here depends; the simulated network and the server on disk, which wrap the functions modelled in
    [MemoryClient]; the writer for unordered output and the download streams, which replace the
    sequential writer of [Reconstructor]; the chunk cache on disk, of which [FileTerms] only uses that it
    returns what was put; the manager of shard files; and the git-lfs transfer protocol. *)

From coqutil Require Import Byte Word.LittleEndianList.
From stdpp Require Import base numbers list.

(** ** Notations *)

Declare Scope xet_scope.
Delimit Scope xet_scope with xet.

(** Bytes are the 256-constructor type of the standard library; [u8 b] is the
    value of a byte as an integer and [byte_of z] the truncating cast [z as u8]. *)
Abbreviation byte := Corelib.Init.Byte.byte.
Abbreviation u8 := byte.unsigned.
Abbreviation byte_of := byte.of_Z.

#[global] Instance byte_eq_decision : EqDecision byte := Byte.byte_eq_dec.

(** ** Fallible code

    [result] is Rust's [Result]; the bind notation is the [?] operator. *)

Inductive result (E A : Type) : Type :=
| Ok (a : A)
| Err (e : E).
Arguments Ok {E A} a.
Arguments Err {E A} e.

#[global] Instance result_ret {E} : MRet (result E) := fun _ a => Ok a.
#[global] Instance result_bind {E} : MBind (result E) := fun _ _ k r =>
  match r with
  | Ok a => k a
  | Err e => Err e
  end.

Definition result_of_option {E A} (e : E) (o : option A) : result E A :=
  match o with
  | Some a => Ok a
  | None => Err e
  end.

Definition is_ok {E A} (r : result E A) : bool :=
  match r with Ok _ => true | Err _ => false end.

(** The kinds of [std::io::Error] and the variants of [xet_core_structures::CoreError] that the
    modelled code returns; messages are left out. *)
Inductive io_error := UnexpectedEof | InvalidData | InvalidInput | OtherIoError.

Inductive CoreError :=
| Io (e : io_error)
| InternalError
| TruncatedHashCollision (h : Z)
| ShardVersion
| InvalidShard
| InvalidRange
| InvalidArguments
| MalformedData
| HashMismatch
| CompressionError
| HashParsing
| ChunkHeaderParse.

(** [l ⟦ a , b ⟧] is the Rust slice [&l[a..b]] for [a <= b <= l.len()]. *)
Definition slice {A} (a b : nat) (l : list A) : list A := take (b - a) (drop a l).
Arguments slice : simpl never.
Notation "l ⟦ a , b ⟧" := (slice a b l)
  (at level 1, a at level 200, b at level 200, left associativity, format "l ⟦ a ,  b ⟧") : xet_scope.
Open Scope xet_scope.

Lemma result_bind_ok {E A B} (r : result E A) (k : A -> result E B) b :
  r ≫= k = Ok b <-> exists a, r = Ok a /\ k a = Ok b.
Proof. destruct r; simpl; split; [eauto | intros (? & [= <-] & ?); done | done | by intros (? & ? & ?)]. Qed.

Lemma result_bind_Ok {E A B} (a : A) (k : A -> result E B) : Ok a ≫= k = k a.
Proof. done. Qed.

Lemma slice_length {A} a b (l : list A) :
  a <= b -> b <= length l -> length (l ⟦a , b⟧) = b - a.
Proof. intros. unfold slice. rewrite length_take, length_drop. lia. Qed.

(** ** Machine words *)

Definition wrap32 (z : Z) : Z := (z mod 2 ^ 32)%Z.
Definition wrap64 (z : Z) : Z := (z mod 2 ^ 64)%Z.
Definition is_u32 (z : Z) : Prop := (0 <= z < 2 ^ 32)%Z.
Definition is_u64 (z : Z) : Prop := (0 <= z < 2 ^ 64)%Z.

Lemma wrap32_small z : is_u32 z -> wrap32 z = z.
Proof. apply Z.mod_small. Qed.

Lemma wrap64_small z : is_u64 z -> wrap64 z = z.
Proof. apply Z.mod_small. Qed.

Lemma wrap32_add_l a b : wrap32 (wrap32 a + b) = wrap32 (a + b).
Proof. apply Zplus_mod_idemp_l. Qed.

Lemma wrap32_is_u32 z : is_u32 (wrap32 z).
Proof. apply Z.mod_pos_bound. lia. Qed.

Lemma wrap64_l a b : wrap64 (wrap64 a + b) = wrap64 (a + b).
Proof. apply Zplus_mod_idemp_l. Qed.

Lemma wrap64_r a b : wrap64 (a + wrap64 b) = wrap64 (a + b).
Proof. apply Zplus_mod_idemp_r. Qed.

Lemma wrap64_is_u64 z : is_u64 (wrap64 z).
Proof. apply Z.mod_pos_bound. lia. Qed.

(** [count_ones] of an unsigned integer. *)
Fixpoint pos_count_ones (p : positive) : nat :=
  match p with
  | xH => 1
  | xO p => pos_count_ones p
  | xI p => S (pos_count_ones p)
  end.

Definition count_ones (z : Z) : nat := match z with Zpos p => pos_count_ones p | _ => 0 end.

(** ** Little-endian encodings ([to_le_bytes] and [from_le_bytes]) *)

Lemma le_combine_split_small n z :
  (0 <= z < 2 ^ (Z.of_nat n * 8))%Z -> le_combine (le_split n z) = z.
Proof. intros. rewrite le_combine_split. by apply Z.mod_small. Qed.

Lemma le_combine_u64 bs : length bs = 8 -> is_u64 (le_combine bs).
Proof. intros Hl. pose proof (le_combine_bound bs) as Hb. by rewrite Hl in Hb. Qed.

Lemma le_combine_u32 bs : length bs = 4 -> is_u32 (le_combine bs).
Proof. intros Hl. pose proof (le_combine_bound bs) as Hb. by rewrite Hl in Hb. Qed.

(** ** Automation shared by the component files *)

Create HintDb xet discriminated.
#[export] Hint Resolve wrap64_is_u64 : xet.
Create Rewrite HintDb xet_len.
#[export] Hint Rewrite @length_app @length_cons @length_nil @length_take @length_drop
  @length_le_split @length_reverse @length_map @length_fmap @length_replicate @length_insert : xet_len.

(** Normalise the lengths of list expressions, then solve the arithmetic. *)
Ltac len := autorewrite with xet_len in *; simpl in *; try lia.

(** Split on every match or conditional of the goal, then clean up. *)
Ltac case_all := repeat (case_match; simplify_eq/=).

(** ** Slices of concatenations *)

Lemma slice_prefix {A} n (l1 l2 : list A) : length l1 = n -> (l1 ++ l2) ⟦0, n⟧ = l1.
Proof. intros <-. unfold slice. by rewrite drop_0, Nat.sub_0_r, take_app_length. Qed.

Lemma slice_middle {A} a b (l1 l2 l3 : list A) :
  length l1 = a -> length l1 + length l2 = b -> (l1 ++ l2 ++ l3) ⟦a, b⟧ = l2.
Proof.
  intros <- <-. unfold slice. rewrite drop_app_length.
  replace (length l1 + length l2 - length l1) with (length l2) by lia.
  by rewrite take_app_length.
Qed.

Lemma slice_all_cut {A} a (l : list A) : l ⟦a, length l⟧ = drop a l.
Proof. unfold slice. apply take_ge. rewrite length_drop. lia. Qed.

Lemma slice_app_slice {A} a b c (l : list A) :
  a <= b -> b <= c -> l ⟦a, b⟧ ++ l ⟦b, c⟧ = l ⟦a, c⟧.
Proof.
  intros. unfold slice.
  replace (drop b l) with (drop (b - a) (drop a l)) by (rewrite drop_drop; f_equal; lia).
  rewrite take_take_drop. f_equal. lia.
Qed.

Lemma slice_then_drop {A} a b (l : list A) : a <= b -> l ⟦a, b⟧ ++ drop b l = drop a l.
Proof.
  intros. unfold slice. rewrite <- (take_drop (b - a) (drop a l)) at 2. rewrite drop_drop.
  by replace (a + (b - a)) with b by lia.
Qed.

Lemma slice_0 {A} b (l : list A) : l ⟦0, b⟧ = take b l.
Proof. unfold slice. by rewrite drop_0, Nat.sub_0_r. Qed.

Lemma tail_drop {A} n (l : list A) : tail (drop n l) = drop (S n) l.
Proof. revert l. induction n as [|n IH]; intros [|x l]; [done..|]. apply IH. Qed.

(** ** Sums over lists *)

Lemma sum_insert {A} (f : A -> nat) l i x y :
  l !! i = Some x -> sum_list_with f (<[i := y]> l) + f x = sum_list_with f l + f y.
Proof. revert i. induction l as [|a l IH]; intros [|i] H; simplify_eq/=; [lia|]. specialize (IH i H). lia. Qed.

Lemma sum_none {A} (f : A -> nat) l i x : sum_list_with f l = 0 -> l !! i = Some x -> f x = 0.
Proof. revert i. induction l as [|a l IH]; intros [|i] Hs Hi; simplify_eq/=; [lia|]. apply (IH i); [lia|done]. Qed.

Lemma sum_two {A} (f : A -> nat) l i j x y :
  l !! i = Some x -> l !! j = Some y -> i <> j -> f y + f x <= sum_list_with f l.
Proof.
  assert (forall l i x, l !! i = Some x -> f x <= sum_list_with f l) as Hone.
  { clear. induction l as [|a l IH]; intros [|i] x H; simplify_eq/=; [lia|]. specialize (IH i x H). lia. }
  revert i j. induction l as [|a l IH]; intros [|i] [|j] Hi Hj Hne; simplify_eq/=; [specialize (Hone l j y Hj); lia|specialize (Hone l i x Hi); lia|].
  specialize (IH i j Hi Hj ltac:(congruence)). lia.
Qed.

Lemma sum_some {A} (f : A -> nat) l n : sum_list_with f l = n -> 0 < n -> exists i x, l !! i = Some x /\ 0 < f x.
Proof.
  revert n. induction l as [|a l IH]; cbn; intros n Hs Hn; [lia|]. destruct (decide (0 < f a)) as [Ha|Ha]; [by exists 0, a|].
  destruct (IH _ eq_refl ltac:(lia)) as (i & x & Hi & Hx). by exists (S i), x.
Qed.
