(* ===== verification/Floats.v ===== *)
(** * Doubles

    [f64] as the code uses it: the IEEE 754 doubles of [SpecFloat], with the conversions from and to
    [u64].  Rounding is to nearest even. *)

From Stdlib Require Import ZArith SpecFloat.

#[local] Open Scope Z_scope.

Definition f64 := spec_float.
Definition prec : Z := 53.
Definition emax : Z := 1024.

(** [z as f64] of an unsigned integer. *)
Definition f64_of_u64 (z : Z) : f64 := binary_normalize prec emax z 0 false.

Definition f64_mul : f64 -> f64 -> f64 := SFmul prec emax.
Definition f64_div : f64 -> f64 -> f64 := SFdiv prec emax.

(** [x.floor() as u64], which saturates and takes NaN to zero. *)
Definition floor_as_u64 (x : f64) : Z :=
  match x with
  | S754_finite false m e => Z.min (2 ^ 64 - 1) (if 0 <=? e then Zpos m * 2 ^ e else Zpos m / 2 ^ (- e))
  | S754_infinity false => 2 ^ 64 - 1
  | _ => 0
  end.
