(* ===== verification/Sums.v ===== *)
(** * Sums over lists and maps

    The totals that counters are compared with. *)

From Stdlib Require Import ZArith Lia.
From stdpp Require Import base numbers gmap list.
From S2P Require Import Prelude.

#[local] Open Scope Z_scope.

Definition sum_of {A} (f : A -> Z) (l : list A) : Z := foldr (fun x a => f x + a) 0 l.
Definition map_sum {K A} `{Countable K} (f : A -> Z) (m : gmap K A) : Z := map_fold (fun _ x a => f x + a) 0 m.

Arguments sum_of : simpl never.
Arguments map_sum : simpl never.

Lemma sum_of_app {A} (f : A -> Z) l l' : sum_of f (l ++ l') = sum_of f l + sum_of f l'.
Proof. unfold sum_of. induction l; cbn; lia. Qed.

Lemma sum_of_insert {A} (f : A -> Z) l i x y : l !! i = Some x -> sum_of f (<[i := y]> l) = sum_of f l - f x + f y.
Proof. unfold sum_of. revert i. induction l as [|a l IH]; intros [|i] H; simplify_eq/=; [lia|]. rewrite (IH i H). lia. Qed.

Lemma map_sum_empty {K A} `{Countable K} (f : A -> Z) : map_sum f (∅ : gmap K A) = 0.
Proof. apply map_fold_empty. Qed.

Lemma map_sum_delete {K A} `{Countable K} (f : A -> Z) (m : gmap K A) k x : m !! k = Some x -> map_sum f m = f x + map_sum f (delete k m).
Proof. intros Hk. unfold map_sum. apply (map_fold_delete_L (fun _ x a => f x + a)); [intros; lia|done]. Qed.

Lemma map_sum_insert {K A} `{Countable K} (f : A -> Z) (m : gmap K A) k x :
  map_sum f (<[k := x]> m) = f x + map_sum f (delete k m).
Proof. rewrite (map_sum_delete f (<[k := x]> m) k x) by apply lookup_insert_eq. by rewrite delete_insert_eq. Qed.

Lemma map_sum_fresh {K A} `{Countable K} (f : A -> Z) (m : gmap K A) k x : m !! k = None -> map_sum f (<[k := x]> m) = f x + map_sum f m.
Proof. intros Hk. rewrite map_sum_insert. by rewrite delete_id. Qed.

Lemma map_sum_ext {K A} `{Countable K} (f g : A -> Z) (m : gmap K A) : (forall k x, m !! k = Some x -> f x = g x) -> map_sum f m = map_sum g m.
Proof.
  induction m as [|k x m Hk IH] using map_ind; intros He; [by rewrite !map_sum_empty|]. rewrite !map_sum_fresh by done. f_equal.
  - apply (He k). by rewrite lookup_insert_eq.
  - apply IH. intros k' y Hy. apply (He k'). rewrite lookup_insert_ne; [done|]. congruence.
Qed.

Lemma sum_of_nonneg {A} (f : A -> Z) l : Forall (fun x => 0 <= f x) l -> 0 <= sum_of f l /\ forall x, x ∈ l -> f x <= sum_of f l.
Proof.
  unfold sum_of. induction 1 as [|a l Ha Hl [IH1 IH2]]; cbn; [split; [done|by intros x ?%elem_of_nil]|]. split; [lia|].
  intros x [->|Hx]%elem_of_cons; [lia|]. specialize (IH2 x Hx). lia.
Qed.

#[local] Ltac Zify.zify_post_hook ::= Z.to_euclidean_division_equations.

(** Equalities modulo [2^64] are linear. *)
Ltac wrap_lia := unfold wrap64, wrap32, is_u64, is_u32 in *; lia.

Lemma fold_wrap_sum {A} (f : A -> Z) l a : is_u64 a -> fold_left (fun a x => wrap64 (a + f x)) l a = wrap64 (a + sum_of f l).
Proof.
  revert a. induction l as [|x l IH]; intros a Ha; unfold sum_of in *; cbn; [by rewrite Z.add_0_r, wrap64_small|].
  rewrite IH by apply wrap64_is_u64. clear. wrap_lia.
Qed.
