(* ===== verification/DataHash.v ===== *)
(** * Content hashes

    Model of [xet_core_structures/src/merklehash/data_hash.rs]: the 256-bit
    [DataHash] (also called [MerkleHash]), its byte, hexadecimal and ordering
    conversions, and the keyed hash functions built on blake3.

    The targets of the crate are little-endian, where [u64::to_le] is the
    identity and [transmute] of [[u64; 4]] to bytes is [to_le_bytes] of each
    word; the model is of those targets.  blake3 is a parameter: the class
    [Blake3] holds the one operation used, with its documented output length. *)

From coqutil Require Import Byte Word.LittleEndianList.
From stdpp Require Import base numbers countable list.
From Stdlib Require String.
From S2P Require Import Prelude.

Import String.StringSyntax.
Local Open Scope Z_scope.

(** ** The type *)

Record DataHash := mkDataHash { w0 : Z; w1 : Z; w2 : Z; w3 : Z }.

#[global] Instance DataHash_eq_dec : EqDecision DataHash.
Proof. solve_decision. Defined.

#[global] Instance DataHash_countable : Countable DataHash.
Proof.
  refine (inj_countable' (fun h => (w0 h, w1 h, w2 h, w3 h))
                         (fun t => mkDataHash (t.1.1.1) (t.1.1.2) (t.1.2) (t.2)) _).
  by intros [].
Defined.

#[global] Instance DataHash_inhabited : Inhabited DataHash := populate (mkDataHash 0 0 0 0).

(** Every word is a [u64]. *)
Definition hash_wf (h : DataHash) : Prop :=
  is_u64 (w0 h) /\ is_u64 (w1 h) /\ is_u64 (w2 h) /\ is_u64 (w3 h).

Definition default : DataHash := mkDataHash 0 0 0 0.

(** [!0u64] in every word. *)
Definition marker : DataHash :=
  mkDataHash (2 ^ 64 - 1) (2 ^ 64 - 1) (2 ^ 64 - 1) (2 ^ 64 - 1).

(** The derived comparison of [[u64; 4]]: lexicographic on the words. *)
Definition cmp (a b : DataHash) : comparison :=
  match w0 a ?= w0 b with
  | Eq => match w1 a ?= w1 b with
          | Eq => match w2 a ?= w2 b with
                  | Eq => w3 a ?= w3 b
                  | c => c
                  end
          | c => c
          end
  | c => c
  end.

(** [hash % rhs] uses the last word only. *)
Definition rem (h : DataHash) (rhs : Z) : Z := w3 h `mod` rhs.

(** ** Raw bytes *)

Inductive DataHashError :=
| invalid_hex (s : list byte)
| invalid_bytes_slice (s : list byte).

Definition as_bytes (h : DataHash) : list byte :=
  le_split 8 (w0 h) ++ le_split 8 (w1 h) ++ le_split 8 (w2 h) ++ le_split 8 (w3 h).

(** [From<[u8; 32]>]: the transmute of 32 bytes. *)
Definition from_bytes (v : list byte) : DataHash :=
  mkDataHash (le_combine (v ⟦0%nat, 8%nat⟧)) (le_combine (v ⟦8%nat, 16%nat⟧))
             (le_combine (v ⟦16%nat, 24%nat⟧)) (le_combine (v ⟦24%nat, 32%nat⟧)).

Definition from_slice (value : list byte) : result DataHashError DataHash :=
  if decide (length value ≠ 32%nat) then Err (invalid_bytes_slice value)
  else Ok (from_bytes value).

(** [u64::from_be_bytes] of each block of eight bytes. *)
Definition from_be_bytes (value : list byte) : DataHash :=
  mkDataHash (le_combine (rev (value ⟦0%nat, 8%nat⟧))) (le_combine (rev (value ⟦8%nat, 16%nat⟧)))
             (le_combine (rev (value ⟦16%nat, 24%nat⟧))) (le_combine (rev (value ⟦24%nat, 32%nat⟧))).

(** ** Hexadecimal text (ASCII bytes) *)

Definition HEX_DIGITS : list byte := String.list_byte_of_string "0123456789abcdef".

Definition hex_digit (d : Z) : byte := nth (Z.to_nat d) HEX_DIGITS Byte.x00.

(** [format!("{:0n x}")]: [n] zero-padded lowercase digits of a value below [16^n]. *)
Fixpoint format_hex (n : nat) (v : Z) : list byte :=
  match n with
  | O => []
  | S n' => format_hex n' (v / 16) ++ [hex_digit (v mod 16)]
  end.

Definition hex (h : DataHash) : list byte :=
  format_hex 16 (w0 h) ++ format_hex 16 (w1 h) ++ format_hex 16 (w2 h) ++ format_hex 16 (w3 h).

(** [char::to_digit(16)]. *)
Definition hex_val (b : byte) : option Z :=
  let c := u8 b in
  if (48 <=? c) && (c <=? 57) then Some (c - 48)
  else if (97 <=? c) && (c <=? 102) then Some (c - 87)
  else if (65 <=? c) && (c <=? 70) then Some (c - 55)
  else None.

Definition is_ascii_hexdigit (b : byte) : bool :=
  match hex_val b with Some _ => true | None => false end.

Definition to_ascii_lowercase (b : byte) : byte :=
  if (65 <=? u8 b) && (u8 b <=? 90) then byte_of (u8 b + 32) else b.

Fixpoint parse_hex (acc : Z) (s : list byte) : option Z :=
  match s with
  | [] => Some acc
  | b :: s' =>
      d ← hex_val b;
      let acc' := acc * 16 + d in
      if acc' <? 2 ^ 64 then parse_hex acc' s' else None
  end.

(** [u64::from_str_radix(s, 16)] on a string of digits. *)
Definition from_str_radix_16 (s : list byte) : option Z :=
  match s with
  | [] => None
  | _ => parse_hex 0 s
  end.

Definition from_hex (h : list byte) : result DataHashError DataHash :=
  let parse_err := invalid_hex h in
  if decide (length h ≠ 64%nat) then Err parse_err
  else if negb (forallb is_ascii_hexdigit h) then Err parse_err
  else
    a ← result_of_option parse_err (from_str_radix_16 (h ⟦0%nat, 16%nat⟧));
    b ← result_of_option parse_err (from_str_radix_16 (h ⟦16%nat, 32%nat⟧));
    c ← result_of_option parse_err (from_str_radix_16 (h ⟦32%nat, 48%nat⟧));
    d ← result_of_option parse_err (from_str_radix_16 (h ⟦48%nat, 64%nat⟧));
    Ok (mkDataHash a b c d).

(** ** Keyed hashing *)

(** What the crate uses of blake3: [keyed_hash key data], whose digest has 32 bytes. *)
Class Blake3 := {
  keyed_hash : list byte -> list byte -> list byte;
  keyed_hash_length : forall key data, length (keyed_hash key data) = 32%nat;
}.

Definition DATA_KEY : list byte := byte_of <$>
  [102; 151; 245; 119; 91; 149; 80; 222; 49; 53; 203; 172; 165; 151; 24; 28; 157; 228; 33; 16; 155; 235; 43; 88; 180;
   208; 176; 75; 147; 173; 242; 41].

Definition INTERNAL_NODE_HASH : list byte := byte_of <$>
  [1; 126; 197; 199; 165; 71; 41; 150; 253; 148; 102; 102; 180; 138; 2; 230; 93; 221; 83; 111; 55; 199; 109; 210; 248;
   99; 82; 230; 74; 83; 113; 63].

Section Keyed.
  Context `{B3 : Blake3}.

Definition compute_data_hash (data : list byte) : DataHash :=
    from_bytes (keyed_hash DATA_KEY data).

Definition compute_internal_node_hash (data : list byte) : DataHash :=
    from_bytes (keyed_hash INTERNAL_NODE_HASH data).

Definition hmac (h key : DataHash) : DataHash :=
    from_bytes (keyed_hash (as_bytes key) (as_bytes h)).

End Keyed.

(** ** Byte conversions *)

Lemma length_as_bytes h : length (as_bytes h) = 32%nat.
Proof. unfold as_bytes. by rewrite !length_app, !length_le_split. Qed.

Lemma from_bytes_as_bytes h : hash_wf h -> from_bytes (as_bytes h) = h.
Proof.
  intros (H0 & H1 & H2 & H3). destruct h as [a b c d]. unfold from_bytes, as_bytes. cbn [w0 w1 w2 w3] in *.
  rewrite (slice_prefix 8) by apply length_le_split.
  rewrite (slice_middle 8 16) by by rewrite ?length_le_split.
  rewrite (app_assoc (le_split 8 a)), (slice_middle 16 24) by by rewrite ?length_app, ?length_le_split.
  rewrite (app_assoc _ (le_split 8 c)), <- (app_nil_r (le_split 8 d)).
  rewrite (slice_middle 24 32) by by rewrite ?length_app, ?length_le_split.
  by rewrite !le_combine_split_small.
Qed.

Lemma from_bytes_wf v : length v = 32%nat -> hash_wf (from_bytes v).
Proof.
  intros Hl. unfold from_bytes, hash_wf; simpl.
  split_and!; apply le_combine_u64; rewrite slice_length; lia.
Qed.

Lemma as_bytes_from_bytes v : length v = 32%nat -> as_bytes (from_bytes v) = v.
Proof.
  intros Hl. unfold as_bytes, from_bytes. cbn [w0 w1 w2 w3].
  rewrite !split_le_combine' by (rewrite slice_length; lia).
  rewrite !slice_app_slice by lia. rewrite slice_0. apply take_ge. lia.
Qed.

(** Hashes and their 32 raw bytes are in bijection.  [from_slice] accepts a byte string as
    the hash [h] exactly when [h] is four 64-bit words whose bytes are that string, so every
    string of 32 bytes is the bytes of one hash and no other string is accepted. *)
Theorem from_slice_roundtrip v h :
  from_slice v = Ok h <-> hash_wf h /\ as_bytes h = v.
Proof.
  unfold from_slice. case_decide as Hl; split.
  - done.
  - intros [_ <-]. by rewrite length_as_bytes in Hl.
  - intros [= <-]. by split; [apply from_bytes_wf | apply as_bytes_from_bytes].
  - intros [Hwf <-]. by rewrite from_bytes_as_bytes.
Qed.

(** ** Hexadecimal conversions *)

Lemma length_format_hex n v : length (format_hex n v) = n.
Proof. revert v. induction n as [|n IH]; intros v; simpl; [done|]. rewrite length_app, IH. simpl. lia. Qed.

Lemma byte_forall (P : byte -> bool) :
  forallb P (byte_of <$> seqZ 0 256) = true -> forall b, P b = true.
Proof.
  intros Hall b. rewrite forallb_forall in Hall. apply Hall.
  rewrite <- (byte.of_Z_unsigned b). apply list_elem_of_In, list_elem_of_fmap_2.
  apply elem_of_seqZ. pose proof (byte.unsigned_range b). lia.
Qed.

Lemma hex_val_digit d : 0 <= d < 16 -> hex_val (hex_digit d) = Some d.
Proof.
  intros Hd. assert (Hin : In d (seqZ 0 16)) by (apply list_elem_of_In, elem_of_seqZ; lia).
  clear Hd. revert d Hin. apply List.Forall_forall. vm_compute. repeat constructor.
Qed.

Lemma hex_val_range b d : hex_val b = Some d -> 0 <= d < 16.
Proof. unfold hex_val. intros. case_all; lia. Qed.

Lemma hex_digit_val b d : hex_val b = Some d -> hex_digit d = to_ascii_lowercase b.
Proof.
  intros Hv.
  pose proof (byte_forall (fun b => match hex_val b with
    | Some d => bool_decide (hex_digit d = to_ascii_lowercase b) | None => true end)) as Hf.
  specialize (Hf ltac:(vm_compute; reflexivity) b). simpl in Hf. rewrite Hv in Hf.
  by apply bool_decide_eq_true in Hf.
Qed.

(** Parsing the digits printed for [v] continues the accumulator by [v]. *)
Lemma parse_hex_app acc s t :
  parse_hex acc (s ++ t) = parse_hex acc s ≫= fun a => parse_hex a t.
Proof.
  revert acc. induction s as [|b s IH]; intros acc; simpl; [done|].
  destruct (hex_val b) as [d|]; simpl; [|done]. by case_match.
Qed.

Lemma parse_format_hex n v acc :
  0 <= v < 16 ^ Z.of_nat n -> 0 <= acc -> acc * 16 ^ Z.of_nat n + v < 2 ^ 64 ->
  parse_hex acc (format_hex n v) = Some (acc * 16 ^ Z.of_nat n + v).
Proof.
  revert v. induction n as [|n IH]; intros v Hv Hacc Hlt; simpl.
  - f_equal. change (16 ^ Z.of_nat 0) with 1 in *. lia.
  - rewrite Nat2Z.inj_succ, Z.pow_succ_r in * by lia.
    pose proof (Z.div_mod v 16 ltac:(lia)). pose proof (Z.mod_pos_bound v 16 ltac:(lia)).
    rewrite parse_hex_app, IH by nia. simpl.
    rewrite hex_val_digit by lia. simpl.
    rewrite (proj2 (Z.ltb_lt _ _)) by nia. f_equal. nia.
Qed.

(** Printing a parsed number gives back its digits, in lowercase. *)
Lemma format_parse_hex s acc v :
  0 <= acc -> parse_hex acc s = Some v ->
  acc * 16 ^ Z.of_nat (length s) <= v /\
  (v < 2 ^ 64 \/ s = []) /\
  format_hex (length s) (v - acc * 16 ^ Z.of_nat (length s)) = to_ascii_lowercase <$> s /\
  v - acc * 16 ^ Z.of_nat (length s) < 16 ^ Z.of_nat (length s).
Proof.
  revert v. induction s as [|b s IH] using rev_ind; intros v Hacc Hp.
  - simpl in *. injection Hp as <-. split_and!; [lia|auto|done|lia].
  - rewrite parse_hex_app in Hp. destruct (parse_hex acc s) as [a|] eqn:Ha; simpl in Hp; [|done].
    destruct (hex_val b) as [d|] eqn:Hd; simpl in Hp; [|done]. case_match eqn:Hlt; [|done].
    injection Hp as <-. apply Z.ltb_lt in Hlt.
    destruct (IH a Hacc eq_refl) as (Hge & _ & Hf & Hub).
    pose proof (hex_val_range _ _ Hd). rewrite length_app. simpl length.
    rewrite Nat2Z.inj_add, Z.pow_add_r by lia. change (16 ^ Z.of_nat 1) with 16.
    split_and!; [nia|auto| |nia].
    rewrite Nat.add_1_r, fmap_app. cbn [format_hex fmap list_fmap].
    set (k := 16 ^ Z.of_nat (length s)) in *.
    replace (a * 16 + d - acc * (k * 16)) with ((a - acc * k) * 16 + d) by ring.
    rewrite Z.div_add_l, (Z.div_small d), Z.add_0_r by lia.
    rewrite Z.add_comm, Z_mod_plus_full, Z.mod_small by lia.
    by rewrite Hf, (hex_digit_val _ _ Hd).
Qed.

Lemma length_hex h : length (hex h) = 64%nat.
Proof. unfold hex. by rewrite !length_app, !length_format_hex. Qed.

Lemma from_str_radix_16_format v : is_u64 v -> from_str_radix_16 (format_hex 16 v) = Some v.
Proof.
  intros Hv. unfold from_str_radix_16.
  pose proof (length_format_hex 16 v). destruct (format_hex 16 v) eqn:E; [done|]. rewrite <- E.
  rewrite parse_format_hex by (unfold is_u64 in Hv; lia). f_equal.
Qed.

Lemma from_str_radix_16_inv s v :
  length s = 16%nat -> from_str_radix_16 s = Some v ->
  is_u64 v /\ format_hex 16 v = to_ascii_lowercase <$> s.
Proof.
  intros Hl Hp. destruct s as [|b s]; [done|]. unfold from_str_radix_16 in Hp.
  apply format_parse_hex in Hp as (? & ? & Hf & ?); [|lia]. rewrite Hl in *.
  rewrite Z.mul_0_l, Z.sub_0_r in *. unfold is_u64. split; [lia|done].
Qed.

Lemma format_hex_digits n v : 0 <= v -> forallb is_ascii_hexdigit (format_hex n v) = true.
Proof.
  revert v. induction n as [|n IH]; intros v Hv; simpl; [done|].
  rewrite forallb_app, IH by (apply Z.div_pos; lia). simpl.
  unfold is_ascii_hexdigit. by rewrite hex_val_digit by (apply Z.mod_pos_bound; lia).
Qed.

Lemma parse_hex_total s acc :
  forallb is_ascii_hexdigit s = true -> 0 <= acc ->
  (acc + 1) * 16 ^ Z.of_nat (length s) <= 2 ^ 64 -> is_Some (parse_hex acc s).
Proof.
  revert acc. induction s as [|b s IH]; intros acc Hall Hacc Hb; [by eexists|].
  cbn [forallb] in Hall. apply andb_true_iff in Hall as [Hd Hall].
  unfold is_ascii_hexdigit in Hd. cbn [parse_hex]. destruct (hex_val b) as [d|] eqn:E; [|done].
  pose proof (hex_val_range _ _ E). cbn [length] in Hb. rewrite Nat2Z.inj_succ, Z.pow_succ_r in Hb by lia.
  pose proof (Z.pow_pos_nonneg 16 (Z.of_nat (length s)) ltac:(lia) ltac:(lia)). simpl.
  rewrite (proj2 (Z.ltb_lt _ _)) by nia. apply IH; [done|nia|nia].
Qed.

Lemma from_str_radix_16_total s :
  length s = 16%nat -> forallb is_ascii_hexdigit s = true -> exists v, from_str_radix_16 s = Some v.
Proof.
  intros Hl Hall. destruct (parse_hex_total s 0 Hall) as [v Hv]; [lia|by rewrite Hl|].
  exists v. by destruct s.
Qed.

Lemma forallb_slice {A} (P : A -> bool) a b l : forallb P l = true -> forallb P (l ⟦a, b⟧) = true.
Proof.
  intros Hall. rewrite <- (take_drop a l), forallb_app in Hall. apply andb_true_iff in Hall as [_ Hall].
  unfold slice. rewrite <- (take_drop (b - a) (drop a l)), forallb_app in Hall.
  by apply andb_true_iff in Hall as [? _].
Qed.

Lemma from_hex_of_hex h : hash_wf h -> from_hex (hex h) = Ok h.
Proof.
  intros (H0 & H1 & H2 & H3). unfold from_hex. rewrite decide_False by (rewrite length_hex; lia).
  destruct h as [a b c d]. unfold hex. cbn [w0 w1 w2 w3] in *.
  rewrite !forallb_app, !format_hex_digits by (unfold is_u64 in *; lia). simpl negb. cbn iota.
  rewrite (slice_prefix 16) by apply length_format_hex.
  rewrite (slice_middle 16 32) by by rewrite ?length_format_hex.
  rewrite (app_assoc (format_hex 16 a)), (slice_middle 32 48) by by rewrite ?length_app, ?length_format_hex.
  rewrite (app_assoc _ (format_hex 16 c)), <- (app_nil_r (format_hex 16 d)).
  rewrite (slice_middle 48 64) by by rewrite ?length_app, ?length_format_hex.
  by rewrite !from_str_radix_16_format.
Qed.

Lemma result_of_option_ok {E A} (e : E) (o : option A) a : result_of_option e o = Ok a <-> o = Some a.
Proof. destruct o; naive_solver. Qed.

Lemma hex_of_from_hex s h : from_hex s = Ok h -> hash_wf h /\ hex h = to_ascii_lowercase <$> s.
Proof.
  unfold from_hex. case_decide as Hl; [done|]. case_match; [done|]. intros Hp.
  apply result_bind_ok in Hp as (a & Ha & Hp). apply result_bind_ok in Hp as (b & Hb & Hp).
  apply result_bind_ok in Hp as (c & Hc & Hp). apply result_bind_ok in Hp as (d & Hd & [= <-]).
  rewrite result_of_option_ok in Ha, Hb, Hc, Hd.
  apply from_str_radix_16_inv in Ha as [? Fa], Hb as [? Fb], Hc as [? Fc], Hd as [? Fd];
    try (rewrite slice_length; lia).
  split; [done|]. unfold hex. cbn [w0 w1 w2 w3]. rewrite Fa, Fb, Fc, Fd, <- !fmap_app.
  rewrite !slice_app_slice by lia. f_equal. rewrite slice_0. apply take_ge. lia.
Qed.

(** Printing and parsing hashes are inverse.  The hexadecimal form of a hash parses back to
    the hash, and a string that parses is the hexadecimal form of the result up to the case of
    its letters. *)
Theorem hex_roundtrip :
  (forall h, hash_wf h -> from_hex (hex h) = Ok h) /\
  (forall s h, from_hex s = Ok h -> hash_wf h /\ hex h = to_ascii_lowercase <$> s).
Proof. split; [apply from_hex_of_hex | apply hex_of_from_hex]. Qed.

(** [from_hex] accepts exactly the strings of 64 ASCII hexadecimal digits; any other length or
    character is an error and nothing panics. *)
Theorem from_hex_accepts s :
  is_ok (from_hex s) = (Nat.eqb (length s) 64 && forallb is_ascii_hexdigit s)%bool.
Proof.
  unfold from_hex. case_decide as Hl.
  - by rewrite (proj2 (Nat.eqb_neq _ _) Hl).
  - rewrite Hl. simpl. destruct (forallb is_ascii_hexdigit s) eqn:Hall; simpl; [|done].
    destruct (from_str_radix_16_total (s ⟦0%nat, 16%nat⟧)) as [a ->]; [by rewrite slice_length; lia|by apply forallb_slice|].
    destruct (from_str_radix_16_total (s ⟦16%nat, 32%nat⟧)) as [b ->]; [by rewrite slice_length; lia|by apply forallb_slice|].
    destruct (from_str_radix_16_total (s ⟦32%nat, 48%nat⟧)) as [c ->]; [by rewrite slice_length; lia|by apply forallb_slice|].
    destruct (from_str_radix_16_total (s ⟦48%nat, 64%nat⟧)) as [d ->]; [by rewrite slice_length; lia|by apply forallb_slice|].
    done.
Qed.

(** ** [from_be_bytes]: the bytes in the order of the printed hash *)

Lemma format_hex_byte_snoc n v b :
  0 <= v -> format_hex (n + 2) (v * 256 + u8 b) = format_hex n v ++ format_hex 2 (u8 b).
Proof.
  intros Hv. pose proof (byte.unsigned_range b). rewrite Nat.add_comm. cbn [Nat.add format_hex].
  rewrite app_nil_l, <- app_assoc. simpl app.
  rewrite Z.div_div by lia. change (16 * 16) with 256.
  rewrite Z.div_add_l, (Z.div_small (u8 b)), Z.add_0_r by lia. do 2 f_equal.
  - f_equal. replace (v * 256 + u8 b) with (v * 16 * 16 + u8 b) by ring.
    rewrite Z.div_add_l by lia. rewrite Z.add_comm, Z_mod_plus_full. done.
  - f_equal. f_equal. replace (v * 256 + u8 b) with (u8 b + (v * 16) * 16) by ring. apply Z_mod_plus_full.
Qed.

Lemma le_combine_cons b bs : le_combine (b :: bs) = le_combine bs * 256 + u8 b.
Proof.
  change (b :: bs) with ([b] ++ bs). rewrite le_combine_app, le_combine_1. simpl length.
  pose proof (byte.unsigned_range b). rewrite Z.shiftl_mul_pow2 by lia.
  rewrite <- Z.add_nocarry_lor; [change (2 ^ (Z.of_nat 1 * 8)) with 256; lia|].
  apply Z.bits_inj'. intros n Hn. rewrite Z.land_spec, Z.bits_0.
  destruct (Z.ltb_spec n 8).
  - rewrite Z.mul_pow2_bits_low by lia. apply andb_false_r.
  - rewrite <- (Z.mod_small (u8 b) (2 ^ 8)) by lia. by rewrite Z.mod_pow2_bits_high by lia.
Qed.

Lemma format_hex_be bs :
  format_hex (2 * length bs) (le_combine (rev bs)) = concat ((fun b => format_hex 2 (u8 b)) <$> bs).
Proof.
  induction bs as [|b bs IH] using rev_ind; [done|].
  rewrite rev_app_distr. cbn [rev app]. rewrite le_combine_cons.
  rewrite length_app. cbn [length]. replace (2 * (length bs + 1))%nat with (2 * length bs + 2)%nat by lia.
  pose proof (le_combine_bound (rev bs)).
  rewrite format_hex_byte_snoc by lia. rewrite IH, fmap_app, concat_app. done.
Qed.

(** The hash made from 32 big-endian bytes prints as the two-digit hexadecimal forms of those
    bytes in their own order, as an external digest such as a SHA-256 does. *)
Theorem hex_from_be_bytes v :
  length v = 32%nat -> hex (from_be_bytes v) = concat ((fun b => format_hex 2 (u8 b)) <$> v).
Proof.
  intros Hl. unfold hex, from_be_bytes. cbn [w0 w1 w2 w3].
  assert (Hs : forall a b, (b <= 32)%nat -> (a + 8)%nat = b ->
    format_hex 16 (le_combine (rev (v ⟦a, b⟧))) = concat ((fun b => format_hex 2 (u8 b)) <$> v ⟦a, b⟧)).
  { intros a b Hb Hab. rewrite <- format_hex_be. f_equal. rewrite slice_length; lia. }
  rewrite !Hs by lia. rewrite <- !concat_app, <- !fmap_app, !slice_app_slice by lia.
  rewrite slice_0, take_ge by lia. done.
Qed.

(** ** Ordering *)

Lemma cmp_eq_iff a b : cmp a b = Eq <-> a = b.
Proof.
  destruct a as [a0 a1 a2 a3], b as [b0 b1 b2 b3]. unfold cmp; simpl.
  split; [|intros [= -> -> -> ->]; by rewrite !Z.compare_refl].
  destruct (Z.compare_spec a0 b0), (Z.compare_spec a1 b1), (Z.compare_spec a2 b2),
    (Z.compare_spec a3 b3); naive_solver.
Qed.

Lemma cmp_antisym a b : cmp b a = CompOpp (cmp a b).
Proof.
  unfold cmp. rewrite (Z.compare_antisym (w0 a)), (Z.compare_antisym (w1 a)),
    (Z.compare_antisym (w2 a)), (Z.compare_antisym (w3 a)).
  by destruct (w0 a ?= w0 b), (w1 a ?= w1 b), (w2 a ?= w2 b).
Qed.

Lemma cmp_lt_iff a b :
  cmp a b = Lt <->
  w0 a < w0 b \/ (w0 a = w0 b /\ (w1 a < w1 b \/ (w1 a = w1 b /\
    (w2 a < w2 b \/ (w2 a = w2 b /\ w3 a < w3 b))))).
Proof.
  unfold cmp. destruct (Z.compare_spec (w0 a) (w0 b)), (Z.compare_spec (w1 a) (w1 b)),
    (Z.compare_spec (w2 a) (w2 b)), (Z.compare_spec (w3 a) (w3 b)); split; intros; (done || lia).
Qed.

Lemma cmp_trans a b c : cmp a b = Lt -> cmp b c = Lt -> cmp a c = Lt.
Proof. rewrite !cmp_lt_iff. lia. Qed.

(** ** A concrete hash, for the examples

    A polynomial of the data bytes, reduced to 32 bytes. *)
Definition toy_keyed_hash (key data : list byte) : list byte :=
  le_split 32 (fold_left (fun a b => (a * 257 + u8 b + 1) mod 2 ^ 256) data 0).

Definition toy_blake3 : Blake3 :=
  {| keyed_hash := toy_keyed_hash; keyed_hash_length := fun _ _ => length_le_split 32 _ |}.

Lemma hex_from_be_bytes_witness :
  hex (from_be_bytes (byte_of <$> seqZ 0 32)) = concat ((fun b => format_hex 2 (u8 b)) <$> (byte_of <$> seqZ 0 32)).
Proof. apply (hex_from_be_bytes (byte_of <$> seqZ 0 32)). vm_compute. reflexivity. Defined.
