(* ===== verification/AggregatedHash.v ===== *)
(** * Aggregated Merkle hashes

    Model of [xet_core_structures/src/merklehash/aggregated_hashes.rs]: the cut
    rule that splits a sequence of [(hash, size)] nodes into groups, the text
    hashed for a group, and the collapse of a sequence of chunk hashes to the
    xorb hash or file hash. *)

From coqutil Require Import Byte.
From stdpp Require Import base numbers list.
From Stdlib Require String.
From S2P Require Import Prelude DataHash.

Abbreviation Node := (DataHash * Z)%type.

(** ** The cut rule *)

Definition AGGREGATED_HASHES_MEAN_TREE_BRANCHING_FACTOR : Z := 4.
Definition MIN_GROUP_SIZE : nat := 2.
Definition MAX_GROUP_SIZE : nat := 2 * 4 + 1.

Definition is_natural_cut (h : DataHash) : bool :=
  (rem h AGGREGATED_HASHES_MEAN_TREE_BRANCHING_FACTOR =? 0)%Z.

(** [for i in i..end], with [n = end - i] rounds left. *)
Fixpoint next_merge_cut_loop (hashes : list Node) (i n : nat) : option nat :=
  match n with
  | O => None
  | S n' =>
      match hashes !! i with
      | Some (h, _) =>
          if (rem h AGGREGATED_HASHES_MEAN_TREE_BRANCHING_FACTOR =? 0)%Z
          then Some (i + 1)
          else next_merge_cut_loop hashes (i + 1) n'
      | None => None
      end
  end.

Definition next_merge_cut (hashes : list Node) : nat :=
  if length hashes <=? 2 then length hashes
  else
    let end_ := Nat.min (2 * 4 + 1) (length hashes) in
    match next_merge_cut_loop hashes 2 (end_ - 2) with
    | Some c => c
    | None => end_
    end.

(** ** The text of a group

    The bytes [buf[..pos]] written so far are a list; that the 792-byte stack
    buffer is never overrun is [merge_buffer_in_bounds] below. *)

Definition write_hex_u64 (val : Z) : list byte :=
  (fun s => hex_digit (Z.land (Z.shiftr val s) 15)) <$>
    [60; 56; 52; 48; 44; 40; 36; 32; 28; 24; 20; 16; 12; 8; 4; 0]%Z.

(** [while v > 0]: digits are produced from the last slot of a 20-byte array. *)
Fixpoint write_decimal_loop (slots : nat) (v : Z) (digits : list byte) : list byte :=
  match slots with
  | O => digits
  | S slots' =>
      if (v >? 0)%Z
      then write_decimal_loop slots' (v / 10) (byte_of (48 + v mod 10) :: digits)
      else digits
  end.

Definition write_decimal_u64 (val : Z) : list byte :=
  if (val =? 0)%Z then [Byte.x30] else write_decimal_loop 20 val [].

Definition MAX_MERGE_BUF_SIZE : nat := (2 * 4 + 1) * 88.

Definition write_hash_entry (buf : list byte) (total_len : Z) (h : DataHash) (s : Z) : list byte * Z :=
  let buf := buf ++ write_hex_u64 (w0 h) in
  let buf := buf ++ write_hex_u64 (w1 h) in
  let buf := buf ++ write_hex_u64 (w2 h) in
  let buf := buf ++ write_hex_u64 (w3 h) in
  let buf := buf ++ [Byte.x20; Byte.x3a; Byte.x20] in
  let buf := buf ++ write_decimal_u64 s in
  let buf := buf ++ [Byte.x0a] in
  (buf, wrap64 (total_len + s)).

Definition write_hash_entries (hash : list Node) : list byte * Z :=
  fold_left (fun '(buf, total_len) '(h, s) => write_hash_entry buf total_len h s) hash ([], 0%Z).

Section Aggregated.
  Context `{B3 : Blake3}.

Definition merged_hash_of_sequence (hash : list Node) : Node :=
    let '(buf, total_len) := write_hash_entries hash in
    (compute_internal_node_hash buf, total_len).

(** ** The collapse, in place in the vector [hv] *)

(** [while read_idx != hv.len()]; a pass over [n] nodes has at most [n] rounds. *)
Fixpoint merge_pass_loop (fuel : nat) (hv : list Node) (write_idx read_idx : nat) : list Node * nat :=
    match fuel with
    | O => (hv, write_idx)
    | S fuel' =>
        if read_idx =? length hv then (hv, write_idx)
        else
          let next_cut := read_idx + next_merge_cut (drop read_idx hv) in
          let hv' := <[write_idx := merged_hash_of_sequence (hv ⟦read_idx, next_cut⟧)]> hv in
          merge_pass_loop fuel' hv' (write_idx + 1) next_cut
    end.

(** [while hv.len() > 1]; [resize] to [write_idx <= hv.len()] truncates. *)
Fixpoint collapse_loop (fuel : nat) (hv : list Node) : list Node :=
    match fuel with
    | O => hv
    | S fuel' =>
        if length hv <=? 1 then hv
        else
          let '(hv', write_idx) := merge_pass_loop (length hv) hv 0 0 in
          collapse_loop fuel' (take write_idx hv')
    end.

Definition aggregated_node_hash (chunks : list Node) : DataHash :=
    match chunks with
    | [] => default
    | _ =>
        match collapse_loop (length chunks) chunks with
        | (h, _) :: _ => h
        | [] => default
        end
    end.

Definition xorb_hash (chunks : list Node) : DataHash :=
    match chunks with
    | [] => default
    | _ => aggregated_node_hash chunks
    end.

Definition file_hash_with_salt (chunks : list Node) (salt : list byte) : DataHash :=
    match chunks with
    | [] => default
    | _ => hmac (aggregated_node_hash chunks) (from_bytes salt)
    end.

Definition file_hash (chunks : list Node) : DataHash :=
    file_hash_with_salt chunks (replicate 32 Byte.x00).

(** ** Reference definition

    [cut_groups] splits a sequence into its groups, [promote] merges each group
    into its parent, and [Root l r] says that repeating [promote] ends in [r]. *)

Fixpoint cut_groups_fuel (fuel : nat) (l : list Node) : list (list Node) :=
    match fuel with
    | O => []
    | S fuel' =>
        match l with
        | [] => []
        | _ => take (next_merge_cut l) l :: cut_groups_fuel fuel' (drop (next_merge_cut l) l)
        end
    end.

Definition cut_groups (l : list Node) : list (list Node) := cut_groups_fuel (length l) l.

Definition promote (l : list Node) : list Node := merged_hash_of_sequence <$> cut_groups l.

Inductive Root : list Node -> Node -> Prop :=
  | Root_one n : Root [n] n
  | Root_promote l n : 1 < length l -> Root (promote l) n -> Root l n.

End Aggregated.

(** ** Natural cuts by position *)

Definition cut_at (l : list Node) (i : nat) : bool :=
  match l !! i with
  | Some n => is_natural_cut n.1
  | None => false
  end.

Lemma cut_at_app_l l t i : i < length l -> cut_at (l ++ t) i = cut_at l i.
Proof. intros. unfold cut_at. by rewrite lookup_app_l. Qed.

Lemma cut_at_app_r l t i : cut_at (l ++ t) (length l + i) = cut_at t i.
Proof. unfold cut_at. rewrite lookup_app_r by lia. by replace (length l + i - length l) with i by lia. Qed.

Lemma cut_at_drop n l i : cut_at (drop n l) i = cut_at l (n + i).
Proof. unfold cut_at. by rewrite lookup_drop. Qed.

Lemma cut_at_take n l i : i < n -> cut_at (take n l) i = cut_at l i.
Proof. intros. unfold cut_at. by rewrite lookup_take_lt. Qed.

Lemma cut_at_lt l i : cut_at l i = true -> i < length l.
Proof. unfold cut_at. case_match eqn:E; [|done]. intros _. by eapply lookup_lt_Some. Qed.

Lemma cut_at_ge l i : length l <= i -> cut_at l i = false.
Proof. intros. unfold cut_at. by rewrite lookup_ge_None_2. Qed.

(** ** What [next_merge_cut] returns *)

Lemma next_merge_cut_loop_step l i n :
  i < length l ->
  next_merge_cut_loop l i (S n) = if cut_at l i then Some (i + 1) else next_merge_cut_loop l (i + 1) n.
Proof.
  intros Hi. apply lookup_lt_is_Some in Hi as [[h s] Hh]. simpl.
  unfold cut_at. rewrite Hh. done.
Qed.

Lemma next_merge_cut_loop_spec l i n :
  i + n <= length l ->
  match next_merge_cut_loop l i n with
  | Some c => exists j, c = j + 1 /\ i <= j < i + n /\ cut_at l j = true /\
                        forall k, i <= k < j -> cut_at l k = false
  | None => forall k, i <= k < i + n -> cut_at l k = false
  end.
Proof.
  revert i. induction n as [|n IH]; intros i Hi; [simpl; intros; lia|].
  rewrite next_merge_cut_loop_step by lia. destruct (cut_at l i) eqn:Hc.
  - exists i. split_and!; [done|lia|lia|done|intros; lia].
  - specialize (IH (i + 1) ltac:(lia)). destruct (next_merge_cut_loop l (i + 1) n).
    + destruct IH as (j & -> & Hj & Hcut & Hno). exists j. split_and!; [done|lia|lia|done|].
      intros k Hk. destruct (decide (k = i)) as [->|]; [done|]. apply Hno. lia.
    + intros k Hk. destruct (decide (k = i)) as [->|]; [done|]. apply IH. lia.
Qed.

Lemma next_merge_cut_natural l j :
  2 <= j <= 8 -> cut_at l j = true -> (forall k, 2 <= k < j -> cut_at l k = false) ->
  next_merge_cut l = j + 1.
Proof.
  intros Hj Hc Hno. pose proof (cut_at_lt _ _ Hc). unfold next_merge_cut.
  destruct (Nat.leb_spec (length l) 2); [lia|].
  pose proof (next_merge_cut_loop_spec l 2 (Nat.min (2 * 4 + 1) (length l) - 2) ltac:(lia)) as Hs.
  case_match.
  - destruct Hs as (j' & -> & Hj' & Hc' & Hno').
    destruct (Nat.lt_trichotomy j j') as [?|[->|?]]; [|done|].
    + by rewrite Hno' in Hc by lia.
    + by rewrite Hno in Hc' by lia.
  - by rewrite Hs in Hc by lia.
Qed.

Lemma next_merge_cut_forced l :
  (forall k, 2 <= k <= 8 -> cut_at l k = false) -> next_merge_cut l = Nat.min 9 (length l).
Proof.
  intros Hno. unfold next_merge_cut. destruct (Nat.leb_spec (length l) 2); [lia|].
  pose proof (next_merge_cut_loop_spec l 2 (Nat.min (2 * 4 + 1) (length l) - 2) ltac:(lia)) as Hs.
  case_match; [|lia]. destruct Hs as (j & -> & Hj & Hc & _). by rewrite Hno in Hc by lia.
Qed.

(** The first natural cut among the positions 2 to 8, if any. *)
Lemma first_cut_cases l :
  (exists j, 2 <= j <= 8 /\ cut_at l j = true /\ forall k, 2 <= k < j -> cut_at l k = false) \/
  (forall k, 2 <= k <= 8 -> cut_at l k = false).
Proof.
  assert (Hn : forall n, (exists j, 2 <= j < 2 + n /\ cut_at l j = true /\
                            forall k, 2 <= k < j -> cut_at l k = false) \/
                         (forall k, 2 <= k < 2 + n -> cut_at l k = false)).
  { induction n as [|n [(j & ? & ? & ?)|IH]]; [right; lia|left; exists j; split_and!; auto; lia|].
    destruct (cut_at l (2 + n)) eqn:Hc; [left; exists (2 + n); split_and!; auto; lia|].
    right. intros k Hk. destruct (decide (k = 2 + n)) as [->|]; [done|]. apply IH. lia. }
  destruct (Hn 7) as [(j & ? & ? & ?)|Hno]; [left; exists j; split_and!; auto; lia|].
  right. intros k Hk. apply Hno. lia.
Qed.

Lemma next_merge_cut_bounds l :
  next_merge_cut l <= length l /\ next_merge_cut l <= 9 /\
  (l <> [] -> 1 <= next_merge_cut l) /\ (3 <= length l -> 3 <= next_merge_cut l).
Proof.
  destruct (first_cut_cases l) as [(j & Hj & Hc & Hno)|Hno].
  - rewrite (next_merge_cut_natural l j) by done. pose proof (cut_at_lt _ _ Hc). split_and!; lia.
  - rewrite next_merge_cut_forced by done. split_and!; try lia.
    destruct l; [done|]; intros; simpl; lia.
Qed.

(** A cut inside [l] does not depend on what follows [l]. *)
Lemma next_merge_cut_app l t :
  9 <= length l \/ (exists j, 2 <= j <= 8 /\ cut_at l j = true) ->
  next_merge_cut (l ++ t) = next_merge_cut l.
Proof.
  intros Hl. destruct (first_cut_cases l) as [(j & Hj & Hc & Hno)|Hno].
  - pose proof (cut_at_lt _ _ Hc). rewrite (next_merge_cut_natural l j) by done.
    apply next_merge_cut_natural; [done|by rewrite cut_at_app_l by lia|].
    intros k Hk. rewrite cut_at_app_l by lia. auto.
  - destruct Hl as [Hl|(j & Hj & Hc)]; [|by rewrite Hno in Hc].
    rewrite (next_merge_cut_forced l), next_merge_cut_forced by
      (try done; intros k Hk; rewrite cut_at_app_l by lia; auto).
    rewrite length_app. lia.
Qed.

(** ** Groups *)

Lemma cut_groups_fuel_enough n m l :
  length l <= n -> length l <= m -> cut_groups_fuel n l = cut_groups_fuel m l.
Proof.
  revert m l. induction n as [|n IH]; intros m l Hn Hm.
  - destruct l; [|simpl in Hn; lia]. by destruct m.
  - destruct l as [|x l']; [by destruct m|]. destruct m as [|m]; [simpl in Hm; lia|].
    cbn [cut_groups_fuel]. set (l := x :: l') in *.
    pose proof (next_merge_cut_bounds l) as (? & _ & Hpos & _). specialize (Hpos ltac:(done)).
    f_equal. apply IH; rewrite length_drop; lia.
Qed.

Lemma cut_groups_cons l :
  l <> [] -> cut_groups l = take (next_merge_cut l) l :: cut_groups (drop (next_merge_cut l) l).
Proof.
  intros Hl. unfold cut_groups at 1. destruct l as [|x l']; [done|]. set (l := x :: l').
  pose proof (next_merge_cut_bounds l) as (? & _ & Hpos & _). specialize (Hpos ltac:(done)).
  change (length l) with (S (length l')). cbn [cut_groups_fuel]. f_equal.
  apply cut_groups_fuel_enough; rewrite length_drop; change (length l) with (S (length l')) in *; lia.
Qed.

Lemma cut_groups_nil : cut_groups [] = [].
Proof. done. Qed.

(** Induction along the groups of a sequence. *)
Lemma groups_ind (P : list Node -> Prop) :
  P [] -> (forall l, l <> [] -> P (drop (next_merge_cut l) l) -> P l) -> forall l, P l.
Proof.
  intros Hnil Hstep l. induction l as [l IH] using (induction_ltof1 _ (@length _)). unfold ltof in IH.
  destruct l as [|x l]; [done|]. apply Hstep; [done|]. apply IH.
  pose proof (next_merge_cut_bounds (x :: l)) as (? & _ & Hpos & _). specialize (Hpos ltac:(done)).
  rewrite length_drop. simpl in *. lia.
Qed.

Lemma concat_cut_groups l : concat (cut_groups l) = l.
Proof.
  induction l as [|l Hl IH] using groups_ind; [done|].
  rewrite cut_groups_cons by done. cbn [concat]. rewrite IH. apply take_drop.
Qed.

Lemma cut_groups_sizes l : Forall (fun g => 1 <= length g <= MAX_GROUP_SIZE) (cut_groups l).
Proof.
  induction l as [|l Hl IH] using groups_ind; [constructor|]. rewrite cut_groups_cons by done.
  pose proof (next_merge_cut_bounds l) as (? & ? & Hpos & _). specialize (Hpos Hl).
  constructor; [|done]. rewrite length_take. unfold MAX_GROUP_SIZE. lia.
Qed.

(** Every group but the last has at least three nodes. *)
Lemma cut_groups_not_last gs g g' rest l :
  cut_groups l = gs ++ g :: g' :: rest -> 3 <= length g.
Proof.
  revert gs. induction l as [|l Hl IH] using groups_ind; intros gs Hg; [by destruct gs|].
  rewrite cut_groups_cons in Hg by done. destruct gs as [|g0 gs]; injection Hg as Heq Hg; [|by eapply IH].
  destruct (decide (3 <= length l)) as [Hlen|Hlen].
  - pose proof (next_merge_cut_bounds l) as (? & _ & _ & H3). specialize (H3 Hlen).
    rewrite <- Heq, length_take. lia.
  - assert (next_merge_cut l = length l) as Hc
      by (unfold next_merge_cut; rewrite (proj2 (Nat.leb_le _ _)) by lia; done).
    rewrite Hc, drop_all, cut_groups_nil in Hg. done.
Qed.

(** Promotion shrinks every sequence of more than one node. *)
Lemma length_cut_groups l : 1 < length l -> length (cut_groups l) < length l.
Proof.
  assert (Hle : forall l, length (cut_groups l) <= length l).
  { clear l. intros l. induction l as [|l Hl IH] using groups_ind; [done|].
    rewrite cut_groups_cons by done. cbn [length].
    pose proof (next_merge_cut_bounds l) as (? & _ & Hpos & _). specialize (Hpos Hl).
    rewrite length_drop in IH. lia. }
  intros Hlen. rewrite cut_groups_cons by (destruct l; simpl in *; [lia|done]). cbn [length].
  pose proof (next_merge_cut_bounds l) as (? & _ & _ & H3).
  specialize (Hle (drop (next_merge_cut l) l)). rewrite length_drop in Hle.
  destruct (decide (length l = 2)) as [Heq|]; [|lia].
  assert (next_merge_cut l = length l) as Hc
    by (unfold next_merge_cut; rewrite (proj2 (Nat.leb_le _ _)) by lia; done). lia.
Qed.

Lemma cut_groups_nonempty l : l <> [] -> cut_groups l <> [].
Proof. intros. by rewrite cut_groups_cons. Qed.

(** ** Stable boundaries

    [closed l]: the groups of [l] are the same whatever follows it. *)

Definition closed (l : list Node) : Prop := forall t, cut_groups (l ++ t) = cut_groups l ++ cut_groups t.

(** [l] ends with two consecutive natural cuts whose distance is 3 to 7. *)
Definition stable_tail (l : list Node) : Prop :=
  exists i, i + 1 < length l /\ 3 <= length l - 1 - i <= 7 /\
    cut_at l i = true /\ cut_at l (length l - 1) = true /\
    forall k, i < k < length l - 1 -> cut_at l k = false.

Lemma closed_nil : closed [].
Proof. by intros t. Qed.

Lemma closed_app l1 l2 : closed l1 -> closed l2 -> closed (l1 ++ l2).
Proof. intros H1 H2 t. by rewrite <- app_assoc, H1, H2, H1, app_assoc. Qed.

Lemma stable_tail_app_r l1 l2 : stable_tail l2 -> stable_tail (l1 ++ l2).
Proof.
  intros (i & Hi & Hgap & Hci & Hcl & Hno). exists (length l1 + i).
  rewrite length_app. replace (length l1 + length l2 - 1) with (length l1 + (length l2 - 1)) by lia.
  rewrite !cut_at_app_r. split_and!; try done; try lia. intros k Hk.
  replace k with (length l1 + (k - length l1)) by lia. rewrite cut_at_app_r. apply Hno. lia.
Qed.

(** A sequence of 3 to 9 nodes whose first cut past position 2 is its last node is one group. *)
Lemma final_group l t :
  3 <= length l <= 9 -> cut_at l (length l - 1) = true ->
  (forall k, 2 <= k < length l - 1 -> cut_at l k = false) ->
  cut_groups (l ++ t) = l :: cut_groups t.
Proof.
  intros Hl Hc Hno.
  assert (next_merge_cut (l ++ t) = length l) as Hn.
  { rewrite next_merge_cut_app by (right; exists (length l - 1); split; [lia|done]).
    rewrite (next_merge_cut_natural l (length l - 1)) by (done || lia). lia. }
  rewrite cut_groups_cons by (destruct l; simpl in *; [lia|done]).
  by rewrite Hn, take_app_length, drop_app_length.
Qed.

Lemma stable_tail_closed l : stable_tail l -> closed l.
Proof.
  intros Hst t. revert Hst. induction l as [l IH] using (induction_ltof1 _ (@length _)). unfold ltof in IH.
  intros (i & Hi & Hgap & Hci & Hcl & Hno).
  assert (Hfin : forall l', 3 <= length l' <= 9 -> cut_at l' (length l' - 1) = true ->
    (forall k, 2 <= k < length l' - 1 -> cut_at l' k = false) ->
    cut_groups (l' ++ t) = cut_groups l' ++ cut_groups t).
  { intros l' ? ? ?. rewrite final_group by done.
    by rewrite <- (app_nil_r l') at 2; rewrite final_group, cut_groups_nil by done. }
  destruct (decide (i < 2)) as [Hi2|Hi2]; [apply Hfin; [lia|done|intros; apply Hno; lia]|].
  assert (next_merge_cut (l ++ t) = next_merge_cut l) as Heq.
  { apply next_merge_cut_app. destruct (decide (i <= 8)); [right; exists i; split; [lia|done]|left; lia]. }
  assert (next_merge_cut l <= i + 1) as Hle.
  { destruct (first_cut_cases l) as [(j & Hj & Hc & Hn)|Hn].
    - rewrite (next_merge_cut_natural l j) by done.
      destruct (decide (j <= i)); [lia|]. by rewrite Hn in Hci by lia.
    - rewrite next_merge_cut_forced by done. destruct (decide (i <= 8)); [by rewrite Hn in Hci by lia|lia]. }
  assert (l <> []) as Hne by (destruct l; simpl in *; [lia|done]).
  pose proof (next_merge_cut_bounds l) as (_ & _ & Hpos & _). specialize (Hpos Hne).
  rewrite (cut_groups_cons (l ++ t)), (cut_groups_cons l) by (destruct l; done).
  rewrite Heq, take_app_le, drop_app_le by lia. cbn [app]. f_equal.
  set (g := next_merge_cut l) in *.
  destruct (decide (g = i + 1)) as [Hg|Hg].
  - apply Hfin; rewrite length_drop; [lia| |intros k Hk]; rewrite cut_at_drop.
    + by replace (g + (length l - g - 1)) with (length l - 1) by lia.
    + apply Hno. lia.
  - apply IH; [rewrite length_drop; lia|]. exists (i - g). rewrite length_drop.
    split_and!; [lia|lia|lia| | |intros k Hk]; rewrite cut_at_drop.
    + by replace (g + (i - g)) with i by lia.
    + by replace (g + (length l - g - 1)) with (length l - 1) by lia.
    + apply Hno. lia.
Qed.

(** ** The in-place collapse computes the reference root *)

Section Collapse.
  Context `{B3 : Blake3}.

Lemma merge_pass_loop_spec fuel hv w r :
    w <= r <= length hv -> length hv - r <= fuel ->
    let '(hv', w') := merge_pass_loop fuel hv w r in
    take w' hv' = take w hv ++ promote (drop r hv).
Proof.
  revert hv w r. induction fuel as [|fuel IH]; intros hv w r Hw Hf; cbn [merge_pass_loop].
  - rewrite drop_ge by lia. unfold promote. simpl. by rewrite app_nil_r.
  - destruct (Nat.eqb_spec r (length hv)) as [->|Hr].
    { rewrite drop_all. unfold promote. simpl. by rewrite app_nil_r. }
    set (c := next_merge_cut (drop r hv)). set (x := merged_hash_of_sequence (hv⟦r, r + c⟧)).
    assert (Hne : drop r hv <> []) by (intros E%(f_equal length); rewrite length_drop in E; simpl in E; lia).
    pose proof (next_merge_cut_bounds (drop r hv)) as (Hc & _ & Hpos & _). specialize (Hpos Hne).
    fold c in Hc, Hpos. rewrite length_drop in Hc.
    specialize (IH (<[w:=x]> hv) (w + 1) (r + c)). rewrite length_insert in IH.
    specialize (IH ltac:(lia) ltac:(lia)).
    destruct (merge_pass_loop fuel (<[w:=x]> hv) (w + 1) (r + c)) as [hv' w'].
    rewrite IH, drop_insert_lt by lia. unfold promote at 2. rewrite cut_groups_cons by done.
    fold c. rewrite drop_drop, fmap_cons. fold (promote (drop (r + c) hv)).
    rewrite Nat.add_1_r, (take_S_r _ _ x) by (apply list_lookup_insert_eq; lia).
    rewrite take_insert_ge by lia. rewrite <- app_assoc. simpl. do 2 f_equal.
    unfold x, slice. by replace (r + c - r) with c by lia.
Qed.

Lemma length_promote l : 1 < length l -> length (promote l) < length l.
Proof. unfold promote. rewrite length_fmap. apply length_cut_groups. Qed.

Lemma promote_nonempty l : l <> [] -> promote l <> [].
Proof. intros Hl Hp. apply (cut_groups_nonempty l Hl). unfold promote in Hp. by destruct (cut_groups l). Qed.

Lemma collapse_loop_step fuel hv :
    collapse_loop (S fuel) hv = if length hv <=? 1 then hv else collapse_loop fuel (promote hv).
Proof.
  cbn [collapse_loop]. destruct (Nat.leb_spec (length hv) 1); [done|].
  pose proof (merge_pass_loop_spec (length hv) hv 0 0 ltac:(lia) ltac:(lia)) as Hp.
  destruct (merge_pass_loop (length hv) hv 0 0) as [hv' w']. by rewrite Hp.
Qed.

Lemma collapse_loop_root fuel hv :
    hv <> [] -> length hv <= S fuel -> exists n, collapse_loop fuel hv = [n] /\ Root hv n.
Proof.
  revert hv. induction fuel as [|fuel IH]; intros hv Hne Hlen.
  - destruct hv as [|n [|]]; [done| |simpl in Hlen; lia]. exists n. split; [done|constructor].
  - rewrite collapse_loop_step. destruct (Nat.leb_spec (length hv) 1) as [Hle|Hgt].
    + destruct hv as [|n [|]]; [done| |simpl in Hle; lia]. exists n. split; [done|constructor].
    + pose proof (length_promote hv Hgt).
      destruct (IH (promote hv)) as (n & ? & ?); [by apply promote_nonempty|lia|].
      exists n. split; [done|by constructor].
Qed.

Lemma Root_functional l n m : Root l n -> Root l m -> n = m.
Proof.
  intros Hn. revert m. induction Hn as [n|l n Hlen Hr IH]; intros m Hm.
  - inversion Hm; subst; [done|simpl in *; lia].
  - inversion Hm; subst; [simpl in *; lia|by apply IH].
Qed.

Lemma aggregated_node_hash_root l n : Root l n -> aggregated_node_hash l = n.1.
Proof.
  intros Hr. assert (l <> []) as Hne by (intros ->; inversion Hr; simpl in *; lia).
  destruct (collapse_loop_root (length l) l Hne ltac:(lia)) as (m & Hm & Hrm).
  unfold aggregated_node_hash. destruct l as [|x l]; [done|]. rewrite Hm.
  rewrite (Root_functional _ _ _ Hr Hrm). by destruct m.
Qed.

Lemma Root_total l : l <> [] -> exists n, Root l n.
Proof.
  intros Hne. destruct (collapse_loop_root (length l) l Hne ltac:(lia)) as (n & _ & ?). eauto.
Qed.

(** C11: the in-place collapse of a hash list computes its Merkle root.  The loop ends within as
    many passes as there are nodes, with one node left; that node is the root that repeated
    promotion of the cut groups defines, and its hash is the value returned.  The empty list has
    the zero hash. *)
Theorem aggregated_node_hash_correct l :
    (l = [] /\ aggregated_node_hash l = default) \/
    (exists n, collapse_loop (length l) l = [n] /\ Root l n /\ aggregated_node_hash l = n.1).
Proof.
  destruct l as [|x l]; [by left|]. right.
  destruct (collapse_loop_root (length (x :: l)) (x :: l)) as (n & Hn & Hr); [done|lia|].
  exists n. split_and!; [done|done|by apply aggregated_node_hash_root].
Qed.

End Collapse.

(** ** The text of a group *)

Lemma format_hex_seq n v :
  (0 <= v)%Z ->
  format_hex n v = (fun k => hex_digit (v / 16 ^ Z.of_nat k mod 16)%Z) <$> rev (seq 0 n).
Proof.
  revert v. induction n as [|n IH]; intros v Hv; [done|].
  cbn [format_hex seq rev]. rewrite fmap_app, IH by (apply Z.div_pos; lia).
  rewrite <- seq_shift, <- map_rev. f_equal; [|simpl; by rewrite Z.div_1_r].
  rewrite <- list_fmap_compose. apply list_fmap_ext. intros _ k _. simpl.
  rewrite Z.div_div by lia. do 3 f_equal. rewrite <- Z.pow_succ_r by lia. f_equal. lia.
Qed.

Lemma write_hex_u64_format v : is_u64 v -> write_hex_u64 v = format_hex 16 v.
Proof.
  intros Hv. unfold is_u64 in Hv. rewrite format_hex_seq by lia. unfold write_hex_u64. cbn [seq rev app fmap list_fmap].
  assert (Hd : forall k, (0 <= k)%Z -> Z.land (Z.shiftr v (4 * k)) 15 = (v / 16 ^ k mod 16)%Z).
  { intros k Hk. rewrite Z.shiftr_div_pow2 by lia. rewrite Z.pow_mul_r by lia.
    change (2 ^ 4)%Z with 16%Z. by rewrite (Z.land_ones _ 4). }
  change 60%Z with (4 * 15)%Z. change 56%Z with (4 * 14)%Z. change 52%Z with (4 * 13)%Z.
  change 48%Z with (4 * 12)%Z. change 44%Z with (4 * 11)%Z. change 40%Z with (4 * 10)%Z.
  change 36%Z with (4 * 9)%Z. change 32%Z with (4 * 8)%Z. change 28%Z with (4 * 7)%Z.
  change 24%Z with (4 * 6)%Z. change 20%Z with (4 * 5)%Z. change 12%Z with (4 * 3)%Z.
  change (Z.shiftr v 16) with (Z.shiftr v (4 * 4)). change (Z.shiftr v 8) with (Z.shiftr v (4 * 2)).
  change (Z.shiftr v 4) with (Z.shiftr v (4 * 1)). change (Z.shiftr v 0) with (Z.shiftr v (4 * 0)).
  by rewrite !Hd by lia.
Qed.

Definition node_wf (n : Node) : Prop := hash_wf n.1 /\ is_u64 n.2.

Definition is_decimal_digit (b : byte) : Prop := (48 <= u8 b <= 57)%Z.

(** The number written by a string of decimal digits. *)
Definition decimal_value (s : list byte) : Z := fold_left (fun a b => a * 10 + (u8 b - 48))%Z s 0%Z.

Lemma u8_digit d : (0 <= d < 10)%Z -> u8 (byte_of (48 + d)) = (48 + d)%Z.
Proof. intros. rewrite byte.unsigned_of_Z. apply Z.mod_small. lia. Qed.

Lemma write_decimal_loop_spec slots v acc :
  (0 <= v < 10 ^ Z.of_nat slots)%Z ->
  exists ds, write_decimal_loop slots v acc = ds ++ acc /\ length ds <= slots /\
             Forall is_decimal_digit ds /\ decimal_value ds = v.
Proof.
  revert v acc. induction slots as [|slots IH]; intros v acc Hv; cbn [write_decimal_loop].
  - exists []. change (10 ^ Z.of_nat 0)%Z with 1%Z in Hv. split_and!; [done|done|constructor|cbn; lia].
  - rewrite Nat2Z.inj_succ, Z.pow_succ_r in Hv by lia. rewrite Z.gtb_ltb.
    destruct (Z.ltb_spec 0 v) as [Hpos|Hle]; [|exists []; split_and!; [done|simpl; lia|constructor|cbn; lia]].
    pose proof (Z.div_mod v 10 ltac:(lia)). pose proof (Z.mod_pos_bound v 10 ltac:(lia)).
    destruct (IH (v / 10)%Z (byte_of (48 + v mod 10) :: acc)) as (ds & -> & Hlen & Hall & Hval); [lia|].
    exists (ds ++ [byte_of (48 + v mod 10)]). rewrite <- app_assoc, length_app. simpl length.
    split_and!; [done|lia| |].
    + apply Forall_app. split; [done|]. constructor; [|done]. unfold is_decimal_digit. rewrite u8_digit; lia.
    + unfold decimal_value in *. rewrite fold_left_app, Hval. simpl. rewrite u8_digit; lia.
Qed.

Lemma write_decimal_u64_spec v :
  is_u64 v -> length (write_decimal_u64 v) <= 20 /\ Forall is_decimal_digit (write_decimal_u64 v) /\
              decimal_value (write_decimal_u64 v) = v.
Proof.
  intros Hv. unfold write_decimal_u64. destruct (Z.eqb_spec v 0) as [->|].
  - split_and!; [simpl; lia|repeat constructor; vm_compute; done|done].
  - destruct (write_decimal_loop_spec 20 v []) as (ds & -> & ? & ? & ?).
    + unfold is_u64 in Hv. change (Z.of_nat 20) with 20%Z. lia.
    + by rewrite app_nil_r.
Qed.

(** One line of the text: ["{hash_hex} : {size}\n"]. *)
Definition entry_text (n : Node) : list byte :=
  hex n.1 ++ [Byte.x20; Byte.x3a; Byte.x20] ++ write_decimal_u64 n.2 ++ [Byte.x0a].

Lemma write_hash_entry_text buf total h s :
  node_wf (h, s) -> write_hash_entry buf total h s = (buf ++ entry_text (h, s), wrap64 (total + s)).
Proof.
  intros [(H0 & H1 & H2 & H3) _]. unfold write_hash_entry, entry_text, hex; simpl in *.
  rewrite !write_hex_u64_format by done. by rewrite <- !app_assoc.
Qed.

Lemma write_hash_entries_text l :
  Forall node_wf l ->
  write_hash_entries l = (concat (entry_text <$> l), wrap64 (foldr Z.add 0%Z l.*2)).
Proof.
  unfold write_hash_entries.
  assert (Hg : forall buf t, Forall node_wf l ->
    fold_left (fun '(buf, total_len) '(h, s) => write_hash_entry buf total_len h s) l (buf, wrap64 t) =
    (buf ++ concat (entry_text <$> l), wrap64 (t + foldr Z.add 0%Z l.*2))).
  { induction l as [|[h s] l IH]; intros buf t Hwf; cbn [fold_left fmap list_fmap concat foldr snd];
      [by rewrite app_nil_r, Z.add_0_r|].
    inversion Hwf as [|? ? Hn Hl]; subst. rewrite write_hash_entry_text by done.
    replace (wrap64 (wrap64 t + s)) with (wrap64 (t + s)) by
      (unfold wrap64; by rewrite Zplus_mod_idemp_l).
    rewrite IH by done. by rewrite app_assoc, Z.add_assoc. }
  intros Hwf. exact (Hg [] 0%Z Hwf).
Qed.

Lemma length_entry_text n : node_wf n -> length (entry_text n) <= 88.
Proof.
  intros [_ Hs]. pose proof (write_decimal_u64_spec _ Hs) as (? & _ & _).
  unfold entry_text. rewrite !length_app, length_hex. simpl. lia.
Qed.

(** C39: the stack buffer of the group hash is never overrun: the text of every group that the cut
    rule makes of well-formed nodes has at most [MAX_MERGE_BUF_SIZE] bytes. *)
Theorem merge_buffer_in_bounds l g :
  Forall node_wf l -> g ∈ cut_groups l -> length (write_hash_entries g).1 <= MAX_MERGE_BUF_SIZE.
Proof.
  intros Hwf Hg. assert (Forall node_wf g) as Hgw.
  { rewrite <- (concat_cut_groups l), Forall_concat in Hwf. exact (proj1 (Forall_forall _ _) Hwf g Hg). }
  pose proof (cut_groups_sizes l) as Hsz. rewrite Forall_forall in Hsz. specialize (Hsz g Hg). simpl in Hsz.
  rewrite write_hash_entries_text by done. simpl.
  assert (length (concat (entry_text <$> g)) <= length g * 88).
  { clear -Hgw. induction Hgw as [|n g Hn Hg IH]; cbn [fmap list_fmap concat length]; [lia|].
    rewrite length_app. pose proof (length_entry_text _ Hn). lia. }
  unfold MAX_MERGE_BUF_SIZE, MAX_GROUP_SIZE in *. lia.
Qed.

Lemma split_at_newline (d1 d2 r1 r2 : list byte) :
  Forall is_decimal_digit d1 -> Forall is_decimal_digit d2 ->
  d1 ++ Byte.x0a :: r1 = d2 ++ Byte.x0a :: r2 -> d1 = d2 /\ r1 = r2.
Proof.
  assert (~ is_decimal_digit Byte.x0a) as Hnl by (vm_compute; intros [? _]; done).
  intros H1. revert d2. induction H1 as [|b d1 Hb Hd IH]; intros d2 H2 Heq.
  - destruct H2 as [|b2 d2 Hb2 _]; cbn [app] in Heq; [by injection Heq as ->|].
    by injection Heq as <- _.
  - destruct H2 as [|b2 d2 Hb2 Hd2]; cbn [app] in Heq; injection Heq as -> Heq; [done|].
    destruct (IH _ Hd2 Heq) as [-> ->]. done.
Qed.

Lemma entry_text_inj n1 n2 r1 r2 :
  node_wf n1 -> node_wf n2 -> entry_text n1 ++ r1 = entry_text n2 ++ r2 -> n1 = n2 /\ r1 = r2.
Proof.
  destruct n1 as [h1 s1], n2 as [h2 s2]. intros [Hh1 Hs1] [Hh2 Hs2]. unfold entry_text; cbn [fst snd] in *.
  rewrite <- !app_assoc. intros Heq.
  apply app_inj_1 in Heq as [Hhex Heq]; [|by rewrite !length_hex].
  pose proof (from_hex_of_hex _ Hh1) as E1. rewrite Hhex, (from_hex_of_hex _ Hh2) in E1.
  injection E1 as ->. cbn [app] in Heq. injection Heq as Heq.
  pose proof (write_decimal_u64_spec _ Hs1) as (_ & D1 & V1).
  pose proof (write_decimal_u64_spec _ Hs2) as (_ & D2 & V2).
  apply split_at_newline in Heq as [Hd ->]; [|done|done].
  split; [|done]. f_equal. congruence.
Qed.

(** The hashed text of a group determines the group: two lists of well-formed nodes with the
    same text are equal, so different groups collide only if blake3 does. *)
Theorem merge_text_injective l1 l2 :
  Forall node_wf l1 -> Forall node_wf l2 ->
  (write_hash_entries l1).1 = (write_hash_entries l2).1 -> l1 = l2.
Proof.
  intros H1 H2. rewrite !write_hash_entries_text by done. simpl. revert l2 H2.
  assert (Hne : forall n, entry_text n <> []) by (intros n E%(f_equal length); unfold entry_text in E;
    rewrite !length_app, length_hex in E; simpl in E; lia).
  induction H1 as [|n1 l1 Hn1 _ IH]; intros l2 H2 Heq; destruct H2 as [|n2 l2 Hn2 H2];
    [done| | |]; cbn [fmap list_fmap concat] in Heq.
  - symmetry in Heq. apply app_eq_nil in Heq as [Hx _]. by apply Hne in Hx.
  - apply app_eq_nil in Heq as [Hx _]. by apply Hne in Hx.
  - apply entry_text_inj in Heq as [-> Heq]; [|done|done]. f_equal. by apply IH.
Qed.

Section MergedWf.
  Context `{B3 : Blake3}.

Lemma merged_hash_of_sequence_wf l : node_wf (merged_hash_of_sequence l).
Proof.
  unfold merged_hash_of_sequence. destruct (write_hash_entries l) as [buf t] eqn:E.
  split; [apply from_bytes_wf, keyed_hash_length|]. simpl.
  unfold write_hash_entries in E. destruct l as [|x l'] using rev_ind; [by simplify_eq/=|].
  rewrite fold_left_app in E. cbn [fold_left] in E.
  destruct (fold_left _ l' _) as [b' t']. destruct x as [h s]. unfold write_hash_entry in E.
  injection E as _ <-. apply wrap64_is_u64.
Qed.

Lemma promote_wf l : Forall node_wf (promote l).
Proof. unfold promote. apply Forall_fmap, Forall_true. intros g. apply merged_hash_of_sequence_wf. Qed.

Lemma Root_wf l n : Root l n -> Forall (fun m => hash_wf m.1) l -> hash_wf n.1.
Proof.
  induction 1 as [n|l n Hl Hr IH]; intros Hf; [by inversion Hf|].
  apply IH. eapply Forall_impl; [apply promote_wf|]. by intros m [].
Qed.

Lemma xorb_hash_wf l : Forall (fun m => hash_wf m.1) l -> hash_wf (xorb_hash l).
Proof.
  intros Hf. unfold xorb_hash. destruct l as [|x l]; [by repeat split|].
  destruct (Root_total (x :: l)) as [n Hn]; [done|]. rewrite (aggregated_node_hash_root _ _ Hn). by apply (Root_wf (x :: l)).
Qed.

End MergedWf.

(** ** Examples *)

Definition example_nodes : list Node :=
  (fun k => (mkDataHash k 0 0 k, (1000 + k)%Z)) <$> seqZ 1 12.

Lemma example_nodes_wf : Forall node_wf example_nodes.
Proof.
  apply Forall_fmap, Forall_forall. intros k [Hk1 Hk2]%elem_of_seqZ.
  repeat split; simpl; lia.
Qed.

Lemma aggregated_node_hash_correct_witness :
  exists n, collapse_loop (B3 := toy_blake3) 12 example_nodes = [n] /\ aggregated_node_hash (B3 := toy_blake3) example_nodes = n.1.
Proof.
  destruct (aggregated_node_hash_correct (B3 := toy_blake3) example_nodes) as [[E _]|(n & E & _ & H)]; [discriminate E|].
  exists n. exact (conj E H).
Defined.

Lemma merge_buffer_in_bounds_witness :
  length (write_hash_entries (take 4 example_nodes)).1 <= MAX_MERGE_BUF_SIZE.
Proof.
  apply (merge_buffer_in_bounds example_nodes); [apply example_nodes_wf|].
  change (cut_groups example_nodes) with [take 4 example_nodes; drop 4 (take 8 example_nodes); drop 8 example_nodes]. left.
Defined.

Lemma merge_text_injective_witness : example_nodes = (fun k => (mkDataHash k 0 0 k, (1000 + k)%Z)) <$> seqZ 1 12.
Proof.
  apply (merge_text_injective example_nodes); [apply example_nodes_wf|apply example_nodes_wf|vm_compute; reflexivity].
Defined.
