(* ===== verification/MerkleSubtree.v ===== *)
(** * Partial Merkle trees over ranges of chunks

    Model of [xet_core_structures/src/merklehash/merkle_hash_subtree.rs]: the
    compact "hump" representation [MerkleHashSubtree] of a range of chunk
    hashes, its construction from chunks, the merge of adjacent ranges, and the
    final hash.  The debug-only [debug_chunks] field is left out. *)

From stdpp Require Import base numbers list.
From S2P Require Import Prelude DataHash AggregatedHash.

(** ** Natural cuts, ignoring the group size bounds *)

Fixpoint next_cut_unbounded (hashes : list Node) : option nat :=
  match hashes with
  | [] => None
  | (h, _) :: rest => if is_natural_cut h then Some 0 else S <$> next_cut_unbounded rest
  end.

(** [(0..n).rev().find(...)] *)
Fixpoint prev_cut_loop (hashes : list Node) (n : nat) : option nat :=
  match n with
  | O => None
  | S i => if cut_at hashes i then Some i else prev_cut_loop hashes i
  end.

Definition prev_cut_unbounded (hashes : list Node) : option nat := prev_cut_loop hashes (length hashes).

(** ** Stable boundaries *)

Definition valid_gap (gap : nat) : bool := (MIN_GROUP_SIZE <? gap) && (gap <? MAX_GROUP_SIZE - 1).

Fixpoint find_stable_start_loop (fuel : nat) (nodes : list Node)
    (prev_prev_cut prev_cut : option nat) (pos : nat) : option nat :=
  match fuel with
  | O => None
  | S fuel' =>
      if pos <? length nodes then
        match next_cut_unbounded (drop pos nodes) with
        | Some offset =>
            let cut_pos := pos + offset in
            let continue := find_stable_start_loop fuel' nodes prev_cut (Some cut_pos) (cut_pos + 1) in
            match prev_cut, prev_prev_cut with
            | Some pc, Some ppc =>
                if valid_gap (cut_pos - pc) && valid_gap (pc - ppc) then Some (pc + 1) else continue
            | _, _ => continue
            end
        | None => None
        end
      else None
  end.

Definition find_stable_start (nodes : list Node) : option nat :=
  if length nodes <? MIN_GROUP_SIZE + 1 then None
  else find_stable_start_loop (length nodes) nodes None None 0.

Fixpoint find_stable_end_loop (fuel : nat) (nodes : list Node)
    (next_next_cut next_cut : option nat) (pos : nat) : option nat :=
  match fuel with
  | O => None
  | S fuel' =>
      if 0 <? pos then
        match prev_cut_unbounded (take pos nodes) with
        | Some cut_pos =>
            let continue := find_stable_end_loop fuel' nodes next_cut (Some cut_pos) cut_pos in
            match next_cut, next_next_cut with
            | Some nc, Some nnc =>
                if valid_gap (nc - cut_pos) && valid_gap (nnc - nc) then Some (nc + 1) else continue
            | _, _ => continue
            end
        | None => None
        end
      else None
  end.

Definition find_stable_end (nodes : list Node) : option nat :=
  if length nodes <? MIN_GROUP_SIZE + 1 then None
  else find_stable_end_loop (length nodes) nodes None None (length nodes).

(** ** The subtree record *)

Record MerkleHashSubtree := mkSubtree {
  nodes : list Node;
  levels : list (nat * nat);
  left_offsets : list nat;
  right_offsets : list nat;
  at_start : bool;
  at_end : bool;
}.

Fixpoint left_offsets_loop (ls : list (nat * nat)) (cumulative_left : nat) : list nat * nat :=
  match ls with
  | [] => ([], cumulative_left)
  | (lc, _) :: ls' =>
      let '(offs, total) := left_offsets_loop ls' (cumulative_left + lc) in
      (cumulative_left :: offs, total)
  end.

Fixpoint right_offsets_loop (ls : list (nat * nat)) (total_left cumulative_right_after : nat) : list nat :=
  match ls with
  | [] => []
  | (_, rc) :: ls' =>
      let after := cumulative_right_after - rc in
      (total_left + after) :: right_offsets_loop ls' total_left after
  end.

Definition compute_offsets (ls : list (nat * nat)) : list nat * list nat :=
  let '(left_offsets, total_left) := left_offsets_loop ls 0 in
  (left_offsets, right_offsets_loop ls total_left (sum_list ls.*2)).

Definition num_nodes (t : MerkleHashSubtree) : nat := length (nodes t).
Definition num_levels (t : MerkleHashSubtree) : nat := length (levels t).

(** Out of range the code panics; the offsets of the subtrees below are in range, [rep_in_bounds]. *)
Definition left_at (t : MerkleHashSubtree) (level : nat) : list Node :=
  let start := nth level (left_offsets t) 0 in
  (nodes t)⟦start, start + (nth level (levels t) (0, 0)).1⟧.

Definition right_at (t : MerkleHashSubtree) (level : nat) : list Node :=
  let start := nth level (right_offsets t) 0 in
  (nodes t)⟦start, start + (nth level (levels t) (0, 0)).2⟧.

(** The flat node array: all lefts, then the rights in reverse level order;
    [rev_levels] is [levels.iter().rev()]. *)
Fixpoint append_rights (rev_levels : list (nat * nat)) (out_right_nodes : list Node)
    (end_ : nat) (acc : list Node) : list Node :=
  match rev_levels with
  | [] => acc
  | (_, rc) :: ls =>
      let start := end_ - rc in
      append_rights ls out_right_nodes start (acc ++ out_right_nodes⟦start, end_⟧)
  end.

Definition flatten_hump (out_left_nodes out_right_nodes : list Node) (ls : list (nat * nat)) : list Node :=
  append_rights (rev ls) out_right_nodes (length out_right_nodes) out_left_nodes.

Section Subtree.
  Context `{B3 : Blake3}.

(** ** Splitting one level *)

(** [while pos < mergeable.len()], on the part of [mergeable] from [pos]. *)
Fixpoint promote_loop (fuel : nat) (remaining promoted : list Node) : list Node :=
    match fuel with
    | O => promoted
    | S fuel' =>
        if 0 <? length remaining then
          let cut_len := next_merge_cut remaining in
          promote_loop fuel' (drop cut_len remaining)
            (promoted ++ [merged_hash_of_sequence (take cut_len remaining)])
        else promoted
    end.

(** Returns [(prefix_len, suffix_len)] and the promoted nodes. *)
Definition split_and_promote (ns : list Node) (at_start at_end : bool) : nat * nat * list Node :=
    if length ns <=? 1 then (length ns, 0, [])
    else
      match (if at_start then Some 0 else find_stable_start ns) with
      | None => (length ns, 0, [])
      | Some stable_start =>
          match (if at_end then Some (length ns)
                 else Nat.add stable_start <$> find_stable_end (drop stable_start ns)) with
          | None => (length ns, 0, [])
          | Some stable_end =>
              if stable_end <=? stable_start then (length ns, 0, [])
              else
                let mergeable := ns⟦stable_start, stable_end⟧ in
                (stable_start, length ns - stable_end, promote_loop (length mergeable) mergeable [])
          end
      end.

(** ** Building a hump *)

(** The mutable locals of [build_hump] and [merge_into_impl]. *)
Record HumpBuffers := mkBuffers {
    out_left_nodes : list Node;
    out_right_nodes : list Node;
    out_levels : list (nat * nat);
    carry : list Node;
    all_lefts_empty : bool;
    all_rights_empty : bool;
}.

(** One level: split [full], record its prefix and suffix, carry the rest up. *)
Definition push_level (at_start at_end : bool) (full : list Node) (b : HumpBuffers) : HumpBuffers :=
    let '(prefix_len, suffix_len, promoted) :=
      split_and_promote full (at_start && all_lefts_empty b) (at_end && all_rights_empty b) in
    mkBuffers (out_left_nodes b ++ take prefix_len full)
              (out_right_nodes b ++ drop (length full - suffix_len) full)
              (out_levels b ++ [(prefix_len, suffix_len)])
              promoted
              (all_lefts_empty b && negb (0 <? prefix_len))
              (all_rights_empty b && negb (0 <? suffix_len)).

(** A single promoted node becomes the top level. *)
Definition push_top (b : HumpBuffers) : HumpBuffers :=
    mkBuffers (out_left_nodes b ++ carry b) (out_right_nodes b)
              (out_levels b ++ [(length (carry b), 0)]) []
              (all_lefts_empty b) (all_rights_empty b).

Definition empty_buffers : HumpBuffers := mkBuffers [] [] [] [] true true.

Fixpoint build_hump_loop (fuel : nat) (current : list Node) (at_start at_end : bool) (b : HumpBuffers)
    : HumpBuffers :=
    match fuel with
    | O => b
    | S fuel' =>
        let b := push_level at_start at_end current b in
        if length (carry b) =? 0 then b
        else if length (carry b) =? 1 then push_top b
        else build_hump_loop fuel' (carry b) at_start at_end b
    end.

Definition build_hump (chunks : list Node) (at_start at_end : bool) : list Node * list (nat * nat) :=
    let b := build_hump_loop (S (length chunks)) chunks at_start at_end empty_buffers in
    (flatten_hump (out_left_nodes b) (out_right_nodes b) (out_levels b), out_levels b).

Definition from_chunks (at_start : bool) (chunks : list Node) (at_end : bool) : MerkleHashSubtree :=
    let '(nodes, levels) := build_hump chunks at_start at_end in
    let '(left_offsets, right_offsets) := compute_offsets levels in
    mkSubtree nodes levels left_offsets right_offsets at_start at_end.

Definition is_empty (t : MerkleHashSubtree) : bool := match nodes t with [] => true | _ => false end.

(** ** Merging adjacent ranges *)

(** [for level in level..max_levels], with [n] levels left. *)
Fixpoint merge_levels_loop (n level : nat) (t other : MerkleHashSubtree) (b : HumpBuffers) : HumpBuffers :=
    match n with
    | O => b
    | S n' =>
        let lr_left := if level <? num_levels t then left_at t level else [] in
        let lr_right := if level <? num_levels t then right_at t level else [] in
        let rr_left := if level <? num_levels other then left_at other level else [] in
        let rr_right := if level <? num_levels other then right_at other level else [] in
        let full := lr_left ++ lr_right ++ carry b ++ rr_left ++ rr_right in
        merge_levels_loop n' (S level) t other (push_level (at_start t) (at_end other) full b)
    end.

(** [while !buf.carry.is_empty()] *)
Fixpoint merge_carry_loop (fuel : nat) (at_start at_end : bool) (b : HumpBuffers) : HumpBuffers :=
    match fuel with
    | O => b
    | S fuel' =>
        if length (carry b) =? 0 then b
        else if length (carry b) =? 1 then merge_carry_loop fuel' at_start at_end (push_top b)
        else merge_carry_loop fuel' at_start at_end (push_level at_start at_end (carry b) b)
    end.

(** [while levels.len() > 1 && levels.last() == Some(&(0, 0)) { pop }], on the reversed list. *)
Fixpoint trim_levels_rev (rev_levels : list (nat * nat)) : list (nat * nat) :=
    match rev_levels with
    | (0, 0) :: rest => match rest with [] => rev_levels | _ => trim_levels_rev rest end
    | _ => rev_levels
    end.

Definition trim_levels (ls : list (nat * nat)) : list (nat * nat) := rev (trim_levels_rev (rev ls)).

Definition merge_into_impl (t other : MerkleHashSubtree) : result CoreError MerkleHashSubtree :=
    if at_end t then Err InvalidArguments
    else if at_start other then Err InvalidArguments
    else
      let max_levels := Nat.max (num_levels t) (num_levels other) in
      let b := merge_levels_loop max_levels 0 t other empty_buffers in
      let b := merge_carry_loop (S (length (carry b))) (at_start t) (at_end other) b in
      let levels := trim_levels (out_levels b) in
      let nodes := flatten_hump (out_left_nodes b) (out_right_nodes b) levels in
      let '(left_offsets, right_offsets) := compute_offsets levels in
      Ok (mkSubtree nodes levels left_offsets right_offsets (at_start t) (at_end other)).

Definition merge_into (t other : MerkleHashSubtree) : result CoreError MerkleHashSubtree :=
    merge_into_impl t other.

Fixpoint merge_loop (t : MerkleHashSubtree) (ranges : list MerkleHashSubtree)
    : result CoreError MerkleHashSubtree :=
    match ranges with
    | [] => Ok t
    | range :: ranges' => t' ← merge_into_impl t range; merge_loop t' ranges'
    end.

Definition merge (ranges : list MerkleHashSubtree) : result CoreError MerkleHashSubtree :=
    match ranges with
    | [] => Ok (from_chunks true [] true)
    | [t] => Ok t
    | t :: rest => merge_loop t rest
    end.

(** The outer [None] is the index panic of [top_left[0]]. *)
Definition final_hash (t : MerkleHashSubtree) : option (option DataHash) :=
    if negb (at_start t) || negb (at_end t) then Some None
    else
      match nodes t with
      | [] => Some (Some default)
      | _ =>
          let top := length (levels t) - 1 in
          n ← head (left_at t top);
          Some (Some n.1)
      end.

(** ** Serialisation

    The four fields that [Serialize] writes and [Deserialize] reads back; the offsets are not
    among them and are computed again.  How [serde] lays the fields out is not modelled. *)
Definition serialize (t : MerkleHashSubtree) : list Node * list (nat * nat) * bool * bool :=
    (nodes t, levels t, at_start t, at_end t).

Definition deserialize (raw : list Node * list (nat * nat) * bool * bool) : MerkleHashSubtree :=
    let '(nodes, levels, at_start, at_end) := raw in
    let '(left_offsets, right_offsets) := compute_offsets levels in
    mkSubtree nodes levels left_offsets right_offsets at_start at_end.

End Subtree.

(** ** Three consecutive cuts at valid distances *)

Definition triple (l : list Node) (i j k : nat) : Prop :=
  i < j < k /\ valid_gap (j - i) = true /\ valid_gap (k - j) = true /\
  cut_at l i = true /\ cut_at l j = true /\ cut_at l k = true /\
  forall x, i < x < k -> x <> j -> cut_at l x = false.

Lemma valid_gap_iff g : valid_gap g = true <-> 3 <= g <= 7.
Proof. unfold valid_gap, MIN_GROUP_SIZE, MAX_GROUP_SIZE. rewrite andb_true_iff, !Nat.ltb_lt. lia. Qed.

Lemma next_cut_unbounded_spec l :
  match next_cut_unbounded l with
  | Some i => cut_at l i = true /\ forall k, k < i -> cut_at l k = false
  | None => forall k, cut_at l k = false
  end.
Proof.
  induction l as [|[h s] l IH]; [done|]. cbn [next_cut_unbounded].
  destruct (is_natural_cut h) eqn:Hh; [split; [done|lia]|].
  destruct (next_cut_unbounded l) as [i|]; simpl.
  - destruct IH as [Hc Hno]. split; [done|]. intros [|k] Hk; [done|]. apply Hno. lia.
  - intros [|k]; [done|apply IH].
Qed.

Lemma prev_cut_loop_spec l n :
  match prev_cut_loop l n with
  | Some i => i < n /\ cut_at l i = true /\ forall k, i < k < n -> cut_at l k = false
  | None => forall k, k < n -> cut_at l k = false
  end.
Proof.
  induction n as [|n IH]; [simpl; lia|]. cbn [prev_cut_loop].
  destruct (cut_at l n) eqn:Hc; [split_and!; [lia|done|lia]|].
  destruct (prev_cut_loop l n) as [i|].
  - destruct IH as (? & ? & Hno). split_and!; [lia|done|]. intros k Hk.
    destruct (decide (k = n)) as [->|]; [done|]. apply Hno. lia.
  - intros k Hk. destruct (decide (k = n)) as [->|]; [done|]. apply IH. lia.
Qed.

Lemma prev_cut_unbounded_take_spec l pos :
  pos <= length l ->
  match prev_cut_unbounded (take pos l) with
  | Some i => i < pos /\ cut_at l i = true /\ forall k, i < k < pos -> cut_at l k = false
  | None => forall k, k < pos -> cut_at l k = false
  end.
Proof.
  intros Hp. unfold prev_cut_unbounded. pose proof (prev_cut_loop_spec (take pos l) (length (take pos l))) as Hs.
  rewrite length_take_le in * by done. destruct (prev_cut_loop (take pos l) pos) as [i|].
  - destruct Hs as (? & Hc & Hno). rewrite cut_at_take in Hc by done. split_and!; [done|done|].
    intros k Hk. rewrite <- (cut_at_take pos) by lia. apply Hno. lia.
  - intros k Hk. rewrite <- (cut_at_take pos) by lia. by apply Hs.
Qed.

(** What the two remembered cuts of [find_stable_end] are at position [pos]. *)
Definition end_cuts (l : list Node) (nnc nc : option nat) (pos : nat) : Prop :=
  match nc with
  | None => nnc = None /\ forall x, pos <= x -> cut_at l x = false
  | Some c => c = pos /\ cut_at l c = true /\
      match nnc with
      | None => forall x, c < x -> cut_at l x = false
      | Some d => c < d /\ cut_at l d = true /\ forall x, c < x < d -> cut_at l x = false
      end
  end.

(** The last triple whose first cut is before [pos]. *)
Definition last_triple (l : list Node) (pos : nat) (r : option nat) : Prop :=
  match r with
  | Some b => exists i j k, triple l i j k /\ b = j + 1 /\ forall i' j' k', triple l i' j' k' -> i' < pos -> j' <= j
  | None => forall i j k, triple l i j k -> pos <= i
  end.

Lemma triple_first_cut l i j k p :
  triple l i j k -> i < p -> cut_at l p = true -> j <= p.
Proof.
  intros (? & _ & _ & _ & _ & _ & Hno) Hi Hp. destruct (decide (j <= p)) as [|Hj]; [done|].
  by rewrite Hno in Hp by lia.
Qed.

Lemma find_stable_end_loop_spec fuel l nnc nc pos :
  pos <= length l -> pos <= fuel -> end_cuts l nnc nc pos ->
  last_triple l pos (find_stable_end_loop fuel l nnc nc pos).
Proof.
  revert nnc nc pos. induction fuel as [|fuel IH]; intros nnc nc pos Hpos Hf Hinv;
    cbn [find_stable_end_loop].
  { intros i j k _. lia. }
  destruct (Nat.ltb_spec 0 pos); [|intros i j k _; lia].
  pose proof (prev_cut_unbounded_take_spec l pos Hpos) as Hp.
  destruct (prev_cut_unbounded (take pos l)) as [p|].
  2:{ intros i j k (? & _ & _ & Hi & _). destruct (decide (pos <= i)); [done|]. by rewrite Hp in Hi by lia. }
  destruct Hp as (Hlt & Hcp & Hnop).
  assert (Hinv' : end_cuts l nc (Some p) p).
  { split_and!; [done|done|]. destruct nc as [c|].
    - destruct Hinv as (-> & Hc & _). by split_and!.
    - destruct Hinv as [_ Hno]. intros x Hx. destruct (decide (x < pos)); [apply Hnop|apply Hno]; lia. }
  specialize (IH nc (Some p) p ltac:(lia) ltac:(lia) Hinv').
  (* unless [(p, nc, nnc)] is a triple, the answer below [p] is the answer below [pos] *)
  assert (Hext : (forall k, triple l p pos k -> False) ->
    (nc = None -> forall x, pos <= x -> cut_at l x = false) ->
    last_triple l pos (find_stable_end_loop fuel l nc (Some p) p)).
  { intros Hnot Hnone.
    assert (Hbelow : forall i j k, triple l i j k -> i < pos -> i < p).
    { intros i j k Ht Hi. destruct (decide (i < p)) as [|Hge]; [done|]. exfalso.
      pose proof Ht as (Hijk & _ & _ & Hci & Hcj & _ & Hnox).
      assert (i = p) as ->.
      { destruct (decide (i = p)); [done|]. by rewrite Hnop in Hci by lia. }
      destruct nc as [c|].
      - destruct Hinv as (-> & Hcpos & _). apply (Hnot k). replace pos with j; [done|].
        destruct (Nat.lt_trichotomy j pos) as [|[|]]; [by rewrite Hnop in Hcj by lia|done|].
        by rewrite Hnox in Hcpos by lia.
      - destruct (decide (j < pos)); [by rewrite Hnop in Hcj by lia|].
        by rewrite Hnone in Hcj by (done || lia). }
    destruct (find_stable_end_loop fuel l nc (Some p) p) as [b|]; cbn [last_triple] in *.
    - destruct IH as (i & j & k & Ht & -> & Hmax). exists i, j, k. split_and!; [done|done|]. eauto.
    - intros i j k Ht. destruct (decide (pos <= i)); [done|]. specialize (IH i j k Ht).
      specialize (Hbelow i j k Ht). lia. }
  destruct nc as [c|].
  2:{ destruct Hinv as [-> Hno]. apply Hext; [|done].
      intros k (? & _ & _ & _ & Hcpos & _). by rewrite Hno in Hcpos. }
  destruct Hinv as (-> & Hcpos & Hnnc). destruct nnc as [d|].
  2:{ apply Hext; [|done]. intros k (? & _ & _ & _ & _ & Hk & _). by rewrite Hnnc in Hk by lia. }
  destruct Hnnc as (Hcd & Hcutd & Hnod).
  destruct (valid_gap (pos - p) && valid_gap (d - pos)) eqn:Hv.
  - apply andb_true_iff in Hv as [Hv1 Hv2]. exists p, pos, d. split_and!; [|done|].
    + split_and!; try done. intros x Hx Hne. destruct (decide (x < pos)); [apply Hnop|apply Hnod]; lia.
    + intros i' j' k' Ht Hi. eapply triple_first_cut; eauto.
  - apply Hext; [|done]. intros k Ht. pose proof Ht as (? & Hg1 & Hg2 & _ & _ & Hk & Hnox).
    assert (k = d) as ->.
    { destruct (Nat.lt_trichotomy k d) as [|[|]]; [by rewrite Hnod in Hk by lia|done|].
      by rewrite Hnox in Hcutd by lia. }
    by rewrite Hg1, Hg2 in Hv.
Qed.

Lemma triple_length l i j k : triple l i j k -> 7 <= length l.
Proof.
  intros (? & Hg1%valid_gap_iff & Hg2%valid_gap_iff & _ & _ & Hk%cut_at_lt & _). lia.
Qed.

(** [find_stable_end] returns the end of the middle cut of the last triple, if there is one. *)
Lemma find_stable_end_spec l :
  match find_stable_end l with
  | Some b => exists i j k, triple l i j k /\ b = j + 1 /\ forall i' j' k', triple l i' j' k' -> j' <= j
  | None => forall i j k, triple l i j k -> False
  end.
Proof.
  unfold find_stable_end, MIN_GROUP_SIZE. destruct (Nat.ltb_spec (length l) (2 + 1)).
  { intros i j k Ht%triple_length. lia. }
  pose proof (find_stable_end_loop_spec (length l) l None None (length l)) as Hs.
  assert (Hlt : forall i j k, triple l i j k -> i < length l)
    by (intros ? ? ? (_ & _ & _ & ?%cut_at_lt & _); lia).
  specialize (Hs ltac:(lia) ltac:(lia)).
  destruct (find_stable_end_loop (length l) l None None (length l)) as [b|]; simpl in Hs.
  - destruct Hs as (i & j & k & ? & ? & Hmax); [split; [done|apply cut_at_ge]|].
    exists i, j, k. split_and!; [done|done|]. eauto.
  - intros i j k Ht. pose proof (Hlt _ _ _ Ht). enough (length l <= i) by lia.
    eapply Hs; [|done]. split; [done|apply cut_at_ge].
Qed.

Lemma find_stable_end_unique l i j k :
  triple l i j k -> (forall i' j' k', triple l i' j' k' -> j' <= j) -> find_stable_end l = Some (j + 1).
Proof.
  intros Ht Hmax. pose proof (find_stable_end_spec l) as Hs. destruct (find_stable_end l) as [b|].
  - destruct Hs as (i' & j' & k' & Ht' & -> & Hmax'). f_equal.
    specialize (Hmax _ _ _ Ht'). specialize (Hmax' _ _ _ Ht). lia.
  - by apply Hs in Ht.
Qed.

Lemma find_stable_end_none l : (forall i j k, triple l i j k -> False) -> find_stable_end l = None.
Proof.
  intros Hno. pose proof (find_stable_end_spec l) as Hs. destruct (find_stable_end l); [|done].
  destruct Hs as (? & ? & ? & Ht & _). by apply Hno in Ht.
Qed.

(** The two remembered cuts of [find_stable_start] at position [pos]. *)
Definition start_cuts (l : list Node) (ppc pc : option nat) (pos : nat) : Prop :=
  match pc with
  | None => ppc = None
  | Some c => c + 1 = pos /\ cut_at l c = true /\
      match ppc with
      | None => True
      | Some d => d < c /\ cut_at l d = true /\ forall x, d < x < c -> cut_at l x = false
      end
  end.

Lemma find_stable_start_loop_sound fuel l ppc pc pos a :
  start_cuts l ppc pc pos -> find_stable_start_loop fuel l ppc pc pos = Some a ->
  exists i j k, triple l i j k /\ a = j + 1.
Proof.
  revert ppc pc pos. induction fuel as [|fuel IH]; intros ppc pc pos Hinv Hr; [done|].
  cbn [find_stable_start_loop] in Hr. destruct (pos <? length l); [|done].
  pose proof (next_cut_unbounded_spec (drop pos l)) as Hn.
  destruct (next_cut_unbounded (drop pos l)) as [o|]; [|done]. destruct Hn as [Hc Hno].
  rewrite cut_at_drop in Hc.
  assert (Hno' : forall x, pos <= x < pos + o -> cut_at l x = false).
  { intros x Hx. specialize (Hno (x - pos)). rewrite cut_at_drop in Hno.
    replace (pos + (x - pos)) with x in Hno by lia. apply Hno. lia. }
  destruct pc as [c|]; [|eapply IH; [|exact Hr]; done].
  destruct Hinv as (<- & Hcc & Hpp).
  assert (Hstep : start_cuts l (Some c) (Some (c + 1 + o)) (c + 1 + o + 1)).
  { split_and!; [done|done|lia|done|]. intros x Hx. apply Hno'. lia. }
  destruct ppc as [d|]; [|eapply IH; eauto]. destruct Hpp as (Hdc & Hcd & Hnod).
  destruct (valid_gap (c + 1 + o - c) && valid_gap (c - d)) eqn:Hv; [|eapply IH; eauto].
  injection Hr as <-. apply andb_true_iff in Hv as [? ?]. exists d, c, (c + 1 + o). split; [|done].
  split_and!; try done; try lia. intros x Hx Hne.
  destruct (decide (x < c)); [apply Hnod|apply Hno']; lia.
Qed.

Lemma find_stable_start_sound l a :
  find_stable_start l = Some a -> exists i j k, triple l i j k /\ a = j + 1.
Proof.
  unfold find_stable_start. case_match; [done|]. by apply find_stable_start_loop_sound.
Qed.

(** ** Consequences used by the hump *)

Lemma triple_stable_tail l i j k : triple l i j k -> stable_tail (take (j + 1) l).
Proof.
  intros (? & Hg%valid_gap_iff & _ & Hi & Hj & _ & Hno). pose proof (cut_at_lt _ _ Hj).
  exists i. rewrite length_take_le by lia. split_and!; [lia|lia|lia|by rewrite cut_at_take by lia| |].
  - rewrite cut_at_take by lia. by replace (j + 1 - 1) with j by lia.
  - intros x Hx. rewrite cut_at_take by lia. apply Hno; lia.
Qed.

Lemma triple_drop n l i j k : triple (drop n l) i j k -> triple l (n + i) (n + j) (n + k).
Proof.
  intros (? & Hg1 & Hg2 & Hi & Hj & Hk & Hno). rewrite !cut_at_drop in *.
  split_and!; try done; try lia.
  - by replace (n + j - (n + i)) with (j - i) by lia.
  - by replace (n + k - (n + j)) with (k - j) by lia.
  - intros x Hx Hne. specialize (Hno (x - n) ltac:(lia) ltac:(lia)). rewrite cut_at_drop in Hno.
    by replace (n + (x - n)) with x in Hno by lia.
Qed.

Lemma find_stable_end_bounds l b : find_stable_end l = Some b -> 0 < b < length l.
Proof.
  intros Hb. pose proof (find_stable_end_spec l) as Hs. rewrite Hb in Hs.
  destruct Hs as (i & j & k & (? & _ & _ & _ & _ & ?%cut_at_lt & _) & -> & _). lia.
Qed.

Lemma find_stable_end_tail l b : find_stable_end l = Some b -> stable_tail (take b l).
Proof.
  intros Hb. pose proof (find_stable_end_spec l) as Hs. rewrite Hb in Hs.
  destruct Hs as (i & j & k & Ht & -> & _). by eapply triple_stable_tail.
Qed.

Lemma find_stable_end_rest l b : find_stable_end l = Some b -> find_stable_end (drop b l) = None.
Proof.
  intros Hb. pose proof (find_stable_end_spec l) as Hs. rewrite Hb in Hs.
  destruct Hs as (i & j & k & _ & -> & Hmax). apply find_stable_end_none.
  intros i' j' k' Ht%triple_drop%Hmax. lia.
Qed.

Lemma find_stable_start_none l : find_stable_end l = None -> find_stable_start l = None.
Proof.
  intros Hn. destruct (find_stable_start l) as [a|] eqn:Ha; [|done].
  apply find_stable_start_sound in Ha as (i & j & k & Ht & _).
  pose proof (find_stable_end_spec l) as Hs. rewrite Hn in Hs. by apply Hs in Ht.
Qed.

(** The suffix left by a stable end, put after any stable tail, is found again:
    this is why two cuts on each side of the boundary are kept in the hump. *)
Lemma find_stable_end_join P z b :
  stable_tail P -> find_stable_end z = Some b -> find_stable_end (P ++ drop b z) = Some (length P).
Proof.
  intros (i & Hi & Hgap & Hci & Hcl & Hno) Hb.
  pose proof (find_stable_end_spec z) as Hs. rewrite Hb in Hs.
  destruct Hs as (i' & j' & k' & Ht & -> & Hmax).
  assert (HcP : forall x, x < length P -> cut_at (P ++ drop (j' + 1) z) x = cut_at P x)
    by (intros; by apply cut_at_app_l).
  assert (HcB : forall x, length P <= x ->
    cut_at (P ++ drop (j' + 1) z) x = cut_at z (j' + 1 + (x - length P))).
  { intros x Hx. replace x with (length P + (x - length P)) at 1 by lia.
    by rewrite cut_at_app_r, cut_at_drop. }
  replace (length P) with (length P - 1 + 1) by lia.
  destruct Ht as (Hijk & Hg1 & Hg2 & Hi' & Hj' & Hk' & Hno').
  apply (find_stable_end_unique _ i _ (length P + (k' - (j' + 1)))).
  - split_and!; [lia|lia|apply valid_gap_iff; lia| | | | |].
    + replace (length P + (k' - (j' + 1)) - (length P - 1)) with (k' - j') by lia. done.
    + by rewrite HcP by lia.
    + by rewrite HcP by lia.
    + rewrite HcB by lia. by replace (j' + 1 + (length P + (k' - (j' + 1)) - length P)) with k' by lia.
    + intros x Hx Hne. destruct (decide (x < length P)); [rewrite HcP by lia; apply Hno; lia|].
      rewrite HcB by lia. apply Hno'; lia.
  - intros p q r Ht. destruct (decide (q <= length P - 1)) as [|Hq]; [done|exfalso].
    pose proof Ht as (Hpqr & Hv1 & Hv2 & Hp & Hcq & Hcr & Hnox).
    assert (length P - 1 <= p) as Hpl.
    { destruct (decide (length P - 1 <= p)) as [|Hlt]; [done|].
      enough (q <= length P - 1) by lia. eapply triple_first_cut; [exact Ht|lia|by rewrite HcP by lia]. }
    enough (triple z (j' + 1 + p - length P) (j' + 1 + q - length P) (j' + 1 + r - length P)) as Hz
      by (apply Hmax in Hz; lia).
    rewrite HcB in Hcq, Hcr by lia. split_and!; [lia|lia| | | | | |].
    + by replace (j' + 1 + q - length P - (j' + 1 + p - length P)) with (q - p) by lia.
    + by replace (j' + 1 + r - length P - (j' + 1 + q - length P)) with (r - q) by lia.
    + destruct (decide (p = length P - 1)) as [->|].
      * by replace (j' + 1 + (length P - 1) - length P) with j' by lia.
      * rewrite HcB in Hp by lia. by replace (j' + 1 + p - length P) with (j' + 1 + (p - length P)) by lia.
    + by replace (j' + 1 + q - length P) with (j' + 1 + (q - length P)) by lia.
    + by replace (j' + 1 + r - length P) with (j' + 1 + (r - length P)) by lia.
    + intros x Hx Hne. specialize (Hnox (x + length P - (j' + 1)) ltac:(lia) ltac:(lia)).
      rewrite HcB in Hnox by lia.
      by replace (j' + 1 + (x + length P - (j' + 1) - length P)) with x in Hnox by lia.
Qed.

(** ** Humps as lists of levels

    [Hump] is the list of the [(left, right)] node lists of every level; [rep t H]
    says that the flat arrays of [t] hold [H]. *)

Abbreviation Hump := (list (list Node * list Node)).

Definition hump_levels (H : Hump) : list (nat * nat) := (fun lr => (length lr.1, length lr.2)) <$> H.
Definition hump_nodes (H : Hump) : list Node := concat H.*1 ++ concat (rev H.*2).

Definition rep (t : MerkleHashSubtree) (H : Hump) : Prop :=
  nodes t = hump_nodes H /\ levels t = hump_levels H /\
  (left_offsets t, right_offsets t) = compute_offsets (levels t).

Lemma append_rights_spec (H : Hump) E acc :
  append_rights (rev (hump_levels H)) (concat H.*2 ++ E) (length (concat H.*2)) acc =
  acc ++ concat (rev H.*2).
Proof.
  revert E acc. induction H as [|[l r] H IH] using rev_ind; intros E acc; [simpl; by rewrite app_nil_r|].
  unfold hump_levels. rewrite !fmap_app, rev_app_distr, concat_app. cbn [fmap list_fmap rev app concat fst snd append_rights].
  rewrite app_nil_r, length_app, <- app_assoc.
  replace (length (concat H.*2) + length r - length r) with (length (concat H.*2)) by lia.
  rewrite slice_middle by done. fold (hump_levels H). rewrite IH.
  rewrite rev_app_distr. cbn [rev app concat]. by rewrite app_assoc.
Qed.

Lemma flatten_hump_spec (H : Hump) :
  flatten_hump (concat H.*1) (concat H.*2) (hump_levels H) = hump_nodes H.
Proof. unfold flatten_hump. pose proof (append_rights_spec H [] (concat H.*1)) as Hs. by rewrite app_nil_r in Hs. Qed.

Lemma sum_list_cons x l : sum_list (x :: l) = x + sum_list l.
Proof. done. Qed.

Lemma left_offsets_loop_spec ls c :
  (left_offsets_loop ls c).2 = c + sum_list ls.*1 /\
  forall i, i < length ls -> nth i (left_offsets_loop ls c).1 0 = c + sum_list (take i ls).*1.
Proof.
  revert c. induction ls as [|[lc rc] ls IH]; intros c; [simpl; split; lia|].
  cbn [left_offsets_loop]. specialize (IH (c + lc)).
  destruct (left_offsets_loop ls (c + lc)) as [offs total]. cbn [fst snd length] in *.
  destruct IH as [-> IH]. split; [rewrite fmap_cons, sum_list_cons; simpl; lia|].
  intros [|i] Hi; [simpl; lia|]. cbn [nth take]. rewrite IH, fmap_cons, sum_list_cons by lia. simpl. lia.
Qed.

Lemma right_offsets_loop_spec ls total i :
  i < length ls ->
  nth i (right_offsets_loop ls total (sum_list ls.*2)) 0 = total + sum_list (drop (S i) ls).*2.
Proof.
  revert i. induction ls as [|[lc rc] ls IH]; intros i Hi; cbn [length right_offsets_loop] in *; [lia|].
  rewrite fmap_cons, sum_list_cons. cbn [snd].
  replace (rc + sum_list ls.*2 - rc) with (sum_list ls.*2) by lia.
  destruct i as [|i]; [done|]. cbn [nth]. rewrite IH by lia. done.
Qed.

Lemma length_concat_sum {A} (ls : list (list A)) : length (concat ls) = sum_list (length <$> ls).
Proof. induction ls as [|l ls IH]; [done|]. cbn [concat]. by rewrite length_app, fmap_cons, sum_list_cons, IH. Qed.

Lemma hump_levels_fst (H : Hump) : (hump_levels H).*1 = length <$> H.*1.
Proof. unfold hump_levels. by rewrite <- !list_fmap_compose. Qed.

Lemma hump_levels_snd (H : Hump) : (hump_levels H).*2 = length <$> H.*2.
Proof. unfold hump_levels. by rewrite <- !list_fmap_compose. Qed.

Lemma sum_list_rev l : sum_list (rev l) = sum_list l.
Proof. induction l as [|x l IH]; [done|]. cbn [rev]. rewrite sum_list_with_app, IH. cbn. lia. Qed.

Lemma rep_lookup t (H : Hump) i l r :
  rep t H -> H !! i = Some (l, r) -> left_at t i = l /\ right_at t i = r.
Proof.
  intros (Hn & Hl & Ho) Hi. apply take_drop_middle in Hi as HH. pose proof (lookup_lt_Some _ _ _ Hi) as Hlt.
  set (H1 := take i H) in *. set (H2 := drop (S i) H) in *.
  assert (Hlen : length H1 = i) by (unfold H1; rewrite length_take; lia).
  unfold compute_offsets in Ho.
  pose proof (left_offsets_loop_spec (levels t) 0) as [Htot Hleft].
  destruct (left_offsets_loop (levels t) 0) as [offs total]. injection Ho as Hlo Hro. simpl in *.
  unfold left_at, right_at. rewrite Hlo, Hro.
  assert (i < length (levels t)) as Hlt' by (rewrite Hl; unfold hump_levels; by rewrite length_fmap).
  rewrite Hleft, right_offsets_loop_spec, Htot, Hl by done.
  assert (nth i (hump_levels H) (0, 0) = (length l, length r)) as ->.
  { apply nth_lookup_Some. unfold hump_levels. by rewrite list_lookup_fmap, Hi. }
  assert (sum_list (take i (hump_levels H)).*1 = length (concat H1.*1)) as ->.
  { unfold hump_levels. rewrite <- fmap_take. fold H1 (hump_levels H1).
    by rewrite hump_levels_fst, length_concat_sum. }
  assert (sum_list (drop (S i) (hump_levels H)).*2 = length (concat H2.*2)) as ->.
  { unfold hump_levels. rewrite <- fmap_drop. fold H2 (hump_levels H2).
    by rewrite hump_levels_snd, length_concat_sum. }
  rewrite hump_levels_fst, <- length_concat_sum, Hn.
  unfold hump_nodes. rewrite <- HH, !fmap_app, !fmap_cons, rev_app_distr. cbn [fst snd rev].
  rewrite !concat_app. cbn [concat]. rewrite !length_app. split.
  - rewrite <- !app_assoc. by apply slice_middle.
  - rewrite !app_nil_r.
    rewrite !app_assoc, <- (app_assoc _ r).
    assert (length (concat (rev H2.*2)) = length (concat H2.*2)) as Hr
      by (rewrite !length_concat_sum; change (length <$> rev H2.*2) with (map length (rev H2.*2)); rewrite map_rev, sum_list_rev; done).
    apply slice_middle; rewrite ?length_app; lia.
Qed.

Lemma offsets_length ls c total after :
  length (left_offsets_loop ls c).1 = length ls /\ length (right_offsets_loop ls total after) = length ls.
Proof.
  revert c after. induction ls as [|[lc rc] ls IH]; intros c after; [done|]. cbn [left_offsets_loop right_offsets_loop length].
  specialize (IH (c + lc) (after - rc)) as [IH1 IH2]. destruct (left_offsets_loop ls (c + lc)). cbn [fst length] in *. auto.
Qed.

Lemma sums_around (ls : list (nat * nat)) i :
  i < length ls ->
  sum_list (take i ls).*1 + (nth i ls (0, 0)).1 <= sum_list ls.*1 /\ sum_list (drop (S i) ls).*2 + (nth i ls (0, 0)).2 <= sum_list ls.*2.
Proof.
  revert i. induction ls as [|[a b] ls IH]; intros [|i] Hi; cbn [length] in Hi; try lia.
  - cbn [take drop nth fst snd]. rewrite !fmap_cons, !sum_list_cons. rewrite drop_0. cbn. lia.
  - cbn [take drop nth]. rewrite !fmap_cons, !sum_list_cons. specialize (IH i ltac:(lia)). cbn [fst snd] in *. lia.
Qed.

(** The slices that [left_at] and [right_at] take of a subtree are in range, so the code does not panic there. *)
Lemma rep_in_bounds t (H : Hump) i :
  rep t H -> i < num_levels t ->
  i < length (left_offsets t) /\ nth i (left_offsets t) 0 + (nth i (levels t) (0, 0)).1 <= num_nodes t /\
  i < length (right_offsets t) /\ nth i (right_offsets t) 0 + (nth i (levels t) (0, 0)).2 <= num_nodes t.
Proof.
  intros (Hn & Hl & Ho) Hi. unfold num_levels, num_nodes in *. unfold compute_offsets in Ho.
  pose proof (left_offsets_loop_spec (levels t) 0) as [Htot Hleft].
  pose proof (offsets_length (levels t) 0 (left_offsets_loop (levels t) 0).2 (sum_list (levels t).*2)) as [L1 L2].
  destruct (left_offsets_loop (levels t) 0) as [offs total]. injection Ho as Hlo Hro. cbn [fst snd] in *.
  rewrite Hlo, Hro, L1, L2, Hleft, right_offsets_loop_spec, Htot by done. pose proof (sums_around _ _ Hi) as [S1 S2].
  assert (length (nodes t) = sum_list (levels t).*1 + sum_list (levels t).*2) as ->; [|lia].
  rewrite Hn, Hl, hump_levels_fst, hump_levels_snd. unfold hump_nodes. rewrite length_app, !length_concat_sum. f_equal.
  change (length <$> rev H.*2) with (map length (rev H.*2)). by rewrite map_rev, sum_list_rev.
Qed.

(** ** Splitting a level, on lists *)

(** The prefix, the merged region and the suffix of a level. *)
Definition split3 (ns : list Node) (s e : bool) : list Node * list Node * list Node :=
  if length ns <=? 1 then (ns, [], [])
  else
    match (if s then Some 0 else find_stable_start ns) with
    | None => (ns, [], [])
    | Some a =>
        if e then (take a ns, drop a ns, [])
        else
          match find_stable_end (drop a ns) with
          | None => (ns, [], [])
          | Some b => (take a ns, take b (drop a ns), drop b (drop a ns))
          end
    end.

Section HumpOps.
  Context `{B3 : Blake3}.

Lemma promote_loop_spec fuel remaining promoted :
    length remaining <= fuel -> promote_loop fuel remaining promoted = promoted ++ promote remaining.
Proof.
  revert remaining promoted. induction fuel as [|fuel IH]; intros l acc Hf; cbn [promote_loop].
  - destruct l; [|simpl in Hf; lia]. unfold promote. simpl. by rewrite app_nil_r.
  - destruct (Nat.ltb_spec 0 (length l)) as [Hl|Hl].
    + assert (l <> []) as Hne by (by destruct l; simpl in Hl; [lia|]).
      pose proof (next_merge_cut_bounds l) as (? & _ & Hpos & _). specialize (Hpos Hne).
      rewrite IH by (rewrite length_drop; lia). unfold promote at 2. rewrite cut_groups_cons by done.
      rewrite fmap_cons, <- app_assoc. done.
    + destruct l; [|simpl in Hl; lia]. unfold promote. simpl. by rewrite app_nil_r.
Qed.

Lemma find_stable_start_bounds l a : find_stable_start l = Some a -> 0 < a < length l.
Proof.
  intros (i & j & k & (? & _ & _ & _ & _ & ?%cut_at_lt & _) & ->)%find_stable_start_sound. lia.
Qed.

(** Whether a level may be split at [a]. *)
Lemma split_start_bounds (s : bool) l a :
    1 < length l -> (if s then Some 0 else find_stable_start l) = Some a -> a < length l.
Proof. intros Hl Ha. destruct s; [injection Ha as <-; lia|]. apply find_stable_start_bounds in Ha. lia. Qed.

Lemma split_and_promote_spec ns s e pre mid suf :
    split3 ns s e = (pre, mid, suf) ->
    split_and_promote ns s e = (length pre, length suf, promote mid) /\ ns = pre ++ mid ++ suf.
Proof.
  assert (Hall : forall l : list Node, l = l ++ [] ++ []) by (intros; simpl; by rewrite app_nil_r).
  unfold split3, split_and_promote. destruct (Nat.leb_spec (length ns) 1) as [|Hlen]; [intros [= <- <- <-]; auto|].
  destruct (if s then Some 0 else find_stable_start ns) as [a|] eqn:Ha; [|intros [= <- <- <-]; auto].
  pose proof (split_start_bounds s ns a Hlen Ha) as Hlt. destruct e.
  - intros [= <- <- <-]. rewrite (proj2 (Nat.leb_gt _ _)), slice_all_cut, promote_loop_spec by lia.
    rewrite length_take_le, Nat.sub_diag, app_nil_r, take_drop by lia. done.
  - destruct (find_stable_end (drop a ns)) as [b|] eqn:Hb; simpl; [|intros [= <- <- <-]; auto].
    pose proof (find_stable_end_bounds _ _ Hb) as Hbb. rewrite length_drop in Hbb.
    intros [= <- <- <-]. rewrite (proj2 (Nat.leb_gt _ _)) by lia.
    unfold slice. replace (a + b - a) with b by lia. rewrite promote_loop_spec by lia.
    rewrite length_take_le, !length_drop by lia. split; [|by rewrite !take_drop].
    by replace (length ns - a - b) with (length ns - (a + b)) by lia.
Qed.

(** ** The buffers of a hump under construction *)

Definition buf_rep (b : HumpBuffers) (H : Hump) : Prop :=
    out_left_nodes b = concat H.*1 /\ out_right_nodes b = concat H.*2 /\ out_levels b = hump_levels H.

Definition is_nil {A} (l : list A) : bool := match l with [] => true | _ => false end.

Lemma negb_ltb_length {A} (l : list A) : negb (0 <? length l) = is_nil l.
Proof. by destruct l. Qed.

Lemma push_level_rep b H s e full pre mid suf :
    buf_rep b H ->
    split3 full (s && all_lefts_empty b) (e && all_rights_empty b) = (pre, mid, suf) ->
    let b' := push_level s e full b in
    buf_rep b' (H ++ [(pre, suf)]) /\ carry b' = promote mid /\
    all_lefts_empty b' = all_lefts_empty b && is_nil pre /\
    all_rights_empty b' = all_rights_empty b && is_nil suf.
Proof.
  intros (Hl & Hr & Hlv) Hs. apply split_and_promote_spec in Hs as [Hs Hfull].
  unfold push_level. rewrite Hs. cbn [carry all_lefts_empty all_rights_empty]. rewrite !negb_ltb_length. split_and!; [|done..].
  unfold buf_rep, hump_levels. cbn [out_left_nodes out_right_nodes out_levels].
  rewrite !fmap_app, !concat_app, Hl, Hr, Hlv. cbn [fmap list_fmap concat fst snd].
  rewrite !app_nil_r, Hfull. split_and!; [|f_equal|done].
  - by rewrite take_app_length.
  - rewrite !length_app, app_assoc.
    replace (length pre + (length mid + length suf) - length suf) with (length (pre ++ mid))
      by (rewrite length_app; lia).
    by rewrite drop_app_length.
Qed.

Lemma push_top_rep b H x :
    buf_rep b H -> carry b = [x] -> buf_rep (push_top b) (H ++ [([x], [])]) /\ carry (push_top b) = [].
Proof.
  intros (Hl & Hr & Hlv) Hc. unfold push_top, buf_rep, hump_levels. cbn. rewrite Hc.
  rewrite !fmap_app, !concat_app, Hl, Hr, Hlv. cbn. by rewrite !app_nil_r.
Qed.

(** The levels added for a carried sequence. *)
Fixpoint carry_hump (fuel : nat) (C : list Node) (s e al ar : bool) : Hump :=
    match fuel with
    | O => []
    | S fuel' =>
        match C with
        | [] => []
        | [x] => [([x], [])]
        | _ =>
            let '(pre, mid, suf) := split3 C (s && al) (e && ar) in
            (pre, suf) :: carry_hump fuel' (promote mid) s e (al && is_nil pre) (ar && is_nil suf)
        end
    end.

Lemma merge_carry_loop_rep fuel s e b H :
    buf_rep b H ->
    buf_rep (merge_carry_loop fuel s e b)
            (H ++ carry_hump fuel (carry b) s e (all_lefts_empty b) (all_rights_empty b)).
Proof.
  revert b H. induction fuel as [|fuel IH]; intros b H Hb; cbn [merge_carry_loop carry_hump];
    [by rewrite app_nil_r|].
  destruct (carry b) as [|x [|y C]] eqn:Hc; cbn [length Nat.eqb].
  - by rewrite app_nil_r.
  - destruct (push_top_rep b H x Hb Hc) as [Hb' Hc']. specialize (IH _ _ Hb').
    rewrite Hc' in IH. destruct fuel; cbn [carry_hump] in IH; by rewrite app_nil_r in IH.
  - rewrite <- Hc. destruct (split3 (carry b) (s && all_lefts_empty b) (e && all_rights_empty b))
      as [[pre mid] suf] eqn:Hs.
    destruct (push_level_rep b H s e (carry b) pre mid suf Hb Hs) as (Hb' & Hc' & Hl' & Hr').
    specialize (IH _ _ Hb'). rewrite Hc', Hl', Hr' in IH. by rewrite <- app_assoc in IH.
Qed.

Lemma length_split3_mid ns s e pre mid suf :
    split3 ns s e = (pre, mid, suf) -> 1 < length ns -> length (promote mid) < length ns.
Proof.
  intros Hs Hlen. apply split_and_promote_spec in Hs as [_ ->]. rewrite !length_app in *.
  destruct (decide (1 < length mid)) as [Hm|Hm]; [apply length_promote in Hm; lia|].
  unfold promote. rewrite length_fmap. destruct mid as [|x [|y mid]]; simpl in *; [lia|lia|lia].
Qed.

Lemma build_hump_loop_rep fuel current s e b H :
    current <> [] -> length current < fuel -> buf_rep b H ->
    buf_rep (build_hump_loop fuel current s e b)
            (H ++ carry_hump fuel current s e (all_lefts_empty b) (all_rights_empty b)).
Proof.
  revert current b H. induction fuel as [|fuel IH]; intros C b H Hne Hf Hb; [lia|].
  cbn [build_hump_loop]. destruct (split3 C (s && all_lefts_empty b) (e && all_rights_empty b))
    as [[pre mid] suf] eqn:Hs.
  destruct (push_level_rep b H s e C pre mid suf Hb Hs) as (Hb' & Hc' & Hl' & Hr').
  rewrite Hc'. destruct C as [|x [|y C]]; [done| |].
  - unfold split3 in Hs. simpl in Hs. injection Hs as <- <- <-. cbn [promote cut_groups carry_hump]. done.
  - set (C' := x :: y :: C) in *.
    assert (carry_hump (S fuel) C' s e (all_lefts_empty b) (all_rights_empty b) =
      (pre, suf) :: carry_hump fuel (promote mid) s e (all_lefts_empty b && is_nil pre)
                               (all_rights_empty b && is_nil suf)) as ->.
    { cbn [carry_hump]. unfold C' at 1. fold C'. by rewrite Hs. }
    pose proof (length_split3_mid _ _ _ _ _ _ Hs ltac:(unfold C'; simpl; lia)) as Hm.
    rewrite (cons_middle (pre, suf)), app_assoc.
    destruct (promote mid) as [|u [|v P]] eqn:Hp.
    + simpl. destruct fuel; by rewrite app_nil_r.
    + simpl. destruct fuel; [unfold C' in Hf; simpl in Hf; lia|]. by apply push_top_rep.
    + cbn [length Nat.eqb]. specialize (IH (u :: v :: P) _ _ ltac:(done) ltac:(lia) Hb').
      by rewrite Hl', Hr' in IH.
Qed.

(** The hump of a range of chunks. *)
Definition chunks_hump (s : bool) (chunks : list Node) (e : bool) : Hump :=
    match chunks with
    | [] => [([], [])]
    | _ => carry_hump (S (length chunks)) chunks s e true true
    end.

Lemma from_chunks_rep s chunks e :
    let t := from_chunks s chunks e in
    rep t (chunks_hump s chunks e) /\ at_start t = s /\ at_end t = e.
Proof.
  assert (Hb : buf_rep (build_hump_loop (S (length chunks)) chunks s e empty_buffers) (chunks_hump s chunks e)).
  { destruct chunks as [|x chunks]; [by destruct s, e|].
    exact (build_hump_loop_rep (S (length (x :: chunks))) (x :: chunks) s e empty_buffers []
             ltac:(done) ltac:(lia) ltac:(done)). }
  unfold from_chunks, build_hump. destruct Hb as (Hl & Hr & Hlv). rewrite Hl, Hr, Hlv.
  rewrite flatten_hump_spec. destruct (compute_offsets (hump_levels (chunks_hump s chunks e))) as [lo ro] eqn:Ho.
  split_and!; [|done..]. by split_and!.
Qed.

(** The subtree of a range is empty exactly when the range is. *)
Lemma carry_hump_nodes fuel C s e al ar : C <> [] -> length C < fuel -> hump_nodes (carry_hump fuel C s e al ar) <> [].
Proof.
  revert C al ar. induction fuel as [|fuel IH]; intros C al ar Hne Hf; [lia|]. cbn [carry_hump]. destruct C as [|x [|y C]]; [done|done|].
  destruct (split3 (x :: y :: C) (s && al) (e && ar)) as [[pre mid] suf] eqn:Es. destruct (split_and_promote_spec _ _ _ _ _ _ Es) as [_ Ha].
  unfold hump_nodes. cbn [fmap list_fmap fst snd concat rev]. destruct pre as [|a pre]; [|done]. destruct suf as [|a suf].
  - rewrite app_nil_r in Ha. cbn [app] in Ha. subst mid. rewrite concat_app. cbn [concat]. rewrite !app_nil_r.
    apply IH; [by apply promote_nonempty|]. pose proof (length_promote (x :: y :: C) ltac:(cbn; lia)). lia.
  - rewrite concat_app. cbn [concat]. intros Hn. apply app_eq_nil in Hn as [_ Hn]. apply app_eq_nil in Hn as [_ Hn]. done.
Qed.

Lemma from_chunks_empty s chunks e : is_empty (from_chunks s chunks e) = is_nil chunks.
Proof.
  destruct (from_chunks_rep s chunks e) as ((Hn & _) & _). unfold is_empty. rewrite Hn. destruct chunks as [|x chunks]; [done|].
  pose proof (carry_hump_nodes (S (length (x :: chunks))) (x :: chunks) s e true true ltac:(done) ltac:(lia)) as H.
  cbn [chunks_hump is_nil]. by destruct (hump_nodes _).
Qed.

(** The levels of a merge: [Ss] are the concatenated levels of the left tree. *)
Fixpoint merge_hump (n : nat) (Ss : list (list Node)) (C : list Node) (Hs : Hump) (s e al ar : bool) : Hump :=
    match n with
    | O => carry_hump (S (length C)) C s e al ar
    | S n' =>
        let full := List.hd [] Ss ++ C ++ (List.hd ([], []) Hs).1 ++ (List.hd ([], []) Hs).2 in
        let '(pre, mid, suf) := split3 full (s && al) (e && ar) in
        (pre, suf) :: merge_hump n' (tail Ss) (promote mid) (tail Hs) s e
                                 (al && is_nil pre) (ar && is_nil suf)
    end.

(** The left and right nodes of a level, joined. *)
Definition joined (H : Hump) : list (list Node) := (fun lr => lr.1 ++ lr.2) <$> H.

Lemma rep_level t (H : Hump) i :
    rep t H ->
    (if i <? num_levels t then left_at t i else []) = (List.hd ([], []) (drop i H)).1 /\
    (if i <? num_levels t then right_at t i else []) = (List.hd ([], []) (drop i H)).2 /\
    List.hd [] (drop i (joined H)) = (List.hd ([], []) (drop i H)).1 ++ (List.hd ([], []) (drop i H)).2.
Proof.
  intros Hr. assert (num_levels t = length H) as ->.
  { destruct Hr as (_ & Hl & _). unfold num_levels. rewrite Hl. apply length_fmap. }
  unfold joined. rewrite <- fmap_drop. destruct (Nat.ltb_spec i (length H)) as [Hi|Hi].
  - apply lookup_lt_is_Some in Hi as [[l r] Hi]. destruct (rep_lookup t H i l r Hr Hi) as [-> ->].
    by rewrite (drop_S _ _ _ Hi).
  - by rewrite drop_ge.
Qed.

Lemma merge_levels_loop_rep n level t other b H Ht Ho :
    rep t Ht -> rep other Ho -> buf_rep b H ->
    let b' := merge_levels_loop n level t other b in
    buf_rep (merge_carry_loop (S (length (carry b'))) (at_start t) (at_end other) b')
            (H ++ merge_hump n (drop level (joined Ht)) (carry b) (drop level Ho)
                   (at_start t) (at_end other) (all_lefts_empty b) (all_rights_empty b)).
Proof.
  intros Hrt Hro. revert level b H. induction n as [|n IH]; intros level b H Hb; cbn [merge_levels_loop merge_hump].
  - by apply merge_carry_loop_rep.
  - destruct (rep_level t Ht level Hrt) as (-> & -> & ->).
    destruct (rep_level other Ho level Hro) as (-> & -> & _).
    rewrite <- app_assoc. set (full := _ ++ _ ++ _ ++ _ ++ _).
    destruct (split3 full (at_start t && all_lefts_empty b) (at_end other && all_rights_empty b))
      as [[pre mid] suf] eqn:Hs.
    destruct (push_level_rep b H _ _ full pre mid suf Hb Hs) as (Hb' & Hc' & Hl' & Hr').
    specialize (IH (S level) _ _ Hb'). rewrite Hc', Hl', Hr', <- app_assoc in IH.
    by rewrite !tail_drop.
Qed.
End HumpOps.

(** ** What the two operands of a merge represent

    A tree that starts the file, [LeftRep Ss V]: at every level the sequence [V]
    is a promoted part [M] with a stable end, followed by the kept nodes [S]. *)
Inductive LeftRep `{Blake3} : list (list Node) -> list Node -> Prop :=
| LeftRep_nil : LeftRep [] []
| LeftRep_top S : find_stable_end S = None -> LeftRep [S] S
| LeftRep_level M S rest :
    stable_tail M -> find_stable_end S = None -> 2 <= length S ->
    LeftRep rest (promote M) -> LeftRep (S :: rest) (M ++ S).

(** A range that does not start the file, [RightRep e H V]: a kept prefix with a
    stable tail, a promoted part, and a kept suffix (none at the end of the file). *)
Inductive RightRep `{Blake3} (e : bool) : Hump -> list Node -> Prop :=
| RightRep_nil : RightRep e [] []
| RightRep_top A : RightRep e [(A, [])] A
| RightRep_level A M B rest :
    stable_tail A -> M <> [] ->
    (if e then B = [] else stable_tail M /\ exists z b, find_stable_end z = Some b /\ B = drop b z) ->
    RightRep e rest (promote M) -> RightRep e ((A, B) :: rest) (A ++ M ++ B).

Section Representations.
  Context `{B3 : Blake3}.

Lemma stable_tail_length l : stable_tail l -> 4 <= length l.
Proof. intros (i & ? & ? & _). lia. Qed.

Lemma stable_tail_nonempty l : stable_tail l -> l <> [].
Proof. intros Hs%stable_tail_length. destruct l; simpl in *; [lia|done]. Qed.

Lemma stable_end_rest_length z b : find_stable_end z = Some b -> 2 <= length (drop b z).
Proof.
  intros Hb. pose proof (find_stable_end_spec z) as Hs. rewrite Hb in Hs.
  destruct Hs as (i & j & k & (_ & _ & Hg%valid_gap_iff & _ & _ & ?%cut_at_lt & _) & -> & _).
  rewrite length_drop. lia.
Qed.

Lemma find_stable_end_short l : length l <= 1 -> find_stable_end l = None.
Proof. intros. apply find_stable_end_none. intros i j k Ht%triple_length. lia. Qed.

Lemma promote_closed l t : closed l -> promote (l ++ t) = promote l ++ promote t.
Proof. intros Hc. unfold promote. by rewrite Hc, fmap_app. Qed.

Lemma split3_start l : split3 l true false =
    match find_stable_end l with
    | None => (l, [], [])
    | Some b => ([], take b l, drop b l)
    end.
Proof.
  unfold split3. destruct (Nat.leb_spec (length l) 1); [by rewrite find_stable_end_short|done].
Qed.

Lemma split3_middle_none l : find_stable_end l = None -> split3 l false false = (l, [], []).
Proof. intros Hn. unfold split3. rewrite find_stable_start_none by done. by case_match. Qed.

Lemma split3_both l : split3 l true true = if length l <=? 1 then (l, [], []) else ([], l, []).
Proof. unfold split3. by case_match. Qed.

(** ** Ranges built from chunks *)

Lemma LeftRep_split M S rest V :
    V = M ++ S -> stable_tail M -> find_stable_end S = None -> 2 <= length S ->
    LeftRep rest (promote M) -> LeftRep (S :: rest) V.
Proof. intros ->. by constructor. Qed.

Lemma RightRep_split (e : bool) A M B rest V :
    V = A ++ M ++ B -> stable_tail A -> M <> [] ->
    (if e then B = [] else stable_tail M /\ exists z b, find_stable_end z = Some b /\ B = drop b z) ->
    RightRep e rest (promote M) -> RightRep e ((A, B) :: rest) V.
Proof. intros ->. by constructor. Qed.

Lemma carry_hump_nil fuel s e al ar : carry_hump fuel [] s e al ar = [].
Proof. by destruct fuel. Qed.

Lemma carry_hump_left fuel C ar :
    length C <= fuel -> LeftRep (joined (carry_hump fuel C true false true ar)) C.
Proof.
  revert C ar. induction fuel as [|fuel IH]; intros C ar Hf.
  { destruct C; [constructor|simpl in Hf; lia]. }
  destruct C as [|x [|y C]]; cbn [carry_hump]; [constructor|by constructor; apply find_stable_end_short|].
  set (C' := x :: y :: C) in *. cbn [andb]. rewrite split3_start.
  destruct (find_stable_end C') as [b|] eqn:Hb; cbn [joined fmap list_fmap fst snd].
  - pose proof (find_stable_end_tail _ _ Hb) as Hst. pose proof (find_stable_end_bounds _ _ Hb).
    rewrite app_nil_l. apply (LeftRep_split (take b C')); [by rewrite take_drop|done|by apply find_stable_end_rest|by apply stable_end_rest_length|].
    apply IH. assert (length (promote (take b C')) < length (take b C')) as Hlt.
    { apply length_promote. apply stable_tail_length in Hst. lia. }
    rewrite length_take_le in Hlt by lia. lia.
  - change (promote []) with ([] : list Node). rewrite carry_hump_nil, app_nil_r. by constructor.
Qed.

Lemma carry_hump_right fuel C (e al ar : bool) :
    length C <= fuel -> (e = true -> ar = true) -> RightRep e (carry_hump fuel C false e al ar) C.
Proof.
  revert C al ar. induction fuel as [|fuel IH]; intros C al ar Hf Har.
  { destruct C; [constructor|simpl in Hf; lia]. }
  destruct C as [|x [|y C]]; cbn [carry_hump]; [constructor|constructor|].
  set (C' := x :: y :: C) in *. cbn [andb].
  assert (Htop : RightRep e ((C', []) :: carry_hump fuel (promote []) false e (al && is_nil C') (ar && true)) C').
  { change (promote []) with ([] : list Node). rewrite carry_hump_nil. constructor. }
  assert (e && ar = e) as -> by (destruct e; [by rewrite Har|done]).
  pose proof (length_split3_mid C' false e) as Hmid.
  destruct (split3 C' false e) as [[pre mid] suf] eqn:Hs.
  specialize (Hmid _ _ _ eq_refl ltac:(unfold C'; simpl; lia)). revert Hs Hmid.
  unfold split3. change (length C' <=? 1) with false. cbn iota.
  destruct (find_stable_start C') as [a|] eqn:Ha; [|by intros [= <- <- <-]].
  pose proof (find_stable_start_bounds _ _ Ha).
  apply find_stable_start_sound in Ha as (i & j & k & Ht & ->). apply triple_stable_tail in Ht.
  destruct e.
  - intros [= <- <- <-] Hmid. apply RightRep_split with (M := drop (j + 1) C'); [by rewrite app_nil_r, take_drop|done| |done|].
    + intros Hd%(f_equal length). rewrite length_drop in Hd. simpl in *. lia.
    + apply IH; [lia|by rewrite Har].
  - destruct (find_stable_end (drop (j + 1) C')) as [b|] eqn:Hb; [|by intros [= <- <- <-]].
    intros [= <- <- <-] Hmid. pose proof (find_stable_end_tail _ _ Hb) as Hst.
    apply RightRep_split with (M := take b (drop (j + 1) C')); [by rewrite !take_drop|done|by apply stable_tail_nonempty| |apply IH; [lia|done]].
    split; [done|]. by exists (drop (j + 1) C'), b.
Qed.

Lemma chunks_hump_left chunks : LeftRep (joined (chunks_hump true chunks false)) chunks.
Proof.
  destruct chunks as [|x chunks]; [apply LeftRep_top, find_stable_end_short; simpl; lia|].
  apply carry_hump_left. lia.
Qed.

Lemma chunks_hump_right chunks e : RightRep e (chunks_hump false chunks e) chunks.
Proof. destruct chunks as [|x chunks]; [apply RightRep_top|]. apply carry_hump_right; [lia|done]. Qed.

(** ** Merging a range into the start of the file *)

Lemma LeftRep_inv Ss V :
    LeftRep Ss V -> exists M, V = M ++ List.hd [] Ss /\ closed M /\
      find_stable_end (List.hd [] Ss) = None /\ LeftRep (tail Ss) (promote M) /\
      ((M = [] /\ tail Ss = []) \/ (stable_tail M /\ 2 <= length (List.hd [] Ss))).
Proof.
  intros [|S HS|M S rest HM HS Hlen Hrest]; simpl.
  - exists []. split_and!; [done|apply closed_nil|done|constructor|by left].
  - exists []. split_and!; [done|apply closed_nil|done|constructor|by left].
  - exists M. split_and!; [done|by apply stable_tail_closed|done|done|by right].
Qed.

Lemma RightRep_inv e Hs V :
    RightRep e Hs V ->
    let A := (List.hd ([], []) Hs).1 in let B := (List.hd ([], []) Hs).2 in
    (V = A /\ B = [] /\ tail Hs = []) \/
    (exists M, V = A ++ M ++ B /\ stable_tail A /\ M <> [] /\ RightRep e (tail Hs) (promote M) /\
       if e then B = [] else stable_tail M /\ exists z b, find_stable_end z = Some b /\ B = drop b z).
Proof.
  intros [|A|A M B rest HA HM HB Hrest]; simpl; [by left|by left|right].
  exists M. by split_and!.
Qed.

(** Above a level that could not be split, the left tree is kept as it is. *)
Lemma merge_hump_collapsed Ss V ar :
    LeftRep Ss V -> joined (merge_hump (length Ss) Ss [] [] true false false ar) = Ss.
Proof.
  intros HL. revert ar. induction HL as [|S HS|M S rest HM HS Hlen Hrest IH]; intros ar; [done| |];
    cbn [length merge_hump List.hd tail andb fst snd app]; rewrite !app_nil_r, split3_middle_none by done;
    cbn [joined fmap list_fmap fst snd].
  - by rewrite app_nil_r.
  - rewrite app_nil_r. f_equal. apply IH.
Qed.

Lemma merge_hump_left n Ss V C Hs V' ar :
    LeftRep Ss V -> RightRep false Hs V' -> Nat.max (length Ss) (length Hs) = n ->
    LeftRep (joined (merge_hump n Ss C Hs true false true ar)) (V ++ C ++ V').
Proof.
  revert Ss V C Hs V' ar. induction n as [|n IH]; intros Ss V C Hs V' ar HL HR Hn.
  { destruct Ss, Hs; simpl in Hn; try lia. inversion HL; inversion HR; subst.
    rewrite app_nil_l, app_nil_r. apply carry_hump_left. lia. }
  assert (Hn' : Nat.max (length (tail Ss)) (length (tail Hs)) = n) by (destruct Ss, Hs; simpl in *; lia).
  apply LeftRep_inv in HL as (M & -> & HMc & HS & HL & HMS). apply RightRep_inv in HR.
  cbn [merge_hump]. set (S := List.hd [] Ss) in *. set (A := (List.hd ([], []) Hs).1) in *.
  set (B := (List.hd ([], []) Hs).2) in *. cbn [andb]. rewrite split3_start.
  (* a split level, whose promoted part [P] continues the one of the left tree *)
  assert (Hlevel : forall P Q X W, W = (M ++ P ++ X) ++ Q -> find_stable_end Q = None -> 2 <= length Q ->
    RightRep false (tail Hs) (promote X) -> closed P -> stable_tail (P ++ X) ->
    LeftRep (Q :: joined (merge_hump n (tail Ss) (promote P) (tail Hs) true false true (ar && is_nil Q))) W).
  { intros P Q X W HW HQ HQl HX HP HPX.
    apply (LeftRep_split (M ++ P ++ X)); [done|by apply stable_tail_app_r|done|done|].
    rewrite (promote_closed M), (promote_closed P) by done. by apply IH. }
  destruct HR as [(-> & HB & Htl)|(X & -> & HA & HX & HR & HXs & z & b & Hb & HB)].
  - rewrite HB, app_nil_r. destruct (find_stable_end (S ++ C ++ A)) as [b|] eqn:Hb.
    + pose proof (find_stable_end_tail _ _ Hb) as Hst.
      apply Hlevel with (X := []); [|by apply find_stable_end_rest|by apply stable_end_rest_length| |
        by apply stable_tail_closed|by rewrite app_nil_r].
      * by rewrite app_nil_r, <- !app_assoc, take_drop.
      * rewrite Htl. constructor.
    + cbn [joined fmap list_fmap fst snd]. change (promote []) with ([] : list Node).
      rewrite app_nil_r, Htl in *. simpl in Hn'. rewrite Nat.max_0_r in Hn'. subst n.
      destruct HMS as [[-> Htl']|[HM Hlen]].
      * rewrite Htl', <- app_assoc. by apply LeftRep_top.
      * assert (is_nil (S ++ C ++ A) = false) as -> by (destruct S; simpl in *; [lia|done]).
        cbn [andb]. fold (joined (merge_hump (length (tail Ss)) (tail Ss) [] [] true false false (ar && true))).
        erewrite merge_hump_collapsed by done.
        apply (LeftRep_split M); [by rewrite <- app_assoc|done|done|rewrite length_app; lia|done].
  - assert (find_stable_end (S ++ C ++ A ++ B) = Some (length (S ++ C ++ A))) as ->.
    { rewrite HB, !app_assoc. apply find_stable_end_join; [|done]. by apply stable_tail_app_r. }
    rewrite !app_assoc, <- (app_assoc S), take_app_length, drop_app_length.
    apply Hlevel with (X := X).
    + by rewrite <- !app_assoc.
    + rewrite HB. by apply find_stable_end_rest.
    + rewrite HB. by apply stable_end_rest_length.
    + done.
    + rewrite app_assoc. by apply stable_tail_closed, stable_tail_app_r.
    + by apply stable_tail_app_r.
Qed.

(** ** Closing the file

    [ClosedHump H V]: every level is empty but the top one, which holds the root of [V]. *)
Definition ClosedHump (H : Hump) (V : list Node) : Prop :=
    (V = [] /\ concat (joined H) = [] /\ length H <= 1) \/
    exists k r, H = replicate k ([], []) ++ [([r], [])] /\ Root V r.

Lemma ClosedHump_level H V :
    1 < length V -> ClosedHump H (promote V) -> ClosedHump (([], []) :: H) V.
Proof.
  intros Hlen [(Hn & _ & _)|(k & r & -> & Hr)].
  - apply promote_nonempty in Hn; [done|]. by destruct V; simpl in Hlen; [lia|].
  - right. exists (S k), r. split; [done|by constructor].
Qed.

Lemma carry_hump_closed fuel C :
    length C <= fuel -> ClosedHump (carry_hump fuel C true true true true) C.
Proof.
  revert C. induction fuel as [|fuel IH]; intros C Hf.
  { destruct C; [|simpl in Hf; lia]. left. split_and!; [done|done|simpl; lia]. }
  destruct C as [|x [|y C]]; cbn [carry_hump].
  - left. split_and!; [done|done|simpl; lia].
  - right. exists 0, x. split; [done|constructor].
  - set (C' := x :: y :: C) in *. cbn [andb]. rewrite split3_both. change (length C' <=? 1) with false.
    cbn [is_nil]. pose proof (length_promote C' ltac:(unfold C'; simpl; lia)).
    apply ClosedHump_level; [unfold C'; simpl; lia|]. apply IH. lia.
Qed.

Lemma merge_hump_closed n Ss V C Hs V' :
    LeftRep Ss V -> RightRep true Hs V' -> Nat.max (length Ss) (length Hs) = n ->
    ClosedHump (merge_hump n Ss C Hs true true true true) (V ++ C ++ V').
Proof.
  revert Ss V C Hs V'. induction n as [|n IH]; intros Ss V C Hs V' HL HR Hn.
  { destruct Ss, Hs; simpl in Hn; try lia. inversion HL; inversion HR; subst.
    rewrite app_nil_l, app_nil_r. apply carry_hump_closed. lia. }
  assert (Hn' : Nat.max (length (tail Ss)) (length (tail Hs)) = n) by (destruct Ss, Hs; simpl in *; lia).
  apply LeftRep_inv in HL as (M & -> & HMc & _ & HL & HMS). apply RightRep_inv in HR.
  cbn [merge_hump]. set (S := List.hd [] Ss) in *. set (A := (List.hd ([], []) Hs).1) in *.
  set (B := (List.hd ([], []) Hs).2) in *. cbn [andb]. rewrite split3_both.
  assert (exists X, V' = A ++ X /\ B = [] /\ RightRep true (tail Hs) (promote X) /\
    ((X = [] /\ tail Hs = []) \/ stable_tail A)) as (X & -> & -> & HRX & HX).
  { destruct HR as [(-> & -> & Ht)|(X & -> & HA & _ & HR & ->)].
    - exists []. rewrite app_nil_r, Ht. split_and!; [done|done|constructor|by left].
    - exists X. rewrite app_nil_r. split_and!; [done|done|done|by right]. }
  rewrite app_nil_r. destruct (Nat.leb_spec (length (S ++ C ++ A)) 1) as [Hle|Hgt].
  - (* one node at most: nothing is above it *)
    rewrite !length_app in Hle. destruct HMS as [[-> Htl]|[_ ?]]; [|lia].
    destruct HX as [[-> Htl']|?%stable_tail_length]; [|lia].
    rewrite Htl, Htl' in *. simpl in Hn'. subst n. rewrite app_nil_l, app_nil_r, <- !length_app in *.
    destruct (S ++ C ++ A) as [|x [|y F]]; [|right; exists 0, x; split; [done|constructor]|simpl in Hle; lia].
    left. split_and!; [done|done|simpl; lia].
  - cbn [is_nil]. apply ClosedHump_level; [rewrite !length_app in *; lia|].
    replace (promote ((M ++ S) ++ C ++ A ++ X)) with (promote M ++ promote (S ++ C ++ A) ++ promote X); [by apply IH|].
    assert (promote ((S ++ C ++ A) ++ X) = promote (S ++ C ++ A) ++ promote X) as HP.
    { destruct HX as [[-> _]|HA]; [by rewrite app_nil_r; cbn; rewrite app_nil_r|].
      apply promote_closed. rewrite app_assoc. by apply stable_tail_closed, stable_tail_app_r. }
    by rewrite <- HP, <- promote_closed, <- !app_assoc.
Qed.

(** ** The concrete merge *)

Lemma trim_levels_id ls x : last ls = Some x -> x <> (0, 0) -> trim_levels ls = ls.
Proof.
  intros Hl Hx. apply last_Some in Hl as [ls' ->]. unfold trim_levels. rewrite rev_app_distr. cbn [rev app trim_levels_rev].
  destruct x as [[|] [|]]; [done| | |]; by rewrite <- (rev_involutive (ls' ++ _)), rev_app_distr.
Qed.

Lemma trim_levels_short ls : length ls <= 1 -> trim_levels ls = ls.
Proof. intros Hl. destruct ls as [|[[|] [|]] [|]]; simpl in Hl; done || lia. Qed.

Lemma LeftRep_last Ss V : LeftRep Ss V -> V <> [] -> exists S, last Ss = Some S /\ S <> [].
Proof.
  induction 1 as [|S HS|M S rest HM HS Hlen Hrest IH]; intros HV; [done|by exists S|].
  destruct IH as (S' & HS' & ?); [by apply promote_nonempty, stable_tail_nonempty|].
  exists S'. split; [|done]. destruct rest; [done|]. by rewrite last_cons_cons.
Qed.

Lemma LeftRep_trim (H : Hump) V : LeftRep (joined H) V -> trim_levels (hump_levels H) = hump_levels H.
Proof.
  intros HL. destruct V as [|v V].
  - apply trim_levels_short. unfold hump_levels. rewrite length_fmap.
    assert (length (joined H) <= 1) as Hj; [|unfold joined in Hj; by rewrite length_fmap in Hj].
    inversion HL as [|S HS|M S rest HM]; subst; simpl; [lia|lia|].
    apply stable_tail_nonempty in HM. by destruct M.
  - apply LeftRep_last in HL as (S & HS & Hne); [|done]. unfold joined in HS. rewrite fmap_last in HS.
    destruct (last H) as [[l r]|] eqn:E; simpl in HS; [|done]. injection HS as <-.
    eapply (trim_levels_id _ (length l, length r)); [unfold hump_levels; by rewrite fmap_last, E|].
    intros [= Hl Hr]. apply Hne. by destruct l, r.
Qed.

Lemma ClosedHump_trim H V : ClosedHump H V -> trim_levels (hump_levels H) = hump_levels H.
Proof.
  intros [(_ & _ & Hl)|(k & r & -> & _)].
  - apply trim_levels_short. unfold hump_levels. by rewrite length_fmap.
  - eapply (trim_levels_id _ (1, 0)); [|done]. unfold hump_levels. by rewrite fmap_last, last_snoc.
Qed.

Lemma merge_into_impl_rep t other (Ht Ho : Hump) :
    rep t Ht -> rep other Ho -> at_end t = false -> at_start other = false ->
    let H' := merge_hump (Nat.max (length (joined Ht)) (length Ho)) (joined Ht) [] Ho (at_start t) (at_end other) true true in
    trim_levels (hump_levels H') = hump_levels H' ->
    exists t', merge_into_impl t other = Ok t' /\ rep t' H' /\ at_start t' = at_start t /\ at_end t' = at_end other.
Proof.
  intros Hrt Hro He Hs H' Htrim. unfold merge_into_impl. rewrite He, Hs.
  set (n := Nat.max (num_levels t) (num_levels other)).
  pose proof (merge_levels_loop_rep n 0 t other empty_buffers [] Ht Ho Hrt Hro ltac:(done)) as (Hl & Hr & Hlv).
  assert (n = Nat.max (length (joined Ht)) (length Ho)) as Hn.
  { unfold n, num_levels. destruct Hrt as (_ & -> & _), Hro as (_ & -> & _).
    unfold hump_levels, joined. by rewrite !length_fmap. }
  rewrite app_nil_l, !drop_0 in Hl, Hr, Hlv. rewrite Hn in *. cbv zeta.
  change (merge_hump _ _ (carry empty_buffers) _ _ _ (all_lefts_empty empty_buffers) (all_rights_empty empty_buffers))
    with H' in Hl, Hr, Hlv.
  rewrite Hl, Hr, Hlv, Htrim, flatten_hump_spec.
  destruct (compute_offsets (hump_levels H')) as [lo ro] eqn:Ho'.
  eexists. split; [done|]. by split_and!.
Qed.

(** Merging chunks into the start of a file. *)
Lemma merge_into_start t Ht V chunks e :
    rep t Ht -> LeftRep (joined Ht) V -> at_start t = true -> at_end t = false ->
    exists t' H', merge_into_impl t (from_chunks false chunks e) = Ok t' /\ rep t' H' /\
      at_start t' = true /\ at_end t' = e /\
      if e then ClosedHump H' (V ++ chunks) else LeftRep (joined H') (V ++ chunks).
Proof.
  intros Hr HL Hs He. destruct (from_chunks_rep false chunks e) as (Hro & Hso & Heo).
  pose proof (merge_into_impl_rep t _ Ht _ Hr Hro He Hso) as Hm. cbv zeta in Hm. rewrite Hs, Heo in Hm.
  pose proof (chunks_hump_right chunks e) as HR.
  set (H' := merge_hump _ _ _ _ _ _ _ _) in Hm.
  assert (HH : if e then ClosedHump H' (V ++ chunks) else LeftRep (joined H') (V ++ chunks)).
  { destruct e; [by apply (merge_hump_closed _ _ V [])|by apply (merge_hump_left _ _ V [])]. }
  destruct Hm as (t' & ? & ? & ? & ?).
  - destruct e; [by eapply ClosedHump_trim|by eapply LeftRep_trim].
  - exists t', H'. by split_and!.
Qed.

Lemma closed_hump_nodes k r : hump_nodes (replicate k ([], []) ++ [([r], [])]) = [r].
Proof.
  induction k as [|k IH]; [done|]. rewrite <- IH at 2. unfold hump_nodes. cbn [replicate app fmap list_fmap fst snd rev concat].
  rewrite concat_app. cbn. by rewrite app_nil_r.
Qed.

Lemma final_hash_closed t H V :
    rep t H -> ClosedHump H V -> at_start t = true -> at_end t = true ->
    final_hash t = Some (Some (aggregated_node_hash V)).
Proof.
  intros Hr HC Hs He. unfold final_hash. rewrite Hs, He. cbn [negb orb].
  pose proof Hr as (Hn & Hl & _). destruct HC as [(-> & Hj & Hlen)|(k & r & -> & Hroot)].
  - destruct H as [|[l r] [|]]; simpl in Hlen; [by rewrite Hn| |lia].
    simpl in Hj. rewrite app_nil_r in Hj. apply app_eq_nil in Hj as [-> ->]. by rewrite Hn.
  - rewrite Hn, closed_hump_nodes.
    rewrite Hl. unfold hump_levels. rewrite length_fmap, length_app, length_replicate. cbn [length].
    replace (k + 1 - 1) with k by lia.
    destruct (rep_lookup t _ k [r] [] Hr) as [-> _].
    { rewrite lookup_app_r; rewrite length_replicate; [|done]. by rewrite Nat.sub_diag. }
    cbn. by rewrite (aggregated_node_hash_root _ _ Hroot).
Qed.

(** ** Merging the ranges of a file from left to right *)

(** The subtrees of consecutive ranges of a file: the first one starts it, the last one ends it. *)
Fixpoint later_ranges (parts : list (list Node)) : list MerkleHashSubtree :=
    match parts with
    | [] => []
    | [p] => [from_chunks false p true]
    | p :: ps => from_chunks false p false :: later_ranges ps
    end.

Definition file_ranges (parts : list (list Node)) : list MerkleHashSubtree :=
    match parts with
    | [] => []
    | [p] => [from_chunks true p true]
    | p :: ps => from_chunks true p false :: later_ranges ps
    end.

Lemma from_chunks_final chunks :
    final_hash (from_chunks true chunks true) = Some (Some (aggregated_node_hash chunks)).
Proof.
  destruct (from_chunks_rep true chunks true) as (Hr & Hs & He).
  eapply final_hash_closed; [done| |done|done].
  destruct chunks as [|x chunks]; [left; split_and!; [done|done|simpl; lia]|]. apply carry_hump_closed. lia.
Qed.

Lemma merge_loop_correct p ps t Ht V :
    rep t Ht -> LeftRep (joined Ht) V -> at_start t = true -> at_end t = false ->
    exists t', merge_loop t (later_ranges (p :: ps)) = Ok t' /\
      final_hash t' = Some (Some (aggregated_node_hash (V ++ concat (p :: ps)))).
Proof.
  revert p t Ht V. induction ps as [|p' ps IH]; intros p t Ht V Hr HL Hs He.
  - destruct (merge_into_start t Ht V p true Hr HL Hs He) as (t' & H' & Hm & Hr' & Hs' & He' & HC).
    exists t'. cbn [later_ranges merge_loop]. rewrite Hm. split; [done|].
    cbn [concat]. rewrite app_nil_r. by eapply final_hash_closed.
  - destruct (merge_into_start t Ht V p false Hr HL Hs He) as (t' & H' & Hm & Hr' & Hs' & He' & HC).
    destruct (IH p' t' H' (V ++ p) Hr' HC Hs' He') as (t'' & Hm' & Hf). exists t''.
    split; [|by rewrite <- app_assoc in Hf].
    change (later_ranges (p :: p' :: ps)) with (from_chunks false p false :: later_ranges (p' :: ps)).
    cbn [merge_loop]. by rewrite Hm.
Qed.

Lemma file_ranges_merge parts :
    exists t, merge (file_ranges parts) = Ok t /\
      final_hash t = Some (Some (aggregated_node_hash (concat parts))).
Proof.
  destruct parts as [|p [|p' ps]].
  - exists (from_chunks true [] true). split; [done|]. apply from_chunks_final.
  - exists (from_chunks true p true). split; [done|]. cbn [concat]. rewrite app_nil_r. apply from_chunks_final.
  - destruct (from_chunks_rep true p false) as (Hr & Hs & He).
    destruct (merge_loop_correct p' ps _ _ p Hr (chunks_hump_left p) Hs He) as (t & Hm & Hf).
    exists t. split; [|done]. rewrite <- Hm. unfold merge, file_ranges. by destruct ps.
Qed.

(** C7: merging the ranges of a file gives the hash of the whole file.  However the chunks of a
    file are cut into consecutive ranges, the subtrees of the ranges merge without an error, and
    the final hash of the result is the aggregated hash of all the chunks. *)
Theorem merge_file_ranges parts :
    exists t, merge (file_ranges parts) = Ok t /\
      final_hash t = Some (Some (aggregated_node_hash (concat parts))).
Proof. apply file_ranges_merge. Qed.

Lemma merge_into_serialize t other t' : merge_into_impl t other = Ok t' -> deserialize (serialize t') = t'.
Proof.
  unfold merge_into_impl. destruct (at_end t); [done|]. destruct (at_start other); [done|]. cbn zeta.
  set (ls := trim_levels _). destruct (compute_offsets ls) as [lo ro] eqn:E. intros [= <-].
  unfold deserialize, serialize. cbn [nodes levels at_start at_end]. by rewrite E.
Qed.

Lemma from_chunks_serialize s chunks e : deserialize (serialize (from_chunks s chunks e)) = from_chunks s chunks e.
Proof.
  unfold from_chunks. destruct (build_hump chunks s e) as [ns ls]. destruct (compute_offsets ls) as [lo ro] eqn:E.
  unfold deserialize, serialize. cbn [nodes levels at_start at_end]. by rewrite E.
Qed.

(** Every value the constructors make. *)
Inductive Made : MerkleHashSubtree -> Prop :=
  | Made_from_chunks s chunks e : Made (from_chunks s chunks e)
  | Made_merge t other t' : Made t -> Made other -> merge_into t other = Ok t' -> Made t'
  | Made_deserialize raw : Made (deserialize raw).

(** A subtree, however it was made, is the same after it is written and read back: the
    offsets that are not written are a function of the levels, whatever operations made it. *)
Theorem subtree_serialize_roundtrip t : Made t -> deserialize (serialize t) = t.
Proof.
  induction 1 as [s chunks e|t other t' _ _ _ _ H|[[[ns ls] s] e]]; [apply from_chunks_serialize|by eapply merge_into_serialize|].
  unfold deserialize, serialize. destruct (compute_offsets ls) as [lo ro] eqn:E. cbn [nodes levels at_start at_end]. by rewrite E.
Qed.

(** A merge fails exactly when the left range ends the file or the right range starts it; in
    every other case it succeeds, whatever the two subtrees hold. *)
Theorem merge_into_errors t other :
    (exists e, merge_into t other = Err e) <-> at_end t = true \/ at_start other = true.
Proof.
  unfold merge_into, merge_into_impl. destruct (at_end t), (at_start other); split; eauto.
  - destruct (compute_offsets _). by intros [? [=]].
  - by intros [|].
Qed.

End Representations.

(** ** Merging in another order

    The merge is not associative: a range that was merged with its right
    neighbour before the start of the file is known can keep, as one prefix, nodes
    of both sides of an already promoted region.  In [out_of_order] the ranges
    [x a b c] of a 17-chunk file are merged as [(x (a b)) c]. *)
Module OutOfOrder.

#[local] Existing Instance toy_blake3.

(** A chunk whose hash is, or is not, a natural cut. *)
Definition chunk (cut : bool) (k : Z) : Node := (mkDataHash k 0 0 (if cut then 4 else 1)%Z, 1%Z).

Definition x_chunks : list Node := [chunk false 1].
Definition a_chunks : list Node :=
    [chunk true 2; chunk false 3; chunk false 4; chunk true 5; chunk false 6; chunk false 7; chunk true 8;
     chunk false 9; chunk false 10; chunk true 11; chunk false 12; chunk false 13; chunk true 14].
Definition b_chunks : list Node := [chunk false 15; chunk false 16; chunk true 17].

Definition out_of_order : result CoreError (option (option DataHash)) :=
    ab ← merge_into (from_chunks false a_chunks false) (from_chunks false b_chunks false);
    xab ← merge_into (from_chunks true x_chunks false) ab;
    t ← merge_into xab (from_chunks false [] true);
    Ok (final_hash t).

Definition differs (r : result CoreError (option (option DataHash))) : bool :=
    match r with
    | Ok (Some (Some h)) => negb (bool_decide (h = aggregated_node_hash (x_chunks ++ a_chunks ++ b_chunks)))
    | _ => false
    end.

(** The merge of ranges is not associative: merging four consecutive ranges of a file in
    another order than from left to right succeeds with a final hash that is not the hash of the
    file. *)
Theorem merge_order_matters : differs out_of_order = true.
Proof. vm_compute. reflexivity. Qed.

Lemma subtree_serialize_roundtrip_witness :
    deserialize (serialize (from_chunks false a_chunks false)) = from_chunks false a_chunks false.
Proof. apply (subtree_serialize_roundtrip (from_chunks false a_chunks false)). apply Made_from_chunks. Defined.

Lemma merge_file_ranges_witness :
    exists t, merge (file_ranges [x_chunks; a_chunks; b_chunks]) = Ok t /\
      final_hash t = Some (Some (aggregated_node_hash (x_chunks ++ a_chunks ++ b_chunks))).
Proof. exact (merge_file_ranges [x_chunks; a_chunks; b_chunks]). Defined.

End OutOfOrder.
