(* ===== verification/Chunking.v ===== *)
(** * Content-defined chunking

    Model of [xet_data/src/deduplication/chunking.rs], of the chunk type
    ([xet_core_structures/src/xorb_object/chunk.rs]) and of the stable boundary
    search ([xet_core_structures/src/xorb_object/constants.rs]).

    The rolling hash is the third-party crate [gearhash]: the class [GearHasher]
    holds the operations the chunker calls, with the documented behaviour the
    code relies on as laws.  Sizes are [nat]: every one of them is at most
    [maximum_chunk < 2^33] or the length of a slice. *)

From coqutil Require Import Byte.
From stdpp Require Import base numbers list.
From S2P Require Import Prelude DataHash.

(** ** Constants *)

(** [test_configurable_constants!]: the values are fixed per process.  The bounds hold of the
    defaults: the division does not panic and the product fits a [usize]. *)
Class ChunkConstants := {
  TARGET_CHUNK_SIZE : Z;
  MINIMUM_CHUNK_DIVISOR : Z;
  MAXIMUM_CHUNK_MULTIPLIER : Z;
  MINIMUM_CHUNK_DIVISOR_pos : (0 < MINIMUM_CHUNK_DIVISOR)%Z;
  MAXIMUM_CHUNK_MULTIPLIER_bounds : (0 <= MAXIMUM_CHUNK_MULTIPLIER < 2 ^ 32)%Z;
}.

#[refine] Instance default_constants : ChunkConstants :=
  {| TARGET_CHUNK_SIZE := 64 * 1024; MINIMUM_CHUNK_DIVISOR := 8; MAXIMUM_CHUNK_MULTIPLIER := 2 |}.
Proof. all: lia. Defined.

(** ** The rolling hash *)

(** What is used of [gearhash::Hasher], whose state is a [u64]:
    - [gear_step h b], the state after one more byte;
    - [next_match h buf mask], the length of the shortest nonempty prefix of [buf]
      after which the hash has no bit of [mask], with the state there, or [None]
      with the state after all of [buf];
    - the state depends on the last 64 bytes only, as each byte is shifted out of
      the 64-bit state after 64 steps. *)
Class GearHasher := {
  gear_step : Z -> byte -> Z;
  next_match : Z -> list byte -> Z -> option nat * Z;
  next_match_nil : forall h mask, next_match h [] mask = (None, h);
  next_match_cons : forall h b buf mask,
    next_match h (b :: buf) mask =
    let h' := gear_step h b in
    if (Z.land h' mask =? 0)%Z then (Some 1, h')
    else let '(r, h'') := next_match h' buf mask in (S <$> r, h'');
  gear_window : forall buf h h', length buf = 64 -> fold_left gear_step buf h = fold_left gear_step buf h';
}.

(** ** Chunks *)

Record Chunk := mkChunk { chunk_hash : DataHash; chunk_data : list byte }.

Definition Chunk_new `{Blake3} (data : list byte) : Chunk := mkChunk (compute_data_hash data) data.

(** ** The chunker *)

Record Chunker := mkChunker {
  hash : Z;
  minimum_chunk : nat;
  maximum_chunk : nat;
  mask : Z;
  chunkbuf : list byte;
}.

(** [u64::leading_zeros] *)
Definition leading_zeros (z : Z) : Z := if (z <=? 0)%Z then 64 else 63 - Z.log2 z.

Section Chunker.
  Context `{B3 : Blake3} `{CC : ChunkConstants} `{GH : GearHasher}.

(** [Chunker::new]; [None] when an assertion fails. *)
Definition Chunker_new (target_chunk_size : Z) : option Chunker :=
    if negb (count_ones target_chunk_size =? 1) then None
    else if negb (64 <? target_chunk_size)%Z then None
    else if negb (target_chunk_size <? 2 ^ 32 - 1)%Z then None
    else
      let mask := (target_chunk_size - 1)%Z in
      let mask := wrap64 (Z.shiftl mask (leading_zeros mask)) in
      let minimum_chunk := (target_chunk_size / MINIMUM_CHUNK_DIVISOR)%Z in
      let maximum_chunk := (target_chunk_size * MAXIMUM_CHUNK_MULTIPLIER)%Z in
      if negb (minimum_chunk <? maximum_chunk)%Z then None
      else Some (mkChunker 0 (Z.to_nat minimum_chunk) (Z.to_nat maximum_chunk) mask []).

Definition Chunker_new_with_min (target_chunk_size : Z) (min_chunk_size : nat) : option Chunker :=
    c ← Chunker_new target_chunk_size;
    Some (mkChunker (hash c) min_chunk_size (maximum_chunk c) (mask c) (chunkbuf c)).

Definition HASH_WINDOW_SIZE : nat := 64.

(** The [loop] of [next_boundary]: the position reached, whether a chunk ends there, the hash state. *)
Fixpoint boundary_loop (fuel : nat) (c : Chunker) (data : list byte) (read_end previous_len : nat)
    (h : Z) (cur_index : nat) : nat * bool * Z :=
    match fuel with
    | O => (read_end, false, h)
    | S fuel' =>
        match next_match h (data⟦cur_index, read_end⟧) (mask c) with
        | (Some m, h') =>
            let cur_index := cur_index + m in
            if cur_index + previous_len <? minimum_chunk c
            then boundary_loop fuel' c data read_end previous_len h' cur_index
            else (cur_index, true, h')
        | (None, h') => (read_end, false, h')
        end
    end.

Definition set_hash (c : Chunker) (h : Z) : Chunker :=
    mkChunker h (minimum_chunk c) (maximum_chunk c) (mask c) (chunkbuf c).

Definition set_chunkbuf (c : Chunker) (buf : list byte) : Chunker :=
    mkChunker (hash c) (minimum_chunk c) (maximum_chunk c) (mask c) buf.

Definition next_boundary (c : Chunker) (data : list byte) : option nat * Chunker :=
    let n_bytes := length data in
    if n_bytes =? 0 then (None, c)
    else
      let previous_len := length (chunkbuf c) in
      let cur_index :=
        if previous_len + HASH_WINDOW_SIZE <? minimum_chunk c
        then Nat.min (minimum_chunk c - previous_len - HASH_WINDOW_SIZE - 1) n_bytes
        else 0 in
      let read_end := Nat.min n_bytes (cur_index + maximum_chunk c - previous_len) in
      let '(cur_index, create_chunk, h) :=
        boundary_loop (S n_bytes) c data read_end previous_len (hash c) cur_index in
      let '(cur_index, create_chunk) :=
        if maximum_chunk c <=? cur_index + previous_len
        then (maximum_chunk c - previous_len, true)
        else (cur_index, create_chunk) in
      if create_chunk then (Some cur_index, set_hash c 0) else (None, set_hash c h).

Definition reset_state (c : Chunker) : Chunker := set_hash c 0.

Definition next (c : Chunker) (data : list byte) (is_final : bool) : option Chunk * nat * Chunker :=
    let finish_chunk (chunk_data : list byte) (consume : nat) (c : Chunker) :=
      match chunk_data with
      | [] => (None, 0, c)
      | _ => (Some (Chunk_new chunk_data), consume, c)
      end in
    match next_boundary c data with
    | (Some boundary, c) =>
        finish_chunk (chunkbuf c ++ take boundary data) boundary (set_chunkbuf c [])
    | (None, c) =>
        if is_final
        then finish_chunk (chunkbuf c ++ data) (length data) (reset_state (set_chunkbuf c []))
        else (None, length data, set_chunkbuf c (chunkbuf c ++ data))
    end.

(** [loop] of [next_block], on the part of the data from [pos]. *)
Fixpoint next_block_loop (fuel : nat) (c : Chunker) (data : list byte) (is_final : bool)
    (ret : list Chunk) : list Chunk * Chunker :=
    match fuel with
    | O => (ret, c)
    | S fuel' =>
        if length data =? 0 then (ret, if is_final then reset_state c else c)
        else
          let '(maybe_chunk, bytes_consumed, c) := next c data is_final in
          let ret := match maybe_chunk with Some ch => ret ++ [ch] | None => ret end in
          next_block_loop fuel' c (drop bytes_consumed data) is_final ret
    end.

Definition next_block (c : Chunker) (data : list byte) (is_final : bool) : list Chunk * Chunker :=
    next_block_loop (S (length data)) c data is_final [].

(** [while pos < data.len()] of [next_block_bytes], on the part of the data from [pos]. *)
Fixpoint next_block_bytes_loop (fuel : nat) (c : Chunker) (data : list byte) (is_final : bool)
    (ret : list Chunk) : list Chunk * Chunker :=
    match fuel with
    | O => (ret, c)
    | S fuel' =>
        if length data =? 0 then (ret, c)
        else
          match next_boundary c data with
          | (Some chunk_size, c) =>
              next_block_bytes_loop fuel' c (drop chunk_size data) is_final
                (ret ++ [Chunk_new (take chunk_size data)])
          | (None, c) =>
              if is_final then (ret ++ [Chunk_new data], c)
              else (ret, set_chunkbuf c (chunkbuf c ++ data))
          end
    end.

Definition next_block_bytes (c : Chunker) (data : list byte) (is_final : bool) : list Chunk * Chunker :=
    let '(ret, pos, c) :=
      match chunkbuf c with
      | [] => ([], 0, c)
      | _ =>
          let '(maybe_chunk, skip_idx, c) := next c data is_final in
          (match maybe_chunk with Some ch => [ch] | None => [] end, skip_idx, c)
      end in
    let '(ret, c) := next_block_bytes_loop (S (length data)) c (drop pos data) is_final ret in
    (ret, if is_final then reset_state c else c).

Definition finish (c : Chunker) : option Chunk * Chunker :=
    let '(ch, _, c) := next c [] true in (ch, c).

(** ** Stable boundaries *)

Definition is_stable_chunk_size (size : nat) : bool :=
    let minimum_chunk := Z.to_nat (TARGET_CHUNK_SIZE / MINIMUM_CHUNK_DIVISOR) in
    let maximum_chunk := Z.to_nat (TARGET_CHUNK_SIZE * MAXIMUM_CHUNK_MULTIPLIER) in
    (2 * minimum_chunk <=? size) && (size <? maximum_chunk - minimum_chunk).

(** [partition_point(|&x| x < p)] of a sorted list. *)
Fixpoint partition_point (p : nat) (l : list nat) : nat :=
    match l with
    | x :: l' => if x <? p then S (partition_point p l') else 0
    | [] => 0
    end.

(** [for i in i..end], on the boundaries from [i]. *)
Fixpoint next_stable_loop (bs : list nat) : option nat :=
    match bs with
    | b0 :: rest =>
        match rest with
        | b1 :: b2 :: _ =>
            if is_stable_chunk_size (b1 - b0) && is_stable_chunk_size (b2 - b1) then Some b2
            else next_stable_loop rest
        | _ => None
        end
    | [] => None
    end.

Definition next_stable_chunk_boundary (starting_position : nat) (chunk_boundaries : list nat) : option nat :=
    next_stable_loop (drop (partition_point starting_position chunk_boundaries) chunk_boundaries).

(** ** Partitions

    The reader is the list of the bytes of the file; [read_exact] fails when it ends early. *)
(** [for i in 2..chunks.len()], on the sizes from [i]; [cprev] is the size before. *)
Fixpoint partition_search (minimum_chunk maximum_chunk cprev : nat) (sizes : list nat) (offset : nat) : option nat :=
    match sizes with
    | [] => None
    | c :: sizes' =>
        let offset := offset + c in
        if (minimum_chunk <? cprev) && (cprev <? maximum_chunk - minimum_chunk)
           && (minimum_chunk <? c) && (c <? maximum_chunk - minimum_chunk)
        then Some offset
        else partition_search minimum_chunk maximum_chunk c sizes' offset
    end.

(** [while curpos < file_size]; [None] when the code panics. *)
Fixpoint find_partitions_loop (fuel : nat) (reader : list byte) (file_size : nat) (target_chunk_size : Z)
    (minimum_chunk maximum_chunk min_partition_size partition_scan_bytes curpos : nat)
    (partitions : list nat) : option (result io_error (list nat)) :=
    match fuel with
    | O => Some (Ok partitions)
    | S fuel' =>
        if negb (curpos <? file_size) then Some (Ok partitions)
        else
          let curpos := curpos + min_partition_size in
          if (file_size <=? curpos + min_partition_size) || (file_size <=? curpos + partition_scan_bytes)
          then Some (Ok partitions)
          else if length reader <? curpos + partition_scan_bytes then Some (Err UnexpectedEof)
          else
            chunker ← Chunker_new_with_min target_chunk_size 0;
            let continue partitions :=
              find_partitions_loop fuel' reader file_size target_chunk_size minimum_chunk maximum_chunk
                min_partition_size partition_scan_bytes curpos partitions in
            let chunks := (next_block chunker (reader⟦curpos, curpos + partition_scan_bytes⟧) false).1 in
            match (fun ch => length (chunk_data ch)) <$> chunks with
            | [] => continue partitions
            | [_] => None
            | c0 :: c1 :: sizes =>
                match partition_search minimum_chunk maximum_chunk c1 sizes (c0 + c1) with
                | Some offset => continue (partitions ++ [curpos + offset])
                | None => continue partitions
                end
            end
    end.

Definition find_partitions (reader : list byte) (file_size : nat) (target_chunk_size : Z)
    (min_partition_size partition_scan_bytes : nat) : option (result io_error (list nat)) :=
    if negb (0 <? min_partition_size) then None
    else
      let minimum_chunk := Z.to_nat (target_chunk_size / MINIMUM_CHUNK_DIVISOR) in
      let maximum_chunk := Z.to_nat (target_chunk_size * MAXIMUM_CHUNK_MULTIPLIER) in
      if negb (64 <? minimum_chunk) then None
      else if min_partition_size <=? maximum_chunk then Some (Ok [0])
      else find_partitions_loop (S file_size) reader file_size target_chunk_size minimum_chunk maximum_chunk
             min_partition_size partition_scan_bytes 0 [0].

End Chunker.

(** ** Reference definition

    [scan c h pos l]: the end of the current chunk of configuration [c], of which
    [pos] bytes are past and [l] is what follows.  The first [warmup] bytes of a chunk
    are not hashed; a match counts from the minimum size on, and the chunk ends at the
    maximum size. *)
Section Reference.
  Context `{GH : GearHasher}.
  Variable c : Chunker.

Definition warmup : nat := minimum_chunk c - HASH_WINDOW_SIZE - 1.

Definition hash_byte (h : Z) (pos : nat) (b : byte) : Z := if warmup <=? pos then gear_step h b else h.

Definition ends_chunk (h : Z) (pos : nat) : bool :=
    (maximum_chunk c <=? pos) || ((minimum_chunk c <=? pos) && (Z.land h (mask c) =? 0)%Z).

Fixpoint scan (h : Z) (pos : nat) (l : list byte) : option nat :=
    match l with
    | [] => None
    | b :: l' =>
        let h' := hash_byte h pos b in
        if ends_chunk h' (S pos) then Some (S pos) else scan h' (S pos) l'
    end.

(** The hash state after [l]. *)
Fixpoint scan_hash (h : Z) (pos : nat) (l : list byte) : Z :=
    match l with
    | [] => h
    | b :: l' => scan_hash (hash_byte h pos b) (S pos) l'
    end.

Definition first_boundary (s : list byte) : option nat := scan 0 0 s.

(** The chunks of a whole file. *)
Fixpoint cdc_fuel (fuel : nat) (s : list byte) : list (list byte) :=
    match fuel with
    | O => []
    | S fuel' =>
        match s with
        | [] => []
        | _ =>
            match first_boundary s with
            | Some p => take p s :: cdc_fuel fuel' (drop p s)
            | None => [s]
            end
        end
    end.

Definition cdc (s : list byte) : list (list byte) := cdc_fuel (length s) s.

(** The chunks already complete in a prefix of a file, and the bytes after them. *)
Fixpoint cdc_open_fuel (fuel : nat) (s : list byte) : list (list byte) * list byte :=
    match fuel with
    | O => ([], s)
    | S fuel' =>
        match first_boundary s with
        | Some p => let '(cs, r) := cdc_open_fuel fuel' (drop p s) in (take p s :: cs, r)
        | None => ([], s)
        end
    end.

Definition cdc_open (s : list byte) : list (list byte) * list byte := cdc_open_fuel (length s) s.

(** ** Facts on the scan *)

(** The configuration checks of [Chunker::new] that matter here. *)
Definition config_ok : Prop := minimum_chunk c < maximum_chunk c /\ 64 < maximum_chunk c.

Lemma scan_app h pos l t :
    scan h pos (l ++ t) = match scan h pos l with
                          | Some p => Some p
                          | None => scan (scan_hash h pos l) (pos + length l) t
                          end.
Proof.
  revert h pos. induction l as [|b l IH]; intros h pos; cbn [app scan scan_hash length].
  - by rewrite Nat.add_0_r.
  - destruct (ends_chunk _ _); [done|]. rewrite IH. by rewrite Nat.add_succ_comm.
Qed.

Lemma scan_hash_app h pos l t :
    scan_hash h pos (l ++ t) = scan_hash (scan_hash h pos l) (pos + length l) t.
Proof.
  revert h pos. induction l as [|b l IH]; intros h pos; cbn [app scan_hash length].
  - by rewrite Nat.add_0_r.
  - rewrite IH. by rewrite Nat.add_succ_comm.
Qed.

Lemma scan_bounds h pos l p :
    scan h pos l = Some p -> pos < p <= pos + length l /\ minimum_chunk c <= p \/ pos < p <= pos + length l /\ maximum_chunk c <= p.
Proof.
  revert h pos. induction l as [|b l IH]; intros h pos; cbn [scan length]; [done|].
  destruct (ends_chunk (hash_byte h pos b) (S pos)) eqn:He.
  - intros [= <-]. unfold ends_chunk in He. apply orb_true_iff in He as [He|He].
    + apply Nat.leb_le in He. right. lia.
    + apply andb_true_iff in He as [He _]. apply Nat.leb_le in He. left. lia.
  - intros Hs%IH. lia.
Qed.

Lemma scan_le_max h pos l p : pos < maximum_chunk c -> scan h pos l = Some p -> p <= maximum_chunk c.
Proof.
  revert h pos. induction l as [|b l IH]; intros h pos Hp; cbn [scan]; [done|].
  destruct (ends_chunk (hash_byte h pos b) (S pos)) eqn:He; [intros [= <-]; lia|].
  intros Hs. apply orb_false_iff in He as [He _]. apply Nat.leb_gt in He. by eapply IH.
Qed.

Lemma scan_none_lt_max h pos l : pos < maximum_chunk c -> scan h pos l = None -> pos + length l < maximum_chunk c.
Proof.
  revert h pos. induction l as [|b l IH]; intros h pos Hp; cbn [scan length]; [lia|].
  destruct (ends_chunk (hash_byte h pos b) (S pos)) eqn:He; [done|].
  intros Hs. apply orb_false_iff in He as [He _]. apply Nat.leb_gt in He.
  specialize (IH _ _ He Hs). lia.
Qed.

(** Before the minimum size nothing ends; before the warm-up nothing is hashed. *)
Lemma scan_warmup h pos l t :
    config_ok -> pos + length l <= warmup -> scan h pos (l ++ t) = scan h (pos + length l) t.
Proof.
  intros [Hc _]. revert pos. induction l as [|b l IH]; intros pos Hl; cbn [app scan length] in *; [by rewrite Nat.add_0_r|].
  unfold hash_byte. rewrite (proj2 (Nat.leb_gt _ _)) by lia.
  unfold ends_chunk, warmup in *. rewrite !(proj2 (Nat.leb_gt _ _)) by lia. cbn [orb andb].
  rewrite IH by lia. by rewrite Nat.add_succ_comm.
Qed.

Lemma scan_hash_warmup h pos l : pos + length l <= warmup -> scan_hash h pos l = h.
Proof.
  revert pos. induction l as [|b l IH]; intros pos Hl; cbn [scan_hash length] in *; [done|].
  unfold hash_byte. rewrite (proj2 (Nat.leb_gt _ _)) by lia. apply IH. lia.
Qed.

Lemma next_match_bounds h l msk m h' : next_match h l msk = (Some m, h') -> 1 <= m <= length l.
Proof.
  revert h m. induction l as [|b l IH]; intros h m; [by rewrite next_match_nil|].
  rewrite next_match_cons. cbn. destruct (_ =? 0)%Z; [intros [= <- _]; lia|].
  destruct (next_match _ l msk) as [[k|] h2] eqn:Hn; cbn; [|done].
  intros [= <- ->]. apply IH in Hn. lia.
Qed.

(** One call of [next_match], past the warm-up. *)
Lemma scan_next_match h pos l t :
    config_ok -> warmup <= pos -> pos < maximum_chunk c ->
    match next_match h l (mask c) with
    | (Some m, h') =>
        1 <= m <= length l /\
        (pos + m < minimum_chunk c -> scan h pos (l ++ t) = scan h' (pos + m) (drop m l ++ t) /\
                                      scan_hash h pos l = scan_hash h' (pos + m) (drop m l)) /\
        (minimum_chunk c <= pos + m -> scan h pos (l ++ t) = Some (Nat.min (pos + m) (maximum_chunk c)))
    | (None, h') =>
        (pos + length l < maximum_chunk c -> scan h pos (l ++ t) = scan h' (pos + length l) t /\ scan_hash h pos l = h') /\
        (maximum_chunk c <= pos + length l -> scan h pos (l ++ t) = Some (maximum_chunk c))
    end.
Proof.
  intros Hc. revert h pos. induction l as [|b l IH]; intros h pos Hw Hm.
  { rewrite next_match_nil. cbn [length]. rewrite Nat.add_0_r. split; [by split|lia]. }
  rewrite next_match_cons. cbn [app scan scan_hash length].
  assert (hash_byte h pos b = gear_step h b) as -> by (unfold hash_byte; by rewrite (proj2 (Nat.leb_le _ _))).
  set (h1 := gear_step h b). unfold ends_chunk. destruct (Z.eqb_spec (Z.land h1 (mask c)) 0) as [Hz|Hz].
  - split; [lia|]. rewrite Nat.add_1_r. split; intros Hmin.
    + destruct Hc. rewrite !(proj2 (Nat.leb_gt _ _)) by lia. cbn [orb andb drop]. by rewrite drop_0.
    + rewrite (proj2 (Nat.leb_le (minimum_chunk c) _)) by lia. rewrite orb_true_r. f_equal. lia.
  - rewrite andb_false_r, orb_false_r. specialize (IH h1 (S pos) ltac:(lia)).
    destruct (Nat.leb_spec (maximum_chunk c) (S pos)) as [Hmax|Hmax].
    + destruct (next_match h1 l (mask c)) as [[m|] h2] eqn:Hn; cbn.
      * (* the match, if any, is past the maximum *)
        assert (1 <= m <= length l) as Hml.
        { by eapply next_match_bounds. }
        split; [lia|]. destruct Hc. split; [lia|]. intros _. f_equal. lia.
      * split; [lia|]. intros _. f_equal. lia.
    + specialize (IH Hmax). destruct (next_match h1 l (mask c)) as [[m|] h2]; cbn.
      * destruct IH as (? & IH1 & IH2). split; [lia|]. rewrite <- Nat.add_succ_comm in *. by split.
      * rewrite <- Nat.add_succ_comm. done.
Qed.

(** The loop of [next_boundary]. *)
Lemma boundary_loop_spec fuel data read_end prev h cur t :
    config_ok -> warmup <= prev + cur -> prev + cur < maximum_chunk c ->
    cur <= read_end -> read_end <= length data -> read_end - cur < fuel ->
    let '(cur', create, h') := boundary_loop fuel c data read_end prev h cur in
    cur <= cur' <= read_end /\
    if maximum_chunk c <=? cur' + prev
    then scan h (prev + cur) (data⟦cur, read_end⟧ ++ t) = Some (maximum_chunk c)
    else if create then scan h (prev + cur) (data⟦cur, read_end⟧ ++ t) = Some (prev + cur')
    else cur' = read_end /\
         scan h (prev + cur) (data⟦cur, read_end⟧ ++ t) = scan h' (prev + read_end) t /\
         h' = scan_hash h (prev + cur) (data⟦cur, read_end⟧).
Proof.
  intros Hc. revert h cur. induction fuel as [|fuel IH]; intros h cur Hw Hm Hcr Hrd Hf; [lia|].
  cbn [boundary_loop]. pose proof (scan_next_match h (prev + cur) (data⟦cur, read_end⟧) t Hc Hw Hm) as Hn.
  assert (length (data⟦cur, read_end⟧) = read_end - cur) as Hl by (apply slice_length; lia).
  destruct (next_match h (data⟦cur, read_end⟧) (mask c)) as [[m|] h1].
  - destruct Hn as (Hb & Hlt & Hge). destruct (Nat.ltb_spec (cur + m + prev) (minimum_chunk c)) as [Hmin|Hmin].
    + assert (drop m (data⟦cur, read_end⟧) = data⟦cur + m, read_end⟧) as Hd.
      { unfold slice. by rewrite skipn_firstn_comm, drop_drop, <- Nat.sub_add_distr. }
      destruct Hlt as [E1 E2]; [lia|]. rewrite Hd in E1, E2. rewrite E1, E2. destruct Hc.
      replace (prev + cur + m) with (prev + (cur + m)) by lia.
      specialize (IH h1 (cur + m) ltac:(lia) ltac:(lia) ltac:(lia) ltac:(lia) ltac:(lia)).
      destruct (boundary_loop fuel c data read_end prev h1 (cur + m)) as [[cur' create] h']. split; [lia|]. apply IH.
    + split; [lia|]. rewrite Hge by lia.
      destruct (Nat.leb_spec (maximum_chunk c) (cur + m + prev)); f_equal; lia.
  - split; [lia|]. destruct Hn as [Hlt Hge]. rewrite Hl in Hlt, Hge.
    destruct (Nat.leb_spec (maximum_chunk c) (read_end + prev)); [apply Hge; lia|].
    split; [done|]. replace (prev + read_end) with (prev + cur + (read_end - cur)) by lia.
    destruct Hlt as [-> <-]; [lia|]. done.
Qed.

Lemma scan_skip h pos k l :
    config_ok -> k = 0 \/ pos + k <= warmup -> k <= length l ->
    scan h pos l = scan h (pos + k) (drop k l) /\ scan_hash h pos l = scan_hash h (pos + k) (drop k l).
Proof.
  intros Hc Hk Hl. destruct Hk as [->|Hk]; [by rewrite Nat.add_0_r, drop_0|].
  assert (length (take k l) = k) as Ht by (rewrite length_take; lia).
  rewrite <- (take_drop k l) at 1 3. rewrite scan_warmup, scan_hash_app, Ht by (by rewrite ?Ht).
  by rewrite (scan_hash_warmup h pos (take k l)) by lia.
Qed.

(** The boundary search: what it finds is the end of the chunk that starts with the buffered
    bytes, and when it finds none its hash state is the one of the scan. *)
Definition hash_ok : Prop := hash c = scan_hash 0 0 (chunkbuf c) /\ first_boundary (chunkbuf c) = None.

Lemma next_boundary_spec data :
    config_ok -> hash_ok ->
    match next_boundary c data with
    | (Some k, c') =>
        first_boundary (chunkbuf c ++ data) = Some (length (chunkbuf c) + k) /\
        k <= length data /\ c' = set_hash c 0
    | (None, c') =>
        first_boundary (chunkbuf c ++ data) = None /\
        c' = set_hash c (scan_hash 0 0 (chunkbuf c ++ data))
    end.
Proof.
  intros Hc [Hh Hb]. unfold next_boundary.
  assert (length (chunkbuf c) < maximum_chunk c) as Hlen.
  { destruct Hc. apply (scan_none_lt_max 0 0) in Hb; lia. }
  destruct data as [|d0 data0]; [cbn; rewrite app_nil_r, <- Hh; by destruct c|].
  set (data := d0 :: data0). replace (length data =? 0) with false by done.
  set (prev := length (chunkbuf c)) in *.
  set (skip := if prev + HASH_WINDOW_SIZE <? minimum_chunk c then _ else 0).
  assert (skip = Nat.min (warmup - prev) (length data)) as Hskip.
  { unfold skip, warmup. destruct (Nat.ltb_spec (prev + HASH_WINDOW_SIZE) (minimum_chunk c)); lia. }
  clearbody skip. set (read_end := Nat.min _ _).
  assert (Hs : first_boundary (chunkbuf c ++ data) = scan (hash c) (prev + skip) (drop skip data) /\
               scan_hash 0 0 (chunkbuf c ++ data) = scan_hash (hash c) (prev + skip) (drop skip data)).
  { unfold first_boundary in *. rewrite scan_app, Hb, scan_hash_app, <- Hh. cbn [Nat.add]. fold prev.
    apply scan_skip; [done|lia|lia]. }
  destruct Hs as [-> ->]. destruct (Nat.lt_ge_cases (prev + skip) warmup) as [Hw|Hw].
  - assert (skip = length data /\ read_end = length data) as [-> ->] by (unfold read_end; lia).
    cbn [boundary_loop]. rewrite slice_all_cut, drop_all, next_match_nil.
    rewrite (proj2 (Nat.leb_gt _ _)) by (unfold warmup in Hw; destruct Hc; lia). done.
  - assert (prev + skip < maximum_chunk c) as Hm by (unfold warmup in Hw, Hskip; destruct Hc; lia).
    pose proof (boundary_loop_spec (S (length data)) data read_end prev (hash c) skip
                  (drop read_end data) Hc ltac:(lia) Hm ltac:(lia) ltac:(lia) ltac:(lia)) as Hloop.
    rewrite slice_then_drop in Hloop by lia.
    destruct (boundary_loop _ _ _ _ _ _ _) as [[cur create] h'].
    destruct Hloop as [Hcur Hloop]. destruct (Nat.leb_spec (maximum_chunk c) (cur + prev)).
    { rewrite Hloop. split_and!; [f_equal; lia|lia|done]. }
    destruct create; [by split_and!; [|lia|]|].
    destruct Hloop as (-> & Hs & ->). assert (read_end = length data) as Er by lia.
    rewrite Er in *. rewrite drop_all in Hs. rewrite slice_all_cut. split; [by rewrite Hs|done].
Qed.

Lemma first_boundary_bounds s p :
    config_ok -> first_boundary s = Some p -> 0 < p <= length s /\ minimum_chunk c <= p <= maximum_chunk c.
Proof.
  intros [Hc ?] Hp. pose proof (scan_bounds _ _ _ _ Hp). apply scan_le_max in Hp; lia.
Qed.

Lemma first_boundary_app_some s t p : first_boundary s = Some p -> first_boundary (s ++ t) = Some p.
Proof. unfold first_boundary. intros H. by rewrite scan_app, H. Qed.

Lemma first_boundary_extends r t p :
    first_boundary r = None -> first_boundary (r ++ t) = Some p -> length r < p <= length r + length t.
Proof.
  unfold first_boundary. intros Hr. rewrite scan_app, Hr. intros Hp%scan_bounds. lia.
Qed.

(** *** Equations of the reference definitions *)

Lemma cdc_fuel_enough fuel s : config_ok -> length s <= fuel -> cdc_fuel fuel s = cdc s.
Proof.
  intros Hc. unfold cdc. generalize (le_n (length s)). generalize (length s) at 2 4 as n.
  revert fuel s. induction fuel as [|fuel IH]; intros s [|n] Hn Hf; destruct s as [|b s]; cbn [length] in *; try lia; try done.
  cbn [cdc_fuel]. destruct (first_boundary (b :: s)) as [p|] eqn:Hp; [|done].
  apply first_boundary_bounds in Hp as [Hp _]; [|done]. cbn [length] in Hp.
  f_equal. apply IH; rewrite length_drop; cbn [length]; lia.
Qed.

Lemma cdc_nil : cdc [] = [].
Proof. done. Qed.

Lemma cdc_some s p : config_ok -> first_boundary s = Some p -> cdc s = take p s :: cdc (drop p s).
Proof.
  intros Hc Hp. pose proof (first_boundary_bounds _ _ Hc Hp) as [Hb _].
  destruct s as [|b s]; [done|]. unfold cdc at 1. cbn [length cdc_fuel]. rewrite Hp. f_equal.
  apply cdc_fuel_enough; [done|]. rewrite length_drop. cbn [length] in *. lia.
Qed.

Lemma cdc_none s : s <> [] -> first_boundary s = None -> cdc s = [s].
Proof. intros Hs Hp. destruct s as [|b s]; [done|]. unfold cdc. cbn [length cdc_fuel]. by rewrite Hp. Qed.

Lemma cdc_open_fuel_enough fuel s : config_ok -> length s <= fuel -> cdc_open_fuel fuel s = cdc_open s.
Proof.
  intros Hc. unfold cdc_open. generalize (le_n (length s)). generalize (length s) at 2 4 as n.
  revert fuel s. induction fuel as [|fuel IH]; intros s [|n] Hn Hf; destruct s as [|b s]; cbn [length] in *; try lia; try done.
  cbn [cdc_open_fuel]. destruct (first_boundary (b :: s)) as [p|] eqn:Hp; [|done].
  apply first_boundary_bounds in Hp as [Hp _]; [|done]. cbn [length] in Hp.
  rewrite (IH _ n); [done|..]; rewrite length_drop; cbn [length]; lia.
Qed.

Lemma cdc_open_some s p :
    config_ok -> first_boundary s = Some p ->
    cdc_open s = (take p s :: (cdc_open (drop p s)).1, (cdc_open (drop p s)).2).
Proof.
  intros Hc Hp. pose proof (first_boundary_bounds _ _ Hc Hp) as [Hb _].
  destruct s as [|b s]; [done|]. unfold cdc_open at 1. cbn [length cdc_open_fuel]. rewrite Hp.
  rewrite cdc_open_fuel_enough; [by destruct (cdc_open _)|done|]. rewrite length_drop. cbn [length] in *. lia.
Qed.

Lemma cdc_open_none s : first_boundary s = None -> cdc_open s = ([], s).
Proof. intros Hp. destruct s as [|b s]; [done|]. unfold cdc_open. cbn [length cdc_open_fuel]. by rewrite Hp. Qed.

(** Induction along the chunks of a file. *)
Lemma chunks_ind (Hc : config_ok) (P : list byte -> Prop) :
    (forall s, first_boundary s = None -> P s) ->
    (forall s p, first_boundary s = Some p -> P (drop p s) -> P s) ->
    forall s, P s.
Proof.
  intros Hn Hs s. induction s as [s IH] using (induction_ltof1 _ length).
  destruct (first_boundary s) as [p|] eqn:Hp; [|by apply Hn]. apply (Hs s p Hp), IH.
  apply first_boundary_bounds in Hp as [Hb _]; [|done]. unfold ltof. rewrite length_drop. lia.
Qed.

Lemma cdc_open_rest s : config_ok -> first_boundary (cdc_open s).2 = None.
Proof.
  intros Hc. induction s as [s Hp|s p Hp IH] using (chunks_ind Hc); [by rewrite cdc_open_none|by rewrite (cdc_open_some s p)].
Qed.

Lemma cdc_open_app s t :
    config_ok ->
    cdc_open (s ++ t) = ((cdc_open s).1 ++ (cdc_open ((cdc_open s).2 ++ t)).1, (cdc_open ((cdc_open s).2 ++ t)).2).
Proof.
  intros Hc. induction s as [s Hp|s p Hp IH] using (chunks_ind Hc); [rewrite (cdc_open_none s Hp); by destruct (cdc_open _)|].
  pose proof (first_boundary_bounds _ _ Hc Hp) as [Hb _].
  rewrite (cdc_open_some s p Hc Hp), (cdc_open_some (s ++ t) p) by eauto using first_boundary_app_some.
  rewrite drop_app_le, take_app_le, IH by lia. done.
Qed.

(** The chunks of a file are the complete ones of a prefix, then those of what is left. *)
Lemma cdc_app s t : config_ok -> cdc (s ++ t) = (cdc_open s).1 ++ cdc ((cdc_open s).2 ++ t).
Proof.
  intros Hc. induction s as [s Hp|s p Hp IH] using (chunks_ind Hc); [by rewrite (cdc_open_none s Hp)|].
  pose proof (first_boundary_bounds _ _ Hc Hp) as [Hb _].
  rewrite (cdc_open_some s p Hc Hp), (cdc_some (s ++ t) p) by eauto using first_boundary_app_some.
  rewrite drop_app_le, take_app_le, IH by lia. done.
Qed.

Lemma concat_cdc s : config_ok -> concat (cdc s) = s.
Proof.
  intros Hc. induction s as [s Hp|s p Hp IH] using (chunks_ind Hc); [|].
  - destruct s; [done|]. rewrite cdc_none by done. cbn. by rewrite app_nil_r.
  - rewrite (cdc_some s p Hc Hp). cbn [concat]. rewrite IH. apply take_drop.
Qed.

Lemma first_boundary_take s p : config_ok -> first_boundary s = Some p -> first_boundary (take p s) = Some p.
Proof.
  intros Hc Hp. pose proof (first_boundary_bounds _ _ Hc Hp) as [Hb _].
  destruct (first_boundary (take p s)) as [q|] eqn:Hq.
  - apply (first_boundary_app_some _ (drop p s)) in Hq. rewrite take_drop in Hq. congruence.
  - rewrite <- (take_drop p s) in Hp. apply first_boundary_extends in Hp; [|done]. rewrite length_take in Hp. lia.
Qed.

(** The chunks of a file before its last one stay the same whatever comes after them. *)
Lemma cdc_closed s ks ks' t : config_ok -> cdc s = ks ++ ks' -> ks' <> [] -> cdc (concat ks ++ t) = ks ++ cdc t.
Proof.
  intros Hc. revert s. induction ks as [|k ks IH]; intros s Hs Hne; [done|].
  destruct (first_boundary s) as [p|] eqn:Hp.
  - rewrite (cdc_some s p Hc Hp) in Hs. injection Hs as <- Hs. cbn [concat]. rewrite <- app_assoc.
    pose proof (first_boundary_bounds _ _ Hc Hp) as [Hb _].
    assert (length (take p s) = p) as Hl by (rewrite length_take; lia).
    rewrite (cdc_some _ p Hc (first_boundary_app_some _ (concat ks ++ t) _ (first_boundary_take _ _ Hc Hp))).
    rewrite take_app_le, drop_app_ge, Hl, Nat.sub_diag, drop_0, firstn_firstn, Nat.min_id by lia. by rewrite (IH _ Hs).
  - destruct s as [|b s]; [done|]. rewrite cdc_none in Hs by done. injection Hs as <- Hs. symmetry in Hs. by apply app_nil in Hs as [_ ?].
Qed.

(** The last chunks of a file are the chunks of the bytes they hold. *)
Lemma cdc_suffix s ks ks' : config_ok -> cdc s = ks ++ ks' -> cdc (concat ks') = ks'.
Proof.
  intros Hc. revert s. induction ks as [|k ks IH]; intros s Hs; [cbn in Hs; by rewrite <- Hs, concat_cdc|].
  destruct (first_boundary s) as [p|] eqn:Hp.
  - rewrite (cdc_some s p Hc Hp) in Hs. injection Hs as _ Hs. by eapply IH.
  - destruct s as [|b s]; [done|]. rewrite cdc_none in Hs by done. injection Hs as _ Hs. symmetry in Hs. by apply app_nil in Hs as [-> ->].
Qed.

(** The first chunks of a file are the chunks of the bytes they hold. *)
Lemma cdc_prefix s ks ks' : config_ok -> cdc s = ks ++ ks' -> cdc (concat ks) = ks.
Proof.
  intros Hc. revert s. induction ks as [|k ks IH]; intros s Hs; [done|].
  destruct (first_boundary s) as [p|] eqn:Hp.
  - rewrite (cdc_some s p Hc Hp) in Hs. injection Hs as <- Hs. cbn [concat].
    pose proof (first_boundary_bounds _ _ Hc Hp) as [Hb _].
    assert (length (take p s) = p) as Hl by (rewrite length_take; lia).
    rewrite (cdc_some _ p Hc (first_boundary_app_some _ (concat ks) _ (first_boundary_take _ _ Hc Hp))).
    rewrite take_app_le, drop_app_ge, Hl, Nat.sub_diag, drop_0, firstn_firstn, Nat.min_id by lia. by rewrite (IH _ Hs).
  - destruct s as [|b s]; [done|]. rewrite cdc_none in Hs by done. injection Hs as <- Hs.
    symmetry in Hs. apply app_nil in Hs as [-> ->]. cbn [concat]. rewrite app_nil_r. by apply cdc_none.
Qed.

(** Sizes: every chunk but the last has a size between the minimum and the maximum, and the
    last is not empty and not over the maximum. *)
Lemma cdc_sizes s i ch :
    config_ok -> cdc s !! i = Some ch ->
    0 < length ch <= maximum_chunk c /\ (S i < length (cdc s) -> minimum_chunk c <= length ch).
Proof.
  intros Hc. revert i. induction s as [s Hp|s p Hp IH] using (chunks_ind Hc); intros i; [|].
  - destruct s as [|b s]; [done|]. rewrite cdc_none by done. intros Hi. apply list_lookup_singleton_Some in Hi as [-> <-].
    destruct Hc. apply (scan_none_lt_max 0 0) in Hp; [|lia]. cbn [length] in *. lia.
  - rewrite (cdc_some s p Hc Hp). pose proof (first_boundary_bounds _ _ Hc Hp) as [Hb Hm].
    destruct i as [|i]; [intros [= <-]; rewrite length_take; lia|]. cbn [lookup length]. intros Hi.
    destruct (IH i Hi) as [? Hmin]. split; [done|]. intros. apply Hmin. lia.
Qed.
End Reference.

(** ** The chunker computes the reference *)
Section Streaming.
  Context `{B3 : Blake3} `{GH : GearHasher}.
  Variable c : Chunker.
  Hypothesis Hc : config_ok c.

(** The state of a chunker of configuration [c] with the bytes [r] of the current chunk buffered. *)
Definition fed (r : list byte) : Chunker :=
    mkChunker (scan_hash c 0 0 r) (minimum_chunk c) (maximum_chunk c) (mask c) r.

Lemma next_boundary_fed r data :
    first_boundary c r = None ->
    match first_boundary c (r ++ data) with
    | Some p => length r < p <= length r + length data /\ next_boundary (fed r) data = (Some (p - length r), set_hash (fed r) 0)
    | None => next_boundary (fed r) data = (None, set_chunkbuf (fed (r ++ data)) r)
    end.
Proof.
  intros Hr. pose proof (next_boundary_spec (fed r) data Hc (conj eq_refl Hr)) as Hn.
  change (first_boundary (fed r)) with (first_boundary c) in Hn. cbn [chunkbuf fed] in Hn.
  destruct (next_boundary (fed r) data) as [[k|] c'].
  - destruct Hn as (Hp & Hk & ->). rewrite Hp. apply first_boundary_extends in Hp; [|done].
    split; [done|]. repeat f_equal. lia.
  - by destruct Hn as [-> ->].
Qed.

Lemma next_fed r data is_final :
    first_boundary c r = None ->
    next (fed r) data is_final =
    match first_boundary c (r ++ data) with
    | Some p => (Some (Chunk_new (take p (r ++ data))), p - length r, fed [])
    | None =>
        if is_final
        then match r ++ data with
             | [] => (None, 0, fed [])
             | d => (Some (Chunk_new d), length data, fed [])
             end
        else (None, length data, fed (r ++ data))
    end.
Proof.
  intros Hr. unfold next. pose proof (next_boundary_fed r data Hr) as Hn.
  destruct (first_boundary c (r ++ data)) as [p|] eqn:Hp; [destruct Hn as [Hb Hn]|]; rewrite Hn; cbn [chunkbuf fed set_hash set_chunkbuf].
  - rewrite take_app_ge by lia. pose proof (first_boundary_bounds c _ _ Hc Hp) as [Hpos _].
    destruct (r ++ take (p - length r) data) eqn:E; [|done].
    apply (f_equal length) in E. rewrite length_app, length_take in E. cbn in E. lia.
  - destruct is_final; [|done]. by destruct (r ++ data).
Qed.

Lemma drop_past_buffer (r data : list byte) p : length r < p -> drop p (r ++ data) = drop (p - length r) data.
Proof. intros. by rewrite drop_app_ge by lia. Qed.

Lemma first_boundary_nil : first_boundary c [] = None.
Proof. done. Qed.

Lemma next_block_loop_open fuel r data ret :
    first_boundary c r = None -> length data < fuel ->
    next_block_loop fuel (fed r) data false ret =
    (ret ++ (Chunk_new <$> (cdc_open c (r ++ data)).1), fed (cdc_open c (r ++ data)).2).
Proof.
  revert r data ret. induction fuel as [|fuel IH]; intros r data ret Hr Hf; [lia|]. cbn [next_block_loop].
  destruct (Nat.eqb_spec (length data) 0) as [Hd|Hd].
  { apply nil_length_inv in Hd as ->. rewrite app_nil_r, cdc_open_none by done. cbn. by rewrite app_nil_r. }
  rewrite next_fed by done. destruct (first_boundary c (r ++ data)) as [p|] eqn:Hp.
  - pose proof (first_boundary_extends c _ _ _ Hr Hp). rewrite (cdc_open_some c _ p Hc Hp), IH; [|done|rewrite length_drop; lia].
    rewrite app_nil_l, drop_past_buffer by lia. cbn [fst snd fmap list_fmap]. by rewrite <- app_assoc.
  - rewrite drop_all, IH by (done || cbn; lia). by rewrite app_nil_r.
Qed.

Lemma next_block_loop_final fuel r data ret :
    first_boundary c r = None -> length data < fuel -> data <> [] \/ r = [] ->
    next_block_loop fuel (fed r) data true ret = (ret ++ (Chunk_new <$> cdc c (r ++ data)), fed []).
Proof.
  revert r data ret. induction fuel as [|fuel IH]; intros r data ret Hr Hf Hrd; [lia|]. cbn [next_block_loop].
  destruct (Nat.eqb_spec (length data) 0) as [Hd|Hd].
  { apply nil_length_inv in Hd as ->. destruct Hrd as [?| ->]; [done|]. cbn. by rewrite app_nil_r. }
  rewrite next_fed by done. destruct (first_boundary c (r ++ data)) as [p|] eqn:Hp.
  - pose proof (first_boundary_extends c _ _ _ Hr Hp). rewrite (cdc_some c _ p Hc Hp), IH; [|done|rewrite length_drop; lia|by right].
    rewrite app_nil_l, drop_past_buffer by lia. cbn [fmap list_fmap]. by rewrite <- app_assoc.
  - destruct (r ++ data) as [|b s] eqn:E; [by destruct r, data|].
    rewrite drop_all, IH; [|done|cbn; lia|by right]. rewrite (cdc_none c (b :: s)) by done. cbn. by rewrite app_nil_r.
Qed.

Lemma next_block_bytes_loop_open fuel data ret :
    length data < fuel ->
    next_block_bytes_loop fuel (fed []) data false ret =
    (ret ++ (Chunk_new <$> (cdc_open c data).1), fed (cdc_open c data).2).
Proof.
  revert data ret. induction fuel as [|fuel IH]; intros data ret Hf; [lia|]. cbn [next_block_bytes_loop].
  destruct (Nat.eqb_spec (length data) 0) as [Hd|Hd].
  { apply nil_length_inv in Hd as ->. cbn. by rewrite app_nil_r. }
  pose proof (next_boundary_fed [] data first_boundary_nil) as Hn. rewrite app_nil_l in Hn.
  destruct (first_boundary c data) as [p|] eqn:Hp; [destruct Hn as [Hb Hn]|]; rewrite Hn; cbn [length] in *.
  - rewrite Nat.sub_0_r, (cdc_open_some c _ p Hc Hp). change (set_hash (fed []) 0) with (fed []).
    rewrite IH by (rewrite length_drop; lia). cbn [fst snd fmap list_fmap]. by rewrite <- app_assoc.
  - rewrite cdc_open_none by done. cbn. by rewrite app_nil_r.
Qed.

Lemma next_block_bytes_loop_final fuel data ret :
    length data < fuel ->
    exists h, next_block_bytes_loop fuel (fed []) data true ret = (ret ++ (Chunk_new <$> cdc c data), set_hash (fed []) h).
Proof.
  revert data ret. induction fuel as [|fuel IH]; intros data ret Hf; [lia|]. cbn [next_block_bytes_loop].
  destruct (Nat.eqb_spec (length data) 0) as [Hd|Hd].
  { apply nil_length_inv in Hd as ->. exists 0%Z. cbn. by rewrite app_nil_r. }
  pose proof (next_boundary_fed [] data first_boundary_nil) as Hn. rewrite app_nil_l in Hn.
  destruct (first_boundary c data) as [p|] eqn:Hp; [destruct Hn as [Hb Hn]|]; rewrite Hn; cbn [length] in *.
  - rewrite Nat.sub_0_r, (cdc_some c _ p Hc Hp). change (set_hash (fed []) 0) with (fed []).
    destruct (IH (drop p data) (ret ++ [Chunk_new (take p data)])) as [h ->]; [rewrite length_drop; lia|].
    exists h. cbn [fmap list_fmap]. by rewrite <- app_assoc.
  - exists (scan_hash c 0 0 data). rewrite cdc_none by (by destruct data || done). done.
Qed.

Lemma next_block_open r data :
    first_boundary c r = None ->
    next_block (fed r) data false = (Chunk_new <$> (cdc_open c (r ++ data)).1, fed (cdc_open c (r ++ data)).2).
Proof. intros Hr. unfold next_block. rewrite next_block_loop_open by (done || lia). done. Qed.

Lemma next_block_final r data :
    first_boundary c r = None -> data <> [] \/ r = [] ->
    next_block (fed r) data true = (Chunk_new <$> cdc c (r ++ data), fed []).
Proof. intros Hr Hd. unfold next_block. rewrite next_block_loop_final by (done || lia). done. Qed.

Lemma next_block_bytes_open r data :
    first_boundary c r = None ->
    next_block_bytes (fed r) data false = (Chunk_new <$> (cdc_open c (r ++ data)).1, fed (cdc_open c (r ++ data)).2).
Proof.
  intros Hr. unfold next_block_bytes. cbn [chunkbuf fed]. destruct r as [|b r0].
  { rewrite drop_0. by rewrite next_block_bytes_loop_open by lia. }
  set (r := b :: r0) in *. rewrite next_fed by done.
  destruct (first_boundary c (r ++ data)) as [p|] eqn:Hp.
  - pose proof (first_boundary_extends c _ _ _ Hr Hp).
    rewrite (cdc_open_some c _ p Hc Hp), next_block_bytes_loop_open by (rewrite length_drop; lia).
    by rewrite drop_past_buffer by lia.
  - rewrite drop_all, cdc_open_none by done. done.
Qed.

Lemma next_block_bytes_final r data :
    first_boundary c r = None -> next_block_bytes (fed r) data true = (Chunk_new <$> cdc c (r ++ data), fed []).
Proof.
  intros Hr. unfold next_block_bytes. cbn [chunkbuf fed]. destruct r as [|b r0].
  { rewrite drop_0. destruct (next_block_bytes_loop_final (S (length data)) data []) as [h ->]; [lia|done]. }
  set (r := b :: r0) in *. rewrite next_fed by done.
  destruct (first_boundary c (r ++ data)) as [p|] eqn:Hp.
  - pose proof (first_boundary_extends c _ _ _ Hr Hp). rewrite (cdc_some c _ p Hc Hp).
    destruct (next_block_bytes_loop_final (S (length data)) (drop (p - length r) data) [Chunk_new (take p (r ++ data))])
      as [h ->]; [rewrite length_drop; lia|]. by rewrite drop_past_buffer by lia.
  - rewrite (cdc_none c (r ++ data)) by done. cbn [app r]. by rewrite drop_all.
Qed.

Lemma finish_fed r :
    first_boundary c r = None ->
    finish (fed r) = (match r with [] => None | _ => Some (Chunk_new r) end, fed []).
Proof.
  intros Hr. unfold finish. rewrite next_fed by done. rewrite app_nil_r, Hr. by destruct r.
Qed.

(** A caller feeds the data of a file block by block, through either entry point. *)
Definition feed_block (c : Chunker) (op : bool * list byte) : list Chunk * Chunker :=
    if op.1 then next_block_bytes c op.2 false else next_block c op.2 false.

Fixpoint feed_blocks (c : Chunker) (ops : list (bool * list byte)) : list Chunk * Chunker :=
    match ops with
    | [] => ([], c)
    | op :: ops' =>
        let '(cs, c) := feed_block c op in
        let '(cs', c) := feed_blocks c ops' in (cs ++ cs', c)
    end.

Definition file_of (ops : list (bool * list byte)) : list byte := concat (snd <$> ops).

Definition chunk_file (c : Chunker) (ops : list (bool * list byte)) : list Chunk * Chunker :=
    let '(cs, c) := feed_blocks c ops in
    let '(last, c) := finish c in (cs ++ option_list last, c).

Lemma feed_blocks_fed r ops :
    first_boundary c r = None ->
    feed_blocks (fed r) ops =
    (Chunk_new <$> (cdc_open c (r ++ file_of ops)).1, fed (cdc_open c (r ++ file_of ops)).2).
Proof.
  revert r. induction ops as [|[b d] ops IH]; intros r Hr; cbn [feed_blocks].
  { unfold file_of. cbn. rewrite app_nil_r, cdc_open_none by done. done. }
  assert (feed_block (fed r) (b, d) = (Chunk_new <$> (cdc_open c (r ++ d)).1, fed (cdc_open c (r ++ d)).2)) as ->.
  { destruct b; [by apply next_block_bytes_open|by apply next_block_open]. }
  rewrite IH by (by apply cdc_open_rest). change (file_of ((b, d) :: ops)) with (d ++ file_of ops).
  rewrite (app_assoc r), (cdc_open_app c (r ++ d)) by done. cbn [fst snd]. by rewrite fmap_app.
Qed.

Lemma feed_blocks_new ops :
    c = fed [] -> feed_blocks c ops = (Chunk_new <$> (cdc_open c (file_of ops)).1, fed (cdc_open c (file_of ops)).2).
Proof. intros Ec. rewrite Ec at 1. by apply (feed_blocks_fed []). Qed.

Lemma chunk_file_cdc ops : c = fed [] -> chunk_file c ops = (Chunk_new <$> cdc c (file_of ops), c).
Proof.
  intros Ec. unfold chunk_file. rewrite feed_blocks_new by done.
  rewrite finish_fed by (by apply cdc_open_rest). rewrite <- Ec. pose proof (cdc_app c (file_of ops) [] Hc) as E0.
  rewrite !app_nil_r in E0. rewrite E0, fmap_app. repeat f_equal.
  destruct (cdc_open c (file_of ops)).2 eqn:E; [done|]. rewrite cdc_none; [done..|].
  rewrite <- E. by apply cdc_open_rest.
Qed.
End Streaming.

(** ** Properties of the chunker *)
Section Properties.
  Context `{B3 : Blake3} `{CC : ChunkConstants} `{GH : GearHasher}.

Lemma Chunker_new_ok target c : Chunker_new target = Some c -> config_ok c /\ c = fed c [].
Proof.
  unfold Chunker_new. intros H. repeat case_match; try done. injection H as <-. split; [|done].
  rewrite negb_false_iff in *. pose proof MINIMUM_CHUNK_DIVISOR_pos. pose proof MAXIMUM_CHUNK_MULTIPLIER_bounds.
  rewrite ?Z.ltb_lt in *. unfold config_ok. cbn [minimum_chunk maximum_chunk].
  assert (0 <= target / MINIMUM_CHUNK_DIVISOR)%Z by (apply Z.div_pos; lia).
  assert (MAXIMUM_CHUNK_MULTIPLIER <> 0)%Z by (intros E; rewrite E in *; lia).
  assert (target * 1 <= target * MAXIMUM_CHUNK_MULTIPLIER)%Z by (apply Z.mul_le_mono_nonneg_l; lia). lia.
Qed.

(** C1: chunking does not depend on how the data arrives.  However the data of a file is cut into
    blocks, and whichever of [next_block] and [next_block_bytes] takes each of them, the chunks
    returned on the way and by [finish] are those of the reference definition on the whole file,
    and the chunker is back in its initial state. *)
Theorem chunking_independent_of_blocks target c ops :
    Chunker_new target = Some c -> chunk_file c ops = (Chunk_new <$> cdc c (file_of ops), c).
Proof. intros [Hc E]%Chunker_new_ok. by apply chunk_file_cdc. Qed.

(** The chunks of a file cover it exactly and in order, each with the hash of its own data;
    none is empty or over the maximum size, and only the last can be under the minimum. *)
Theorem chunks_partition_file target c ops :
    Chunker_new target = Some c ->
    let chunks := (chunk_file c ops).1 in
    concat (chunk_data <$> chunks) = file_of ops /\
    forall i ch, chunks !! i = Some ch ->
      chunk_hash ch = compute_data_hash (chunk_data ch) /\
      0 < length (chunk_data ch) <= maximum_chunk c /\
      (S i < length chunks -> minimum_chunk c <= length (chunk_data ch)).
Proof.
  intros [Hc E]%Chunker_new_ok. cbn zeta. rewrite chunk_file_cdc by done. cbn [fst].
  rewrite <- list_fmap_compose, length_fmap. change (chunk_data ∘ Chunk_new) with (fun x : list byte => x).
  rewrite list_fmap_id, concat_cdc by done. split; [done|]. intros i ch Hi.
  apply list_lookup_fmap_Some in Hi as (d & -> & Hd). split; [done|]. by apply cdc_sizes.
Qed.

(** With [is_final], both entry points return what the non-final call and [finish] return
    together, except that [next_block] on an empty block leaves the buffered bytes in the
    chunker instead of flushing them. *)
Theorem final_block target c ops data :
    Chunker_new target = Some c ->
    let '(cs, c1) := feed_blocks c ops in
    let '(rest, c2) := next_block_bytes c1 data true in
    cs ++ rest = Chunk_new <$> cdc c (file_of ops ++ data) /\ c2 = c /\
    next_block c1 data true =
      if decide (data = []) then ([], reset_state c1) else (rest, c).
Proof.
  intros [Hc E]%Chunker_new_ok. rewrite feed_blocks_new by done.
  set (r := (cdc_open c (file_of ops)).2).
  assert (first_boundary c r = None) as Hr by (apply (cdc_open_rest c); done).
  rewrite next_block_bytes_final, <- E by done. split_and!; [rewrite (cdc_app c (file_of ops)), fmap_app by done; done|done|].
  case_decide as Hd; [by subst data|]. rewrite next_block_final by auto. by rewrite <- E.
Qed.
End Properties.
