(* ===== verification/ChunkStability.v ===== *)
(** * Stable chunk boundaries

    Why [next_stable_chunk_boundary] ([xet_core_structures/src/xorb_object/constants.rs]) is
    right: past the boundary it returns, the chunks of a file do not depend on the data before
    the position it was asked for.  The proof works on absolute positions in the file: where the
    rolling hash triggers ([trig]) and where the chunk that starts at a position ends ([nxt]). *)

From coqutil Require Import Byte.
From stdpp Require Import base numbers list.
From S2P Require Import Prelude DataHash Chunking.

Section Positions.
  Context `{GH : GearHasher}.
  Variable c : Chunker.
  Hypothesis Hc : config_ok c.

(** The hash of the 64 bytes before position [q] has no bit of the mask. *)
Definition trig (s : list byte) (q : nat) : bool :=
    (Z.land (fold_left gear_step (s⟦q - 64, q⟧) 0%Z) (mask c) =? 0)%Z.

(** ** The scan as a least position *)

Lemma scan_some_least h pos l p :
    scan c h pos l = Some p ->
    exists n, p = pos + n /\ 1 <= n <= length l /\ ends_chunk c (scan_hash c h pos (take n l)) (pos + n) = true /\
    forall m, 1 <= m < n -> ends_chunk c (scan_hash c h pos (take m l)) (pos + m) = false.
Proof.
  revert h pos. induction l as [|b l IH]; intros h pos; cbn [scan]; [done|].
  destruct (ends_chunk c (hash_byte c h pos b) (S pos)) eqn:He.
  - intros [= <-]. exists 1. cbn [length]. rewrite Nat.add_1_r. split_and!; [lia|lia|lia|done|lia].
  - intros (n & -> & Hn & Hend & Hlt)%IH. exists (S n). cbn [length]. split_and!; [lia|lia|lia| |].
    + cbn [take scan_hash]. by rewrite <- Nat.add_succ_comm.
    + intros [|[|m]] Hm; [lia|by rewrite Nat.add_1_r|]. cbn [take scan_hash].
      rewrite <- Nat.add_succ_comm. apply (Hlt (S m)). lia.
Qed.

Lemma scan_none_all h pos l :
    scan c h pos l = None ->
    forall m, 1 <= m <= length l -> ends_chunk c (scan_hash c h pos (take m l)) (pos + m) = false.
Proof.
  revert h pos. induction l as [|b l IH]; intros h pos; cbn [scan length]; [lia|].
  destruct (ends_chunk c (hash_byte c h pos b) (S pos)) eqn:He; [done|].
  intros Hs [|[|m]] Hm; [lia|by rewrite Nat.add_1_r|]. cbn [take scan_hash].
  rewrite <- Nat.add_succ_comm. apply (IH _ _ Hs (S m)). lia.
Qed.

(** ** The hash state from the minimum size on is that of the window *)

Lemma scan_hash_fold h pos l : warmup c <= pos -> scan_hash c h pos l = fold_left gear_step l h.
Proof.
  revert h pos. induction l as [|b l IH]; intros h pos Hp; cbn [scan_hash fold_left]; [done|].
  unfold hash_byte. rewrite (proj2 (Nat.leb_le _ _)) by done. apply IH. lia.
Qed.

Lemma fold_window l h h' :
    64 <= length l -> fold_left gear_step l h = fold_left gear_step (drop (length l - 64) l) h'.
Proof.
  intros Hl. rewrite <- (take_drop (length l - 64) l) at 1. rewrite fold_left_app.
  apply gear_window. rewrite length_drop. lia.
Qed.

Lemma scan_hash_trig s n :
    warmup c + 64 <= n <= length s ->
    (Z.land (scan_hash c 0 0 (take n s)) (mask c) =? 0)%Z = trig s n.
Proof.
  intros Hn. unfold trig, slice.
  rewrite <- (take_drop (warmup c) (take n s)), scan_hash_app.
  rewrite (scan_hash_warmup c 0 0) by (rewrite length_take; lia).
  rewrite scan_hash_fold by (rewrite !length_take; lia). rewrite (fold_window _ 0 0) by (rewrite length_drop, length_take; lia).
  rewrite drop_drop, length_drop, length_take, skipn_firstn_comm.
  replace (warmup c + (n `min` length s - warmup c - 64)) with (n - 64) by lia. done.
Qed.

Lemma ends_chunk_trig s n :
    warmup c + 64 <= Nat.max n (minimum_chunk c) -> 1 <= n <= length s ->
    ends_chunk c (scan_hash c 0 0 (take n s)) n = (maximum_chunk c <=? n) || ((minimum_chunk c <=? n) && trig s n).
Proof.
  intros Hw Hn. unfold ends_chunk. destruct (Nat.leb_spec (minimum_chunk c) n); [|done].
  by rewrite scan_hash_trig by lia.
Qed.

Lemma trig_drop s b q : 64 <= q -> trig (drop b s) q = trig s (b + q).
Proof. intros. unfold trig, slice. rewrite drop_drop.
  replace (b + q - (b + q - 64)) with (q - (q - 64)) by lia. by replace (b + q - 64) with (b + (q - 64)) by lia. Qed.

Lemma trig_prefix p d q : 64 <= q -> trig (p ++ d) (length p + q) = trig d q.
Proof. intros. rewrite <- trig_drop by done. by rewrite drop_app_length. Qed.

Lemma trig_take s n q : q <= n -> trig (take n s) q = trig s q.
Proof.
  intros. unfold trig, slice. rewrite skipn_firstn_comm, firstn_firstn.
  by replace (Nat.min (q - (q - 64)) (n - (q - 64))) with (q - (q - 64)) by lia.
Qed.

(** ** The next boundary *)
  Hypothesis Hwin : HASH_WINDOW_SIZE <= minimum_chunk c.

Lemma window_ok n : warmup c + 64 <= Nat.max n (minimum_chunk c).
Proof. unfold warmup, HASH_WINDOW_SIZE in *. lia. Qed.

(** The end of the chunk that starts at [b] in [s]. *)
Definition nxt (s : list byte) (b : nat) : nat :=
    match first_boundary c (drop b s) with Some p => b + p | None => length s end.

Lemma nxt_spec s b :
    b < length s ->
    b < nxt s b <= length s /\ nxt s b <= b + maximum_chunk c /\
    (forall q, b + minimum_chunk c <= q < nxt s b -> trig s q = false) /\
    (nxt s b = length s \/ b + minimum_chunk c <= nxt s b) /\
    (nxt s b = length s \/ nxt s b = b + maximum_chunk c \/ trig s (nxt s b) = true).
Proof.
  intros Hb. unfold nxt. unfold HASH_WINDOW_SIZE in Hwin.
  assert (length (drop b s) = length s - b) as Hl by apply length_drop.
  destruct (first_boundary c (drop b s)) as [p|] eqn:Hp.
  - pose proof (first_boundary_bounds c _ _ Hc Hp) as Hbd. apply scan_some_least in Hp as (n & -> & Hn & Hend & Hlt).
    cbn [Nat.add] in *. rewrite ends_chunk_trig in Hend by (apply window_ok || lia). split_and!; [lia|lia|lia| |lia|].
    + intros q Hq. specialize (Hlt (q - b) ltac:(lia)). rewrite ends_chunk_trig in Hlt by (apply window_ok || lia).
      apply orb_false_iff in Hlt as [_ Hlt]. rewrite (proj2 (Nat.leb_le _ _)), trig_drop in Hlt by lia.
      by replace (b + (q - b)) with q in Hlt by lia.
    + right. apply orb_true_iff in Hend as [Hend|Hend]; [apply Nat.leb_le in Hend; lia|].
      apply andb_true_iff in Hend as [_ Hend]. rewrite trig_drop in Hend by lia. by right.
  - pose proof Hp as Hm. destruct Hc. apply (scan_none_lt_max c 0 0) in Hm; [|lia].
    split_and!; [lia|lia|lia| |by left|by left].
    intros q Hq. pose proof (scan_none_all _ _ _ Hp (q - b) ltac:(lia)) as He. cbn [Nat.add] in He.
    rewrite ends_chunk_trig in He by (apply window_ok || lia). apply orb_false_iff in He as [_ He].
    rewrite (proj2 (Nat.leb_le _ _)), trig_drop in He by lia. by replace (b + (q - b)) with q in He by lia.
Qed.

(** A position is the next boundary if it is a trigger or the end of the file, in range, and no
    trigger comes before it. *)
Lemma nxt_unique s b y :
    b + minimum_chunk c <= y <= length s -> b < y < b + maximum_chunk c ->
    y = length s \/ trig s y = true ->
    (forall q, b + minimum_chunk c <= q < y -> trig s q = false) ->
    nxt s b = y.
Proof.
  intros Hy Hmax Hend Hno. destruct (nxt_spec s b) as (Hx & Hxm & Hxno & Hxmin & Hxend); [lia|].
  destruct (Nat.lt_trichotomy (nxt s b) y) as [Hlt|[Heq|Hgt]]; [|done|].
  - destruct Hxend as [?|[?|Ht]]; [lia|lia|]. rewrite Hno in Ht by lia. done.
  - destruct Hend as [?|Ht]; [lia|]. rewrite Hxno in Ht by lia. done.
Qed.

(** The first trigger at or after a position, if there is one before [n]. *)
Lemma first_trig s a n :
    a <= n ->
    (exists q, a <= q < n /\ trig s q = true /\ forall q', a <= q' < q -> trig s q' = false) \/
    (forall q, a <= q < n -> trig s q = false).
Proof.
  intros Han. induction n as [|n IH]; [right; lia|].
  destruct (decide (a = S n)) as [->|?]; [right; lia|]. destruct IH as [(q & ? & ?)|IH]; [lia|left; exists q; split; [lia|done]|].
  destruct (trig s n) eqn:E; [left; exists n; split; [lia|done]|]. right. intros q Hq.
  destruct (decide (q = n)) as [->|?]; [done|]. apply IH. lia.
Qed.

(** ** Boundaries of a file *)

Inductive Boundary (s : list byte) : nat -> Prop :=
  | Boundary_start : Boundary s 0
  | Boundary_next b : Boundary s b -> b < length s -> Boundary s (nxt s b).

(** From a boundary on, the chunks are those of the rest of the file. *)
Lemma Boundary_cdc s b :
    Boundary s b -> exists ks, cdc c s = ks ++ cdc c (drop b s) /\ concat ks = take b s /\ b <= length s.
Proof.
  induction 1 as [|b Hb IH Hlt]; [by exists []; split_and!; [rewrite drop_0| |lia]|].
  destruct IH as (ks & Hks & Hcat & _). pose proof (nxt_spec s b Hlt) as [Hx _]. unfold nxt in *.
  destruct (first_boundary c (drop b s)) as [p|] eqn:Hp.
  - exists (ks ++ [take p (drop b s)]). rewrite (cdc_some c _ p Hc Hp), drop_drop in Hks.
    split_and!; [by rewrite <- app_assoc| |lia]. rewrite concat_app, Hcat. cbn. rewrite app_nil_r.
    by rewrite take_take_drop.
  - exists (ks ++ [drop b s]). rewrite drop_all, take_ge, cdc_nil, app_nil_r by lia.
    assert (drop b s <> []) as Hne by (intros E; apply (f_equal length) in E; rewrite length_drop in E; cbn in E; lia).
    rewrite (cdc_none c _ Hne Hp) in Hks. split_and!; [done| |lia]. rewrite concat_app, Hcat. cbn.
    by rewrite app_nil_r, take_drop.
Qed.

(** Some boundary is the last one at or before any position of the file. *)
Lemma last_boundary s m : m < length s -> exists e, Boundary s e /\ e <= m < nxt s e.
Proof.
  intros Hm. enough (forall k e, Boundary s e -> e <= m -> m - e <= k -> exists e, Boundary s e /\ e <= m < nxt s e) as H.
  { apply (H m 0); [constructor|lia..]. }
  induction k as [|k IH]; intros e He Hem Hk.
  - exists e. split; [done|]. destruct (nxt_spec s e) as [? _]; lia.
  - destruct (nxt_spec s e) as [Hx _]; [lia|]. destruct (Nat.lt_ge_cases m (nxt s e)); [by exists e|].
    apply (IH (nxt s e)); [constructor; [done|lia]|lia|lia].
Qed.

(** ** Resynchronisation *)

(** At most a minimum chunk before any trigger, or at it, there is a boundary. *)
Lemma boundary_before_trig s a :
    minimum_chunk c <= a < length s -> trig s a = true ->
    exists x, Boundary s x /\ a - minimum_chunk c < x <= a.
Proof.
  intros Ha T. pose proof Hc as [Hcm _]. unfold HASH_WINDOW_SIZE in Hwin.
  destruct (last_boundary s (a - minimum_chunk c)) as (e & He & Hem); [lia|].
  pose proof (nxt_spec s e ltac:(lia)) as (Hx & _ & Hxno & _ & _).
  exists (nxt s e). split; [constructor; [done|lia]|]. split; [lia|].
  apply Nat.le_ngt. intros Hlt. rewrite Hxno in T by lia. done.
Qed.

(** Two consecutive chunks of sizes in [[2 * min, max - min)] that end at the triggers [a1] and
    [a2] of [d]: whatever is before [d], [a2] is a boundary. *)
Lemma resync p d a1 a2 :
    2 * minimum_chunk c <= a1 -> a1 + 2 * minimum_chunk c <= a2 -> a2 <= length d ->
    a2 - a1 < maximum_chunk c - minimum_chunk c ->
    trig d a1 = true -> a2 = length d \/ trig d a2 = true ->
    (forall q, a1 + minimum_chunk c <= q < a2 -> trig d q = false) ->
    Boundary (p ++ d) (length p + a2).
Proof.
  intros H1 H2 Hd Hmax T1 T2 Hno. pose proof Hc as [Hcm _]. unfold HASH_WINDOW_SIZE in Hwin.
  assert (length (p ++ d) = length p + length d) as Hl by apply length_app.
  destruct (boundary_before_trig (p ++ d) (length p + a1)) as (x & Bx & Hx); [lia|by rewrite trig_prefix by lia|].
  assert (Hend : length p + a2 = length (p ++ d) \/ trig (p ++ d) (length p + a2) = true).
  { rewrite trig_prefix by lia. destruct T2; [left; lia|by right]. }
  assert (Hquiet : forall q, length p + a1 + minimum_chunk c <= q < length p + a2 -> trig (p ++ d) q = false).
  { intros q Hq. replace q with (length p + (q - length p)) by lia. rewrite trig_prefix by lia. apply Hno. lia. }
  destruct (first_trig (p ++ d) (x + minimum_chunk c) (length p + a1 + minimum_chunk c)) as [(y & Hy & Ty & Hyno)|Hyno]; [lia| |].
  - assert (nxt (p ++ d) x = y) as Ey by (apply nxt_unique; [lia|lia|by right|done]).
    assert (nxt (p ++ d) y = length p + a2) as <- by (apply nxt_unique; [lia|lia|done|intros q Hq; apply Hquiet; lia]).
    constructor; [rewrite <- Ey; constructor; [done|lia]|lia].
  - assert (nxt (p ++ d) x = length p + a2) as <-; [|constructor; [done|lia]].
    apply nxt_unique; [lia|lia|done|]. intros q Hq.
    destruct (Nat.lt_ge_cases q (length p + a1 + minimum_chunk c)); [apply Hyno; lia|apply Hquiet; lia].
Qed.

(** After two chunks of stable sizes that are not the last of a file, any other file with the same
    two chunks of bytes has a boundary, whatever is before and after them. *)
Lemma stable_pair_closed a b t p t' :
    cdc c (a ++ b ++ t) = a :: b :: cdc c t -> a <> [] -> b <> [] -> t <> [] ->
    2 * minimum_chunk c <= length a < maximum_chunk c - minimum_chunk c ->
    2 * minimum_chunk c <= length b < maximum_chunk c - minimum_chunk c ->
    cdc c (p ++ a ++ b ++ t') = cdc c (p ++ a ++ b) ++ cdc c t'.
Proof.
  intros Hcdc Ha Hb Ht Sa Sb. set (d := a ++ b ++ t) in *. set (d' := a ++ b ++ t').
  assert (0 < length t) as Hlt by (destruct t; [done|simpl; lia]).
  assert (length d = length a + (length b + length t)) as Hld by (unfold d; rewrite !length_app; lia).
  assert (forall s k ks, cdc c s = k :: ks -> k <> [] -> length k <= length s /\ (ks <> [] -> first_boundary c s = Some (length k)) /\ (drop (length k) s = concat ks)) as Hfirst.
  { intros s k ks Hs Hk. destruct (first_boundary c s) as [q|] eqn:Hq.
    - rewrite (cdc_some c s q Hc Hq) in Hs. pose proof (first_boundary_bounds c _ _ Hc Hq) as [Hqb _]. injection Hs as <- <-.
      rewrite length_take, Nat.min_l by lia. split_and!; [lia|done|by rewrite concat_cdc].
    - destruct s as [|x s]; [done|]. rewrite cdc_none in Hs by done. injection Hs as <- <-. split_and!; [done|done|]. by rewrite drop_all. }
  assert (nxt d 0 = length a) as N1.
  { unfold nxt. rewrite drop_0. destruct (Hfirst _ _ _ Hcdc Ha) as (_ & -> & _); [done|]. done. }
  assert (nxt d (length a) = length a + length b) as N2.
  { unfold nxt. assert (drop (length a) d = b ++ t) as -> by apply drop_app_length.
    assert (cdc c (b ++ t) = b :: cdc c t) as Hbt.
    { pose proof (cdc_suffix c d [a] (b :: cdc c t) Hc Hcdc) as H. cbn [concat] in H. by rewrite concat_cdc in H. }
    destruct (Hfirst _ _ _ Hbt Hb) as (_ & -> & _); [done|]. intros E. pose proof (concat_cdc c t Hc) as Ec. rewrite E in Ec. by destruct t. }
  pose proof (nxt_spec d 0 ltac:(lia)) as (_ & _ & _ & _ & T1). rewrite N1 in T1.
  pose proof (nxt_spec d (length a) ltac:(lia)) as (_ & _ & No & _ & T2). rewrite N2 in T2, No.
  assert (forall q, q <= length a + length b -> trig d' q = trig d q) as Hsame.
  { intros q Hq. rewrite <- (trig_take d' (length a + length b)), <- (trig_take d (length a + length b)) by done. unfold d, d'.
    by rewrite !app_assoc, !take_app_length' by (by rewrite length_app). }
  assert (Boundary (p ++ d') (length p + (length a + length b))) as HB.
  { apply (resync p d' (length a)); [lia|lia|unfold d'; rewrite !length_app; lia|lia| | |].
    - rewrite Hsame by lia. destruct T1 as [?|[?|?]]; [lia|lia|done].
    - right. rewrite Hsame by lia. destruct T2 as [?|[?|?]]; [lia|lia|done].
    - intros q Hq. rewrite Hsame by lia. by apply No. }
  destruct (Boundary_cdc _ _ HB) as (ks & Hks & Hcat & _). unfold d' in *.
  assert (drop (length p + (length a + length b)) (p ++ a ++ b ++ t') = t') as Hdrop.
  { rewrite !app_assoc, drop_app_length'; [done|]. rewrite !length_app. lia. }
  assert (take (length p + (length a + length b)) (p ++ a ++ b ++ t') = p ++ a ++ b) as Htake.
  { rewrite !app_assoc, take_app_length'; [done|]. rewrite !length_app. lia. }
  rewrite Hdrop in Hks. rewrite Htake in Hcat. rewrite Hks, <- Hcat. f_equal. symmetry. by eapply cdc_prefix.
Qed.

(** Two triggers more than a minimum chunk apart, and none between them: the second is a
    boundary of the file. *)
Lemma quiet_boundary s a1 a2 :
    minimum_chunk c <= a1 -> a1 + minimum_chunk c < a2 <= length s -> a2 - a1 < maximum_chunk c - minimum_chunk c ->
    trig s a1 = true -> trig s a2 = true -> (forall q, a1 < q < a2 -> trig s q = false) ->
    Boundary s a2.
Proof.
  intros H1 H2 Hmax T1 T2 Hno. destruct (boundary_before_trig s a1) as (x & Bx & Hx); [lia|done|].
  assert (nxt s x = a2) as <-; [|constructor; [done|lia]].
  apply nxt_unique; [lia|lia|by right|]. intros q Hq. apply Hno. lia.
Qed.

(** ** The list of the boundaries of a file *)

(** The end positions of chunks that start at [b]. *)
Fixpoint chunk_ends (b : nat) (chunks : list (list byte)) : list nat :=
    match chunks with
    | [] => []
    | ch :: chunks' => (b + length ch) :: chunk_ends (b + length ch) chunks'
    end.

Lemma chunk_ends_cdc s b :
    b <= length s -> chunk_ends b (cdc c (drop b s)) =
    if b <? length s then nxt s b :: chunk_ends (nxt s b) (cdc c (drop (nxt s b) s)) else [].
Proof.
  intros Hb. destruct (Nat.ltb_spec b (length s)) as [Hlt|Hge]; [|by rewrite drop_ge by lia].
  unfold nxt. assert (length (drop b s) = length s - b) as Hl by apply length_drop.
  destruct (first_boundary c (drop b s)) as [p|] eqn:Hp.
  - pose proof (first_boundary_bounds c _ _ Hc Hp). rewrite (cdc_some c _ p Hc Hp), drop_drop. cbn [chunk_ends].
    by rewrite length_take, Nat.min_l by lia.
  - rewrite cdc_none; [|by destruct (drop b s); cbn in *; [lia|]|done]. cbn [chunk_ends].
    rewrite Hl, drop_all. replace (b + (length s - b)) with (length s) by lia. done.
Qed.

(** What a search of the boundary list that returns an answer has seen: two chunks of stable
    sizes, one after the other, the first at or after [b]. *)
Definition stable_pair `{ChunkConstants} (s : list byte) (b x : nat) : Prop :=
    exists b0, b <= b0 < length s /\ nxt s b0 < length s /\ x = nxt s (nxt s b0) /\
    is_stable_chunk_size (nxt s b0 - b0) = true /\ is_stable_chunk_size (x - nxt s b0) = true.

Lemma next_stable_loop_some `{CC : ChunkConstants} s b x :
    b <= length s -> next_stable_loop (b :: chunk_ends b (cdc c (drop b s))) = Some x -> stable_pair s b x.
Proof.
  remember (length s - b) as k eqn:Hk. revert b Hk. induction k as [k IH] using lt_wf_ind; intros b Hk Hb.
  rewrite chunk_ends_cdc by done. destruct (Nat.ltb_spec b (length s)) as [Hlt|]; [|done].
  pose proof (nxt_spec s b Hlt) as [Hx _]. specialize (IH (length s - nxt s b) ltac:(lia) _ eq_refl ltac:(lia)).
  rewrite chunk_ends_cdc in IH |- * by lia. destruct (Nat.ltb_spec (nxt s b) (length s)) as [Hlt'|]; [|done].
  cbn [next_stable_loop] in IH |- *. destruct (_ && _) eqn:Hst.
  - intros [= <-]. apply andb_true_iff in Hst as [? ?]. by exists b.
  - intros (b0 & Hb0 & ?)%IH. exists b0. split; [lia|done].
Qed.

Lemma next_stable_chunk_boundary_some `{CC : ChunkConstants} start s b x :
    b <= length s -> next_stable_chunk_boundary start (chunk_ends b (cdc c (drop b s))) = Some x ->
    stable_pair s start x.
Proof.
  unfold next_stable_chunk_boundary. remember (length s - b) as k eqn:Hk. revert b Hk.
  induction k as [k IH] using lt_wf_ind; intros b Hk Hb. rewrite chunk_ends_cdc by done.
  destruct (Nat.ltb_spec b (length s)) as [Hlt|]; [|done]. pose proof (nxt_spec s b Hlt) as [Hx _].
  cbn [partition_point]. destruct (Nat.ltb_spec (nxt s b) start).
  - cbn [drop]. apply (IH (length s - nxt s b)); lia.
  - rewrite drop_0. intros (b0 & Hb0 & ?)%next_stable_loop_some; [|lia]. exists b0. split; [lia|done].
Qed.
End Positions.

(** ** Partitions *)
Section Partitions.
  Context `{B3 : Blake3} `{CC : ChunkConstants} `{GH : GearHasher}.
  Variables (c c0 : Chunker).
  Hypothesis Hc : config_ok c.
  Hypothesis Hmin : 64 < minimum_chunk c.
  (** The configuration of the scan. *)
  Hypothesis Hc0 : c0 = mkChunker 0 0 (maximum_chunk c) (mask c) [].

Lemma config0 : config_ok c0.
Proof. rewrite Hc0. unfold config_ok in *. cbn. lia. Qed.

Lemma config0_max : maximum_chunk c0 = maximum_chunk c.
Proof. by rewrite Hc0. Qed.

Lemma trig0 s q : trig c0 s q = trig c s q.
Proof. by rewrite Hc0. Qed.

(** A chunk of the scan of at least 64 bytes ends at a trigger, and has no other one past its
    first 63 bytes. *)
Lemma scan_chunk_trig buf q n :
    first_boundary c0 (drop q buf) = Some n -> 64 <= n < maximum_chunk c ->
    q + n <= length buf /\ trig c buf (q + n) = true /\ forall m, 64 <= m < n -> trig c buf (q + m) = false.
Proof.
  intros Hn Hlt. pose proof (first_boundary_bounds c0 _ _ config0 Hn) as [Hb _]. rewrite length_drop in Hb.
  assert (forall k, 64 <= k -> warmup c0 + 64 <= Nat.max k (minimum_chunk c0)) as Hw by (rewrite Hc0; cbn; lia).
  assert (minimum_chunk c0 = 0) as Em by (by rewrite Hc0).
  apply scan_some_least in Hn as (k & -> & Hk & Hend & Hno). cbn [Nat.add] in *.
  split_and!; [lia| |].
  - rewrite ends_chunk_trig, config0_max, Em, trig0, trig_drop in Hend by ((apply Hw; lia) || lia).
    by rewrite (proj2 (Nat.leb_gt _ _)) in Hend by lia.
  - intros m Hm. specialize (Hno m ltac:(lia)).
    rewrite ends_chunk_trig, config0_max, Em, trig0, trig_drop in Hno by ((apply Hw; lia) || lia).
    by rewrite (proj2 (Nat.leb_gt _ _)) in Hno by lia.
Qed.

(** What a successful search has seen: two chunks of the scan with sizes in range. *)
Lemma partition_search_some buf q cprev x :
    first_boundary c0 (drop q buf) = Some cprev ->
    partition_search (minimum_chunk c) (maximum_chunk c) cprev
      (length <$> (cdc_open c0 (drop (q + cprev) buf)).1) (q + cprev) = Some x ->
    exists q n1 n2, first_boundary c0 (drop q buf) = Some n1 /\ first_boundary c0 (drop (q + n1) buf) = Some n2 /\
      x = q + n1 + n2 /\ minimum_chunk c < n1 < maximum_chunk c - minimum_chunk c /\
      minimum_chunk c < n2 < maximum_chunk c - minimum_chunk c.
Proof.
  remember (cdc_open c0 (drop (q + cprev) buf)).1 as cs eqn:Ecs. revert q cprev Ecs.
  induction cs as [|ch cs IH]; intros q cprev Ecs Hq; [done|].
  destruct (first_boundary c0 (drop (q + cprev) buf)) as [n|] eqn:Hn; [|by rewrite cdc_open_none in Ecs by done].
  pose proof (first_boundary_bounds c0 _ _ config0 Hn) as [Hb _].
  rewrite (cdc_open_some c0 _ n config0 Hn), drop_drop in Ecs. injection Ecs as -> Ecs.
  cbn [fmap list_fmap partition_search]. rewrite length_take, Nat.min_l by lia.
  destruct (_ && _) eqn:Hcond; [|by apply IH].
  intros [= <-]. rewrite !andb_true_iff, !Nat.ltb_lt in Hcond. exists q, cprev, n. split_and!; try done; lia.
Qed.

(** No trigger less than a hash window after another one. *)
Definition no_close_triggers (s : list byte) : Prop :=
    forall t t', trig c s t = true -> t < t' < t + HASH_WINDOW_SIZE -> t' <= length s -> trig c s t' = false.

Lemma partition_boundary reader curpos scan q cprev x :
    no_close_triggers reader -> maximum_chunk c <= curpos -> curpos + scan <= length reader ->
    let buf := reader⟦curpos, curpos + scan⟧ in
    first_boundary c0 (drop q buf) = Some cprev ->
    partition_search (minimum_chunk c) (maximum_chunk c) cprev
      (length <$> (cdc_open c0 (drop (q + cprev) buf)).1) (q + cprev) = Some x ->
    Boundary c reader (curpos + x).
Proof.
  intros Hcl Hcur Hlen buf Hq Hx. destruct Hc as [Hmm _].
  apply partition_search_some in Hx as (q' & n1 & n2 & B1 & B2 & -> & R1 & R2); [|done].
  assert (Hbuf : length buf = scan) by (unfold buf; rewrite slice_length; lia).
  apply scan_chunk_trig in B1 as (L1 & T1 & _), B2 as (L2 & T2 & N2); [|lia..].
  assert (forall k, 64 <= k <= scan -> trig c buf k = trig c reader (curpos + k)) as Hat.
  { intros k Hk. unfold buf, slice. rewrite trig_take, trig_drop by lia. done. }
  rewrite Hat in T1, T2 by lia. apply (quiet_boundary c Hc ltac:(unfold HASH_WINDOW_SIZE; lia) reader (curpos + (q' + n1)));
    [lia|lia|lia|done|done|].
  intros k Hk. destruct (Nat.lt_ge_cases k (curpos + (q' + n1) + 64)); [apply (Hcl _ _ T1); unfold HASH_WINDOW_SIZE in *; lia|].
  replace k with (curpos + (q' + n1 + (k - curpos - (q' + n1)))) by lia. rewrite <- Hat by lia. apply N2. lia.
Qed.

Lemma cdc_open_two buf n0 n1 sizes :
    length <$> (cdc_open c0 buf).1 = n0 :: n1 :: sizes ->
    first_boundary c0 (drop n0 buf) = Some n1 /\ sizes = length <$> (cdc_open c0 (drop (n0 + n1) buf)).1.
Proof.
  intros Hs. destruct (first_boundary c0 buf) as [k0|] eqn:B0; [|by rewrite cdc_open_none in Hs].
  pose proof (first_boundary_bounds c0 _ _ config0 B0) as [Hb0 _].
  rewrite (cdc_open_some c0 _ k0 config0 B0) in Hs. cbn [fst fmap list_fmap] in Hs.
  rewrite length_take, Nat.min_l in Hs by lia. injection Hs as -> Hs.
  destruct (first_boundary c0 (drop n0 buf)) as [k1|] eqn:B1; [|by rewrite cdc_open_none in Hs].
  pose proof (first_boundary_bounds c0 _ _ config0 B1) as [Hb1 _].
  rewrite (cdc_open_some c0 _ k1 config0 B1), drop_drop in Hs. cbn [fst fmap list_fmap] in Hs.
  rewrite length_take, Nat.min_l in Hs by lia. by injection Hs as -> <-.
Qed.

Lemma find_partitions_loop_sound fuel reader file_size target mps scan_bytes curpos ps ps' :
    Chunker_new_with_min target 0 = Some c0 -> no_close_triggers reader -> maximum_chunk c < mps ->
    Forall (Boundary c reader) ps ->
    find_partitions_loop fuel reader file_size target (minimum_chunk c) (maximum_chunk c) mps scan_bytes curpos ps
      = Some (Ok ps') ->
    Forall (Boundary c reader) ps'.
Proof.
  intros Hnew Hcl Hmps. revert curpos ps. induction fuel as [|fuel IH]; intros curpos ps Hps; cbn [find_partitions_loop];
    [by intros [= <-]|].
  destruct (negb _); [by intros [= <-]|]. destruct (_ || _); [by intros [= <-]|].
  destruct (Nat.ltb_spec (length reader) (curpos + mps + scan_bytes)) as [|Hlen]; [done|]. rewrite Hnew. cbn [mbind option_bind].
  assert (c0 = fed c0 []) as E0 by (by rewrite Hc0).
  rewrite E0 at 1. rewrite (next_block_open c0 config0 []) by done. cbn [fst app]. rewrite <- list_fmap_compose.
  change ((fun ch => length (chunk_data ch)) ∘ Chunk_new) with (@length byte).
  set (buf := reader⟦curpos + mps, curpos + mps + scan_bytes⟧) in *.
  destruct (length <$> (cdc_open c0 buf).1) as [|n0 [|n1 sizes]] eqn:Hs; [by apply IH|done|].
  apply cdc_open_two in Hs as [B1 ->]. destruct (partition_search _ _ _ _ _) as [x|] eqn:Hx; [|by apply IH].
  apply IH, Forall_app; split; [done|]. apply Forall_singleton.
  eapply (partition_boundary reader (curpos + mps) scan_bytes n0 n1 x); [done|lia|lia|exact B1|exact Hx].
Qed.
End Partitions.

(** ** The properties *)
Section Stable.
  Context `{B3 : Blake3} `{CC : ChunkConstants} `{GH : GearHasher}.

Lemma is_stable_chunk_size_spec c n :
    Chunker_new TARGET_CHUNK_SIZE = Some c -> is_stable_chunk_size n = true ->
    2 * minimum_chunk c <= n < maximum_chunk c - minimum_chunk c.
Proof.
  unfold Chunker_new. intros H. repeat case_match; try done. injection H as <-. cbn [minimum_chunk maximum_chunk].
  unfold is_stable_chunk_size. intros [?%Nat.leb_le ?%Nat.ltb_lt]%andb_true_iff. lia.
Qed.

(** C19: stable boundaries.  Let [x] be the boundary that [next_stable_chunk_boundary] returns for
    the position after [p1] and the chunk boundaries of the file [p1 ++ d].  Whatever data [p2]
    takes the place of [p1], the file [p2 ++ d] has a chunk boundary at the same place of [d],
    and from there on the chunks of both files are the same. *)
Theorem stable_boundary c p1 p2 d x :
    Chunker_new TARGET_CHUNK_SIZE = Some c -> HASH_WINDOW_SIZE <= minimum_chunk c ->
    next_stable_chunk_boundary (length p1) (chunk_ends 0 (cdc c (p1 ++ d))) = Some x ->
    length p1 <= x <= length (p1 ++ d) /\
    exists before1 before2 after,
      cdc c (p1 ++ d) = before1 ++ after /\ cdc c (p2 ++ d) = before2 ++ after /\
      concat before1 = p1 ++ take (x - length p1) d /\ concat before2 = p2 ++ take (x - length p1) d.
Proof.
  intros Hn Hw. pose proof (Chunker_new_ok _ _ Hn) as [Hc _]. intros Hx.
  apply (next_stable_chunk_boundary_some c Hc Hw _ (p1 ++ d) 0) in Hx as (b0 & Hb0 & Hlt1 & Ex & S1 & S2); [|lia].
  apply (is_stable_chunk_size_spec c _ Hn) in S1, S2. set (s := p1 ++ d) in *.
  pose proof (nxt_spec c Hc Hw s b0 ltac:(lia)) as (Hb1 & _ & _ & _ & T1). set (b1 := nxt c s b0) in *.
  pose proof (nxt_spec c Hc Hw s b1 ltac:(lia)) as (Hb2 & _ & No & _ & T2). rewrite <- Ex in *.
  assert (Hl : length s = length p1 + length d) by apply length_app. unfold HASH_WINDOW_SIZE in Hw.
  assert (Hat : forall q, 64 <= q -> trig c s (length p1 + q) = trig c d q) by (intros; by apply trig_prefix).
  assert (forall p, Boundary c (p ++ d) (length p + (x - length p1))) as Hres.
  { intros p. apply (resync c Hc Hw p d (b1 - length p1)); try lia.
    - rewrite <- Hat by lia. replace (length p1 + (b1 - length p1)) with b1 by lia. destruct T1 as [?|[?|?]]; [lia|lia|done].
    - destruct T2 as [?|[?|?]]; [left; lia|lia|right]. rewrite <- Hat by lia. by replace (length p1 + (x - length p1)) with x by lia.
    - intros q Hq. rewrite <- Hat by lia. apply No. lia. }
  split; [lia|]. destruct (Boundary_cdc c Hc Hw _ _ (Hres p1)) as (k1 & E1 & C1 & _).
  destruct (Boundary_cdc c Hc Hw _ _ (Hres p2)) as (k2 & E2 & C2 & _).
  rewrite drop_app_add in E1, E2. rewrite take_app_add in C1, C2. by exists k1, k2, (cdc c (drop (x - length p1) d)).
Qed.

(** Parallel chunking.  When no two triggers of a file are less than a hash window apart,
    [find_partitions] returns positions where the file can be cut: the chunks of the file are the
    chunks of the part before followed by those of the part after. *)
Theorem partitions_sound c reader file_size target mps scan_bytes ps :
    Chunker_new target = Some c -> no_close_triggers c reader ->
    find_partitions reader file_size target mps scan_bytes = Some (Ok ps) ->
    forall p, p ∈ ps -> cdc c reader = cdc c (take p reader) ++ cdc c (drop p reader).
Proof.
  intros Hn Hcl. pose proof (Chunker_new_ok _ _ Hn) as [Hc _].
  enough (find_partitions reader file_size target mps scan_bytes = Some (Ok ps) -> HASH_WINDOW_SIZE <= minimum_chunk c /\ Forall (Boundary c reader) ps) as Hf.
  { intros [Hw Hps]%Hf p Hp. rewrite Forall_forall in Hps. destruct (Boundary_cdc c Hc Hw _ _ (Hps p Hp)) as (ks & E & Ek & _).
    rewrite E at 1. f_equal. rewrite <- Ek. symmetry. by eapply cdc_prefix. }
  assert (minimum_chunk c = Z.to_nat (target / MINIMUM_CHUNK_DIVISOR) /\ maximum_chunk c = Z.to_nat (target * MAXIMUM_CHUNK_MULTIPLIER) /\
    Chunker_new_with_min target 0 = Some (mkChunker 0 0 (maximum_chunk c) (mask c) [])) as (Emin & Emax & Enew).
  { unfold Chunker_new_with_min. rewrite Hn. cbn. unfold Chunker_new in Hn. repeat case_match; try done. by injection Hn as <-. }
  unfold find_partitions. rewrite <- Emin, <- Emax. destruct (negb (0 <? mps)); [done|].
  destruct (Nat.ltb_spec 64 (minimum_chunk c)) as [Hmin|]; [|done]. cbn [negb].
  destruct (Nat.leb_spec mps (maximum_chunk c)).
  - intros [= <-]. split; [unfold HASH_WINDOW_SIZE; lia|]. apply Forall_singleton. constructor.
  - intros Hl. split; [unfold HASH_WINDOW_SIZE; lia|]. eapply (find_partitions_loop_sound c _ Hc Hmin eq_refl); [exact Enew|done| | |exact Hl]; [lia|].
    apply Forall_singleton. constructor.
Qed.
End Stable.

(** ** Concrete chunkers

    A rolling hash of the same shape with a small table: [0x00] ends a chunk at once, [0x02]
    triggers ten bytes later, no other byte triggers. *)
Module Examples.

Definition table (b : byte) : Z :=
  match byte.unsigned b with
  | 0 => 0
  | 2 => 0x8020000000000000
  | _ => 0x8000000000000000
  end%Z.

Definition table_step (h : Z) (b : byte) : Z := Z.land (2 * h + table b) 0xffffffffffffffff.

Lemma table_step_wrap h b : table_step h b = wrap64 (2 * h + table b).
Proof. unfold table_step. change 0xffffffffffffffff%Z with (Z.ones 64). by rewrite Z.land_ones by lia. Qed.

Fixpoint table_next_match (h : Z) (buf : list byte) (mask : Z) : option nat * Z :=
  match buf with
  | [] => (None, h)
  | b :: buf' =>
      let h' := table_step h b in
      if (Z.land h' mask =? 0)%Z then (Some 1, h')
      else let '(r, h'') := table_next_match h' buf' mask in (S <$> r, h'')
  end.

Lemma table_window (buf : list byte) (h h' : Z) :
  ((2 ^ Z.of_nat (length buf) * (h - h')) mod 2 ^ 64 = 0)%Z -> buf <> [] ->
  fold_left table_step buf h = fold_left table_step buf h'.
Proof.
  revert h h'. induction buf as [|b buf IH]; intros h h' Hm Hne; [done|]. cbn [fold_left].
  assert (forall k, (2 ^ Z.of_nat (S k) = 2 * 2 ^ Z.of_nat k)%Z) as Hp by (intros; rewrite Nat2Z.inj_succ, Z.pow_succ_r; lia).
  cbn [length] in Hm. rewrite Hp in Hm. destruct buf as [|b' buf'].
  - cbn [fold_left]. rewrite !table_step_wrap. unfold wrap64. cbn [length] in Hm.
    apply Z.cong_iff_0. rewrite <- Hm. f_equal. change (2 ^ Z.of_nat 0)%Z with 1%Z. lia.
  - apply IH; [|done]. rewrite !table_step_wrap. unfold wrap64. set (n := length (b' :: buf')) in *.
    rewrite <- Zmult_mod_idemp_r, <- Zminus_mod, Zmult_mod_idemp_r. rewrite <- Hm. f_equal. lia.
Qed.

#[refine] Instance table_gear : GearHasher := {| gear_step := table_step; next_match := table_next_match |}.
Proof.
  - done.
  - done.
  - intros buf h h' Hl. apply table_window; [|by intros ->]. rewrite Hl. rewrite Z.mul_comm. apply Z.mod_mul. lia.
Defined.

#[refine] Instance small_constants : ChunkConstants :=
  {| TARGET_CHUNK_SIZE := 128; MINIMUM_CHUNK_DIVISOR := 1; MAXIMUM_CHUNK_MULTIPLIER := 4 |}.
Proof. all: lia. Defined.

#[local] Existing Instance toy_blake3.

Definition small_chunker : Chunker := mkChunker 0 128 512 0xfe00000000000000%Z [].

Definition ones (n : nat) : list byte := repeat (byte_of 1) n.
Definition block (n : nat) : list byte := ones (n - 1) ++ [byte_of 0].

Lemma stable_boundary_witness :
  exists before1 before2 after,
    cdc small_chunker (ones 10 ++ block 300 ++ block 300 ++ block 300 ++ ones 50) = before1 ++ after /\
    cdc small_chunker (block 33 ++ block 300 ++ block 300 ++ block 300 ++ ones 50) = before2 ++ after /\
    length (concat before1) = 910 /\ length (concat before2) = 933.
Proof.
  destruct (stable_boundary small_chunker (ones 10) (block 33) (block 300 ++ block 300 ++ block 300 ++ ones 50) 910)
    as (_ & k1 & k2 & k & E1 & E2 & C1 & C2).
  - vm_compute. reflexivity.
  - apply Nat.leb_le. vm_compute. reflexivity.
  - vm_compute. reflexivity.
  - exists k1, k2, k. rewrite C1, C2. split; [exact E1|split; [exact E2|]]. split; vm_compute; reflexivity.
Defined.

(** A file that arrives in three blocks, taken by either entry point. *)
Definition arriving : list (bool * list byte) := [(true, block 200); (false, ones 700); (true, block 90)].

Lemma chunking_independent_of_blocks_witness :
  chunk_file small_chunker arriving = (Chunk_new <$> cdc small_chunker (block 200 ++ ones 700 ++ block 90), small_chunker).
Proof. apply (chunking_independent_of_blocks 128 small_chunker arriving). vm_compute. reflexivity. Defined.

Lemma chunks_partition_file_witness :
  concat (chunk_data <$> (chunk_file small_chunker arriving).1) = file_of arriving.
Proof. apply (chunks_partition_file 128 small_chunker arriving). vm_compute. reflexivity. Defined.

Lemma final_block_witness :
  let '(cs, c1) := feed_blocks small_chunker arriving in
  let '(rest, c2) := next_block_bytes c1 [] true in
  cs ++ rest = Chunk_new <$> cdc small_chunker (file_of arriving ++ []) /\ c2 = small_chunker /\
  next_block c1 [] true = if decide (@nil byte = []) then ([], reset_state c1) else (rest, small_chunker).
Proof. apply (final_block 128 small_chunker arriving []). vm_compute. reflexivity. Defined.

(** A check of [no_close_triggers]. *)
Definition no_close_triggers_b (c : Chunker) (s : list byte) : bool :=
  forallb (fun t =>
      if trig c s t then forallb (fun t' => negb (trig c s t')) (seq (S t) (Nat.min 63 (length s - t))) else true)
    (seq 0 (S (length s))).

Lemma no_close_triggers_check c s : no_close_triggers_b c s = true -> no_close_triggers c s.
Proof.
  unfold no_close_triggers_b, no_close_triggers, HASH_WINDOW_SIZE. rewrite forallb_forall. intros H t t' T Hlt Hlen.
  specialize (H t). rewrite in_seq, T in H. rewrite forallb_forall in H.
  specialize (H ltac:(lia) t'). rewrite in_seq in H. apply negb_true_iff, H. lia.
Qed.

Definition partition_file : list byte := concat (repeat (block 300) 5).

Lemma partitions_sound_witness :
  cdc small_chunker partition_file =
  cdc small_chunker (take 1200 partition_file) ++ cdc small_chunker (drop 1200 partition_file).
Proof.
  apply (partitions_sound small_chunker partition_file 1500 128 520 900 [0; 1200]).
  - vm_compute. reflexivity.
  - apply no_close_triggers_check. vm_compute. reflexivity.
  - vm_compute. reflexivity.
  - right. left.
Defined.

(** A file with a trigger that the scan cannot see, 9 bytes after the first of the two triggers
    it relies on: its window reaches back over the point where the scan resets the hash. *)
Definition hidden_trigger_file : list byte :=
  block 200 ++ ones 1144 ++ [byte_of 2; byte_of 0] ++ block 130 ++ ones 54.

(** [find_partitions] can return a position that is not a chunk boundary: the scan resets the
    hash at each chunk it finds, so a trigger in the 63 bytes after one is not seen, and the
    chunker that reads the file can take it for a boundary. *)
Theorem partition_not_a_boundary :
  find_partitions hidden_trigger_file 1530 128 520 1000 = Some (Ok [0; 1476]) /\
  length hidden_trigger_file = 1530 /\
  cdc small_chunker hidden_trigger_file <>
  cdc small_chunker (take 1476 hidden_trigger_file) ++ cdc small_chunker (drop 1476 hidden_trigger_file).
Proof.
  split; [vm_compute; reflexivity|]. split; [vm_compute; reflexivity|].
  intros H. apply (f_equal (fun cs => length <$> cs)) in H. vm_compute in H. discriminate H.
Qed.

(** [find_partitions] panics when the scan of a candidate position finds exactly one chunk: it
    reads the size of the second chunk after checking only that there is a first one. *)
Theorem partition_single_chunk_panics :
  find_partitions (ones 550 ++ block 50 ++ ones 500) 1100 128 520 200 = None.
Proof. vm_compute. reflexivity. Qed.

End Examples.
