(* ===== verification/ByteGrouping.v ===== *)
(** * Byte grouping

    Model of [xet_core_structures/src/xorb_object/byte_grouping/bg4.rs]: the
    permutation that moves the bytes of equal position modulo four next to each
    other, and its inverse in the three forms the code has.  A buffer written
    through a pointer is a list updated by index; a [for] loop is a fold over its
    range.  The two [_separate] forms, which only tests and benchmarks use, are left out. *)

From Stdlib Require Import ZifyNat.
From coqutil Require Import Byte.
From stdpp Require Import base numbers list.
From S2P Require Import Prelude.

#[local] Ltac Zify.zify_post_hook ::= Z.to_euclidean_division_equations.

(** ** The code *)

(** [vec![0u8; n]], [*ptr.add(i)] and [*ptr.add(i) = v]. *)
Definition zeroed (n : nat) : list byte := repeat Byte.x00 n.
Definition get (l : list byte) (i : nat) : byte := nth i l Byte.x00.
Definition put (d : list byte) (i : nat) (v : byte) : list byte := <[i := v]> d.

(** [copy_nonoverlapping(src, d.add(i), src.len())] *)
Fixpoint put_all (d : list byte) (i : nat) (src : list byte) : list byte :=
  match src with
  | [] => d
  | v :: src' => put_all (put d i v) (S i) src'
  end.

Definition for_range {S} (n : nat) (body : S -> nat -> S) (s : S) : S := fold_left body (seq 0 n) s.

(** The offsets of the four groups in one buffer of [n] bytes. *)
Definition group1 (n : nat) : nat := n / 4 + Nat.min 1 (n mod 4).
Definition group2 (n : nat) : nat := group1 n + (n / 4 + Nat.min 1 (n mod 4 - 1)).
Definition group3 (n : nat) : nat := group2 n + (n / 4 + Nat.min 1 (n mod 4 - 2)).

Definition bg4_split_together (data : list byte) : list byte :=
  let n := length data in
  let split := n / 4 in
  let rem := n mod 4 in
  let d := zeroed n in
  let d1 := split + Nat.min 1 rem in
  let d2 := d1 + (split + Nat.min 1 (rem - 1)) in
  let d3 := d2 + (split + Nat.min 1 (rem - 2)) in
  let d :=
    for_range split (fun d i =>
      let idx := 4 * i in
      let d := put d i (get data idx) in
      let d := put d (d1 + i) (get data (idx + 1)) in
      let d := put d (d2 + i) (get data (idx + 2)) in
      put d (d3 + i) (get data (idx + 3))) d in
  match rem with
  | 1 => put d split (get data (4 * split))
  | 2 => put (put d split (get data (4 * split))) (d1 + split) (get data (4 * split + 1))
  | 3 => put (put (put d split (get data (4 * split))) (d1 + split) (get data (4 * split + 1)))
             (d2 + split) (get data (4 * split + 2))
  | _ => d
  end.

Definition bg4_split (data : list byte) : list byte := bg4_split_together data.

(** The end of the three regrouping routines: the last [rem] bytes. *)
Definition regroup_rem (g data : list byte) (split rem g1 g2 : nat) : list byte :=
  match rem with
  | 1 => put data (4 * split) (get g split)
  | 2 => put (put data (4 * split) (get g split)) (4 * split + 1) (get g (g1 + split))
  | 3 => put (put (put data (4 * split) (get g split)) (4 * split + 1) (get g (g1 + split)))
             (4 * split + 2) (get g (g2 + split))
  | _ => data
  end.

Definition bg4_regroup_together (g : list byte) : list byte :=
  let n := length g in
  let split := n / 4 in
  let rem := n mod 4 in
  let data := zeroed n in
  let g1 := split + Nat.min 1 rem in
  let g2 := g1 + (split + Nat.min 1 (rem - 1)) in
  let g3 := g2 + (split + Nat.min 1 (rem - 2)) in
  let data :=
    for_range split (fun data i =>
      let data := put data (4 * i) (get g i) in
      let data := put data (4 * i + 1) (get g (g1 + i)) in
      let data := put data (4 * i + 2) (get g (g2 + i)) in
      put data (4 * i + 3) (get g (g3 + i))) data in
  regroup_rem g data split rem g1 g2.

Definition bg4_regroup_together_combined_write_4 (g : list byte) : list byte :=
  let n := length g in
  let split := n / 4 in
  let rem := n mod 4 in
  let data := zeroed n in
  let g1 := split + Nat.min 1 rem in
  let g2 := g1 + (split + Nat.min 1 (rem - 1)) in
  let g3 := g2 + (split + Nat.min 1 (rem - 2)) in
  let data :=
    for_range split (fun data i =>
      let fourbytes := [get g i; get g (g1 + i); get g (g2 + i); get g (g3 + i)] in
      put_all data (4 * i) fourbytes) data in
  regroup_rem g data split rem g1 g2.

Definition bg4_regroup_together_combined_write_8 (g : list byte) : list byte :=
  let n := length g in
  let split := n / 4 in
  let rem := n mod 4 in
  let data := zeroed n in
  let g1 := split + Nat.min 1 rem in
  let g2 := g1 + (split + Nat.min 1 (rem - 1)) in
  let g3 := g2 + (split + Nat.min 1 (rem - 2)) in
  let data :=
    for_range (split / 2) (fun data i =>
      let j := i * 2 in
      let k := j + 1 in
      let eightbytes := [get g j; get g (g1 + j); get g (g2 + j); get g (g3 + j);
                         get g k; get g (g1 + k); get g (g2 + k); get g (g3 + k)] in
      put_all data (8 * i) eightbytes) data in
  let data :=
    if negb (split mod 2 =? 0) then
      let i := split - 1 in
      put_all data (4 * i) [get g i; get g (g1 + i); get g (g2 + i); get g (g3 + i)]
    else data in
  regroup_rem g data split rem g1 g2.

Definition bg4_regroup (g : list byte) : list byte := bg4_regroup_together g.

(** ** Sequences of writes *)

Definition writes (d : list byte) (ps : list (nat * byte)) : list byte :=
  fold_left (fun d p => put d p.1 p.2) ps d.

Lemma length_writes d ps : length (writes d ps) = length d.
Proof. revert d. induction ps as [|p ps IH]; intros d; [done|].
  unfold writes in *. cbn [fold_left]. rewrite IH. apply length_insert. Qed.

Lemma writes_app d ps ps' : writes d (ps ++ ps') = writes (writes d ps) ps'.
Proof. apply fold_left_app. Qed.

Lemma put_all_writes d i src : put_all d i src = writes d (imap (fun k v => (i + k, v)) src).
Proof.
  revert d i. induction src as [|v src IH]; intros d i; [done|]. cbn [put_all imap writes fold_left fst snd].
  rewrite Nat.add_0_r, IH. unfold writes. f_equal. apply imap_ext. intros k x _. cbn. f_equal. lia.
Qed.

(** A loop that writes is one sequence of writes. *)
Lemma for_range_writes n (body : list byte -> nat -> list byte) (ps : nat -> list (nat * byte)) d :
  (forall d i, body d i = writes d (ps i)) -> for_range n body d = writes d (concat (ps <$> seq 0 n)).
Proof.
  intros Hb. unfold for_range. generalize (seq 0 n) as l. intros l. revert d.
  induction l as [|i l IH]; intros d; [done|]. cbn [fold_left fmap list_fmap concat]. by rewrite Hb, IH, writes_app.
Qed.

(** Writes that all agree with [F], and reach every index, leave the table of [F]. *)
Definition table (F : nat -> byte) (n : nat) : list byte := F <$> seq 0 n.

Lemma writes_lookup F ps d j :
  (forall p, p ∈ ps -> p.2 = F p.1) -> j < length d -> j ∈ ps.*1 \/ d !! j = Some (F j) -> writes d ps !! j = Some (F j).
Proof.
  revert d. induction ps as [|[i v] ps IH]; intros d Hp Hj Hin; cbn [writes fold_left fst snd].
  { destruct Hin as [Hin|?]; [by apply elem_of_nil in Hin|done]. }
  assert (v = F i) as -> by (apply (Hp (i, v)); left). apply IH.
  - intros p Hin'. apply Hp. by right.
  - unfold put. by rewrite length_insert.
  - destruct (decide (i = j)) as [->|Hne].
    + right. unfold put. by rewrite list_lookup_insert_eq.
    + destruct Hin as [Hin|Hin].
      * left. cbn [fmap list_fmap fst] in Hin. apply elem_of_cons in Hin as [?|?]; [congruence|done].
      * right. unfold put. by rewrite list_lookup_insert_ne.
Qed.

Lemma writes_table F ps n :
  (forall p, p ∈ ps -> p.2 = F p.1) -> (forall j, j < n -> j ∈ ps.*1) -> writes (zeroed n) ps = table F n.
Proof.
  intros Hp Hall. assert (length (zeroed n) = n) as Hz by apply repeat_length.
  apply list_eq_same_length with n; unfold table; [by rewrite length_fmap, length_seq|by rewrite length_writes|].
  intros j x y Hj. rewrite (writes_lookup F ps) by (auto; lia). rewrite list_lookup_fmap, lookup_seq_lt by done. cbn. congruence.
Qed.

Lemma elem_of_loop (ps : nat -> list (nat * byte)) n p :
  p ∈ concat (ps <$> seq 0 n) <-> exists i, i < n /\ p ∈ ps i.
Proof.
  rewrite list_elem_of_In, in_concat. split.
  - intros (l & Hl & Hp). rewrite <- list_elem_of_In in Hl. apply list_elem_of_fmap in Hl as (i & -> & Hi).
    apply elem_of_seq in Hi. exists i. split; [lia|by apply list_elem_of_In].
  - intros (i & Hi & Hp). exists (ps i). rewrite <- !list_elem_of_In. split; [|done].
    apply list_elem_of_fmap_2. apply elem_of_seq. lia.
Qed.

(** ** What the routines compute *)

(** The place of byte [j] of the data in the grouped buffer, and back. *)
Definition regroup_src (n j : nat) : nat :=
  match j mod 4 with
  | 0 => j / 4
  | 1 => group1 n + j / 4
  | 2 => group2 n + j / 4
  | _ => group3 n + j / 4
  end.

Definition split_src (n p : nat) : nat :=
  if p <? group1 n then 4 * p
  else if p <? group2 n then 4 * (p - group1 n) + 1
  else if p <? group3 n then 4 * (p - group2 n) + 2
  else 4 * (p - group3 n) + 3.

Lemma regroup_src_at n i k :
  k < 4 -> regroup_src n (4 * i + k) = match k with 0 => i | 1 => group1 n + i | 2 => group2 n + i | _ => group3 n + i end.
Proof.
  intros Hk. unfold regroup_src. assert ((4 * i + k) mod 4 = k) as -> by lia. by assert ((4 * i + k) / 4 = i) as -> by lia.
Qed.

(** The positions of the two permutations undo each other. *)
Lemma split_regroup_src n j : j < n -> split_src n (regroup_src n j) = j /\ regroup_src n j < n.
Proof.
  intros Hj. unfold split_src, regroup_src, group3, group2, group1.
  destruct (j mod 4) as [|[|[|k]]] eqn:Hm;
    repeat match goal with |- context [?a <? ?b] => destruct (Nat.ltb_spec a b) end; lia.
Qed.

Lemma regroup_split_src n p : p < n -> regroup_src n (split_src n p) = p /\ split_src n p < n.
Proof.
  intros Hp. unfold split_src.
  repeat match goal with |- context [?a <? ?b] => destruct (Nat.ltb_spec a b) end;
    [replace (4 * p) with (4 * p + 0) by lia| | |]; rewrite regroup_src_at by lia; unfold group3, group2, group1 in *; lia.
Qed.

(** Membership in an explicit list of writes, and the two obligations of [writes_table]. *)
Ltac destruct_writes :=
  repeat match goal with
  | H : _ ∈ _ ++ _ |- _ => apply elem_of_app in H as [H|H]
  | H : _ ∈ concat _ |- _ => apply elem_of_loop in H as (? & ? & H)
  | H : _ ∈ _ :: _ |- _ => apply elem_of_cons in H as [->|H]
  | H : _ ∈ [] |- _ => by apply elem_of_nil in H
  end.

Definition rem_writes (g : list byte) (split rem g1 g2 : nat) : list (nat * byte) :=
  take rem [(4 * split, get g split); (4 * split + 1, get g (g1 + split)); (4 * split + 2, get g (g2 + split))].

Lemma regroup_rem_writes g data split rem g1 g2 :
  rem < 4 -> regroup_rem g data split rem g1 g2 = writes data (rem_writes g split rem g1 g2).
Proof. intros. by destruct rem as [|[|[|[|]]]]; [..|lia]. Qed.

(** The writes of one step of a regrouping loop. *)
Definition step_writes (g : list byte) (i : nat) : list (nat * byte) :=
  let n := length g in
  [(4 * i, get g i); (4 * i + 1, get g (group1 n + i)); (4 * i + 2, get g (group2 n + i)); (4 * i + 3, get g (group3 n + i))].

Definition regroup_table (g : list byte) : list byte := table (fun j => get g (regroup_src (length g) j)) (length g).

Lemma regroup_writes_table g ps :
  (forall p, p ∈ ps <-> exists i, i < length g / 4 /\ p ∈ step_writes g i) ->
  let n := length g in
  writes (zeroed n) (ps ++ rem_writes g (n / 4) (n mod 4) (group1 n) (group2 n)) = regroup_table g.
Proof.
  intros Hps n. apply writes_table.
  - assert (forall i k, k < 4 -> get g (regroup_src n (4 * i + k)) =
      get g (match k with 0 => i | 1 => group1 n + i | 2 => group2 n + i | _ => group3 n + i end)) as Hat
      by (intros; by rewrite regroup_src_at).
    intros p [Hp|Hp]%elem_of_app; [apply Hps in Hp as (i & Hi & Hp)|].
    + unfold step_writes in Hp. destruct_writes; cbn [fst snd]; [replace (4 * i) with (4 * i + 0) by lia| | |]; by rewrite Hat by lia.
    + apply elem_of_take in Hp as (k & Hk & _). pose proof (lookup_lt_Some _ _ _ Hk) as Hlt. cbn [length] in Hlt.
      destruct k as [|[|[|k]]]; [..|lia]; apply (inj Some) in Hk as <-; cbn [fst snd];
        [replace (4 * (n / 4)) with (4 * (n / 4) + 0) by lia| |]; by rewrite Hat by lia.
  - intros j Hj. rewrite fmap_app. apply elem_of_app. destruct (Nat.lt_ge_cases (j / 4) (n / 4)) as [Hlt|Hge].
    + left. apply list_elem_of_fmap. assert (j mod 4 < 4) by lia.
      exists (j, get g (regroup_src n j)). split; [done|]. apply Hps. exists (j / 4). split; [done|].
      replace j with (4 * (j / 4) + j mod 4) at 1 2 by lia. rewrite regroup_src_at by lia. unfold step_writes. fold n.
      destruct (j mod 4) as [|[|[|[|]]]]; [rewrite Nat.add_0_r| | | |lia]; rewrite !elem_of_cons; auto 10.
    + right. assert (j = 4 * (n / 4) + (j - 4 * (n / 4)) /\ j - 4 * (n / 4) < n mod 4 /\ n mod 4 < 4) as (-> & Hk & ?) by lia.
      set (k := j - 4 * (n / 4)) in *. clearbody k. unfold rem_writes.
      destruct (n mod 4) as [|[|[|[|]]]], k as [|[|[|]]]; try lia; cbn [take fmap list_fmap fst]; rewrite ?Nat.add_0_r, !elem_of_cons; auto 10.
Qed.

Lemma bg4_regroup_together_table g : bg4_regroup_together g = regroup_table g.
Proof.
  unfold bg4_regroup_together. cbn zeta. rewrite regroup_rem_writes by lia.
  rewrite (for_range_writes _ _ (step_writes g)) by done. rewrite <- writes_app.
  apply regroup_writes_table. intros p. apply elem_of_loop.
Qed.

Lemma bg4_regroup_write_4_table g : bg4_regroup_together_combined_write_4 g = regroup_table g.
Proof.
  unfold bg4_regroup_together_combined_write_4. cbn zeta. rewrite regroup_rem_writes by lia.
  rewrite (for_range_writes _ _ (step_writes g)); [rewrite <- writes_app; apply regroup_writes_table; intros p; apply elem_of_loop|].
  intros d i. rewrite put_all_writes. cbn [imap]. unfold step_writes. by rewrite Nat.add_0_r.
Qed.

(** Two steps of the narrow loop are one of the wide one. *)
Lemma wide_step_writes g i d :
  put_all d (8 * i)
    (let n := length g in
     [get g (i * 2); get g (group1 n + i * 2); get g (group2 n + i * 2); get g (group3 n + i * 2);
      get g (i * 2 + 1); get g (group1 n + (i * 2 + 1)); get g (group2 n + (i * 2 + 1)); get g (group3 n + (i * 2 + 1))])
  = writes d (step_writes g (i * 2) ++ step_writes g (i * 2 + 1)).
Proof.
  rewrite put_all_writes. cbn [imap compose app]. unfold step_writes, compose. cbn [app]. f_equal. repeat (apply (f_equal2 cons); [f_equal; lia|]). done.
Qed.

Lemma narrow_step_writes g i d :
  put_all d (4 * i)
    (let n := length g in [get g i; get g (group1 n + i); get g (group2 n + i); get g (group3 n + i)])
  = writes d (step_writes g i).
Proof. rewrite put_all_writes. cbn [imap]. unfold step_writes. by rewrite Nat.add_0_r. Qed.

Lemma bg4_regroup_write_8_table g : bg4_regroup_together_combined_write_8 g = regroup_table g.
Proof.
  unfold bg4_regroup_together_combined_write_8. cbn zeta. rewrite regroup_rem_writes by lia.
  set (n := length g). set (split := n / 4).
  assert (Hloop : forall d, for_range (split / 2) _ d =
    writes d (concat ((fun i => step_writes g (i * 2) ++ step_writes g (i * 2 + 1)) <$> seq 0 (split / 2))))
    by (intros; apply for_range_writes; intros; apply wide_step_writes).
  cbn zeta in Hloop. rewrite Hloop. clear Hloop.
  destruct (Nat.eqb_spec (split mod 2) 0) as [He|He]; cbn [negb].
  - rewrite <- writes_app. apply regroup_writes_table. intros p. rewrite elem_of_loop. fold n split. split.
    + intros (i & Hi & [Hp|Hp]%elem_of_app); eexists; (split; [|exact Hp]); lia.
    + intros (i & Hi & Hp). exists (i / 2). split; [lia|]. apply elem_of_app.
      destruct (decide (i mod 2 = 0)); [left|right]; [replace (i / 2 * 2) with i by lia|replace (i / 2 * 2 + 1) with i by lia]; done.
  - pose proof (narrow_step_writes g (split - 1)) as Hn. cbn zeta in Hn. rewrite Hn. clear Hn.
    rewrite <- !writes_app, app_assoc. apply regroup_writes_table. intros p. rewrite elem_of_app, elem_of_loop. fold n split. split.
    + intros [(i & Hi & [Hp|Hp]%elem_of_app)|Hp]; eexists; (split; [|exact Hp]); lia.
    + intros (i & Hi & Hp). destruct (decide (i = split - 1)) as [->|Hne]; [by right|left].
      exists (i / 2). split; [lia|]. apply elem_of_app.
      destruct (decide (i mod 2 = 0)); [left|right]; [replace (i / 2 * 2) with i by lia|replace (i / 2 * 2 + 1) with i by lia]; done.
Qed.

(** ** Splitting *)

Definition split_table (data : list byte) : list byte := table (fun p => get data (split_src (length data) p)) (length data).

Definition split_step_writes (data : list byte) (i : nat) : list (nat * byte) :=
  let n := length data in
  [(i, get data (4 * i)); (group1 n + i, get data (4 * i + 1)); (group2 n + i, get data (4 * i + 2)); (group3 n + i, get data (4 * i + 3))].

Definition split_rem_writes (data : list byte) : list (nat * byte) :=
  let n := length data in
  let split := n / 4 in
  take (n mod 4) [(split, get data (4 * split)); (group1 n + split, get data (4 * split + 1)); (group2 n + split, get data (4 * split + 2))].

(** The code writes byte [j] of the data to its place, for every [j] of the data. *)
Lemma split_writes_spec data p :
  let n := length data in
  p ∈ concat (split_step_writes data <$> seq 0 (n / 4)) ++ split_rem_writes data <->
  exists j, j < n /\ p = (regroup_src n j, get data j).
Proof.
  intros n. rewrite elem_of_app, elem_of_loop. unfold split_step_writes, split_rem_writes. fold n. cbn zeta. split.
  - intros [(i & Hi & Hp)|(k & Hk & Hlt)%elem_of_take].
    + destruct_writes; [exists (4 * i + 0)|exists (4 * i + 1)|exists (4 * i + 2)|exists (4 * i + 3)];
        (split; [lia|]); rewrite regroup_src_at, ?Nat.add_0_r by lia; done.
    + exists (4 * (n / 4) + k). split; [lia|]. rewrite regroup_src_at by lia.
      destruct k as [|[|[|k]]]; [..|lia]; apply (inj Some) in Hk as <-; by rewrite ?Nat.add_0_r.
  - intros (j & Hj & ->). destruct (Nat.lt_ge_cases (j / 4) (n / 4)) as [Hlt|Hge].
    + left. exists (j / 4). split; [done|]. assert (j mod 4 < 4) by lia.
      replace j with (4 * (j / 4) + j mod 4) at 1 2 by lia. rewrite regroup_src_at by lia.
      destruct (j mod 4) as [|[|[|[|]]]]; [rewrite Nat.add_0_r| | | |lia]; rewrite !elem_of_cons; auto 10.
    + right. apply elem_of_take. exists (j - 4 * (n / 4)). split; [|lia].
      assert (j = 4 * (n / 4) + (j - 4 * (n / 4))) as E by lia. rewrite E at 2 3. rewrite regroup_src_at by lia.
      assert (j - 4 * (n / 4) < 3) as Hk by lia. clear E. generalize dependent (j - 4 * (n / 4)). intros k Hk.
      destruct k as [|[|[|]]]; [by rewrite Nat.add_0_r|done|done|lia].
Qed.

Lemma bg4_split_table data : bg4_split data = split_table data.
Proof.
  set (n := length data).
  assert (bg4_split data = writes (zeroed n) (concat (split_step_writes data <$> seq 0 (n / 4)) ++ split_rem_writes data)) as ->.
  { rewrite writes_app. rewrite <- (for_range_writes _ (fun d i => writes d (split_step_writes data i))) by done.
    unfold bg4_split, bg4_split_together, split_rem_writes. fold n. cbn zeta.
    assert (n mod 4 < 4) by lia. destruct (n mod 4) as [|[|[|[|]]]] eqn:Hr; [..|lia]; unfold split_step_writes; fold n;
      unfold group3, group2, group1; by rewrite Hr. }
  apply writes_table.
  - intros p (j & Hj & ->)%split_writes_spec. cbn [fst snd]. by rewrite (proj1 (split_regroup_src (length data) j Hj)).
  - intros p Hp. destruct (regroup_split_src n p Hp) as [E Hlt]. apply list_elem_of_fmap.
    exists (regroup_src n (split_src n p), get data (split_src n p)). split; [by rewrite E|].
    apply split_writes_spec. by exists (split_src n p).
Qed.

Lemma length_table F n : length (table F n) = n.
Proof. unfold table. by rewrite length_fmap, length_seq. Qed.

Lemma get_table F n i : i < n -> get (table F n) i = F i.
Proof.
  intros Hi. unfold get, table. apply nth_lookup_Some. rewrite list_lookup_fmap, lookup_seq_lt by done. done.
Qed.

Lemma table_get l : table (get l) (length l) = l.
Proof.
  apply list_eq_same_length with (length l); [done|apply length_table|]. intros i x y Hi Hx Hy. unfold table in Hx.
  rewrite list_lookup_fmap, lookup_seq_lt in Hx by done. injection Hx as <-. cbn. unfold get. by erewrite nth_lookup_Some.
Qed.

Lemma table_ext F G n : (forall i, i < n -> F i = G i) -> table F n = table G n.
Proof. intros H. unfold table. apply list_fmap_ext. intros i x Hx. apply lookup_seq in Hx as [-> ?]. apply H. lia. Qed.

(** ** Properties *)

Lemma length_bg4_split data : length (bg4_split data) = length data.
Proof. rewrite bg4_split_table. apply length_table. Qed.

Lemma bg4_regroup_split data : bg4_regroup (bg4_split data) = data.
Proof.
  unfold bg4_regroup. rewrite bg4_regroup_together_table. unfold regroup_table. rewrite length_bg4_split, bg4_split_table.
  etransitivity; [|apply table_get]. apply table_ext. intros j Hj.
  destruct (split_regroup_src (length data) j Hj) as [E Hlt]. unfold split_table. by rewrite get_table, E.
Qed.

Lemma bg4_split_regroup data : bg4_split (bg4_regroup data) = data.
Proof.
  unfold bg4_regroup. rewrite bg4_split_table, bg4_regroup_together_table. unfold split_table, regroup_table. rewrite length_table.
  etransitivity; [|apply table_get]. apply table_ext. intros j Hj.
  destruct (regroup_split_src (length data) j Hj) as [E Hlt]. by rewrite get_table, E.
Qed.

(** Byte grouping loses nothing.  Splitting and regrouping are inverse permutations of the
    bytes, of the same length, for data of every length. *)
Theorem bg4_roundtrip data :
  bg4_regroup (bg4_split data) = data /\ bg4_split (bg4_regroup data) = data /\ length (bg4_split data) = length data.
Proof. by rewrite bg4_regroup_split, bg4_split_regroup, length_bg4_split. Qed.

(** The wide-write variants of the regrouping routine compute the same result as the plain
    one. *)
Theorem bg4_regroup_variants g :
  bg4_regroup_together_combined_write_4 g = bg4_regroup_together g /\
  bg4_regroup_together_combined_write_8 g = bg4_regroup_together g.
Proof. by rewrite bg4_regroup_write_4_table, bg4_regroup_write_8_table, bg4_regroup_together_table. Qed.
