(* ===== verification/Bg4Prediction.v ===== *)
(** * Choosing the compression scheme

    Model of [xet_core_structures/src/xorb_object/byte_grouping/bg4_prediction.rs]:
    the histograms of bits per byte of the four byte groups, filled sixteen bytes at
    a time, and the decision taken on them.  The histograms [[[u32; 9]; 4]] are the
    flat array of 36 counters that the code addresses through a pointer.

    The start of the data in memory is not aligned to 16 bytes in general; the number
    of bytes before the first aligned address, [ptr.align_offset(16)], is the
    parameter [n_align_bytes].  Floating-point numbers are the IEEE 754 doubles of the
    standard library ([SpecFloat]); [ln] comes from the platform's mathematical
    library and is a parameter. *)

From Stdlib Require Import SpecFloat ZifyNat.
From coqutil Require Import Byte Word.LittleEndianList.
From stdpp Require Import base numbers list.
From S2P Require Import Prelude Floats.

#[local] Ltac Zify.zify_post_hook ::= Z.to_euclidean_division_equations.

(** ** Histograms *)

Definition histograms := list Z.

Definition empty_histograms : histograms := replicate 36 0%Z.

(** [+= 1] on the counter of byte group [slot] and bit count [n_ones]. *)
Definition bump (h : histograms) (slot n_ones : nat) : histograms :=
  alter (fun c => wrap32 (c + 1)) (slot * 9 + n_ones) h.

Definition byte_ones (b : byte) : nat := count_ones (u8 b).

Fixpoint reference_loop (h : histograms) (offset i : nat) (data : list byte) : histograms :=
  match data with
  | [] => h
  | x :: data' => reference_loop (bump h ((i + offset) mod 4) (byte_ones x)) offset (S i) data'
  end.

Definition add_data_reference (h : histograms) (offset : nat) (data : list byte) : histograms :=
  reference_loop h offset 0 data.

(** [while ptr != end_ptr]; [idx] is a [u32]. *)
Fixpoint v1_loop (h : histograms) (idx : Z) (data : list byte) : histograms :=
  match data with
  | [] => h
  | x :: data' => v1_loop (bump h (Z.to_nat (idx mod 4)) (byte_ones x)) (wrap32 (idx + 1)) data'
  end.

Definition add_data_v1 (h : histograms) (offset : nat) (data : list byte) : histograms :=
  v1_loop h (Z.of_nat (offset mod 4)) data.

(** ** Sixteen bytes at a time *)

Definition wrap128 (z : Z) : Z := (z mod 2 ^ 128)%Z.

Definition M1 : Z := 0x55555555555555555555555555555555.
Definition M2 : Z := 0x33333333333333333333333333333333.
Definition M3 : Z := 0x0f0f0f0f0f0f0f0f0f0f0f0f0f0f0f0f.

Definition popcnt_u128_swar (v : Z) : Z :=
  let v := wrap128 (v - Z.land (Z.shiftr v 1) M1) in
  let v := wrap128 (Z.land v M2 + Z.land (Z.shiftr v 2) M2) in
  Z.land (wrap128 (v + Z.shiftr v 4)) M3.

Definition apply_perbyte_popcounts (h : histograms) (per_byte_popcount : Z) (offset : nat)
    (byte_range : nat * nat) : histograms :=
  let per_byte_popcnt := le_split 16 per_byte_popcount in
  fold_left (fun h i =>
      let idx := i + offset in
      let n_ones := Z.to_nat (u8 (nth i per_byte_popcnt Byte.x00)) in
      bump h (idx mod 4) n_ones)
    (seq byte_range.1 (byte_range.2 - byte_range.1)) h.

(** The bytes [src] copied into a zeroed 16-byte buffer, from position [at_]. *)
Definition padded (at_ : nat) (src : list byte) : list byte :=
  replicate at_ Byte.x00 ++ src ++ replicate (16 - at_ - length src) Byte.x00.

Section AddData.
  Variable calc_u128_popcnt : Z -> Z.

(** [while remaining >= BLOCK_SIZE * 16]: four words are read, then counted. *)
Fixpoint block_loop (fuel : nat) (h : histograms) (offset : nat) (data : list byte) : histograms * list byte :=
    match fuel with
    | O => (h, data)
    | S fuel' =>
        if 4 * 16 <=? length data then
          let popcnt_v := (fun i => calc_u128_popcnt (le_combine (data⟦16 * i, 16 * i + 16⟧))) <$> seq 0 4 in
          let h := fold_left (fun h v => apply_perbyte_popcounts h v offset (0, 16)) popcnt_v h in
          block_loop fuel' h offset (drop (4 * 16) data)
        else (h, data)
    end.

(** [while remaining >= 16] *)
Fixpoint word_loop (fuel : nat) (h : histograms) (offset : nat) (data : list byte) : histograms * list byte :=
    match fuel with
    | O => (h, data)
    | S fuel' =>
        if 16 <=? length data then
          let h := apply_perbyte_popcounts h (calc_u128_popcnt (le_combine (take 16 data))) offset (0, 16) in
          word_loop fuel' h offset (drop 16 data)
        else (h, data)
    end.

Definition add_data_impl (h : histograms) (n_align_bytes offset : nat) (data : list byte) : histograms :=
    if length data =? 0 then h
    else if length data <=? 16 then
      apply_perbyte_popcounts h (calc_u128_popcnt (le_combine (padded 0 data))) offset (0, length data)
    else
      let u128_common_offset := offset + n_align_bytes in
      let '(h, data) :=
        if negb (n_align_bytes =? 0) then
          let head_bytes := 16 - n_align_bytes in
          (apply_perbyte_popcounts h (calc_u128_popcnt (le_combine (padded head_bytes (take n_align_bytes data))))
             u128_common_offset (head_bytes, 16),
           drop n_align_bytes data)
        else (h, data) in
      let '(h, data) := block_loop (length data) h u128_common_offset data in
      let '(h, data) := word_loop (length data) h u128_common_offset data in
      if 0 <? length data then
        apply_perbyte_popcounts h (calc_u128_popcnt (le_combine (padded 0 data))) u128_common_offset (0, length data)
      else h.
End AddData.

Definition add_data (h : histograms) (n_align_bytes offset : nat) (data : list byte) : histograms :=
  add_data_impl popcnt_u128_swar h n_align_bytes offset data.

(** ** The decision *)

(** [f64] of a [u32] *)
Definition f64_of_u32 (z : Z) : f64 := f64_of_u64 z.
Definition f64_zero : f64 := S754_zero false.
(** The double closest to 0.02. *)
Definition f64_0_02 : f64 := S754_finite false 5764607523034235 (-58).

(** [f64::max]: a NaN argument is ignored. *)
Definition f64_max (a b : f64) : f64 :=
  match a, b with
  | S754_nan, _ => b
  | _, S754_nan => a
  | _, _ => if SFltb a b then b else a
  end.

Definition count (h : histograms) (i j : nat) : Z := nth (i * 9 + j) h 0%Z.

Definition base_counts (h : histograms) (j : nat) : Z :=
  fold_left (fun a i => wrap32 (a + count h i j)) (seq 0 4) 1%Z.

Definition total (h : histograms) (i : nat) : Z := fold_left (fun a j => wrap32 (a + count h i j)) (seq 0 9) 0%Z.

Definition base_total (h : histograms) : Z := fold_left (fun a i => wrap32 (a + total h i)) (seq 0 4) 0%Z.

Section Decision.
  Variable ln : f64 -> f64.

(** The inner loop, for byte group [i]. *)
Definition kl_div (h : histograms) (i : nat) : f64 :=
    fold_left (fun kl j =>
      let p := SFdiv prec emax (f64_of_u32 (count h i j)) (f64_of_u32 (total h i)) in
      let q := SFdiv prec emax (f64_of_u32 (base_counts h j)) (f64_of_u32 (base_total h)) in
      SFadd prec emax kl (SFmul prec emax p (ln (SFdiv prec emax p q)))) (seq 0 9) f64_zero.

Definition bg4_recommended (h : histograms) : bool :=
    let max_kl_div := fold_left (fun m i => f64_max m (kl_div h i)) (seq 0 4) f64_zero in
    SFltb f64_0_02 max_kl_div.
End Decision.

(** ** The per-byte bit counts

    A word is the value of its bytes in base 256; the three steps of the trick act on each
    byte separately. *)

Fixpoint value (zs : list Z) : Z :=
  match zs with
  | [] => 0
  | z :: zs' => z + 256 * value zs'
  end%Z.

Definition is_u8 (z : Z) : Prop := (0 <= z < 256)%Z.

Lemma digit_testbit lo hi i :
  is_u8 lo -> (0 <= i)%Z -> Z.testbit (lo + 256 * hi) i = if (i <? 8)%Z then Z.testbit lo i else Z.testbit hi (i - 8).
Proof.
  unfold is_u8. intros Hlo Hi. destruct (Z.ltb_spec i 8).
  - rewrite <- (Z.mod_pow2_bits_low _ 8 i) by lia. f_equal. change (2 ^ 8)%Z with 256%Z. lia.
  - replace i with (i - 8 + 8)%Z at 1 by lia. rewrite <- Z.div_pow2_bits by lia. f_equal. change (2 ^ 8)%Z with 256%Z. lia.
Qed.

Lemma digit_testbit_high lo i : is_u8 lo -> (8 <= i)%Z -> Z.testbit lo i = false.
Proof.
  intros Hlo Hi. replace lo with (lo + 256 * 0)%Z by lia. rewrite digit_testbit by (done || lia).
  rewrite (proj2 (Z.ltb_ge _ _)) by lia. apply Z.bits_0.
Qed.

Lemma land_digit lo hi m n :
  is_u8 lo -> is_u8 m -> Z.land (lo + 256 * hi) (m + 256 * n) = (Z.land lo m + 256 * Z.land hi n)%Z.
Proof.
  intros Hlo Hm. assert (is_u8 (Z.land lo m)) as Hl.
  { unfold is_u8 in *. assert (m = Z.land m (Z.ones 8)) as -> by (rewrite Z.land_ones by lia; by rewrite Z.mod_small).
    rewrite Z.land_assoc, Z.land_ones by lia. change (2 ^ 8)%Z with 256%Z. lia. }
  apply Z.bits_inj'. intros i Hi. rewrite Z.land_spec, !digit_testbit by done.
  destruct (i <? 8)%Z; by rewrite Z.land_spec.
Qed.

Lemma value_le_combine bs : le_combine bs = value (u8 <$> bs).
Proof.
  induction bs as [|b bs IH]; [done|]. cbn [value fmap list_fmap]. rewrite <- IH.
  change (le_combine (b :: bs)) with (Z.lor (u8 b) (Z.shiftl (le_combine bs) 8)).
  assert (is_u8 (u8 b)) as Hb by apply byte.unsigned_range. apply Z.bits_inj'. intros i Hi.
  rewrite digit_testbit, Z.lor_spec by done. destruct (Z.ltb_spec i 8).
  - by rewrite Z.shiftl_spec_low, orb_false_r by lia.
  - by rewrite Z.shiftl_spec, (digit_testbit_high (u8 b)) by (done || lia).
Qed.

(** A property of bytes is checked on all of them. *)
Lemma check_u8 (P : Z -> bool) : forallb P (Z.of_nat <$> seq 0 256) = true -> forall z, is_u8 z -> P z = true.
Proof.
  unfold is_u8. intros H z Hz. rewrite forallb_forall in H. apply H. rewrite <- list_elem_of_In.
  apply list_elem_of_fmap. exists (Z.to_nat z). split; [lia|]. apply elem_of_seq. lia.
Qed.

Lemma check_u8_2 (n : nat) (P : Z -> Z -> bool) :
  forallb (fun k => forallb (fun b => P b (Z.of_nat k)) (Z.of_nat <$> seq 0 256)) (seq 0 n) = true ->
  forall z k, is_u8 z -> (0 <= k < Z.of_nat n)%Z -> P z k = true.
Proof.
  intros H z k Hz Hk. rewrite forallb_forall in H. specialize (H (Z.to_nat k)). rewrite in_seq in H.
  specialize (H ltac:(lia)). apply (check_u8 _ H) in Hz. by rewrite Z2Nat.id in Hz by lia.
Qed.

(** The three steps on one byte. *)
Definition step1 (b : Z) : Z := b - Z.land (b / 2) 0x55.
Definition step2 (b : Z) : Z := Z.land b 0x33 + Z.land (b / 4) 0x33.
Definition step3 (b : Z) : Z := Z.land (b + b / 16) 0x0f.
Definition nibbles_le_4 (b : Z) : bool := ((b mod 16 <=? 4) && (0 <=? b) && (b <=? 0x44))%Z.

Lemma step1_check b k : is_u8 b -> (0 <= k < 2)%Z -> Z.land (b / 2 + 128 * k) 0x55 = Z.land (b / 2) 0x55 /\ is_u8 (step1 b).
Proof.
  intros Hb Hk. pose proof (check_u8_2 2 (fun b k => (Z.land (b / 2 + 128 * k) 0x55 =? Z.land (b / 2) 0x55)%Z
    && (0 <=? step1 b)%Z && (step1 b <? 256)%Z) ltac:(vm_compute; reflexivity) b k Hb Hk) as H.
  rewrite !andb_true_iff in H. unfold is_u8. lia.
Qed.

Lemma step2_check b k :
  is_u8 b -> (0 <= k < 4)%Z -> Z.land (b / 4 + 64 * k) 0x33 = Z.land (b / 4) 0x33 /\ nibbles_le_4 (step2 (step1 b)) = true.
Proof.
  intros Hb Hk. pose proof (check_u8_2 4 (fun b k => (Z.land (b / 4 + 64 * k) 0x33 =? Z.land (b / 4) 0x33)%Z
    && nibbles_le_4 (step2 (step1 b))) ltac:(vm_compute; reflexivity) b k Hb Hk) as H.
  rewrite !andb_true_iff in H. destruct H as [?%Z.eqb_eq ?]. done.
Qed.

Lemma step3_check b k :
  nibbles_le_4 b = true -> (0 <= k < 5)%Z ->
  Z.land (b + b / 16 + 16 * k) 0x0f = step3 b /\ is_u8 (b + b / 16 + 16 * k).
Proof.
  intros Hb Hk. assert (is_u8 b) as Hu by (unfold nibbles_le_4, is_u8 in *; lia).
  pose proof (check_u8_2 5 (fun b k => if nibbles_le_4 b then (Z.land (b + b / 16 + 16 * k) 0x0f =? step3 b)%Z
    && (0 <=? b + b / 16 + 16 * k)%Z && (b + b / 16 + 16 * k <? 256)%Z else true) ltac:(vm_compute; reflexivity) b k Hu Hk) as H.
  cbn beta in H. rewrite Hb, !andb_true_iff in H. unfold is_u8. lia.
Qed.

Lemma steps_check b : is_u8 b -> step3 (step2 (step1 b)) = Z.of_nat (count_ones b).
Proof.
  intros Hb. apply Z.eqb_eq.
  by apply (check_u8 (fun b => (step3 (step2 (step1 b)) =? Z.of_nat (count_ones b))%Z) ltac:(vm_compute; reflexivity)).
Qed.


(** The steps on a word are the steps on its bytes. *)
Definition mask_of (n : nat) (m : Z) : Z := value (replicate n m).

Lemma word_step1 zs :
  Forall is_u8 zs -> (value zs - Z.land (Z.shiftr (value zs) 1) (mask_of (length zs) 0x55) = value (step1 <$> zs))%Z.
Proof.
  induction 1 as [|z zs Hz Hzs IH]; [done|]. unfold mask_of in *. cbn [length replicate value fmap list_fmap].
  replace (Z.shiftr (z + 256 * value zs) 1) with ((z / 2 + 128 * (value zs mod 2)) + 256 * Z.shiftr (value zs) 1)%Z.
  2: { rewrite !Z.shiftr_div_pow2 by lia. change (2 ^ 1)%Z with 2%Z. lia. }
  destruct (step1_check z (value zs mod 2) Hz ltac:(lia)) as [E _].
  rewrite land_digit, E, <- IH; unfold step1, is_u8 in *; lia.
Qed.

Lemma word_step2 zs :
  Forall is_u8 zs ->
  (Z.land (value zs) (mask_of (length zs) 0x33) + Z.land (Z.shiftr (value zs) 2) (mask_of (length zs) 0x33) = value (step2 <$> zs))%Z.
Proof.
  induction 1 as [|z zs Hz Hzs IH]; [done|]. unfold mask_of in *. cbn [length replicate value fmap list_fmap].
  replace (Z.shiftr (z + 256 * value zs) 2) with ((z / 4 + 64 * (value zs mod 4)) + 256 * Z.shiftr (value zs) 2)%Z.
  2: { rewrite !Z.shiftr_div_pow2 by lia. change (2 ^ 2)%Z with 4%Z. lia. }
  destruct (step2_check z (value zs mod 4) Hz ltac:(lia)) as [E _].
  rewrite !land_digit, E, <- IH; unfold step2, is_u8 in *; lia.
Qed.

Lemma value_low_nibble zs : Forall (fun z => nibbles_le_4 z = true) zs -> (0 <= value zs mod 16 < 5)%Z.
Proof. intros [|z zs' Hz _]; [done|]. cbn [value]. unfold nibbles_le_4 in Hz. lia. Qed.

Lemma word_step3 zs :
  Forall (fun z => nibbles_le_4 z = true) zs ->
  Z.land (value zs + Z.shiftr (value zs) 4) (mask_of (length zs) 0x0f) = value (step3 <$> zs).
Proof.
  induction 1 as [|z zs Hz Hzs IH]; [done|]. unfold mask_of in *. cbn [length replicate value fmap list_fmap].
  replace (z + 256 * value zs + Z.shiftr (z + 256 * value zs) 4)%Z
    with ((z + z / 16 + 16 * (value zs mod 16)) + 256 * (value zs + Z.shiftr (value zs) 4))%Z.
  2: { rewrite !Z.shiftr_div_pow2 by lia. change (2 ^ 4)%Z with 16%Z. lia. }
  destruct (step3_check z (value zs mod 16) Hz (value_low_nibble zs Hzs)) as [E Hu].
  rewrite land_digit, E, <- IH by (done || unfold is_u8; lia). done.
Qed.

Lemma value_bound zs : Forall is_u8 zs -> (0 <= value zs < 256 ^ Z.of_nat (length zs))%Z.
Proof.
  induction 1 as [|z zs Hz Hzs IH]; cbn [value length]; [lia|].
  rewrite Nat2Z.inj_succ, Z.pow_succ_r by lia. unfold is_u8 in Hz. lia.
Qed.

Lemma wrap128_value zs : Forall is_u8 zs -> length zs = 16 -> wrap128 (value zs) = value zs.
Proof. intros Hz Hl. apply Z.mod_small. pose proof (value_bound zs Hz). rewrite Hl in *. done. Qed.

Lemma nibbles_u8 z : nibbles_le_4 z = true -> is_u8 z.
Proof. unfold nibbles_le_4, is_u8. lia. Qed.

Lemma u8_ones b : u8 (byte_of (Z.of_nat (byte_ones b))) = Z.of_nat (byte_ones b).
Proof.
  rewrite byte.unsigned_of_Z. apply Z.mod_small. unfold byte_ones. rewrite <- steps_check by apply byte.unsigned_range.
  assert (is_u8 (u8 b)) as Hb by apply byte.unsigned_range.
  apply (check_u8 (fun b => (0 <=? step3 (step2 (step1 b)))%Z && (step3 (step2 (step1 b)) <? 256)%Z)) in Hb; [|vm_compute; reflexivity].
  change (2 ^ 8)%Z with 256%Z. lia.
Qed.

Lemma wrap128_nibbles zs :
  Forall (fun z => nibbles_le_4 z = true) zs -> length zs = 16 ->
  wrap128 (value zs + Z.shiftr (value zs) 4) = (value zs + Z.shiftr (value zs) 4)%Z.
Proof.
  intros Hz Hl. apply Z.mod_small. assert (Forall is_u8 zs) as Hu by (eapply Forall_impl; [exact Hz|apply nibbles_u8]).
  do 16 (destruct zs as [|? zs]; [done|]). destruct zs; [|done]. rewrite Z.shiftr_div_pow2 by lia. cbn [value].
  rewrite !Forall_cons in Hz. unfold nibbles_le_4 in Hz. change (2 ^ 4)%Z with 16%Z. lia.
Qed.

(** The trick counts the bits of each byte. *)
Lemma popcnt_u128_swar_bytes bs :
  length bs = 16 -> le_split 16 (popcnt_u128_swar (le_combine bs)) = (fun b => byte_of (Z.of_nat (byte_ones b))) <$> bs.
Proof.
  intros Hl. set (zs := u8 <$> bs). assert (length zs = 16) as Hz by (unfold zs; by rewrite length_fmap).
  assert (Forall is_u8 zs) as F0 by (apply Forall_fmap, Forall_true; intros; apply byte.unsigned_range).
  assert (Forall is_u8 (step1 <$> zs)) as F1.
  { apply Forall_fmap. eapply Forall_impl; [exact F0|]. intros z Hu. by destruct (step1_check z 0 Hu ltac:(lia)). }
  assert (Forall (fun z => nibbles_le_4 z = true) (step2 <$> (step1 <$> zs))) as F2.
  { apply Forall_fmap, Forall_fmap. eapply Forall_impl; [exact F0|]. intros z Hu. by destruct (step2_check z 0 Hu ltac:(lia)). }
  assert (popcnt_u128_swar (le_combine bs) = value (step3 <$> (step2 <$> (step1 <$> zs)))) as ->.
  { assert (wrap128 (value zs - Z.land (Z.shiftr (value zs) 1) M1) = value (step1 <$> zs)) as E1.
    { change M1 with (mask_of 16 0x55). rewrite <- Hz at 1. rewrite word_step1 by done.
      apply wrap128_value; [done|by rewrite length_fmap]. }
    assert (length (step1 <$> zs) = 16) as L1 by (by rewrite length_fmap).
    assert (wrap128 (Z.land (value (step1 <$> zs)) M2 + Z.land (Z.shiftr (value (step1 <$> zs)) 2) M2)
            = value (step2 <$> (step1 <$> zs))) as E2.
    { change M2 with (mask_of 16 0x33). rewrite <- L1. rewrite word_step2 by done.
      apply wrap128_value; [|by rewrite length_fmap]. eapply Forall_impl; [exact F2|apply nibbles_u8]. }
    unfold popcnt_u128_swar. rewrite value_le_combine. fold zs. rewrite E1, E2, wrap128_nibbles by (done || by rewrite !length_fmap).
    change M3 with (mask_of 16 0x0f). rewrite <- L1, <- (length_fmap step2 (step1 <$> zs)). by apply word_step3. }
  set (cs := _ <$> bs). assert (value (step3 <$> (step2 <$> (step1 <$> zs))) = le_combine cs) as ->.
  { rewrite value_le_combine. unfold cs, zs. rewrite <- !list_fmap_compose. f_equal. apply list_fmap_ext. intros _ b _. cbn.
    rewrite steps_check by apply byte.unsigned_range. by rewrite u8_ones. }
  assert (length cs = 16) as Hc by (unfold cs; by rewrite length_fmap). rewrite <- Hc. apply split_le_combine.
Qed.

(** ** The loops *)

(** The bytes [bs], of which the first is at position [off] modulo four. *)
Fixpoint add_bytes (h : histograms) (off : nat) (bs : list byte) : histograms :=
  match bs with
  | [] => h
  | b :: bs' => add_bytes (bump h (off mod 4) (byte_ones b)) (S off) bs'
  end.

Lemma add_bytes_app h off a b : add_bytes h off (a ++ b) = add_bytes (add_bytes h off a) (off + length a) b.
Proof.
  revert h off. induction a as [|x a IH]; intros h off; cbn [app add_bytes length]; [by rewrite Nat.add_0_r|].
  rewrite IH. f_equal. lia.
Qed.

Lemma add_bytes_mod h off off' bs : off mod 4 = off' mod 4 -> add_bytes h off bs = add_bytes h off' bs.
Proof.
  revert h off off'. induction bs as [|b bs IH]; intros h off off' E; cbn [add_bytes]; [done|].
  rewrite E. apply IH. lia.
Qed.

Lemma reference_loop_add h offset i data : reference_loop h offset i data = add_bytes h (i + offset) data.
Proof. revert h i. induction data as [|x data IH]; intros h i; cbn [reference_loop add_bytes]; [done|]. by rewrite IH. Qed.

Lemma v1_loop_add h idx off data :
  (0 <= idx)%Z -> Z.to_nat (idx mod 4) = off mod 4 -> v1_loop h idx data = add_bytes h off data.
Proof.
  revert h idx off. induction data as [|x data IH]; intros h idx off Hi E; cbn [v1_loop add_bytes]; [done|].
  rewrite E. apply IH; unfold wrap32; change (2 ^ 32)%Z with 4294967296%Z; lia.
Qed.

(** A range of the per-byte counts of a 16-byte buffer. *)
Lemma apply_popcounts_add h buf offset a b :
  length buf = 16 -> a <= b <= 16 ->
  apply_perbyte_popcounts h (popcnt_u128_swar (le_combine buf)) offset (a, b) = add_bytes h (a + offset) (buf⟦a, b⟧).
Proof.
  intros Hl Hab. unfold apply_perbyte_popcounts. rewrite popcnt_u128_swar_bytes by done. cbn [fst snd].
  remember (b - a) as k eqn:Hk. revert h a Hab Hk. induction k as [|k IH]; intros h a Hab Hk.
  { unfold slice. by rewrite <- Hk. }
  cbn [seq fold_left]. destruct (lookup_lt_is_Some_2 buf a) as [x Hx]; [lia|].
  assert (buf⟦a, b⟧ = x :: buf⟦S a, b⟧) as ->.
  { unfold slice. rewrite <- Hk. erewrite drop_S by exact Hx. cbn [take]. f_equal. f_equal. lia. }
  cbn [add_bytes]. rewrite IH by lia. f_equal. unfold bump. f_equal.
  erewrite nth_lookup_Some by (rewrite list_lookup_fmap, Hx; reflexivity).
  rewrite u8_ones. lia.
Qed.

Lemma apply_word_add h off data :
  16 <= length data ->
  add_bytes (apply_perbyte_popcounts h (popcnt_u128_swar (le_combine (take 16 data))) off (0, 16)) off (drop 16 data)
  = add_bytes h off data.
Proof.
  intros Hl. assert (length (take 16 data) = 16) as Ht by (rewrite length_take; lia).
  rewrite apply_popcounts_add by (done || lia). rewrite slice_0, firstn_firstn. cbn [Nat.min Nat.add].
  rewrite <- (take_drop 16 data) at 3. rewrite add_bytes_app, Ht. apply add_bytes_mod. lia.
Qed.

Lemma word_loop_add fuel h off data :
  length data <= fuel ->
  let '(h', rest) := word_loop popcnt_u128_swar fuel h off data in
  add_bytes h' off rest = add_bytes h off data /\ length rest < 16.
Proof.
  revert h data. induction fuel as [|fuel IH]; intros h data Hf; cbn [word_loop]; [split; [done|lia]|].
  destruct (Nat.leb_spec 16 (length data)) as [H16|]; [|by split].
  specialize (IH (apply_perbyte_popcounts h (popcnt_u128_swar (le_combine (take 16 data))) off (0, 16)) (drop 16 data)).
  destruct (word_loop _ _ _ _ _) as [h' rest]. rewrite apply_word_add in IH by done. apply IH. rewrite length_drop. lia.
Qed.

Lemma block_loop_add fuel h off data :
  let '(h', rest) := block_loop popcnt_u128_swar fuel h off data in add_bytes h' off rest = add_bytes h off data.
Proof.
  revert h data. induction fuel as [|fuel IH]; intros h data; cbn [block_loop]; [done|].
  destruct (Nat.leb_spec (4 * 16) (length data)) as [H64|]; [|done].
  set (h1 := fold_left _ _ h). specialize (IH h1 (drop (4 * 16) data)). destruct (block_loop _ _ _ _ _) as [h' rest].
  rewrite IH. unfold h1. clear -H64. cbn [fmap list_fmap seq fold_left]. unfold slice. cbn [Nat.mul Nat.add Nat.sub].
  rewrite drop_0. rewrite <- (apply_word_add h off data) by lia.
  rewrite <- (apply_word_add _ off (drop 16 data)), drop_drop by (rewrite length_drop; lia).
  rewrite <- (apply_word_add _ off (drop (16 + 16) data)), drop_drop by (rewrite length_drop; lia).
  rewrite <- (apply_word_add _ off (drop (16 + 16 + 16) data)), drop_drop by (rewrite length_drop; lia). done.
Qed.

Lemma apply_padded_add h off data :
  length data <= 16 ->
  apply_perbyte_popcounts h (popcnt_u128_swar (le_combine (padded 0 data))) off (0, length data) = add_bytes h off data.
Proof.
  intros Hl. assert (length (padded 0 data) = 16) as Hp by (unfold padded; rewrite !length_app, !length_replicate; lia).
  rewrite apply_popcounts_add by (done || lia). unfold padded. cbn [replicate app]. by rewrite slice_prefix.
Qed.

Lemma apply_head_add h off n data :
  0 < n < 16 -> n <= length data ->
  add_bytes (apply_perbyte_popcounts h (popcnt_u128_swar (le_combine (padded (16 - n) (take n data)))) (off + n) (16 - n, 16))
    (off + n) (drop n data) = add_bytes h off data.
Proof.
  intros Hn Hl. assert (length (take n data) = n) as Ht by (rewrite length_take; lia).
  assert (padded (16 - n) (take n data) = replicate (16 - n) Byte.x00 ++ take n data ++ []) as ->.
  { unfold padded. rewrite Ht. by replace (16 - (16 - n) - n) with 0 by lia. }
  rewrite apply_popcounts_add by (rewrite ?length_app, ?length_replicate; cbn [length]; lia).
  rewrite slice_middle by (rewrite length_replicate; lia). rewrite <- (take_drop n data) at 3.
  rewrite add_bytes_app, Ht. f_equal. apply add_bytes_mod. lia.
Qed.

(** The histograms filled sixteen bytes at a time, with the parallel bit count and for any
    alignment of the data in memory, are those of the byte-by-byte reference routine, and so are
    those of the earlier pointer loop. *)
Theorem add_data_correct h n_align_bytes offset data :
  n_align_bytes < 16 ->
  add_data h n_align_bytes offset data = add_data_reference h offset data /\
  add_data_v1 h offset data = add_data_reference h offset data.
Proof.
  intros Hn. unfold add_data_reference, add_data_v1. rewrite reference_loop_add. split; [|apply v1_loop_add; lia].
  unfold add_data, add_data_impl. destruct (Nat.eqb_spec (length data) 0) as [E|_].
  { by apply nil_length_inv in E as ->. }
  destruct (Nat.leb_spec (length data) 16); [by rewrite apply_padded_add|].
  set (head := if negb _ then _ else _).
  assert (add_bytes head.1 (offset + n_align_bytes) head.2 = add_bytes h offset data) as Eh.
  { unfold head. destruct (Nat.eqb_spec n_align_bytes 0) as [->|]; cbn [negb fst snd]; [by rewrite Nat.add_0_r|].
    apply apply_head_add; lia. }
  destruct head as [h1 d1]. cbn [fst snd] in Eh.
  pose proof (block_loop_add (length d1) h1 (offset + n_align_bytes) d1) as Hb. destruct (block_loop _ _ _ _ _) as [h2 d2].
  pose proof (word_loop_add (length d2) h2 (offset + n_align_bytes) d2 (le_n _)) as Hw. destruct (word_loop _ _ _ _ _) as [h3 d3].
  destruct Hw as [Hw Hlt]. cbn [Nat.add]. rewrite <- Eh, <- Hb, <- Hw.
  destruct d3 as [|x d3]; [done|]. rewrite (proj2 (Nat.ltb_lt _ _)) by (cbn [length]; lia). by rewrite apply_padded_add by lia.
Qed.

(** ** The decision ignores a byte group with an empty counter *)
Section NaN.
  Variable ln : f64 -> f64.
  (** [f64::ln] of zero is minus infinity, and of NaN is NaN. *)
  Hypothesis ln_zero : forall s, ln (S754_zero s) = S754_infinity true.
  Hypothesis ln_nan : ln S754_nan = S754_nan.

Lemma SFadd_nan_l y : SFadd prec emax S754_nan y = S754_nan.
Proof. by destruct y. Qed.

Lemma SFadd_nan_r x : SFadd prec emax x S754_nan = S754_nan.
Proof. by destruct x. Qed.

Definition zero_or_nan (x : f64) : Prop := x = S754_nan \/ exists s, x = S754_zero s.

Lemma zero_or_nan_div x y : zero_or_nan x -> zero_or_nan (SFdiv prec emax x y).
Proof.
  unfold zero_or_nan. intros [-> |[s ->]]; [left; by destruct y|]. destruct y; cbn; eauto.
Qed.

(** The term of an empty counter is [0 * ln 0], or NaN already. *)
Lemma empty_counter_term p q : zero_or_nan p -> SFmul prec emax p (ln (SFdiv prec emax p q)) = S754_nan.
Proof.
  intros Hp. destruct (zero_or_nan_div p q Hp) as [-> |[s ->]]; rewrite ?ln_nan, ?ln_zero; destruct Hp as [-> |[s' ->]]; done.
Qed.

Lemma kl_div_empty_counter h i j : j < 9 -> count h i j = 0%Z -> kl_div ln h i = S754_nan.
Proof.
  intros Hj Hc. unfold kl_div. assert (Hin : j ∈ seq 0 9) by (apply elem_of_seq; lia).
  revert Hin. generalize f64_zero as acc. generalize (seq 0 9) as js. set (step := fun _ _ => _).
  assert (forall js, fold_left step js S754_nan = S754_nan) as Hst.
  { induction js as [|k js IH]; [done|]. cbn [fold_left]. unfold step at 2. cbn zeta. by rewrite SFadd_nan_l. }
  induction js as [|k js IH]; intros acc; [by intros ?%elem_of_nil|]. cbn [fold_left].
  intros [->|Hin]%elem_of_cons; [|by apply IH]. unfold step at 2. cbn zeta.
  rewrite Hc, empty_counter_term; [by rewrite SFadd_nan_r|]. apply zero_or_nan_div. right. by exists false.
Qed.

Lemma f64_max_nan a : f64_max a S754_nan = a.
Proof. by destruct a. Qed.

(** A byte group in which some number of bits per byte never occurs takes no part in the
    decision: its divergence is NaN, which the maximum ignores.  When that holds of all four
    groups, byte grouping is never recommended, however different the groups are. *)
Theorem empty_counters_never_recommended h :
    (forall i, i < 4 -> exists j, j < 9 /\ count h i j = 0%Z) -> bg4_recommended ln h = false.
Proof.
  intros Hall. unfold bg4_recommended. cbn [seq fold_left].
  assert (forall i, i < 4 -> kl_div ln h i = S754_nan) as Hk.
  { intros i Hi. destruct (Hall i Hi) as (j & Hj & Hc). by eapply kl_div_empty_counter. }
  by rewrite !Hk, !f64_max_nan by lia.
Qed.
End NaN.

Definition sample_ln (x : f64) : f64 :=
  match x with
  | S754_zero _ => S754_infinity true
  | S754_nan => S754_nan
  | _ => S754_zero false
  end.

(** Data made of one four-byte number only: each group is constant and they all differ. *)
Definition floats_of_one : list byte := concat (replicate 64 (byte_of <$> [0; 1; 0x83; 0x3f]%Z)).

Lemma empty_counters_never_recommended_witness :
  bg4_recommended sample_ln (add_data_reference empty_histograms 0 floats_of_one) = false.
Proof.
  apply (empty_counters_never_recommended sample_ln); [intros s; reflexivity|reflexivity|].
  intros i Hi. exists 8. split; [lia|]. destruct i as [|[|[|[|i]]]]; [vm_compute; reflexivity..|lia].
Defined.

Lemma add_data_correct_witness :
  add_data empty_histograms 5 3 floats_of_one = add_data_reference empty_histograms 3 floats_of_one.
Proof. apply (add_data_correct empty_histograms 5 3 floats_of_one). lia. Defined.
