(* ===== verification/Codec.v ===== *)
(** * Reading and writing binary records

    Model of [xet_core_structures/src/utils/serialization_utils.rs].  A reader is the
    list of the bytes not read yet and a parser a function on it; [read_exact] fails
    with [UnexpectedEof] when too few bytes are left.  Writing appends to a list of
    bytes and cannot fail.  [FixedCodec] is what the record types promise to the
    formats built from them. *)

From coqutil Require Import Byte Word.LittleEndianList.
From stdpp Require Import base numbers list.
From S2P Require Import Prelude DataHash.

(** ** Parsers *)

Definition Reader (A : Type) : Type := list byte -> result CoreError (A * list byte).

#[global] Instance reader_ret : MRet Reader := fun _ a r => Ok (a, r).
#[global] Instance reader_bind : MBind Reader := fun _ _ k p r =>
  match p r with
  | Ok (a, r') => k a r'
  | Err e => Err e
  end.

Definition fail {A} (e : CoreError) : Reader A := fun _ => Err e.

(** Lift a result into a parser that reads nothing. *)
Definition lift {A} (x : result CoreError A) : Reader A := fun r => match x with Ok a => Ok (a, r) | Err e => Err e end.

Definition read_exact (n : nat) : Reader (list byte) := fun r =>
  if n <=? length r then Ok (take n r, drop n r) else Err (Io UnexpectedEof).

(** A parser run on a [Cursor] over the buffer [v]. *)
Definition from_cursor {A} (v : list byte) (p : Reader A) : Reader A := fun r =>
  match p v with
  | Ok (a, _) => Ok (a, r)
  | Err e => Err e
  end.

(** What is in a zeroed buffer of [n] bytes after a [Cursor] over it wrote [bs]. *)
Definition in_buffer (n : nat) (bs : list byte) : list byte := take n (bs ++ replicate (n - length bs) Byte.x00).

(** [for _ in 0..n { vs.push(p(reader)?) }] *)
Fixpoint read_n {A} (p : Reader A) (n : nat) : Reader (list A) :=
  match n with
  | O => mret []
  | S n' => a ← p; l ← read_n p n'; mret (a :: l)
  end.

(** ** Files that are read at a position: what is ahead of the reader after a seek *)

Definition seek_to (f : list byte) (position : Z) : list byte := drop (Z.to_nat position) f.

(** Move to [n] bytes before the end of the file [f]; the system refuses a negative position. *)
Definition seek_from_end (f : list byte) (n : nat) : result CoreError (list byte) :=
  if n <=? length f then Ok (drop (length f - n) f) else Err (Io InvalidInput).

(** [SeekFrom::Current], forwards, which may move past the end. *)
Definition skip (n : nat) : Reader unit := fun r => Ok (tt, drop n r).

(** [copy(&mut reader.take(n), writer)]: the bytes copied, fewer at the end of the file. *)
Definition copy_up_to (n : nat) : Reader (list byte) := fun r => Ok (take n r, drop n r).

(** ** Loops over a reader

    A round gives the next state or, on [break], the result.  Every round that continues reads a
    byte at least, so one round more than bytes left is enough; after that a round could only fail
    for want of bytes. *)

Fixpoint iterate {St B} (fuel : nat) (body : St -> Reader (St + B)) (s : St) : Reader B :=
  match fuel with
  | O => fail (Io UnexpectedEof)
  | S fuel' => x ← body s; match x with inl s' => iterate fuel' body s' | inr b => mret b end
  end.

Definition loop {St B} (body : St -> Reader (St + B)) (s : St) : Reader B := fun r => iterate (S (length r)) body s r.

(** [while let Some(x) = p(reader)? { l.push(x) }] *)
Definition while_some {A} (p : Reader (option A)) : Reader (list A) :=
  loop (fun l => o ← p; mret (match o with Some a => inl (l ++ [a]) | None => inr l end)) [].

(** ** Integers and hashes *)

Definition write_hash (m : DataHash) : list byte := as_bytes m.
Definition write_u8 (v : Z) : list byte := le_split 1 v.
Definition write_u32 (v : Z) : list byte := le_split 4 v.
Definition write_u64 (v : Z) : list byte := le_split 8 v.
Definition write_u32s (vs : list Z) : list byte := concat (write_u32 <$> vs).
Definition write_u64s (vs : list Z) : list byte := concat (write_u64 <$> vs).

Definition read_hash : Reader DataHash := m ← read_exact 32; mret (from_bytes m).
Definition read_u8 : Reader Z := buf ← read_exact 1; mret (le_combine buf).
Definition read_u32 : Reader Z := buf ← read_exact 4; mret (le_combine buf).
Definition read_u64 : Reader Z := buf ← read_exact 8; mret (le_combine buf).
Definition read_u32s (n : nat) : Reader (list Z) := read_n read_u32 n.
Definition read_u64s (n : nat) : Reader (list Z) := read_n read_u64 n.

(** ** The interface of a record type *)

(** [sz] bytes that any value encodes to and that always decode to a valid value; a valid value
    decodes to itself. *)
Class FixedCodec (A : Type) (encode : A -> list byte) (decode : Reader A) (valid : A -> Prop) (sz : nat) := {
  encode_length : forall a, length (encode a) = sz;
  decode_encode : forall a rest, valid a -> decode (encode a ++ rest) = Ok (a, rest);
  decode_enough : forall r, sz <= length r -> exists a, decode r = Ok (a, drop sz r) /\ valid a;
  decode_short : forall r, length r < sz -> decode r = Err (Io UnexpectedEof);
}.

Lemma read_exact_app bs rest : read_exact (length bs) (bs ++ rest) = Ok (bs, rest).
Proof.
  unfold read_exact. rewrite length_app, (proj2 (Nat.leb_le _ _)) by lia. by rewrite take_app_length, drop_app_length.
Qed.

Lemma read_exact_enough n r : n <= length r -> read_exact n r = Ok (take n r, drop n r).
Proof. intros. unfold read_exact. by rewrite (proj2 (Nat.leb_le _ _)). Qed.

Lemma read_exact_short n r : length r < n -> read_exact n r = Err (Io UnexpectedEof).
Proof. intros. unfold read_exact. by rewrite (proj2 (Nat.leb_gt _ _)). Qed.

Lemma bind_ok {A B} (p : Reader A) (k : A -> Reader B) r a r' :
  p r = Ok (a, r') -> (p ≫= k) r = k a r'.
Proof. intros E. unfold mbind, reader_bind. by rewrite E. Qed.

Lemma bind_err {A B} (p : Reader A) (k : A -> Reader B) r e : p r = Err e -> (p ≫= k) r = Err e.
Proof. intros E. unfold mbind, reader_bind. by rewrite E. Qed.

Lemma in_buffer_exact n bs : length bs = n -> in_buffer n bs = bs.
Proof. intros <-. unfold in_buffer. rewrite Nat.sub_diag. cbn. by rewrite app_nil_r, firstn_all. Qed.

Lemma uint_codec n :
  FixedCodec Z (le_split n) (buf ← read_exact n; mret (le_combine buf)) (fun z => 0 <= z < 2 ^ (Z.of_nat n * 8))%Z n.
Proof.
  split.
  - intros. apply length_le_split.
  - intros a rest Ha. erewrite bind_ok; [|rewrite <- (length_le_split n a) at 1; apply read_exact_app].
    unfold mret, reader_ret. by rewrite le_combine_split_small.
  - intros r Hr. erewrite bind_ok by (by apply read_exact_enough). eexists. split; [done|].
    pose proof (le_combine_bound (take n r)) as Hb. rewrite length_take, Nat.min_l in Hb by done.
    by rewrite (Z.mul_comm (Z.of_nat n)).
  - intros r Hr. by apply bind_err, read_exact_short.
Qed.

#[export] Instance u8_codec : FixedCodec Z write_u8 read_u8 (fun z => 0 <= z < 2 ^ 8)%Z 1 := uint_codec 1.
#[export] Instance u32_codec : FixedCodec Z write_u32 read_u32 is_u32 4 := uint_codec 4.
#[export] Instance u64_codec : FixedCodec Z write_u64 read_u64 is_u64 8 := uint_codec 8.

#[export] Instance hash_codec : FixedCodec DataHash write_hash read_hash hash_wf 32.
Proof.
  unfold read_hash. split.
  - apply length_as_bytes.
  - intros h rest Hh. erewrite bind_ok; [|rewrite <- (length_as_bytes h) at 1; apply read_exact_app].
    unfold mret, reader_ret. by rewrite from_bytes_as_bytes.
  - intros r Hr. erewrite bind_ok by (by apply read_exact_enough). eexists. split; [done|].
    apply from_bytes_wf. rewrite length_take. lia.
  - intros r Hr. by apply bind_err, read_exact_short.
Qed.

(** A record that is read whole into a buffer and taken apart through a [Cursor]. *)
Lemma cursor_codec {A} encode (p : Reader A) valid n :
  FixedCodec A encode p valid n ->
  FixedCodec A (fun a => in_buffer n (encode a)) (v ← read_exact n; from_cursor v p) valid n.
Proof.
  intros C. assert (forall a, in_buffer n (encode a) = encode a) as E by (intros; apply in_buffer_exact, encode_length).
  split.
  - intros a. rewrite E. apply encode_length.
  - intros a rest Ha. rewrite E. pose proof (read_exact_app (encode a) rest) as Hr. rewrite encode_length in Hr.
    rewrite (bind_ok _ _ _ _ _ Hr). unfold from_cursor.
    pose proof (decode_encode a [] Ha) as Hd. rewrite app_nil_r in Hd. by rewrite Hd.
  - intros r Hr. rewrite (bind_ok _ _ _ _ _ (read_exact_enough n r Hr)). unfold from_cursor.
    destruct (decode_enough (FixedCodec := C) (take n r)) as (a & Ha & Hv); [rewrite length_take; lia|].
    rewrite Ha. by exists a.
  - intros r Hr. by apply bind_err, read_exact_short.
Qed.

(** Two records in sequence. *)
Lemma pair_codec {A B} encA decA validA n encB decB validB m :
  FixedCodec A encA decA validA n -> FixedCodec B encB decB validB m ->
  FixedCodec (A * B) (fun ab => encA ab.1 ++ encB ab.2) (a ← decA; b ← decB; mret (a, b))
    (fun ab => validA ab.1 /\ validB ab.2) (n + m).
Proof.
  intros CA CB. split.
  - intros [a b]. cbn. by rewrite length_app, !encode_length.
  - intros [a b] rest [Ha Hb]. cbn in *. rewrite <- app_assoc.
    rewrite (bind_ok _ _ _ _ _ (decode_encode a _ Ha)), (bind_ok _ _ _ _ _ (decode_encode b _ Hb)). done.
  - intros r Hr. destruct (decode_enough (FixedCodec := CA) r) as (a & Ea & Ha); [lia|]. rewrite (bind_ok _ _ _ _ _ Ea).
    destruct (decode_enough (FixedCodec := CB) (drop n r)) as (b & Eb & Hb); [rewrite length_drop; lia|].
    rewrite (bind_ok _ _ _ _ _ Eb). exists (a, b). by rewrite drop_drop.
  - intros r Hr. destruct (Nat.lt_ge_cases (length r) n) as [Hn|Hn]; [by apply bind_err, decode_short|].
    destruct (decode_enough (FixedCodec := CA) r Hn) as (a & Ea & _). rewrite (bind_ok _ _ _ _ _ Ea).
    apply bind_err, decode_short. rewrite length_drop. lia.
Qed.

(** A sequence of records of known length. *)
Lemma read_n_encode `{C : FixedCodec A encode decode valid sz} l rest :
  Forall valid l -> read_n decode (length l) (concat (encode <$> l) ++ rest) = Ok (l, rest).
Proof.
  induction 1 as [|a l Ha Hl IH]; [done|]. cbn [length read_n fmap list_fmap concat]. rewrite <- app_assoc.
  rewrite (bind_ok _ _ _ _ _ (decode_encode a _ Ha)), (bind_ok _ _ _ _ _ IH). done.
Qed.

Lemma read_n_enough `{C : FixedCodec A encode decode valid sz} n r :
  n * sz <= length r -> exists l, read_n decode n r = Ok (l, drop (n * sz) r) /\ length l = n /\ Forall valid l.
Proof.
  revert r. induction n as [|n IH]; intros r Hr; cbn [read_n Nat.mul] in *; [by exists []; rewrite drop_0|].
  destruct (decode_enough r) as (a & Ea & Ha); [lia|]. rewrite (bind_ok _ _ _ _ _ Ea).
  destruct (IH (drop sz r)) as (l & El & Hl & Hv); [rewrite length_drop; lia|]. rewrite (bind_ok _ _ _ _ _ El).
  exists (a :: l). rewrite drop_drop. cbn [length]. split_and!; [done|lia|by constructor].
Qed.

Lemma read_n_short `{C : FixedCodec A encode decode valid sz} n r :
  length r < n * sz -> read_n decode n r = Err (Io UnexpectedEof).
Proof.
  revert r. induction n as [|n IH]; intros r Hr; cbn [read_n Nat.mul] in *; [lia|].
  destruct (Nat.lt_ge_cases (length r) sz) as [Hs|Hs]; [by apply bind_err, decode_short|].
  destruct (decode_enough r Hs) as (a & Ea & _). rewrite (bind_ok _ _ _ _ _ Ea).
  apply bind_err, IH. rewrite length_drop. lia.
Qed.

Lemma length_concat_encode `{C : FixedCodec A encode decode valid sz} l :
  length (concat (encode <$> l)) = length l * sz.
Proof. induction l as [|a l IH]; [done|]. cbn [fmap list_fmap concat length]. rewrite length_app, IH, encode_length. lia. Qed.

(** The same bytes, seen as another type. *)
Lemma iso_codec {A R} encode (decode : Reader A) valid sz (f : A -> R) (g : R -> A) (decode' : Reader R) :
  FixedCodec A encode decode valid sz -> (forall r, f (g r) = r) -> (forall a, g (f a) = a) ->
  (forall bs, decode' bs = (a ← decode; mret (f a)) bs) ->
  FixedCodec R (fun r => encode (g r)) decode' (fun r => valid (g r)) sz.
Proof.
  intros C Hfg Hgf Hd. split.
  - intros r. apply encode_length.
  - intros r rest Hr. rewrite Hd, (bind_ok _ _ _ _ _ (decode_encode _ rest Hr)). unfold mret, reader_ret. by rewrite Hfg.
  - intros bs Hb. destruct (decode_enough bs Hb) as (a & Ea & Ha). rewrite Hd, (bind_ok _ _ _ _ _ Ea).
    exists (f a). by rewrite Hgf.
  - intros bs Hb. rewrite Hd. by apply bind_err, decode_short.
Qed.

(** Two parsers made of the same reads. *)
Ltac same_reads := intros ?; unfold mbind, reader_bind, mret, reader_ret; repeat (case_match; simplify_eq/=); done.

(** A parser that fails only on a reader that ends early, and whose results all satisfy [Q]. *)
Definition yields {A} (p : Reader A) (Q : A -> Prop) : Prop :=
  forall r, match p r with Ok (a, _) => Q a | Err e => e = Io UnexpectedEof end.

Lemma yields_ret {A} (a : A) (Q : A -> Prop) : Q a -> yields (mret a) Q.
Proof. by intros H r. Qed.

Lemma yields_bind {A B} (p : Reader A) (k : A -> Reader B) (Q : A -> Prop) (R : B -> Prop) :
  yields p Q -> (forall a, Q a -> yields (k a) R) -> yields (p ≫= k) R.
Proof.
  intros Hp Hk r. specialize (Hp r). unfold mbind, reader_bind. destruct (p r) as [[a r']|e]; [by apply Hk|done].
Qed.

Lemma yields_codec `{C : FixedCodec A encode decode valid sz} : yields decode valid.
Proof.
  intros r. destruct (Nat.lt_ge_cases (length r) sz) as [H|H]; [by rewrite decode_short|].
  by destruct (decode_enough r H) as (a & -> & Ha).
Qed.

Lemma yields_read_n {A} (p : Reader A) (Q : A -> Prop) n :
  yields p Q -> yields (read_n p n) (fun l => length l = n /\ Forall Q l).
Proof.
  intros Hp. induction n as [|n IH]; cbn [read_n]; [by apply yields_ret|].
  eapply yields_bind; [exact Hp|]. intros a Ha. eapply yields_bind; [exact IH|]. intros l [Hl Hf].
  apply yields_ret. cbn. split; [lia|by constructor].
Qed.

Lemma yields_if {A} (b : bool) (p q : Reader A) (P Q : A -> Prop) :
  yields p P -> yields q Q -> yields (if b then p else q) (fun a => if b then P a else Q a).
Proof. by destruct b. Qed.

Lemma yields_weaken {A} (p : Reader A) (P Q : A -> Prop) : yields p P -> (forall a, P a -> Q a) -> yields p Q.
Proof. intros Hp HPQ r. specialize (Hp r). destruct (p r) as [[a r']|e]; auto. Qed.

(** A parser that takes [n] bytes, whatever they are, and fails only when there are fewer. *)
Definition takes {A} (p : Reader A) (n : nat) : Prop :=
  forall r, if n <=? length r then exists a, p r = Ok (a, drop n r) else p r = Err (Io UnexpectedEof).

Lemma takes_ret {A} (a : A) : takes (mret a) 0.
Proof. intros r. cbn. by exists a; rewrite drop_0. Qed.

Lemma takes_bind {A B} (p : Reader A) (k : A -> Reader B) n m : takes p n -> (forall a, takes (k a) m) -> takes (p ≫= k) (n + m).
Proof.
  intros Hp Hk r. specialize (Hp r). destruct (Nat.leb_spec n (length r)) as [Hn|Hn].
  - destruct Hp as [a Ha]. rewrite (bind_ok _ _ _ _ _ Ha). specialize (Hk a (drop n r)). rewrite length_drop in Hk.
    destruct (Nat.leb_spec m (length r - n)), (Nat.leb_spec (n + m) (length r)); try lia; [|done]. by rewrite drop_drop in Hk.
  - rewrite (proj2 (Nat.leb_gt _ _)) by lia. by apply bind_err.
Qed.

Lemma takes_codec `{C : FixedCodec A encode decode valid sz} : takes decode sz.
Proof.
  intros r. destruct (Nat.leb_spec sz (length r)) as [H|H]; [|by apply decode_short].
  by destruct (decode_enough r H) as (a & -> & _); exists a.
Qed.

Lemma takes_read_n {A} (p : Reader A) n k : takes p k -> takes (read_n p n) (n * k).
Proof.
  intros Hp. induction n as [|n IH]; cbn [read_n Nat.mul]; [apply takes_ret|]. apply takes_bind; [done|]. intros a.
  rewrite <- (Nat.add_0_r (n * k)). apply takes_bind; [done|]. intros l. apply takes_ret.
Qed.

Lemma takes_if {A} (b : bool) (p q : Reader A) n m : takes p n -> takes q m -> takes (if b then p else q) (if b then n else m).
Proof. by destruct b. Qed.

(** ** Parsers that keep every byte

    Together with [FixedCodec] this makes reader and writer inverse in both directions: what was
    read is what writing the value gives. *)

Class ExactCodec (A : Type) (encode : A -> list byte) (decode : Reader A) (valid : A -> Prop) :=
  decode_exact : forall r a r', decode r = Ok (a, r') -> r = encode a ++ r' /\ valid a.

Lemma bind_inv {A B} (p : Reader A) (k : A -> Reader B) r b r'' :
  (p ≫= k) r = Ok (b, r'') -> exists a r', p r = Ok (a, r') /\ k a r' = Ok (b, r'').
Proof. unfold mbind, reader_bind. destruct (p r) as [[a r']|e]; [eauto|done]. Qed.

Lemma read_exact_inv n r bs r' : read_exact n r = Ok (bs, r') -> r = bs ++ r' /\ length bs = n.
Proof.
  unfold read_exact. destruct (Nat.leb_spec n (length r)); [|done]. intros [= <- <-].
  rewrite take_drop, length_take. split; [done|lia].
Qed.

Lemma uint_exact n :
  ExactCodec Z (le_split n) (buf ← read_exact n; mret (le_combine buf)) (fun z => 0 <= z < 2 ^ (Z.of_nat n * 8))%Z.
Proof.
  intros r a r' H. apply bind_inv in H as (bs & r1 & [-> Hl]%read_exact_inv & [= <- <-]).
  split; [by rewrite <- Hl, split_le_combine|]. pose proof (le_combine_bound bs) as Hb. rewrite Hl in Hb.
  by rewrite (Z.mul_comm (Z.of_nat n)).
Qed.

#[export] Instance u8_exact : ExactCodec Z write_u8 read_u8 (fun z => 0 <= z < 2 ^ 8)%Z := uint_exact 1.
#[export] Instance u32_exact : ExactCodec Z write_u32 read_u32 is_u32 := uint_exact 4.
#[export] Instance u64_exact : ExactCodec Z write_u64 read_u64 is_u64 := uint_exact 8.

#[export] Instance hash_exact : ExactCodec DataHash write_hash read_hash hash_wf.
Proof.
  intros r a r' H. apply bind_inv in H as (bs & r1 & [-> Hl]%read_exact_inv & [= <- <-]).
  unfold write_hash. rewrite as_bytes_from_bytes by done. split; [done|]. by apply from_bytes_wf.
Qed.

Lemma read_n_exact `{C : ExactCodec A encode decode valid} n r l r' :
  read_n decode n r = Ok (l, r') -> r = concat (encode <$> l) ++ r' /\ length l = n /\ Forall valid l.
Proof.
  revert r l r'. induction n as [|n IH]; intros r l r' H; cbn [read_n] in H; [by injection H as <- <-|].
  apply bind_inv in H as (a & r1 & [-> Ha]%decode_exact & H). apply bind_inv in H as (l' & r2 & (-> & <- & Hl)%IH & H).
  injection H as <- <-. cbn [fmap list_fmap concat]. rewrite <- app_assoc. auto.
Qed.

(** ** Running parsers on what was written, and inverting a run *)

Lemma bind_decode `{C : FixedCodec A encode decode valid sz} {B} (k : A -> Reader B) a rest :
  valid a -> (decode ≫= k) (encode a ++ rest) = k a rest.
Proof. intros Ha. by rewrite (bind_ok _ _ _ _ _ (decode_encode a rest Ha)). Qed.

Lemma bind_decode_n `{C : FixedCodec A encode decode valid sz} {B} (k : list A -> Reader B) n l rest :
  n = length l -> Forall valid l -> (read_n decode n ≫= k) (concat (encode <$> l) ++ rest) = k l rest.
Proof. intros -> Hl. by rewrite (bind_ok _ _ _ _ _ (read_n_encode l rest Hl)). Qed.

Lemma bind_read_exact {B} (k : list byte -> Reader B) n bs rest :
  length bs = n -> (read_exact n ≫= k) (bs ++ rest) = k bs rest.
Proof. intros <-. by rewrite (bind_ok _ _ _ _ _ (read_exact_app bs rest)). Qed.

Lemma bind_ext {A B} (p : Reader A) (k k' : A -> Reader B) r :
  (forall a r', p r = Ok (a, r') -> k a r' = k' a r') -> (p ≫= k) r = (p ≫= k') r.
Proof. unfold mbind, reader_bind. destruct (p r) as [[a r']|e]; auto. Qed.

Create Rewrite HintDb xet_write.
#[export] Hint Rewrite @length_app (encode_length (encode := write_u8)) (encode_length (encode := write_u32))
  (encode_length (encode := write_hash)) (length_concat_encode (encode := write_u32))
  (length_concat_encode (encode := write_hash)) : xet_write.

Lemma seek_from_end_app f1 f2 n : length f2 = n -> seek_from_end (f1 ++ f2) n = Ok f2.
Proof.
  intros <-. unfold seek_from_end. rewrite length_app, (proj2 (Nat.leb_le _ _)) by lia.
  replace (length f1 + length f2 - length f2) with (length f1) by lia. by rewrite drop_app_length.
Qed.

(** ** Loops *)

(** A round that continues reads something. *)
Definition progresses {St B} (body : St -> Reader (St + B)) : Prop :=
  forall s r s' r', body s r = Ok (inl s', r') -> length r' < length r.

Lemma iterate_fuel {St B} (body : St -> Reader (St + B)) n m s r :
  progresses body -> length r < n -> length r < m -> iterate n body s r = iterate m body s r.
Proof.
  intros Hp. revert m s r. induction n as [|n IH]; intros m s r Hn Hm; [lia|]. destruct m as [|m]; [lia|]. cbn [iterate].
  apply bind_ext. intros [s'|b] r' E; [|done]. apply Hp in E. apply IH; lia.
Qed.

Lemma loop_unfold {St B} (body : St -> Reader (St + B)) s r :
  progresses body ->
  loop body s r = (x ← body s; match x with inl s' => loop body s' | inr b => mret b end) r.
Proof.
  intros Hp. unfold loop at 1. cbn [iterate]. apply bind_ext. intros [s'|b] r' E; [|done]. apply Hp in E.
  unfold loop. apply iterate_fuel; [done|lia|lia].
Qed.

Lemma while_some_progresses {A} (p : Reader (option A)) :
  (forall r a r', p r = Ok (Some a, r') -> length r' < length r) ->
  progresses (fun l => o ← p; mret (match o with Some a => inl (l ++ [a]) | None => inr l end)).
Proof.
  intros Hp l r l' r' H. apply bind_inv in H as (o & r1 & E & H). destruct o as [a|]; [|done]. injection H as _ <-.
  by eapply Hp.
Qed.

(** A list written item by item, each read by one round, and closed by what ends the loop. *)
Lemma loop_written {St A B} (body : St -> Reader (St + B)) (write : A -> list byte) (valid : A -> Prop) (g : St -> A -> St) (out : St -> B)
    s l bookend rest :
  progresses body ->
  (forall s a r, valid a -> body s (write a ++ r) = Ok (inl (g s a), r)) ->
  (forall s, body s (bookend ++ rest) = Ok (inr (out s), rest)) ->
  Forall valid l -> loop body s (concat (write <$> l) ++ bookend ++ rest) = Ok (out (fold_left g l s), rest).
Proof.
  intros Hp Hw Hb Hl. revert s. induction Hl as [|a l Ha Hl IH]; intros s; rewrite loop_unfold by done; cbn [fmap list_fmap concat fold_left].
  - by erewrite bind_ok by apply Hb.
  - rewrite <- app_assoc. erewrite bind_ok by by apply Hw. apply IH.
Qed.

Lemma while_some_written {A} (p : Reader (option A)) (write : A -> list byte) (valid : A -> Prop) l bookend rest :
  (forall r a r', p r = Ok (Some a, r') -> length r' < length r) ->
  (forall a r, valid a -> p (write a ++ r) = Ok (Some a, r)) -> p (bookend ++ rest) = Ok (None, rest) ->
  Forall valid l -> while_some p (concat (write <$> l) ++ bookend ++ rest) = Ok (l, rest).
Proof.
  intros Hp Hw Hb Hl. unfold while_some.
  rewrite (loop_written _ write valid (fun l a => l ++ [a]) id); [|by apply while_some_progresses| | |done].
  - unfold id. do 2 f_equal. enough (forall acc, fold_left (fun l a => l ++ [a]) l acc = acc ++ l) as H by apply H.
    clear. induction l as [|a l IH]; intros acc; cbn; [by rewrite app_nil_r|]. by rewrite IH, <- app_assoc.
  - intros s a r Ha. by erewrite bind_ok by by apply Hw.
  - intros s. by erewrite bind_ok by exact Hb.
Qed.

(** ** Parsers that read at least [n] bytes when they succeed *)

Definition consumes {A} (n : nat) (p : Reader A) : Prop := forall r a r', p r = Ok (a, r') -> n + length r' <= length r.

Lemma consumes_ret {A} (a : A) : consumes 0 (mret a).
Proof. by intros r b r' [= <- <-]. Qed.

Lemma consumes_bind {A B} n m (p : Reader A) (k : A -> Reader B) :
  consumes n p -> (forall a, consumes m (k a)) -> consumes (n + m) (p ≫= k).
Proof. intros Hp Hk r b r'' H. apply bind_inv in H as (a & r' & E1%Hp & E2%Hk). lia. Qed.

Lemma consumes_weaken {A} n m (p : Reader A) : consumes n p -> m <= n -> consumes m p.
Proof. intros Hp Hm r a r' H%Hp. lia. Qed.

Lemma consumes_codec `{C : FixedCodec A encode decode valid sz} : consumes sz decode.
Proof.
  intros r a r' H. destruct (Nat.lt_ge_cases (length r) sz) as [Hs|Hs]; [by rewrite decode_short in H|].
  destruct (decode_enough r Hs) as (a' & E & _). rewrite E in H. injection H as _ <-. rewrite length_drop. lia.
Qed.

Lemma consumes_read_n {A} (p : Reader A) n : consumes 0 p -> consumes 0 (read_n p n).
Proof.
  intros Hp. induction n as [|n IH]; cbn [read_n]; [apply consumes_ret|]. apply (consumes_bind 0 0); [done|]. intros a.
  apply (consumes_bind 0 0); [done|]. intros l. apply consumes_ret.
Qed.

Lemma consumes_skip n : consumes 0 (skip n).
Proof. intros r a r' [= <- <-]. rewrite length_drop. lia. Qed.

Lemma consumes_copy n : consumes 0 (copy_up_to n).
Proof. intros r a r' [= <- <-]. rewrite length_drop. lia. Qed.

Lemma consumes_fail {A} n e : consumes (A := A) n (fail e).
Proof. by intros r a r'. Qed.

Lemma consumes_if {A} n (b : bool) (p q : Reader A) : consumes n p -> consumes n q -> consumes n (if b then p else q).
Proof. by destruct b. Qed.

Create HintDb xet_consumes.
#[export] Hint Resolve consumes_ret consumes_read_n consumes_skip consumes_copy consumes_fail consumes_if : xet_consumes.
#[export] Hint Extern 1 (consumes 0 ?p) => (eapply consumes_weaken; [apply consumes_codec|lia]) : xet_consumes.
#[export] Hint Extern 2 (consumes 0 (_ ≫= _)) => (apply (consumes_bind 0 0); [|intros]) : xet_consumes.
#[export] Hint Extern 3 (consumes _ (match ?x with _ => _ end)) => destruct x : xet_consumes.

(** A loop whose rounds read a record first. *)
Lemma progresses_of_consumes {St B} (body : St -> Reader (St + B)) : (forall s, consumes 1 (body s)) -> progresses body.
Proof. intros H s r s' r' E%H. lia. Qed.

Lemma consumes_first {A B} n (p : Reader A) (k : A -> Reader B) : consumes n p -> (forall a, consumes 0 (k a)) -> consumes n (p ≫= k).
Proof. intros Hp Hk. rewrite <- (Nat.add_0_r n). by apply consumes_bind. Qed.
