(* ===== verification/FileStructs.v ===== *)
(** * File records of a shard

    Model of [xet_core_structures/src/metadata_shard/file_structs.rs]: the 48-byte
    records that describe how a file is rebuilt from xorbs, the variable-length
    [MDBFileInfo] made of them, and the view that reads the same bytes in place.
    Integer fields are kept at their width; [try_into().unwrap()] of an integer that does
    not fit is [None].  The capacity that a reader reserves for the number of entries in a header is
    not part of its result: on the 64-bit targets that are modelled it is below [isize::MAX], and
    memory does not run out. *)

From coqutil Require Import Byte Word.LittleEndianList.
From stdpp Require Import base numbers list.
From S2P Require Import Prelude DataHash Codec.

Definition MDB_FILE_INFO_ENTRY_SIZE : nat := 48.

Definition MDB_DEFAULT_FILE_FLAG : Z := 0.
Definition MDB_FILE_FLAG_WITH_VERIFICATION : Z := 2 ^ 31.
Definition MDB_FILE_FLAG_VERIFICATION_MASK : Z := 2 ^ 31.
Definition MDB_FILE_FLAG_WITH_METADATA_EXT : Z := 2 ^ 30.
Definition MDB_FILE_FLAG_METADATA_EXT_MASK : Z := 2 ^ 30.

(** [try_into::<u32>()] *)
Definition try_u32 (z : Z) : option Z := if ((0 <=? z) && (z <? 2 ^ 32))%Z then Some z else None.

(** ** Headers *)

Module FileDataSequenceHeader.

Record t := mk {
  file_hash : DataHash;
  file_flags : Z;
  num_entries : Z;
  _unused : Z;
}.

Definition new (file_hash : DataHash) (num_entries : Z) (contains_verification contains_metadata_ext : bool) : option t :=
  let verification_flag := if contains_verification then MDB_FILE_FLAG_WITH_VERIFICATION else 0%Z in
  let metadata_ext_flag := if contains_metadata_ext then MDB_FILE_FLAG_WITH_METADATA_EXT else 0%Z in
  let file_flags := Z.lor (Z.lor MDB_DEFAULT_FILE_FLAG verification_flag) metadata_ext_flag in
  num_entries ← try_u32 num_entries;
  Some (mk file_hash file_flags num_entries 0).

Definition bookend_hash : DataHash := mkDataHash (2 ^ 64 - 1) (2 ^ 64 - 1) (2 ^ 64 - 1) (2 ^ 64 - 1).

Definition bookend : t := mk bookend_hash 0 0 0.

Definition is_bookend (h : t) : bool := bool_decide (file_hash h = bookend_hash).

Definition serialize (h : t) : list byte :=
  in_buffer MDB_FILE_INFO_ENTRY_SIZE
    (write_hash (file_hash h) ++ write_u32 (file_flags h) ++ write_u32 (num_entries h) ++ write_u64 (_unused h)).

Definition deserialize : Reader t :=
  v ← read_exact MDB_FILE_INFO_ENTRY_SIZE;
  from_cursor v (
    file_hash ← read_hash;
    file_flags ← read_u32;
    num_entries ← read_u32;
    _unused ← read_u64;
    mret (mk file_hash file_flags num_entries _unused)).

Definition contains_metadata_ext (h : t) : bool :=
  negb (Z.land (file_flags h) MDB_FILE_FLAG_METADATA_EXT_MASK =? 0)%Z.

Definition contains_verification (h : t) : bool :=
  negb (Z.land (file_flags h) MDB_FILE_FLAG_VERIFICATION_MASK =? 0)%Z.

Definition num_info_entry_following (h : t) : Z :=
  let num_metadata_ext := if contains_metadata_ext h then 1%Z else 0%Z in
  if contains_verification h then wrap32 (wrap32 (num_entries h * 2) + num_metadata_ext)
  else wrap32 (num_entries h + num_metadata_ext).

Inductive SupersetResult := SuperA | SuperB | Neither | Equal.

Definition compare_flag_superset (header_a header_b : t) : SupersetResult :=
  let flags0 := file_flags header_a in
  let flags1 := file_flags header_b in
  if (flags0 =? flags1)%Z then Equal
  else if (Z.land flags0 flags1 =? flags1)%Z then SuperA
  else if (Z.land flags1 flags0 =? flags0)%Z then SuperB
  else Neither.

Definition valid (h : t) : Prop :=
  hash_wf (file_hash h) /\ is_u32 (file_flags h) /\ is_u32 (num_entries h) /\ is_u64 (_unused h).

End FileDataSequenceHeader.

(** ** Entries *)

Module FileDataSequenceEntry.

Record t := mk {
  xorb_hash : DataHash;
  xorb_flags : Z;
  unpacked_segment_bytes : Z;
  chunk_index_start : Z;
  chunk_index_end : Z;
}.

Definition new (xorb_hash : DataHash) (unpacked_segment_bytes chunk_index_start chunk_index_end : Z) : option t :=
  unpacked_segment_bytes ← try_u32 unpacked_segment_bytes;
  chunk_index_start ← try_u32 chunk_index_start;
  chunk_index_end ← try_u32 chunk_index_end;
  Some (mk xorb_hash MDB_DEFAULT_FILE_FLAG unpacked_segment_bytes chunk_index_start chunk_index_end).

Definition serialize (e : t) : list byte :=
  in_buffer MDB_FILE_INFO_ENTRY_SIZE
    (write_hash (xorb_hash e) ++ write_u32 (xorb_flags e) ++ write_u32 (unpacked_segment_bytes e) ++
     write_u32 (chunk_index_start e) ++ write_u32 (chunk_index_end e)).

Definition deserialize : Reader t :=
  v ← read_exact MDB_FILE_INFO_ENTRY_SIZE;
  from_cursor v (
    xorb_hash ← read_hash;
    xorb_flags ← read_u32;
    unpacked_segment_bytes ← read_u32;
    chunk_index_start ← read_u32;
    chunk_index_end ← read_u32;
    mret (mk xorb_hash xorb_flags unpacked_segment_bytes chunk_index_start chunk_index_end)).

Definition valid (e : t) : Prop :=
  hash_wf (xorb_hash e) /\ is_u32 (xorb_flags e) /\ is_u32 (unpacked_segment_bytes e) /\
  is_u32 (chunk_index_start e) /\ is_u32 (chunk_index_end e).

End FileDataSequenceEntry.

(** [FileVerificationEntry] and [FileMetadataExt] have the same shape: a hash and two unused words,
    which are written but read as zero. *)
Module FileVerificationEntry.

Record t := mk { range_hash : DataHash; _unused : list Z }.

Definition new (range_hash : DataHash) : t := mk range_hash [0; 0]%Z.

Definition serialize (e : t) : list byte :=
  in_buffer MDB_FILE_INFO_ENTRY_SIZE (write_hash (range_hash e) ++ write_u64s (_unused e)).

Definition deserialize : Reader t :=
  v ← read_exact MDB_FILE_INFO_ENTRY_SIZE;
  from_cursor v (range_hash ← read_hash; mret (new range_hash)).

Definition valid (e : t) : Prop := hash_wf (range_hash e) /\ e = new (range_hash e).

End FileVerificationEntry.

Module FileMetadataExt.

Record t := mk { sha256 : DataHash; _unused : list Z }.

Definition new (sha256 : DataHash) : t := mk sha256 [0; 0]%Z.

Definition serialize (e : t) : list byte :=
  in_buffer MDB_FILE_INFO_ENTRY_SIZE (write_hash (sha256 e) ++ write_u64s (_unused e)).

Definition deserialize : Reader t :=
  v ← read_exact MDB_FILE_INFO_ENTRY_SIZE;
  from_cursor v (sha256 ← read_hash; mret (new sha256)).

Definition valid (e : t) : Prop := hash_wf (sha256 e) /\ e = new (sha256 e).

End FileMetadataExt.

Lemma try_u32_small z : is_u32 z -> try_u32 z = Some z.
Proof.
  intros [H1 H2]. unfold try_u32. apply Z.leb_le in H1. apply Z.ltb_lt in H2. by rewrite H1, H2.
Qed.

(** ** The records are fixed-size codecs *)

#[export] Instance file_header_codec :
  FixedCodec FileDataSequenceHeader.t FileDataSequenceHeader.serialize FileDataSequenceHeader.deserialize
    FileDataSequenceHeader.valid 48.
Proof.
  apply cursor_codec. refine (iso_codec _ _ _ _
    (fun '(h, (f, (n, u))) => FileDataSequenceHeader.mk h f n u)
    (fun r => (FileDataSequenceHeader.file_hash r, (FileDataSequenceHeader.file_flags r, (FileDataSequenceHeader.num_entries r, FileDataSequenceHeader._unused r))))
    _ (pair_codec _ _ _ _ _ _ _ _ hash_codec (pair_codec _ _ _ _ _ _ _ _ u32_codec (pair_codec _ _ _ _ _ _ _ _ u32_codec u64_codec))) _ _ _).
  - by intros [].
  - by intros (?&?&?&?).
  - same_reads.
Qed.

#[export] Instance file_entry_codec :
  FixedCodec FileDataSequenceEntry.t FileDataSequenceEntry.serialize FileDataSequenceEntry.deserialize
    FileDataSequenceEntry.valid 48.
Proof.
  apply cursor_codec. refine (iso_codec _ _ _ _
    (fun '(h, (f, (u, (s, e)))) => FileDataSequenceEntry.mk h f u s e)
    (fun r => (FileDataSequenceEntry.xorb_hash r, (FileDataSequenceEntry.xorb_flags r,
       (FileDataSequenceEntry.unpacked_segment_bytes r, (FileDataSequenceEntry.chunk_index_start r, FileDataSequenceEntry.chunk_index_end r)))))
    _ (pair_codec _ _ _ _ _ _ _ _ hash_codec (pair_codec _ _ _ _ _ _ _ _ u32_codec
        (pair_codec _ _ _ _ _ _ _ _ u32_codec (pair_codec _ _ _ _ _ _ _ _ u32_codec u32_codec)))) _ _ _).
  - by intros [].
  - by intros (?&?&?&?&?).
  - same_reads.
Qed.

(** A hash followed by words that are read as zero. *)
Lemma padded_hash_codec {T} (new : DataHash -> T) (hash_of : T -> DataHash) (unused : T -> list Z) :
  (forall h, hash_of (new h) = h) -> (forall h, unused (new h) = [0; 0]%Z) ->
  FixedCodec T (fun e => in_buffer 48 (write_hash (hash_of e) ++ write_u64s (unused e)))
    (v ← read_exact 48; from_cursor v (h ← read_hash; mret (new h)))
    (fun e => hash_wf (hash_of e) /\ e = new (hash_of e)) 48.
Proof.
  intros Hh Hu. assert (Hlen : forall bs, length (in_buffer 48 bs) = 48).
  { intros bs. unfold in_buffer. rewrite length_take, length_app, length_replicate. lia. }
  split.
  - intros e. apply Hlen.
  - intros e rest [Hw He]. set (bs := in_buffer 48 _). pose proof (read_exact_app bs rest) as Hr. unfold bs in Hr at 1. rewrite Hlen in Hr.
    rewrite (bind_ok _ _ _ _ _ Hr). unfold from_cursor, bs, in_buffer.
    assert (take 48 ((write_hash (hash_of e) ++ write_u64s (unused e)) ++ replicate (48 - length (write_hash (hash_of e) ++ write_u64s (unused e))) Byte.x00)
      = write_hash (hash_of e) ++ write_u64s (unused e)) as ->.
    { apply (in_buffer_exact 48). rewrite He, Hu, length_app, encode_length. done. }
    rewrite (bind_ok _ _ _ _ _ (decode_encode _ _ Hw)). unfold mret, reader_ret. by rewrite <- He.
  - intros r Hr. rewrite (bind_ok _ _ _ _ _ (read_exact_enough 48 r Hr)). unfold from_cursor.
    destruct (decode_enough (FixedCodec := hash_codec) (take 48 r)) as (h & Eh & Hw); [rewrite length_take; lia|].
    rewrite (bind_ok _ _ _ _ _ Eh). exists (new h). by rewrite Hh.
  - intros r Hr. by apply bind_err, read_exact_short.
Qed.

#[export] Instance verification_codec :
  FixedCodec FileVerificationEntry.t FileVerificationEntry.serialize FileVerificationEntry.deserialize FileVerificationEntry.valid 48.
Proof. by apply padded_hash_codec. Qed.

#[export] Instance metadata_ext_codec :
  FixedCodec FileMetadataExt.t FileMetadataExt.serialize FileMetadataExt.deserialize FileMetadataExt.valid 48.
Proof. by apply padded_hash_codec. Qed.

(** ** The information on one file *)

Module MDBFileInfo.

Record t := mk {
  metadata : FileDataSequenceHeader.t;
  segments : list FileDataSequenceEntry.t;
  verification : list FileVerificationEntry.t;
  metadata_ext : option FileMetadataExt.t;
}.

Definition contains_verification (i : t) : bool := FileDataSequenceHeader.contains_verification (metadata i).
Definition contains_metadata_ext (i : t) : bool := FileDataSequenceHeader.contains_metadata_ext (metadata i).

Definition num_bytes (i : t) : Z :=
  (Z.of_nat MDB_FILE_INFO_ENTRY_SIZE +
   FileDataSequenceHeader.num_info_entry_following (metadata i) * Z.of_nat MDB_FILE_INFO_ENTRY_SIZE)%Z.

Definition file_size (i : t) : Z :=
  fold_left (fun a fse => wrap64 (a + FileDataSequenceEntry.unpacked_segment_bytes fse)) (segments i) 0%Z.

(** The bytes written and the count returned. *)
Definition serialize (i : t) : list byte * nat :=
  let out := FileDataSequenceHeader.serialize (metadata i) in
  let bytes_written := MDB_FILE_INFO_ENTRY_SIZE in
  let out := out ++ concat (FileDataSequenceEntry.serialize <$> segments i) in
  let bytes_written := bytes_written + length (segments i) * MDB_FILE_INFO_ENTRY_SIZE in
  let '(out, bytes_written) :=
    if contains_verification i
    then (out ++ concat (FileVerificationEntry.serialize <$> verification i),
          bytes_written + length (verification i) * MDB_FILE_INFO_ENTRY_SIZE)
    else (out, bytes_written) in
  match metadata_ext i with
  | Some e => (out ++ FileMetadataExt.serialize e, bytes_written + MDB_FILE_INFO_ENTRY_SIZE)
  | None => (out, bytes_written)
  end.

Definition deserialize : Reader (option t) :=
  metadata ← FileDataSequenceHeader.deserialize;
  if FileDataSequenceHeader.is_bookend metadata then mret None
  else
    let num_entries := Z.to_nat (FileDataSequenceHeader.num_entries metadata) in
    segments ← read_n FileDataSequenceEntry.deserialize num_entries;
    verification ←
      (if FileDataSequenceHeader.contains_verification metadata
       then read_n FileVerificationEntry.deserialize num_entries else mret []);
    metadata_ext ←
      (if FileDataSequenceHeader.contains_metadata_ext metadata
       then (e ← FileMetadataExt.deserialize; mret (Some e)) else mret None);
    mret (Some (mk metadata segments verification metadata_ext)).

Definition set_flag (h : FileDataSequenceHeader.t) (flag : Z) : FileDataSequenceHeader.t :=
  FileDataSequenceHeader.mk (FileDataSequenceHeader.file_hash h) (Z.lor (FileDataSequenceHeader.file_flags h) flag)
    (FileDataSequenceHeader.num_entries h) (FileDataSequenceHeader._unused h).

(** The two conditional statements of [merge_from]. *)
Definition merge_verification (self other : t) : t :=
  if negb (Bool.eqb (contains_verification self) (contains_verification other)) && contains_verification other
  then mk (set_flag (metadata self) MDB_FILE_FLAG_WITH_VERIFICATION) (segments self) (verification other) (metadata_ext self)
  else self.

Definition merge_metadata_ext (self other : t) : t :=
  if negb (Bool.eqb (contains_metadata_ext self) (contains_metadata_ext other)) && contains_metadata_ext other
  then mk (set_flag (metadata self) MDB_FILE_FLAG_WITH_METADATA_EXT) (segments self) (verification self) (metadata_ext other)
  else self.

Definition merge_from (self other : t) : t := merge_metadata_ext (merge_verification self other) other.

(** The lengths agree with the header, and the optional parts with its flags. *)
Definition valid (i : t) : Prop :=
  FileDataSequenceHeader.valid (metadata i) /\
  FileDataSequenceHeader.is_bookend (metadata i) = false /\
  Z.of_nat (length (segments i)) = FileDataSequenceHeader.num_entries (metadata i) /\
  Forall FileDataSequenceEntry.valid (segments i) /\
  (if contains_verification i
   then length (verification i) = length (segments i) /\ Forall FileVerificationEntry.valid (verification i)
   else verification i = []) /\
  (if contains_metadata_ext i
   then exists e, metadata_ext i = Some e /\ FileMetadataExt.valid e
   else metadata_ext i = None).

End MDBFileInfo.

(** ** Views of serialised file information *)

Module MDBFileInfoView.

Record t := mk { header : FileDataSequenceHeader.t; data : list byte }.

Definition contains_verification (v : t) : bool := FileDataSequenceHeader.contains_verification (header v).
Definition contains_metadata_ext (v : t) : bool := FileDataSequenceHeader.contains_metadata_ext (header v).
Definition num_entries (v : t) : nat := Z.to_nat (FileDataSequenceHeader.num_entries (header v)).
Definition file_hash (v : t) : DataHash := FileDataSequenceHeader.file_hash (header v).

Definition from_data_and_header (header : FileDataSequenceHeader.t) (data : list byte) : result CoreError t :=
  let n := Z.to_nat (FileDataSequenceHeader.num_entries header) in
  let n_structs := 1 + n
    + (if FileDataSequenceHeader.contains_verification header then n else 0)
    + (if FileDataSequenceHeader.contains_metadata_ext header then 1 else 0) in
  if length data <? n_structs * MDB_FILE_INFO_ENTRY_SIZE then Err (Io UnexpectedEof)
  else Ok (mk header data).

Definition new (data : list byte) : result CoreError t :=
  '(header, _) ← FileDataSequenceHeader.deserialize data;
  from_data_and_header header data.

(** A record at an offset of the data; [None] when the code panics. *)
Definition read_at {A} (p : Reader A) (offset : nat) (data : list byte) : option A :=
  if length data <? offset then None
  else match p (drop offset data) with Ok (a, _) => Some a | Err _ => None end.

Definition entry (v : t) (idx : nat) : option FileDataSequenceEntry.t :=
  read_at FileDataSequenceEntry.deserialize ((1 + idx) * MDB_FILE_INFO_ENTRY_SIZE) (data v).

Definition verification (v : t) (idx : nat) : option FileVerificationEntry.t :=
  read_at FileVerificationEntry.deserialize ((1 + num_entries v + idx) * MDB_FILE_INFO_ENTRY_SIZE) (data v).

Definition byte_size (v : t) (with_verification : bool) : nat :=
  let n := num_entries v in
  let n_structs := 1 + n
    + (if with_verification && contains_verification v then n else 0)
    + (if contains_metadata_ext v then 1 else 0) in
  n_structs * MDB_FILE_INFO_ENTRY_SIZE.

(** The bytes written and the count returned. *)
Definition serialize (v : t) (with_verification : bool) : result CoreError (list byte * nat) :=
  let have_verification := contains_verification v in
  if with_verification && negb have_verification then Err (Io OtherIoError)
  else if negb with_verification && have_verification then
    match FileDataSequenceHeader.new (file_hash v) (Z.of_nat (num_entries v)) false (contains_metadata_ext v) with
    | None => Err InternalError
    | Some header =>
        let out := FileDataSequenceHeader.serialize header in
        let num_written := MDB_FILE_INFO_ENTRY_SIZE in
        let out := out ++ (data v)⟦MDB_FILE_INFO_ENTRY_SIZE, (1 + num_entries v) * MDB_FILE_INFO_ENTRY_SIZE⟧ in
        let num_written := num_written + num_entries v * MDB_FILE_INFO_ENTRY_SIZE in
        if contains_metadata_ext v
        then Ok (out ++ drop (length (data v) - MDB_FILE_INFO_ENTRY_SIZE) (data v), num_written + MDB_FILE_INFO_ENTRY_SIZE)
        else Ok (out, num_written)
    end
  else Ok (data v, length (data v)).

Definition metadata_ext (v : t) : option FileMetadataExt.t :=
  if negb (contains_metadata_ext v) then None
  else read_at FileMetadataExt.deserialize (length (data v) - MDB_FILE_INFO_ENTRY_SIZE) (data v).

(** [MDBFileInfo::from(&view)] *)
Definition to_file_info (v : t) : option MDBFileInfo.t :=
  segments ← mapM (entry v) (seq 0 (num_entries v));
  verification ← (if contains_verification v then mapM (verification v) (seq 0 (num_entries v)) else Some []);
  metadata ← FileDataSequenceHeader.new (file_hash v) (Z.of_nat (length segments)) (contains_verification v) (contains_metadata_ext v);
  Some (MDBFileInfo.mk metadata segments verification (metadata_ext v)).

End MDBFileInfoView.

(** ** Properties *)

Section FileInfo.
  Import MDBFileInfo.

(** The bytes of a valid file information, in order. *)
Definition info_bytes (i : t) : list byte :=
    FileDataSequenceHeader.serialize (metadata i) ++
    concat (FileDataSequenceEntry.serialize <$> segments i) ++
    concat (FileVerificationEntry.serialize <$> verification i) ++
    match metadata_ext i with Some e => FileMetadataExt.serialize e | None => [] end.

Lemma serialize_bytes i : valid i -> (serialize i).1 = info_bytes i.
Proof.
  intros (_ & _ & _ & _ & Hv & He). unfold serialize, info_bytes. cbn zeta.
  destruct (contains_verification i), (metadata_ext i); cbn [fst]; rewrite ?(proj1 (conj Hv I)), <- ?app_assoc;
    cbn [fmap list_fmap concat app]; rewrite ?app_nil_r; done.
Qed.

Lemma serialize_count i : length (serialize i).1 = (serialize i).2.
Proof.
  unfold serialize. cbn zeta. assert (forall h, length (FileDataSequenceHeader.serialize h) = 48) as Hh by (intros; apply encode_length).
  assert (forall e, length (FileMetadataExt.serialize e) = 48) as He by (intros; apply encode_length).
  destruct (contains_verification i), (metadata_ext i); cbn [fst snd];
    rewrite !length_app, ?Hh, ?He, !length_concat_encode; unfold MDB_FILE_INFO_ENTRY_SIZE; lia.
Qed.

Lemma deserialize_serialize i rest : valid i -> deserialize ((serialize i).1 ++ rest) = Ok (Some i, rest).
Proof.
  intros Hval. rewrite serialize_bytes by done. destruct Hval as (Hh & Hb & Hn & Hs & Hv & He).
  unfold info_bytes, deserialize. rewrite <- !app_assoc.
  rewrite (bind_ok _ _ _ _ _ (decode_encode _ _ Hh)). rewrite Hb. cbn zeta. rewrite <- Hn, Nat2Z.id.
  rewrite (bind_ok _ _ _ _ _ (read_n_encode _ _ Hs)).
  assert (Ev : forall r, (if FileDataSequenceHeader.contains_verification (metadata i)
      then read_n FileVerificationEntry.deserialize (length (segments i)) else mret [])
      (concat (FileVerificationEntry.serialize <$> verification i) ++ r) = Ok (verification i, r)).
  { intros r. unfold contains_verification in Hv. destruct (FileDataSequenceHeader.contains_verification _).
    - destruct Hv as [<- Hv]. by apply read_n_encode.
    - by rewrite Hv. }
  assert (Ee : forall r, (if FileDataSequenceHeader.contains_metadata_ext (metadata i)
      then (e ← FileMetadataExt.deserialize; mret (Some e)) else mret None)
      (match metadata_ext i with Some e => FileMetadataExt.serialize e | None => [] end ++ r) = Ok (metadata_ext i, r)).
  { intros r. unfold contains_metadata_ext in He. destruct (FileDataSequenceHeader.contains_metadata_ext _).
    - destruct He as (e & -> & He). by rewrite (bind_ok _ _ _ _ _ (decode_encode _ _ He)).
    - by rewrite He. }
  rewrite (bind_ok _ _ _ _ _ (Ev _)), (bind_ok _ _ _ _ _ (Ee _)). by destruct i.
Qed.

(** Whatever is read back is valid, and the only error is a reader that ends early. *)
Lemma deserialize_yields : yields deserialize (fun o => match o with Some i => valid i | None => True end).
Proof.
  unfold deserialize. eapply yields_bind; [apply yields_codec|]. intros h Hh.
  destruct (FileDataSequenceHeader.is_bookend h) eqn:Hb; [by apply yields_ret|]. cbn zeta.
  eapply yields_bind; [apply yields_read_n, yields_codec|]. intros ss [Hn Hss].
  eapply yields_bind; [apply yields_if; [apply yields_read_n, yields_codec|by apply (yields_ret _ (fun vs => vs = []))]|].
  intros vs Hvs. eapply yields_bind.
  { apply yields_if; [|by apply (yields_ret _ (fun e => e = None))]. eapply yields_bind; [apply yields_codec|].
    intros e He. apply (yields_ret _ (fun e => exists e', e = Some e' /\ FileMetadataExt.valid e')). eauto. }
  intros e He. apply yields_ret. unfold valid, contains_verification, contains_metadata_ext. cbn.
  destruct Hh as (? & ? & Hu & ?). unfold is_u32 in Hu. split_and!; [done..|lia|done| |done].
  destruct (FileDataSequenceHeader.contains_verification h); [by rewrite Hn|done].
Qed.
End FileInfo.

(** C29: file information round-trips.  A valid [MDBFileInfo] (counts and optional parts as its
    header says) is read back unchanged from its bytes, whatever follows them, and the count
    returned by the writer is the number of bytes written. *)
Theorem file_info_roundtrip i rest :
  MDBFileInfo.valid i ->
  MDBFileInfo.deserialize ((MDBFileInfo.serialize i).1 ++ rest) = Ok (Some i, rest) /\
  length (MDBFileInfo.serialize i).1 = (MDBFileInfo.serialize i).2.
Proof. intros Hi. split; [by apply deserialize_serialize|apply serialize_count]. Qed.

(** The records of a file after its header, as the header announces them. *)
Definition announced (h : FileDataSequenceHeader.t) : nat :=
  let n := Z.to_nat (FileDataSequenceHeader.num_entries h) in
  n + (if FileDataSequenceHeader.contains_verification h then n else 0) + (if FileDataSequenceHeader.contains_metadata_ext h then 1 else 0).

(** Reading after a header that is not the end marker. *)
Lemma deserialize_after r h :
  FileDataSequenceHeader.deserialize r = Ok (h, drop 48 r) -> FileDataSequenceHeader.is_bookend h = false ->
  if announced h * 48 <=? length (drop 48 r) then
    exists i, MDBFileInfo.deserialize r = Ok (Some i, drop (announced h * 48) (drop 48 r)) /\ MDBFileInfo.metadata i = h
  else MDBFileInfo.deserialize r = Err (Io UnexpectedEof).
Proof.
  intros Eh Hb. unfold MDBFileInfo.deserialize, announced. rewrite (bind_ok _ _ _ _ _ Eh), Hb. cbn zeta.
  set (n := Z.to_nat (FileDataSequenceHeader.num_entries h)).
  match goal with |- context [?q (drop 48 r) = _] => assert (takes q (n * 48 + ((if FileDataSequenceHeader.contains_verification h then n * 48 else 0) +
      ((if FileDataSequenceHeader.contains_metadata_ext h then 48 + 0 else 0) + 0)))) as Ht end.
  { apply takes_bind; [apply takes_read_n, takes_codec|]. intros ss. apply takes_bind; [apply takes_if; [apply takes_read_n, takes_codec|apply takes_ret]|].
    intros vs. apply takes_bind; [|intros e; apply takes_ret]. apply takes_if; [|apply takes_ret].
    apply takes_bind; [apply takes_codec|]. intros e. apply takes_ret. }
  specialize (Ht (drop 48 r)).
  replace (n * 48 + _) with ((n + (if FileDataSequenceHeader.contains_verification h then n else 0) + (if FileDataSequenceHeader.contains_metadata_ext h then 1 else 0)) * 48) in Ht
    by (destruct (FileDataSequenceHeader.contains_verification h), (FileDataSequenceHeader.contains_metadata_ext h); lia).
  destruct (_ <=? _); [|done]. destruct Ht as [o Ho]. pose proof Ho as E. repeat (apply bind_inv in E as (? & ? & _ & E)).
  injection E as <- _. by eexists.
Qed.

(** C40: what reading file information does with arbitrary bytes.  Fewer than the 48 bytes of a header
    are the error of a reader that ends early.  After the header of the end marker there is no file.
    After any other header the records that it announces are read: when they are there, the result is a
    valid [MDBFileInfo] under that header and exactly their bytes are consumed; otherwise it is the same
    error.  The room that is reserved for the entries before they are read is at most what a vector can
    have on a target with 64-bit pointers. *)
Theorem file_info_deserialize_total r :
  if length r <? 48 then MDBFileInfo.deserialize r = Err (Io UnexpectedEof)
  else
    exists h, FileDataSequenceHeader.deserialize r = Ok (h, drop 48 r) /\ (FileDataSequenceHeader.num_entries h * 48 < 2 ^ 63)%Z /\
      if FileDataSequenceHeader.is_bookend h then MDBFileInfo.deserialize r = Ok (None, drop 48 r)
      else if (1 + announced h) * 48 <=? length r then
        exists i, MDBFileInfo.deserialize r = Ok (Some i, drop ((1 + announced h) * 48) r) /\ MDBFileInfo.metadata i = h /\ MDBFileInfo.valid i
      else MDBFileInfo.deserialize r = Err (Io UnexpectedEof).
Proof.
  destruct (Nat.ltb_spec (length r) 48) as [Hr|Hr]; [by apply bind_err, decode_short|].
  destruct (decode_enough (FixedCodec := file_header_codec) r Hr) as (h & Eh & Hv). exists h. split; [done|].
  split; [destruct Hv as (_ & _ & Hu & _); unfold is_u32 in Hu; lia|].
  destruct (FileDataSequenceHeader.is_bookend h) eqn:Hb.
  { unfold MDBFileInfo.deserialize. by rewrite (bind_ok _ _ _ _ _ Eh), Hb. }
  pose proof (deserialize_after r h Eh Hb) as Hd. rewrite length_drop in Hd.
  destruct (Nat.leb_spec ((1 + announced h) * 48) (length r)).
  - rewrite (proj2 (Nat.leb_le _ _)) in Hd by lia. destruct Hd as (i & Ei & Hi). pose proof (deserialize_yields r) as Hy. rewrite Ei in Hy.
    exists i. rewrite Ei, drop_drop. split_and!; [do 3 f_equal; lia|done|done].
  - by rewrite (proj2 (Nat.leb_gt _ _)) in Hd by lia.
Qed.

(** ** Views *)
Section Views.
  Import MDBFileInfoView.

Lemma read_at_record `{C : FixedCodec A encode decode valid sz} pre l rest idx a :
    l !! idx = Some a -> Forall valid l ->
    read_at decode (length pre + idx * sz) (pre ++ concat (encode <$> l) ++ rest) = Some a.
Proof.
  intros Hi Hv. pose proof (lookup_lt_Some _ _ _ Hi) as Hlt. unfold read_at.
  rewrite (proj2 (Nat.ltb_ge _ _)) by (rewrite !length_app, length_concat_encode; nia).
  rewrite drop_app_add. rewrite <- (take_drop_middle l idx a Hi), fmap_app, concat_app. cbn [fmap list_fmap concat].
  assert (length (concat (encode <$> take idx l)) = idx * sz) as Hl by (rewrite length_concat_encode, length_take; nia).
  rewrite <- !app_assoc, <- Hl, drop_app_length. rewrite decode_encode; [done|]. by eapply Forall_lookup_1.
Qed.

Lemma mapM_seq {A} (f : nat -> option A) l n :
    length l = n -> (forall i a, l !! i = Some a -> f i = Some a) -> mapM f (seq 0 n) = Some l.
Proof.
  intros <- Hf. apply mapM_Some. apply Forall2_same_length_lookup_2; [by rewrite length_seq|].
  intros i k a Hk Ha. apply lookup_seq in Hk as [-> ?]. by apply Hf.
Qed.

Lemma new_flags h n a b m :
    FileDataSequenceHeader.new h n a b = Some m ->
    FileDataSequenceHeader.contains_verification m = a /\ FileDataSequenceHeader.contains_metadata_ext m = b /\
    FileDataSequenceHeader.num_entries m = n /\ FileDataSequenceHeader.file_hash m = h /\
    FileDataSequenceHeader._unused m = 0%Z /\ is_u32 (FileDataSequenceHeader.file_flags m) /\ is_u32 n.
Proof.
  unfold FileDataSequenceHeader.new, try_u32, is_u32. destruct ((0 <=? n) && (n <? 2 ^ 32))%Z eqn:Hn; [|done].
  intros [= <-]. destruct a, b; split_and!; first [reflexivity|lia|vm_compute; discriminate].
Qed.

Lemma new_total h n a b : is_u32 n -> is_Some (FileDataSequenceHeader.new h n a b).
Proof.
  unfold is_u32, FileDataSequenceHeader.new, try_u32. intros Hn.
  replace ((0 <=? n) && (n <? 2 ^ 32))%Z with true by lia. cbn. eauto.
Qed.

(** The view of the bytes of a valid file information followed by [extra]. *)
Lemma new_view i extra :
    MDBFileInfo.valid i -> new (info_bytes i ++ extra) = Ok (mk (MDBFileInfo.metadata i) (info_bytes i ++ extra)).
Proof.
  intros (Hh & Hb & Hn & Hs & Hv & He). unfold new.
  assert (FileDataSequenceHeader.deserialize (info_bytes i ++ extra) =
    Ok (MDBFileInfo.metadata i, drop 48 (info_bytes i ++ extra))) as ->.
  { unfold info_bytes. rewrite <- !app_assoc. rewrite (decode_encode _ _ Hh).
    by rewrite drop_app_length' by (symmetry; apply encode_length). }
  cbn [mbind result_bind]. unfold from_data_and_header. cbn zeta. rewrite (proj2 (Nat.ltb_ge _ _)); [done|].
  unfold info_bytes. rewrite !length_app, !length_concat_encode, encode_length, <- Hn, Nat2Z.id.
  unfold MDBFileInfo.contains_verification, MDBFileInfo.contains_metadata_ext in *. unfold MDB_FILE_INFO_ENTRY_SIZE.
  assert (Lv : length (MDBFileInfo.verification i) =
    if FileDataSequenceHeader.contains_verification (MDBFileInfo.metadata i) then length (MDBFileInfo.segments i) else 0)
    by (destruct (FileDataSequenceHeader.contains_verification _); [apply Hv|by rewrite Hv]).
  assert (Le : length (match MDBFileInfo.metadata_ext i with Some e => FileMetadataExt.serialize e | None => [] end) =
    if FileDataSequenceHeader.contains_metadata_ext (MDBFileInfo.metadata i) then 48 else 0).
  { destruct (FileDataSequenceHeader.contains_metadata_ext _); [destruct He as (e & -> & _); apply encode_length|by rewrite He]. }
  rewrite Lv, Le. destruct (FileDataSequenceHeader.contains_verification _), (FileDataSequenceHeader.contains_metadata_ext _); nia.
Qed.

(** Where the records of a valid file information are. *)
Lemma view_entry i extra idx a :
    MDBFileInfo.valid i -> MDBFileInfo.segments i !! idx = Some a ->
    entry (mk (MDBFileInfo.metadata i) (info_bytes i ++ extra)) idx = Some a.
Proof.
  intros (_ & _ & _ & Hs & _) Ha. unfold entry, info_bytes. cbn [data]. rewrite <- !app_assoc.
  replace ((1 + idx) * MDB_FILE_INFO_ENTRY_SIZE) with (length (FileDataSequenceHeader.serialize (MDBFileInfo.metadata i)) + idx * 48)
    by (rewrite encode_length; unfold MDB_FILE_INFO_ENTRY_SIZE; lia).
  by apply read_at_record.
Qed.

Lemma view_verification i extra idx a :
    MDBFileInfo.valid i -> MDBFileInfo.verification i !! idx = Some a ->
    verification (mk (MDBFileInfo.metadata i) (info_bytes i ++ extra)) idx = Some a.
Proof.
  intros (_ & _ & Hn & _ & Hv & _) Ha. unfold verification, info_bytes, num_entries. cbn [data header]. rewrite <- Hn, Nat2Z.id.
  rewrite <- !app_assoc, (app_assoc (FileDataSequenceHeader.serialize _)).
  set (pre := FileDataSequenceHeader.serialize _ ++ _).
  assert (length pre = (1 + length (MDBFileInfo.segments i)) * 48) as Hp
    by (unfold pre; rewrite length_app, length_concat_encode, encode_length; lia).
  replace ((1 + length (MDBFileInfo.segments i) + idx) * MDB_FILE_INFO_ENTRY_SIZE) with (length pre + idx * 48)
    by (rewrite Hp; unfold MDB_FILE_INFO_ENTRY_SIZE; lia).
  apply read_at_record; [done|]. destruct (MDBFileInfo.contains_verification i); [apply Hv|by rewrite Hv].
Qed.

(** The metadata extension is looked for at the end of the data. *)
Lemma view_metadata_ext h pre e :
    FileMetadataExt.valid e -> FileDataSequenceHeader.contains_metadata_ext h = true ->
    metadata_ext (mk h (pre ++ FileMetadataExt.serialize e)) = Some e.
Proof.
  intros He Hc. unfold metadata_ext, contains_metadata_ext. cbn [header data]. rewrite Hc. cbn [negb].
  rewrite length_app, encode_length. unfold MDB_FILE_INFO_ENTRY_SIZE. rewrite Nat.add_sub.
  pose proof (read_at_record (C := metadata_ext_codec) pre [e] [] 0 e eq_refl ltac:(by constructor)) as H.
  cbn [fmap list_fmap concat] in H. by rewrite !app_nil_r, Nat.add_0_r in H.
Qed.

Lemma view_metadata_ext_exact i :
    MDBFileInfo.valid i -> metadata_ext (mk (MDBFileInfo.metadata i) (info_bytes i)) = MDBFileInfo.metadata_ext i.
Proof.
  intros (_ & _ & _ & _ & _ & He). unfold MDBFileInfo.contains_metadata_ext in He.
  destruct (FileDataSequenceHeader.contains_metadata_ext (MDBFileInfo.metadata i)) eqn:Hc.
  - destruct He as (e & Ee & He). unfold info_bytes. rewrite Ee, !app_assoc. by apply view_metadata_ext.
  - unfold metadata_ext, contains_metadata_ext. cbn [header]. by rewrite Hc, He.
Qed.

Lemma to_file_info_exact i m :
    MDBFileInfo.valid i ->
    FileDataSequenceHeader.new (FileDataSequenceHeader.file_hash (MDBFileInfo.metadata i))
      (FileDataSequenceHeader.num_entries (MDBFileInfo.metadata i))
      (MDBFileInfo.contains_verification i) (MDBFileInfo.contains_metadata_ext i) = Some m ->
    to_file_info (mk (MDBFileInfo.metadata i) (info_bytes i)) =
    Some (MDBFileInfo.mk m (MDBFileInfo.segments i) (MDBFileInfo.verification i) (MDBFileInfo.metadata_ext i)).
Proof.
  intros Hi Hm. set (v := mk _ _). pose proof Hi as (_ & _ & Hn & _ & Hv & _). unfold to_file_info.
  assert (num_entries v = length (MDBFileInfo.segments i)) as En by (unfold num_entries, v; cbn; lia).
  rewrite En, (mapM_seq _ (MDBFileInfo.segments i)); [|done|].
  2: { intros k a Ha. unfold v. rewrite <- (app_nil_r (info_bytes i)). by apply view_entry. }
  cbn [mbind option_bind]. change (contains_verification v) with (MDBFileInfo.contains_verification i).
  change (contains_metadata_ext v) with (MDBFileInfo.contains_metadata_ext i).
  assert ((if MDBFileInfo.contains_verification i then mapM (verification v) (seq 0 (length (MDBFileInfo.segments i))) else Some [])
    = Some (MDBFileInfo.verification i)) as ->.
  { destruct (MDBFileInfo.contains_verification i); [|by rewrite Hv]. destruct Hv as [Hl _]. apply mapM_seq; [done|].
    intros k a Ha. unfold v. rewrite <- (app_nil_r (info_bytes i)). by apply view_verification. }
  cbn [mbind option_bind]. unfold file_hash. cbn [v header]. rewrite Hn, Hm. cbn [mbind option_bind].
  unfold v. by rewrite view_metadata_ext_exact.
Qed.
End Views.

(** A view reads the same file information as the parser.  Over the bytes of a valid
    [MDBFileInfo], the view gives the same segments, verification entries and metadata extension;
    only the header is rebuilt, from the hash, the count and the two flags. *)
Theorem file_view_agrees i m :
  MDBFileInfo.valid i ->
  FileDataSequenceHeader.new (FileDataSequenceHeader.file_hash (MDBFileInfo.metadata i))
    (FileDataSequenceHeader.num_entries (MDBFileInfo.metadata i))
    (MDBFileInfo.contains_verification i) (MDBFileInfo.contains_metadata_ext i) = Some m ->
  exists v, MDBFileInfoView.new (MDBFileInfo.serialize i).1 = Ok v /\
    MDBFileInfoView.to_file_info v =
    Some (MDBFileInfo.mk m (MDBFileInfo.segments i) (MDBFileInfo.verification i) (MDBFileInfo.metadata_ext i)).
Proof.
  intros Hi Hm. rewrite serialize_bytes by done. pose proof (new_view i [] Hi) as Hv. rewrite app_nil_r in Hv.
  eexists. split; [exact Hv|]. by apply to_file_info_exact.
Qed.

(** A view over a slice that is longer than the file information is accepted, and then takes
    the metadata extension from the end of the slice instead of from the record. *)
Theorem file_view_long_slice i e :
  MDBFileInfo.valid i -> MDBFileInfo.contains_metadata_ext i = true -> FileMetadataExt.valid e ->
  exists v, MDBFileInfoView.new ((MDBFileInfo.serialize i).1 ++ FileMetadataExt.serialize e) = Ok v /\
    MDBFileInfoView.metadata_ext v = Some e.
Proof.
  intros Hi Hc He. rewrite serialize_bytes by done. eexists. split; [by apply new_view|]. by apply view_metadata_ext.
Qed.

(** ** Dropping the verification entries *)

Definition without_verification (i : MDBFileInfo.t) (m : FileDataSequenceHeader.t) : MDBFileInfo.t :=
  MDBFileInfo.mk m (MDBFileInfo.segments i) [] (MDBFileInfo.metadata_ext i).

Lemma without_verification_valid i m :
  MDBFileInfo.valid i ->
  FileDataSequenceHeader.new (FileDataSequenceHeader.file_hash (MDBFileInfo.metadata i))
    (FileDataSequenceHeader.num_entries (MDBFileInfo.metadata i)) false (MDBFileInfo.contains_metadata_ext i) = Some m ->
  MDBFileInfo.valid (without_verification i m).
Proof.
  intros (Hh & Hb & Hn & Hs & Hv & He) (Ec & Em & En & Eh & Eu & Hf & Hu)%new_flags.
  unfold MDBFileInfo.valid, without_verification, MDBFileInfo.contains_verification, MDBFileInfo.contains_metadata_ext in *.
  cbn [MDBFileInfo.metadata MDBFileInfo.segments MDBFileInfo.verification MDBFileInfo.metadata_ext]. rewrite Ec, Em.
  destruct Hh as (Hw & _ & _ & _).
  split_and!; [unfold FileDataSequenceHeader.valid; rewrite En, Eh, Eu; unfold is_u64; split_and!; [done..|lia|lia]| |lia|done|done|done].
  unfold FileDataSequenceHeader.is_bookend in *. by rewrite Eh.
Qed.

Lemma info_bytes_ext i e :
  MDBFileInfo.metadata_ext i = Some e ->
  drop (length (info_bytes i) - MDB_FILE_INFO_ENTRY_SIZE) (info_bytes i) = FileMetadataExt.serialize e.
Proof.
  intros Ee. unfold info_bytes. rewrite Ee, !app_assoc. apply drop_app_length'.
  rewrite length_app, (encode_length (FixedCodec := metadata_ext_codec)). unfold MDB_FILE_INFO_ENTRY_SIZE. lia.
Qed.

(** What a view writes without the verification entries. *)
Lemma view_strip_bytes i m :
  MDBFileInfo.valid i -> MDBFileInfo.contains_verification i = true ->
  FileDataSequenceHeader.new (FileDataSequenceHeader.file_hash (MDBFileInfo.metadata i))
    (FileDataSequenceHeader.num_entries (MDBFileInfo.metadata i)) false (MDBFileInfo.contains_metadata_ext i) = Some m ->
  let v := MDBFileInfoView.mk (MDBFileInfo.metadata i) (info_bytes i) in
  MDBFileInfoView.serialize v false = Ok (info_bytes (without_verification i m), MDBFileInfoView.byte_size v false) /\
  length (info_bytes (without_verification i m)) = MDBFileInfoView.byte_size v false.
Proof.
  intros Hi Hc Hm v. pose proof Hi as (_ & _ & Hn & _ & Hver & He). subst v.
  assert (info_bytes (without_verification i m) = FileDataSequenceHeader.serialize m ++
    (info_bytes i)⟦MDB_FILE_INFO_ENTRY_SIZE, (1 + length (MDBFileInfo.segments i)) * MDB_FILE_INFO_ENTRY_SIZE⟧ ++
    match MDBFileInfo.metadata_ext i with Some e => FileMetadataExt.serialize e | None => [] end) as Eb.
  { unfold info_bytes, MDB_FILE_INFO_ENTRY_SIZE. rewrite slice_middle; [done|apply encode_length|].
    rewrite encode_length, length_concat_encode. lia. }
  unfold MDBFileInfoView.serialize, MDBFileInfoView.byte_size, MDBFileInfoView.contains_verification,
    MDBFileInfoView.contains_metadata_ext, MDBFileInfoView.num_entries, MDBFileInfoView.file_hash. cbn [MDBFileInfoView.header MDBFileInfoView.data].
  unfold MDBFileInfo.contains_verification, MDBFileInfo.contains_metadata_ext in *. rewrite Hc. cbn [negb andb].
  rewrite <- Hn, Nat2Z.id. rewrite <- Hn in Hm. rewrite Hm.
  assert (length (info_bytes (without_verification i m)) = (1 + length (MDBFileInfo.segments i)
    + (if FileDataSequenceHeader.contains_metadata_ext (MDBFileInfo.metadata i) then 1 else 0)) * 48) as Hlen.
  { unfold info_bytes, without_verification. cbn [MDBFileInfo.metadata MDBFileInfo.segments MDBFileInfo.verification MDBFileInfo.metadata_ext].
    rewrite !length_app, !length_concat_encode, encode_length. cbn [length].
    destruct (FileDataSequenceHeader.contains_metadata_ext _); [destruct He as (e & -> & _); rewrite encode_length|rewrite He; cbn [length]]; lia. }
  rewrite Hlen. split; [|unfold MDB_FILE_INFO_ENTRY_SIZE; lia].
  rewrite Eb. destruct (FileDataSequenceHeader.contains_metadata_ext _).
  - destruct He as (e & Ee & _). rewrite Ee, (info_bytes_ext i e Ee), app_assoc. repeat f_equal. unfold MDB_FILE_INFO_ENTRY_SIZE. lia.
  - rewrite He, app_nil_r. repeat f_equal. unfold MDB_FILE_INFO_ENTRY_SIZE. lia.
Qed.

(** A view writes the file information without its verification entries as the file
    information without them: the bytes are those of the same segments and metadata extension
    under a header without the verification flag, and their number is the one returned and the
    one [byte_size] announces. *)
Theorem file_view_strip_verification i m :
  MDBFileInfo.valid i -> MDBFileInfo.contains_verification i = true ->
  FileDataSequenceHeader.new (FileDataSequenceHeader.file_hash (MDBFileInfo.metadata i))
    (FileDataSequenceHeader.num_entries (MDBFileInfo.metadata i)) false (MDBFileInfo.contains_metadata_ext i) = Some m ->
  exists v out, MDBFileInfoView.new (MDBFileInfo.serialize i).1 = Ok v /\
    MDBFileInfoView.serialize v false = Ok (out, MDBFileInfoView.byte_size v false) /\
    length out = MDBFileInfoView.byte_size v false /\
    MDBFileInfo.deserialize out = Ok (Some (without_verification i m), []).
Proof.
  intros Hi Hc Hm. pose proof (without_verification_valid i m Hi Hm) as Hw. destruct (view_strip_bytes i m Hi Hc Hm) as [H1 H2].
  rewrite serialize_bytes by done. pose proof (new_view i [] Hi) as Hv. rewrite app_nil_r in Hv.
  exists (MDBFileInfoView.mk (MDBFileInfo.metadata i) (info_bytes i)), (info_bytes (without_verification i m)).
  split_and!; [done..|]. pose proof (deserialize_serialize _ [] Hw) as Hd. by rewrite app_nil_r, serialize_bytes in Hd.
Qed.

(** ** Merging two records of the same file *)

Lemma flag_testbit f k : (0 <= k)%Z -> negb (Z.land f (2 ^ k) =? 0)%Z = Z.testbit f k.
Proof.
  intros Hk. assert (forall j, (0 <= j)%Z -> Z.testbit (2 ^ k) j = (k =? j)%Z) as Hp.
  { intros j Hj. rewrite Z.pow2_bits_eqb by done. apply Z.eqb_sym || done. }
  destruct (Z.testbit f k) eqn:E.
  - apply negb_true_iff, Z.eqb_neq. intros H. apply (f_equal (fun z => Z.testbit z k)) in H.
    rewrite Z.land_spec, E, Hp, Z.eqb_refl, Z.bits_0 in H by done. done.
  - apply negb_false_iff, Z.eqb_eq, Z.bits_inj'. intros j Hj. rewrite Z.land_spec, Hp, Z.bits_0 by done.
    destruct (Z.eqb_spec k j) as [<-|]; [by rewrite E|by rewrite andb_false_r].
Qed.

Lemma contains_verification_bit h :
  FileDataSequenceHeader.contains_verification h = Z.testbit (FileDataSequenceHeader.file_flags h) 31.
Proof. by apply flag_testbit. Qed.

Lemma contains_metadata_ext_bit h :
  FileDataSequenceHeader.contains_metadata_ext h = Z.testbit (FileDataSequenceHeader.file_flags h) 30.
Proof. by apply flag_testbit. Qed.

Lemma lor_is_u32 a b : is_u32 a -> is_u32 b -> is_u32 (Z.lor a b).
Proof.
  intros Ha Hb. assert (forall z, is_u32 z -> Z.land z (Z.ones 32) = z) as Ho.
  { intros z Hz. rewrite Z.land_ones by lia. by apply Z.mod_small. }
  rewrite <- (Ho a Ha), <- (Ho b Hb), <- Z.land_lor_distr_l, Z.land_ones by lia. unfold is_u32. apply Z.mod_pos_bound. lia.
Qed.

Lemma set_flag_valid h k : FileDataSequenceHeader.valid h -> (0 <= k < 32)%Z -> FileDataSequenceHeader.valid (MDBFileInfo.set_flag h (2 ^ k)).
Proof.
  intros (? & Hf & ? & ?) Hk. unfold MDBFileInfo.set_flag, FileDataSequenceHeader.valid. cbn. split_and!; try done.
  apply lor_is_u32; [done|]. unfold is_u32. split; [apply Z.pow_nonneg; lia|apply Z.pow_lt_mono_r; lia].
Qed.

Lemma set_flag_bit h k j :
  (0 <= k)%Z -> (0 <= j)%Z ->
  Z.testbit (FileDataSequenceHeader.file_flags (MDBFileInfo.set_flag h (2 ^ k))) j =
  Z.testbit (FileDataSequenceHeader.file_flags h) j || (k =? j)%Z.
Proof. intros. unfold MDBFileInfo.set_flag. cbn. by rewrite Z.lor_spec, Z.pow2_bits_eqb. Qed.

Section MergeSteps.
  Import MDBFileInfo.

Lemma set_flag_verification h :
    FileDataSequenceHeader.contains_verification (set_flag h MDB_FILE_FLAG_WITH_VERIFICATION) = true /\
    FileDataSequenceHeader.contains_metadata_ext (set_flag h MDB_FILE_FLAG_WITH_VERIFICATION) = FileDataSequenceHeader.contains_metadata_ext h.
Proof.
  rewrite contains_verification_bit, !contains_metadata_ext_bit. unfold MDB_FILE_FLAG_WITH_VERIFICATION.
  rewrite !set_flag_bit by lia. by rewrite orb_true_r, orb_false_r.
Qed.

Lemma set_flag_metadata_ext h :
    FileDataSequenceHeader.contains_metadata_ext (set_flag h MDB_FILE_FLAG_WITH_METADATA_EXT) = true /\
    FileDataSequenceHeader.contains_verification (set_flag h MDB_FILE_FLAG_WITH_METADATA_EXT) = FileDataSequenceHeader.contains_verification h.
Proof.
  rewrite contains_metadata_ext_bit, !contains_verification_bit. unfold MDB_FILE_FLAG_WITH_METADATA_EXT.
  rewrite !set_flag_bit by lia. by rewrite orb_true_r, orb_false_r.
Qed.

Lemma merge_verification_spec self other :
    valid self -> valid other -> length (segments self) = length (segments other) ->
    let m := merge_verification self other in
    valid m /\ segments m = segments self /\ metadata_ext m = metadata_ext self /\
    contains_metadata_ext m = contains_metadata_ext self /\
    contains_verification m = contains_verification self || contains_verification other /\
    verification m = (if contains_verification self then verification self else verification other).
Proof.
  intros Hs Ho Hl. pose proof Hs as (Hh & Hb & Hn & Hss & Hv & He). destruct Ho as (_ & _ & _ & _ & Hv' & _). cbn zeta.
  unfold merge_verification. destruct (contains_verification self) eqn:C1, (contains_verification other) eqn:C2; cbn [Bool.eqb negb andb orb];
    [by rewrite ?C1|by rewrite ?C1| |rewrite C1; split_and!; [done..|congruence]].
  destruct (set_flag_verification (metadata self)) as [F1 F2]. unfold valid, contains_verification, contains_metadata_ext in *.
  cbn [metadata segments verification metadata_ext]. rewrite F1, F2. rewrite <- Hl in Hv'.
  split_and!; try done; first [by apply set_flag_valid|apply Hv'].
Qed.

Lemma merge_metadata_ext_spec self other :
    valid self -> valid other ->
    let m := merge_metadata_ext self other in
    valid m /\ segments m = segments self /\ verification m = verification self /\
    contains_verification m = contains_verification self /\
    contains_metadata_ext m = contains_metadata_ext self || contains_metadata_ext other /\
    metadata_ext m = (if contains_metadata_ext self then metadata_ext self else metadata_ext other).
Proof.
  intros Hs Ho. pose proof Hs as (Hh & Hb & Hn & Hss & Hv & He). destruct Ho as (_ & _ & _ & _ & _ & He'). cbn zeta.
  unfold merge_metadata_ext. destruct (contains_metadata_ext self) eqn:C1, (contains_metadata_ext other) eqn:C2; cbn [Bool.eqb negb andb orb];
    [by rewrite ?C1|by rewrite ?C1| |rewrite C1; split_and!; [done..|congruence]].
  destruct (set_flag_metadata_ext (metadata self)) as [F1 F2]. unfold valid, contains_verification, contains_metadata_ext in *.
  cbn [metadata segments verification metadata_ext]. rewrite F1, F2.
  split_and!; try done; by apply set_flag_valid.
Qed.
End MergeSteps.

(** Merging the information of two shards on the same file keeps the first one and adds what
    only the second has: the result is valid, has verification entries and a metadata extension
    exactly when one of the two has them, and takes each from the first that does. *)
Theorem merge_from_correct self other :
  MDBFileInfo.valid self -> MDBFileInfo.valid other ->
  FileDataSequenceHeader.num_entries (MDBFileInfo.metadata self) = FileDataSequenceHeader.num_entries (MDBFileInfo.metadata other) ->
  let merged := MDBFileInfo.merge_from self other in
  MDBFileInfo.valid merged /\
  MDBFileInfo.segments merged = MDBFileInfo.segments self /\
  MDBFileInfo.contains_verification merged = MDBFileInfo.contains_verification self || MDBFileInfo.contains_verification other /\
  MDBFileInfo.verification merged =
    (if MDBFileInfo.contains_verification self then MDBFileInfo.verification self else MDBFileInfo.verification other) /\
  MDBFileInfo.contains_metadata_ext merged = MDBFileInfo.contains_metadata_ext self || MDBFileInfo.contains_metadata_ext other /\
  MDBFileInfo.metadata_ext merged =
    (if MDBFileInfo.contains_metadata_ext self then MDBFileInfo.metadata_ext self else MDBFileInfo.metadata_ext other).
Proof.
  intros Hs Ho Heq. cbn zeta. pose proof Hs as (_ & _ & Hn & _). pose proof Ho as (_ & _ & Hn' & _).
  destruct (merge_verification_spec self other Hs Ho ltac:(lia)) as (V1 & S1 & E1 & CE1 & CV1 & VV1).
  destruct (merge_metadata_ext_spec _ other V1 Ho) as (V2 & S2 & VV2 & CV2 & CE2 & E2). unfold MDBFileInfo.merge_from.
  rewrite S2, S1, VV2, VV1, CV2, CV1, CE2, CE1, E2, E1. rewrite CE1. done.
Qed.

(** ** Examples: a file of two segments, with and without the optional parts *)
Module FileExamples.

Definition hash_a : DataHash := mkDataHash 1 2 3 4.
Definition segment_a : FileDataSequenceEntry.t := FileDataSequenceEntry.mk hash_a 0 4096 0 3.
Definition segment_b : FileDataSequenceEntry.t := FileDataSequenceEntry.mk hash_a 0 1024 7 8.
Definition ext_a : FileMetadataExt.t := FileMetadataExt.new (mkDataHash 9 9 9 9).
Definition verification_a : list FileVerificationEntry.t := [FileVerificationEntry.new hash_a; FileVerificationEntry.new hash_a].

Definition full : MDBFileInfo.t :=
  MDBFileInfo.mk
    (FileDataSequenceHeader.mk hash_a (Z.lor MDB_FILE_FLAG_WITH_VERIFICATION MDB_FILE_FLAG_WITH_METADATA_EXT) 2 0)
    [segment_a; segment_b] verification_a (Some ext_a).
Definition bare : MDBFileInfo.t := MDBFileInfo.mk (FileDataSequenceHeader.mk hash_a 0 2 0) [segment_a; segment_b] [] None.
Definition full_stripped_header : FileDataSequenceHeader.t := FileDataSequenceHeader.mk hash_a MDB_FILE_FLAG_WITH_METADATA_EXT 2 0.

Ltac concrete_validity :=
  repeat match goal with
  | |- _ /\ _ => split
  | |- Forall _ _ => constructor
  | |- exists e, Some ?x = Some e /\ _ => exists x
  | |- _ = _ => vm_compute; reflexivity
  | |- (_ <= _)%Z => apply Z.leb_le; vm_compute; reflexivity
  | |- (_ < _)%Z => apply Z.ltb_lt; vm_compute; reflexivity
  end.

Lemma hash_a_wf : hash_wf hash_a.
Proof. unfold hash_wf, is_u64. concrete_validity. Qed.

Lemma segments_valid : Forall FileDataSequenceEntry.valid [segment_a; segment_b].
Proof. unfold FileDataSequenceEntry.valid, hash_wf, is_u64, is_u32. concrete_validity. Qed.

Lemma verification_valid : Forall FileVerificationEntry.valid verification_a.
Proof. unfold FileVerificationEntry.valid, hash_wf, is_u64. concrete_validity. Qed.

Lemma ext_valid : FileMetadataExt.valid ext_a.
Proof. unfold FileMetadataExt.valid, hash_wf, is_u64. concrete_validity. Qed.

Lemma full_valid : MDBFileInfo.valid full.
Proof.
  split_and!; [|vm_compute; reflexivity|vm_compute; reflexivity|apply segments_valid| |].
  - unfold FileDataSequenceHeader.valid, hash_wf, is_u64, is_u32. concrete_validity.
  - change (MDBFileInfo.contains_verification full) with true. split; [reflexivity|apply verification_valid].
  - change (MDBFileInfo.contains_metadata_ext full) with true. exists ext_a. split; [reflexivity|apply ext_valid].
Qed.

Lemma bare_valid : MDBFileInfo.valid bare.
Proof.
  split_and!; [|vm_compute; reflexivity|vm_compute; reflexivity|apply segments_valid| |].
  - unfold FileDataSequenceHeader.valid, hash_wf, is_u64, is_u32. concrete_validity.
  - reflexivity.
  - reflexivity.
Qed.

Lemma file_info_roundtrip_witness :
  MDBFileInfo.deserialize ((MDBFileInfo.serialize full).1 ++ [Byte.x01]) = Ok (Some full, [Byte.x01]).
Proof. apply (file_info_roundtrip full [Byte.x01] full_valid). Defined.

Lemma file_view_agrees_witness :
  exists v, MDBFileInfoView.new (MDBFileInfo.serialize full).1 = Ok v /\ MDBFileInfoView.to_file_info v = Some full.
Proof. apply (file_view_agrees full (MDBFileInfo.metadata full) full_valid). vm_compute. reflexivity. Defined.

Lemma file_view_long_slice_witness :
  exists v, MDBFileInfoView.new ((MDBFileInfo.serialize full).1 ++ FileMetadataExt.serialize ext_a) = Ok v /\
    MDBFileInfoView.metadata_ext v = Some ext_a.
Proof. apply (file_view_long_slice full ext_a full_valid); [vm_compute; reflexivity|apply ext_valid]. Defined.

Lemma file_view_strip_verification_witness :
  exists v out, MDBFileInfoView.new (MDBFileInfo.serialize full).1 = Ok v /\
    MDBFileInfoView.serialize v false = Ok (out, MDBFileInfoView.byte_size v false) /\
    length out = MDBFileInfoView.byte_size v false /\
    MDBFileInfo.deserialize out = Ok (Some (without_verification full full_stripped_header), []).
Proof. apply (file_view_strip_verification full full_stripped_header full_valid); vm_compute; reflexivity. Defined.

Lemma merge_from_correct_witness : MDBFileInfo.valid (MDBFileInfo.merge_from bare full).
Proof. apply (merge_from_correct bare full bare_valid full_valid). vm_compute. reflexivity. Defined.

End FileExamples.
