(* ===== verification/XorbStructs.v ===== *)
(** * Xorb records of a shard

    Model of [xet_core_structures/src/metadata_shard/xorb_structs.rs]: the records that
    list the chunks of a xorb, and the view that reads them in place.  The room that the code reserves
    for the number of chunks a header announces is not modelled. *)

From coqutil Require Import Byte Word.LittleEndianList.
From stdpp Require Import base numbers list.
From S2P Require Import Prelude DataHash Codec FileStructs.

Definition MDB_XORB_INFO_ENTRY_SIZE : nat := 48.
Definition MDB_DEFAULT_XORB_FLAG : Z := 0.
Definition MDB_CHUNK_WITH_GLOBAL_DEDUP_FLAG : Z := 2 ^ 31.

(** [MDB_SHARD_GLOBAL_DEDUP_CHUNK_MODULUS], a configurable constant, at its default. *)
Definition MDB_SHARD_GLOBAL_DEDUP_CHUNK_MODULUS : Z := 1024.

Definition hash_is_global_dedup_eligible (h : DataHash) : bool := (rem h MDB_SHARD_GLOBAL_DEDUP_CHUNK_MODULUS =? 0)%Z.

Module XorbChunkSequenceHeader.

Record t := mk {
  xorb_hash : DataHash;
  xorb_flags : Z;
  num_entries : Z;
  num_bytes_in_xorb : Z;
  num_bytes_on_disk : Z;
}.

Definition new (xorb_hash : DataHash) (num_entries num_bytes_in_xorb : Z) : option t :=
  num_entries ← try_u32 num_entries;
  num_bytes_in_xorb ← try_u32 num_bytes_in_xorb;
  Some (mk xorb_hash MDB_DEFAULT_XORB_FLAG num_entries num_bytes_in_xorb 0).

Definition bookend_hash : DataHash := mkDataHash (2 ^ 64 - 1) (2 ^ 64 - 1) (2 ^ 64 - 1) (2 ^ 64 - 1).

Definition bookend : t := mk bookend_hash 0 0 0 0.

Definition is_bookend (h : t) : bool := bool_decide (xorb_hash h = bookend_hash).

Definition serialize (h : t) : list byte :=
  in_buffer MDB_XORB_INFO_ENTRY_SIZE
    (write_hash (xorb_hash h) ++ write_u32 (xorb_flags h) ++ write_u32 (num_entries h) ++
     write_u32 (num_bytes_in_xorb h) ++ write_u32 (num_bytes_on_disk h)).

Definition deserialize : Reader t :=
  v ← read_exact MDB_XORB_INFO_ENTRY_SIZE;
  from_cursor v (
    xorb_hash ← read_hash;
    xorb_flags ← read_u32;
    num_entries ← read_u32;
    num_bytes_in_xorb ← read_u32;
    num_bytes_on_disk ← read_u32;
    mret (mk xorb_hash xorb_flags num_entries num_bytes_in_xorb num_bytes_on_disk)).

Definition valid (h : t) : Prop :=
  hash_wf (xorb_hash h) /\ is_u32 (xorb_flags h) /\ is_u32 (num_entries h) /\ is_u32 (num_bytes_in_xorb h) /\
  is_u32 (num_bytes_on_disk h).

End XorbChunkSequenceHeader.

Module XorbChunkSequenceEntry.

Record t := mk {
  chunk_hash : DataHash;
  chunk_byte_range_start : Z;
  unpacked_segment_bytes : Z;
  flags : Z;
  _unused : Z;
}.

Definition new (chunk_hash : DataHash) (unpacked_segment_bytes chunk_byte_range_start : Z) : option t :=
  unpacked_segment_bytes ← try_u32 unpacked_segment_bytes;
  chunk_byte_range_start ← try_u32 chunk_byte_range_start;
  Some (mk chunk_hash chunk_byte_range_start unpacked_segment_bytes 0 0).

Definition with_flags (e : t) (f : Z) : t :=
  mk (chunk_hash e) (chunk_byte_range_start e) (unpacked_segment_bytes e) f (_unused e).

(** [!flag] of a [u32] is [2^32 - 1 - flag]. *)
Definition with_global_dedup_flag (e : t) (is_global_dedup_chunk : bool) : t :=
  if is_global_dedup_chunk
  then with_flags e (Z.lor (flags e) MDB_CHUNK_WITH_GLOBAL_DEDUP_FLAG)
  else with_flags e (Z.land (flags e) (2 ^ 32 - 1 - MDB_CHUNK_WITH_GLOBAL_DEDUP_FLAG)).

Definition is_global_dedup_eligible (e : t) : bool :=
  negb (Z.land (flags e) MDB_CHUNK_WITH_GLOBAL_DEDUP_FLAG =? 0)%Z || hash_is_global_dedup_eligible (chunk_hash e).

Definition serialize (e : t) : list byte :=
  in_buffer MDB_XORB_INFO_ENTRY_SIZE
    (write_hash (chunk_hash e) ++ write_u32 (chunk_byte_range_start e) ++ write_u32 (unpacked_segment_bytes e) ++
     write_u32 (flags e) ++ write_u32 (_unused e)).

Definition deserialize : Reader t :=
  v ← read_exact MDB_XORB_INFO_ENTRY_SIZE;
  from_cursor v (
    chunk_hash ← read_hash;
    chunk_byte_range_start ← read_u32;
    unpacked_segment_bytes ← read_u32;
    flags ← read_u32;
    _unused ← read_u32;
    mret (mk chunk_hash chunk_byte_range_start unpacked_segment_bytes flags _unused)).

Definition valid (e : t) : Prop :=
  hash_wf (chunk_hash e) /\ is_u32 (chunk_byte_range_start e) /\ is_u32 (unpacked_segment_bytes e) /\ is_u32 (flags e) /\
  is_u32 (_unused e).

End XorbChunkSequenceEntry.

Module MDBXorbInfo.

Record t := mk {
  metadata : XorbChunkSequenceHeader.t;
  chunks : list XorbChunkSequenceEntry.t;
}.

Definition num_bytes (i : t) : Z :=
  Z.of_nat (MDB_XORB_INFO_ENTRY_SIZE + length (chunks i) * MDB_XORB_INFO_ENTRY_SIZE).

Definition deserialize : Reader (option t) :=
  metadata ← XorbChunkSequenceHeader.deserialize;
  if XorbChunkSequenceHeader.is_bookend metadata then mret None
  else
    chunks ← read_n XorbChunkSequenceEntry.deserialize (Z.to_nat (XorbChunkSequenceHeader.num_entries metadata));
    mret (Some (mk metadata chunks)).

(** The bytes written and the count returned. *)
Definition serialize (i : t) : list byte * nat :=
  (XorbChunkSequenceHeader.serialize (metadata i) ++ concat (XorbChunkSequenceEntry.serialize <$> chunks i),
   MDB_XORB_INFO_ENTRY_SIZE + length (chunks i) * MDB_XORB_INFO_ENTRY_SIZE).

Definition chunks_and_boundaries (i : t) : list (DataHash * Z) :=
  (fun e => (XorbChunkSequenceEntry.chunk_hash e,
             wrap32 (XorbChunkSequenceEntry.chunk_byte_range_start e + XorbChunkSequenceEntry.unpacked_segment_bytes e))) <$> chunks i.

Definition valid (i : t) : Prop :=
  XorbChunkSequenceHeader.valid (metadata i) /\
  XorbChunkSequenceHeader.is_bookend (metadata i) = false /\
  Z.of_nat (length (chunks i)) = XorbChunkSequenceHeader.num_entries (metadata i) /\
  Forall XorbChunkSequenceEntry.valid (chunks i).

End MDBXorbInfo.

Module MDBXorbInfoView.

Record t := mk { header : XorbChunkSequenceHeader.t; data : list byte }.

Definition num_entries (v : t) : nat := Z.to_nat (XorbChunkSequenceHeader.num_entries (header v)).
Definition xorb_hash (v : t) : DataHash := XorbChunkSequenceHeader.xorb_hash (header v).

Definition from_data_and_header (header : XorbChunkSequenceHeader.t) (data : list byte) : result CoreError t :=
  let n := Z.to_nat (XorbChunkSequenceHeader.num_entries header) in
  let n_bytes := MDB_XORB_INFO_ENTRY_SIZE + n * MDB_XORB_INFO_ENTRY_SIZE in
  if length data <? n_bytes then Err (Io UnexpectedEof) else Ok (mk header data).

Definition new (data : list byte) : result CoreError t :=
  '(header, _) ← XorbChunkSequenceHeader.deserialize data;
  from_data_and_header header data.

(** [None] when the code panics. *)
Definition chunk (v : t) (idx : nat) : option XorbChunkSequenceEntry.t :=
  MDBFileInfoView.read_at XorbChunkSequenceEntry.deserialize
    (MDB_XORB_INFO_ENTRY_SIZE + idx * MDB_XORB_INFO_ENTRY_SIZE) (data v).

Definition byte_size (v : t) : nat := MDB_XORB_INFO_ENTRY_SIZE + num_entries v * MDB_XORB_INFO_ENTRY_SIZE.

Definition serialize (v : t) : list byte * nat := (take (byte_size v) (data v), byte_size v).

(** The chunks are read, rewritten and written one by one; [None] when the code panics. *)
Definition serialize_with_chunk_rewrite (v : t)
    (chunk_rewrite_fn : nat -> XorbChunkSequenceEntry.t -> XorbChunkSequenceEntry.t) : option (list byte * nat) :=
  rewritten ← mapM (fun idx => chunk_rewrite_fn idx <$> chunk v idx) (seq 0 (num_entries v));
  Some (XorbChunkSequenceHeader.serialize (header v) ++ concat (XorbChunkSequenceEntry.serialize <$> rewritten),
        MDB_XORB_INFO_ENTRY_SIZE + length rewritten * MDB_XORB_INFO_ENTRY_SIZE).

(** [MDBXorbInfo::from(&view)] *)
Definition to_xorb_info (v : t) : option MDBXorbInfo.t :=
  chunks ← mapM (chunk v) (seq 0 (num_entries v));
  let total_bytes :=
    match last chunks with
    | Some c => wrap32 (XorbChunkSequenceEntry.chunk_byte_range_start c + XorbChunkSequenceEntry.unpacked_segment_bytes c)
    | None => 0%Z
    end in
  metadata ← XorbChunkSequenceHeader.new (xorb_hash v) (wrap32 (Z.of_nat (length chunks))) total_bytes;
  Some (MDBXorbInfo.mk metadata chunks).

End MDBXorbInfoView.

(** ** The records are fixed-size codecs *)

#[export] Instance xorb_header_codec :
  FixedCodec XorbChunkSequenceHeader.t XorbChunkSequenceHeader.serialize XorbChunkSequenceHeader.deserialize
    XorbChunkSequenceHeader.valid 48.
Proof.
  apply cursor_codec. refine (iso_codec _ _ _ _
    (fun '(h, (f, (n, (b, d)))) => XorbChunkSequenceHeader.mk h f n b d)
    (fun r => (XorbChunkSequenceHeader.xorb_hash r, (XorbChunkSequenceHeader.xorb_flags r,
       (XorbChunkSequenceHeader.num_entries r, (XorbChunkSequenceHeader.num_bytes_in_xorb r, XorbChunkSequenceHeader.num_bytes_on_disk r)))))
    _ (pair_codec _ _ _ _ _ _ _ _ hash_codec (pair_codec _ _ _ _ _ _ _ _ u32_codec
        (pair_codec _ _ _ _ _ _ _ _ u32_codec (pair_codec _ _ _ _ _ _ _ _ u32_codec u32_codec)))) _ _ _).
  - by intros [].
  - by intros (?&?&?&?&?).
  - same_reads.
Qed.

#[export] Instance xorb_entry_codec :
  FixedCodec XorbChunkSequenceEntry.t XorbChunkSequenceEntry.serialize XorbChunkSequenceEntry.deserialize
    XorbChunkSequenceEntry.valid 48.
Proof.
  apply cursor_codec. refine (iso_codec _ _ _ _
    (fun '(h, (s, (u, (f, n)))) => XorbChunkSequenceEntry.mk h s u f n)
    (fun r => (XorbChunkSequenceEntry.chunk_hash r, (XorbChunkSequenceEntry.chunk_byte_range_start r,
       (XorbChunkSequenceEntry.unpacked_segment_bytes r, (XorbChunkSequenceEntry.flags r, XorbChunkSequenceEntry._unused r)))))
    _ (pair_codec _ _ _ _ _ _ _ _ hash_codec (pair_codec _ _ _ _ _ _ _ _ u32_codec
        (pair_codec _ _ _ _ _ _ _ _ u32_codec (pair_codec _ _ _ _ _ _ _ _ u32_codec u32_codec)))) _ _ _).
  - by intros [].
  - by intros (?&?&?&?&?).
  - same_reads.
Qed.

(** ** Properties *)

Lemma xorb_serialize_length i : length (MDBXorbInfo.serialize i).1 = (MDBXorbInfo.serialize i).2.
Proof. unfold MDBXorbInfo.serialize. cbn [fst snd]. by rewrite length_app, length_concat_encode, encode_length. Qed.

Lemma xorb_deserialize_serialize i rest :
  MDBXorbInfo.valid i -> MDBXorbInfo.deserialize ((MDBXorbInfo.serialize i).1 ++ rest) = Ok (Some i, rest).
Proof.
  intros (Hh & Hb & Hn & Hc). unfold MDBXorbInfo.serialize, MDBXorbInfo.deserialize. cbn [fst]. rewrite <- app_assoc.
  rewrite (bind_ok _ _ _ _ _ (decode_encode _ _ Hh)), Hb, <- Hn, Nat2Z.id.
  rewrite (bind_ok _ _ _ _ _ (read_n_encode _ _ Hc)). by destruct i.
Qed.

Lemma xorb_deserialize_yields :
  yields MDBXorbInfo.deserialize (fun o => match o with Some i => MDBXorbInfo.valid i | None => True end).
Proof.
  unfold MDBXorbInfo.deserialize. eapply yields_bind; [apply yields_codec|]. intros h Hh.
  destruct (XorbChunkSequenceHeader.is_bookend h) eqn:Hb; [by apply yields_ret|].
  eapply yields_bind; [apply yields_read_n, yields_codec|]. intros cs [Hn Hcs]. apply yields_ret.
  unfold MDBXorbInfo.valid. cbn. destruct Hh as (? & ? & Hu & ?). unfold is_u32 in Hu. split_and!; [done..|lia|done].
Qed.

(** Xorb information round-trips, and reading it from arbitrary bytes fails only when they end
    early and otherwise gives the end marker or a consistent record. *)
Theorem xorb_info_roundtrip :
  (forall i rest, MDBXorbInfo.valid i ->
    MDBXorbInfo.deserialize ((MDBXorbInfo.serialize i).1 ++ rest) = Ok (Some i, rest) /\
    Z.of_nat (length (MDBXorbInfo.serialize i).1) = MDBXorbInfo.num_bytes i) /\
  (forall r, match MDBXorbInfo.deserialize r with
             | Ok (Some i, _) => MDBXorbInfo.valid i
             | Ok (None, _) => True
             | Err e => e = Io UnexpectedEof
             end).
Proof.
  split; [|apply xorb_deserialize_yields]. intros i rest Hi. split; [by apply xorb_deserialize_serialize|].
  by rewrite xorb_serialize_length.
Qed.

Section XorbViews.
  Import MDBXorbInfoView.

Lemma xorb_new_view i extra :
    MDBXorbInfo.valid i ->
    new ((MDBXorbInfo.serialize i).1 ++ extra) = Ok (mk (MDBXorbInfo.metadata i) ((MDBXorbInfo.serialize i).1 ++ extra)).
Proof.
  intros (Hh & Hb & Hn & Hc). unfold new.
  assert (XorbChunkSequenceHeader.deserialize ((MDBXorbInfo.serialize i).1 ++ extra) =
    Ok (MDBXorbInfo.metadata i, drop 48 ((MDBXorbInfo.serialize i).1 ++ extra))) as ->.
  { unfold MDBXorbInfo.serialize. cbn [fst]. rewrite <- !app_assoc. rewrite (decode_encode _ _ Hh).
    by rewrite drop_app_length' by (symmetry; apply encode_length). }
  cbn [mbind result_bind]. unfold from_data_and_header. cbn zeta. rewrite (proj2 (Nat.ltb_ge _ _)); [done|].
  rewrite length_app, xorb_serialize_length. unfold MDBXorbInfo.serialize. cbn [snd]. lia.
Qed.

Lemma xorb_view_chunk i extra idx c :
    MDBXorbInfo.valid i -> MDBXorbInfo.chunks i !! idx = Some c ->
    chunk (mk (MDBXorbInfo.metadata i) ((MDBXorbInfo.serialize i).1 ++ extra)) idx = Some c.
Proof.
  intros (_ & _ & _ & Hc) Hi. unfold chunk, MDBXorbInfo.serialize. cbn [data fst]. rewrite <- app_assoc.
  rewrite <- (encode_length (FixedCodec := xorb_header_codec) (MDBXorbInfo.metadata i)) at 1. by apply read_at_record.
Qed.

Lemma xorb_view_num_entries i d : MDBXorbInfo.valid i -> num_entries (mk (MDBXorbInfo.metadata i) d) = length (MDBXorbInfo.chunks i).
Proof. intros (_ & _ & Hn & _). unfold num_entries. cbn [header]. lia. Qed.

Lemma mapM_imap_seq {A B} (f : nat -> option A) (g : nat -> A -> B) l :
    (forall i a, l !! i = Some a -> f i = Some a) ->
    mapM (fun i => g i <$> f i) (seq 0 (length l)) = Some (imap g l).
Proof.
  intros Hf. apply mapM_seq; [by rewrite length_imap|]. intros i b Hb. rewrite list_lookup_imap in Hb.
  destruct (l !! i) as [a|] eqn:Ha; [|done]. injection Hb as <-. by rewrite (Hf i a Ha).
Qed.
End XorbViews.

(** A view of a xorb record agrees with the record, also over a longer slice: it gives the same
    chunks, it writes back exactly the bytes of the record, and when it rewrites the chunks on the
    way out the result is the record with the rewritten chunks. *)
Theorem xorb_view_agrees i extra f :
  MDBXorbInfo.valid i ->
  exists v, MDBXorbInfoView.new ((MDBXorbInfo.serialize i).1 ++ extra) = Ok v /\
    (forall idx c, MDBXorbInfo.chunks i !! idx = Some c -> MDBXorbInfoView.chunk v idx = Some c) /\
    MDBXorbInfoView.serialize v = MDBXorbInfo.serialize i /\
    MDBXorbInfoView.serialize_with_chunk_rewrite v f =
      Some (MDBXorbInfo.serialize (MDBXorbInfo.mk (MDBXorbInfo.metadata i) (imap f (MDBXorbInfo.chunks i)))).
Proof.
  intros Hi. eexists. split; [by apply xorb_new_view|]. split; [intros; by apply xorb_view_chunk|].
  unfold MDBXorbInfoView.serialize, MDBXorbInfoView.serialize_with_chunk_rewrite, MDBXorbInfoView.byte_size.
  rewrite xorb_view_num_entries by done. cbn [MDBXorbInfoView.data MDBXorbInfoView.header]. split.
  - pose proof (xorb_serialize_length i) as Hl. unfold MDBXorbInfo.serialize in *. cbn [fst snd] in *.
    f_equal. by rewrite <- Hl, take_app_length.
  - rewrite mapM_imap_seq by (intros; by apply xorb_view_chunk). done.
Qed.

(** The record a view is converted to has the chunks of the view, counted, and as its size the
    end of the last chunk; the flags and the size on disk of the original header are not kept. *)
Theorem xorb_view_to_info i :
  MDBXorbInfo.valid i ->
  exists v, MDBXorbInfoView.new (MDBXorbInfo.serialize i).1 = Ok v /\
    exists total, MDBXorbInfoView.to_xorb_info v =
      Some (MDBXorbInfo.mk
        (XorbChunkSequenceHeader.mk (XorbChunkSequenceHeader.xorb_hash (MDBXorbInfo.metadata i)) 0
           (XorbChunkSequenceHeader.num_entries (MDBXorbInfo.metadata i)) total 0) (MDBXorbInfo.chunks i)) /\
      total = from_option id 0%Z (last (snd <$> MDBXorbInfo.chunks_and_boundaries i)).
Proof.
  intros Hi. pose proof (xorb_new_view i [] Hi) as Hv. rewrite app_nil_r in Hv. eexists. split; [exact Hv|].
  eexists. split; [|reflexivity]. unfold MDBXorbInfoView.to_xorb_info. rewrite xorb_view_num_entries by done.
  rewrite (mapM_seq _ (MDBXorbInfo.chunks i)); [|done|].
  2: { intros k c Hc. pose proof (xorb_view_chunk i [] k c Hi Hc) as H. by rewrite app_nil_r in H. }
  destruct Hi as (Hh & _ & Hn & _). cbn [mbind option_bind]. rewrite Hn. destruct Hh as (_ & _ & Hu & _).
  rewrite wrap32_small by done. set (total := match last _ with Some _ => _ | None => _ end).
  assert (total = from_option id 0%Z (last (snd <$> MDBXorbInfo.chunks_and_boundaries i))) as Et.
  { unfold total, MDBXorbInfo.chunks_and_boundaries. rewrite <- list_fmap_compose, fmap_last. by destruct (last _). }
  assert (is_u32 total) as Ht.
  { unfold total, wrap32, is_u32. destruct (last _); [apply Z.mod_pos_bound|]; lia. }
  unfold XorbChunkSequenceHeader.new, try_u32. unfold is_u32 in *.
  replace ((0 <=? XorbChunkSequenceHeader.num_entries (MDBXorbInfo.metadata i)) && (XorbChunkSequenceHeader.num_entries (MDBXorbInfo.metadata i) <? 2 ^ 32))%Z
    with true by lia. replace ((0 <=? total) && (total <? 2 ^ 32))%Z with true by lia.
  cbn [mbind option_bind]. by rewrite Et.
Qed.

(** The global-dedup flag of a chunk can be set and cleared, changes no other bit, and decides
    eligibility together with the hash. *)
Theorem global_dedup_flag e b :
  is_u32 (XorbChunkSequenceEntry.flags e) ->
  let e' := XorbChunkSequenceEntry.with_global_dedup_flag e b in
  is_u32 (XorbChunkSequenceEntry.flags e') /\
  (forall k, (0 <= k)%Z -> Z.testbit (XorbChunkSequenceEntry.flags e') k =
     if (k =? 31)%Z then b else Z.testbit (XorbChunkSequenceEntry.flags e) k) /\
  XorbChunkSequenceEntry.is_global_dedup_eligible e' = b || hash_is_global_dedup_eligible (XorbChunkSequenceEntry.chunk_hash e).
Proof.
  intros Hu. cbn zeta.
  assert (forall k, (0 <= k)%Z -> Z.testbit (XorbChunkSequenceEntry.flags (XorbChunkSequenceEntry.with_global_dedup_flag e b)) k =
     if (k =? 31)%Z then b else Z.testbit (XorbChunkSequenceEntry.flags e) k) as Hbits.
  { intros k Hk. unfold XorbChunkSequenceEntry.with_global_dedup_flag, MDB_CHUNK_WITH_GLOBAL_DEDUP_FLAG.
    destruct b; cbn [XorbChunkSequenceEntry.flags XorbChunkSequenceEntry.with_flags].
    - rewrite Z.lor_spec, Z.pow2_bits_eqb, (Z.eqb_sym 31 k) by lia. by destruct (k =? 31)%Z; rewrite ?orb_true_r, ?orb_false_r.
    - change (2 ^ 32 - 1 - 2 ^ 31)%Z with (Z.ones 31). rewrite Z.land_spec, Z.testbit_ones_nonneg by lia.
      destruct (Z.eqb_spec k 31) as [->|Hne]; [by rewrite andb_false_r|].
      destruct (Z.ltb_spec k 31); [by rewrite andb_true_r|]. rewrite andb_false_r. symmetry.
      unfold is_u32 in Hu. destruct (decide (XorbChunkSequenceEntry.flags e = 0)%Z) as [->|?]; [apply Z.bits_0|].
      apply Z.bits_above_log2; [lia|]. apply Z.lt_le_trans with 32%Z; [apply Z.log2_lt_pow2|]; lia. }
  split_and!; [|done|].
  - unfold XorbChunkSequenceEntry.with_global_dedup_flag. destruct b; cbn [XorbChunkSequenceEntry.flags XorbChunkSequenceEntry.with_flags].
    + apply lor_is_u32; [done|]. unfold MDB_CHUNK_WITH_GLOBAL_DEDUP_FLAG, is_u32. lia.
    + unfold MDB_CHUNK_WITH_GLOBAL_DEDUP_FLAG. change (2 ^ 32 - 1 - 2 ^ 31)%Z with (Z.ones 31).
      rewrite Z.land_ones by lia. unfold is_u32. pose proof (Z.mod_pos_bound (XorbChunkSequenceEntry.flags e) (2 ^ 31)). lia.
  - unfold XorbChunkSequenceEntry.is_global_dedup_eligible, MDB_CHUNK_WITH_GLOBAL_DEDUP_FLAG at 1. rewrite flag_testbit, Hbits by lia.
    cbn [Z.eqb Pos.eqb]. by destruct b.
Qed.

(** ** Examples *)
Module XorbExamples.

Definition sample_entry (k : Z) : XorbChunkSequenceEntry.t := XorbChunkSequenceEntry.mk (mkDataHash k 0 0 k) (100 * k) 100 0 0.
Definition sample_xorb : MDBXorbInfo.t :=
  MDBXorbInfo.mk (XorbChunkSequenceHeader.mk (mkDataHash 5 6 7 8) 1 3 300 280) [sample_entry 0; sample_entry 1; sample_entry 2].

Lemma sample_valid : MDBXorbInfo.valid sample_xorb.
Proof.
  split_and!; [|vm_compute; reflexivity|vm_compute; reflexivity|].
  - unfold XorbChunkSequenceHeader.valid, hash_wf, is_u64, is_u32. FileExamples.concrete_validity.
  - unfold XorbChunkSequenceEntry.valid, hash_wf, is_u64, is_u32. FileExamples.concrete_validity.
Qed.

Lemma xorb_view_agrees_witness :
  exists v, MDBXorbInfoView.new ((MDBXorbInfo.serialize sample_xorb).1 ++ [Byte.x07]) = Ok v /\
    MDBXorbInfoView.serialize v = MDBXorbInfo.serialize sample_xorb.
Proof.
  destruct (xorb_view_agrees sample_xorb [Byte.x07] (fun _ e => e) sample_valid) as (v & Hv & _ & Hs & _).
  exists v. exact (conj Hv Hs).
Defined.

Lemma xorb_view_to_info_witness :
  exists v total, MDBXorbInfoView.new (MDBXorbInfo.serialize sample_xorb).1 = Ok v /\ total = 300%Z /\
    MDBXorbInfoView.to_xorb_info v =
      Some (MDBXorbInfo.mk (XorbChunkSequenceHeader.mk (mkDataHash 5 6 7 8) 0 3 total 0) (MDBXorbInfo.chunks sample_xorb)).
Proof.
  destruct (xorb_view_to_info sample_xorb sample_valid) as (v & Hv & total & Hi & Ht).
  exists v, total. exact (conj Hv (conj Ht Hi)).
Defined.

Lemma global_dedup_flag_witness :
  XorbChunkSequenceEntry.is_global_dedup_eligible (XorbChunkSequenceEntry.with_global_dedup_flag (sample_entry 1) true) = true.
Proof.
  apply (global_dedup_flag (sample_entry 1) true). unfold is_u32. FileExamples.concrete_validity.
Defined.

End XorbExamples.
