(* ===== verification/ChunkFormat.v ===== *)
(** * Chunks of a xorb on the wire

    Model of [xet_core_structures/src/xorb_object/compression_scheme.rs],
    [xorb_chunk_format.rs] and [xorb_chunk_format/deserialize_async.rs]: the compression
    schemes, the 8-byte chunk header, and the blocking and asynchronous readers of chunk
    streams.

    LZ4 is the third-party crate [lz4_flex]: the class [Compression] holds its frame encoder and
    decoder with the law that a decoder reads one frame back, all of it.  An asynchronous
    reader is read through the same [Reader] type: the code awaits every read in turn. *)

From Stdlib Require Import SpecFloat.
From coqutil Require Import Byte Word.LittleEndianList.
From stdpp Require Import base numbers list.
From S2P Require Import Prelude Floats DataHash Codec Chunking ByteGrouping Bg4Prediction.

(** ** Compression schemes *)

Inductive CompressionScheme := SchemeNone | LZ4 | ByteGrouping4LZ4 | Auto.

#[global] Instance CompressionScheme_eq_dec : EqDecision CompressionScheme.
Proof. solve_decision. Defined.

(** [scheme as u8] *)
Definition scheme_code (s : CompressionScheme) : Z :=
  match s with
  | SchemeNone => 0
  | LZ4 => 1
  | ByteGrouping4LZ4 => 2
  | Auto => 99
  end.

(** [TryFrom<u8>] *)
Definition scheme_try_from (value : Z) : result CoreError CompressionScheme :=
  if (value =? 0)%Z then Ok SchemeNone
  else if (value =? 1)%Z then Ok LZ4
  else if (value =? 2)%Z then Ok ByteGrouping4LZ4
  else if (value =? 99)%Z then Ok Auto
  else Err MalformedData.

(** The frame format of [lz4_flex] and what the choice of a scheme takes from the platform: the
    logarithm, and the alignment of the data in memory. *)
Class Compression := {
  lz4_compress : list byte -> list byte;
  lz4_read : list byte -> result CoreError (list byte * list byte);
  lz4_read_compress : forall d, lz4_read (lz4_compress d) = Ok (d, []);
  platform_ln : f64 -> f64;
  data_alignment : nat;
}.

Section Schemes.
  Context `{CP : Compression}.

(** [FrameEncoder::new(Vec::new())], [write_all], [finish]. *)
Definition lz4_compress_from_slice (data : list byte) : list byte := lz4_compress data.

(** The output written and the bytes of the reader that are left. *)
Definition lz4_decompress_from_reader : Reader (list byte) := lz4_read.

Definition lz4_decompress_from_slice (data : list byte) : result CoreError (list byte) :=
    '(dest, _) ← lz4_decompress_from_reader data; Ok dest.

Definition bg4_lz4_compress_from_slice (data : list byte) : list byte :=
    let groups := bg4_split data in lz4_compress groups.

Definition bg4_lz4_decompress_from_reader : Reader (list byte) :=
    g ← lz4_read; mret (bg4_regroup g).

Definition bg4_lz4_decompress_from_slice (data : list byte) : result CoreError (list byte) :=
    '(dest, _) ← bg4_lz4_decompress_from_reader data; Ok dest.

Definition choose_from_data (data : list byte) : CompressionScheme :=
    let bg4_predictor := add_data empty_histograms data_alignment 0 data in
    if bg4_recommended platform_ln bg4_predictor then ByteGrouping4LZ4 else LZ4.

Definition resolve_for_data (s : CompressionScheme) (data : list byte) : CompressionScheme :=
    if decide (s = Auto) then choose_from_data data else s.

(** The recursive call on [Auto] is on a scheme that is not [Auto]. *)
Definition compress_from_slice (s : CompressionScheme) (data : list byte) : list byte :=
    let s := match s with Auto => resolve_for_data s data | _ => s end in
    match s with
    | SchemeNone => data
    | LZ4 => lz4_compress_from_slice data
    | ByteGrouping4LZ4 => bg4_lz4_compress_from_slice data
    | Auto => data
    end.

Definition decompress_from_slice (s : CompressionScheme) (data : list byte) : result CoreError (list byte) :=
    match s with
    | Auto => Err MalformedData
    | SchemeNone => Ok data
    | LZ4 => lz4_decompress_from_slice data
    | ByteGrouping4LZ4 => bg4_lz4_decompress_from_slice data
    end.

(** The output; [copy] reads to the end. *)
Definition decompress_from_reader (s : CompressionScheme) : Reader (list byte) :=
    match s with
    | Auto => fail MalformedData
    | SchemeNone => fun r => Ok (r, [])
    | LZ4 => lz4_decompress_from_reader
    | ByteGrouping4LZ4 => bg4_lz4_decompress_from_reader
    end.
End Schemes.

(** ** Chunk headers *)

Definition XORB_CHUNK_HEADER_LENGTH : nat := 8.
Definition CURRENT_VERSION : Z := 0.
(** The ASCII bytes of XETBLOB. *)
Definition XORB_OBJECT_FORMAT_IDENT : list byte := byte_of <$> [0x58; 0x45; 0x54; 0x42; 0x4c; 0x4f; 0x42]%Z.

Record XorbChunkHeader := mkHeader {
  version : Z;
  compressed_length : list byte;
  compression_scheme : Z;
  uncompressed_length : list byte;
}.

(** [num.to_le_bytes()[0..3]] *)
Definition copy_three_byte_num (num : Z) : list byte := take 3 (le_split 4 num).

Definition convert_three_byte_num (buf : list byte) : Z := le_combine (buf ++ [Byte.x00]).

Definition set_compressed_length (h : XorbChunkHeader) (length : Z) : XorbChunkHeader :=
  mkHeader (version h) (copy_three_byte_num length) (compression_scheme h) (uncompressed_length h).

Definition get_compressed_length (h : XorbChunkHeader) : Z := convert_three_byte_num (compressed_length h).

Definition set_uncompressed_length (h : XorbChunkHeader) (length : Z) : XorbChunkHeader :=
  mkHeader (version h) (compressed_length h) (compression_scheme h) (copy_three_byte_num length).

Definition get_uncompressed_length (h : XorbChunkHeader) : Z := convert_three_byte_num (uncompressed_length h).

Definition get_compression_scheme (h : XorbChunkHeader) : result CoreError CompressionScheme :=
  scheme_try_from (compression_scheme h).

Definition set_compression_scheme (h : XorbChunkHeader) (s : CompressionScheme) : XorbChunkHeader :=
  mkHeader (version h) (compressed_length h) (scheme_code s) (uncompressed_length h).

Definition XorbChunkHeader_new (s : CompressionScheme) (compressed_length uncompressed_length : Z) : XorbChunkHeader :=
  let result := mkHeader CURRENT_VERSION (replicate 3 Byte.x00) 0 (replicate 3 Byte.x00) in
  let result := set_compression_scheme result s in
  let result := set_compressed_length result compressed_length in
  set_uncompressed_length result uncompressed_length.

Definition write_chunk_header (h : XorbChunkHeader) : list byte :=
  write_u8 (version h) ++ compressed_length h ++ write_u8 (compression_scheme h) ++ uncompressed_length h.

Section Format.
  Context `{CC : ChunkConstants} `{CP : Compression}.

Definition MAX_CHUNK_SIZE : Z := TARGET_CHUNK_SIZE * MAXIMUM_CHUNK_MULTIPLIER.

Definition validate (h : XorbChunkHeader) : result CoreError unit :=
    _ ← get_compression_scheme h;
    if (CURRENT_VERSION <? version h)%Z then Err MalformedData
    else if (MAX_CHUNK_SIZE * 2 <? get_compressed_length h)%Z then Err MalformedData
    else if (MAX_CHUNK_SIZE <? get_uncompressed_length h)%Z then Err MalformedData
    else Ok tt.

(** The bytes written and the size returned. *)
Definition serialize_chunk (chunk : list byte) (s : CompressionScheme) : result CoreError (list byte * nat) :=
    let s := resolve_for_data s chunk in
    if decide (s = Auto) then Err MalformedData
    else
      let compressed := compress_from_slice s chunk in
      let '(s, compressed) :=
        if length chunk <=? length compressed then (SchemeNone, chunk) else (s, compressed) in
      let header :=
        XorbChunkHeader_new s (wrap32 (Z.of_nat (length compressed))) (wrap32 (Z.of_nat (length chunk))) in
      Ok (write_chunk_header header ++ compressed, XORB_CHUNK_HEADER_LENGTH + length compressed).

(** [transmute_copy] of the 8 bytes to the packed struct. *)
Definition header_of_bytes (b : list byte) : XorbChunkHeader :=
    mkHeader (le_combine (b⟦0, 1⟧)) (b⟦1, 4⟧) (le_combine (b⟦4, 5⟧)) (b⟦5, 8⟧).

Definition parse_chunk_header (chunk_header_bytes : list byte) : result CoreError XorbChunkHeader :=
    if decide (take (length XORB_OBJECT_FORMAT_IDENT) chunk_header_bytes = XORB_OBJECT_FORMAT_IDENT)
    then Err ChunkHeaderParse
    else
      let result := header_of_bytes chunk_header_bytes in
      _ ← validate result;
      Ok result.

Definition deserialize_chunk_header : Reader XorbChunkHeader :=
    buf ← read_exact XORB_CHUNK_HEADER_LENGTH;
    lift (parse_chunk_header buf).

(** [reader.take(n)] given to [p]: what [p] leaves of the [n] bytes stays in the reader. *)
Definition with_take {A} (n : nat) (p : Reader A) : Reader A := fun r =>
    match p (take n r) with
    | Ok (a, unread) => Ok (a, unread ++ drop n r)
    | Err e => Err e
    end.

(** The output, the compressed size with the header, and the uncompressed size. *)
Definition deserialize_chunk_with_header_to_writer (header : XorbChunkHeader) : Reader (list byte * nat * Z) :=
    scheme ← lift (get_compression_scheme header);
    out ← with_take (Z.to_nat (get_compressed_length header)) (decompress_from_reader scheme);
    let uncompressed_len := Z.of_nat (length out) in
    if negb (uncompressed_len =? get_uncompressed_length header)%Z then fail MalformedData
    else mret (out, Z.to_nat (get_compressed_length header) + XORB_CHUNK_HEADER_LENGTH, wrap32 uncompressed_len).

Definition deserialize_chunk : Reader (list byte * nat * Z) :=
    header ← deserialize_chunk_header;
    deserialize_chunk_with_header_to_writer header.

(** [None] at a clean end of the stream. *)
Definition try_read_chunk_header : Reader (option XorbChunkHeader) := fun r =>
    match r with
    | [] => Ok (None, [])
    | _ => (h ← deserialize_chunk_header; mret (Some h)) r
    end.

(** [while let Some(header) = try_read_chunk_header(reader)?], with the writer's buffer. *)
Fixpoint chunks_loop (fuel : nat) (read_body : XorbChunkHeader -> Reader (list byte * nat * Z))
    (buf : list byte) (num_compressed_written : nat) (num_uncompressed_written : Z) (chunk_byte_indices : list Z)
    : Reader (list byte * nat * list Z) :=
    match fuel with
    | O => mret (buf, num_compressed_written, chunk_byte_indices)
    | S fuel' =>
        header ← try_read_chunk_header;
        match header with
        | None => mret (buf, num_compressed_written, chunk_byte_indices)
        | Some header =>
            '(out, delta_written, uncompressed_chunk_len) ← read_body header;
            let num_uncompressed_written := wrap32 (num_uncompressed_written + uncompressed_chunk_len) in
            chunks_loop fuel' read_body (buf ++ out) (num_compressed_written + delta_written)
              num_uncompressed_written (chunk_byte_indices ++ [num_uncompressed_written])
        end
    end.

(** A chunk takes at least its header, so that the loop ends within the length of the stream. *)
Definition deserialize_chunks_to_writer : Reader (list byte * nat * list Z) := fun r =>
    chunks_loop (S (length r)) deserialize_chunk_with_header_to_writer [] 0 0 [0%Z] r.

Definition deserialize_chunks : Reader (list byte * list Z) :=
    '(buf, _, chunk_byte_indices) ← deserialize_chunks_to_writer;
    mret (buf, chunk_byte_indices).

(** *** The asynchronous readers *)

Definition deserialize_chunk_with_header_async (header : XorbChunkHeader) : Reader (list byte * nat * Z) :=
    compressed_data ← read_exact (Z.to_nat (get_compressed_length header));
    scheme ← lift (get_compression_scheme header);
    uncompressed_data ← lift (decompress_from_slice scheme compressed_data);
    let uncompressed_len := Z.of_nat (length uncompressed_data) in
    if negb (uncompressed_len =? get_uncompressed_length header)%Z then fail MalformedData
    else mret (uncompressed_data, Z.to_nat (get_compressed_length header) + XORB_CHUNK_HEADER_LENGTH, wrap32 uncompressed_len).

Definition deserialize_chunks_to_writer_from_async_read : Reader (list byte * nat * list Z) := fun r =>
    chunks_loop (S (length r)) deserialize_chunk_with_header_async [] 0 0 [0%Z] r.

Definition deserialize_chunks_from_async_read : Reader (list byte * list Z) :=
    '(buf, _, chunk_byte_indices) ← deserialize_chunks_to_writer_from_async_read;
    mret (buf, chunk_byte_indices).
End Format.

(** ** Joining segments *)

Definition append_chunk_segment (all_data : list byte) (all_chunk_indices : list Z)
    (segment_data : list byte) (segment_indices : list Z) : list byte * list Z :=
  let base_offset := wrap32 (Z.of_nat (length all_data)) in
  let all_chunk_indices :=
    match all_chunk_indices with
    | [] => segment_indices
    | _ => all_chunk_indices ++ ((fun o => wrap32 (o + base_offset)) <$> drop 1 segment_indices)
    end in
  (all_data ++ segment_data, all_chunk_indices).

(** ** Round trips *)

Lemma scheme_code_roundtrip s : scheme_try_from (scheme_code s) = Ok s.
Proof. by destruct s. Qed.

Lemma convert_copy_three n : (0 <= n < 2 ^ 24)%Z -> convert_three_byte_num (copy_three_byte_num n) = n.
Proof.
  intros Hn. unfold convert_three_byte_num. change (copy_three_byte_num n) with (le_split 3 n).
  rewrite <- (le_combine_split_small 3 n) at 2 by done.
  pose proof (length_le_split 3 n) as Hl. destruct (le_split 3 n) as [|b0 [|b1 [|b2 [|]]]]; done.
Qed.

Lemma length_copy_three n : length (copy_three_byte_num n) = 3.
Proof. unfold copy_three_byte_num. by rewrite length_take, length_le_split. Qed.

Section RoundTrip.
  Context `{CC : ChunkConstants} `{CP : Compression}.
  (** Chunk sizes fit the three bytes of the header; the default maximum is 128 KiB. *)
  Hypothesis max_fits : (MAX_CHUNK_SIZE < 2 ^ 24)%Z.

Lemma choose_not_auto data : choose_from_data data <> Auto.
Proof. unfold choose_from_data. by destruct (bg4_recommended _ _). Qed.

Lemma resolve_not_auto s data : resolve_for_data s data <> Auto.
Proof. unfold resolve_for_data. case_decide; [apply choose_not_auto|done]. Qed.

Lemma decompress_compress s d :
    s <> Auto ->
    decompress_from_reader s (compress_from_slice s d) = Ok (d, []) /\
    decompress_from_slice s (compress_from_slice s d) = Ok d.
Proof.
  intros Hs. destruct s; [done| | |done]; cbn [compress_from_slice decompress_from_reader decompress_from_slice];
    unfold lz4_decompress_from_slice, bg4_lz4_decompress_from_slice, lz4_decompress_from_reader, bg4_lz4_decompress_from_reader,
      lz4_compress_from_slice, bg4_lz4_compress_from_slice.
  - by rewrite lz4_read_compress.
  - rewrite (bind_ok _ _ _ _ _ (lz4_read_compress (bg4_split d))). unfold mret, reader_ret. by rewrite bg4_regroup_split.
Qed.

Lemma serialize_chunk_spec chunk s :
    exists s' compressed,
      serialize_chunk chunk s =
        Ok (write_chunk_header (XorbChunkHeader_new s' (wrap32 (Z.of_nat (length compressed))) (wrap32 (Z.of_nat (length chunk)))) ++ compressed,
            XORB_CHUNK_HEADER_LENGTH + length compressed) /\
      s' <> Auto /\ length compressed <= length chunk /\
      decompress_from_reader s' compressed = Ok (chunk, []) /\ decompress_from_slice s' compressed = Ok chunk.
Proof.
  unfold serialize_chunk. pose proof (resolve_not_auto s chunk) as Hr. set (s1 := resolve_for_data s chunk) in *.
  case_decide as Ha; [done|]. clear Ha. destruct (decompress_compress s1 chunk Hr) as [D1 D2].
  destruct (Nat.leb_spec (length chunk) (length (compress_from_slice s1 chunk))).
  - exists SchemeNone, chunk. by split_and!.
  - exists s1, (compress_from_slice s1 chunk). by split_and!; [..|lia| |].
Qed.

(** The header that is written is the one that is read. *)
Lemma header_roundtrip s c u rest :
    s <> Auto -> (0 <= c <= MAX_CHUNK_SIZE)%Z -> (0 <= u <= MAX_CHUNK_SIZE)%Z ->
    let h := XorbChunkHeader_new s c u in
    try_read_chunk_header (write_chunk_header h ++ rest) = Ok (Some h, rest) /\
    deserialize_chunk_header (write_chunk_header h ++ rest) = Ok (h, rest) /\
    get_compression_scheme h = Ok s /\ get_compressed_length h = c /\ get_uncompressed_length h = u /\
    length (write_chunk_header h) = 8.
Proof.
  intros Hs Hc Hu h. assert (get_compression_scheme h = Ok s) as Es by apply scheme_code_roundtrip.
  assert (get_compressed_length h = c) as Ec by (apply convert_copy_three; lia).
  assert (get_uncompressed_length h = u) as Eu by (apply convert_copy_three; lia).
  assert (write_chunk_header h = write_u8 0 ++ copy_three_byte_num c ++ write_u8 (scheme_code s) ++ copy_three_byte_num u) as Eh by done.
  assert (length (write_chunk_header h) = 8) as Hl by (by rewrite Eh, !length_app, !length_copy_three).
  assert (parse_chunk_header (write_chunk_header h) = Ok h) as Hp.
  { unfold parse_chunk_header. assert (header_of_bytes (write_chunk_header h) = h) as ->.
    { rewrite Eh. unfold header_of_bytes, h, XorbChunkHeader_new, set_uncompressed_length, set_compressed_length, set_compression_scheme.
      cbn [version compressed_length compression_scheme uncompressed_length]. pose proof (length_copy_three c). pose proof (length_copy_three u).
      destruct (copy_three_byte_num c) as [|c0 [|c1 [|c2 [|]]]]; try done. destruct (copy_three_byte_num u) as [|u0 [|u1 [|u2 [|]]]]; try done.
      by destruct s. }
    rewrite decide_False by done. unfold validate. rewrite Es, Ec, Eu. cbn [mbind result_bind].
    rewrite !(proj2 (Z.ltb_ge _ _)) by (cbn; lia). done. }
  assert (deserialize_chunk_header (write_chunk_header h ++ rest) = Ok (h, rest)) as Hd.
  { unfold deserialize_chunk_header. pose proof (read_exact_app (write_chunk_header h) rest) as Hr. rewrite Hl in Hr.
    rewrite (bind_ok _ _ _ _ _ Hr). unfold lift. by rewrite Hp. }
  split_and!; [|done..]. unfold try_read_chunk_header. destruct (write_chunk_header h ++ rest) as [|b r] eqn:E.
  { apply (f_equal length) in E. rewrite length_app, Hl in E. done. }
  by rewrite (bind_ok _ _ _ _ _ Hd).
Qed.

Lemma with_take_all {A} n (p : Reader A) bs rest a :
    length bs = n -> p bs = Ok (a, []) -> with_take n p (bs ++ rest) = Ok (a, rest).
Proof. intros <- Hp. unfold with_take. by rewrite take_app_length, Hp, drop_app_length. Qed.

(** One serialised chunk, read by either reader. *)
Lemma read_serialized_chunk chunk s bytes n rest :
    (Z.of_nat (length chunk) <= MAX_CHUNK_SIZE)%Z -> serialize_chunk chunk s = Ok (bytes, n) ->
    length bytes = n /\ 8 <= n /\
    exists header body,
      try_read_chunk_header (bytes ++ rest) = Ok (Some header, body) /\
      deserialize_chunk_header (bytes ++ rest) = Ok (header, body) /\
      deserialize_chunk_with_header_to_writer header body = Ok (chunk, n, Z.of_nat (length chunk), rest) /\
      deserialize_chunk_with_header_async header body = Ok (chunk, n, Z.of_nat (length chunk), rest).
Proof.
  intros Hlen Hser. destruct (serialize_chunk_spec chunk s) as (s' & comp & E & Hs & Hc & D1 & D2).
  rewrite E in Hser. rewrite !wrap32_small in Hser by (unfold is_u32; lia).
  destruct (header_roundtrip s' (Z.of_nat (length comp)) (Z.of_nat (length chunk)) (comp ++ rest)) as (R1 & R2 & Es & Ec & Eu & Hl); [done|lia|lia|].
  set (h := XorbChunkHeader_new _ _ _) in *.
  assert (bytes = write_chunk_header h ++ comp) as -> by congruence.
  assert (n = XORB_CHUNK_HEADER_LENGTH + length comp) as -> by congruence. clear Hser.
  split; [rewrite length_app, Hl; done|]. split; [unfold XORB_CHUNK_HEADER_LENGTH; lia|].
  exists h, (comp ++ rest). rewrite <- app_assoc. split_and!; [done|done| |].
  - unfold deserialize_chunk_with_header_to_writer. rewrite (bind_ok (lift _) _ _ s' (comp ++ rest)) by (unfold lift; by rewrite Es).
    rewrite Ec, Eu, Nat2Z.id. rewrite (bind_ok _ _ _ _ _ (with_take_all _ _ comp rest chunk eq_refl D1)).
    cbn zeta. rewrite Z.eqb_refl. cbn [negb]. rewrite wrap32_small by (unfold is_u32; lia). by rewrite Nat.add_comm.
  - unfold deserialize_chunk_with_header_async. rewrite Ec, Eu, Nat2Z.id. rewrite (bind_ok _ _ _ _ _ (read_exact_app comp rest)).
    rewrite (bind_ok (lift _) _ _ s' rest) by (unfold lift; by rewrite Es).
    rewrite (bind_ok (lift _) _ _ chunk rest) by (unfold lift; by rewrite D2).
    cbn zeta. rewrite Z.eqb_refl. cbn [negb]. rewrite wrap32_small by (unfold is_u32; lia). by rewrite Nat.add_comm.
Qed.

(** *** Streams of chunks *)

Definition serialized (chunk bytes : list byte) : Prop :=
    (Z.of_nat (length chunk) <= MAX_CHUNK_SIZE)%Z /\ exists s n, serialize_chunk chunk s = Ok (bytes, n).

(** The ends of chunks that start at byte [pos], as [u32]. *)
Fixpoint byte_indices (pos : Z) (chunks : list (list byte)) : list Z :=
    match chunks with
    | [] => []
    | c :: chunks' => let pos := wrap32 (pos + Z.of_nat (length c)) in pos :: byte_indices pos chunks'
    end.

Lemma chunks_loop_spec body fuel chunks bss buf nc nu idx :
    body = deserialize_chunk_with_header_to_writer \/ body = deserialize_chunk_with_header_async ->
    Forall2 serialized chunks bss -> length chunks < fuel ->
    chunks_loop fuel body buf nc nu idx (concat bss) =
    Ok (buf ++ concat chunks, nc + length (concat bss), idx ++ byte_indices nu chunks, []).
Proof.
  intros Hbody Hss. revert fuel buf nc nu idx. induction Hss as [|chunk bytes chunks bss (Hlen & s & n & Hs) Hss IH];
    intros fuel buf nc nu idx Hf; (destruct fuel as [|fuel]; [cbn [length] in Hf; lia|]); cbn [chunks_loop concat byte_indices].
  - cbn. by rewrite !app_nil_r, Nat.add_0_r.
  - destruct (read_serialized_chunk chunk s bytes n (concat bss) Hlen Hs) as (Hn & _ & h & b & R1 & _ & R2 & R3).
    rewrite (bind_ok _ _ _ _ _ R1).
    assert (body h b = Ok (chunk, n, Z.of_nat (length chunk), concat bss)) as Hb by (by destruct Hbody as [-> | ->]).
    rewrite (bind_ok _ _ _ _ _ Hb). cbn zeta. rewrite IH by (cbn [length] in Hf; lia).
    rewrite <- !app_assoc, length_app, Hn. do 3 f_equal. f_equal. lia.
Qed.

Lemma serialized_length chunks bss : Forall2 serialized chunks bss -> length chunks <= length (concat bss).
Proof.
  induction 1 as [|chunk bytes chunks bss (Hlen & s & n & Hs) Hss IH]; [done|].
  destruct (read_serialized_chunk chunk s bytes n [] Hlen Hs) as (Hn & H8 & _). cbn [concat length]. rewrite length_app. lia.
Qed.

Lemma deserialize_stream chunks bss :
    Forall2 serialized chunks bss ->
    deserialize_chunks_to_writer (concat bss) = Ok (concat chunks, length (concat bss), 0%Z :: byte_indices 0 chunks, []) /\
    deserialize_chunks_to_writer_from_async_read (concat bss) = Ok (concat chunks, length (concat bss), 0%Z :: byte_indices 0 chunks, []).
Proof.
  intros Hss. pose proof (serialized_length _ _ Hss).
  unfold deserialize_chunks_to_writer, deserialize_chunks_to_writer_from_async_read.
  split; rewrite (chunks_loop_spec _ _ chunks) by (auto; lia); done.
Qed.

Lemma byte_indices_shift p q chunks :
    (fun o => wrap32 (o + q)) <$> byte_indices p chunks = byte_indices (wrap32 (p + q)) chunks.
Proof.
  revert p. induction chunks as [|c chunks IH]; intros p; [done|]. cbn [byte_indices fmap list_fmap]. rewrite IH.
  assert (wrap32 (wrap32 (p + Z.of_nat (length c)) + q) = wrap32 (wrap32 (p + q) + Z.of_nat (length c))) as ->; [|done].
  unfold wrap32. rewrite !Zplus_mod_idemp_l. f_equal. lia.
Qed.

Lemma byte_indices_app p cs1 cs2 :
    byte_indices p (cs1 ++ cs2) = byte_indices p cs1 ++
      match cs1 with [] => byte_indices p cs2 | _ => byte_indices (wrap32 (p + Z.of_nat (length (concat cs1)))) cs2 end.
Proof.
  revert p. induction cs1 as [|c cs1 IH]; intros p; [done|]. cbn [app byte_indices]. rewrite IH. f_equal. f_equal.
  destruct cs1 as [|c' cs1]; [cbn [concat]; by rewrite app_nil_r|].
  cbn [concat]. rewrite !length_app. f_equal. unfold wrap32. rewrite Zplus_mod_idemp_l. f_equal. lia.
Qed.

(** C28: a chunk round-trips through its serialised form.  Serialising a chunk of at most the maximum
    size succeeds with every scheme, [Auto] included, takes at most eight bytes more than the chunk
    and returns the number of bytes written; reading it back gives the chunk, that number and the
    length of the chunk, and leaves what follows. *)
Theorem chunk_roundtrip chunk s rest :
    (Z.of_nat (length chunk) <= MAX_CHUNK_SIZE)%Z ->
    exists bytes n, serialize_chunk chunk s = Ok (bytes, n) /\ length bytes = n /\ n <= 8 + length chunk /\
      deserialize_chunk (bytes ++ rest) = Ok (chunk, n, Z.of_nat (length chunk), rest).
Proof.
  intros Hlen. destruct (serialize_chunk_spec chunk s) as (s' & comp & E & _ & Hc & _). eexists _, _. split; [exact E|].
  destruct (read_serialized_chunk chunk s _ _ rest Hlen E) as (Hn & _ & h & b & _ & R1 & R2 & _).
  split_and!; [done|unfold XORB_CHUNK_HEADER_LENGTH; lia|]. unfold deserialize_chunk. by rewrite (bind_ok _ _ _ _ _ R1).
Qed.

(** The blocking and the asynchronous reader decode a stream of serialised chunks to the same
    result: the chunks one after the other, the number of bytes read, and the byte positions where
    the chunks end, from a leading zero. *)
Theorem chunk_stream_roundtrip chunks bss :
    Forall2 serialized chunks bss ->
    deserialize_chunks_to_writer (concat bss) = Ok (concat chunks, length (concat bss), 0%Z :: byte_indices 0 chunks, []) /\
    deserialize_chunks_to_writer_from_async_read (concat bss) = deserialize_chunks_to_writer (concat bss).
Proof. intros Hss. destruct (deserialize_stream chunks bss Hss) as [-> ->]. done. Qed.

(** Decoding a stream in segments and joining them is decoding it at once: the data and the
    chunk positions that [append_chunk_segment] builds from two consecutive segments are those of
    the whole stream. *)
Theorem append_segments cs1 bs1 cs2 bs2 d1 i1 d2 i2 :
    Forall2 serialized cs1 bs1 -> Forall2 serialized cs2 bs2 ->
    deserialize_chunks (concat bs1) = Ok (d1, i1, []) -> deserialize_chunks (concat bs2) = Ok (d2, i2, []) ->
    deserialize_chunks (concat (bs1 ++ bs2)) = Ok (append_chunk_segment d1 i1 d2 i2, []).
Proof.
  intros H1 H2. unfold deserialize_chunks. destruct (deserialize_stream _ _ H1) as [E1 _]. destruct (deserialize_stream _ _ H2) as [E2 _].
  assert (Forall2 serialized (cs1 ++ cs2) (bs1 ++ bs2)) as H3 by (by apply Forall2_app).
  destruct (deserialize_stream _ _ H3) as [E3 _].
  rewrite (bind_ok _ _ _ _ _ E1), (bind_ok _ _ _ _ _ E2), (bind_ok _ _ _ _ _ E3). unfold mret, reader_ret. intros [= <- <-] [= <- <-].
  unfold append_chunk_segment. cbn zeta. cbn [drop]. rewrite concat_app, byte_indices_app, drop_0, byte_indices_shift. cbn [app]. rewrite !Z.add_0_l.
  destruct cs1 as [|c1 cs1]; [done|]. assert (forall z, wrap32 (wrap32 z) = wrap32 z) as -> by (intros; apply Zmod_mod). done.
Qed.
End RoundTrip.

(** ** Examples: a frame format that shortens runs of one byte *)
Module FormatExamples.

Definition run_compress (d : list byte) : list byte :=
  match d with
  | b :: _ =>
      if decide (d = repeat b (length d) /\ (Z.of_nat (length d) < 2 ^ 32)%Z)
      then Byte.x01 :: b :: le_split 4 (Z.of_nat (length d))
      else Byte.x00 :: d
  | [] => [Byte.x00]
  end.

Definition run_read (r : list byte) : result CoreError (list byte * list byte) :=
  match r with
  | Byte.x01 :: b :: r' => Ok (repeat b (Z.to_nat (le_combine (take 4 r'))), drop 4 r')
  | Byte.x00 :: d => Ok (d, [])
  | _ => Err CompressionError
  end.

Lemma run_read_compress d : run_read (run_compress d) = Ok (d, []).
Proof.
  unfold run_compress. destruct d as [|b d]; [done|]. case_decide as H; [|done]. destruct H as [H Hl].
  unfold run_read. rewrite take_ge, drop_ge by (rewrite length_le_split; lia).
  rewrite le_combine_split_small by lia. rewrite Nat2Z.id. by rewrite <- H.
Qed.

#[local] Instance run_compression : Compression :=
  {| lz4_compress := run_compress; lz4_read := run_read; lz4_read_compress := run_read_compress;
     platform_ln := id; data_alignment := 0 |}.

#[local, refine] Instance format_constants : ChunkConstants :=
  {| TARGET_CHUNK_SIZE := 128; MINIMUM_CHUNK_DIVISOR := 1; MAXIMUM_CHUNK_MULTIPLIER := 4 |}.
Proof. all: lia. Defined.

Lemma max_fits : (MAX_CHUNK_SIZE < 2 ^ 24)%Z.
Proof. apply Z.ltb_lt. vm_compute. reflexivity. Qed.

Definition run_of (b : byte) (n : nat) : list byte := repeat b n.
Definition run_bytes (b : byte) (n : nat) : list byte :=
  match serialize_chunk (run_of b n) LZ4 with Ok (bytes, _) => bytes | Err _ => [] end.

Lemma run_serialized b : b = Byte.x07 \/ b = Byte.x09 -> serialized (run_of b 40) (run_bytes b 40).
Proof.
  intros [-> | ->]; (split; [apply Z.leb_le; vm_compute; reflexivity|]); exists LZ4, 14; vm_compute; reflexivity.
Qed.

Lemma chunk_roundtrip_witness :
  exists bytes n, serialize_chunk (run_of Byte.x07 40) LZ4 = Ok (bytes, n) /\ length bytes = n /\ n <= 48 /\
    deserialize_chunk (bytes ++ [Byte.x01]) = Ok (run_of Byte.x07 40, n, 40%Z, [Byte.x01]).
Proof. apply (chunk_roundtrip max_fits (run_of Byte.x07 40) LZ4 [Byte.x01]). apply Z.leb_le. vm_compute. reflexivity. Defined.

Definition two_chunks : list (list byte) := [run_of Byte.x07 40; run_of Byte.x09 40].
Definition two_serialized : list (list byte) := [run_bytes Byte.x07 40; run_bytes Byte.x09 40].

Lemma two_chunks_serialized : Forall2 serialized two_chunks two_serialized.
Proof. repeat constructor; apply run_serialized; auto. Qed.

Lemma chunk_stream_roundtrip_witness :
  deserialize_chunks_to_writer (concat two_serialized) =
    Ok (concat two_chunks, length (concat two_serialized), 0%Z :: byte_indices 0 two_chunks, []).
Proof. exact (proj1 (chunk_stream_roundtrip max_fits two_chunks two_serialized two_chunks_serialized)). Defined.

Lemma append_segments_witness :
  deserialize_chunks (concat (two_serialized ++ two_serialized)) =
    Ok (append_chunk_segment (concat two_chunks) [0; 40; 80]%Z (concat two_chunks) [0; 40; 80]%Z, []).
Proof.
  apply (append_segments max_fits two_chunks two_serialized two_chunks two_serialized);
    [exact two_chunks_serialized|exact two_chunks_serialized|vm_compute; reflexivity|vm_compute; reflexivity].
Defined.

End FormatExamples.
