(* ===== verification/RawXorb.v ===== *)
(** * Xorbs built from chunks

    Model of [xet_core_structures/src/xorb_object/raw_xorb_data.rs] and
    [metadata_shard/chunk_verification.rs]: a xorb made of chunks in memory, and the hash that
    vouches for the chunks of a file segment. *)

From coqutil Require Import Byte Word.LittleEndianList.
From stdpp Require Import base numbers list.
From S2P Require Import Prelude DataHash AggregatedHash Chunking FileStructs XorbStructs.

(** The configurable limits of a xorb; both defaults are far below the 32-bit fields that hold
    them. *)
Class XorbConstants := {
  MAX_XORB_BYTES : nat;
  MAX_XORB_CHUNKS : nat;
  MAX_XORB_BYTES_u32 : (Z.of_nat MAX_XORB_BYTES < 2 ^ 32)%Z;
  MAX_XORB_CHUNKS_u32 : 0 < MAX_XORB_CHUNKS /\ (Z.of_nat MAX_XORB_CHUNKS < 2 ^ 32)%Z;
}.

(** The hash and the length of a chunk, the pair that the Merkle functions take. *)
Definition chunk_node (c : Chunk) : Node := (chunk_hash c, Z.of_nat (length (chunk_data c))).

Definition VERIFICATION_KEY : list byte :=
  byte_of <$> [127; 24; 87; 214; 206; 86; 237; 102; 18; 127; 249; 19; 231; 165; 195; 243; 164; 205; 38; 213; 181; 219; 73; 230;
    65; 36; 152; 127; 40; 251; 148; 195]%Z.

Module RawXorbData.

Record t := mk {
  data : list (list byte);
  xorb_info : MDBXorbInfo.t;
  file_boundaries : list nat;
}.

(** [for c in chunks], from byte [pos]: the entries, the data and the final position. *)
Fixpoint from_chunks_loop (chunks : list Chunk) (pos : nat) : option (list XorbChunkSequenceEntry.t * list (list byte) * nat) :=
  match chunks with
  | [] => Some ([], [], pos)
  | c :: chunks' =>
      entry ← XorbChunkSequenceEntry.new (chunk_hash c) (Z.of_nat (length (chunk_data c))) (Z.of_nat pos);
      '(entries, data, pos) ← from_chunks_loop chunks' (pos + length (chunk_data c));
      Some (entry :: entries, chunk_data c :: data, pos)
  end.

Section FromChunks.
  Context `{B3 : Blake3}.

(** [None] when a conversion to [u32] panics. *)
Definition from_chunks (chunks : list Chunk) (file_boundaries : list nat) : option t :=
    '(chunk_seq_entries, data, num_bytes) ← from_chunks_loop chunks 0;
    let xorb_hash := xorb_hash (chunk_node <$> chunks) in
    metadata ← XorbChunkSequenceHeader.new xorb_hash (Z.of_nat (length chunks)) (Z.of_nat num_bytes);
    Some (mk data (MDBXorbInfo.mk metadata chunk_seq_entries) file_boundaries).

Definition range_hash_from_chunks (chunks : list DataHash) : DataHash :=
    from_bytes (keyed_hash VERIFICATION_KEY (concat (as_bytes <$> chunks))).

End FromChunks.

Definition hash (x : t) : DataHash := XorbChunkSequenceHeader.xorb_hash (MDBXorbInfo.metadata (xorb_info x)).
Definition num_bytes (x : t) : Z := XorbChunkSequenceHeader.num_bytes_in_xorb (MDBXorbInfo.metadata (xorb_info x)).

(** The chunks that a xorb lists. *)
Definition nodes (x : t) : list Node :=
  (fun e => (XorbChunkSequenceEntry.chunk_hash e, XorbChunkSequenceEntry.unpacked_segment_bytes e)) <$> MDBXorbInfo.chunks (xorb_info x).

End RawXorbData.

(** ** The xorb of some chunks *)

Definition chunks_size (chunks : list Chunk) : nat := sum_list_with (fun c => length (chunk_data c)) chunks.

Lemma chunks_size_app l1 l2 : chunks_size (l1 ++ l2) = chunks_size l1 + chunks_size l2.
Proof. apply sum_list_with_app. Qed.

(** The entry of a chunk at byte [pos]. *)
Definition entry_at (c : Chunk) (pos : nat) : XorbChunkSequenceEntry.t :=
  XorbChunkSequenceEntry.mk (chunk_hash c) (Z.of_nat pos) (Z.of_nat (length (chunk_data c))) 0 0.

(** Every chunk starts where the ones before it end. *)
Fixpoint entries_from (chunks : list Chunk) (pos : nat) : list XorbChunkSequenceEntry.t :=
  match chunks with
  | [] => []
  | c :: chunks' => entry_at c pos :: entries_from chunks' (pos + length (chunk_data c))
  end.

Lemma from_chunks_loop_spec chunks pos :
  (Z.of_nat (pos + chunks_size chunks) < 2 ^ 32)%Z ->
  RawXorbData.from_chunks_loop chunks pos = Some (entries_from chunks pos, chunk_data <$> chunks, pos + chunks_size chunks).
Proof.
  revert pos. induction chunks as [|c chunks IH]; intros pos Hs; cbn [RawXorbData.from_chunks_loop].
  - cbn. by rewrite Nat.add_0_r.
  - unfold chunks_size in *; cbn [sum_list_with] in *. unfold XorbChunkSequenceEntry.new.
    rewrite !try_u32_small by (unfold is_u32; lia). cbn [mbind option_bind]. rewrite IH by lia. cbn. do 2 f_equal. lia.
Qed.

Lemma length_entries_from chunks pos : length (entries_from chunks pos) = length chunks.
Proof. revert pos. induction chunks as [|c chunks IH]; intros pos; simpl; [done|]. by rewrite IH. Qed.

Lemma nodes_entries_from chunks pos :
  (fun e => (XorbChunkSequenceEntry.chunk_hash e, XorbChunkSequenceEntry.unpacked_segment_bytes e)) <$> entries_from chunks pos
  = chunk_node <$> chunks.
Proof. revert pos. induction chunks as [|c chunks IH]; intros pos; [done|]. cbn. f_equal. apply IH. Qed.

Lemma from_chunks_ok `{Blake3} chunks bounds :
  (Z.of_nat (chunks_size chunks) < 2 ^ 32)%Z -> (Z.of_nat (length chunks) < 2 ^ 32)%Z ->
  exists x, RawXorbData.from_chunks chunks bounds = Some x /\
    RawXorbData.hash x = xorb_hash (chunk_node <$> chunks) /\ RawXorbData.nodes x = chunk_node <$> chunks /\
    RawXorbData.num_bytes x = Z.of_nat (chunks_size chunks) /\ RawXorbData.data x = chunk_data <$> chunks /\
    MDBXorbInfo.chunks (RawXorbData.xorb_info x) = entries_from chunks 0 /\
    RawXorbData.file_boundaries x = bounds.
Proof.
  intros Hs Hl. unfold RawXorbData.from_chunks. rewrite from_chunks_loop_spec by (simpl; lia). cbn [mbind option_bind].
  unfold XorbChunkSequenceHeader.new. rewrite !try_u32_small by (unfold is_u32; lia). cbn [mbind option_bind].
  eexists. split; [done|]. split_and!; try done. apply nodes_entries_from.
Qed.
