(* ===== verification/XorbInfo.v ===== *)
(** * The footer of a xorb object

    Model of the two versions of the footer in
    [xet_core_structures/src/xorb_object/xorb_object_format.rs]: [XorbObjectInfoV0] and
    [XorbObjectInfoV1], their writers, the blocking and asynchronous readers, and the reader of the
    boundary section alone.

    The byte counters of the readers ([countio::Counter]) are differences of the number of bytes
    ahead of the reader.  The capacity reserved before a loop is not modelled. *)

From coqutil Require Import Byte Word.LittleEndianList.
From stdpp Require Import base numbers list.
From S2P Require Import Prelude DataHash Codec ChunkFormat.

Definition XORB_OBJECT_FORMAT_VERSION_V0 : Z := 0.
(** The ASCII bytes of XBLBHSH and XBLBBND. *)
Definition XORB_OBJECT_FORMAT_IDENT_HASHES : list byte := byte_of <$> [0x58; 0x42; 0x4c; 0x42; 0x48; 0x53; 0x48]%Z.
Definition XORB_OBJECT_FORMAT_IDENT_BOUNDARIES : list byte := byte_of <$> [0x58; 0x42; 0x4c; 0x42; 0x42; 0x4e; 0x44]%Z.
Definition XORB_OBJECT_FORMAT_VERSION : Z := 1.
Definition XORB_OBJECT_FORMAT_HASHES_VERSION : Z := 0.
Definition XORB_OBJECT_FORMAT_BOUNDARIES_VERSION_NO_UNPACKED_INFO : Z := 0.
Definition XORB_OBJECT_FORMAT_BOUNDARIES_VERSION : Z := 1.
Definition XORB_OBJECT_FORMAT_FOOTER_BUFFER_LEN : nat := 16.
Definition XORB_OBJECT_FORMAT_NONCE_LEN : nat := 4.

(** [size_of] of the types of the fields. *)
Definition size_of_ident : nat := 7.
Definition size_of_hash : nat := 32.

(** The number of bytes ahead of the reader; [countio::Counter] reports how it went down. *)
Definition remaining : Reader nat := fun r => Ok (length r, r).

(** [if !b { return Err(CoreError::MalformedData(..)) }] *)
Definition check (b : bool) : Reader unit := if b then mret tt else fail MalformedData.

(** ** Version 0 *)
Module XorbObjectInfoV0.

Record t := mk {
  ident : list byte;
  version : Z;
  xorb_hash : DataHash;
  num_chunks : Z;
  chunk_boundary_offsets : list Z;
  chunk_hashes : list DataHash;
  _buffer : list byte;
}.

Definition default : t :=
  mk XORB_OBJECT_FORMAT_IDENT XORB_OBJECT_FORMAT_VERSION_V0 DataHash.default 0 [] [] (replicate 16 Byte.x00).

(** The bytes written; the code returns their number. *)
Definition serialize (s : t) : list byte :=
  ident s ++ write_u8 (version s) ++ write_hash (xorb_hash s) ++ write_u32 (num_chunks s) ++
  concat (write_u32 <$> chunk_boundary_offsets s) ++ concat (write_hash <$> chunk_hashes s) ++ _buffer s.

Definition deserialize_v0 : Reader (t * Z) :=
  start ← remaining;
  xorb_hash ← read_hash;
  num_chunks ← read_u32;
  chunk_boundary_offsets ← read_n read_u32 (Z.to_nat num_chunks);
  chunk_hashes ← read_n read_hash (Z.to_nat num_chunks);
  _buffer ← read_exact 16;
  now ← remaining;
  mret (mk XORB_OBJECT_FORMAT_IDENT XORB_OBJECT_FORMAT_VERSION_V0 xorb_hash num_chunks chunk_boundary_offsets chunk_hashes _buffer,
        wrap32 (Z.of_nat (start - now))).

Definition deserialize : Reader (t * Z) :=
  start ← remaining;
  ident ← read_exact size_of_ident;
  _ ← check (bool_decide (ident = XORB_OBJECT_FORMAT_IDENT));
  version ← read_u8;
  _ ← check (version =? XORB_OBJECT_FORMAT_VERSION_V0)%Z;
  now ← remaining;
  '(s, bytes_read_v0) ← deserialize_v0;
  mret (s, wrap32 (wrap32 (Z.of_nat (start - now)) + bytes_read_v0)).

(** The identifier and the version were read before; they are counted. *)
Definition deserialize_async (version : Z) : Reader (t * Z) :=
  start ← remaining;
  xorb_hash ← read_hash;
  num_chunks ← read_u32;
  chunk_boundary_offsets ← read_n read_u32 (Z.to_nat num_chunks);
  chunk_hashes ← read_n read_hash (Z.to_nat num_chunks);
  _buffer ← read_exact 16;
  now ← remaining;
  mret (mk XORB_OBJECT_FORMAT_IDENT version xorb_hash num_chunks chunk_boundary_offsets chunk_hashes _buffer,
        wrap32 (Z.of_nat (size_of_ident + 1 + (start - now)))).

End XorbObjectInfoV0.

(** ** Version 1 *)
Module XorbObjectInfoV1.

Record t := mk {
  ident : list byte;
  version : Z;
  xorb_hash : DataHash;
  ident_hash_section : list byte;
  hashes_version : Z;
  chunk_hashes : list DataHash;
  ident_boundary_section : list byte;
  boundaries_version : Z;
  chunk_boundary_offsets : list Z;
  unpacked_chunk_offsets : list Z;
  num_chunks : Z;
  hashes_section_offset_from_end : Z;
  boundary_section_offset_from_end : Z;
  _nonce_buffer : list byte;
}.

(** Both sums are of [usize] cast to [u32]; the second is a [u32] addition. *)
Definition fill_in_boundary_offsets (s : t) : t :=
  let boundary :=
    wrap32 (Z.of_nat (size_of_ident + 1 + 4 + length (chunk_boundary_offsets s) * 4 + length (unpacked_chunk_offsets s) * 4
      + 4 + 4 + 4 + XORB_OBJECT_FORMAT_FOOTER_BUFFER_LEN)) in
  let hashes :=
    wrap32 (wrap32 (Z.of_nat (size_of_ident + 1 + 4 + length (chunk_hashes s) * size_of_hash)) + boundary) in
  mk (ident s) (version s) (xorb_hash s) (ident_hash_section s) (hashes_version s) (chunk_hashes s)
    (ident_boundary_section s) (boundaries_version s) (chunk_boundary_offsets s) (unpacked_chunk_offsets s)
    (num_chunks s) hashes boundary (_nonce_buffer s).

Definition default : t :=
  fill_in_boundary_offsets
    (mk XORB_OBJECT_FORMAT_IDENT XORB_OBJECT_FORMAT_VERSION DataHash.default
      XORB_OBJECT_FORMAT_IDENT_HASHES XORB_OBJECT_FORMAT_HASHES_VERSION []
      XORB_OBJECT_FORMAT_IDENT_BOUNDARIES XORB_OBJECT_FORMAT_BOUNDARIES_VERSION [] []
      0 0 0 (replicate XORB_OBJECT_FORMAT_FOOTER_BUFFER_LEN Byte.x00)).

(** [nonce] is an array of [XORB_OBJECT_FORMAT_NONCE_LEN] bytes. *)
Definition set_uniqueness_nonce (s : t) (nonce : list byte) : t :=
  mk (ident s) (version s) (xorb_hash s) (ident_hash_section s) (hashes_version s) (chunk_hashes s)
    (ident_boundary_section s) (boundaries_version s) (chunk_boundary_offsets s) (unpacked_chunk_offsets s)
    (num_chunks s) (hashes_section_offset_from_end s) (boundary_section_offset_from_end s)
    (nonce ++ drop XORB_OBJECT_FORMAT_NONCE_LEN (_nonce_buffer s)).

Definition uniqueness_nonce (s : t) : list byte := (_nonce_buffer s) ⟦0, XORB_OBJECT_FORMAT_NONCE_LEN⟧.

Definition serialized_length (s : t) : nat :=
  size_of_ident * 3 + 1 * 3 + 4 * 5 + size_of_hash * length (chunk_hashes s) + length (_nonce_buffer s)
  + length (chunk_boundary_offsets s) * 4 + length (unpacked_chunk_offsets s) * 4 + size_of_hash.

(** The bytes written; the code returns their number. *)
Definition serialize (s : t) : result CoreError (list byte) :=
  let first := ident s ++ write_u8 (version s) ++ write_hash (xorb_hash s) in
  let hashes := ident_hash_section s ++ write_u8 (hashes_version s) ++ write_u32 (num_chunks s) in
  if negb (num_chunks s =? Z.of_nat (length (chunk_hashes s)))%Z then Err MalformedData
  else
    let hashes := hashes ++ concat (write_hash <$> chunk_hashes s) in
    let boundaries := ident_boundary_section s ++ write_u8 (boundaries_version s) ++ write_u32 (num_chunks s) in
    if negb (num_chunks s =? Z.of_nat (length (chunk_boundary_offsets s)))%Z then Err MalformedData
    else
      let boundaries := boundaries ++ write_u32s (chunk_boundary_offsets s) in
      if negb (num_chunks s =? Z.of_nat (length (unpacked_chunk_offsets s)))%Z then Err MalformedData
      else
        let boundaries := boundaries ++ write_u32s (unpacked_chunk_offsets s) in
        Ok (first ++ hashes ++ boundaries ++ write_u32 (num_chunks s) ++ write_u32 (hashes_section_offset_from_end s) ++
            write_u32 (boundary_section_offset_from_end s) ++ _nonce_buffer s).

Definition from_v0 (src : XorbObjectInfoV0.t) : t :=
  fill_in_boundary_offsets
    (mk (XorbObjectInfoV0.ident src) XORB_OBJECT_FORMAT_VERSION (XorbObjectInfoV0.xorb_hash src)
      XORB_OBJECT_FORMAT_IDENT_HASHES XORB_OBJECT_FORMAT_HASHES_VERSION (XorbObjectInfoV0.chunk_hashes src)
      XORB_OBJECT_FORMAT_IDENT_BOUNDARIES XORB_OBJECT_FORMAT_BOUNDARIES_VERSION_NO_UNPACKED_INFO
      (XorbObjectInfoV0.chunk_boundary_offsets src) []
      (XorbObjectInfoV0.num_chunks src) 0 0 (XorbObjectInfoV0._buffer src)).

Definition from_v0_with_unpacked_chunk_offsets (src : XorbObjectInfoV0.t) (unpacked_chunk_offsets : list Z) : t :=
  fill_in_boundary_offsets
    (mk (XorbObjectInfoV0.ident src) 1 (XorbObjectInfoV0.xorb_hash src)
      XORB_OBJECT_FORMAT_IDENT_HASHES XORB_OBJECT_FORMAT_HASHES_VERSION (XorbObjectInfoV0.chunk_hashes src)
      XORB_OBJECT_FORMAT_IDENT_BOUNDARIES XORB_OBJECT_FORMAT_BOUNDARIES_VERSION
      (XorbObjectInfoV0.chunk_boundary_offsets src) unpacked_chunk_offsets
      (XorbObjectInfoV0.num_chunks src) 0 0 (replicate XORB_OBJECT_FORMAT_FOOTER_BUFFER_LEN Byte.x00)).

Definition deserialize : Reader (t * Z) :=
  start ← remaining;
  ident ← read_exact size_of_ident;
  _ ← check (bool_decide (ident = XORB_OBJECT_FORMAT_IDENT));
  version ← read_u8;
  if (version =? XORB_OBJECT_FORMAT_VERSION_V0)%Z then
    '(sv0, _) ← XorbObjectInfoV0.deserialize_v0;
    now ← remaining;
    mret (from_v0 sv0, wrap32 (Z.of_nat (start - now)))
  else
    _ ← check (version =? XORB_OBJECT_FORMAT_VERSION)%Z;
    xorb_hash ← read_hash;
    hash_section_begin ← remaining;
    ident_hash_section ← read_exact size_of_ident;
    _ ← check (bool_decide (ident_hash_section = XORB_OBJECT_FORMAT_IDENT_HASHES));
    hashes_version ← read_u8;
    _ ← check (hashes_version =? XORB_OBJECT_FORMAT_HASHES_VERSION)%Z;
    num_chunks_2 ← read_u32;
    chunk_hashes ← read_n read_hash (Z.to_nat num_chunks_2);
    boundary_section_begin ← remaining;
    ident_boundary_section ← read_exact size_of_ident;
    _ ← check (bool_decide (ident_boundary_section = XORB_OBJECT_FORMAT_IDENT_BOUNDARIES));
    boundaries_version ← read_u8;
    _ ← check (boundaries_version =? XORB_OBJECT_FORMAT_BOUNDARIES_VERSION)%Z;
    num_chunks_3 ← read_u32;
    _ ← check (num_chunks_2 =? num_chunks_3)%Z;
    chunk_boundary_offsets ← read_n read_u32 (Z.to_nat num_chunks_3);
    unpacked_chunk_offsets ← read_n read_u32 (Z.to_nat num_chunks_3);
    num_chunks ← read_u32;
    _ ← check (num_chunks =? num_chunks_2)%Z;
    hashes_section_offset_from_end ← read_u32;
    boundary_section_offset_from_end ← read_u32;
    _nonce_buffer ← read_exact XORB_OBJECT_FORMAT_FOOTER_BUFFER_LEN;
    now ← remaining;
    _ ← check (Z.of_nat (hash_section_begin - now) =? hashes_section_offset_from_end)%Z;
    _ ← check (Z.of_nat (boundary_section_begin - now) =? boundary_section_offset_from_end)%Z;
    mret (mk ident version xorb_hash ident_hash_section hashes_version chunk_hashes ident_boundary_section boundaries_version
            chunk_boundary_offsets unpacked_chunk_offsets num_chunks hashes_section_offset_from_end
            boundary_section_offset_from_end _nonce_buffer,
          wrap32 (Z.of_nat (start - now))).

(** [f] is the whole object; the fields that are not read have their default values. *)
Definition deserialize_only_boundaries_section (f : list byte) : result CoreError (t * Z) :=
  at_offset ← seek_from_end f (4 + XORB_OBJECT_FORMAT_FOOTER_BUFFER_LEN + 4);
  '(offset_from_end, _) ← read_u32 at_offset;
  let offset_from_end := wrap32 (offset_from_end + 4) in
  at_section ← seek_from_end f (Z.to_nat offset_from_end);
  '(s, _) ←
    (start ← remaining;
     ident_boundary_section ← read_exact size_of_ident;
     _ ← check (bool_decide (ident_boundary_section = XORB_OBJECT_FORMAT_IDENT_BOUNDARIES));
     boundaries_version ← read_u8;
     _ ← check (boundaries_version =? XORB_OBJECT_FORMAT_BOUNDARIES_VERSION)%Z;
     num_chunks_boundaries_section ← read_u32;
     chunk_boundary_offsets ← read_u32s (Z.to_nat num_chunks_boundaries_section);
     unpacked_chunk_offsets ← read_u32s (Z.to_nat num_chunks_boundaries_section);
     num_chunks ← read_u32;
     _ ← check (num_chunks =? num_chunks_boundaries_section)%Z;
     hashes_section_offset_from_end ← read_u32;
     boundary_section_offset_from_end ← read_u32;
     _nonce_buffer ← read_exact XORB_OBJECT_FORMAT_FOOTER_BUFFER_LEN;
     now ← remaining;
     _ ← check (Z.of_nat (start - now) =? boundary_section_offset_from_end)%Z;
     mret (mk (ident default) (version default) (xorb_hash default) (ident_hash_section default) (hashes_version default)
             (chunk_hashes default) ident_boundary_section boundaries_version chunk_boundary_offsets unpacked_chunk_offsets
             num_chunks hashes_section_offset_from_end boundary_section_offset_from_end _nonce_buffer,
           wrap32 (Z.of_nat (start - now)))) at_section;
  Ok s.

(** The identifier and the version were read before; they are counted. *)
Definition deserialize_async_v1 : Reader (t * Z) :=
  start ← remaining;
  xorb_hash ← read_hash;
  hash_section_begin ← remaining;
  ident_hash_section ← read_exact size_of_ident;
  _ ← check (bool_decide (ident_hash_section = XORB_OBJECT_FORMAT_IDENT_HASHES));
  hashes_version ← read_u8;
  _ ← check (hashes_version =? XORB_OBJECT_FORMAT_HASHES_VERSION)%Z;
  num_chunks_2 ← read_u32;
  chunk_hashes ← read_n read_hash (Z.to_nat num_chunks_2);
  boundary_section_begin ← remaining;
  ident_boundary_section ← read_exact size_of_ident;
  _ ← check (bool_decide (ident_boundary_section = XORB_OBJECT_FORMAT_IDENT_BOUNDARIES));
  boundaries_version ← read_u8;
  _ ← check (boundaries_version =? XORB_OBJECT_FORMAT_BOUNDARIES_VERSION)%Z;
  num_chunks_3 ← read_u32;
  _ ← check (num_chunks_2 =? num_chunks_3)%Z;
  chunk_boundary_offsets ← read_n read_u32 (Z.to_nat num_chunks_3);
  unpacked_chunk_offsets ← read_n read_u32 (Z.to_nat num_chunks_3);
  num_chunks ← read_u32;
  _ ← check (num_chunks =? num_chunks_2)%Z;
  hashes_section_offset_from_end ← read_u32;
  boundary_section_offset_from_end ← read_u32;
  _nonce_buffer ← read_exact XORB_OBJECT_FORMAT_FOOTER_BUFFER_LEN;
  now ← remaining;
  _ ← check (Z.of_nat (hash_section_begin - now) =? hashes_section_offset_from_end)%Z;
  _ ← check (Z.of_nat (boundary_section_begin - now) =? boundary_section_offset_from_end)%Z;
  mret (mk XORB_OBJECT_FORMAT_IDENT XORB_OBJECT_FORMAT_VERSION xorb_hash ident_hash_section hashes_version chunk_hashes
          ident_boundary_section boundaries_version chunk_boundary_offsets unpacked_chunk_offsets num_chunks
          hashes_section_offset_from_end boundary_section_offset_from_end _nonce_buffer,
        wrap32 (wrap32 (Z.of_nat (start - now)) + Z.of_nat (size_of_ident + 1))).

Definition deserialize_async (version : Z) : Reader (t * Z) :=
  if (version =? 0)%Z then
    '(s, n) ← XorbObjectInfoV0.deserialize_async 0;
    mret (from_v0 s, n)
  else if (version =? 1)%Z then deserialize_async_v1
  else fail MalformedData.

Definition has_chunk_hashes (s : t) : bool := match chunk_hashes s with [] => false | _ => true end.

End XorbObjectInfoV1.

(** ** Reading what was written *)

Lemma bind_remaining {A} (k : nat -> Reader A) r : (remaining ≫= k) r = k (length r) r.
Proof. done. Qed.

Lemma bind_check {A} b (k : unit -> Reader A) r : b = true -> (check b ≫= k) r = k tt r.
Proof. by intros ->. Qed.

Lemma remaining_inv r n r' : remaining r = Ok (n, r') -> n = length r /\ r' = r.
Proof. by intros [= <- <-]. Qed.

Lemma check_inv b r u r' : check b r = Ok (u, r') -> b = true /\ r' = r.
Proof. destruct b; [by intros [= <- <-]|done]. Qed.

Lemma ret_inv {A B} (a a' : A) (b b' : B) r r' :
  (mret (a, b) : Reader (A * B)) r = Ok (a', b', r') -> a' = a /\ b' = b /\ r' = r.
Proof. by intros [= -> -> ->]. Qed.

(** One step of a parser on the bytes of its record, and one step back. *)
Ltac read_step :=
  first
    [ rewrite bind_remaining
    | rewrite bind_check by (first [done | apply bool_decide_eq_true_2; done | apply Z.eqb_eq; lia])
    | rewrite (bind_decode (decode := read_hash)) by done
    | rewrite (bind_decode (decode := read_u32)) by done
    | rewrite (bind_decode (decode := read_u8)) by done
    | rewrite (bind_decode_n (decode := read_u32)) by (done || lia)
    | rewrite (bind_decode_n (decode := read_hash)) by (done || lia)
    | rewrite bind_read_exact by done ].

Ltac inv_read :=
  match goal with
  | E : remaining _ = Ok _ |- _ => apply remaining_inv in E as [-> ->]
  | E : check _ _ = Ok _ |- _ => apply check_inv in E as [?E ->]
  | E : read_hash _ = Ok _ |- _ => apply (decode_exact (decode := read_hash)) in E as [-> ?]
  | E : read_u32 _ = Ok _ |- _ => apply (decode_exact (decode := read_u32)) in E as [-> ?]
  | E : read_u8 _ = Ok _ |- _ => apply (decode_exact (decode := read_u8)) in E as [-> ?]
  | E : read_n read_u32 _ _ = Ok _ |- _ => apply (read_n_exact (decode := read_u32)) in E as (-> & ? & ?)
  | E : read_n read_hash _ _ = Ok _ |- _ => apply (read_n_exact (decode := read_hash)) in E as (-> & ? & ?)
  | E : read_exact _ _ = Ok _ |- _ => apply read_exact_inv in E as [-> ?]
  end.

Ltac inv_step H := apply bind_inv in H as (? & ? & ?E & H); inv_read.

(** The footer as [fill_in_boundary_offsets] leaves it for [n] chunks: 92 bytes and 40 for a chunk. *)
Definition info_wf (s : XorbObjectInfoV1.t) : Prop :=
  XorbObjectInfoV1.ident s = XORB_OBJECT_FORMAT_IDENT /\ XorbObjectInfoV1.version s = XORB_OBJECT_FORMAT_VERSION /\
  hash_wf (XorbObjectInfoV1.xorb_hash s) /\
  XorbObjectInfoV1.ident_hash_section s = XORB_OBJECT_FORMAT_IDENT_HASHES /\
  XorbObjectInfoV1.hashes_version s = XORB_OBJECT_FORMAT_HASHES_VERSION /\
  Forall hash_wf (XorbObjectInfoV1.chunk_hashes s) /\
  XorbObjectInfoV1.ident_boundary_section s = XORB_OBJECT_FORMAT_IDENT_BOUNDARIES /\
  XorbObjectInfoV1.boundaries_version s = XORB_OBJECT_FORMAT_BOUNDARIES_VERSION /\
  Forall is_u32 (XorbObjectInfoV1.chunk_boundary_offsets s) /\ Forall is_u32 (XorbObjectInfoV1.unpacked_chunk_offsets s) /\
  exists n, XorbObjectInfoV1.num_chunks s = Z.of_nat n /\
    length (XorbObjectInfoV1.chunk_hashes s) = n /\ length (XorbObjectInfoV1.chunk_boundary_offsets s) = n /\
    length (XorbObjectInfoV1.unpacked_chunk_offsets s) = n /\
    XorbObjectInfoV1.hashes_section_offset_from_end s = Z.of_nat (52 + 40 * n) /\
    XorbObjectInfoV1.boundary_section_offset_from_end s = Z.of_nat (40 + 8 * n) /\
    (Z.of_nat (52 + 40 * n) < 2 ^ 32)%Z /\ length (XorbObjectInfoV1._nonce_buffer s) = 16.

(** The bytes of a well-formed footer. *)
Definition info_bytes (s : XorbObjectInfoV1.t) : list byte :=
  XORB_OBJECT_FORMAT_IDENT ++ write_u8 1 ++ write_hash (XorbObjectInfoV1.xorb_hash s) ++
  XORB_OBJECT_FORMAT_IDENT_HASHES ++ write_u8 0 ++ write_u32 (XorbObjectInfoV1.num_chunks s) ++
  concat (write_hash <$> XorbObjectInfoV1.chunk_hashes s) ++
  XORB_OBJECT_FORMAT_IDENT_BOUNDARIES ++ write_u8 1 ++ write_u32 (XorbObjectInfoV1.num_chunks s) ++
  concat (write_u32 <$> XorbObjectInfoV1.chunk_boundary_offsets s) ++
  concat (write_u32 <$> XorbObjectInfoV1.unpacked_chunk_offsets s) ++
  write_u32 (XorbObjectInfoV1.num_chunks s) ++ write_u32 (XorbObjectInfoV1.hashes_section_offset_from_end s) ++
  write_u32 (XorbObjectInfoV1.boundary_section_offset_from_end s) ++ XorbObjectInfoV1._nonce_buffer s.

Lemma serialize_wf s : info_wf s -> XorbObjectInfoV1.serialize s = Ok (info_bytes s).
Proof.
  intros (E1 & E2 & _ & E3 & E4 & _ & E5 & E6 & _ & _ & n & En & H1 & H2 & H3 & _).
  unfold XorbObjectInfoV1.serialize, info_bytes. rewrite En, H1, H2, H3, Z.eqb_refl. cbn [negb].
  rewrite E1, E2, E3, E4, E5, E6, <- !app_assoc. done.
Qed.

Lemma info_bytes_length s :
  info_wf s -> length (info_bytes s) = 92 + 40 * length (XorbObjectInfoV1.chunk_hashes s) /\
    XorbObjectInfoV1.serialized_length s = length (info_bytes s).
Proof.
  intros (_ & _ & _ & _ & _ & _ & _ & _ & _ & _ & n & En & H1 & H2 & H3 & _ & _ & _ & Hb).
  assert (length (info_bytes s) = 92 + 40 * length (XorbObjectInfoV1.chunk_hashes s)) as ->.
  { unfold info_bytes. autorewrite with xet_write. rewrite H1, H2, H3, Hb. cbn [length XORB_OBJECT_FORMAT_IDENT
      XORB_OBJECT_FORMAT_IDENT_HASHES XORB_OBJECT_FORMAT_IDENT_BOUNDARIES fmap list_fmap]. lia. }
  split; [done|]. unfold XorbObjectInfoV1.serialized_length, size_of_hash, size_of_ident. rewrite H1, H2, H3, Hb. lia.
Qed.

Lemma deserialize_info_bytes s rest :
  info_wf s ->
  XorbObjectInfoV1.deserialize (info_bytes s ++ rest) = Ok (s, wrap32 (Z.of_nat (length (info_bytes s))), rest).
Proof.
  intros Hs. pose proof (info_bytes_length s Hs) as [Hlen _].
  destruct Hs as (E1 & E2 & Hh & E3 & E4 & Hch & E5 & E6 & Hcb & Hub & n & En & H1 & H2 & H3 & Eo1 & Eo2 & Hn & Hb).
  assert (is_u32 (XorbObjectInfoV1.num_chunks s)) by (unfold is_u32; lia).
  assert (is_u32 (XorbObjectInfoV1.hashes_section_offset_from_end s)) by (unfold is_u32; lia).
  assert (is_u32 (XorbObjectInfoV1.boundary_section_offset_from_end s)) by (unfold is_u32; lia).
  unfold XorbObjectInfoV1.deserialize. rewrite bind_remaining. rewrite length_app, Hlen.
  unfold info_bytes. rewrite <- !app_assoc. do 3 read_step.
  replace (1 =? XORB_OBJECT_FORMAT_VERSION_V0)%Z with false by done. cbn iota.
  do 24 read_step.
  autorewrite with xet_write. rewrite H1, H2, H3, Hb. cbn [length XORB_OBJECT_FORMAT_IDENT
      XORB_OBJECT_FORMAT_IDENT_HASHES XORB_OBJECT_FORMAT_IDENT_BOUNDARIES fmap list_fmap].
  rewrite Eo1, Eo2. do 2 read_step. rewrite En. unfold mret, reader_ret. repeat f_equal; [|lia].
  destruct s; simpl in *; subst; by rewrite ?En, ?Eo1, ?Eo2.
Qed.


Definition v0_wf (s : XorbObjectInfoV0.t) : Prop :=
  XorbObjectInfoV0.ident s = XORB_OBJECT_FORMAT_IDENT /\ XorbObjectInfoV0.version s = XORB_OBJECT_FORMAT_VERSION_V0 /\
  hash_wf (XorbObjectInfoV0.xorb_hash s) /\ is_u32 (XorbObjectInfoV0.num_chunks s) /\
  Z.of_nat (length (XorbObjectInfoV0.chunk_boundary_offsets s)) = XorbObjectInfoV0.num_chunks s /\
  Z.of_nat (length (XorbObjectInfoV0.chunk_hashes s)) = XorbObjectInfoV0.num_chunks s /\
  Forall is_u32 (XorbObjectInfoV0.chunk_boundary_offsets s) /\ Forall hash_wf (XorbObjectInfoV0.chunk_hashes s) /\
  length (XorbObjectInfoV0._buffer s) = 16.

(** What a version 0 footer holds after the identifier and the version. *)
Definition v0_body (s : XorbObjectInfoV0.t) : list byte :=
  write_hash (XorbObjectInfoV0.xorb_hash s) ++ write_u32 (XorbObjectInfoV0.num_chunks s) ++
  concat (write_u32 <$> XorbObjectInfoV0.chunk_boundary_offsets s) ++
  concat (write_hash <$> XorbObjectInfoV0.chunk_hashes s) ++ XorbObjectInfoV0._buffer s.

Lemma deserialize_v0_body s rest :
  v0_wf s -> XorbObjectInfoV0.deserialize_v0 (v0_body s ++ rest) = Ok (s, wrap32 (Z.of_nat (length (v0_body s))), rest).
Proof.
  intros (E1 & E2 & Hh & Hn & H1 & H2 & Hb & Hc & Hl). unfold XorbObjectInfoV0.deserialize_v0. rewrite bind_remaining, length_app.
  generalize (length (v0_body s)) as n. intros n. unfold v0_body. rewrite <- !app_assoc. do 6 read_step.
  unfold mret, reader_ret. repeat f_equal; [|lia]. destruct s; simpl in *; by subst.
Qed.

Lemma deserialize_v0_inv r s n rest :
  XorbObjectInfoV0.deserialize_v0 r = Ok (s, n, rest) ->
  v0_wf s /\ r = v0_body s ++ rest /\ n = wrap32 (Z.of_nat (length (v0_body s))).
Proof.
  intros H. unfold XorbObjectInfoV0.deserialize_v0 in H. do 7 inv_step H. unfold is_u32 in *. apply ret_inv in H as (-> & -> & ->).
  split; [|split]; [unfold v0_wf; cbn; unfold is_u32; split_and!; try done; lia|by unfold v0_body; rewrite <- !app_assoc|].
  do 2 f_equal. unfold v0_body; cbn. autorewrite with xet_write. lia.
Qed.

Lemma deserialize_v0_async v r :
  XorbObjectInfoV0.deserialize_async v r =
  match XorbObjectInfoV0.deserialize_v0 r with
  | Ok (s, _, r') =>
      Ok (XorbObjectInfoV0.mk (XorbObjectInfoV0.ident s) v (XorbObjectInfoV0.xorb_hash s) (XorbObjectInfoV0.num_chunks s)
            (XorbObjectInfoV0.chunk_boundary_offsets s) (XorbObjectInfoV0.chunk_hashes s) (XorbObjectInfoV0._buffer s),
          wrap32 (Z.of_nat (8 + (length r - length r'))), r')
  | Err e => Err e
  end.
Proof.
  unfold XorbObjectInfoV0.deserialize_async, XorbObjectInfoV0.deserialize_v0, mbind, reader_bind, mret, reader_ret, remaining.
  repeat (case_match; simplify_eq/=); done.
Qed.

Lemma v0_serialize_body s : v0_wf s -> XorbObjectInfoV0.serialize s = XORB_OBJECT_FORMAT_IDENT ++ write_u8 0 ++ v0_body s.
Proof. intros (E1 & E2 & _). unfold XorbObjectInfoV0.serialize. by rewrite E1, E2. Qed.

Lemma deserialize_inv r s n rest :
  XorbObjectInfoV1.deserialize r = Ok (s, n, rest) ->
  (info_wf s /\ r = info_bytes s ++ rest /\ n = wrap32 (Z.of_nat (length (info_bytes s)))) \/
  (exists s0, v0_wf s0 /\ s = XorbObjectInfoV1.from_v0 s0 /\ r = XorbObjectInfoV0.serialize s0 ++ rest /\
     n = wrap32 (Z.of_nat (length (XorbObjectInfoV0.serialize s0)))).
Proof.
  intros H. unfold XorbObjectInfoV1.deserialize in H. do 4 inv_step H. destruct (Z.eqb_spec x2 XORB_OBJECT_FORMAT_VERSION_V0) as [->|Hv].
  - right. apply bind_inv in H as ([s0 n0] & r0 & (Hw & -> & Hn)%deserialize_v0_inv & H). inv_step H.
    apply ret_inv in H as (-> & -> & ->). exists s0. apply bool_decide_eq_true in E as ->. rewrite (v0_serialize_body s0 Hw).
    split_and!; [done|done|by rewrite <- !app_assoc|]. do 2 f_equal. autorewrite with xet_write.
    cbn [length XORB_OBJECT_FORMAT_IDENT fmap list_fmap]. lia.
  - left. do 26 inv_step H. apply ret_inv in H as (-> & -> & ->).
    repeat match goal with E : bool_decide _ = true |- _ => apply bool_decide_eq_true in E | E : (_ =? _)%Z = true |- _ => apply Z.eqb_eq in E end.
    subst. autorewrite with xet_write in *.
    repeat match goal with H : length _ = _ |- _ => rewrite H in * end. unfold is_u32, size_of_ident, XORB_OBJECT_FORMAT_FOOTER_BUFFER_LEN in *.
    match goal with |- info_wf ?s /\ _ => assert (info_wf s) as Hwf end.
    { unfold info_wf; cbn. split_and!; try done. exists (Z.to_nat x15). split_and!; try done; lia. }
    split; [done|]. split; [unfold info_bytes; rewrite <- !app_assoc; reflexivity|]. rewrite (proj1 (info_bytes_length _ Hwf)).
    cbn [XorbObjectInfoV1.chunk_hashes]. do 2 f_equal. lia.
Qed.

(** ** The asynchronous reader is the blocking one *)

Lemma deserialize_async_agrees v r :
  (0 <= v < 2 ^ 8)%Z ->
  XorbObjectInfoV1.deserialize_async v r = XorbObjectInfoV1.deserialize (XORB_OBJECT_FORMAT_IDENT ++ write_u8 v ++ r).
Proof.
  intros Hv. unfold XorbObjectInfoV1.deserialize. do 4 read_step. unfold XorbObjectInfoV1.deserialize_async.
  unfold XORB_OBJECT_FORMAT_VERSION_V0. destruct (Z.eqb_spec v 0) as [->|H0].
  - unfold mbind at 1, reader_bind. rewrite deserialize_v0_async. unfold mbind, reader_bind.
    destruct (XorbObjectInfoV0.deserialize_v0 r) as [[[s n] r']|e] eqn:E; [|done].
    apply deserialize_v0_inv in E as ((E1 & E2 & _) & -> & _). cbn zeta. unfold remaining, mret, reader_ret.
    destruct s as [i ver h nc cb ch buf]. cbn in E1, E2. subst i ver. cbn [XorbObjectInfoV0.ident XorbObjectInfoV0.xorb_hash XorbObjectInfoV0.num_chunks
      XorbObjectInfoV0.chunk_boundary_offsets XorbObjectInfoV0.chunk_hashes XorbObjectInfoV0._buffer].
    repeat f_equal. autorewrite with xet_write. cbn [length XORB_OBJECT_FORMAT_IDENT fmap list_fmap]. lia.
  - destruct (Z.eqb_spec v 1) as [->|H1].
    + rewrite bind_check by done. unfold XorbObjectInfoV1.deserialize_async_v1. rewrite bind_remaining.
      repeat (apply bind_ext; intros ? ? ?).
      unfold mret, reader_ret. do 3 f_equal. repeat inv_read. rewrite wrap32_add_l. f_equal.
      autorewrite with xet_write. unfold size_of_ident. cbn [length XORB_OBJECT_FORMAT_IDENT fmap list_fmap]. lia.
    + by unfold check; rewrite (proj2 (Z.eqb_neq _ _)).
Qed.

(** ** The boundary section alone *)

(** The fields that [deserialize_only_boundaries_section] fills in. *)
Definition boundaries_only (s : XorbObjectInfoV1.t) : XorbObjectInfoV1.t :=
  let d := XorbObjectInfoV1.default in
  XorbObjectInfoV1.mk (XorbObjectInfoV1.ident d) (XorbObjectInfoV1.version d) (XorbObjectInfoV1.xorb_hash d)
    (XorbObjectInfoV1.ident_hash_section d) (XorbObjectInfoV1.hashes_version d) []
    (XorbObjectInfoV1.ident_boundary_section s) (XorbObjectInfoV1.boundaries_version s)
    (XorbObjectInfoV1.chunk_boundary_offsets s) (XorbObjectInfoV1.unpacked_chunk_offsets s) (XorbObjectInfoV1.num_chunks s)
    (XorbObjectInfoV1.hashes_section_offset_from_end s) (XorbObjectInfoV1.boundary_section_offset_from_end s)
    (XorbObjectInfoV1._nonce_buffer s).

Lemma deserialize_boundaries contents s len :
  info_wf s -> length len = 4 ->
  XorbObjectInfoV1.deserialize_only_boundaries_section (contents ++ info_bytes s ++ len) =
  Ok (boundaries_only s, Z.of_nat (40 + 8 * length (XorbObjectInfoV1.chunk_hashes s))).
Proof.
  intros (E1 & E2 & Hh & E3 & E4 & Hch & E5 & E6 & Hcb & Hub & n & En & H1 & H2 & H3 & Eo1 & Eo2 & Hn & Hb) Hlen.
  assert (is_u32 (XorbObjectInfoV1.num_chunks s)) by (unfold is_u32; lia).
  assert (is_u32 (XorbObjectInfoV1.hashes_section_offset_from_end s)) by (unfold is_u32; lia).
  assert (is_u32 (XorbObjectInfoV1.boundary_section_offset_from_end s)) by (unfold is_u32; lia).
  set (f := contents ++ info_bytes s ++ len).
  set (tail := write_u32 (XorbObjectInfoV1.boundary_section_offset_from_end s) ++ XorbObjectInfoV1._nonce_buffer s ++ len).
  set (section := XORB_OBJECT_FORMAT_IDENT_BOUNDARIES ++ write_u8 1 ++ write_u32 (XorbObjectInfoV1.num_chunks s) ++
    concat (write_u32 <$> XorbObjectInfoV1.chunk_boundary_offsets s) ++ concat (write_u32 <$> XorbObjectInfoV1.unpacked_chunk_offsets s) ++
    write_u32 (XorbObjectInfoV1.num_chunks s) ++ write_u32 (XorbObjectInfoV1.hashes_section_offset_from_end s) ++ tail).
  assert (exists f1, f = f1 ++ tail) as [f1 Ef1].
  { exists (contents ++ XORB_OBJECT_FORMAT_IDENT ++ write_u8 1 ++ write_hash (XorbObjectInfoV1.xorb_hash s) ++
      XORB_OBJECT_FORMAT_IDENT_HASHES ++ write_u8 0 ++ write_u32 (XorbObjectInfoV1.num_chunks s) ++
      concat (write_hash <$> XorbObjectInfoV1.chunk_hashes s) ++
      XORB_OBJECT_FORMAT_IDENT_BOUNDARIES ++ write_u8 1 ++ write_u32 (XorbObjectInfoV1.num_chunks s) ++
      concat (write_u32 <$> XorbObjectInfoV1.chunk_boundary_offsets s) ++ concat (write_u32 <$> XorbObjectInfoV1.unpacked_chunk_offsets s) ++
      write_u32 (XorbObjectInfoV1.num_chunks s) ++ write_u32 (XorbObjectInfoV1.hashes_section_offset_from_end s)).
    unfold f, info_bytes, tail. rewrite <- !app_assoc. reflexivity. }
  assert (exists f2, f = f2 ++ section) as [f2 Ef2].
  { exists (contents ++ XORB_OBJECT_FORMAT_IDENT ++ write_u8 1 ++ write_hash (XorbObjectInfoV1.xorb_hash s) ++
      XORB_OBJECT_FORMAT_IDENT_HASHES ++ write_u8 0 ++ write_u32 (XorbObjectInfoV1.num_chunks s) ++
      concat (write_hash <$> XorbObjectInfoV1.chunk_hashes s)).
    unfold f, info_bytes, section, tail. rewrite <- !app_assoc. reflexivity. }
  assert (length section = 44 + 8 * n) as Hsec.
  { unfold section, tail. autorewrite with xet_write. rewrite H2, H3, Hb, Hlen. cbn [length XORB_OBJECT_FORMAT_IDENT_BOUNDARIES fmap list_fmap]. lia. }
  unfold XorbObjectInfoV1.deserialize_only_boundaries_section. rewrite Ef1 at 1.
  rewrite seek_from_end_app by (unfold tail; autorewrite with xet_write; rewrite Hb, Hlen; done).
  rewrite result_bind_Ok. unfold tail at 1. rewrite (decode_encode (decode := read_u32)) by done. rewrite result_bind_Ok. cbn zeta.
  rewrite Ef2, seek_from_end_app, result_bind_Ok by (rewrite Eo2, wrap32_small by (unfold is_u32; lia); lia).
  unfold read_u32s. rewrite bind_remaining, Hsec. unfold section, tail. do 13 read_step. rewrite Hlen.
  read_step. unfold mret, reader_ret. rewrite result_bind_Ok. rewrite wrap32_small by (unfold is_u32; lia). rewrite H1.
  unfold boundaries_only. rewrite E5, E6. repeat f_equal.
Qed.

(** ** The nonce *)

Lemma set_nonce_wf s nonce :
  info_wf s -> length nonce = 4 -> info_wf (XorbObjectInfoV1.set_uniqueness_nonce s nonce).
Proof.
  intros (E1 & E2 & Hh & E3 & E4 & Hch & E5 & E6 & Hcb & Hub & n & En & H1 & H2 & H3 & Eo1 & Eo2 & Hn & Hb) Hl.
  unfold info_wf, XorbObjectInfoV1.set_uniqueness_nonce; cbn. split_and!; try done. exists n. split_and!; try done.
  rewrite length_app, length_drop, Hb, Hl. done.
Qed.

Lemma get_set_nonce s nonce :
  length nonce = 4 -> XorbObjectInfoV1.uniqueness_nonce (XorbObjectInfoV1.set_uniqueness_nonce s nonce) = nonce.
Proof. intros Hl. unfold XorbObjectInfoV1.uniqueness_nonce; cbn [XorbObjectInfoV1.set_uniqueness_nonce XorbObjectInfoV1._nonce_buffer]. by apply slice_prefix. Qed.

(** The bytes of a footer before its last 16. *)
Lemma info_bytes_nonce s nonce :
  exists pre, info_bytes s = pre ++ XorbObjectInfoV1._nonce_buffer s /\
    info_bytes (XorbObjectInfoV1.set_uniqueness_nonce s nonce) = pre ++ nonce ++ drop 4 (XorbObjectInfoV1._nonce_buffer s).
Proof.
  exists (XORB_OBJECT_FORMAT_IDENT ++ write_u8 1 ++ write_hash (XorbObjectInfoV1.xorb_hash s) ++
    XORB_OBJECT_FORMAT_IDENT_HASHES ++ write_u8 0 ++ write_u32 (XorbObjectInfoV1.num_chunks s) ++
    concat (write_hash <$> XorbObjectInfoV1.chunk_hashes s) ++
    XORB_OBJECT_FORMAT_IDENT_BOUNDARIES ++ write_u8 1 ++ write_u32 (XorbObjectInfoV1.num_chunks s) ++
    concat (write_u32 <$> XorbObjectInfoV1.chunk_boundary_offsets s) ++
    concat (write_u32 <$> XorbObjectInfoV1.unpacked_chunk_offsets s) ++
    write_u32 (XorbObjectInfoV1.num_chunks s) ++ write_u32 (XorbObjectInfoV1.hashes_section_offset_from_end s) ++
    write_u32 (XorbObjectInfoV1.boundary_section_offset_from_end s)).
  unfold info_bytes. rewrite <- !app_assoc. split; reflexivity.
Qed.

(** ** Properties *)

(** The footer has one encoding, and reading and writing it are inverse.  A well-formed footer of
    [n] chunks is written in [92 + 40 n] bytes, the length that [serialized_length] announces, and
    reading these gives it back with whatever follows.  Conversely, bytes that are accepted are the
    encoding of a well-formed footer of version 1, or of one of version 0, of which the result is
    the conversion. *)
Theorem footer_exact :
  (forall s rest, info_wf s -> exists bs,
     XorbObjectInfoV1.serialize s = Ok bs /\ length bs = 92 + 40 * length (XorbObjectInfoV1.chunk_hashes s) /\
     XorbObjectInfoV1.serialized_length s = length bs /\
     XorbObjectInfoV1.deserialize (bs ++ rest) = Ok (s, wrap32 (Z.of_nat (length bs)), rest)) /\
  (forall r s n rest, XorbObjectInfoV1.deserialize r = Ok (s, n, rest) ->
     (info_wf s /\ exists bs, XorbObjectInfoV1.serialize s = Ok bs /\ r = bs ++ rest /\ n = wrap32 (Z.of_nat (length bs))) \/
     (exists s0, v0_wf s0 /\ s = XorbObjectInfoV1.from_v0 s0 /\ r = XorbObjectInfoV0.serialize s0 ++ rest /\
        n = wrap32 (Z.of_nat (length (XorbObjectInfoV0.serialize s0))))).
Proof.
  split.
  - intros s rest Hs. destruct (info_bytes_length s Hs) as [H1 H2]. exists (info_bytes s).
    split_and!; auto using serialize_wf, deserialize_info_bytes.
  - intros r s n rest H. apply deserialize_inv in H as [(Hw & -> & ->)|H]; [left|by right].
    split; [done|]. exists (info_bytes s). auto using serialize_wf.
Qed.

(** The asynchronous reader, which starts after the identifier and the version, agrees with the
    blocking reader on every input of either version: the same footer, the same count, the same
    bytes left, or the same error.  The reader of the boundary section alone agrees with both on the
    fields it reads. *)
Theorem footer_readers_agree :
  (forall v r, (0 <= v < 2 ^ 8)%Z ->
     XorbObjectInfoV1.deserialize_async v r = XorbObjectInfoV1.deserialize (XORB_OBJECT_FORMAT_IDENT ++ write_u8 v ++ r)) /\
  (forall contents s bs len, info_wf s -> XorbObjectInfoV1.serialize s = Ok bs -> length len = 4 ->
     exists n, XorbObjectInfoV1.deserialize_only_boundaries_section (contents ++ bs ++ len) = Ok (boundaries_only s, n)).
Proof.
  split; [apply deserialize_async_agrees|]. intros contents s bs len Hs Hb Hl. rewrite (serialize_wf s Hs) in Hb. injection Hb as <-.
  eexists. by apply deserialize_boundaries.
Qed.
