(* ===== verification/XorbObject.v ===== *)
(** * Xorb objects

    Model of [XorbObject], [SerializedXorbObject] and [reconstruct_xorb_with_footer] in
    [xet_core_structures/src/xorb_object/xorb_object_format.rs]: a stream of chunks followed by a
    footer and the length of the footer, how it is built, read in part, validated, and rebuilt from
    the chunks alone.

    A [Read + Seek] reader is the content [f] of the object together with the bytes ahead of the
    reader; its position is the difference of their lengths.  [Panicked] is an index out of
    range. *)

From Stdlib Require Import Sorted.
From coqutil Require Import Byte Word.LittleEndianList.
From stdpp Require Import base numbers list.
From S2P Require Import Prelude DataHash AggregatedHash Codec Chunking XorbStructs ChunkFormat RawXorb XorbInfo.

(** What can end an operation besides its result. *)
Inductive failure := Failed (e : CoreError) | Panicked.

(** [?] on an error of [CoreError] in code that can also panic. *)
Definition try_core {A} (x : result CoreError A) : result failure A :=
  match x with Ok a => Ok a | Err e => Err (Failed e) end.

(** [v[i]] *)
Definition index {A} (l : list A) (i : nat) : result failure A := result_of_option Panicked (l !! i).

(** [Validate::ok_for_format_error] *)
Definition ok_for_format_error {A} (x : result CoreError A) : result CoreError (option A) :=
  match x with
  | Ok v => Ok (Some v)
  | Err MalformedData => Ok None
  | Err e => Err e
  end.

Definition XORB_OBJECT_INFO_DEFAULT_LENGTH : Z := 92.

Module XorbObject.

Record t := mk {
  info : XorbObjectInfoV1.t;
  info_length : Z;
}.

Definition default : t := mk XorbObjectInfoV1.default XORB_OBJECT_INFO_DEFAULT_LENGTH.

Definition get_info_length (f : list byte) : result CoreError Z :=
  at_length ← seek_from_end f 4;
  '(info_length, _) ← read_u32 at_length;
  Ok info_length.

(** The object and the bytes ahead of the reader afterwards. *)
Definition deserialize (f : list byte) : result CoreError (t * list byte) :=
  info_length ← get_info_length f;
  at_info ← seek_from_end f (4 + Z.to_nat info_length);
  '(info, total_bytes_read, ahead) ← XorbObjectInfoV1.deserialize at_info;
  if negb (total_bytes_read =? info_length)%Z then Err MalformedData
  else Ok (mk info info_length, ahead).

(** The reader gives what follows the identifier and the version, to the end of the stream. *)
Definition deserialize_async (version : Z) : Reader t :=
  '(info, total_bytes_read) ← XorbObjectInfoV1.deserialize_async version;
  info_length ← read_u32;
  _ ← check (info_length =? total_bytes_read)%Z;
  at_end ← remaining;
  _ ← check (at_end =? 0);
  mret (mk info info_length).

(** The bytes written, the object, and the count returned. *)
Definition serialize_given_info (info : XorbObjectInfoV1.t) : result CoreError (list byte * t * nat) :=
  bytes ← XorbObjectInfoV1.serialize info;
  let info_length := wrap32 (Z.of_nat (length bytes)) in
  Ok (bytes ++ write_u32 info_length, mk info info_length, Z.to_nat info_length + 4).

Definition from_info (info : XorbObjectInfoV1.t) : t :=
  mk info (wrap32 (Z.of_nat (XorbObjectInfoV1.serialized_length info))).

(** [copy_from_slice] into the range of [l] that starts at [at_]. *)
Definition copy_at (at_ : nat) (v l : list byte) : list byte := take at_ l ++ v ++ drop (at_ + length v) l.

(** The buffer after the call; [nonce] is an array of [XORB_OBJECT_FORMAT_NONCE_LEN] bytes. *)
Definition overwrite_uniqueness_nonce (serialized nonce : list byte) : result CoreError (list byte) :=
  let len := length serialized in
  let trailer := 4 in
  if len <? XORB_OBJECT_FORMAT_FOOTER_BUFFER_LEN + trailer then Err MalformedData
  else
    let info_length := Z.to_nat (le_combine (drop (len - trailer) serialized)) in
    if (info_length <? XORB_OBJECT_FORMAT_FOOTER_BUFFER_LEN) || (len <? info_length + trailer) then Err MalformedData
    else
      let nonce_start := len - trailer - XORB_OBJECT_FORMAT_FOOTER_BUFFER_LEN in
      Ok (copy_at nonce_start nonce serialized).

(** [num_chunks != v.len() as u32] *)
Definition count_differs {A} (n : Z) (l : list A) : bool := negb (n =? wrap32 (Z.of_nat (length l)))%Z.

Definition validate_xorb_object_info (x : t) : result CoreError unit :=
  let i := info x in
  let n := XorbObjectInfoV1.num_chunks i in
  if (n =? 0)%Z then Err MalformedData
  else if count_differs n (XorbObjectInfoV1.chunk_boundary_offsets i)
       || count_differs n (XorbObjectInfoV1.chunk_hashes i)
       || ((XorbObjectInfoV1.boundaries_version i =? XORB_OBJECT_FORMAT_BOUNDARIES_VERSION)%Z
           && count_differs n (XorbObjectInfoV1.unpacked_chunk_offsets i))
  then Err MalformedData
  else if decide (XorbObjectInfoV1.xorb_hash i = DataHash.default) then Err MalformedData
  else Ok tt.

Section Operations.
  Context `{B3 : Blake3} `{CC : ChunkConstants} `{CP : Compression}.

(** [for idx in 0..num_chunks], with the bytes ahead of the reader.  [None] rejects the object;
    otherwise the bytes ahead, the hashes and the compressed length of the chunks. *)
Fixpoint validate_chunks (f : list byte) (i : XorbObjectInfoV1.t) (idxs : list nat) (ahead : list byte)
    (hash_chunks : list Node) (cumulative_compressed_length unpacked_chunk_offset start_offset : Z)
    : result failure (option (list byte * list Node * Z)) :=
  match idxs with
  | [] => Ok (Some (ahead, hash_chunks, cumulative_compressed_length))
  | idx :: idxs' =>
      chunk ← try_core (ok_for_format_error (deserialize_chunk (drop (Z.to_nat start_offset) f)));
      match chunk with
      | None => Ok None
      | Some (data, compressed_chunk_length, chunk_uncompressed_length, ahead) =>
          let chunk_hash := compute_data_hash data in
          let hash_chunks := hash_chunks ++ [(chunk_hash, chunk_uncompressed_length)] in
          let compressed := wrap32 (Z.of_nat compressed_chunk_length) in
          let cumulative_compressed_length := wrap32 (cumulative_compressed_length + compressed) in
          let unpacked_chunk_offset := wrap32 (unpacked_chunk_offset + chunk_uncompressed_length) in
          stored_hash ← index (XorbObjectInfoV1.chunk_hashes i) idx;
          if decide (stored_hash <> chunk_hash) then Ok None
          else
            boundary ← index (XorbObjectInfoV1.chunk_boundary_offsets i) idx;
            if negb (wrap32 (start_offset + compressed) =? boundary)%Z then Ok None
            else
              unpacked_differs ←
                (if (XorbObjectInfoV1.boundaries_version i =? XORB_OBJECT_FORMAT_BOUNDARIES_VERSION)%Z
                 then stored ← index (XorbObjectInfoV1.unpacked_chunk_offsets i) idx;
                      Ok (negb (unpacked_chunk_offset =? stored)%Z)
                 else Ok false);
              if (unpacked_differs : bool) then Ok None
              else
                validate_chunks f i idxs' ahead hash_chunks cumulative_compressed_length unpacked_chunk_offset boundary
      end
  end.

Definition validate_xorb_object (f : list byte) (hash : DataHash) : result failure (option t) :=
    opened ← try_core (ok_for_format_error (deserialize f));
    match opened with
    | None => Ok None
    | Some (xorb, ahead) =>
        walked ← validate_chunks f (info xorb) (seq 0 (Z.to_nat (XorbObjectInfoV1.num_chunks (info xorb)))) ahead [] 0 0 0;
        match walked with
        | None => Ok None
        | Some (ahead, hash_chunks, cumulative_compressed_length) =>
            let cur_position := wrap32 (Z.of_nat (length f - length ahead)) in
            let expected_from_end_position := wrap32 (wrap32 (wrap32 (Z.of_nat (length f)) - info_length xorb) - 4) in
            if negb (cur_position =? cumulative_compressed_length)%Z || negb (cur_position =? expected_from_end_position)%Z
            then Ok None
            else
              let xorb_hash := xorb_hash hash_chunks in
              if decide (xorb_hash <> hash \/ xorb_hash <> XorbObjectInfoV1.xorb_hash (info xorb)) then Ok None
              else Ok (Some xorb)
        end
    end.

Definition generate_chunk_range_hash (x : t) (chunk_start_index chunk_end_index : Z) : result CoreError DataHash :=
    _ ← validate_xorb_object_info x;
    if (chunk_end_index <=? chunk_start_index)%Z || (XorbObjectInfoV1.num_chunks (info x) <? chunk_end_index)%Z
    then Err InvalidArguments
    else
      let range_hashes := (XorbObjectInfoV1.chunk_hashes (info x)) ⟦Z.to_nat chunk_start_index, Z.to_nat chunk_end_index⟧ in
      Ok (RawXorbData.range_hash_from_chunks range_hashes).

Definition get_contents_length (x : t) : result CoreError Z :=
    _ ← validate_xorb_object_info x;
    match last (XorbObjectInfoV1.chunk_boundary_offsets (info x)) with
    | Some c => Ok c
    | None => Err MalformedData
    end.

(** [while reader.has_remaining()]; a chunk takes at least its header, so that the length of the
    data is enough fuel. *)
Fixpoint chunk_contents_loop (fuel : nat) (r res : list byte) : result CoreError (list byte) :=
    match fuel with
    | O => Ok res
    | S fuel' =>
        match r with
        | [] => Ok res
        | _ =>
            '(data, _, _, r) ← deserialize_chunk r;
            chunk_contents_loop fuel' r (res ++ data)
        end
    end.

Definition get_chunk_contents (chunk_data : list byte) : result CoreError (list byte) :=
    chunk_contents_loop (S (length chunk_data)) chunk_data [].

Definition get_range (x : t) (f : list byte) (byte_start byte_end : Z) : result CoreError (list byte) :=
    if (byte_end <? byte_start)%Z then Err InvalidRange
    else
      _ ← validate_xorb_object_info x;
      contents_length ← get_contents_length x;
      let end_ := Z.min byte_end contents_length in
      '(chunk_data, _) ← read_exact (Z.to_nat (wrap32 (end_ - byte_start))) (drop (Z.to_nat byte_start) f);
      get_chunk_contents chunk_data.

Definition get_all_bytes (x : t) (f : list byte) : result CoreError (list byte) :=
    _ ← validate_xorb_object_info x;
    contents_length ← get_contents_length x;
    get_range x f 0 contents_length.

(** Where the chunk [i] starts, from the ends [offsets] of the chunks. *)
Definition offset_before (offsets : list Z) (i : Z) : result failure Z :=
    if (i =? 0)%Z then Ok 0%Z else index offsets (Z.to_nat i - 1).

Definition get_byte_offset (x : t) (chunk_index_start chunk_index_end : Z) : result failure (Z * Z) :=
    _ ← try_core (validate_xorb_object_info x);
    if (chunk_index_end <=? chunk_index_start)%Z || (XorbObjectInfoV1.num_chunks (info x) <? chunk_index_end)%Z
    then Err (Failed InvalidArguments)
    else
      byte_offset_start ← offset_before (XorbObjectInfoV1.chunk_boundary_offsets (info x)) chunk_index_start;
      byte_offset_end ← index (XorbObjectInfoV1.chunk_boundary_offsets (info x)) (Z.to_nat chunk_index_end - 1);
      Ok (byte_offset_start, byte_offset_end).

Definition get_bytes_by_chunk_range (x : t) (f : list byte) (chunk_index_start chunk_index_end : Z) : result failure (list byte) :=
    '(byte_start, byte_end) ← get_byte_offset x chunk_index_start chunk_index_end;
    try_core (get_range x f byte_start byte_end).

Definition uncompressed_chunk_length (x : t) (chunk_index : Z) : result failure Z :=
    _ ← try_core (validate_xorb_object_info x);
    let offsets := XorbObjectInfoV1.unpacked_chunk_offsets (info x) in
    if length offsets <=? Z.to_nat chunk_index then Err (Failed InvalidArguments)
    else
      cumulative_sum ← index offsets (Z.to_nat chunk_index);
      before ← offset_before offsets chunk_index;
      Ok (wrap32 (cumulative_sum - before)).

Definition uncompressed_range_length (x : t) (chunk_index_start chunk_index_end : Z) : result failure Z :=
    _ ← try_core (validate_xorb_object_info x);
    let n := XorbObjectInfoV1.num_chunks (info x) in
    let offsets := XorbObjectInfoV1.unpacked_chunk_offsets (info x) in
    if (chunk_index_end <? chunk_index_start)%Z || (n <? chunk_index_end)%Z || (n <=? chunk_index_start)%Z
    then Err (Failed InvalidArguments)
    else if (chunk_index_start =? chunk_index_end)%Z then Ok 0%Z
    else
      before_start ← offset_before offsets chunk_index_start;
      incl_end ← index offsets (Z.to_nat chunk_index_end - 1);
      Ok (wrap32 (incl_end - before_start)).

(** [(start..end).map(..).collect()] *)
Fixpoint chunk_hash_sizes_from (x : t) (idxs : list nat) : result failure (list Node) :=
    match idxs with
    | [] => Ok []
    | idx :: idxs' =>
        hash ← index (XorbObjectInfoV1.chunk_hashes (info x)) idx;
        size ← uncompressed_chunk_length x (Z.of_nat idx);
        rest ← chunk_hash_sizes_from x idxs';
        Ok ((hash, size) :: rest)
    end.

Definition chunk_hash_sizes (x : t) (start end_ : Z) : result failure (list Node) :=
    _ ← try_core (validate_xorb_object_info x);
    if (XorbObjectInfoV1.num_chunks (info x) <? end_)%Z || (end_ <? start)%Z then Err (Failed InvalidArguments)
    else chunk_hash_sizes_from x (seq (Z.to_nat start) (Z.to_nat end_ - Z.to_nat start)).

End Operations.
End XorbObject.

(** ** Building an object from a raw xorb *)
Module SerializedXorbObject.

Record t := mk {
  serialized_data : list byte;
  hash : DataHash;
  raw_num_bytes : Z;
  num_chunks : nat;
  footer_start : option Z;
}.

Section Build.
  Context `{CC : ChunkConstants} `{CP : Compression}.

(** [for chunk in chunks]: the data and the boundary offsets, extended. *)
Fixpoint serialize_chunks (s : CompressionScheme) (chunks : list (list byte)) (data : list byte) (offsets : list Z)
    : result CoreError (list byte * list Z) :=
    match chunks with
    | [] => Ok (data, offsets)
    | chunk :: chunks' =>
        '(bytes, _) ← serialize_chunk chunk s;
        let data := data ++ bytes in
        serialize_chunks s chunks' data (offsets ++ [wrap32 (Z.of_nat (length data))])
    end.

(** [while s_idx < end_idx]; [retest_interval] is positive, so that [end_idx] iterations are enough. *)
Fixpoint serialize_file (fuel retest_interval : nat) (chunks : list (list byte)) (s_idx end_idx : nat)
    (data : list byte) (offsets : list Z) : result failure (list byte * list Z) :=
    match fuel with
    | O => Ok (data, offsets)
    | S fuel' =>
        if s_idx <? end_idx then
          let n_idx := (s_idx + retest_interval) `min` end_idx in
          first ← index chunks s_idx;
          let scheme := choose_from_data first in
          if length chunks <? n_idx then Err Panicked
          else
            '(data, offsets) ← try_core (serialize_chunks scheme (chunks ⟦s_idx, n_idx⟧) data offsets);
            serialize_file fuel' retest_interval chunks n_idx end_idx data offsets
        else Ok (data, offsets)
    end.

(** [for (f_idx, &start_idx) in file_boundaries.iter().enumerate()] *)
Fixpoint serialize_files (retest_interval : nat) (chunks : list (list byte)) (num_chunks : nat) (file_boundaries : list nat)
    (data : list byte) (offsets : list Z) : result failure (list byte * list Z) :=
    match file_boundaries with
    | [] => Ok (data, offsets)
    | start_idx :: file_boundaries' =>
        let end_idx := match file_boundaries' with next :: _ => next | [] => num_chunks end in
        '(data, offsets) ← serialize_file end_idx retest_interval chunks start_idx end_idx data offsets;
        serialize_files retest_interval chunks num_chunks file_boundaries' data offsets
    end.

(** The serialised chunks and their boundaries. *)
Definition serialize_data (xorb : RawXorbData.t) (compression_scheme : CompressionScheme) (retest_interval : nat)
    : result failure (list byte * list Z) :=
    let num_chunks := length (RawXorbData.data xorb) in
    if bool_decide (compression_scheme = Auto) && negb (num_chunks =? 0)
    then serialize_files retest_interval (RawXorbData.data xorb) num_chunks (RawXorbData.file_boundaries xorb) [] []
    else try_core (serialize_chunks compression_scheme (RawXorbData.data xorb) [] []).

Definition from_xorb_with_compression (xorb : RawXorbData.t) (compression_scheme : CompressionScheme) (serialize_footer : bool)
    (compression_scheme_retest_interval : nat) : result failure t :=
    let hash := RawXorbData.hash xorb in
    let raw_num_bytes := RawXorbData.num_bytes xorb in
    let num_chunks := length (RawXorbData.data xorb) in
    let chunks_and_boundaries := MDBXorbInfo.chunks_and_boundaries (RawXorbData.xorb_info xorb) in
    let retest_interval :=
      if 0 <? compression_scheme_retest_interval then compression_scheme_retest_interval else num_chunks in
    '(serialized_data, chunk_boundary_offsets) ← serialize_data xorb compression_scheme retest_interval;
    let d := XorbObjectInfoV1.default in
    let xorb_object_info :=
      XorbObjectInfoV1.fill_in_boundary_offsets
        (XorbObjectInfoV1.mk (XorbObjectInfoV1.ident d) (XorbObjectInfoV1.version d) hash
          (XorbObjectInfoV1.ident_hash_section d) (XorbObjectInfoV1.hashes_version d) (fst <$> chunks_and_boundaries)
          (XorbObjectInfoV1.ident_boundary_section d) (XorbObjectInfoV1.boundaries_version d) chunk_boundary_offsets
          (snd <$> chunks_and_boundaries) (wrap32 (Z.of_nat (length chunks_and_boundaries)))
          (XorbObjectInfoV1.hashes_section_offset_from_end d) (XorbObjectInfoV1.boundary_section_offset_from_end d)
          (XorbObjectInfoV1._nonce_buffer d)) in
    if serialize_footer then
      '(footer, _, _) ← try_core (XorbObject.serialize_given_info xorb_object_info);
      Ok (mk (serialized_data ++ footer) hash raw_num_bytes num_chunks (Some (Z.of_nat (length serialized_data))))
    else Ok (mk serialized_data hash raw_num_bytes num_chunks None).

End Build.
End SerializedXorbObject.

(** ** The footer of a stream of chunks *)
Section Reconstruct.
  Context `{B3 : Blake3} `{CC : ChunkConstants} `{CP : Compression}.

(** [while reader.position() < raw_data.len()]: the hashes and sizes of the chunks, their boundaries
    in the object and in the data, and the bytes written.  Every chunk takes its header at least. *)
Fixpoint reconstruct_loop (fuel : nat) (r : list byte) (chunk_hash_and_size : list Node)
    (chunk_boundary_offsets unpacked_chunk_offsets : list Z) (out : list byte)
    : result CoreError (list Node * list Z * list Z * list byte) :=
    match fuel with
    | O => Ok (chunk_hash_and_size, chunk_boundary_offsets, unpacked_chunk_offsets, out)
    | S fuel' =>
        match r with
        | [] => Ok (chunk_hash_and_size, chunk_boundary_offsets, unpacked_chunk_offsets, out)
        | _ =>
            match deserialize_chunk_header r with
            | Err ChunkHeaderParse => Ok (chunk_hash_and_size, chunk_boundary_offsets, unpacked_chunk_offsets, out)
            | Err e => Err e
            | Ok (chunk_header, r) =>
                let compressed_len := Z.to_nat (get_compressed_length chunk_header) in
                match read_exact compressed_len r with
                | Err _ => Err MalformedData
                | Ok (compressed_buf, r) =>
                    scheme ← get_compression_scheme chunk_header;
                    match decompress_from_slice scheme compressed_buf with
                    | Err _ => Err MalformedData
                    | Ok uncompressed_data =>
                        let chunk_hash := compute_data_hash uncompressed_data in
                        reconstruct_loop fuel' r
                          (chunk_hash_and_size ++ [(chunk_hash, Z.of_nat (length uncompressed_data))])
                          (chunk_boundary_offsets ++
                             [wrap32 (List.last chunk_boundary_offsets 0%Z + wrap32 (Z.of_nat (XORB_CHUNK_HEADER_LENGTH + compressed_len)))])
                          (unpacked_chunk_offsets ++
                             [wrap32 (List.last unpacked_chunk_offsets 0%Z + wrap32 (Z.of_nat (length uncompressed_data)))])
                          (out ++ write_chunk_header chunk_header ++ compressed_buf)
                    end
                end
            end
        end
    end.

(** The bytes written, the object and its hash. *)
Definition reconstruct_xorb_with_footer (raw_data : list byte) : result CoreError (list byte * XorbObject.t * DataHash) :=
    '(chunk_hash_and_size, chunk_boundary_offsets, unpacked_chunk_offsets, out) ←
      reconstruct_loop (S (length raw_data)) raw_data [] [] [] [];
    let computed_hash := xorb_hash chunk_hash_and_size in
    let d := XorbObjectInfoV1.default in
    let info :=
      XorbObjectInfoV1.fill_in_boundary_offsets
        (XorbObjectInfoV1.mk (XorbObjectInfoV1.ident d) (XorbObjectInfoV1.version d) computed_hash
          (XorbObjectInfoV1.ident_hash_section d) (XorbObjectInfoV1.hashes_version d) (fst <$> chunk_hash_and_size)
          (XorbObjectInfoV1.ident_boundary_section d) (XorbObjectInfoV1.boundaries_version d) chunk_boundary_offsets
          unpacked_chunk_offsets (wrap32 (Z.of_nat (length chunk_hash_and_size)))
          (XorbObjectInfoV1.hashes_section_offset_from_end d) (XorbObjectInfoV1.boundary_section_offset_from_end d)
          (XorbObjectInfoV1._nonce_buffer d)) in
    '(footer, xorb_obj, _) ← XorbObject.serialize_given_info info;
    Ok (out ++ footer, xorb_obj, computed_hash).
End Reconstruct.

(** ** The layout of an object *)

Lemma index_some {A} (l : list A) i a : l !! i = Some a -> index l i = Ok a.
Proof. unfold index. by intros ->. Qed.

Section Layout.
  Context `{B3 : Blake3} `{CC : ChunkConstants} `{CP : Compression}.
  Hypothesis max_fits : (MAX_CHUNK_SIZE < 2 ^ 24)%Z.

(** The footer of the chunks [datas], stored as [bss]. *)
Definition footer_of (h : DataHash) (hashes : list DataHash) (datas bss : list (list byte)) : XorbObjectInfoV1.t :=
    XorbObjectInfoV1.mk XORB_OBJECT_FORMAT_IDENT XORB_OBJECT_FORMAT_VERSION h
      XORB_OBJECT_FORMAT_IDENT_HASHES XORB_OBJECT_FORMAT_HASHES_VERSION hashes
      XORB_OBJECT_FORMAT_IDENT_BOUNDARIES XORB_OBJECT_FORMAT_BOUNDARIES_VERSION (byte_indices 0 bss) (byte_indices 0 datas)
      (Z.of_nat (length bss)) (Z.of_nat (52 + 40 * length bss)) (Z.of_nat (40 + 8 * length bss))
      (replicate XORB_OBJECT_FORMAT_FOOTER_BUFFER_LEN Byte.x00).

Definition object_bytes (i : XorbObjectInfoV1.t) (bss : list (list byte)) : list byte :=
    concat bss ++ info_bytes i ++ write_u32 (Z.of_nat (length (info_bytes i))).

(** Positions in the object and in the data fit the 32-bit fields of the footer. *)
Definition sizes_fit (datas bss : list (list byte)) : Prop :=
    (Z.of_nat (length (concat bss) + 96 + 40 * length bss) < 2 ^ 32)%Z /\ (Z.of_nat (length (concat datas)) < 2 ^ 32)%Z.

Lemma byte_indices_length p l : length (byte_indices p l) = length l.
Proof. revert p. induction l as [|x l IH]; intros p; [done|]. cbn. by rewrite IH. Qed.

Lemma byte_indices_u32 p l : Forall is_u32 (byte_indices p l).
Proof. revert p. induction l as [|x l IH]; intros p; [done|]. cbn. constructor; [apply wrap32_is_u32|apply IH]. Qed.

Lemma byte_indices_lookup p l i :
    i < length l -> (Z.of_nat (p + length (concat l)) < 2 ^ 32)%Z ->
    byte_indices (Z.of_nat p) l !! i = Some (Z.of_nat (p + length (concat (take (S i) l)))).
Proof.
  revert p i. induction l as [|x l IH]; intros p i Hi Hf; [cbn in Hi; lia|]. cbn [byte_indices concat length] in *. rewrite length_app in Hf.
  rewrite wrap32_small by (unfold is_u32; lia). destruct i as [|i]; cbn [lookup list_lookup take concat]; rewrite length_app.
  - rewrite take_0. cbn. f_equal. lia.
  - rewrite <- Nat2Z.inj_add, IH by lia. do 2 f_equal. lia.
Qed.

Lemma ends_lookup l i :
    i < length l -> (Z.of_nat (length (concat l)) < 2 ^ 32)%Z ->
    byte_indices 0 l !! i = Some (Z.of_nat (length (concat (take (S i) l)))).
Proof. apply (byte_indices_lookup 0). Qed.

Lemma ends_lookup_middle l1 x l2 :
    (Z.of_nat (length (concat (l1 ++ x :: l2))) < 2 ^ 32)%Z ->
    byte_indices 0 (l1 ++ x :: l2) !! length l1 = Some (Z.of_nat (length (concat l1) + length x)).
Proof.
  intros Hf. rewrite ends_lookup by (rewrite ?length_app; cbn [length]; lia). rewrite take_app_ge by lia.
  rewrite Nat.sub_succ_l, Nat.sub_diag by lia. cbn [take]. rewrite take_0, concat_app, length_app. cbn. by rewrite app_nil_r.
Qed.

Lemma deserialize_serialized chunk bytes rest :
    serialized chunk bytes ->
    deserialize_chunk (bytes ++ rest) = Ok (chunk, length bytes, Z.of_nat (length chunk), rest) /\ 8 <= length bytes /\
    (Z.of_nat (length chunk) <= MAX_CHUNK_SIZE)%Z.
Proof.
  intros (Hlen & s & n & Hs). destruct (read_serialized_chunk max_fits chunk s bytes n rest Hlen Hs) as (<- & H8 & h & b & _ & R1 & R2 & _).
  unfold deserialize_chunk. by rewrite (bind_ok _ _ _ _ _ R1).
Qed.

Lemma xorb_footer_wf h hashes datas bss :
    hash_wf h -> Forall hash_wf hashes -> length hashes = length bss -> length datas = length bss -> sizes_fit datas bss ->
    info_wf (footer_of h hashes datas bss).
Proof.
  intros Hh Hhs E1 E2 [Hf _]. unfold info_wf, footer_of; cbn. split_and!; try done; try apply byte_indices_u32.
  exists (length bss). rewrite !byte_indices_length. split_and!; try done. lia.
Qed.

Lemma footer_length h hashes datas bss :
    info_wf (footer_of h hashes datas bss) -> length (info_bytes (footer_of h hashes datas bss)) = 92 + 40 * length hashes.
Proof. intros Hw. by rewrite (proj1 (info_bytes_length _ Hw)). Qed.

(** *** Opening an object *)

Lemma open_object i bss :
    info_wf i -> (Z.of_nat (length (info_bytes i)) < 2 ^ 32)%Z ->
    XorbObject.deserialize (object_bytes i bss) =
      Ok (XorbObject.mk i (Z.of_nat (length (info_bytes i))), write_u32 (Z.of_nat (length (info_bytes i)))).
Proof.
  intros Hw Hf. set (n := Z.of_nat (length (info_bytes i))) in *. assert (is_u32 n) as Hn by (unfold is_u32, n in *; lia).
  unfold XorbObject.deserialize, XorbObject.get_info_length, object_bytes. fold n.
  rewrite app_assoc. rewrite seek_from_end_app by apply (encode_length (encode := write_u32)). rewrite !result_bind_Ok.
  rewrite <- (app_nil_r (write_u32 n)) at 1. rewrite (decode_encode (decode := read_u32)) by done. rewrite !result_bind_Ok.
  rewrite <- app_assoc, seek_from_end_app, result_bind_Ok, deserialize_info_bytes, result_bind_Ok, wrap32_small, Z.eqb_refl; try done.
  rewrite length_app, (encode_length (encode := write_u32)). unfold n. lia.
Qed.

(** *** Validation *)

Definition data_node (d : list byte) : Node := (compute_data_hash d, Z.of_nat (length d)).

Lemma concat_prefix_fits (l1 l2 : list (list byte)) : length (concat l1) <= length (concat (l1 ++ l2)).
Proof. rewrite concat_app, length_app. lia. Qed.

Lemma drop_concat (l1 l2 : list (list byte)) tail : drop (length (concat l1)) (concat (l1 ++ l2) ++ tail) = concat l2 ++ tail.
Proof. rewrite concat_app, <- app_assoc. by rewrite drop_app_length. Qed.

Lemma validate_chunks_spec h d1 d2 b1 b2 tail ahead hc :
    Forall2 serialized d2 b2 -> length d1 = length b1 -> sizes_fit (d1 ++ d2) (b1 ++ b2) ->
    XorbObject.validate_chunks (concat (b1 ++ b2) ++ tail) (footer_of h (compute_data_hash <$> d1 ++ d2) (d1 ++ d2) (b1 ++ b2))
      (seq (length b1) (length b2)) ahead hc
      (Z.of_nat (length (concat b1))) (Z.of_nat (length (concat d1))) (Z.of_nat (length (concat b1))) =
    Ok (Some (match b2 with [] => ahead | _ => tail end, hc ++ (data_node <$> d2), Z.of_nat (length (concat (b1 ++ b2))))).
Proof.
  intros Hss. revert d1 b1 ahead hc. induction Hss as [|d b d2 b2 Hs Hss IH]; intros d1 b1 ahead hc Hl [F1 F2].
  { cbn. by rewrite !app_nil_r. }
  cbn [length seq XorbObject.validate_chunks].
  rewrite Nat2Z.id, drop_concat. cbn [concat]. rewrite <- app_assoc.
  destruct (deserialize_serialized d b (concat b2 ++ tail) Hs) as (-> & H8 & Hmax).
  unfold ok_for_format_error, try_core. rewrite result_bind_Ok. cbn zeta.
  pose proof (concat_prefix_fits (b1 ++ [b]) b2) as G1. pose proof (concat_prefix_fits (d1 ++ [d]) d2) as G2.
  rewrite <- !app_assoc in G1, G2. cbn [app] in G1, G2. rewrite concat_app, length_app in G1, G2. cbn [concat] in G1, G2.
  rewrite app_nil_r in G1, G2.
  rewrite (index_some _ _ (compute_data_hash d)), result_bind_Ok, decide_False; [|tauto|].
  2: { unfold footer_of. cbn [XorbObjectInfoV1.chunk_hashes]. by rewrite list_lookup_fmap, <- Hl, list_lookup_middle. }
  rewrite (index_some (XorbObjectInfoV1.chunk_boundary_offsets _) _ (Z.of_nat (length (concat b1) + length b))), result_bind_Ok.
  2: { apply ends_lookup_middle. lia. }
  rewrite (index_some (XorbObjectInfoV1.unpacked_chunk_offsets _) _ (Z.of_nat (length (concat d1) + length d)))
    by (rewrite <- Hl; by apply ends_lookup_middle).
  rewrite (wrap32_small (Z.of_nat (length b))) by (unfold is_u32; lia).
  rewrite !wrap32_small by (unfold is_u32; lia). rewrite <- !Nat2Z.inj_add, !Z.eqb_refl. cbn [negb].
  rewrite !result_bind_Ok, Z.eqb_refl. cbn [negb].
  specialize (IH (d1 ++ [d]) (b1 ++ [b]) (concat b2 ++ tail) (hc ++ [data_node d])).
  rewrite <- !app_assoc, !concat_app, !length_app in IH. cbn [app concat length] in IH. rewrite !app_nil_r in IH.
  replace (length b1 + 1) with (S (length b1)) in IH by lia.
  change (compute_data_hash d, Z.of_nat (length d)) with (data_node d).
  rewrite !concat_app in *. cbn [concat app] in *. rewrite IH; [|lia|].
  2: { split; rewrite concat_app; cbn [concat]; [|done]. exact F1. }
  rewrite !length_app. by destruct b2.
Qed.

Lemma validate_chunks_nonce f i nonce idxs ahead hc cum unp start :
    XorbObject.validate_chunks f (XorbObjectInfoV1.set_uniqueness_nonce i nonce) idxs ahead hc cum unp start =
    XorbObject.validate_chunks f i idxs ahead hc cum unp start.
Proof.
  revert ahead hc cum unp start. induction idxs as [|idx idxs IH]; intros; [done|]. cbn [XorbObject.validate_chunks].
  cbn [XorbObjectInfoV1.chunk_hashes XorbObjectInfoV1.chunk_boundary_offsets XorbObjectInfoV1.unpacked_chunk_offsets
    XorbObjectInfoV1.boundaries_version XorbObjectInfoV1.set_uniqueness_nonce].
  unfold mbind, result_bind. case_all; auto.
Qed.

(** An object made of serialised chunks and their footer is valid, whatever the nonce. *)
Lemma validate_object h datas bss nonce :
    Forall2 serialized datas bss -> datas <> [] -> sizes_fit datas bss -> hash_wf h -> h = xorb_hash (data_node <$> datas) ->
    Forall hash_wf (compute_data_hash <$> datas) -> length nonce = 4 ->
    let i := XorbObjectInfoV1.set_uniqueness_nonce (footer_of h (compute_data_hash <$> datas) datas bss) nonce in
    XorbObject.validate_xorb_object (object_bytes i bss) h = Ok (Some (XorbObject.mk i (Z.of_nat (length (info_bytes i))))).
Proof.
  intros Hss Hne Hf Hh Eh Hhs Hnc i. pose proof (Forall2_length _ _ _ Hss) as Hl.
  assert (info_wf i) as Hw by (apply set_nonce_wf; [apply xorb_footer_wf; rewrite ?length_fmap; auto|done]).
  assert (length (info_bytes i) = 92 + 40 * length bss) as Hn.
  { rewrite (proj1 (info_bytes_length i Hw)). unfold i, footer_of; cbn [XorbObjectInfoV1.set_uniqueness_nonce XorbObjectInfoV1.chunk_hashes].
    rewrite length_fmap. lia. }
  pose proof Hf as [Hf1 Hf2]. unfold XorbObject.validate_xorb_object.
  rewrite open_object by (auto || lia). unfold ok_for_format_error, try_core at 1. rewrite result_bind_Ok.
  pose proof (validate_chunks_spec h [] datas [] bss (info_bytes i ++ write_u32 (Z.of_nat (length (info_bytes i))))
    (write_u32 (Z.of_nat (length (info_bytes i)))) [] Hss eq_refl Hf) as Hv.
  cbn [app length concat] in Hv. change (Z.of_nat 0) with 0%Z in Hv. unfold object_bytes.
  cbn [XorbObject.info]. replace (Z.to_nat (XorbObjectInfoV1.num_chunks i)) with (length bss) by (unfold i, footer_of; cbn; lia).
  rewrite <- (validate_chunks_nonce _ _ nonce) in Hv. fold i in Hv. rewrite Hv, result_bind_Ok. destruct bss as [|b bss]; [by destruct datas|].
  set (b' := b :: bss) in *. cbn [XorbObject.info_length]. rewrite !length_app, (encode_length (encode := write_u32)), Hn.
  rewrite (wrap32_small (Z.of_nat (_ - _))), (wrap32_small (Z.of_nat (_ + _))) by (unfold is_u32; lia).
  rewrite (wrap32_small (Z.of_nat (_ + _) - _)) by (unfold is_u32; lia). rewrite (wrap32_small (_ - 4)) by (unfold is_u32; lia).
  rewrite !(proj2 (Z.eqb_eq _ _)) by lia. cbn [negb orb].
  rewrite decide_False; [done|]. subst h. cbn. tauto.
Qed.

Lemma no_nonce h hashes datas bss :
    XorbObjectInfoV1.set_uniqueness_nonce (footer_of h hashes datas bss) (replicate 4 Byte.x00) = footer_of h hashes datas bss.
Proof. done. Qed.

(** *** Reads by chunk range *)

Lemma contents_loop_spec datas bss fuel res :
    Forall2 serialized datas bss -> length bss < fuel ->
    XorbObject.chunk_contents_loop fuel (concat bss) res = Ok (res ++ concat datas).
Proof.
  intros Hss. revert fuel res. induction Hss as [|d b datas bss Hs Hss IH]; intros fuel res Hf;
    (destruct fuel as [|fuel]; [cbn in Hf; lia|]); cbn [concat XorbObject.chunk_contents_loop]; [by rewrite app_nil_r|].
  destruct (deserialize_serialized d b (concat bss) Hs) as (E & H8 & _).
  destruct (b ++ concat bss) as [|x r] eqn:Er; [by destruct b|]. rewrite E, result_bind_Ok, IH by (cbn in Hf; lia).
  by rewrite app_assoc.
Qed.

Lemma serialized_count datas bss : Forall2 serialized datas bss -> length bss <= length (concat bss).
Proof.
  induction 1 as [|d b datas bss Hs Hss IH]; [done|]. destruct (deserialize_serialized d b [] Hs) as (_ & H8 & _).
  cbn [concat length]. rewrite length_app. lia.
Qed.

Lemma get_chunk_contents_spec datas bss :
    Forall2 serialized datas bss -> XorbObject.get_chunk_contents (concat bss) = Ok (concat datas).
Proof. intros Hss. pose proof (serialized_count _ _ Hss). unfold XorbObject.get_chunk_contents. rewrite (contents_loop_spec datas) by (auto || lia). done. Qed.

Lemma concat_slice (l : list (list byte)) i j :
    i <= j -> concat (take j l) = concat (take i l) ++ concat (l ⟦i, j⟧).
Proof.
  intros Hij. rewrite <- concat_app. f_equal. rewrite <- !slice_0, slice_app_slice by lia. done.
Qed.

Lemma slice_then_rest (l : list (list byte)) i j :
    i <= j -> concat l = concat (take i l) ++ concat (l ⟦i, j⟧) ++ concat (drop j l).
Proof. intros. rewrite app_assoc, <- concat_slice by done. by rewrite <- concat_app, take_drop. Qed.

Section Reads.
  Context (h : DataHash) (hashes : list DataHash) (datas bss : list (list byte)).
  Hypothesis chunks_serialized : Forall2 serialized datas bss.
  Hypothesis fits : sizes_fit datas bss.
  Hypothesis hashes_length : length hashes = length bss.
  Hypothesis not_empty : bss <> [].
  Hypothesis hash_not_default : h <> DataHash.default.

Let i := footer_of h hashes datas bss.
Let n := length bss.
Context (info_length : Z).
Let x := XorbObject.mk i info_length.

Lemma read_info_valid : XorbObject.validate_xorb_object_info x = Ok tt.
Proof.
  pose proof (Forall2_length _ _ _ chunks_serialized) as Hl. destruct fits as [Hf _].
  unfold XorbObject.validate_xorb_object_info, x, i, footer_of, XorbObject.count_differs. cbn [XorbObject.info XorbObjectInfoV1.num_chunks
    XorbObjectInfoV1.chunk_boundary_offsets XorbObjectInfoV1.chunk_hashes XorbObjectInfoV1.boundaries_version
    XorbObjectInfoV1.unpacked_chunk_offsets XorbObjectInfoV1.xorb_hash].
  rewrite !byte_indices_length, hashes_length, Hl, !wrap32_small by (unfold is_u32; lia). rewrite !Z.eqb_refl. cbn [negb orb andb].
  destruct (Z.eqb_spec (Z.of_nat (length bss)) 0); [by destruct bss|]. cbn. by rewrite decide_False.
Qed.

Lemma last_lookup_end (l : list Z) k z : length l = S k -> l !! k = Some z -> last l = Some z.
Proof. intros Hl Hk. rewrite last_lookup, Hl. done. Qed.

Lemma read_contents_length : XorbObject.get_contents_length x = Ok (Z.of_nat (length (concat bss))).
Proof.
  unfold XorbObject.get_contents_length. rewrite read_info_valid, result_bind_Ok. unfold x, i, footer_of; cbn [XorbObject.info XorbObjectInfoV1.chunk_boundary_offsets].
  destruct fits as [Hf _]. rewrite (last_lookup_end _ (length bss - 1) (Z.of_nat (length (concat bss)))); [done| |].
  - rewrite byte_indices_length. destruct bss; [done|]. cbn. lia.
  - assert (0 < length bss) by (destruct bss; [done|cbn; lia]). rewrite ends_lookup by lia.
    rewrite take_ge by lia. done.
Qed.

(** Where the chunk [a] starts. *)
Lemma read_offset_before (l : list (list byte)) a :
    (Z.of_nat (length (concat l)) < 2 ^ 32)%Z -> a <= length l ->
    XorbObject.offset_before (byte_indices 0 l) (Z.of_nat a) = Ok (Z.of_nat (length (concat (take a l)))).
Proof.
  intros Hf Ha. unfold XorbObject.offset_before. destruct (Z.eqb_spec (Z.of_nat a) 0) as [E|E].
  - assert (a = 0) as -> by lia. by rewrite take_0.
  - apply index_some. rewrite Nat2Z.id, ends_lookup by lia. by replace (S (a - 1)) with a by lia.
Qed.

Lemma read_byte_offset a b :
    a < b -> b <= n ->
    XorbObject.get_byte_offset x (Z.of_nat a) (Z.of_nat b) =
      Ok (Z.of_nat (length (concat (take a bss))), Z.of_nat (length (concat (take b bss)))).
Proof.
  intros Hab Hb. unfold XorbObject.get_byte_offset. rewrite read_info_valid. unfold try_core. rewrite result_bind_Ok.
  unfold x, i, footer_of; cbn [XorbObject.info XorbObjectInfoV1.num_chunks XorbObjectInfoV1.chunk_boundary_offsets].
  rewrite (proj2 (Z.leb_gt _ _)), (proj2 (Z.ltb_ge _ _)) by (unfold n in *; lia). cbn [orb].
  destruct fits as [Hf _]. rewrite read_offset_before, result_bind_Ok by (unfold n in *; lia).
  rewrite (index_some _ _ (Z.of_nat (length (concat (take b bss))))), result_bind_Ok; [done|].
  rewrite Nat2Z.id, ends_lookup by (unfold n in *; lia). by replace (S (b - 1)) with b by lia.
Qed.

Lemma read_range_length a b :
    a <= b -> b <= n -> a < n ->
    XorbObject.uncompressed_range_length x (Z.of_nat a) (Z.of_nat b) = Ok (Z.of_nat (length (concat (datas ⟦a, b⟧)))).
Proof.
  intros Hab Hb Ha. pose proof (Forall2_length _ _ _ chunks_serialized) as Hl. destruct fits as [_ Hf]. unfold n in Hb, Ha.
  unfold XorbObject.uncompressed_range_length. rewrite read_info_valid. unfold try_core. rewrite result_bind_Ok. cbn zeta.
  unfold x, i, footer_of; cbn [XorbObject.info XorbObjectInfoV1.num_chunks XorbObjectInfoV1.unpacked_chunk_offsets].
  rewrite !(proj2 (Z.ltb_ge _ _)), (proj2 (Z.leb_gt _ _)) by lia. cbn [orb].
  destruct (Z.eqb_spec (Z.of_nat a) (Z.of_nat b)) as [E|E].
  { assert (a = b) as <- by lia. unfold slice. by rewrite Nat.sub_diag, take_0. }
  pose proof (f_equal length (concat_slice datas a b Hab)) as E1. rewrite length_app in E1.
  pose proof (f_equal length (slice_then_rest datas b b (le_n _))) as E2. rewrite !length_app in E2.
  rewrite read_offset_before, result_bind_Ok by lia.
  rewrite (index_some _ _ (Z.of_nat (length (concat (take b datas))))), result_bind_Ok.
  - f_equal. rewrite wrap32_small by (unfold is_u32; lia). lia.
  - rewrite Nat2Z.id, ends_lookup by lia. by replace (S (b - 1)) with b by lia.
Qed.

Lemma read_chunk_length a d :
    datas !! a = Some d -> XorbObject.uncompressed_chunk_length x (Z.of_nat a) = Ok (Z.of_nat (length d)).
Proof.
  intros Hd. pose proof (lookup_lt_Some _ _ _ Hd) as Ha. destruct fits as [_ Hf].
  unfold XorbObject.uncompressed_chunk_length. rewrite read_info_valid. unfold try_core. rewrite result_bind_Ok. cbn zeta.
  unfold x, i, footer_of; cbn [XorbObject.info XorbObjectInfoV1.unpacked_chunk_offsets].
  rewrite byte_indices_length, Nat2Z.id, (proj2 (Nat.leb_gt _ _)) by lia.
  rewrite (index_some _ _ _ (ends_lookup datas a Ha Hf)), result_bind_Ok, read_offset_before, result_bind_Ok by lia.
  rewrite (take_S_r _ _ _ Hd), concat_app, length_app. cbn [concat]. rewrite app_nil_r.
  assert (length (concat (take a datas)) + length d <= length (concat datas)).
  { rewrite <- (take_drop_middle _ _ _ Hd) at 2. rewrite concat_app, length_app. cbn [concat]. rewrite length_app. lia. }
  rewrite wrap32_small by (unfold is_u32; lia). f_equal. lia.
Qed.

Lemma read_hash_sizes_from a m :
    a + m <= n -> XorbObject.chunk_hash_sizes_from x (seq a m) = Ok ((zip hashes (Z.of_nat ∘ length <$> datas)) ⟦a, a + m⟧).
Proof.
  pose proof (Forall2_length _ _ _ chunks_serialized) as Hl. unfold n. revert a. induction m as [|m IH]; intros a Ha.
  { unfold slice. rewrite Nat.add_0_r, Nat.sub_diag, take_0. done. }
  cbn [seq XorbObject.chunk_hash_sizes_from].
  destruct (lookup_lt_is_Some_2 hashes a) as [hh Hh]; [lia|]. destruct (lookup_lt_is_Some_2 datas a) as [d Hd]; [lia|].
  change (XorbObjectInfoV1.chunk_hashes (XorbObject.info x)) with hashes.
  rewrite (index_some _ _ _ Hh), result_bind_Ok, (read_chunk_length _ _ Hd), result_bind_Ok, IH, result_bind_Ok by lia.
  f_equal. unfold slice. rewrite <- (take_drop_middle (zip _ _) a (hh, Z.of_nat (length d))) at 2.
  - rewrite drop_app_length' by (rewrite length_take, length_zip_with_l_eq, hashes_length by (rewrite length_fmap; lia); lia).
    replace (a + S m - a) with (S m) by lia. replace (S a + m - S a) with m by lia. done.
  - apply lookup_zip_with_Some. exists hh, (Z.of_nat (length d)). rewrite list_lookup_fmap, Hd. done.
Qed.

Context (tail : list byte).
Let f := concat bss ++ tail.

Lemma read_range a b :
    a <= b -> b <= n ->
    XorbObject.get_range x f (Z.of_nat (length (concat (take a bss)))) (Z.of_nat (length (concat (take b bss)))) =
      Ok (concat (datas ⟦a, b⟧)).
Proof.
  intros Hab Hb. unfold XorbObject.get_range. destruct fits as [Hf _].
  pose proof (f_equal length (concat_slice bss a b Hab)) as E1. rewrite length_app in E1.
  pose proof (f_equal length (slice_then_rest bss b b (le_n _))) as E2. rewrite !length_app in E2.
  rewrite (proj2 (Z.ltb_ge _ _)) by lia. rewrite read_info_valid, result_bind_Ok, read_contents_length, result_bind_Ok. cbn zeta.
  rewrite Z.min_l, wrap32_small, Nat2Z.id by (unfold is_u32; lia).
  unfold f. rewrite (slice_then_rest bss a b Hab), <- app_assoc, drop_app_length, <- app_assoc.
  replace (Z.to_nat _) with (length (concat (bss ⟦a, b⟧))) by lia. rewrite read_exact_app, result_bind_Ok.
  apply get_chunk_contents_spec. unfold slice. by apply Forall2_take, Forall2_drop.
Qed.

Lemma read_chunk_range a b :
    a < b -> b <= n -> XorbObject.get_bytes_by_chunk_range x f (Z.of_nat a) (Z.of_nat b) = Ok (concat (datas ⟦a, b⟧)).
Proof.
  intros Hab Hb. unfold XorbObject.get_bytes_by_chunk_range. rewrite read_byte_offset, result_bind_Ok by done.
  rewrite read_range by (done || lia). done.
Qed.

Lemma read_all : XorbObject.get_all_bytes x f = Ok (concat datas).
Proof.
  unfold XorbObject.get_all_bytes. rewrite read_info_valid, result_bind_Ok, read_contents_length, result_bind_Ok.
  pose proof (read_range 0 n (Nat.le_0_l _) (le_n _)) as Hr. unfold n in Hr. rewrite take_0, (take_ge bss) in Hr by done.
  rewrite slice_0, take_ge in Hr by (rewrite (Forall2_length _ _ _ chunks_serialized); lia). exact Hr.
Qed.
End Reads.

(** *** Building *)

Lemma ends_app p b1 b2 :
    byte_indices (wrap32 p) (b1 ++ b2) = byte_indices (wrap32 p) b1 ++ byte_indices (wrap32 (p + Z.of_nat (length (concat b1)))) b2.
Proof.
  rewrite byte_indices_app. f_equal. destruct b1; [cbn; by rewrite Z.add_0_r|]. by rewrite wrap32_add_l.
Qed.

(** [r] appends serialised forms of [chunks] to [data], and their ends to [offsets]. *)
Definition appends (chunks : list (list byte)) (data : list byte) (offsets : list Z) {E} (r : result E (list byte * list Z)) : Prop :=
    exists bss, Forall2 serialized chunks bss /\ r = Ok (data ++ concat bss, offsets ++ byte_indices (wrap32 (Z.of_nat (length data))) bss).

Lemma appends_nil data offsets {E} : appends [] data offsets (Ok (data, offsets) : result E _).
Proof. exists []. split; [constructor|]. cbn. by rewrite !app_nil_r. Qed.

(** Appending some chunks and then others is appending them all. *)
Lemma appends_bind c1 c2 data offsets {E} (r1 : result E (list byte * list Z)) (k : list byte * list Z -> result E (list byte * list Z)) :
    appends c1 data offsets r1 -> (forall data' offsets', appends c2 data' offsets' (k (data', offsets'))) ->
    appends (c1 ++ c2) data offsets (r1 ≫= k).
Proof.
  intros (b1 & H1 & ->) Hk. rewrite result_bind_Ok. destruct (Hk (data ++ concat b1)
    (offsets ++ byte_indices (wrap32 (Z.of_nat (length data))) b1)) as (b2 & H2 & ->).
  exists (b1 ++ b2). split; [by apply Forall2_app|]. rewrite concat_app, ends_app, length_app, Nat2Z.inj_add, !app_assoc. done.
Qed.

Lemma appends_try_core c data offsets r : appends c data offsets r -> appends c data offsets (try_core r).
Proof. intros (bss & H & ->). by exists bss. Qed.

Definition chunks_small (chunks : list (list byte)) : Prop := Forall (fun c => (Z.of_nat (length c) <= MAX_CHUNK_SIZE)%Z) chunks.

Lemma serialize_chunks_spec s chunks data offsets :
    chunks_small chunks -> appends chunks data offsets (SerializedXorbObject.serialize_chunks s chunks data offsets).
Proof.
  intros Hc. revert data offsets. induction Hc as [|c chunks Hc Hcs IH]; intros data offsets; cbn [SerializedXorbObject.serialize_chunks].
  { apply appends_nil. }
  destruct (serialize_chunk_spec c s) as (s' & comp & E & _). rewrite E, result_bind_Ok. cbn zeta.
  set (bytes := write_chunk_header _ ++ comp) in *.
  destruct (IH (data ++ bytes) (offsets ++ [wrap32 (Z.of_nat (length (data ++ bytes)))])) as (bss & Hss & ->).
  exists (bytes :: bss). split; [constructor; [|done]; split; eauto|]. cbn [concat byte_indices]. rewrite wrap32_add_l, length_app, Nat2Z.inj_add.
  by rewrite <- !app_assoc.
Qed.

Lemma slice_cut {A} (l : list A) a b c : a <= b -> b <= c -> l ⟦a, c⟧ = l ⟦a, b⟧ ++ l ⟦b, c⟧.
Proof. intros. by rewrite slice_app_slice. Qed.

Lemma serialize_file_spec fuel retest chunks a b data offsets :
    chunks_small chunks -> 0 < retest -> a <= b -> b <= length chunks -> b - a <= fuel ->
    appends (chunks ⟦a, b⟧) data offsets (SerializedXorbObject.serialize_file fuel retest chunks a b data offsets).
Proof.
  intros Hc Hr. revert a data offsets. induction fuel as [|fuel IH]; intros a data offsets Hab Hb Hf; cbn [SerializedXorbObject.serialize_file].
  { assert (a = b) as -> by lia. unfold slice. rewrite Nat.sub_diag, take_0. apply appends_nil. }
  destruct (Nat.ltb_spec a b) as [H|H]; [|assert (a = b) as -> by lia; unfold slice; rewrite Nat.sub_diag, take_0; apply appends_nil].
  destruct (lookup_lt_is_Some_2 chunks a) as [c Ec]; [lia|]. rewrite (index_some _ _ _ Ec), result_bind_Ok. cbn zeta.
  rewrite (proj2 (Nat.ltb_ge _ _)) by lia. rewrite (slice_cut chunks a ((a + retest) `min` b) b) by lia.
  apply appends_bind; [|intros; apply IH; lia]. apply appends_try_core, serialize_chunks_spec.
  unfold slice. by apply Forall_take, Forall_drop.
Qed.

Lemma serialize_files_spec retest chunks start bounds data offsets :
    chunks_small chunks -> 0 < retest -> Sorted le (start :: bounds) -> Forall (fun b => b <= length chunks) (start :: bounds) ->
    appends (drop start chunks) data offsets
      (SerializedXorbObject.serialize_files retest chunks (length chunks) (start :: bounds) data offsets).
Proof.
  intros Hc Hr. revert start data offsets. induction bounds as [|b bounds IH]; intros start data offsets Hs Hle; cbn [SerializedXorbObject.serialize_files].
  - apply Forall_cons in Hle as [Hle _]. rewrite <- slice_all_cut, <- (app_nil_r (chunks ⟦_, _⟧)).
    apply appends_bind; [apply serialize_file_spec; auto; lia|intros; apply appends_nil].
  - apply Sorted_inv in Hs as [Hs Hh]. apply HdRel_inv in Hh. apply Forall_cons in Hle as [_ Hle]. pose proof (Forall_inv Hle).
    rewrite <- (slice_then_drop start b) by done.
    apply appends_bind; [apply serialize_file_spec; auto; lia|]. intros. by apply IH.
Qed.

Lemma serialized_bound c b : serialized c b -> length b <= 8 + length c.
Proof.
  intros (Hlen & s & n & Hs). destruct (serialize_chunk_spec c s) as (s' & comp & E & _ & Hc & _).
  destruct (read_serialized_chunk max_fits c s b n [] Hlen Hs) as (Hn & _). rewrite E in Hs. injection Hs as _ Hn'.
  unfold XORB_CHUNK_HEADER_LENGTH in *. lia.
Qed.

Lemma serialized_total datas bss : Forall2 serialized datas bss -> length (concat bss) <= length (concat datas) + 8 * length bss.
Proof.
  induction 1 as [|d b datas bss Hs Hss IH]; [done|]. pose proof (serialized_bound d b Hs). cbn [concat length]. rewrite !length_app. lia.
Qed.

Lemma chunks_size_concat chunks : length (concat (chunk_data <$> chunks)) = chunks_size chunks.
Proof. induction chunks as [|c chunks IH]; [done|]. cbn [fmap list_fmap concat]. rewrite length_app, IH. done. Qed.

Lemma entries_boundaries chunks pos :
    (fun e => (XorbChunkSequenceEntry.chunk_hash e,
       wrap32 (XorbChunkSequenceEntry.chunk_byte_range_start e + XorbChunkSequenceEntry.unpacked_segment_bytes e))) <$> entries_from chunks pos
    = zip (chunk_hash <$> chunks) (byte_indices (wrap32 (Z.of_nat pos)) (chunk_data <$> chunks)).
Proof.
  revert pos. induction chunks as [|c chunks IH]; intros pos; [done|].
  cbn [entries_from fmap list_fmap byte_indices zip_with entry_at XorbChunkSequenceEntry.chunk_hash XorbChunkSequenceEntry.chunk_byte_range_start
    XorbChunkSequenceEntry.unpacked_segment_bytes]. rewrite wrap32_add_l. f_equal. rewrite <- Nat2Z.inj_add. apply IH.
Qed.

(** File boundaries that [from_xorb_with_compression] expects: they start at the first chunk. *)
Definition file_boundaries_ok (n : nat) (bounds : list nat) : Prop :=
    exists bs, bounds = 0 :: bs /\ Sorted le bounds /\ Forall (fun b => b <= n) bounds.

Definition build_fits (chunks : list Chunk) : Prop :=
    (Z.of_nat (chunks_size chunks + 48 * length chunks + 96) < 2 ^ 32)%Z.

Lemma sizes_fit_build chunks bss :
    build_fits chunks -> Forall2 serialized (chunk_data <$> chunks) bss -> sizes_fit (chunk_data <$> chunks) bss.
Proof.
  intros Hf Hss. pose proof (serialized_total _ _ Hss). pose proof (Forall2_length _ _ _ Hss) as Hl. rewrite length_fmap in Hl.
  unfold build_fits in Hf. split; rewrite chunks_size_concat in *; lia.
Qed.

Lemma fill_in_footer h hashes datas bss :
    length hashes = length bss -> length datas = length bss -> sizes_fit datas bss ->
    XorbObjectInfoV1.fill_in_boundary_offsets
      (XorbObjectInfoV1.mk XORB_OBJECT_FORMAT_IDENT XORB_OBJECT_FORMAT_VERSION h
        XORB_OBJECT_FORMAT_IDENT_HASHES XORB_OBJECT_FORMAT_HASHES_VERSION hashes
        XORB_OBJECT_FORMAT_IDENT_BOUNDARIES XORB_OBJECT_FORMAT_BOUNDARIES_VERSION (byte_indices 0 bss) (byte_indices 0 datas)
        (wrap32 (Z.of_nat (length hashes))) 52 40 (replicate XORB_OBJECT_FORMAT_FOOTER_BUFFER_LEN Byte.x00)) =
    footer_of h hashes datas bss.
Proof.
  intros H1 H2 [Hf _]. unfold XorbObjectInfoV1.fill_in_boundary_offsets, footer_of, size_of_ident, size_of_hash, XORB_OBJECT_FORMAT_FOOTER_BUFFER_LEN.
  cbn [XorbObjectInfoV1.ident XorbObjectInfoV1.version XorbObjectInfoV1.xorb_hash XorbObjectInfoV1.ident_hash_section XorbObjectInfoV1.hashes_version
    XorbObjectInfoV1.chunk_hashes XorbObjectInfoV1.ident_boundary_section XorbObjectInfoV1.boundaries_version XorbObjectInfoV1.chunk_boundary_offsets
    XorbObjectInfoV1.unpacked_chunk_offsets XorbObjectInfoV1.num_chunks XorbObjectInfoV1._nonce_buffer].
  rewrite !byte_indices_length, H1, H2, wrap32_add_l.
  rewrite (wrap32_small (Z.of_nat (length bss))) by (unfold is_u32; lia).
  rewrite (wrap32_small (Z.of_nat (7 + 1 + 4 + _ + _ + 4 + 4 + 4 + 16))) by (unfold is_u32; lia).
  rewrite (wrap32_small (_ + _)) by (unfold is_u32; lia). f_equal; lia.
Qed.

Lemma serialize_info_ok i :
    info_wf i -> (Z.of_nat (length (info_bytes i)) < 2 ^ 32)%Z ->
    XorbObject.serialize_given_info i =
      Ok (info_bytes i ++ write_u32 (Z.of_nat (length (info_bytes i))),
          XorbObject.mk i (Z.of_nat (length (info_bytes i))), length (info_bytes i) + 4).
Proof.
  intros Hw Hf. unfold XorbObject.serialize_given_info. rewrite (serialize_wf i Hw), result_bind_Ok.
  rewrite wrap32_small by (unfold is_u32; lia). by rewrite Nat2Z.id.
Qed.

Lemma serialize_data_spec xorb scheme retest :
    chunks_small (RawXorbData.data xorb) -> 0 < retest \/ length (RawXorbData.data xorb) = 0 ->
    file_boundaries_ok (length (RawXorbData.data xorb)) (RawXorbData.file_boundaries xorb) ->
    appends (RawXorbData.data xorb) [] [] (SerializedXorbObject.serialize_data xorb scheme retest).
Proof.
  intros Hsm Hr (bs & Eb & Hsort & Hle). unfold SerializedXorbObject.serialize_data.
  destruct (Nat.eqb_spec (length (RawXorbData.data xorb)) 0) as [Hn|Hn].
  { rewrite andb_false_r. by apply appends_try_core, serialize_chunks_spec. }
  destruct (bool_decide (scheme = Auto)); [|by apply appends_try_core, serialize_chunks_spec]. cbn [negb andb].
  rewrite Eb in *. pose proof (serialize_files_spec retest (RawXorbData.data xorb) 0 bs [] [] Hsm ltac:(lia) Hsort Hle) as Hsp.
  by rewrite drop_0 in Hsp.
Qed.

(** What [from_xorb_with_compression] builds from the xorb of some chunks. *)
Lemma from_xorb_spec chunks bounds xorb scheme retest :
    chunks_small (chunk_data <$> chunks) -> Forall (fun c => hash_wf (chunk_hash c)) chunks -> hash_wf (xorb_hash (chunk_node <$> chunks)) ->
    build_fits chunks -> file_boundaries_ok (length chunks) bounds ->
    RawXorbData.from_chunks chunks bounds = Some xorb ->
    exists bss, let datas := chunk_data <$> chunks in
      let i := footer_of (xorb_hash (chunk_node <$> chunks)) (chunk_hash <$> chunks) datas bss in
      Forall2 serialized datas bss /\ info_wf i /\
      forall serialize_footer,
      SerializedXorbObject.from_xorb_with_compression xorb scheme serialize_footer retest =
        Ok (SerializedXorbObject.mk (if serialize_footer then object_bytes i bss else concat bss) (xorb_hash (chunk_node <$> chunks))
              (Z.of_nat (chunks_size chunks)) (length chunks)
              (if serialize_footer then Some (Z.of_nat (length (concat bss))) else None)).
Proof.
  intros Hsm Hhs Hh Hf Hb Hx.
  destruct (from_chunks_ok chunks bounds) as (x & Ex & E1 & _ & E2 & E3 & E4 & E5); [unfold build_fits in Hf; lia..|].
  rewrite Hx in Ex. injection Ex as <-.
  set (retest' := if 0 <? retest then retest else length (RawXorbData.data xorb)).
  destruct (serialize_data_spec xorb scheme retest') as (bss & Hss & Eb); [by rewrite E3| |by rewrite E3, E5, length_fmap|].
  { unfold retest'. destruct (Nat.ltb_spec 0 retest); lia. }
  rewrite E3 in Hss. pose proof (Forall2_length _ _ _ Hss) as Hl. rewrite length_fmap in Hl. pose proof (sizes_fit_build _ _ Hf Hss) as Hfit.
  exists bss. cbn zeta. split; [done|].
  assert (info_wf (footer_of (xorb_hash (chunk_node <$> chunks)) (chunk_hash <$> chunks) (chunk_data <$> chunks) bss)) as Hw.
  { apply xorb_footer_wf; rewrite ?length_fmap; auto. by apply Forall_fmap. }
  split; [done|]. intros serialize_footer.
  unfold SerializedXorbObject.from_xorb_with_compression. cbn zeta. fold retest'. rewrite Eb, result_bind_Ok. cbn [app length].
  change (wrap32 (Z.of_nat 0)) with 0%Z. rewrite E1, E2, E3, length_fmap. unfold MDBXorbInfo.chunks_and_boundaries.
  rewrite E4, entries_boundaries. change (wrap32 (Z.of_nat 0)) with 0%Z. destruct serialize_footer; [|done].
  rewrite fst_zip, snd_zip, length_zip_with_l_eq by (rewrite byte_indices_length, !length_fmap; lia).
  rewrite (fill_in_footer (xorb_hash (chunk_node <$> chunks))) by (rewrite ?length_fmap; auto).
  rewrite serialize_info_ok; [done|done|].
  rewrite footer_length, length_fmap by done. destruct Hfit. lia.
Qed.

(** *** Rebuilding the footer *)

Lemma serialized_parts c b :
    serialized c b -> exists header s comp,
      b = write_chunk_header header ++ comp /\ length b = 8 + length comp /\
      (forall rest, deserialize_chunk_header (b ++ rest) = Ok (header, comp ++ rest)) /\
      get_compressed_length header = Z.of_nat (length comp) /\ get_compression_scheme header = Ok s /\
      decompress_from_slice s comp = Ok c.
Proof.
  intros (Hlen & s & n & Hs). destruct (serialize_chunk_spec c s) as (s' & comp & E & Ha & Hc & _ & D).
  rewrite E in Hs. rewrite !wrap32_small in Hs by (unfold is_u32; lia).
  destruct (header_roundtrip max_fits s' (Z.of_nat (length comp)) (Z.of_nat (length c)) []) as (_ & _ & G1 & G2 & _ & G3); [done|lia..|].
  set (h := XorbChunkHeader_new s' _ _) in *. assert (b = write_chunk_header h ++ comp) as -> by congruence.
  exists h, s', comp. split_and!; [done|by rewrite length_app, G3| |done..]. intros rest. rewrite <- app_assoc.
  apply (header_roundtrip max_fits); [done|lia..].
Qed.

Lemma ends_snoc l b : byte_indices 0 (l ++ [b]) = byte_indices 0 l ++ [wrap32 (Z.of_nat (length (concat l)) + Z.of_nat (length b))].
Proof. change 0%Z with (wrap32 0). rewrite ends_app. cbn [byte_indices]. rewrite wrap32_add_l. done. Qed.

Lemma ends_last l : List.last (byte_indices 0 l) 0%Z = wrap32 (Z.of_nat (length (concat l))).
Proof.
  destruct l as [|b l _] using rev_ind; [done|]. rewrite ends_snoc, List.last_last, concat_app, length_app. cbn [concat].
  by rewrite app_nil_r, Nat2Z.inj_add.
Qed.

(** What can follow the chunks: nothing, or a footer. *)
Definition no_more_chunks (tail : list byte) : Prop := tail = [] \/ deserialize_chunk_header tail = Err ChunkHeaderParse.

Lemma footer_stops i rest : no_more_chunks (info_bytes i ++ rest).
Proof.
  right. unfold deserialize_chunk_header. assert (exists b r, info_bytes i ++ rest = (XORB_OBJECT_FORMAT_IDENT ++ [b]) ++ r) as (b & r & ->).
  { unfold info_bytes. change (write_u8 1) with [Byte.x01]. rewrite <- !app_assoc. eexists _, _. rewrite <- app_assoc. reflexivity. }
  rewrite bind_read_exact by done. unfold lift, parse_chunk_header. by rewrite decide_True.
Qed.

Lemma reconstruct_loop_spec d1 d2 b1 b2 tail fuel :
    Forall2 serialized d2 b2 -> no_more_chunks tail -> length b2 < fuel ->
    reconstruct_loop fuel (concat b2 ++ tail) (data_node <$> d1) (byte_indices 0 b1) (byte_indices 0 d1) (concat b1) =
    Ok (data_node <$> d1 ++ d2, byte_indices 0 (b1 ++ b2), byte_indices 0 (d1 ++ d2), concat (b1 ++ b2)).
Proof.
  intros Hss Hstop. revert d1 b1 fuel. induction Hss as [|d b d2 b2 Hs Hss IH]; intros d1 b1 fuel Hf;
    (destruct fuel as [|fuel]; [cbn in Hf; lia|]); cbn [concat reconstruct_loop].
  - rewrite !app_nil_r. cbn [app]. destruct tail as [|t tail]; [done|]. destruct Hstop as [? | ->]; done.
  - destruct (serialized_parts d b Hs) as (h & s & comp & Eb & Hl & Hh & Hc & Hsc & Hd). rewrite <- app_assoc.
    destruct (b ++ concat b2 ++ tail) as [|y r] eqn:Er; [apply (f_equal length) in Er; rewrite length_app in Er; cbn in Er; lia|].
    rewrite <- Er, Hh. cbn zeta. rewrite Hc, Nat2Z.id, read_exact_app, Hsc, result_bind_Ok, Hd. cbn zeta.
    rewrite !ends_last, !wrap32_add_l. rewrite (Z.add_comm _ (wrap32 _)), (Z.add_comm _ (wrap32 _)), !wrap32_add_l.
    specialize (IH (d1 ++ [d]) (b1 ++ [b]) fuel). rewrite !ends_snoc, concat_app, fmap_app in IH. cbn [concat fmap list_fmap] in IH.
    rewrite app_nil_r, <- !app_assoc in IH. cbn [app] in IH. rewrite Eb in IH at 2.
    unfold XORB_CHUNK_HEADER_LENGTH. rewrite <- Hl, (Z.add_comm (Z.of_nat (length b))), (Z.add_comm (Z.of_nat (length d))).
    apply IH. cbn in Hf. lia.
Qed.

Lemma reconstruct_spec datas bss tail :
    Forall2 serialized datas bss -> sizes_fit datas bss -> no_more_chunks tail ->
    hash_wf (xorb_hash (data_node <$> datas)) -> Forall hash_wf (compute_data_hash <$> datas) ->
    let i := footer_of (xorb_hash (data_node <$> datas)) (compute_data_hash <$> datas) datas bss in
    reconstruct_xorb_with_footer (concat bss ++ tail) =
      Ok (object_bytes i bss, XorbObject.mk i (Z.of_nat (length (info_bytes i))), xorb_hash (data_node <$> datas)).
Proof.
  intros Hss Hf Hstop Hh Hhs i. pose proof (Forall2_length _ _ _ Hss) as Hl. pose proof (serialized_count _ _ Hss).
  unfold reconstruct_xorb_with_footer. rewrite (reconstruct_loop_spec [] datas [] bss) by (auto; rewrite length_app; lia).
  rewrite result_bind_Ok. cbn zeta. cbn [app].
  assert (info_wf i) as Hw by (apply xorb_footer_wf; rewrite ?length_fmap; auto).
  replace (fst <$> (data_node <$> datas)) with (compute_data_hash <$> datas) by (by rewrite <- list_fmap_compose).
  replace (length (data_node <$> datas)) with (length (compute_data_hash <$> datas)) by (by rewrite !length_fmap).
  rewrite (fill_in_footer (xorb_hash (data_node <$> datas))) by (rewrite ?length_fmap; auto).
  fold i. rewrite serialize_info_ok, result_bind_Ok; [|done|].
  - unfold object_bytes. done.
  - unfold i. rewrite footer_length, length_fmap by done. destruct Hf. lia.
Qed.

(** ** What the operations do on an object that was built *)

(** Chunks whose hashes are those of their data. *)
Definition hashed (chunks : list Chunk) : Prop := Forall (fun c => chunk_hash c = compute_data_hash (chunk_data c)) chunks.

Lemma compute_data_hash_wf d : hash_wf (compute_data_hash d).
Proof. apply from_bytes_wf, keyed_hash_length. Qed.

Lemma hashed_hashes chunks : hashed chunks -> chunk_hash <$> chunks = compute_data_hash <$> (chunk_data <$> chunks).
Proof. induction 1 as [|c chunks E H IH]; [done|]. cbn. by rewrite E, IH. Qed.

Lemma hashed_nodes chunks : hashed chunks -> chunk_node <$> chunks = data_node <$> (chunk_data <$> chunks).
Proof. induction 1 as [|c chunks E H IH]; [done|]. rewrite !fmap_cons. f_equal; [|done]. unfold chunk_node, data_node. by rewrite E. Qed.

Lemma hashed_wf chunks : hashed chunks -> Forall (fun c => hash_wf (chunk_hash c)) chunks.
Proof. intros H. eapply Forall_impl; [exact H|]. intros c ->. apply compute_data_hash_wf. Qed.

Lemma hashed_xorb_hash_wf chunks : hashed chunks -> hash_wf (xorb_hash (chunk_node <$> chunks)).
Proof. intros H. apply xorb_hash_wf, Forall_fmap. by apply hashed_wf. Qed.

Lemma data_hashes_wf datas : Forall hash_wf (compute_data_hash <$> datas).
Proof. apply Forall_fmap, Forall_true. intros d. apply compute_data_hash_wf. Qed.

(** C9: an object built from chunks can be opened, is valid, and gives every range of its chunks
    back.  For chunks within the maximum size, whatever the compression scheme, the interval of its
    choice and the file boundaries: serialising with the footer succeeds; opening the bytes finds
    the footer; validation accepts them under the hash of the xorb; and the bytes read for any range
    of chunks, or for the whole object, are the data of those chunks. *)
Theorem xorb_object_roundtrip chunks bounds scheme retest :
    hashed chunks -> chunks <> [] -> chunks_small (chunk_data <$> chunks) -> build_fits chunks ->
    file_boundaries_ok (length chunks) bounds -> xorb_hash (chunk_node <$> chunks) <> DataHash.default ->
    exists xorb s x ahead,
      RawXorbData.from_chunks chunks bounds = Some xorb /\
      SerializedXorbObject.from_xorb_with_compression xorb scheme true retest = Ok s /\
      let f := SerializedXorbObject.serialized_data s in
      XorbObject.deserialize f = Ok (x, ahead) /\
      XorbObject.validate_xorb_object f (xorb_hash (chunk_node <$> chunks)) = Ok (Some x) /\
      XorbObject.get_all_bytes x f = Ok (concat (chunk_data <$> chunks)) /\
      (forall a b, a < b -> b <= length chunks ->
         XorbObject.get_bytes_by_chunk_range x f (Z.of_nat a) (Z.of_nat b) = Ok (concat ((chunk_data <$> chunks) ⟦a, b⟧)) /\
         XorbObject.uncompressed_range_length x (Z.of_nat a) (Z.of_nat b) =
           Ok (Z.of_nat (length (concat ((chunk_data <$> chunks) ⟦a, b⟧))))).
Proof.
  intros Hh Hne Hsm Hf Hb Hd. destruct (from_chunks_ok chunks bounds) as (xorb & Ex & _); [unfold build_fits in Hf; lia..|].
  destruct (from_xorb_spec chunks bounds xorb scheme retest) as (bss & Hss & Hw & E); auto using hashed_wf, hashed_xorb_hash_wf.
  pose proof (Forall2_length _ _ _ Hss) as Hl. rewrite length_fmap in Hl. pose proof (sizes_fit_build _ _ Hf Hss) as Hfit.
  set (i := footer_of _ _ _ _) in *. assert (bss <> []) as Hne' by (destruct bss, chunks; done).
  exists xorb. eexists _, (XorbObject.mk i (Z.of_nat (length (info_bytes i)))), _. split; [done|]. split; [exact (E true)|].
  cbn zeta. cbn [SerializedXorbObject.serialized_data]. split.
  { apply open_object; [done|]. unfold i. rewrite footer_length, length_fmap by done. destruct Hfit. lia. }
  split.
  { unfold i. rewrite (hashed_hashes _ Hh), <- no_nonce. apply validate_object; auto using hashed_xorb_hash_wf, data_hashes_wf.
    - by destruct chunks.
    - by rewrite (hashed_nodes _ Hh). }
  split; [apply read_all; rewrite ?length_fmap; auto|].
  intros a b Hab Hb'. split; [apply read_chunk_range|apply read_range_length]; rewrite ?length_fmap; auto; lia.
Qed.

(** The footer of an object can be rebuilt from its chunks.  Whether the object was serialised
    without its footer or with it, [reconstruct_xorb_with_footer] writes exactly the bytes that
    serialising with the footer gives, and computes the hash of the xorb. *)
Theorem reconstruct_footer chunks bounds xorb scheme retest with_footer s s' :
    hashed chunks -> chunks_small (chunk_data <$> chunks) -> build_fits chunks ->
    file_boundaries_ok (length chunks) bounds -> RawXorbData.from_chunks chunks bounds = Some xorb ->
    SerializedXorbObject.from_xorb_with_compression xorb scheme true retest = Ok s ->
    SerializedXorbObject.from_xorb_with_compression xorb scheme with_footer retest = Ok s' ->
    exists x, reconstruct_xorb_with_footer (SerializedXorbObject.serialized_data s') =
      Ok (SerializedXorbObject.serialized_data s, x, xorb_hash (chunk_node <$> chunks)).
Proof.
  intros Hh Hsm Hf Hb Ex E1 E2.
  destruct (from_xorb_spec chunks bounds xorb scheme retest) as (bss & Hss & Hw & E); auto using hashed_wf, hashed_xorb_hash_wf.
  rewrite E in E1, E2. injection E1 as <-. injection E2 as <-. cbn [SerializedXorbObject.serialized_data].
  set (i := footer_of _ _ _ _) in *. pose proof (sizes_fit_build _ _ Hf Hss) as Hfit. pose proof (hashed_xorb_hash_wf _ Hh) as Hxw.
  assert (exists tail, (if with_footer then object_bytes i bss else concat bss) = concat bss ++ tail /\ no_more_chunks tail) as (tail & -> & Hstop).
  { destruct with_footer; [eexists; split; [reflexivity|apply footer_stops]|exists []; rewrite app_nil_r; split; [done|by left]]. }
  eexists. rewrite (hashed_nodes _ Hh) in Hxw. rewrite (reconstruct_spec (chunk_data <$> chunks)) by auto using data_hashes_wf.
  unfold i. rewrite <- (hashed_hashes _ Hh), <- (hashed_nodes _ Hh). reflexivity.
Qed.

(** *** What validation guarantees *)

Lemma convert_three_u32 b : length b <= 3 -> is_u32 (convert_three_byte_num b).
Proof.
  intros Hb. unfold convert_three_byte_num. pose proof (le_combine_bound (b ++ [Byte.x00])) as H. rewrite length_app in H. cbn in H.
  unfold is_u32. split; [lia|]. eapply Z.lt_le_trans; [apply H|]. apply Z.pow_le_mono_r; lia.
Qed.

Lemma deserialize_chunk_length r d n z r' : deserialize_chunk r = Ok (d, n, z, r') -> z = Z.of_nat (length d).
Proof.
  intros H. apply bind_inv in H as (h & r1 & Hh & H).
  assert (length (uncompressed_length h) <= 3) as Hl.
  { apply bind_inv in Hh as (b & r2 & _ & Hh). unfold lift, parse_chunk_header in Hh. case_decide; [done|].
    destruct (validate _); [|done]. injection Hh as <- _. unfold header_of_bytes, slice; cbn [uncompressed_length]. rewrite length_take. lia. }
  apply bind_inv in H as (s & r2 & _ & H). apply bind_inv in H as (out & r3 & _ & H). cbn zeta in H.
  destruct (Z.eqb_spec (Z.of_nat (length out)) (get_uncompressed_length h)) as [E|]; [|done]. cbn [negb] in H.
  unfold mret, reader_ret in H. injection H as -> _ <- _. rewrite E. apply wrap32_small, convert_three_u32, Hl.
Qed.

(** The chunk [k] of the object [f] with the footer [i] decodes to [d], whose hash the footer has. *)
Definition stored_chunk (f : list byte) (i : XorbObjectInfoV1.t) (k : nat) (d : list byte) : Prop :=
    XorbObjectInfoV1.chunk_hashes i !! k = Some (compute_data_hash d) /\
    exists start n r, XorbObject.offset_before (XorbObjectInfoV1.chunk_boundary_offsets i) (Z.of_nat k) = Ok start /\
      deserialize_chunk (drop (Z.to_nat start) f) = Ok (d, n, Z.of_nat (length d), r).

Lemma validate_chunks_sound f i m k ahead hc cum unp start ahead' hc' cum' :
    XorbObject.validate_chunks f i (seq k m) ahead hc cum unp start = Ok (Some (ahead', hc', cum')) ->
    XorbObject.offset_before (XorbObjectInfoV1.chunk_boundary_offsets i) (Z.of_nat k) = Ok start ->
    exists datas, length datas = m /\ hc' = hc ++ (data_node <$> datas) /\
      forall j d, datas !! j = Some d -> stored_chunk f i (k + j) d.
Proof.
  revert k ahead hc cum unp start. induction m as [|m IH]; intros k ahead hc cum unp start H Hk; cbn [seq XorbObject.validate_chunks] in H.
  { injection H as _ <- _. exists []. cbn. by rewrite app_nil_r. }
  destruct (deserialize_chunk (drop (Z.to_nat start) f)) as [[[[d n] z] r]|e] eqn:Ed; [|by destruct e].
  unfold ok_for_format_error, try_core in H. rewrite result_bind_Ok in H. cbn zeta in H.
  pose proof (deserialize_chunk_length _ _ _ _ _ Ed) as ->.
  apply result_bind_ok in H as (stored & Hst & H). case_decide as Hne; [done|]. subst stored.
  apply result_bind_ok in H as (boundary & Hbd & H). destruct (negb _); [done|].
  apply result_bind_ok in H as (differs & _ & H). destruct differs; [done|].
  unfold index in Hst, Hbd. destruct (XorbObjectInfoV1.chunk_hashes i !! k) as [hs|] eqn:Ehs; [|done]. injection Hst as ->.
  destruct (XorbObjectInfoV1.chunk_boundary_offsets i !! k) as [bd|] eqn:Ebd; [|done]. injection Hbd as ->.
  apply IH in H as (datas & Hlen & -> & Hall).
  - exists (d :: datas). split; [cbn; lia|]. split; [by rewrite <- app_assoc|].
    intros [|j] d' Hd'; cbn in Hd'; [|rewrite <- Nat.add_succ_comm; by apply Hall].
    injection Hd' as <-. rewrite Nat.add_0_r. split; [done|]. by exists start, n, r.
  - unfold XorbObject.offset_before. destruct (Z.eqb_spec (Z.of_nat (S k)) 0); [lia|]. apply index_some.
    rewrite Nat2Z.id. cbn. by rewrite Nat.sub_0_r.
Qed.

Lemma opened_hashes_length f x ahead :
    XorbObject.deserialize f = Ok (x, ahead) ->
    length (XorbObjectInfoV1.chunk_hashes (XorbObject.info x)) = Z.to_nat (XorbObjectInfoV1.num_chunks (XorbObject.info x)).
Proof.
  unfold XorbObject.deserialize. intros H. apply result_bind_ok in H as (n & _ & H). apply result_bind_ok in H as (r & _ & H).
  apply result_bind_ok in H as ([[s m] r'] & Hs & H). destruct (negb _); [done|]. injection H as <- _. cbn [XorbObject.info].
  apply deserialize_inv in Hs as [(Hw & _)|(s0 & Hw & -> & _)].
  - destruct Hw as (_ & _ & _ & _ & _ & _ & _ & _ & _ & _ & k & -> & -> & _). by rewrite Nat2Z.id.
  - destruct Hw as (_ & _ & _ & _ & _ & H & _). cbn. lia.
Qed.

(** C25: an object that validation accepts under a hash holds data with that hash: the hash is that of
    the list of hashes and lengths of some chunks, every one of them is what decoding the object at
    the offset in the footer gives, and the footer lists their hashes. *)
Theorem validate_sound f hash x :
    XorbObject.validate_xorb_object f hash = Ok (Some x) ->
    exists datas,
      hash = xorb_hash (data_node <$> datas) /\ XorbObjectInfoV1.xorb_hash (XorbObject.info x) = hash /\
      XorbObjectInfoV1.chunk_hashes (XorbObject.info x) = compute_data_hash <$> datas /\
      forall k d, datas !! k = Some d -> stored_chunk f (XorbObject.info x) k d.
Proof.
  intros H. unfold XorbObject.validate_xorb_object in H.
  destruct (XorbObject.deserialize f) as [[y ahead]|e] eqn:Eo; [|by destruct e].
  unfold ok_for_format_error, try_core in H. rewrite result_bind_Ok in H.
  apply result_bind_ok in H as (walked & Hw & H). destruct walked as [[[ahead' hc] cum]|]; [|done].
  cbn zeta in H. destruct (_ || _); [done|]. case_decide as Hne; [done|]. injection H as <-.
  apply validate_chunks_sound in Hw as (datas & Hlen & -> & Hall); [|done]. cbn [app] in Hne.
  assert (xorb_hash (data_node <$> datas) = hash) as E1 by (apply dec_stable; tauto).
  assert (xorb_hash (data_node <$> datas) = XorbObjectInfoV1.xorb_hash (XorbObject.info y)) as E2 by (apply dec_stable; tauto).
  exists datas. apply opened_hashes_length in Eo. split_and!; [done|congruence| |exact Hall].
  - apply list_eq. intros k. rewrite list_lookup_fmap. destruct (datas !! k) as [d|] eqn:Ek.
    + apply (Hall k d Ek).
    + apply lookup_ge_None in Ek. apply lookup_ge_None. lia.
Qed.

(** *** The nonce *)

Lemma overwrite_object i bss nonce :
    info_wf i -> (Z.of_nat (length (info_bytes i)) < 2 ^ 32)%Z -> length nonce = 4 ->
    XorbObject.overwrite_uniqueness_nonce (object_bytes i bss) nonce =
      Ok (object_bytes (XorbObjectInfoV1.set_uniqueness_nonce i nonce) bss).
Proof.
  intros Hw Hf Hn. destruct (info_bytes_nonce i nonce) as (pre & E1 & E2).
  pose proof (set_nonce_wf i nonce Hw Hn) as Hw'. destruct (info_bytes_length i Hw) as [L1 _]. destruct (info_bytes_length _ Hw') as [L2 _].
  cbn [XorbObjectInfoV1.set_uniqueness_nonce XorbObjectInfoV1.chunk_hashes] in L2. fold (XorbObjectInfoV1.set_uniqueness_nonce i nonce) in L2.
  assert (length (XorbObjectInfoV1._nonce_buffer i) = 16) as Hb by (by destruct Hw as (_ & _ & _ & _ & _ & _ & _ & _ & _ & _ & n & _ & _ & _ & _ & _ & _ & _ & ?)).
  unfold XorbObject.overwrite_uniqueness_nonce, object_bytes, XORB_OBJECT_FORMAT_FOOTER_BUFFER_LEN. cbn zeta.
  rewrite L1, L2, <- L1. set (w := write_u32 _). assert (length w = 4) as Hlw by apply (encode_length (encode := write_u32)).
  assert (length (info_bytes i) = length pre + 16) as Hpre by (by rewrite E1, length_app, Hb).
  rewrite !length_app, Hlw, Hpre. rewrite (proj2 (Nat.ltb_ge _ _)) by lia.
  rewrite app_assoc, drop_app_length' by (rewrite length_app; lia).
  unfold w at 1 2. unfold write_u32. rewrite le_combine_split_small, Nat2Z.id by lia.
  rewrite !(proj2 (Nat.ltb_ge _ _)) by lia. cbn [orb]. f_equal. unfold XorbObject.copy_at. rewrite E1, E2, Hn.
  rewrite <- !app_assoc, (app_assoc (concat bss)), (app_assoc (concat bss)).
  rewrite take_app_length' by (rewrite length_app; lia). do 2 f_equal.
  rewrite drop_app_ge by (rewrite length_app; lia). replace (_ - _) with 4 by (rewrite length_app; lia).
  rewrite drop_app_le by lia. done.
Qed.

(** The nonce of a serialised object can be replaced in place.  The overwritten bytes differ from
    the object only in the four bytes of the nonce, they are valid under the same hash, and the nonce
    that is read from them is the new one. *)
Theorem nonce_overwrite chunks bounds xorb scheme retest s nonce :
    hashed chunks -> chunks <> [] -> chunks_small (chunk_data <$> chunks) -> build_fits chunks ->
    file_boundaries_ok (length chunks) bounds -> RawXorbData.from_chunks chunks bounds = Some xorb ->
    SerializedXorbObject.from_xorb_with_compression xorb scheme true retest = Ok s -> length nonce = 4 ->
    let f := SerializedXorbObject.serialized_data s in
    exists f' x, XorbObject.overwrite_uniqueness_nonce f nonce = Ok f' /\
      length f' = length f /\ take (length f - 20) f' = take (length f - 20) f /\ drop (length f - 16) f' = drop (length f - 16) f /\
      XorbObject.validate_xorb_object f' (xorb_hash (chunk_node <$> chunks)) = Ok (Some x) /\
      XorbObjectInfoV1.uniqueness_nonce (XorbObject.info x) = nonce.
Proof.
  intros Hh Hne Hsm Hf Hb Ex E1 Hn f.
  destruct (from_xorb_spec chunks bounds xorb scheme retest) as (bss & Hss & Hw & E); auto using hashed_wf, hashed_xorb_hash_wf.
  pose proof (Forall2_length _ _ _ Hss) as Hl. rewrite length_fmap in Hl. pose proof (sizes_fit_build _ _ Hf Hss) as Hfit.
  rewrite E in E1. injection E1 as <-. subst f. cbn [SerializedXorbObject.serialized_data].
  set (i := footer_of _ _ _ _) in *. assert (Z.of_nat (length (info_bytes i)) < 2 ^ 32)%Z as Hlen.
  { unfold i. rewrite footer_length, length_fmap by done. destruct Hfit. lia. }
  pose proof (overwrite_object i bss nonce Hw Hlen Hn) as Ho.
  exists (object_bytes (XorbObjectInfoV1.set_uniqueness_nonce i nonce) bss). eexists. split; [done|].
  unfold XorbObject.overwrite_uniqueness_nonce in Ho. cbn zeta in Ho. destruct (_ <? _) eqn:H20 in Ho; [done|]. apply Nat.ltb_ge in H20.
  destruct (_ || _) in Ho; [done|]. injection Ho as Ho.
  unfold XorbObject.copy_at, XORB_OBJECT_FORMAT_FOOTER_BUFFER_LEN in *. set (g := object_bytes i bss) in *.
  rewrite <- Ho at 1 2 3. rewrite Hn. split_and!.
  - rewrite !length_app, length_take, length_drop. lia.
  - replace (length g - 20) with (length g - 4 - 16) by lia. rewrite take_app_length' by (rewrite length_take; lia). done.
  - rewrite drop_app_ge by (rewrite length_take; lia). rewrite drop_app_ge by (rewrite length_take; lia).
    rewrite drop_drop. f_equal. rewrite length_take. lia.
  - unfold i. rewrite (hashed_hashes _ Hh). apply validate_object; auto using hashed_xorb_hash_wf, data_hashes_wf; [by destruct chunks|].
    by rewrite (hashed_nodes _ Hh).
  - by apply get_set_nonce.
Qed.
End Layout.

(** ** Errors and version 0 *)

Section Errors.
  Context `{B3 : Blake3} `{CC : ChunkConstants} `{CP : Compression}.

(** Validation rejects malformed objects with [None], but an object that is too short is an I/O
    error, not a rejection: fewer than four bytes, or fewer than the length at its end says. *)
Theorem validate_short_object f hash :
    (length f < 4 \/ exists n, XorbObject.get_info_length f = Ok n /\ length f < 4 + Z.to_nat n) ->
    XorbObject.validate_xorb_object f hash = Err (Failed (Io InvalidInput)).
Proof.
  intros H. unfold XorbObject.validate_xorb_object. assert (XorbObject.deserialize f = Err (Io InvalidInput)) as ->; [|done].
  unfold XorbObject.deserialize. destruct H as [H|(n & -> & H)].
  - unfold XorbObject.get_info_length, seek_from_end. by rewrite (proj2 (Nat.leb_gt _ _)).
  - rewrite result_bind_Ok. unfold seek_from_end. by rewrite (proj2 (Nat.leb_gt _ _)).
Qed.

(** A footer of version 0 has no unpacked offsets.  On the object read from one, the length of a
    chunk is an error, but the length of a range of chunks is an index out of range. *)
Theorem version0_range_length_panics s0 n a b :
    v0_wf s0 -> XorbObjectInfoV0.xorb_hash s0 <> DataHash.default ->
    (0 <= a < b)%Z -> (b <= XorbObjectInfoV0.num_chunks s0)%Z ->
    let x := XorbObject.mk (XorbObjectInfoV1.from_v0 s0) n in
    XorbObject.uncompressed_chunk_length x a = Err (Failed InvalidArguments) /\
    XorbObject.uncompressed_range_length x a b = Err Panicked.
Proof.
  intros (_ & _ & _ & Hn & H1 & H2 & _) Hh Hab Hb x. unfold is_u32 in Hn.
  assert (XorbObject.validate_xorb_object_info x = Ok tt) as Hv.
  { unfold XorbObject.validate_xorb_object_info, XorbObject.count_differs, x. cbn -[wrap32]. rewrite H1, H2, wrap32_small, Z.eqb_refl by done.
    destruct (Z.eqb_spec (XorbObjectInfoV0.num_chunks s0) 0); [lia|]. cbn. by rewrite decide_False. }
  unfold XorbObject.uncompressed_chunk_length, XorbObject.uncompressed_range_length. rewrite Hv. unfold try_core. rewrite !result_bind_Ok.
  split; [done|]. cbn zeta. unfold x. cbn [XorbObject.info XorbObjectInfoV1.from_v0 XorbObjectInfoV1.fill_in_boundary_offsets
    XorbObjectInfoV1.num_chunks XorbObjectInfoV1.unpacked_chunk_offsets].
  rewrite !(proj2 (Z.ltb_ge _ _)), (proj2 (Z.leb_gt _ _)), (proj2 (Z.eqb_neq _ _)) by lia. cbn [orb].
  unfold XorbObject.offset_before, index. by destruct (a =? 0)%Z.
Qed.

Lemma async_agrees f r v x :
    (0 <= v < 2 ^ 8)%Z -> (Z.of_nat (length r) < 2 ^ 32 - 8)%Z ->
    XorbObject.deserialize_async v r = Ok (x, []) ->
    exists ahead, XorbObject.deserialize (f ++ XORB_OBJECT_FORMAT_IDENT ++ write_u8 v ++ r) = Ok (x, ahead).
Proof.
  intros Hv Hr H. unfold XorbObject.deserialize_async in H. apply bind_inv in H as ([i n] & r1 & Hi & H).
  rewrite deserialize_async_agrees in Hi by done. set (g := XORB_OBJECT_FORMAT_IDENT ++ write_u8 v ++ r) in *.
  assert (exists bs, g = bs ++ r1 /\ n = wrap32 (Z.of_nat (length bs))) as (bs & Eg & En).
  { apply deserialize_inv in Hi as [(_ & E & ->)|(s0 & _ & _ & E & ->)]; eauto. }
  inv_step H. inv_step H. inv_step H. inv_step H. unfold mret, reader_ret in H. injection H as <- ->.
  apply Z.eqb_eq in E. subst x0. rewrite app_nil_r in *.
  assert (length g = 8 + length r) as Hg by done.
  assert (length g = length bs + 4) as Hg' by (rewrite Eg, length_app, (encode_length (encode := write_u32)); done).
  rewrite wrap32_small in En by (unfold is_u32; lia). subst n.
  exists (write_u32 (Z.of_nat (length bs))). unfold XorbObject.deserialize, XorbObject.get_info_length.
  rewrite Eg at 1. rewrite app_assoc, seek_from_end_app by apply (encode_length (encode := write_u32)). rewrite !result_bind_Ok.
  rewrite <- (app_nil_r (write_u32 _)) at 1. rewrite (decode_encode (decode := read_u32)), !result_bind_Ok by (unfold is_u32; lia).
  rewrite seek_from_end_app, result_bind_Ok by (rewrite Nat2Z.id; lia). rewrite Hi, result_bind_Ok, Z.eqb_refl. done.
Qed.
End Errors.

(** ** Examples *)
Module ObjectExamples.

#[local] Existing Instance toy_blake3.
#[local] Existing Instance FormatExamples.run_compression.
#[local] Existing Instance FormatExamples.format_constants.

Definition one_chunk : list Chunk := [Chunk_new [Byte.x01; Byte.x02; Byte.x03]].
Definition one_hash : DataHash := xorb_hash (chunk_node <$> one_chunk).

Definition one_object (with_footer : bool) : list byte :=
  match RawXorbData.from_chunks one_chunk [0] with
  | Some xorb =>
      match SerializedXorbObject.from_xorb_with_compression xorb SchemeNone with_footer 0 with
      | Ok s => SerializedXorbObject.serialized_data s
      | Err _ => []
      end
  | None => []
  end.

Lemma one_chunk_hashed : hashed one_chunk.
Proof. repeat constructor. Qed.

Lemma one_chunk_small : chunks_small (chunk_data <$> one_chunk).
Proof. repeat constructor. apply Z.leb_le. vm_compute. reflexivity. Qed.

Lemma one_chunk_fits : build_fits one_chunk.
Proof. apply Z.ltb_lt. vm_compute. reflexivity. Qed.

Lemma one_boundary : file_boundaries_ok (length one_chunk) [0].
Proof. exists []. repeat constructor. Qed.

Lemma one_hash_not_default : xorb_hash (chunk_node <$> one_chunk) <> DataHash.default.
Proof. intros E. apply (f_equal w0) in E. vm_compute in E. discriminate E. Qed.

Lemma xorb_object_roundtrip_witness :
  exists xorb s x ahead,
    RawXorbData.from_chunks one_chunk [0] = Some xorb /\
    SerializedXorbObject.from_xorb_with_compression xorb Auto true 0 = Ok s /\
    let f := SerializedXorbObject.serialized_data s in
    XorbObject.deserialize f = Ok (x, ahead) /\
    XorbObject.validate_xorb_object f (xorb_hash (chunk_node <$> one_chunk)) = Ok (Some x) /\
    XorbObject.get_all_bytes x f = Ok (concat (chunk_data <$> one_chunk)) /\
    (forall a b, a < b -> b <= length one_chunk ->
       XorbObject.get_bytes_by_chunk_range x f (Z.of_nat a) (Z.of_nat b) = Ok (concat ((chunk_data <$> one_chunk) ⟦a, b⟧)) /\
       XorbObject.uncompressed_range_length x (Z.of_nat a) (Z.of_nat b) =
         Ok (Z.of_nat (length (concat ((chunk_data <$> one_chunk) ⟦a, b⟧))))).
Proof.
  exact (xorb_object_roundtrip FormatExamples.max_fits one_chunk [0] Auto 0 one_chunk_hashed ltac:(discriminate)
    one_chunk_small one_chunk_fits one_boundary one_hash_not_default).
Defined.

Definition one_raw : RawXorbData.t :=
  match RawXorbData.from_chunks one_chunk [0] with Some xorb => xorb | None => RawXorbData.mk [] (MDBXorbInfo.mk XorbChunkSequenceHeader.bookend []) [] end.

Definition one_serialized (with_footer : bool) : SerializedXorbObject.t :=
  SerializedXorbObject.mk (one_object with_footer) one_hash 3 1 (if with_footer then Some 11%Z else None).

Lemma one_raw_eq : RawXorbData.from_chunks one_chunk [0] = Some one_raw.
Proof. vm_compute. reflexivity. Qed.

Lemma one_serialized_eq b : SerializedXorbObject.from_xorb_with_compression one_raw SchemeNone b 0 = Ok (one_serialized b).
Proof. destruct b; vm_compute; reflexivity. Qed.

Lemma reconstruct_footer_witness :
  exists x, reconstruct_xorb_with_footer (one_object false) = Ok (one_object true, x, xorb_hash (chunk_node <$> one_chunk)).
Proof.
  exact (reconstruct_footer FormatExamples.max_fits one_chunk [0] one_raw SchemeNone 0 false (one_serialized true) (one_serialized false)
    one_chunk_hashed one_chunk_small one_chunk_fits one_boundary one_raw_eq (one_serialized_eq true) (one_serialized_eq false)).
Defined.

Lemma nonce_overwrite_witness :
  let f := one_object true in
  exists f' x, XorbObject.overwrite_uniqueness_nonce f [Byte.x05; Byte.x06; Byte.x07; Byte.x08] = Ok f' /\
    length f' = length f /\ take (length f - 20) f' = take (length f - 20) f /\ drop (length f - 16) f' = drop (length f - 16) f /\
    XorbObject.validate_xorb_object f' (xorb_hash (chunk_node <$> one_chunk)) = Ok (Some x) /\
    XorbObjectInfoV1.uniqueness_nonce (XorbObject.info x) = [Byte.x05; Byte.x06; Byte.x07; Byte.x08].
Proof.
  exact (nonce_overwrite FormatExamples.max_fits one_chunk [0] one_raw SchemeNone 0 (one_serialized true) [Byte.x05; Byte.x06; Byte.x07; Byte.x08]
    one_chunk_hashed ltac:(discriminate) one_chunk_small one_chunk_fits one_boundary one_raw_eq (one_serialized_eq true) eq_refl).
Defined.

Definition one_opened : XorbObject.t :=
  match XorbObject.validate_xorb_object (one_object true) one_hash with
  | Ok (Some x) => x
  | _ => XorbObject.default
  end.

Lemma one_valid : XorbObject.validate_xorb_object (one_object true) one_hash = Ok (Some one_opened).
Proof. vm_compute. reflexivity. Qed.

Lemma validate_sound_witness :
  exists datas,
    one_hash = xorb_hash (data_node <$> datas) /\ XorbObjectInfoV1.xorb_hash (XorbObject.info one_opened) = one_hash /\
    XorbObjectInfoV1.chunk_hashes (XorbObject.info one_opened) = compute_data_hash <$> datas /\
    forall k d, datas !! k = Some d -> stored_chunk (one_object true) (XorbObject.info one_opened) k d.
Proof. exact (validate_sound (one_object true) one_hash one_opened one_valid). Defined.

Lemma validate_short_object_witness : XorbObject.validate_xorb_object [Byte.x01; Byte.x02] one_hash = Err (Failed (Io InvalidInput)).
Proof. apply (validate_short_object [Byte.x01; Byte.x02] one_hash). left. repeat constructor. Defined.

Definition old_footer : XorbObjectInfoV0.t :=
  XorbObjectInfoV0.mk XORB_OBJECT_FORMAT_IDENT 0 (mkDataHash 1 2 3 4) 1 [11%Z] [mkDataHash 5 6 7 8] (replicate 16 Byte.x00).

Lemma old_footer_wf : v0_wf old_footer.
Proof. repeat split; repeat constructor; cbn; lia. Qed.

Lemma version0_range_length_panics_witness :
  XorbObject.uncompressed_chunk_length (XorbObject.mk (XorbObjectInfoV1.from_v0 old_footer) 92) 0 = Err (Failed InvalidArguments) /\
  XorbObject.uncompressed_range_length (XorbObject.mk (XorbObjectInfoV1.from_v0 old_footer) 92) 0 1 = Err Panicked.
Proof. apply (version0_range_length_panics old_footer 92 0 1); [exact old_footer_wf|discriminate|lia|vm_compute; discriminate]. Defined.

End ObjectExamples.
