(* ===== verification/Interpolation.v ===== *)
(** * Interpolation search

    Model of [xet_core_structures/src/metadata_shard/interpolation_search.rs]: the search of a
    sorted table of [u64] keys with a payload, in a file.  The table can hold a key several times.
    Indices are counted from one, with ghost entries at both ends, as in the code.  The probe is
    computed in IEEE doubles; nothing below depends on its value, which the code clamps. *)

From Stdlib Require Import SpecFloat Sorted.
From coqutil Require Import Byte Word.LittleEndianList.
From stdpp Require Import base numbers list.
From S2P Require Import Prelude Floats DataHash Codec.

Definition READ_WINDOW_SIZE : Z := 256.
Definition EXPECTED_MAX_NUM_DUPLICATES : Z := 4.

Definition compute_probe_location (key lo lo_key hi hi_key : Z) : Z :=
  let fraction := SFdiv prec emax (f64_of_u64 (wrap64 (key - lo_key))) (f64_of_u64 (wrap64 (hi_key - lo_key))) in
  let offset := floor_as_u64 (SFmul prec emax fraction (f64_of_u64 (hi - lo))) in
  Z.min (Z.max (wrap64 (lo + offset)) (lo + 1)) (wrap64 (hi - 1)).

Section Search.
  Context {V : Type} (read_value : Reader V) (size_of_value : nat).
  Context (f : list byte) (read_start num_entries key : Z) (capacity : nat).

Definition pair_size : Z := Z.of_nat size_of_value + 8.

(** The values written so far to the result slice, which has room for [capacity]. *)
Definition write_result (found : list V) (value : V) : list V :=
    if length found <? capacity then found ++ [value] else found.

(** [for _ in (probe_index + 1)..hi], [n] rounds. *)
Fixpoint read_ahead (n : nat) (found : list V) : Reader (list V) :=
    match n with
    | O => mret found
    | S n' =>
        k ← read_u64;
        if negb (k =? key)%Z then mret found
        else
          value ← read_value;
          read_ahead n' (write_result found value)
    end.

(** What a round of the search does: the new bounds, probe and results. *)
Definition probe_step (lo lo_key hi hi_key probe_index : Z) (found : list V)
    : result CoreError (Z * Z * Z * Z * Z * list V) :=
    '(probe_key, r) ← read_u64 (seek_to f (wrap64 (read_start + wrap64 ((probe_index - 1) * pair_size))));
    match (key ?= probe_key)%Z with
    | Lt =>
        let hi := probe_index in
        let hi_key := probe_key in
        let candidate := compute_probe_location key lo lo_key hi hi_key in
        let probe_index :=
          if (probe_index <? candidate + READ_WINDOW_SIZE)%Z
          then (probe_index - Z.min READ_WINDOW_SIZE (probe_index - (lo + 1)))%Z
          else candidate in
        Ok (lo, lo_key, hi, hi_key, probe_index, found)
    | Eq =>
        '(value, r) ← read_value r;
        '(found, _) ← read_ahead (Z.to_nat (hi - (probe_index + 1))) (write_result found value) r;
        let jump_amount := Z.min EXPECTED_MAX_NUM_DUPLICATES (probe_index - (lo + 1)) in
        Ok (lo, lo_key, probe_index, probe_key, (probe_index - jump_amount)%Z, found)
    | Gt =>
        let lo := probe_index in
        let lo_key := probe_key in
        let candidate := compute_probe_location key lo lo_key hi hi_key in
        let probe_index :=
          if (candidate - probe_index <=? READ_WINDOW_SIZE)%Z
          then Z.min (lo + READ_WINDOW_SIZE) (hi - 1)
          else candidate in
        Ok (lo, lo_key, hi, hi_key, probe_index, found)
    end.

(** [while lo + READ_WINDOW_SIZE < hi]; [None] when the fuel runs out. *)
Fixpoint probe_loop (fuel : nat) (lo lo_key hi hi_key probe_index : Z) (found : list V)
    : option (result CoreError (Z * Z * list V)) :=
    match fuel with
    | O => None
    | S fuel' =>
        if (lo + READ_WINDOW_SIZE <? hi)%Z then
          match probe_step lo lo_key hi hi_key probe_index found with
          | Err e => Some (Err e)
          | Ok (lo, lo_key, hi, hi_key, probe_index, found) => probe_loop fuel' lo lo_key hi hi_key probe_index found
          end
        else Some (Ok (lo, hi, found))
    end.

(** [while lo + 1 < hi], [n] rounds. *)
Fixpoint scan_loop (n : nat) (found : list V) : Reader (list V) :=
    match n with
    | O => mret found
    | S n' =>
        probe_key ← read_u64;
        probe_value ← read_value;
        match (key ?= probe_key)%Z with
        | Lt => mret found
        | Eq => scan_loop n' (write_result found probe_value)
        | Gt => scan_loop n' found
        end
    end.

(** The values found, in the order written; the distance of the bounds goes down in every round.
    [None] when the fuel runs out. *)
Definition search_on_sorted_u64s : option (result CoreError (list V)) :=
    if capacity =? 0 then Some (Ok [])
    else
      let hi := wrap64 (num_entries + 1) in
      let hi_key := (2 ^ 64 - 1)%Z in
      let probe_index := compute_probe_location key 0 0 hi hi_key in
      match probe_loop (S (Z.to_nat hi)) 0 0 hi hi_key probe_index [] with
      | None => None
      | Some (Err e) => Some (Err e)
      | Some (Ok (lo, hi, found)) =>
          Some ('(found, _) ← scan_loop (Z.to_nat (hi - lo - 1)) found (seek_to f (wrap64 (read_start + wrap64 (lo * pair_size))));
                Ok found)
      end.
End Search.

(** ** The search ends *)

Lemma probe_location_bounds key lo lo_key hi hi_key :
  (0 <= lo)%Z -> (lo < hi < 2 ^ 64)%Z ->
  (Z.min (lo + 1) (hi - 1) <= compute_probe_location key lo lo_key hi hi_key <= hi - 1)%Z.
Proof.
  intros Hlo Hhi. unfold compute_probe_location. cbn zeta. generalize (wrap64 (lo + floor_as_u64
    (SFmul prec emax (SFdiv prec emax (f64_of_u64 (wrap64 (key - lo_key))) (f64_of_u64 (wrap64 (hi_key - lo_key)))) (f64_of_u64 (hi - lo))))) as x.
  intros x. rewrite wrap64_small by (unfold is_u64; lia). lia.
Qed.

Section Termination.
  Context {V : Type} (read_value : Reader V) (size_of_value : nat).
  Context (f : list byte) (read_start num_entries key : Z) (capacity : nat).

(** The bounds are a window of the table, and the probe is inside as long as the loop runs. *)
Definition window (lo hi probe_index : Z) : Prop :=
    (0 <= lo < hi)%Z /\ (hi < 2 ^ 64)%Z /\ (lo + READ_WINDOW_SIZE < hi -> lo < probe_index < hi)%Z.

Lemma probe_step_window lo lo_key hi hi_key p found lo' lo_key' hi' hi_key' p' found' :
    window lo hi p -> (lo + READ_WINDOW_SIZE < hi)%Z ->
    probe_step read_value size_of_value f read_start key capacity lo lo_key hi hi_key p found = Ok (lo', lo_key', hi', hi_key', p', found') ->
    window lo' hi' p' /\ (hi' - lo' < hi - lo)%Z /\ (lo <= lo')%Z /\ (hi' <= hi)%Z.
Proof.
  unfold window, READ_WINDOW_SIZE. intros (Hlo & Hhi & Hp) Hrun H. specialize (Hp Hrun). unfold probe_step in H.
  destruct (read_u64 _) as [[k r]|e]; [|done]. rewrite result_bind_Ok in H. destruct (Z.compare key k).
  - destruct (read_value r) as [[v r']|e]; [|done]. rewrite result_bind_Ok in H.
    destruct (read_ahead _ _ _ _ _ r') as [[fd r'']|e]; [|done]. rewrite result_bind_Ok in H. injection H as <- <- <- <- <- <-.
    unfold EXPECTED_MAX_NUM_DUPLICATES. lia.
  - cbn zeta in H. injection H as <- <- <- <- <- <-. pose proof (probe_location_bounds key lo lo_key p k). unfold READ_WINDOW_SIZE in *.
    destruct (Z.ltb_spec p (compute_probe_location key lo lo_key p k + 256)); lia.
  - cbn zeta in H. injection H as <- <- <- <- <- <-. pose proof (probe_location_bounds key p k hi hi_key). unfold READ_WINDOW_SIZE in *.
    destruct (Z.leb_spec (compute_probe_location key p k hi hi_key - p) 256); lia.
Qed.

Lemma probe_loop_ends fuel lo lo_key hi hi_key p found :
    window lo hi p -> (hi - lo < Z.of_nat fuel)%Z ->
    exists x, probe_loop read_value size_of_value f read_start key capacity fuel lo lo_key hi hi_key p found = Some x.
Proof.
  revert lo lo_key hi hi_key p found. induction fuel as [|fuel IH]; intros lo lo_key hi hi_key p found Hw Hf; [unfold window in Hw; lia|].
  cbn [probe_loop]. destruct (Z.ltb_spec (lo + READ_WINDOW_SIZE) hi) as [Hrun|]; [|eauto].
  destruct (probe_step _ _ _ _ _ _ _ _ _ _ _ _) as [[[[[[lo' lo_key'] hi'] hi_key'] p'] found']|e] eqn:E; [|eauto].
  apply probe_step_window in E as (Hw' & Hd & _); [|done..]. apply IH; [done|lia].
Qed.

Lemma initial_window :
    is_u64 num_entries ->
    let hi := wrap64 (num_entries + 1) in
    (0 < hi)%Z -> window 0 hi (compute_probe_location key 0 0 hi (2 ^ 64 - 1)).
Proof.
  intros Hn hi Hhi. assert (is_u64 hi) as Hu by apply wrap64_is_u64. unfold is_u64 in *. unfold window.
  pose proof (probe_location_bounds key 0 0 hi (2 ^ 64 - 1)). unfold READ_WINDOW_SIZE. lia.
Qed.

(** C27: the interpolation search ends on every file, sorted or not, for every key and every probe that
    the floating-point interpolation computes: each round moves a bound, and there are at most as
    many rounds as entries. *)
Theorem interpolation_search_terminates :
    is_u64 num_entries -> exists x, search_on_sorted_u64s read_value size_of_value f read_start num_entries key capacity = Some x.
Proof.
  intros Hn. unfold search_on_sorted_u64s. destruct (capacity =? 0); [eauto|]. cbn zeta.
  set (hi := wrap64 (num_entries + 1)). assert (is_u64 hi) as Hu by apply wrap64_is_u64. unfold is_u64 in Hu.
  destruct (Z.eq_dec hi 0%Z) as [Hz|Hz].
  - rewrite Hz. cbn. eauto.
  - destruct (probe_loop_ends (S (Z.to_nat hi)) 0%Z 0%Z hi (2 ^ 64 - 1)%Z (compute_probe_location key 0 0 hi (2 ^ 64 - 1)) [])
      as [x ->]; [apply initial_window; [done|lia]|lia|]. destruct x as [[[lo hi'] found]|e]; eauto.
Qed.
End Termination.

(** ** The search finds the entries *)

Lemma StronglySorted_drop {A} (R : A -> A -> Prop) l k : StronglySorted R l -> StronglySorted R (drop k l).
Proof. intros H. revert k. induction H as [|x l Hs IH Hf]; intros [|k]; cbn; [constructor|constructor|by constructor|apply IH]. Qed.

Lemma take_of_take_app {A} n (l m : list A) : take n (take n l ++ m) = take n (l ++ m).
Proof. rewrite !take_app, take_take, Nat.min_id, length_take. do 2 f_equal. lia. Qed.

Section Correct.
  Context {V : Type} (write_value : V -> list byte) (read_value : Reader V) (valid : V -> Prop) (sz : nat).
  Context {C : FixedCodec V write_value read_value valid sz}.
  Context (f rest : list byte) (read_start key : Z) (capacity : nat) (table : list (Z * V)).

Definition write_pair (e : Z * V) : list byte := write_u64 e.1 ++ write_value e.2.

(** The table is in the file at [read_start], sorted by key. *)
Hypothesis in_file : drop (Z.to_nat read_start) f = concat (write_pair <$> table) ++ rest.
Hypothesis sorted : StronglySorted (fun a b => a.1 <= b.1)%Z table.
Hypothesis entries_valid : Forall (fun e => is_u64 e.1 /\ valid e.2) table.
Hypothesis start_u64 : (0 <= read_start)%Z.
Hypothesis end_u64 : (read_start + Z.of_nat (length table) * (Z.of_nat sz + 8) < 2 ^ 64)%Z.
Hypothesis count_u64 : (Z.of_nat (length table) + 1 < 2 ^ 64)%Z.

(** The values of an entry list under the key. *)
Definition matches (l : list (Z * V)) : list V := snd <$> filter (fun e => e.1 = key) l.

Lemma matches_app l1 l2 : matches (l1 ++ l2) = matches l1 ++ matches l2.
Proof. unfold matches. by rewrite filter_app, fmap_app. Qed.

Lemma matches_none l : Forall (fun e => e.1 <> key) l -> matches l = [].
Proof. intros H. unfold matches. induction H as [|e l He Hl IH]; [done|]. by rewrite filter_cons_False. Qed.

Lemma length_write_pair e : length (write_pair e) = sz + 8.
Proof. unfold write_pair. rewrite length_app, !encode_length. lia. Qed.

Lemma length_pairs l : length (concat (write_pair <$> l)) = length l * (sz + 8).
Proof. induction l as [|e l IH]; [done|]. rewrite fmap_cons. cbn [concat length]. rewrite length_app, IH, length_write_pair. lia. Qed.

(** Where entry [k + 1] is read. *)
Lemma seek_entry k :
    k <= length table ->
    seek_to f (wrap64 (read_start + wrap64 (Z.of_nat k * pair_size sz))) = concat (write_pair <$> drop k table) ++ rest.
Proof.
  intros Hk. unfold seek_to, pair_size. assert (Z.of_nat k * (Z.of_nat sz + 8) <= Z.of_nat (length table) * (Z.of_nat sz + 8))%Z by nia.
  rewrite (wrap64_small (Z.of_nat k * _)), wrap64_small by (unfold is_u64; lia).
  replace (Z.to_nat _) with (Z.to_nat read_start + k * (sz + 8)) by lia. rewrite <- drop_drop, in_file.
  rewrite <- (take_drop k table) at 1. rewrite fmap_app, concat_app, <- app_assoc, drop_app_length'; [done|].
  rewrite length_pairs, length_take, Nat.min_l by lia. done.
Qed.

Lemma drop_cons_lookup {A} (l : list A) k : k < length l -> exists x, l !! k = Some x /\ drop k l = x :: drop (S k) l.
Proof. intros H. destruct (lookup_lt_is_Some_2 l k H) as [x Hx]. exists x. split; [done|]. by apply drop_S. Qed.

Definition write_all (found l : list V) : list V := fold_left (write_result capacity) l found.

Lemma write_all_take found l : length found <= capacity -> write_all found l = take capacity (found ++ l).
Proof.
  revert found. induction l as [|v l IH]; intros found Hf; cbn [write_all fold_left].
  - by rewrite app_nil_r, take_ge.
  - unfold write_result at 2. fold (write_all (if length found <? capacity then found ++ [v] else found) l).
    destruct (Nat.ltb_spec (length found) capacity) as [Hlt|Hge].
    + rewrite IH by (rewrite length_app; cbn; lia). by rewrite <- app_assoc.
    + rewrite IH by done. assert (length found = capacity) as Hc by lia. by rewrite !take_app_length'.
Qed.

Lemma read_pair_key e l r {B} (k : Z -> Reader B) :
    is_u64 e.1 -> (read_u64 ≫= k) (concat (write_pair <$> e :: l) ++ r) = k e.1 (write_value e.2 ++ concat (write_pair <$> l) ++ r).
Proof. intros He. rewrite fmap_cons. cbn [concat]. unfold write_pair at 1. rewrite <- !app_assoc. by rewrite (bind_decode (decode := read_u64)). Qed.

(** Among entries at or after the key, the ones under it come first. *)
Lemma read_ahead_spec n l found r :
    StronglySorted (fun a b => a.1 <= b.1)%Z l -> Forall (fun e => key <= e.1)%Z l -> Forall (fun e => is_u64 e.1 /\ valid e.2) l -> n <= length l ->
    exists r', read_ahead read_value key capacity n found (concat (write_pair <$> l) ++ r) = Ok (write_all found (matches (take n l)), r').
Proof.
  revert l found. induction n as [|n IH]; intros l found Hs Hk Hv Hn; cbn [read_ahead]; [by exists (concat (write_pair <$> l) ++ r)|].
  destruct l as [|e l]; [cbn in Hn; lia|]. apply Forall_cons in Hv as [[He1 He2] Hv]. apply Forall_cons in Hk as [Hke Hk].
  apply StronglySorted_inv in Hs as [Hs Hle]. rewrite read_pair_key by done. cbn [take].
  destruct (Z.eqb_spec e.1 key) as [E|E]; cbn [negb].
  - rewrite (bind_decode (decode := read_value)) by done. destruct (IH l (write_result capacity found e.2)) as [r' ->]; [done..|cbn in Hn; lia|].
    exists r'. unfold matches. rewrite filter_cons_True by done. done.
  - eexists. unfold mret, reader_ret. do 3 f_equal. rewrite matches_none; [done|]. constructor; [done|].
    apply Forall_take. eapply Forall_impl; [exact Hle|]. intros x Hx. cbn in Hx. lia.
Qed.

Lemma scan_loop_spec n l found r :
    StronglySorted (fun a b => a.1 <= b.1)%Z l -> Forall (fun e => is_u64 e.1 /\ valid e.2) l -> n <= length l ->
    exists r', scan_loop read_value key capacity n found (concat (write_pair <$> l) ++ r) = Ok (write_all found (matches (take n l)), r').
Proof.
  revert l found. induction n as [|n IH]; intros l found Hs Hv Hn; cbn [scan_loop]; [by exists (concat (write_pair <$> l) ++ r)|].
  destruct l as [|e l]; [cbn in Hn; lia|]. apply Forall_cons in Hv as [[He1 He2] Hv].
  apply StronglySorted_inv in Hs as [Hs Hle]. rewrite read_pair_key by done. rewrite (bind_decode (decode := read_value)) by done. cbn [take].
  destruct (Z.compare_spec key e.1) as [E|E|E].
  - destruct (IH l (write_result capacity found e.2)) as [r' ->]; [done..|cbn in Hn; lia|].
    exists r'. unfold matches. by rewrite filter_cons_True.
  - eexists. unfold mret, reader_ret. do 3 f_equal. rewrite matches_none; [done|]. constructor; [lia|].
    apply Forall_take. eapply Forall_impl; [exact Hle|]. intros x Hx. cbn in Hx. lia.
  - destruct (IH l found) as [r' ->]; [done..|cbn in Hn; lia|]. exists r'. unfold matches. rewrite filter_cons_False by lia. done.
Qed.

(** Sorted tables: what is before and after an entry. *)
Lemma sorted_before k e : table !! k = Some e -> Forall (fun x => x.1 <= e.1)%Z (take (S k) table).
Proof.
  intros Hk. apply Forall_forall. intros x Hx. apply list_elem_of_lookup in Hx as [j Hj].
  apply lookup_take_Some in Hj as [Hj Hlt]. destruct (decide (j = k)) as [->|Hne]; [rewrite Hk in Hj; injection Hj as ->; lia|].
  rewrite <- (take_drop_middle table j x Hj) in Hk, sorted.
  assert (e ∈ drop (S j) table) as He.
  { rewrite lookup_app_r in Hk by (rewrite length_take; lia). rewrite length_take, Nat.min_l in Hk by (apply lookup_lt_Some in Hj; lia).
    destruct (k - j) as [|m] eqn:Em; [lia|]. cbn in Hk. by apply list_elem_of_lookup_2 in Hk. }
  clear - sorted He. induction (take j table) as [|y l IH]; cbn in sorted; apply StronglySorted_inv in sorted as [Hs Hf]; [|by apply IH].
  rewrite Forall_forall in Hf. by apply Hf.
Qed.

Lemma sorted_after k e : table !! k = Some e -> Forall (fun x => e.1 <= x.1)%Z (drop k table).
Proof.
  intros Hk. rewrite (drop_S _ _ _ Hk). constructor; [lia|]. rewrite <- (take_drop_middle table k e Hk) in sorted.
  clear - sorted. induction (take k table) as [|y l IH]; cbn in sorted; apply StronglySorted_inv in sorted as [Hs Hf]; [done|by apply IH].
Qed.

Lemma sorted_drop k : StronglySorted (fun a b => a.1 <= b.1)%Z (drop k table).
Proof. by apply StronglySorted_drop. Qed.

(** What has been found above [hi], and what lies below [lo]. *)
Definition search_inv (lo hi : Z) (found : list V) : Prop :=
    (hi <= Z.of_nat (length table) + 1)%Z /\ Forall (fun e => e.1 < key)%Z (take (Z.to_nat lo) table) /\
    exists l, l ≡ₚ matches (drop (Z.to_nat hi - 1) table) /\ found = take capacity l.

Lemma probe_step_inv lo lo_key hi hi_key p found :
    window lo hi p -> (lo + READ_WINDOW_SIZE < hi)%Z -> search_inv lo hi found ->
    exists lo' lo_key' hi' hi_key' p' found',
      probe_step read_value sz f read_start key capacity lo lo_key hi hi_key p found = Ok (lo', lo_key', hi', hi_key', p', found') /\
      search_inv lo' hi' found'.
Proof.
  intros (Hlo & Hhi & Hp) Hrun (Hn & Hbelow & l & Hl & ->). specialize (Hp Hrun). unfold probe_step.
  replace (p - 1)%Z with (Z.of_nat (Z.to_nat p - 1)) by lia. rewrite seek_entry by lia.
  destruct (drop_cons_lookup table (Z.to_nat p - 1)) as (e & He & Ed); [lia|]. rewrite Ed.
  replace (S (Z.to_nat p - 1)) with (Z.to_nat p) in * by lia.
  destruct (proj1 (Forall_lookup _ _) entries_valid _ _ He) as [He1 He2].
  pose proof (sorted_before _ _ He) as Hbef. pose proof (sorted_after _ _ He) as Haft.
  replace (S (Z.to_nat p - 1)) with (Z.to_nat p) in Hbef by lia.
  rewrite fmap_cons. cbn [concat]. unfold write_pair at 1. rewrite <- !app_assoc. rewrite (decode_encode (decode := read_u64)) by done. rewrite result_bind_Ok.
  assert (drop (Z.to_nat hi - 1) table = drop (Z.to_nat hi - Z.to_nat p) (drop (Z.to_nat p - 1) table)) as Ehi by (rewrite drop_drop; f_equal; lia).
  destruct (Z.compare_spec key e.1) as [E|E|E].
  - rewrite decode_encode by done. rewrite result_bind_Ok.
    destruct (read_ahead_spec (Z.to_nat (hi - (p + 1))) (drop (Z.to_nat p) table) (write_result capacity (take capacity l) e.2) rest) as [r' ->].
    { apply sorted_drop. } { rewrite Ed in Haft. apply Forall_cons in Haft as [_ Haft]. by rewrite E. }
    { by apply Forall_drop. } { rewrite length_drop. lia. }
    rewrite result_bind_Ok. cbn zeta. eexists _, _, _, _, _, _. split; [done|]. split; [lia|]. split; [done|].
    exists (l ++ matches (take (Z.to_nat hi - Z.to_nat p) (drop (Z.to_nat p - 1) table))). split.
    + rewrite <- (take_drop (Z.to_nat hi - Z.to_nat p) (drop (Z.to_nat p - 1) table)) at 2. rewrite matches_app, <- Ehi, Hl. apply Permutation_app_comm.
    + replace (Z.to_nat hi - Z.to_nat p) with (S (Z.to_nat (hi - (p + 1)))) by lia. rewrite Ed. cbn [take].
      unfold matches at 2. rewrite filter_cons_True by done. rewrite fmap_cons.
      change (write_all (write_result capacity (take capacity l) e.2) ?m) with (write_all (take capacity l) (e.2 :: m)).
      rewrite write_all_take by (rewrite length_take; lia). by rewrite take_of_take_app.
  - cbn zeta. eexists _, _, _, _, _, _. split; [done|]. split; [lia|]. split; [done|].
    assert (matches (drop (Z.to_nat p - 1) table) = []) as Hm.
    { apply matches_none. eapply Forall_impl; [exact Haft|]. intros x Hx. cbn in Hx. lia. }
    exists []. rewrite Hm. split; [done|]. assert (l = []) as ->; [|done].
    apply Permutation_nil_r. rewrite Hl, Ehi, matches_none; [done|]. apply Forall_drop. eapply Forall_impl; [exact Haft|].
    intros x Hx. cbn in Hx. lia.
  - cbn zeta. eexists _, _, _, _, _, _. split; [done|]. split; [done|]. split; [|by exists l].
    eapply Forall_impl; [exact Hbef|]. intros x Hx. cbn in Hx. lia.
Qed.

Lemma probe_loop_inv fuel lo lo_key hi hi_key p found :
    window lo hi p -> search_inv lo hi found -> (hi - lo < Z.of_nat fuel)%Z ->
    exists lo' hi' p' found',
      probe_loop read_value sz f read_start key capacity fuel lo lo_key hi hi_key p found = Some (Ok (lo', hi', found')) /\
      window lo' hi' p' /\ search_inv lo' hi' found'.
Proof.
  revert lo lo_key hi hi_key p found. induction fuel as [|fuel IH]; intros lo lo_key hi hi_key p found Hw Hi Hf; [unfold window in Hw; lia|].
  cbn [probe_loop]. destruct (Z.ltb_spec (lo + READ_WINDOW_SIZE) hi) as [Hrun|]; [|eauto 10].
  destruct (probe_step_inv lo lo_key hi hi_key p found Hw Hrun Hi) as (lo' & lk & hi' & hk & p' & found' & E & Hi'). rewrite E.
  apply probe_step_window in E as (Hw' & Hd & _); [|done..]. apply IH; [done..|lia].
Qed.

Lemma search_spec :
    exists l, l ≡ₚ matches table /\
      search_on_sorted_u64s read_value sz f read_start (Z.of_nat (length table)) key capacity = Some (Ok (take capacity l)).
Proof.
  unfold search_on_sorted_u64s. destruct (Nat.eqb_spec capacity 0) as [->|Hc]; [by exists (matches table)|]. cbn zeta.
  pose proof (initial_window (Z.of_nat (length table)) key ltac:(unfold is_u64; lia)) as Hw. cbn zeta in Hw.
  rewrite wrap64_small in * by (unfold is_u64; lia). specialize (Hw ltac:(lia)).
  edestruct (probe_loop_inv (S (Z.to_nat (Z.of_nat (length table) + 1)))) as (lo & hi & p & found & E & (Hlo & Hhi & _) & Hn & Hbelow & l & Hl & ->);
    [exact Hw| |lia|rewrite E].
  { split; [lia|]. split; [by rewrite take_0|]. exists []. rewrite drop_ge by lia. split; [done|]. by rewrite take_nil. }
  destruct (scan_loop_spec (Z.to_nat (hi - lo - 1)) (drop (Z.to_nat lo) table) (take capacity l) rest) as [r' Es];
    [apply sorted_drop|by apply Forall_drop|rewrite length_drop; lia|].
  pose proof (seek_entry (Z.to_nat lo) ltac:(lia)) as Hseek. rewrite Z2Nat.id in Hseek by lia. rewrite Hseek, Es, result_bind_Ok.
  exists (l ++ matches (take (Z.to_nat (hi - lo - 1)) (drop (Z.to_nat lo) table))). split.
  - rewrite <- (take_drop (Z.to_nat lo) table) at 2. rewrite matches_app, (matches_none (take (Z.to_nat lo) table)).
    2: { eapply Forall_impl; [exact Hbelow|]. intros x Hx. cbn in Hx. lia. }
    cbn [app]. rewrite <- (take_drop (Z.to_nat (hi - lo - 1)) (drop (Z.to_nat lo) table)) at 2. rewrite matches_app, drop_drop, Hl.
    replace (Z.to_nat lo + Z.to_nat (hi - lo - 1)) with (Z.to_nat hi - 1) by lia. apply Permutation_app_comm.
  - rewrite write_all_take by (rewrite length_take; lia). by rewrite take_of_take_app.
Qed.

(** C26: on a sorted table the search returns the values under the key: all of them, each once, when
    there are at most as many as the result slice has room for, and otherwise as many of them as fit.
    Duplicate keys, keys outside the table and empty tables included; the result does not depend on
    the interpolation. *)
Theorem interpolation_search_correct :
    exists found, search_on_sorted_u64s read_value sz f read_start (Z.of_nat (length table)) key capacity = Some (Ok found) /\
      found ⊆+ matches table /\ length found = capacity `min` length (matches table).
Proof.
  destruct search_spec as (l & Hl & ->). exists (take capacity l). split; [done|]. rewrite <- Hl. split.
  - apply sublist_submseteq, sublist_take.
  - by rewrite length_take.
Qed.
End Correct.

(** ** Examples *)
Module SearchExamples.

Definition table : list (Z * Z) := [(5, 1); (7, 2); (7, 3); (9, 4)]%Z.
Definition file : list byte := Byte.xff :: concat (write_pair write_u32 <$> table) ++ [Byte.x01].

Lemma interpolation_search_terminates_witness :
  exists x, search_on_sorted_u64s read_u32 4 file 1 1000 7 8 = Some x.
Proof. apply (interpolation_search_terminates read_u32 4 file 1 1000 7 8). unfold is_u64. lia. Defined.

Lemma interpolation_search_correct_witness :
  exists found, search_on_sorted_u64s read_u32 4 file 1 4 7 8 = Some (Ok found) /\ found ⊆+ matches 7 table /\ length found = 2.
Proof.
  apply (interpolation_search_correct write_u32 read_u32 is_u32 4 file [Byte.x01] 1 7 8 table).
  - reflexivity.
  - repeat constructor; cbn; lia.
  - repeat constructor; cbn; unfold is_u64; lia.
  - lia.
  - cbn. lia.
  - cbn. lia.
Defined.

End SearchExamples.
