(* ===== verification/ShardMemory.v ===== *)
(** * Shards in memory

    Model of [xet_core_structures/src/metadata_shard/shard_in_memory.rs]: the files, xorbs and chunk
    lookup of a shard that is being built, the dedup query against it, and its set operations.

    A [BTreeMap] keyed by hashes is the list of its entries in order, since the order is that of the
    file written from it; the chunk lookup, a hash map, is a [gmap].  [Arc] is sharing of values that
    do not change.  [size_of] the parts of a shard file is the number of bytes they are written
    in. *)

From Stdlib Require Import Sorted.
From coqutil Require Import Byte Word.LittleEndianList.
From stdpp Require Import base numbers gmap list.
From S2P Require Import Prelude DataHash Codec FileStructs XorbStructs.

(** ** Ordered maps *)
Module BTree.

Abbreviation t V := (list (DataHash * V)).

Section Ops.
  Context {V : Type}.

Fixpoint insert (k : DataHash) (v : V) (m : t V) : t V :=
    match m with
    | [] => [(k, v)]
    | (k', v') :: m' =>
        match cmp k k' with
        | Lt => (k, v) :: m
        | Eq => (k, v) :: m'
        | Gt => (k', v') :: insert k v m'
        end
    end.

Fixpoint get (k : DataHash) (m : t V) : option V :=
    match m with
    | [] => None
    | (k', v') :: m' =>
        match cmp k k' with
        | Lt => None
        | Eq => Some v'
        | Gt => get k m'
        end
    end.

Definition contains_key (k : DataHash) (m : t V) : bool := match get k m with Some _ => true | None => false end.

End Ops.
End BTree.

(** [FileDataSequenceEntry::from_xorb_entries]; [None] when an index does not fit. *)
Definition from_xorb_entries (metadata : XorbChunkSequenceHeader.t) (chunks : list XorbChunkSequenceEntry.t)
    (chunk_index_start chunk_index_end : Z) : option FileDataSequenceEntry.t :=
  match chunks with
  | [] => Some (FileDataSequenceEntry.mk DataHash.default 0 0 0 0)
  | _ =>
      let unpacked_segment_bytes :=
        fold_left (fun a c => wrap32 (a + XorbChunkSequenceEntry.unpacked_segment_bytes c)) chunks 0%Z in
      chunk_index_start ← try_u32 chunk_index_start;
      chunk_index_end ← try_u32 chunk_index_end;
      Some (FileDataSequenceEntry.mk (XorbChunkSequenceHeader.xorb_hash metadata) (XorbChunkSequenceHeader.xorb_flags metadata)
              unpacked_segment_bytes chunk_index_start chunk_index_end)
  end.

(** ** The shard *)
Module MDBInMemoryShard.

Record t := mk {
  xorb_content : BTree.t MDBXorbInfo.t;
  file_content : BTree.t MDBFileInfo.t;
  chunk_hash_lookup : gmap DataHash (MDBXorbInfo.t * nat);
  current_shard_file_size : Z;
}.

Definition default : t := mk [] [] ∅ 0.

(** [for (i, chunk) in chunks.iter().enumerate()], from index [i]. *)
Fixpoint index_chunks (x : MDBXorbInfo.t) (i : nat) (chunks : list XorbChunkSequenceEntry.t)
    (lookup : gmap DataHash (MDBXorbInfo.t * nat)) (size : Z) : gmap DataHash (MDBXorbInfo.t * nat) * Z :=
  match chunks with
  | [] => (lookup, size)
  | chunk :: chunks' =>
      index_chunks x (S i) chunks' (<[XorbChunkSequenceEntry.chunk_hash chunk := (x, i)]> lookup) (wrap64 (size + (8 + 2 * 4)))
  end.

Definition add_xorb_block (s : t) (x : MDBXorbInfo.t) : t :=
  let xorb_content := BTree.insert (XorbChunkSequenceHeader.xorb_hash (MDBXorbInfo.metadata x)) x (xorb_content s) in
  let '(chunk_hash_lookup, size) := index_chunks x 0 (MDBXorbInfo.chunks x) (chunk_hash_lookup s) (current_shard_file_size s) in
  let size := wrap64 (size + MDBXorbInfo.num_bytes x) in
  mk xorb_content (file_content s) chunk_hash_lookup (wrap64 (size + (8 + 4))).

Definition add_file_reconstruction_info (s : t) (file_info : MDBFileInfo.t) : t :=
  let size := wrap64 (current_shard_file_size s + MDBFileInfo.num_bytes file_info) in
  let size := wrap64 (size + (8 + 4)) in
  mk (xorb_content s) (BTree.insert (FileDataSequenceHeader.file_hash (MDBFileInfo.metadata file_info)) file_info (file_content s))
    (chunk_hash_lookup s) size.

Definition recalculate_shard_size (s : t) : t :=
  let num_bytes := fold_left (fun n e => wrap64 (wrap64 (n + MDBXorbInfo.num_bytes e.2) + (8 + 4))) (xorb_content s) 0%Z in
  let num_bytes := fold_left (fun n e => wrap64 (wrap64 (n + MDBFileInfo.num_bytes e.2) + (8 + 4))) (file_content s) num_bytes in
  let num_bytes := wrap64 (num_bytes + Z.of_nat ((8 + 2 * 4) * size (chunk_hash_lookup s))) in
  mk (xorb_content s) (file_content s) (chunk_hash_lookup s) num_bytes.

(** [for (k, v) in &other.file_content] *)
Definition union_files (self other : BTree.t MDBFileInfo.t) : BTree.t MDBFileInfo.t :=
  fold_left (fun m '(k, v) =>
    match BTree.get k m with
    | Some old_v => BTree.insert k (MDBFileInfo.merge_from old_v v) (BTree.insert k v m)
    | None => BTree.insert k v m
    end) other self.

Definition union (self other : t) : t :=
  let xorb_content := fold_left (fun m '(k, v) => BTree.insert k v m) (xorb_content other) (xorb_content self) in
  let file_content := union_files (file_content self) (file_content other) in
  let chunk_hash_lookup := chunk_hash_lookup other ∪ chunk_hash_lookup self in
  recalculate_shard_size (mk xorb_content file_content chunk_hash_lookup 0).

Definition difference (self other : t) : t :=
  recalculate_shard_size
    (mk (filter (fun e => BTree.contains_key e.1 (xorb_content self) = false) (xorb_content other))
        (filter (fun e => BTree.contains_key e.1 (file_content self) = false) (file_content other))
        (chunk_hash_lookup other ∖ chunk_hash_lookup self) 0).

Definition get_file_reconstruction_info (s : t) (file_hash : DataHash) : option MDBFileInfo.t :=
  BTree.get file_hash (file_content s).

(** The [loop] of the query: the number of hashes that match the chunks from [chunks] on. *)
Fixpoint match_run (chunks : list XorbChunkSequenceEntry.t) (query_hashes : list DataHash) : nat :=
  match chunks, query_hashes with
  | c :: chunks', h :: query_hashes' =>
      if decide (XorbChunkSequenceEntry.chunk_hash c = h) then S (match_run chunks' query_hashes') else 0
  | _, _ => 0
  end.

(** The outer [None] is a panic. *)
Definition chunk_hash_dedup_query (s : t) (query_hashes : list DataHash) : option (option (nat * FileDataSequenceEntry.t)) :=
  match query_hashes with
  | [] => Some None
  | first :: _ =>
      match chunk_hash_lookup s !! first with
      | None => Some None
      | Some (chunk_ref, chunk_index_start) =>
          let query_idx := match_run (drop chunk_index_start (MDBXorbInfo.chunks chunk_ref)) query_hashes in
          if length (MDBXorbInfo.chunks chunk_ref) <? chunk_index_start then None
          else
            entry ← from_xorb_entries (MDBXorbInfo.metadata chunk_ref)
                      ((MDBXorbInfo.chunks chunk_ref) ⟦chunk_index_start, chunk_index_start + query_idx⟧)
                      (Z.of_nat chunk_index_start) (Z.of_nat (chunk_index_start + query_idx));
            Some (Some (query_idx, entry))
      end
  end.

Definition num_xorb_entries (s : t) : nat := length (xorb_content s).
Definition num_file_entries (s : t) : nat := length (file_content s).

Definition stored_bytes_on_disk (s : t) : Z :=
  fold_left (fun acc e => wrap64 (acc + XorbChunkSequenceHeader.num_bytes_on_disk (MDBXorbInfo.metadata e.2))) (xorb_content s) 0%Z.

Definition materialized_bytes (s : t) : Z :=
  fold_left (fun acc e => wrap64 (acc + MDBFileInfo.file_size e.2)) (file_content s) 0%Z.

Definition stored_bytes (s : t) : Z :=
  fold_left (fun acc e => wrap64 (acc + XorbChunkSequenceHeader.num_bytes_in_xorb (MDBXorbInfo.metadata e.2))) (xorb_content s) 0%Z.

Definition is_empty (s : t) : bool := match xorb_content s, file_content s with [], [] => true | _, _ => false end.

(** [MDBShardInfo::non_content_byte_size]: the footer, the header and two guard blocks. *)
Definition non_content_byte_size : Z := Z.of_nat (200 + 48 + MDB_FILE_INFO_ENTRY_SIZE + MDB_XORB_INFO_ENTRY_SIZE).

Definition shard_file_size (s : t) : Z := wrap64 (current_shard_file_size s + non_content_byte_size).

End MDBInMemoryShard.

(** ** Ordered maps as finite maps *)
Section Maps.
  Context {V : Type}.
  Implicit Types (m : list (DataHash * V)) (k : DataHash) (v : V).

Definition key_lt (a b : DataHash * V) : Prop := cmp a.1 b.1 = Lt.

Definition key_sorted m : Prop := StronglySorted key_lt m.

(** The finite map that an ordered map stands for. *)
Definition to_map m : gmap DataHash V := list_to_map m.

Lemma cmp_refl k : cmp k k = Eq.
Proof. by apply cmp_eq_iff. Qed.

Lemma cmp_gt k k' : cmp k k' = Gt -> cmp k' k = Lt.
Proof. intros H. by rewrite cmp_antisym, H. Qed.

Lemma lookup_above m k : Forall (fun e => cmp k e.1 = Lt) m -> to_map m !! k = None.
Proof.
  intros H. apply not_elem_of_list_to_map_1. intros (e & -> & He)%list_elem_of_fmap.
  rewrite Forall_forall in H. specialize (H e He). by rewrite cmp_refl in H.
Qed.

Lemma get_to_map m k : key_sorted m -> BTree.get k m = to_map m !! k.
Proof.
  induction 1 as [|[k' v'] m Hs IH Hall]; cbn; [done|].
  destruct (cmp k k') eqn:Hc.
  - apply cmp_eq_iff in Hc as ->. by rewrite lookup_insert_eq.
  - rewrite lookup_insert_ne by (intros ->; by rewrite cmp_refl in Hc).
    symmetry. apply lookup_above. eapply Forall_impl; [done|]. intros e He. by eapply cmp_trans.
  - rewrite lookup_insert_ne by (intros ->; by rewrite cmp_refl in Hc). done.
Qed.

Lemma insert_elem m k v e : e ∈ BTree.insert k v m -> e = (k, v) \/ e ∈ m.
Proof.
  induction m as [|[k' v'] m IH]; cbn; [set_solver|].
  rewrite elem_of_cons. destruct (cmp k k').
  all: rewrite !elem_of_cons.
  all: clear -IH; tauto.
Qed.

Lemma insert_sorted m k v : key_sorted m -> key_sorted (BTree.insert k v m).
Proof.
  induction 1 as [|[k' v'] m Hs IH Hall]; cbn; [repeat constructor|].
  destruct (cmp k k') eqn:Hc.
  - apply cmp_eq_iff in Hc as ->. by constructor.
  - constructor; [by constructor|]. constructor; [done|].
    eapply Forall_impl; [done|]. intros e He. by eapply cmp_trans.
  - constructor; [done|]. apply Forall_forall. intros e [->|He]%insert_elem; [by apply cmp_gt|].
    rewrite Forall_forall in Hall. by apply Hall.
Qed.

Lemma insert_to_map m k v : key_sorted m -> to_map (BTree.insert k v m) = <[k := v]> (to_map m).
Proof.
  induction 1 as [|[k' v'] m Hs IH Hall]; cbn; [done|].
  destruct (cmp k k') eqn:Hc; cbn.
  - apply cmp_eq_iff in Hc as ->. by rewrite insert_insert_eq.
  - done.
  - change (list_to_map ?x) with (to_map x). rewrite IH. apply insert_insert_ne.
    intros ->. by rewrite cmp_refl in Hc.
Qed.

Lemma sorted_NoDup m : key_sorted m -> NoDup m.*1.
Proof.
  induction 1 as [|[k v] m Hs IH Hall]; cbn; constructor; [|done].
  intros (e & -> & He)%list_elem_of_fmap. rewrite Forall_forall in Hall. specialize (Hall e He).
  unfold key_lt in Hall. cbn in Hall. by rewrite cmp_refl in Hall.
Qed.

Lemma sorted_lookup m k v : key_sorted m -> to_map m !! k = Some v <-> (k, v) ∈ m.
Proof. intros H. symmetry. by apply elem_of_list_to_map, sorted_NoDup. Qed.

(** Two sorted lists with the same entries are equal. *)
Lemma sorted_ext m m' : key_sorted m -> key_sorted m' -> to_map m = to_map m' -> m = m'.
Proof.
  intros H. revert m'. induction H as [|[k v] m Hs IH Hall]; intros m' H' Heq.
  - destruct m' as [|[k' v'] m']; [done|]. cbn in Heq. symmetry in Heq. by apply insert_non_empty in Heq.
  - destruct H' as [|[k' v'] m' Hs' Hall']; [cbn in Heq; by apply insert_non_empty in Heq|].
    assert (k = k') as <-.
    { destruct (cmp k k') eqn:Hc; [by apply cmp_eq_iff| |].
      - assert (to_map ((k', v') :: m') !! k = Some v) as Hl by (rewrite <- Heq; apply lookup_insert_eq).
        rewrite lookup_above in Hl; [done|]. constructor; [done|].
        eapply Forall_impl; [done|]. intros e He. by eapply cmp_trans.
      - apply cmp_gt in Hc.
        assert (to_map ((k, v) :: m) !! k' = Some v') as Hl by (rewrite Heq; apply lookup_insert_eq).
        rewrite lookup_above in Hl; [done|]. constructor; [done|].
        eapply Forall_impl; [exact Hall|]. intros e He. by eapply cmp_trans. }
    assert (v = v') as <-.
    { apply (f_equal (lookup k)) in Heq. cbn in Heq. rewrite !lookup_insert_eq in Heq. by injection Heq. }
    f_equal. apply IH; [done|]. apply (f_equal (delete k)) in Heq. cbn in Heq.
    rewrite !delete_insert_id in Heq; [done|by apply lookup_above..].
Qed.

Lemma filter_sorted (P : DataHash * V -> Prop) `{!∀ e, Decision (P e)} m : key_sorted m -> key_sorted (filter P m).
Proof.
  induction 1 as [|e m Hs IH Hall]; [constructor|]. rewrite (filter_cons P). case_decide; [|done].
  constructor; [done|]. apply Forall_forall. intros e' [_ He]%list_elem_of_filter.
  rewrite Forall_forall in Hall. by apply Hall.
Qed.

Lemma contains_key_to_map m k : key_sorted m -> BTree.contains_key k m = false <-> to_map m !! k = None.
Proof. intros H. unfold BTree.contains_key. rewrite get_to_map by done. by destruct (to_map m !! k). Qed.

Lemma filter_to_map m m' :
  key_sorted m -> key_sorted m' ->
  to_map (filter (fun e => BTree.contains_key e.1 m = false) m') = to_map m' ∖ to_map m.
Proof.
  intros H H'. apply map_eq. intros k. apply option_eq. intros v. rewrite sorted_lookup by by apply filter_sorted.
  rewrite list_elem_of_filter, lookup_difference_Some, contains_key_to_map, <- sorted_lookup by done. cbn. tauto.
Qed.

(** Inserting the entries of one map into another. *)
Lemma insert_all m m' :
  key_sorted m -> key_sorted m' ->
  key_sorted (fold_left (fun m '(k, v) => BTree.insert k v m) m' m) /\
  to_map (fold_left (fun m '(k, v) => BTree.insert k v m) m' m) = to_map m' ∪ to_map m.
Proof.
  intros H H'. revert m H. induction H' as [|[k v] m' Hs IH Hall]; intros m H; cbn.
  - split; [done|]. by rewrite map_empty_union.
  - destruct (IH (BTree.insert k v m)) as [IH1 IH2]; [by apply insert_sorted|]. split; [done|].
    etrans; [exact IH2|]. rewrite insert_to_map by done. rewrite <- insert_union_l. symmetry. apply insert_union_r.
    by apply lookup_above.
Qed.

End Maps.

#[global] Arguments to_map : simpl never.

(** ** The invariant of a shard in memory *)

(** A lookup entry gives a xorb and the index of a chunk of it that has the key as hash. *)
Definition lookup_sound (m : gmap DataHash (MDBXorbInfo.t * nat)) : Prop :=
  ∀ h x i, m !! h = Some (x, i) -> ∃ c, MDBXorbInfo.chunks x !! i = Some c /\ XorbChunkSequenceEntry.chunk_hash c = h.

(** Every chunk of every xorb is in the lookup. *)
Definition lookup_complete (xorbs : gmap DataHash MDBXorbInfo.t) (m : gmap DataHash (MDBXorbInfo.t * nat)) : Prop :=
  ∀ k x c, xorbs !! k = Some x -> c ∈ MDBXorbInfo.chunks x -> is_Some (m !! XorbChunkSequenceEntry.chunk_hash c).

Record shard_wf (s : MDBInMemoryShard.t) : Prop := {
  wf_xorbs_sorted : key_sorted (MDBInMemoryShard.xorb_content s);
  wf_files_sorted : key_sorted (MDBInMemoryShard.file_content s);
  wf_xorb_keys : ∀ k x, to_map (MDBInMemoryShard.xorb_content s) !! k = Some x ->
    XorbChunkSequenceHeader.xorb_hash (MDBXorbInfo.metadata x) = k;
  wf_file_keys : ∀ k f, to_map (MDBInMemoryShard.file_content s) !! k = Some f ->
    FileDataSequenceHeader.file_hash (MDBFileInfo.metadata f) = k;
  wf_lookup_sound : lookup_sound (MDBInMemoryShard.chunk_hash_lookup s);
}.

Definition shard_complete (s : MDBInMemoryShard.t) : Prop :=
  lookup_complete (to_map (MDBInMemoryShard.xorb_content s)) (MDBInMemoryShard.chunk_hash_lookup s).

(** Two shards with the same xorbs, files and lookup; their sizes may differ. *)
Definition same_content (s s' : MDBInMemoryShard.t) : Prop :=
  MDBInMemoryShard.xorb_content s = MDBInMemoryShard.xorb_content s' /\
  MDBInMemoryShard.file_content s = MDBInMemoryShard.file_content s' /\
  MDBInMemoryShard.chunk_hash_lookup s = MDBInMemoryShard.chunk_hash_lookup s'.

Lemma merge_from_hash old new :
  FileDataSequenceHeader.file_hash (MDBFileInfo.metadata (MDBFileInfo.merge_from old new)) =
  FileDataSequenceHeader.file_hash (MDBFileInfo.metadata old).
Proof. unfold MDBFileInfo.merge_from, MDBFileInfo.merge_metadata_ext, MDBFileInfo.merge_verification. repeat case_match; reflexivity. Qed.

(** *** Indexing the chunks of a xorb *)

Lemma index_chunks_lookup x i chunks m sz h v :
  (MDBInMemoryShard.index_chunks x i chunks m sz).1 !! h = Some v ->
  m !! h = Some v \/ ∃ j c, chunks !! j = Some c /\ XorbChunkSequenceEntry.chunk_hash c = h /\ v = (x, i + j).
Proof.
  revert i m sz. induction chunks as [|c chunks IH]; intros i m sz; cbn; [by left|].
  intros [H|(j & c' & Hj & Hc & ->)]%IH.
  - apply lookup_insert_Some in H as [[<- <-]|[_ H]]; [|by left].
    right. exists 0, c. rewrite Nat.add_0_r. done.
  - right. exists (S j), c'. split_and!; [done..|]. f_equal. lia.
Qed.

Lemma index_chunks_keeps x i chunks m sz h :
  is_Some (m !! h) -> is_Some ((MDBInMemoryShard.index_chunks x i chunks m sz).1 !! h).
Proof.
  revert i m sz. induction chunks as [|c chunks IH]; intros i m sz H; cbn; [done|].
  apply IH, lookup_insert_is_Some'. by right.
Qed.

Lemma index_chunks_covers x i chunks m sz c :
  c ∈ chunks -> is_Some ((MDBInMemoryShard.index_chunks x i chunks m sz).1 !! XorbChunkSequenceEntry.chunk_hash c).
Proof.
  intros H. revert i m sz. induction H as [c chunks|c c' chunks H IH]; intros i m sz; cbn; [|apply IH].
  apply index_chunks_keeps. rewrite lookup_insert_eq. by eexists.
Qed.

Lemma index_chunks_sound x m sz :
  lookup_sound m -> lookup_sound (MDBInMemoryShard.index_chunks x 0 (MDBXorbInfo.chunks x) m sz).1.
Proof.
  intros H h y j [Hl|(i & c & Hi & Hc & [= -> ->])]%index_chunks_lookup; [by apply H|]. by exists c.
Qed.

(** *** Every operation preserves the invariant *)

Lemma recalculate_same s : same_content (MDBInMemoryShard.recalculate_shard_size s) s.
Proof. done. Qed.

Lemma same_content_wf s s' : same_content s s' -> shard_wf s' -> shard_wf s.
Proof. intros (Hx & Hf & Hl) []. by split; rewrite ?Hx, ?Hf, ?Hl. Qed.

Lemma default_wf : shard_wf MDBInMemoryShard.default.
Proof. split; cbn; (constructor || done). Qed.

Lemma add_xorb_fields s x :
  MDBInMemoryShard.xorb_content (MDBInMemoryShard.add_xorb_block s x) =
    BTree.insert (XorbChunkSequenceHeader.xorb_hash (MDBXorbInfo.metadata x)) x (MDBInMemoryShard.xorb_content s) /\
  MDBInMemoryShard.file_content (MDBInMemoryShard.add_xorb_block s x) = MDBInMemoryShard.file_content s /\
  MDBInMemoryShard.chunk_hash_lookup (MDBInMemoryShard.add_xorb_block s x) =
    (MDBInMemoryShard.index_chunks x 0 (MDBXorbInfo.chunks x) (MDBInMemoryShard.chunk_hash_lookup s)
       (MDBInMemoryShard.current_shard_file_size s)).1.
Proof. unfold MDBInMemoryShard.add_xorb_block. by destruct MDBInMemoryShard.index_chunks. Qed.

Lemma add_xorb_wf s x : shard_wf s -> shard_wf (MDBInMemoryShard.add_xorb_block s x).
Proof.
  intros []. destruct (add_xorb_fields s x) as (Hx & Hf & Hl). split; rewrite ?Hx, ?Hf, ?Hl; try done.
  - by apply insert_sorted.
  - intros k y. rewrite insert_to_map by done. intros [[<- <-]|[_ H]]%lookup_insert_Some; [done|by apply wf_xorb_keys0].
  - by apply index_chunks_sound.
Qed.

Lemma add_file_wf s f : shard_wf s -> shard_wf (MDBInMemoryShard.add_file_reconstruction_info s f).
Proof.
  intros []. split; cbn; try done; [by apply insert_sorted|].
  intros k g. rewrite insert_to_map by done. intros [[<- <-]|[_ H]]%lookup_insert_Some; [done|by apply wf_file_keys0].
Qed.

Lemma union_files_map m m' :
  key_sorted m -> key_sorted m' ->
  key_sorted (MDBInMemoryShard.union_files m m') /\
  to_map (MDBInMemoryShard.union_files m m') =
    union_with (fun old new => Some (MDBFileInfo.merge_from old new)) (to_map m) (to_map m').
Proof.
  unfold MDBInMemoryShard.union_files. intros H H'. revert m H.
  induction H' as [|[k v] m' Hs IH Hall]; intros m H; cbn.
  - split; [done|]. symmetry. apply (right_id_L ∅ _).
  - assert (∀ w, key_sorted (BTree.insert k w m)) as Hi by (intros; by apply insert_sorted).
    assert (to_map m' !! k = None) as Hk by by apply lookup_above.
    assert (∀ w m0, key_sorted m0 -> to_map m0 = <[k := w]> (to_map m) ->
      w = match to_map m !! k with Some old => MDBFileInfo.merge_from old v | None => v end ->
      union_with (fun old new => Some (MDBFileInfo.merge_from old new)) (to_map m0) (to_map m') =
      union_with (fun old new => Some (MDBFileInfo.merge_from old new)) (to_map m) (<[k := v]> (to_map m'))) as Hgen.
    { intros w m0 _ -> ->. apply map_eq. intros j. rewrite !lookup_union_with. destruct (decide (j = k)) as [->|].
      - rewrite !lookup_insert_eq, Hk. by destruct (to_map m !! k).
      - by rewrite !lookup_insert_ne. }
    rewrite get_to_map by done. destruct (to_map m !! k) as [old|] eqn:Hm.
    + destruct (IH (BTree.insert k (MDBFileInfo.merge_from old v) (BTree.insert k v m))) as [IH1 IH2];
        [by apply insert_sorted|]. split; [done|]. etrans; [exact IH2|]. eapply Hgen; [by apply insert_sorted| |done].
      by rewrite !insert_to_map, insert_insert_eq by done.
    + destruct (IH (BTree.insert k v m)) as [IH1 IH2]; [done|]. split; [done|].
      etrans; [exact IH2|]. eapply Hgen; [done| |done]. by apply insert_to_map.
Qed.

Lemma union_wf s o : shard_wf s -> shard_wf o -> shard_wf (MDBInMemoryShard.union s o).
Proof.
  intros [] []. eapply same_content_wf; [apply recalculate_same|].
  destruct (insert_all (MDBInMemoryShard.xorb_content s) (MDBInMemoryShard.xorb_content o)) as [Hx1 Hx2]; [done..|].
  destruct (union_files_map (MDBInMemoryShard.file_content s) (MDBInMemoryShard.file_content o)) as [Hf1 Hf2]; [done..|].
  split; cbn; try done.
  - intros k x. rewrite Hx2. intros [Hl|[_ Hl]]%lookup_union_Some_raw; eauto.
  - intros k f. rewrite Hf2, lookup_union_with.
    destruct (to_map (MDBInMemoryShard.file_content s) !! k) as [f1|] eqn:H1,
      (to_map (MDBInMemoryShard.file_content o) !! k) as [f2|] eqn:H2; cbn; intros [= <-]; rewrite ?merge_from_hash; eauto.
  - intros h x i [Hl|[_ Hl]]%lookup_union_Some_raw; eauto.
Qed.

Lemma difference_wf s o : shard_wf s -> shard_wf o -> shard_wf (MDBInMemoryShard.difference s o).
Proof.
  intros [] []. eapply same_content_wf; [apply recalculate_same|].
  split; cbn; try by apply filter_sorted.
  - intros k x. rewrite filter_to_map by done. intros [Hl _]%lookup_difference_Some. eauto.
  - intros k x. rewrite filter_to_map by done. intros [Hl _]%lookup_difference_Some. eauto.
  - intros h x i [Hl _]%lookup_difference_Some. eauto.
Qed.

Lemma default_complete : shard_complete MDBInMemoryShard.default.
Proof. intros k x c H. done. Qed.

Lemma add_xorb_complete s x : shard_wf s -> shard_complete s -> shard_complete (MDBInMemoryShard.add_xorb_block s x).
Proof.
  intros [] Hc k y c. destruct (add_xorb_fields s x) as (Hx & Hf & Hl). rewrite Hx, Hl, insert_to_map by done.
  intros [[<- <-]|[_ H]]%lookup_insert_Some Hin; [by apply index_chunks_covers|].
  apply index_chunks_keeps. by eapply Hc.
Qed.

Lemma union_complete s o :
  shard_wf s -> shard_wf o -> shard_complete s -> shard_complete o -> shard_complete (MDBInMemoryShard.union s o).
Proof.
  intros [] [] Hs Ho k x c. cbn. rewrite (proj2 (insert_all _ _ wf_xorbs_sorted0 wf_xorbs_sorted1)).
  rewrite lookup_union_is_Some. intros [Hl|[_ Hl]]%lookup_union_Some_raw Hin; [left|right]; eauto.
Qed.

(** A shard in memory implements finite maps.  From shards that satisfy the invariant, adding a
    xorb or a file overwrites its entry; [union] takes the other shard's xorbs and lookup entries over
    one's own and merges the files that both have; [difference] keeps what only the other shard
    has.  Every result satisfies the invariant again, and looking up a file is the lookup in the
    map. *)
Theorem shard_refines_maps s o x f :
  shard_wf s -> shard_wf o ->
  let xorbs s := to_map (MDBInMemoryShard.xorb_content s) in
  let files s := to_map (MDBInMemoryShard.file_content s) in
  let lookups := MDBInMemoryShard.chunk_hash_lookup in
  let sx := MDBInMemoryShard.add_xorb_block s x in
  let sf := MDBInMemoryShard.add_file_reconstruction_info s f in
  let u := MDBInMemoryShard.union s o in
  let d := MDBInMemoryShard.difference s o in
  (shard_wf sx /\ xorbs sx = <[XorbChunkSequenceHeader.xorb_hash (MDBXorbInfo.metadata x) := x]> (xorbs s) /\ files sx = files s) /\
  (shard_wf sf /\ xorbs sf = xorbs s /\ lookups sf = lookups s /\
   files sf = <[FileDataSequenceHeader.file_hash (MDBFileInfo.metadata f) := f]> (files s)) /\
  (shard_wf u /\ xorbs u = xorbs o ∪ xorbs s /\ lookups u = lookups o ∪ lookups s /\
   files u = union_with (fun old new => Some (MDBFileInfo.merge_from old new)) (files s) (files o)) /\
  (shard_wf d /\ xorbs d = xorbs o ∖ xorbs s /\ lookups d = lookups o ∖ lookups s /\ files d = files o ∖ files s) /\
  (forall k, MDBInMemoryShard.get_file_reconstruction_info s k = files s !! k).
Proof.
  intros Hs Ho. cbn zeta. pose proof (wf_xorbs_sorted _ Hs). pose proof (wf_xorbs_sorted _ Ho).
  pose proof (wf_files_sorted _ Hs). pose proof (wf_files_sorted _ Ho). destruct (add_xorb_fields s x) as (Hx & Hf & _).
  split_and!.
  - by apply add_xorb_wf.
  - rewrite Hx. by apply insert_to_map.
  - by rewrite Hf.
  - by apply add_file_wf.
  - done.
  - done.
  - by apply insert_to_map.
  - by apply union_wf.
  - by apply insert_all.
  - done.
  - by apply union_files_map.
  - by apply difference_wf.
  - by apply filter_to_map.
  - done.
  - by apply filter_to_map.
  - intros k. by apply get_to_map.
Qed.

(** ** The dedup query *)

Lemma match_run_spec chunks hs :
  let n := MDBInMemoryShard.match_run chunks hs in
  n <= length chunks /\ n <= length hs /\ XorbChunkSequenceEntry.chunk_hash <$> take n chunks = take n hs /\
  (forall c h, chunks !! n = Some c -> hs !! n = Some h -> XorbChunkSequenceEntry.chunk_hash c <> h).
Proof.
  revert hs. induction chunks as [|c chunks IH]; intros hs; cbn zeta; [cbn; split_and!; (lia || done)|].
  destruct hs as [|h hs]; cbn; [split_and!; (lia || done)|]. case_decide as Hc; cbn.
  - destruct (IH hs) as (H1 & H2 & H3 & H4). split_and!; [lia|lia| |done]. by rewrite Hc, H3.
  - split_and!; [lia|lia|done|]. by intros ? ? [= <-] [= <-].
Qed.

(** The bytes of a list of chunks. *)
Definition chunks_bytes (chunks : list XorbChunkSequenceEntry.t) : Z :=
  foldr (fun c a => XorbChunkSequenceEntry.unpacked_segment_bytes c + a)%Z 0%Z chunks.

Lemma fold_chunk_bytes a chunks :
  fold_left (fun a c => wrap32 (a + XorbChunkSequenceEntry.unpacked_segment_bytes c)) chunks (wrap32 a) =
  wrap32 (a + chunks_bytes chunks).
Proof.
  revert a. induction chunks as [|c chunks IH]; intros a; cbn; [by rewrite Z.add_0_r|].
  rewrite wrap32_add_l, IH. f_equal. unfold chunks_bytes. lia.
Qed.

Lemma from_xorb_entries_ok md chunks a b :
  chunks <> [] -> (0 <= a < 2 ^ 32)%Z -> (0 <= b < 2 ^ 32)%Z ->
  from_xorb_entries md chunks a b =
    Some (FileDataSequenceEntry.mk (XorbChunkSequenceHeader.xorb_hash md) (XorbChunkSequenceHeader.xorb_flags md)
            (wrap32 (chunks_bytes chunks)) a b).
Proof.
  intros Hne Ha Hb. unfold from_xorb_entries. destruct chunks as [|c chunks]; [done|].
  rewrite !try_u32_small by (unfold is_u32; lia). cbn [mbind option_bind].
  change (fold_left ?f (c :: chunks) 0%Z) with (fold_left f (c :: chunks) (wrap32 0)). by rewrite fold_chunk_bytes.
Qed.

(** [e] describes the longest run of chunks of [x], from some place on, that have the first [n] of the
    queried hashes. *)
Definition longest_run (x : MDBXorbInfo.t) (hs : list DataHash) (n : nat) (e : FileDataSequenceEntry.t) : Prop :=
  exists start, 0 < n <= length hs /\ start + n <= length (MDBXorbInfo.chunks x) /\
    let run := (MDBXorbInfo.chunks x) ⟦start, start + n⟧ in
    XorbChunkSequenceEntry.chunk_hash <$> run = take n hs /\
    (forall c h, MDBXorbInfo.chunks x !! (start + n) = Some c -> hs !! n = Some h -> XorbChunkSequenceEntry.chunk_hash c <> h) /\
    e = FileDataSequenceEntry.mk (XorbChunkSequenceHeader.xorb_hash (MDBXorbInfo.metadata x))
          (XorbChunkSequenceHeader.xorb_flags (MDBXorbInfo.metadata x)) (wrap32 (chunks_bytes run))
          (Z.of_nat start) (Z.of_nat (start + n)).

(** The run found by [match_run] from [start] on. *)
Lemma match_run_longest x start hs :
  start <= length (MDBXorbInfo.chunks x) ->
  let n := MDBInMemoryShard.match_run (drop start (MDBXorbInfo.chunks x)) hs in
  0 < n ->
  start + n <= length (MDBXorbInfo.chunks x) /\
  longest_run x hs n
    (FileDataSequenceEntry.mk (XorbChunkSequenceHeader.xorb_hash (MDBXorbInfo.metadata x))
       (XorbChunkSequenceHeader.xorb_flags (MDBXorbInfo.metadata x))
       (wrap32 (chunks_bytes ((MDBXorbInfo.chunks x) ⟦start, start + n⟧))) (Z.of_nat start) (Z.of_nat (start + n))).
Proof.
  intros Hs n Hn. destruct (match_run_spec (drop start (MDBXorbInfo.chunks x)) hs) as (H1 & H2 & H3 & H4). fold n in H1, H2, H3, H4.
  rewrite length_drop in H1. split; [lia|]. exists start. cbn zeta. split_and!; [lia|lia|lia| | |done].
  - unfold slice. by replace (start + n - start) with n by lia.
  - intros d h Hd. apply H4. by rewrite lookup_drop.
Qed.

(** The dedup query on a shard in memory never panics when the xorbs it knows have fewer than
    [2^32] chunks.  A hit gives the longest run, from the place where the first hash was indexed, of
    chunks of one xorb that have the queried hashes, and the segment returned describes exactly that
    run.  A miss on a non-empty query means that no xorb of the shard has a chunk with the first
    hash. *)
Theorem memory_query_correct s hs :
  shard_wf s -> shard_complete s ->
  (forall h x i, MDBInMemoryShard.chunk_hash_lookup s !! h = Some (x, i) -> (Z.of_nat (length (MDBXorbInfo.chunks x)) < 2 ^ 32)%Z) ->
  match MDBInMemoryShard.chunk_hash_dedup_query s hs with
  | None => False
  | Some None =>
      forall h k x c, head hs = Some h -> to_map (MDBInMemoryShard.xorb_content s) !! k = Some x ->
        c ∈ MDBXorbInfo.chunks x -> XorbChunkSequenceEntry.chunk_hash c <> h
  | Some (Some (n, e)) =>
      exists h x i, head hs = Some h /\ MDBInMemoryShard.chunk_hash_lookup s !! h = Some (x, i) /\ longest_run x hs n e
  end.
Proof.
  intros Hwf Hc Hlen. unfold MDBInMemoryShard.chunk_hash_dedup_query. destruct hs as [|first hs]; [done|].
  destruct (MDBInMemoryShard.chunk_hash_lookup s !! first) as [[x start]|] eqn:Hl; cycle 1.
  { intros h k x c [= <-] Hx Hin <-. destruct (Hc _ _ _ Hx Hin) as [v Hv]. congruence. }
  destruct (wf_lookup_sound _ Hwf _ _ _ Hl) as (c & Hi & Hh). specialize (Hlen _ _ _ Hl).
  pose proof (lookup_lt_Some _ _ _ Hi) as Hlt.
  destruct (match_run_longest x start (first :: hs)) as [Hle Hrun]; [lia|erewrite drop_S by done; cbn; rewrite decide_True by done; lia|].
  assert (0 < MDBInMemoryShard.match_run (drop start (MDBXorbInfo.chunks x)) (first :: hs)) as Hn
    by (erewrite drop_S by done; cbn; rewrite decide_True by done; lia).
  cbn zeta. set (n := MDBInMemoryShard.match_run _ _) in *. rewrite (proj2 (Nat.ltb_ge _ _)) by lia.
  assert (length ((MDBXorbInfo.chunks x) ⟦start, start + n⟧) = n) as Hln by (rewrite slice_length; lia).
  rewrite from_xorb_entries_ok by (lia || (intros He; rewrite He in Hln; cbn in Hln; lia)). cbn [mbind option_bind].
  exists first, x, start. split_and!; done.
Qed.
