(* ===== verification/ShardFormat.v ===== *)
(** * Shard files

    Model of [xet_core_structures/src/metadata_shard/shard_format.rs] and of the helpers in [utils.rs]
    it uses: the header and footer of a shard file, the file written from a shard in memory, the
    lookups in the file, and the export with keyed chunk hashes.

    A reader that seeks is the list [f] of all bytes of the file; a lookup that uses the interpolation
    search returns [None] only if the search does not end.  The time is a parameter, in nanoseconds
    since the epoch; buffers are allocated without limit. *)

From Stdlib Require Import Sorted.
From coqutil Require Import Byte Word.LittleEndianList.
From stdpp Require Import base numbers gmap sorting list.
From S2P Require Import Prelude DataHash Codec FileStructs XorbStructs Interpolation ShardMemory.

Definition MDB_SHARD_FOOTER_SIZE : nat := 200.
Definition MDB_SHARD_HEADER_VERSION : Z := 2.
Definition MDB_SHARD_FOOTER_VERSION : Z := 1.

Definition MDB_SHARD_HEADER_TAG : list byte := byte_of <$>
  [72; 70; 82; 101; 112; 111; 77; 101; 116; 97; 68; 97; 116; 97; 0; 85; 105; 103; 69; 106; 123; 129; 87; 131; 165; 189; 217;
   92; 205; 209; 74; 169]%Z.

Definition truncate_hash (hash : DataHash) : Z := w0 hash.

(** [(now + d).duration_since(UNIX_EPOCH).unwrap_or_default().as_secs()] *)
Definition shard_expiry_time (now shard_valid_for : Z) : Z := Z.max 0 ((now + shard_valid_for) / 10 ^ 9).

(** ** The header *)
Module MDBShardFileHeader.

Record t := mk { tag : list byte; version : Z; footer_size : Z }.

Definition default : t := mk MDB_SHARD_HEADER_TAG MDB_SHARD_HEADER_VERSION (Z.of_nat MDB_SHARD_FOOTER_SIZE).

(** The bytes written and the count returned. *)
Definition serialize (h : t) : list byte * nat :=
  (MDB_SHARD_HEADER_TAG ++ write_u64 (version h) ++ write_u64 (footer_size h), 48).

Definition deserialize : Reader t :=
  tag ← read_exact 32;
  if negb (bool_decide (tag = MDB_SHARD_HEADER_TAG)) then fail ShardVersion
  else
    version ← read_u64;
    footer_size ← read_u64;
    mret (mk tag version footer_size).

End MDBShardFileHeader.

(** ** The footer *)
Module MDBShardFileFooter.

Record t := mk {
  version : Z;
  file_info_offset : Z;
  xorb_info_offset : Z;
  file_lookup_offset : Z;
  file_lookup_num_entry : Z;
  xorb_lookup_offset : Z;
  xorb_lookup_num_entry : Z;
  chunk_lookup_offset : Z;
  chunk_lookup_num_entry : Z;
  chunk_hash_hmac_key : DataHash;
  shard_creation_timestamp : Z;
  shard_key_expiry : Z;
  _buffer : list Z;
  stored_bytes_on_disk : Z;
  materialized_bytes : Z;
  stored_bytes : Z;
  footer_offset : Z;
}.

Definition default : t :=
  mk MDB_SHARD_FOOTER_VERSION 0 0 0 0 0 0 0 0 DataHash.default 0 (2 ^ 64 - 1) (replicate 6 0%Z) 0 0 0 0.

(** The bytes written and the count returned. *)
Definition serialize (s : t) : list byte * nat :=
  (write_u64 (version s) ++ write_u64 (file_info_offset s) ++ write_u64 (xorb_info_offset s) ++
   write_u64 (file_lookup_offset s) ++ write_u64 (file_lookup_num_entry s) ++ write_u64 (xorb_lookup_offset s) ++
   write_u64 (xorb_lookup_num_entry s) ++ write_u64 (chunk_lookup_offset s) ++ write_u64 (chunk_lookup_num_entry s) ++
   write_hash (chunk_hash_hmac_key s) ++ write_u64 (shard_creation_timestamp s) ++ write_u64 (shard_key_expiry s) ++
   write_u64s (_buffer s) ++ write_u64 (stored_bytes_on_disk s) ++ write_u64 (materialized_bytes s) ++
   write_u64 (stored_bytes s) ++ write_u64 (footer_offset s), MDB_SHARD_FOOTER_SIZE).

Definition deserialize : Reader t :=
  version ← read_u64;
  if negb (version =? MDB_SHARD_FOOTER_VERSION)%Z then fail ShardVersion
  else
    file_info_offset ← read_u64;
    xorb_info_offset ← read_u64;
    file_lookup_offset ← read_u64;
    file_lookup_num_entry ← read_u64;
    xorb_lookup_offset ← read_u64;
    xorb_lookup_num_entry ← read_u64;
    chunk_lookup_offset ← read_u64;
    chunk_lookup_num_entry ← read_u64;
    chunk_hash_hmac_key ← read_hash;
    shard_creation_timestamp ← read_u64;
    shard_key_expiry ← read_u64;
    _buffer ← read_u64s 6;
    stored_bytes_on_disk ← read_u64;
    materialized_bytes ← read_u64;
    stored_bytes ← read_u64;
    footer_offset ← read_u64;
    mret (mk version file_info_offset xorb_info_offset file_lookup_offset file_lookup_num_entry xorb_lookup_offset
            xorb_lookup_num_entry chunk_lookup_offset chunk_lookup_num_entry chunk_hash_hmac_key shard_creation_timestamp
            shard_key_expiry _buffer stored_bytes_on_disk materialized_bytes stored_bytes footer_offset).

Definition deserialize_async : Reader t :=
  v ← read_exact MDB_SHARD_FOOTER_SIZE;
  from_cursor v deserialize.

End MDBShardFileFooter.

(** ** Writing a shard *)

(** The value column of the lookup tables. *)
Definition write_u32_pair (v : Z * Z) : list byte := write_u32 v.1 ++ write_u32 v.2.
Definition read_u32_pair : Reader (Z * Z) := a ← read_u32; b ← read_u32; mret (a, b).

Definition key_le {V} (a b : Z * V) : Prop := (a.1 <= b.1)%Z.

#[export] Instance key_le_dec {V} (a b : Z * V) : Decision (key_le a b) := Z.le_dec a.1 b.1.

(** [sort_unstable_by_key], which may reorder entries with equal keys. *)
Class SortUnstable (V : Type) := {
  sort_unstable_by_key : list (Z * V) -> list (Z * V);
  sort_unstable_Permutation l : sort_unstable_by_key l ≡ₚ l;
  sort_unstable_sorted l : StronglySorted key_le (sort_unstable_by_key l);
}.

(** [sort_by_key], which keeps the order of entries with equal keys. *)
Definition sort_by_key {V} (l : list (Z * V)) : list (Z * V) := merge_sort key_le l.

Module MDBShardInfo.

Record t := mk { header : MDBShardFileHeader.t; metadata : MDBShardFileFooter.t }.

Definition default : t := mk MDBShardFileHeader.default MDBShardFileFooter.default.

Definition load_from_reader (f : list byte) : result CoreError t :=
  '(header, _) ← MDBShardFileHeader.deserialize f;
  at_footer ← seek_from_end f MDB_SHARD_FOOTER_SIZE;
  '(metadata, _) ← MDBShardFileFooter.deserialize at_footer;
  Ok (mk header metadata).

(** The loop of [convert_and_save_file_info] from entry number [index] on: the bytes written, the
    lookup table (keys and values together), and the count of bytes. *)
Fixpoint save_file_infos (file_content : list (DataHash * MDBFileInfo.t)) (index : Z) : list byte * list (Z * Z) * nat :=
  match file_content with
  | [] => ([], [], 0)
  | (file_hash, content) :: rest =>
      let '(out, bytes) := MDBFileInfo.serialize content in
      let '(out', lookup, bytes_written) :=
        save_file_infos rest (wrap32 (index + wrap32 (Z.of_nat (bytes / MDB_FILE_INFO_ENTRY_SIZE)))) in
      (out ++ out', (truncate_hash file_hash, index) :: lookup, bytes + bytes_written)
  end.

Definition convert_and_save_file_info (file_content : list (DataHash * MDBFileInfo.t)) : list byte * list (Z * Z) * nat :=
  let '(out, lookup, bytes_written) := save_file_infos file_content 0 in
  (out ++ FileDataSequenceHeader.serialize FileDataSequenceHeader.bookend, lookup, bytes_written + MDB_FILE_INFO_ENTRY_SIZE).

(** The loop of [convert_and_save_xorb_info], with the lookup tables of the xorbs and of the chunks. *)
Fixpoint save_xorb_infos (xorb_content : list (DataHash * MDBXorbInfo.t)) (index : Z)
    : list byte * list (Z * Z) * list (Z * (Z * Z)) * nat :=
  match xorb_content with
  | [] => ([], [], [], 0)
  | (xorb_hash, content) :: rest =>
      let chunks := MDBXorbInfo.chunks content in
      let out := XorbChunkSequenceHeader.serialize (MDBXorbInfo.metadata content) ++ concat (XorbChunkSequenceEntry.serialize <$> chunks) in
      let bytes := MDB_XORB_INFO_ENTRY_SIZE + length chunks * MDB_XORB_INFO_ENTRY_SIZE in
      let chunk_lookup :=
        imap (fun i chunk => (truncate_hash (XorbChunkSequenceEntry.chunk_hash chunk), (index, wrap32 (Z.of_nat i)))) chunks in
      let '(out', xorb_lookup', chunk_lookup', bytes_written) :=
        save_xorb_infos rest (wrap32 (index + wrap32 (1 + wrap32 (Z.of_nat (length chunks))))) in
      (out ++ out', (truncate_hash xorb_hash, index) :: xorb_lookup', chunk_lookup ++ chunk_lookup', bytes + bytes_written)
  end.

Section Serialize.
  Context `{SortUnstable (Z * Z)}.

Definition convert_and_save_xorb_info (xorb_content : list (DataHash * MDBXorbInfo.t))
    : list byte * list (Z * Z) * list (Z * (Z * Z)) * nat :=
  let '(out, xorb_lookup, chunk_lookup, bytes_written) := save_xorb_infos xorb_content 0 in
  (out ++ XorbChunkSequenceHeader.serialize XorbChunkSequenceHeader.bookend, xorb_lookup,
   sort_unstable_by_key chunk_lookup, bytes_written + MDB_XORB_INFO_ENTRY_SIZE).

(** The bytes of the file, and the information returned. *)
Definition serialize_from (now : Z) (mdb : MDBInMemoryShard.t) (expiry : option Z) : list byte * t :=
  let shard := default in
  let '(header_out, bytes_pos) := MDBShardFileHeader.serialize (header shard) in
  let file_info_offset := bytes_pos in
  let '(file_out, file_lookup, bytes_written) := convert_and_save_file_info (MDBInMemoryShard.file_content mdb) in
  let bytes_pos := bytes_pos + bytes_written in
  let xorb_info_offset := bytes_pos in
  let '(xorb_out, xorb_lookup, chunk_lookup, bytes_written) := convert_and_save_xorb_info (MDBInMemoryShard.xorb_content mdb) in
  let bytes_pos := bytes_pos + bytes_written in
  let file_lookup_offset := bytes_pos in
  let file_lookup_out := concat (write_pair write_u32 <$> file_lookup) in
  let bytes_pos := bytes_pos + (8 * length file_lookup + 4 * length file_lookup) in
  let xorb_lookup_offset := bytes_pos in
  let xorb_lookup_out := concat (write_pair write_u32 <$> xorb_lookup) in
  let bytes_pos := bytes_pos + (8 * length xorb_lookup + 4 * length xorb_lookup) in
  let chunk_lookup_offset := bytes_pos in
  let chunk_lookup_out := concat (write_pair write_u32_pair <$> chunk_lookup) in
  let bytes_pos := bytes_pos + (8 * length chunk_lookup + 8 * length chunk_lookup) in
  let shard_key_expiry :=
    match expiry with
    | Some shard_valid_for => shard_expiry_time now shard_valid_for
    | None => MDBShardFileFooter.shard_key_expiry (metadata shard)
    end in
  let footer :=
    MDBShardFileFooter.mk (MDBShardFileFooter.version (metadata shard)) (Z.of_nat file_info_offset) (Z.of_nat xorb_info_offset)
      (Z.of_nat file_lookup_offset) (Z.of_nat (length file_lookup)) (Z.of_nat xorb_lookup_offset) (Z.of_nat (length xorb_lookup))
      (Z.of_nat chunk_lookup_offset) (Z.of_nat (length chunk_lookup)) (MDBShardFileFooter.chunk_hash_hmac_key (metadata shard))
      (MDBShardFileFooter.shard_creation_timestamp (metadata shard)) shard_key_expiry (MDBShardFileFooter._buffer (metadata shard))
      (MDBInMemoryShard.stored_bytes_on_disk mdb) (MDBInMemoryShard.materialized_bytes mdb) (MDBInMemoryShard.stored_bytes mdb)
      (Z.of_nat bytes_pos) in
  (header_out ++ file_out ++ xorb_out ++ file_lookup_out ++ xorb_lookup_out ++ chunk_lookup_out ++
   (MDBShardFileFooter.serialize footer).1, mk (header shard) footer).

End Serialize.

(** [MDBInMemoryShard::to_bytes] *)
Definition to_bytes `{SortUnstable (Z * Z)} (now : Z) (mdb : MDBInMemoryShard.t) : list byte := (serialize_from now mdb None).1.

(** ** Lookups *)

Section Lookup.
  Context `{B3 : Blake3}.

Definition chunk_hashes_protected (self : t) : bool :=
    negb (bool_decide (MDBShardFileFooter.chunk_hash_hmac_key (metadata self) = DataHash.default)).

Definition chunk_hmac_key (self : t) : option DataHash :=
    if bool_decide (MDBShardFileFooter.chunk_hash_hmac_key (metadata self) = DataHash.default) then None
    else Some (MDBShardFileFooter.chunk_hash_hmac_key (metadata self)).

Definition keyed_chunk_hash (self : t) (chunk_hash : DataHash) : DataHash :=
    let key := MDBShardFileFooter.chunk_hash_hmac_key (metadata self) in
    if negb (bool_decide (key = DataHash.default)) then hmac chunk_hash key else chunk_hash.

Definition within_collisions (hash : DataHash) (found : list Z) : result CoreError (list Z) :=
    if length found <? 8 then Ok found else Err (TruncatedHashCollision (truncate_hash hash)).

(** The indices found, in place of the array they are stored in and their number. *)
Definition get_file_info_index_by_hash (self : t) (f : list byte) (file_hash : DataHash) : option (result CoreError (list Z)) :=
    r ← search_on_sorted_u64s read_u32 4 f (MDBShardFileFooter.file_lookup_offset (metadata self))
          (MDBShardFileFooter.file_lookup_num_entry (metadata self)) (truncate_hash file_hash) 8;
    Some (found ← r; within_collisions file_hash found).

Definition get_xorb_info_index_by_hash (self : t) (f : list byte) (xorb_hash : DataHash) : option (result CoreError (list Z)) :=
    r ← search_on_sorted_u64s read_u32 4 f (MDBShardFileFooter.xorb_lookup_offset (metadata self))
          (MDBShardFileFooter.xorb_lookup_num_entry (metadata self)) (truncate_hash xorb_hash) 8;
    Some (found ← r; within_collisions xorb_hash found).

Definition get_xorb_info_index_by_chunk (self : t) (f : list byte) (unkeyed_chunk_hash : DataHash)
    : option (result CoreError (list (Z * Z))) :=
    search_on_sorted_u64s read_u32_pair 8 f (MDBShardFileFooter.chunk_lookup_offset (metadata self))
      (MDBShardFileFooter.chunk_lookup_num_entry (metadata self)) (truncate_hash (keyed_chunk_hash self unkeyed_chunk_hash)) 8.

Definition read_file_info (self : t) (f : list byte) (file_entry_index : Z) : result CoreError MDBFileInfo.t :=
    '(mdb_file, _) ← MDBFileInfo.deserialize
       (seek_to f (wrap64 (MDBShardFileFooter.file_info_offset (metadata self) + Z.of_nat MDB_FILE_INFO_ENTRY_SIZE * file_entry_index)));
    match mdb_file with
    | Some mdb_file => Ok mdb_file
    | None => Err InternalError
    end.

Definition read_all_file_info_sections (self : t) (f : list byte) : result CoreError (list MDBFileInfo.t) :=
    '(ret, _) ← while_some MDBFileInfo.deserialize (seek_to f (MDBShardFileFooter.file_info_offset (metadata self)));
    Ok ret.

Definition xorb_info_byte_range (self : t) : Z * Z :=
    (MDBShardFileFooter.xorb_info_offset (metadata self), MDBShardFileFooter.file_lookup_offset (metadata self)).

(** The state of the loop is the position and the blocks read. *)
Definition read_all_xorb_blocks (self : t) (f : list byte) : result CoreError (list (XorbChunkSequenceHeader.t * Z)) :=
    let start := MDBShardFileFooter.xorb_info_offset (metadata self) in
    '(xorb_blocks, _) ←
      loop (fun '(pos, xorb_blocks) =>
        xorb_block ← XorbChunkSequenceHeader.deserialize;
        if XorbChunkSequenceHeader.is_bookend xorb_block then mret (inr xorb_blocks)
        else
          let n := XorbChunkSequenceHeader.num_entries xorb_block in
          _ ← skip (Z.to_nat (48 * n));
          mret (inl ((pos + 48 + 48 * n)%Z, xorb_blocks ++ [(xorb_block, pos)])))
        (start, []) (seek_to f start);
    Ok xorb_blocks.

Definition read_all_xorb_blocks_full (self : t) (f : list byte) : result CoreError (list MDBXorbInfo.t) :=
    let '(xorb_info_start, _) := xorb_info_byte_range self in
    '(ret, _) ← while_some MDBXorbInfo.deserialize (seek_to f xorb_info_start);
    Ok ret.

Definition read_full_xorb_lookup (self : t) (f : list byte) : result CoreError (list (Z * Z)) :=
    '(xorb_lookup, _) ←
      read_n (trunc_xorb_hash ← read_u64; idx ← read_u32; mret (trunc_xorb_hash, idx))
        (Z.to_nat (MDBShardFileFooter.xorb_lookup_num_entry (metadata self)))
        (seek_to f (MDBShardFileFooter.xorb_lookup_offset (metadata self)));
    Ok xorb_lookup.

(** [for &file_entry_index in dest_indices] *)
Fixpoint first_file_match (self : t) (f : list byte) (file_hash : DataHash) (dest_indices : list Z) : result CoreError (option MDBFileInfo.t) :=
    match dest_indices with
    | [] => Ok None
    | file_entry_index :: dest_indices' =>
        mdb_file_info ← read_file_info self f file_entry_index;
        if bool_decide (FileDataSequenceHeader.file_hash (MDBFileInfo.metadata mdb_file_info) = file_hash)
        then Ok (Some mdb_file_info)
        else first_file_match self f file_hash dest_indices'
    end.

Definition get_file_reconstruction_info (self : t) (f : list byte) (file_hash : DataHash)
    : option (result CoreError (option MDBFileInfo.t)) :=
    r ← get_file_info_index_by_hash self f file_hash;
    Some (dest_indices ← r; first_file_match self f file_hash dest_indices).

(** [for i in 1..], with the query hashes from number [i] on: where the run ends and its bytes. *)
Fixpoint match_chunks (self : t) (xorb_chunk_offset num_entries : Z) (i : Z) (query : list DataHash) (n_bytes : Z) : Reader (Z * Z) :=
    if (xorb_chunk_offset + i =? num_entries)%Z then mret (i, n_bytes)
    else
      chunk ← XorbChunkSequenceEntry.deserialize;
      match query with
      | [] => mret (i, n_bytes)
      | h :: query' =>
          if negb (bool_decide (XorbChunkSequenceEntry.chunk_hash chunk = keyed_chunk_hash self h)) then mret (i, n_bytes)
          else match_chunks self xorb_chunk_offset num_entries (i + 1) query' (wrap32 (n_bytes + XorbChunkSequenceEntry.unpacked_segment_bytes chunk))
      end.

Definition chunk_hash_dedup_query_direct (self : t) (f : list byte) (unkeyed_query_hashes : list DataHash)
      (xorb_entry_index xorb_chunk_offset : Z) : result CoreError (option (nat * FileDataSequenceEntry.t)) :=
    match unkeyed_query_hashes with
    | [] => Ok None
    | first :: others =>
        '(found, _) ←
          (xorb_header ← XorbChunkSequenceHeader.deserialize;
           _ ← (if negb (xorb_chunk_offset =? 0)%Z then skip (Z.to_nat (Z.of_nat MDB_XORB_INFO_ENTRY_SIZE * xorb_chunk_offset)) else mret tt);
           first_chunk ← XorbChunkSequenceEntry.deserialize;
           if negb (bool_decide (XorbChunkSequenceEntry.chunk_hash first_chunk = keyed_chunk_hash self first)) then mret None
           else
             '(end_idx, n_bytes) ← match_chunks self xorb_chunk_offset (XorbChunkSequenceHeader.num_entries xorb_header) 1 others
                                     (XorbChunkSequenceEntry.unpacked_segment_bytes first_chunk);
             mret (Some (Z.to_nat end_idx,
               FileDataSequenceEntry.mk (XorbChunkSequenceHeader.xorb_hash xorb_header) (XorbChunkSequenceHeader.xorb_flags xorb_header)
                 n_bytes xorb_chunk_offset (wrap32 (xorb_chunk_offset + wrap32 end_idx)))))
          (seek_to f (wrap64 (MDBShardFileFooter.xorb_info_offset (metadata self) + Z.of_nat MDB_XORB_INFO_ENTRY_SIZE * xorb_entry_index)));
        Ok found
    end.

(** [for &(xorb_index, chunk_offset) in dest_indices] *)
Fixpoint first_chunk_match (self : t) (f : list byte) (query_hashes : list DataHash) (dest_indices : list (Z * Z))
      : result CoreError (option (nat * FileDataSequenceEntry.t)) :=
    match dest_indices with
    | [] => Ok None
    | (xorb_index, chunk_offset) :: dest_indices' =>
        found ← chunk_hash_dedup_query_direct self f query_hashes xorb_index chunk_offset;
        match found with
        | Some xorb => Ok (Some xorb)
        | None => first_chunk_match self f query_hashes dest_indices'
        end
    end.

Definition chunk_hash_dedup_query (self : t) (f : list byte) (query_hashes : list DataHash)
      : option (result CoreError (option (nat * FileDataSequenceEntry.t))) :=
    match query_hashes with
    | [] => Some (Ok None)
    | first :: _ =>
        if (MDBShardFileFooter.chunk_lookup_num_entry (metadata self) =? 0)%Z then Some (Ok None)
        else
          r ← get_xorb_info_index_by_chunk self f first;
          Some (dest_indices ← r; first_chunk_match self f query_hashes dest_indices)
    end.

(** [while reader.stream_position()? < xorb_info_end], with the position and the index of the xorb. *)
Definition scan_chunk_hashes (xorb_info_end : Z) : Z * Z * list (Z * (Z * Z)) -> Reader ((Z * Z * list (Z * (Z * Z))) + list (Z * (Z * Z))) :=
    fun '(pos, xorb_index, ret) =>
      if negb (pos <? xorb_info_end)%Z then mret (inr ret)
      else
        xorb_header ← XorbChunkSequenceHeader.deserialize;
        let n := XorbChunkSequenceHeader.num_entries xorb_header in
        chunks ← read_n XorbChunkSequenceEntry.deserialize (Z.to_nat n);
        mret (inl ((pos + 48 + 48 * n)%Z, wrap32 (xorb_index + wrap32 (1 + n)),
                   ret ++ imap (fun chunk_index chunk => (truncate_hash (XorbChunkSequenceEntry.chunk_hash chunk), (xorb_index, Z.of_nat chunk_index))) chunks)).

Definition read_all_truncated_hashes (self : t) (f : list byte) : result CoreError (list (Z * (Z * Z))) :=
    if negb (MDBShardFileFooter.chunk_lookup_num_entry (metadata self) =? 0)%Z then
      '(ret, _) ← read_n (h ← read_u64; v ← read_u32_pair; mret (h, v))
                    (Z.to_nat (MDBShardFileFooter.chunk_lookup_num_entry (metadata self)))
                    (seek_to f (MDBShardFileFooter.chunk_lookup_offset (metadata self)));
      Ok ret
    else
      let '(xorb_info_start, xorb_info_end) := xorb_info_byte_range self in
      '(ret, _) ← loop (scan_chunk_hashes xorb_info_end) (xorb_info_start, 0%Z, []) (seek_to f xorb_info_start);
      Ok ret.

Definition num_xorb_entries (self : t) : Z := MDBShardFileFooter.xorb_lookup_num_entry (metadata self).
Definition num_file_entries (self : t) : Z := MDBShardFileFooter.file_lookup_num_entry (metadata self).
Definition total_num_chunks (self : t) : Z := MDBShardFileFooter.chunk_lookup_num_entry (metadata self).

Definition file_info_byte_range (self : t) : Z * Z :=
    (MDBShardFileFooter.file_info_offset (metadata self), MDBShardFileFooter.xorb_info_offset (metadata self)).
Definition file_lookup_byte_range (self : t) : Z * Z :=
    (MDBShardFileFooter.file_lookup_offset (metadata self), MDBShardFileFooter.xorb_lookup_offset (metadata self)).
Definition xorb_lookup_byte_range (self : t) : Z * Z :=
    (MDBShardFileFooter.xorb_lookup_offset (metadata self), MDBShardFileFooter.chunk_lookup_offset (metadata self)).
Definition chuck_lookup_byte_range (self : t) : Z * Z :=
    (MDBShardFileFooter.chunk_lookup_offset (metadata self), MDBShardFileFooter.footer_offset (metadata self)).

Definition num_bytes (self : t) : Z := wrap64 (MDBShardFileFooter.footer_offset (metadata self) + Z.of_nat MDB_SHARD_FOOTER_SIZE).

End Lookup.

(** A range of bytes, and the information on a file that [read_file_info_ranges] gives. *)
Record FileInfoRange := mkFileInfoRange {
  range_file_hash : DataHash;
  data_sequence_entry_byte_range : Z * Z;
  verification_entry_byte_range : option (Z * Z);
  range_sha256 : option DataHash;
}.

(** From a reader at position [pos]; the header of the shard comes first. *)
Definition read_file_info_ranges (pos : Z) : Reader (list FileInfoRange) :=
  _ ← MDBShardFileHeader.deserialize;
  loop (fun '(pos, ret) =>
    header ← FileDataSequenceHeader.deserialize;
    if FileDataSequenceHeader.is_bookend header then mret (inr ret)
    else
      let n := (48 * FileDataSequenceHeader.num_entries header)%Z in
      let byte_start := (pos + 48)%Z in
      _ ← skip (Z.to_nat n);
      let byte_end := (byte_start + n)%Z in
      '(verification_range, pos) ←
        (if FileDataSequenceHeader.contains_verification header
         then (_ ← skip (Z.to_nat n); mret (Some (byte_end, (byte_end + n)%Z), (byte_end + n)%Z))
         else mret (None, byte_end));
      '(sha256, pos) ←
        (if FileDataSequenceHeader.contains_metadata_ext header
         then (metadata_ext ← FileMetadataExt.deserialize; mret (Some (FileMetadataExt.sha256 metadata_ext), (pos + 48)%Z))
         else mret (None, pos));
      mret (inl (pos, ret ++ [mkFileInfoRange (FileDataSequenceHeader.file_hash header) (byte_start, byte_end) verification_range sha256])))
    ((pos + 48)%Z, []).

End MDBShardInfo.

(** ** Header and footer *)

#[export] Instance u32_pair_codec : FixedCodec (Z * Z) write_u32_pair read_u32_pair (fun v => is_u32 v.1 /\ is_u32 v.2) 8.
Proof. apply (pair_codec _ _ _ _ _ _ _ _ u32_codec u32_codec). Qed.

Definition header_wf (h : MDBShardFileHeader.t) : Prop :=
  MDBShardFileHeader.tag h = MDB_SHARD_HEADER_TAG /\ is_u64 (MDBShardFileHeader.version h) /\ is_u64 (MDBShardFileHeader.footer_size h).

Lemma shard_header_length h : length (MDBShardFileHeader.serialize h).1 = (MDBShardFileHeader.serialize h).2.
Proof. unfold MDBShardFileHeader.serialize. cbn [fst snd]. by rewrite !length_app, !encode_length. Qed.

Lemma shard_header_written h rest :
  header_wf h -> MDBShardFileHeader.deserialize ((MDBShardFileHeader.serialize h).1 ++ rest) = Ok (h, rest).
Proof.
  intros (Ht & Hv & Hf). unfold MDBShardFileHeader.serialize, MDBShardFileHeader.deserialize. cbn [fst]. rewrite <- !app_assoc.
  rewrite bind_read_exact by done. rewrite bool_decide_eq_true_2 by done. cbn [negb].
  rewrite !(bind_decode (decode := read_u64)) by done. by destruct h; cbn in Ht; subst.
Qed.

Definition footer_wf (s : MDBShardFileFooter.t) : Prop :=
  MDBShardFileFooter.version s = MDB_SHARD_FOOTER_VERSION /\ is_u64 (MDBShardFileFooter.file_info_offset s) /\
  is_u64 (MDBShardFileFooter.xorb_info_offset s) /\ is_u64 (MDBShardFileFooter.file_lookup_offset s) /\
  is_u64 (MDBShardFileFooter.file_lookup_num_entry s) /\ is_u64 (MDBShardFileFooter.xorb_lookup_offset s) /\
  is_u64 (MDBShardFileFooter.xorb_lookup_num_entry s) /\ is_u64 (MDBShardFileFooter.chunk_lookup_offset s) /\
  is_u64 (MDBShardFileFooter.chunk_lookup_num_entry s) /\ hash_wf (MDBShardFileFooter.chunk_hash_hmac_key s) /\
  is_u64 (MDBShardFileFooter.shard_creation_timestamp s) /\ is_u64 (MDBShardFileFooter.shard_key_expiry s) /\
  length (MDBShardFileFooter._buffer s) = 6 /\ Forall is_u64 (MDBShardFileFooter._buffer s) /\
  is_u64 (MDBShardFileFooter.stored_bytes_on_disk s) /\ is_u64 (MDBShardFileFooter.materialized_bytes s) /\
  is_u64 (MDBShardFileFooter.stored_bytes s) /\ is_u64 (MDBShardFileFooter.footer_offset s).

(** The fields of a footer that is given. *)
Ltac footer_fields :=
  cbn [MDBShardFileFooter.version MDBShardFileFooter.file_info_offset MDBShardFileFooter.xorb_info_offset
    MDBShardFileFooter.file_lookup_offset MDBShardFileFooter.file_lookup_num_entry MDBShardFileFooter.xorb_lookup_offset
    MDBShardFileFooter.xorb_lookup_num_entry MDBShardFileFooter.chunk_lookup_offset MDBShardFileFooter.chunk_lookup_num_entry
    MDBShardFileFooter.chunk_hash_hmac_key MDBShardFileFooter.shard_creation_timestamp MDBShardFileFooter.shard_key_expiry
    MDBShardFileFooter._buffer MDBShardFileFooter.stored_bytes_on_disk MDBShardFileFooter.materialized_bytes
    MDBShardFileFooter.stored_bytes MDBShardFileFooter.footer_offset].

Lemma shard_footer_length s : footer_wf s -> length (MDBShardFileFooter.serialize s).1 = MDB_SHARD_FOOTER_SIZE.
Proof.
  intros (_ & _ & _ & _ & _ & _ & _ & _ & _ & _ & _ & _ & Hb & _). unfold MDBShardFileFooter.serialize, write_u64s. cbn [fst].
  by rewrite !length_app, length_concat_encode, !encode_length, Hb.
Qed.

Lemma shard_footer_written s rest :
  footer_wf s -> MDBShardFileFooter.deserialize ((MDBShardFileFooter.serialize s).1 ++ rest) = Ok (s, rest).
Proof.
  intros (Hv & ? & ? & ? & ? & ? & ? & ? & ? & ? & ? & ? & Hb & ? & ? & ? & ? & ?).
  unfold MDBShardFileFooter.serialize, MDBShardFileFooter.deserialize, read_u64s, write_u64s. cbn [fst]. rewrite <- !app_assoc.
  rewrite (bind_decode (decode := read_u64)) by (rewrite Hv; done). rewrite Hv, Z.eqb_refl. cbn [negb].
  rewrite !(bind_decode (decode := read_u64)) by done. rewrite (bind_decode (decode := read_hash)) by done.
  rewrite !(bind_decode (decode := read_u64)) by done. rewrite (bind_decode_n (decode := read_u64)) by done.
  rewrite !(bind_decode (decode := read_u64)) by done. destruct s; cbn in Hv; by subst.
Qed.

(** ** Lists laid out in a section *)

(** The items of a list, each with the number of the record it starts at. *)
Fixpoint with_index {A} (records : A -> nat) (index : nat) (l : list A) : list (nat * A) :=
  match l with
  | [] => []
  | a :: l' => (index, a) :: with_index records (index + records a) l'
  end.

Abbreviation total := sum_list_with.

Lemma with_index_snd {A} (records : A -> nat) index l : (with_index records index l).*2 = l.
Proof. revert index. induction l as [|a l IH]; intros index; cbn; [done|]. by rewrite IH. Qed.

Lemma with_index_elem {A} (records : A -> nat) index l i a :
  (i, a) ∈ with_index records index l -> exists l1 l2, l = l1 ++ a :: l2 /\ i = index + total records l1.
Proof.
  revert index. induction l as [|b l IH]; intros index; cbn; [by intros ?%not_elem_of_nil|].
  intros [[= -> ->]|(l1 & l2 & -> & ->)%IH]%elem_of_cons.
  - exists [], l. split; [done|]. cbn. lia.
  - exists (b :: l1), l2. split; [done|]. cbn. lia.
Qed.

Lemma with_index_elem_2 {A} (records : A -> nat) index l1 a l2 :
  (index + total records l1, a) ∈ with_index records index (l1 ++ a :: l2).
Proof.
  revert index. induction l1 as [|b l1 IH]; intros index; cbn.
  - rewrite Nat.add_0_r. by left.
  - right. replace (index + _) with ((index + records b) + total records l1) by (cbn; lia). apply IH.
Qed.

Lemma length_section {A} (records : A -> nat) (write : A -> list byte) sz l :
  Forall (fun a => length (write a) = sz * records a) l -> length (concat (write <$> l)) = sz * total records l.
Proof.
  induction 1 as [|a l Ha Hl IH]; cbn; [lia|]. rewrite length_app, Ha, IH. lia.
Qed.

Lemma length_le_total {A} (records : A -> nat) l : (forall a, 0 < records a) -> length l <= total records l.
Proof. intros H. induction l as [|a l IH]; cbn; [lia|]. specialize (H a). lia. Qed.

(** What is read at a record of a section. *)
Lemma drop_section {A} (records : A -> nat) (write : A -> list byte) sz l1 l2 rest :
  Forall (fun a => length (write a) = sz * records a) l1 ->
  drop (sz * total records l1) (concat (write <$> l1 ++ l2) ++ rest) = concat (write <$> l2) ++ rest.
Proof.
  intros H. rewrite fmap_app, concat_app, <- app_assoc, drop_app_length'; [done|]. symmetry. by apply length_section.
Qed.

(** ** The file that is written *)

Definition file_records (e : DataHash * MDBFileInfo.t) : nat := (MDBFileInfo.serialize e.2).2 / 48.
Definition xorb_records (e : DataHash * MDBXorbInfo.t) : nat := S (length (MDBXorbInfo.chunks e.2)).

Definition file_bytes (e : DataHash * MDBFileInfo.t) : list byte := (MDBFileInfo.serialize e.2).1.
Definition xorb_bytes (e : DataHash * MDBXorbInfo.t) : list byte := (MDBXorbInfo.serialize e.2).1.

Definition file_row (r : nat * (DataHash * MDBFileInfo.t)) : Z * Z := (truncate_hash r.2.1, Z.of_nat r.1).
Definition xorb_row (r : nat * (DataHash * MDBXorbInfo.t)) : Z * Z := (truncate_hash r.2.1, Z.of_nat r.1).
Definition chunk_row_of (r : nat * (DataHash * MDBXorbInfo.t)) : list (Z * (Z * Z)) :=
  imap (fun i c => (truncate_hash (XorbChunkSequenceEntry.chunk_hash c), (Z.of_nat r.1, Z.of_nat i))) (MDBXorbInfo.chunks r.2.2).

(** Shards that fit a file: the records are valid and their numbers are [u32]s. *)
Record storable (mdb : MDBInMemoryShard.t) : Prop := {
  storable_wf : shard_wf mdb;
  storable_files : Forall (fun e => MDBFileInfo.valid e.2) (MDBInMemoryShard.file_content mdb);
  storable_xorbs : Forall (fun e => MDBXorbInfo.valid e.2) (MDBInMemoryShard.xorb_content mdb);
  storable_file_records : (Z.of_nat (total file_records (MDBInMemoryShard.file_content mdb)) < 2 ^ 32)%Z;
  storable_xorb_records : (Z.of_nat (total xorb_records (MDBInMemoryShard.xorb_content mdb)) < 2 ^ 32)%Z;
}.

Lemma file_serialize_48 i : exists n, (MDBFileInfo.serialize i).2 = 48 * S n.
Proof.
  unfold MDBFileInfo.serialize, MDB_FILE_INFO_ENTRY_SIZE. cbn zeta.
  destruct (MDBFileInfo.contains_verification i), (MDBFileInfo.metadata_ext i); cbn [snd].
  - exists (length (MDBFileInfo.segments i) + length (MDBFileInfo.verification i) + 1). lia.
  - exists (length (MDBFileInfo.segments i) + length (MDBFileInfo.verification i)). lia.
  - exists (length (MDBFileInfo.segments i) + 1). lia.
  - exists (length (MDBFileInfo.segments i)). lia.
Qed.

Lemma file_bytes_length e : length (file_bytes e) = 48 * file_records e.
Proof.
  unfold file_bytes, file_records. rewrite serialize_count. destruct (file_serialize_48 e.2) as [n ->].
  by rewrite (Nat.mul_comm 48 (S n)), Nat.div_mul, Nat.mul_comm.
Qed.

Lemma file_records_pos e : 0 < file_records e.
Proof. unfold file_records. destruct (file_serialize_48 e.2) as [n ->]. rewrite (Nat.mul_comm 48), Nat.div_mul by done. lia. Qed.

Lemma xorb_bytes_length e : length (xorb_bytes e) = 48 * xorb_records e.
Proof. unfold xorb_bytes, xorb_records. rewrite xorb_serialize_length. unfold MDBXorbInfo.serialize, MDB_XORB_INFO_ENTRY_SIZE. cbn [snd]. lia. Qed.

Lemma save_file_infos_spec l index :
  (Z.of_nat (index + total file_records l) < 2 ^ 32)%Z ->
  MDBShardInfo.save_file_infos l (Z.of_nat index) =
    (concat (file_bytes <$> l), file_row <$> with_index file_records index l, 48 * total file_records l).
Proof.
  revert index. induction l as [|[h c] l IH]; intros index Hb; [done|]. cbn [MDBShardInfo.save_file_infos].
  pose proof (file_bytes_length (h, c)) as Hl. cbn [sum_list_with] in Hb |- *.
  assert (file_bytes (h, c) = (MDBFileInfo.serialize c).1) as Ef by done.
  assert (file_records (h, c) = (MDBFileInfo.serialize c).2 / MDB_FILE_INFO_ENTRY_SIZE) as Er by done.
  assert ((MDBFileInfo.serialize c).2 = 48 * file_records (h, c)) as En by (rewrite <- Hl, Ef; symmetry; apply serialize_count).
  destruct (MDBFileInfo.serialize c) as [out bytes]. cbn [fst snd] in Ef, Er, En. rewrite <- Er.
  rewrite (wrap32_small (Z.of_nat (file_records _))), wrap32_small, <- Nat2Z.inj_add by (unfold is_u32; lia).
  rewrite IH by lia. cbn [fmap list_fmap concat with_index]. rewrite Ef. f_equal. lia.
Qed.

Lemma save_xorb_infos_spec l index :
  (Z.of_nat (index + total xorb_records l) < 2 ^ 32)%Z ->
  MDBShardInfo.save_xorb_infos l (Z.of_nat index) =
    (concat (xorb_bytes <$> l), xorb_row <$> with_index xorb_records index l,
     concat (chunk_row_of <$> with_index xorb_records index l), 48 * total xorb_records l).
Proof.
  revert index. induction l as [|[h c] l IH]; intros index Hb; [done|]. cbn [MDBShardInfo.save_xorb_infos]. cbn zeta.
  assert (xorb_records (h, c) = S (length (MDBXorbInfo.chunks c))) as Er by done. cbn [sum_list_with] in Hb |- *.
  rewrite (wrap32_small (Z.of_nat (length _))), (wrap32_small (1 + _)), wrap32_small by (unfold is_u32; lia).
  replace (Z.of_nat index + _)%Z with (Z.of_nat (index + xorb_records (h, c))) by lia.
  rewrite IH by lia. cbn [fmap list_fmap concat with_index].
  replace (imap _ (MDBXorbInfo.chunks c)) with (chunk_row_of (index, (h, c))).
  - f_equal. rewrite Er. unfold MDB_XORB_INFO_ENTRY_SIZE. lia.
  - apply imap_ext. intros i x Hi%lookup_lt_Some. by rewrite wrap32_small by (unfold is_u32; lia).
Qed.

(** The sections of the file, in order. *)
Section Written.
  Context `{Sort : SortUnstable (Z * Z)} (key : DataHash) (creation key_expiry : Z) (mdb : MDBInMemoryShard.t).

Definition files_section : list byte :=
    concat (file_bytes <$> MDBInMemoryShard.file_content mdb) ++ FileDataSequenceHeader.serialize FileDataSequenceHeader.bookend.
Definition xorbs_section : list byte :=
    concat (xorb_bytes <$> MDBInMemoryShard.xorb_content mdb) ++ XorbChunkSequenceHeader.serialize XorbChunkSequenceHeader.bookend.
Definition file_rows : list (nat * (DataHash * MDBFileInfo.t)) := with_index file_records 0 (MDBInMemoryShard.file_content mdb).
Definition xorb_rows : list (nat * (DataHash * MDBXorbInfo.t)) := with_index xorb_records 0 (MDBInMemoryShard.xorb_content mdb).
Definition file_table : list (Z * Z) := file_row <$> file_rows.
Definition xorb_table : list (Z * Z) := xorb_row <$> xorb_rows.
Definition chunk_table : list (Z * (Z * Z)) := sort_unstable_by_key (concat (chunk_row_of <$> xorb_rows)).

Definition tables_section : list byte :=
    concat (write_pair write_u32 <$> file_table) ++ concat (write_pair write_u32 <$> xorb_table) ++
    concat (write_pair write_u32_pair <$> chunk_table).

Definition footer_of : MDBShardFileFooter.t :=
    let a := 48 + length files_section in
    let b := a + length xorbs_section in
    let c := b + 12 * length file_table in
    let d := c + 12 * length xorb_table in
    MDBShardFileFooter.mk MDB_SHARD_FOOTER_VERSION 48 (Z.of_nat a) (Z.of_nat b) (Z.of_nat (length file_table)) (Z.of_nat c)
      (Z.of_nat (length xorb_table)) (Z.of_nat d) (Z.of_nat (length chunk_table)) key creation key_expiry (replicate 6 0%Z)
      (MDBInMemoryShard.stored_bytes_on_disk mdb) (MDBInMemoryShard.materialized_bytes mdb) (MDBInMemoryShard.stored_bytes mdb)
      (Z.of_nat (d + 16 * length chunk_table)).

Definition shard_info : MDBShardInfo.t := MDBShardInfo.mk MDBShardFileHeader.default footer_of.

Definition shard_bytes : list byte :=
    (MDBShardFileHeader.serialize MDBShardFileHeader.default).1 ++ files_section ++ xorbs_section ++ tables_section ++
    (MDBShardFileFooter.serialize footer_of).1.

Lemma files_section_length : length files_section = 48 * S (total file_records (MDBInMemoryShard.file_content mdb)).
Proof.
  unfold files_section. rewrite length_app, (encode_length (encode := FileDataSequenceHeader.serialize)), (length_section file_records _ 48); [lia|].
  apply Forall_true. intros. apply file_bytes_length.
Qed.

Lemma xorbs_section_length : length xorbs_section = 48 * S (total xorb_records (MDBInMemoryShard.xorb_content mdb)).
Proof.
  unfold xorbs_section. rewrite length_app, (encode_length (encode := XorbChunkSequenceHeader.serialize)), (length_section xorb_records _ 48); [lia|].
  apply Forall_true. intros. apply xorb_bytes_length.
Qed.

(** Bounds that follow from the number of records. *)
Lemma file_table_length : length file_table = length (MDBInMemoryShard.file_content mdb).
Proof. unfold file_table, file_rows. by rewrite length_fmap, <- (length_fmap snd), with_index_snd. Qed.

Lemma xorb_table_length : length xorb_table = length (MDBInMemoryShard.xorb_content mdb).
Proof. unfold xorb_table, xorb_rows. by rewrite length_fmap, <- (length_fmap snd), with_index_snd. Qed.

Lemma chunk_rows_length index l :
    length (concat (chunk_row_of <$> with_index xorb_records index l)) + length l = total xorb_records l.
Proof.
  revert index. induction l as [|[h c] l IH]; intros index; [done|]. cbn [with_index fmap list_fmap concat sum_list_with length].
  rewrite length_app. specialize (IH (index + xorb_records (h, c))). unfold chunk_row_of at 1. rewrite length_imap.
  assert (xorb_records (h, c) = S (length (MDBXorbInfo.chunks c))) by done. cbn [snd]. lia.
Qed.

Lemma chunk_table_length : length chunk_table + length (MDBInMemoryShard.xorb_content mdb) = total xorb_records (MDBInMemoryShard.xorb_content mdb).
Proof. unfold chunk_table. rewrite sort_unstable_Permutation. apply chunk_rows_length. Qed.

Lemma table_bounds :
    storable mdb ->
    (Z.of_nat (length file_table) < 2 ^ 32 /\ Z.of_nat (length xorb_table) < 2 ^ 32 /\ Z.of_nat (length chunk_table) < 2 ^ 32 /\
     Z.of_nat (length files_section) <= 48 * 2 ^ 32 /\ Z.of_nat (length xorbs_section) <= 48 * 2 ^ 32)%Z.
Proof.
  intros []. rewrite file_table_length, xorb_table_length, files_section_length, xorbs_section_length.
  pose proof (length_le_total file_records (MDBInMemoryShard.file_content mdb) file_records_pos). pose proof chunk_table_length.
  lia.
Qed.

Lemma seek_to_app a b p : p = Z.of_nat (length a) -> seek_to (a ++ b) p = b.
Proof. intros ->. unfold seek_to. by rewrite Nat2Z.id, drop_app_length. Qed.

(** *** Where the sections are *)

Definition footer_bytes : list byte := (MDBShardFileFooter.serialize footer_of).1.

Lemma default_header_length : length (MDBShardFileHeader.serialize MDBShardFileHeader.default).1 = 48.
Proof. apply shard_header_length. Qed.

Lemma seek_files : seek_to shard_bytes (MDBShardFileFooter.file_info_offset footer_of) = files_section ++ xorbs_section ++ tables_section ++ footer_bytes.
Proof. apply seek_to_app. by rewrite default_header_length. Qed.

Lemma seek_xorbs : seek_to shard_bytes (MDBShardFileFooter.xorb_info_offset footer_of) = xorbs_section ++ tables_section ++ footer_bytes.
Proof. unfold shard_bytes. rewrite app_assoc. apply seek_to_app. rewrite length_app, default_header_length. done. Qed.

Lemma seek_file_table :
    seek_to shard_bytes (MDBShardFileFooter.file_lookup_offset footer_of) =
    concat (write_pair write_u32 <$> file_table) ++ concat (write_pair write_u32 <$> xorb_table) ++
    concat (write_pair write_u32_pair <$> chunk_table) ++ footer_bytes.
Proof.
  unfold shard_bytes, tables_section. rewrite app_assoc, app_assoc, <- !(app_assoc _ _ (MDBShardFileFooter.serialize _).1).
  apply seek_to_app. rewrite !length_app, default_header_length. done.
Qed.

Lemma length_rows {V} (write_value : V -> list byte) sz {read valid} `{FixedCodec V write_value read valid sz} l :
    length (concat (write_pair write_value <$> l)) = (8 + sz) * length l.
Proof. rewrite (length_pairs write_value read valid sz) by done. lia. Qed.

Lemma seek_xorb_table :
    seek_to shard_bytes (MDBShardFileFooter.xorb_lookup_offset footer_of) =
    concat (write_pair write_u32 <$> xorb_table) ++ concat (write_pair write_u32_pair <$> chunk_table) ++ footer_bytes.
Proof.
  unfold shard_bytes, tables_section.
  rewrite app_assoc, app_assoc, <- !(app_assoc _ _ (MDBShardFileFooter.serialize _).1), app_assoc.
  apply seek_to_app. rewrite !length_app, default_header_length, (length_rows _ 4). done.
Qed.

Lemma seek_chunk_table :
    seek_to shard_bytes (MDBShardFileFooter.chunk_lookup_offset footer_of) =
    concat (write_pair write_u32_pair <$> chunk_table) ++ footer_bytes.
Proof.
  unfold shard_bytes, tables_section.
  rewrite app_assoc, app_assoc, <- !(app_assoc _ _ (MDBShardFileFooter.serialize _).1), app_assoc, app_assoc.
  apply seek_to_app. rewrite !length_app, default_header_length, !(length_rows _ 4). done.
Qed.

Lemma shard_bytes_length :
    footer_wf footer_of -> Z.of_nat (length shard_bytes) = (MDBShardFileFooter.footer_offset footer_of + Z.of_nat MDB_SHARD_FOOTER_SIZE)%Z.
Proof.
  intros Hf. unfold shard_bytes, tables_section. rewrite !length_app, default_header_length, !(length_rows _ 4), (length_rows _ 8).
  rewrite (shard_footer_length _ Hf). unfold footer_of. cbn [MDBShardFileFooter.footer_offset]. lia.
Qed.

Lemma fold_is_u64 {A} (g : A -> Z) l a : is_u64 a -> is_u64 (fold_left (fun acc e => wrap64 (acc + g e)) l a).
Proof. revert a. induction l as [|e l IH]; intros a Ha; [done|]. cbn. apply IH, wrap64_is_u64. Qed.

Lemma footer_of_wf : storable mdb -> hash_wf key -> is_u64 creation -> is_u64 key_expiry -> footer_wf footer_of.
Proof.
  intros Hs Hk Hc He. pose proof (table_bounds Hs). unfold footer_of, footer_wf. unfold is_u64 in *. cbn zeta.
  footer_fields.
  split_and!; try done; try lia; try (by apply fold_is_u64).
  repeat constructor; unfold is_u64; lia.
Qed.

Lemma load_written : storable mdb -> hash_wf key -> is_u64 creation -> is_u64 key_expiry -> MDBShardInfo.load_from_reader shard_bytes = Ok shard_info.
Proof.
  intros Hs Hk Hc He. pose proof (footer_of_wf Hs Hk Hc He) as Hf. unfold MDBShardInfo.load_from_reader.
  assert (header_wf MDBShardFileHeader.default) as Hh by done.
  rewrite (shard_header_written MDBShardFileHeader.default _ Hh : MDBShardFileHeader.deserialize shard_bytes = _).
  rewrite result_bind_Ok. unfold shard_bytes. rewrite !app_assoc.
  rewrite seek_from_end_app by by apply shard_footer_length. rewrite result_bind_Ok.
  rewrite <- (app_nil_r (MDBShardFileFooter.serialize _).1), shard_footer_written by done. by rewrite result_bind_Ok.
Qed.

(** *** Looking up a file *)

Lemma with_index_sorted {A B} (records : A -> nat) (g : nat * A -> Z * B) (R : A -> A -> Prop) index l :
    (forall i j a b, R a b -> ((g (i, a)).1 <= (g (j, b)).1)%Z) -> StronglySorted R l ->
    StronglySorted (fun a b => a.1 <= b.1)%Z (g <$> with_index records index l).
Proof.
  intros Hg Hs. revert index. induction Hs as [|a l Hs IH Hall]; intros index; cbn; constructor; [apply IH|].
  apply Forall_fmap, Forall_forall. intros [j b] Hb. apply Hg. rewrite Forall_forall in Hall. apply Hall.
  rewrite <- (with_index_snd records (index + records a)). by apply (list_elem_of_fmap_2 snd) in Hb.
Qed.

Lemma truncate_le {V} (a b : DataHash * V) : key_lt a b -> (truncate_hash a.1 <= truncate_hash b.1)%Z.
Proof. unfold key_lt, truncate_hash. rewrite cmp_lt_iff. lia. Qed.

Lemma file_rows_elem i e :
    (i, e) ∈ file_rows ->
    exists l1 l2, MDBInMemoryShard.file_content mdb = l1 ++ e :: l2 /\ i = total file_records l1.
Proof. intros (l1 & l2 & -> & ->)%with_index_elem. by exists l1, l2. Qed.

Lemma xorb_rows_elem i e :
    (i, e) ∈ xorb_rows ->
    exists l1 l2, MDBInMemoryShard.xorb_content mdb = l1 ++ e :: l2 /\ i = total xorb_records l1.
Proof. intros (l1 & l2 & -> & ->)%with_index_elem. by exists l1, l2. Qed.

Lemma file_rows_index i e : storable mdb -> (i, e) ∈ file_rows -> (Z.of_nat i < 2 ^ 32)%Z.
Proof.
  intros [] (l1 & l2 & Hl & ->)%file_rows_elem. rewrite Hl, sum_list_with_app in storable_file_records0. lia.
Qed.

Lemma file_rows_key i e : storable mdb -> (i, e) ∈ file_rows -> hash_wf e.1 /\ FileDataSequenceHeader.file_hash (MDBFileInfo.metadata e.2) = e.1.
Proof.
  intros [Hwf Hv _ _ _] (l1 & l2 & Hl & ->)%file_rows_elem. assert (e ∈ MDBInMemoryShard.file_content mdb) as He by (rewrite Hl; set_solver).
  assert (FileDataSequenceHeader.file_hash (MDBFileInfo.metadata e.2) = e.1) as Hk.
  { apply (wf_file_keys _ Hwf), sorted_lookup; [by apply wf_files_sorted|]. by destruct e. }
  split; [|done]. rewrite Forall_forall in Hv. destruct (Hv _ He) as [[Hh _] _]. by rewrite <- Hk.
Qed.

Lemma file_table_rows : storable mdb -> Forall (fun e => is_u64 e.1 /\ is_u32 e.2) file_table.
Proof.
  intros Hs. apply Forall_fmap, Forall_forall. intros [i e] Hr. cbn. split.
  - destruct (file_rows_key i e Hs Hr) as [Hh _]. apply Hh.
  - pose proof (file_rows_index i e Hs Hr). unfold is_u32. lia.
Qed.

Lemma read_file_row i e : storable mdb -> (i, e) ∈ file_rows -> MDBShardInfo.read_file_info shard_info shard_bytes (Z.of_nat i) = Ok e.2.
Proof.
  intros Hs Hr. pose proof (file_rows_index i e Hs Hr) as Hi. apply file_rows_elem in Hr as (l1 & l2 & Hl & ->).
  unfold MDBShardInfo.read_file_info. cbn [MDBShardInfo.metadata shard_info].
  rewrite wrap64_small by (unfold is_u64, footer_of; cbn [MDBShardFileFooter.file_info_offset]; unfold MDB_FILE_INFO_ENTRY_SIZE; lia).
  assert (seek_to shard_bytes (MDBShardFileFooter.file_info_offset footer_of + Z.of_nat MDB_FILE_INFO_ENTRY_SIZE * Z.of_nat (total file_records l1))
    = drop (48 * total file_records l1) (seek_to shard_bytes (MDBShardFileFooter.file_info_offset footer_of))) as ->.
  { unfold seek_to. rewrite drop_drop. f_equal. unfold MDB_FILE_INFO_ENTRY_SIZE, footer_of. cbn [MDBShardFileFooter.file_info_offset]. lia. }
  rewrite seek_files. unfold files_section. rewrite Hl, <- app_assoc, drop_section by (apply Forall_true; intros; apply file_bytes_length).
  cbn [fmap list_fmap concat]. rewrite <- app_assoc. unfold file_bytes at 1. rewrite deserialize_serialize; [done|].
  destruct Hs. rewrite Hl in storable_files0. by apply Forall_app in storable_files0 as [_ [? _]%Forall_cons].
Qed.

Definition row_matches (h : DataHash) (rows : list (nat * (DataHash * MDBFileInfo.t))) : list Z :=
    (fun r => Z.of_nat r.1) <$> filter (fun r => truncate_hash r.2.1 = truncate_hash h) rows.

Lemma matches_file_rows h rows : matches (truncate_hash h) (file_row <$> rows) = row_matches h rows.
Proof.
  unfold matches, row_matches. induction rows as [|r rows IH]; [done|]. cbn [fmap list_fmap].
  rewrite !filter_cons. cbn [file_row fst snd]. destruct (decide _); cbn [fmap list_fmap]; by rewrite IH.
Qed.

Lemma search_file_table h :
    storable mdb ->
    exists l, l ≡ₚ row_matches h file_rows /\
      search_on_sorted_u64s read_u32 4 shard_bytes (MDBShardFileFooter.file_lookup_offset footer_of)
        (MDBShardFileFooter.file_lookup_num_entry footer_of) (truncate_hash h) 8 = Some (Ok (take 8 l)).
Proof.
  intros Hs. pose proof (table_bounds Hs). rewrite <- matches_file_rows.
  apply (search_spec write_u32 read_u32 is_u32 4 _ _ _ _ 8 file_table seek_file_table).
  - apply (with_index_sorted _ file_row key_lt); [intros; by apply truncate_le|apply (wf_files_sorted _ (storable_wf _ Hs))].
  - by apply file_table_rows.
  - unfold footer_of. cbn [MDBShardFileFooter.file_lookup_offset]. lia.
  - unfold footer_of. cbn [MDBShardFileFooter.file_lookup_offset]. lia.
  - lia.
Qed.

Lemma first_file_match_miss h idxs :
    storable mdb -> (forall z, z ∈ idxs -> exists i e, z = Z.of_nat i /\ (i, e) ∈ file_rows /\ e.1 <> h) ->
    MDBShardInfo.first_file_match shard_info shard_bytes h idxs = Ok None.
Proof.
  intros Hs. induction idxs as [|z idxs IH]; intros H; [done|]. cbn [MDBShardInfo.first_file_match].
  destruct (H z) as (i & e & -> & Hr & Hne); [by left|]. rewrite (read_file_row i e Hs Hr), result_bind_Ok.
  rewrite (proj2 (file_rows_key i e Hs Hr)), bool_decide_eq_false_2 by done. apply IH. intros. apply H. by right.
Qed.

Lemma first_file_match_hit h c i idxs :
    storable mdb -> (forall z, z ∈ idxs -> exists i e, z = Z.of_nat i /\ (i, e) ∈ file_rows) ->
    (forall j d, (j, (h, d)) ∈ file_rows -> d = c) -> (i, (h, c)) ∈ file_rows -> Z.of_nat i ∈ idxs ->
    MDBShardInfo.first_file_match shard_info shard_bytes h idxs = Ok (Some c).
Proof.
  intros Hs H Hu Hr Hi. induction idxs as [|z idxs IH]; [by apply not_elem_of_nil in Hi|]. cbn [MDBShardInfo.first_file_match].
  destruct (H z) as (j & [h' d] & -> & Hr'); [by left|]. rewrite (read_file_row j _ Hs Hr'), result_bind_Ok.
  rewrite (proj2 (file_rows_key j _ Hs Hr')). cbn [fst snd]. case_bool_decide as E.
  - subst. by rewrite (Hu _ _ Hr').
  - apply IH; [intros; apply H; by right|]. apply elem_of_cons in Hi as [Hi|Hi]; [|done].
    apply Nat2Z.inj in Hi as ->. pose proof (read_file_row _ _ Hs Hr) as E1. pose proof (read_file_row _ _ Hs Hr') as E2.
    rewrite E1 in E2. injection E2 as <-. exfalso. apply E.
    pose proof (proj2 (file_rows_key _ _ Hs Hr)) as K1. pose proof (proj2 (file_rows_key _ _ Hs Hr')) as K2. cbn in K1, K2. congruence.
Qed.

Lemma elem_of_row_matches h z :
    z ∈ row_matches h file_rows <-> exists i e, z = Z.of_nat i /\ (i, e) ∈ file_rows /\ truncate_hash e.1 = truncate_hash h.
Proof.
  unfold row_matches. rewrite list_elem_of_fmap. split.
  - intros ([i e] & -> & [Ht Hr]%list_elem_of_filter). by exists i, e.
  - intros (i & e & -> & Hr & Ht). exists (i, e). split; [done|]. by apply list_elem_of_filter.
Qed.

Lemma row_matches_length h :
    length (row_matches h file_rows) =
    length (filter (fun e => truncate_hash e.1 = truncate_hash h) (MDBInMemoryShard.file_content mdb)).
Proof.
  unfold row_matches, file_rows. rewrite length_fmap. generalize 0. induction (MDBInMemoryShard.file_content mdb) as [|e l IH]; [done|].
  intros n. cbn [with_index]. rewrite !filter_cons. cbn [fst snd]. destruct (decide _); cbn [length]; by rewrite IH.
Qed.

Lemma lookup_file_rows h :
    storable mdb ->
    (forall c, to_map (MDBInMemoryShard.file_content mdb) !! h = Some c <-> exists i, (i, (h, c)) ∈ file_rows).
Proof.
  intros Hs c. rewrite sorted_lookup by apply (wf_files_sorted _ (storable_wf _ Hs)). split.
  - intros (l1 & l2 & Hl)%list_elem_of_split. exists (total file_records l1). unfold file_rows. rewrite Hl.
    apply (with_index_elem_2 file_records 0).
  - intros (i & (l1 & l2 & -> & _)%file_rows_elem). set_solver.
Qed.

Lemma file_lookup_agrees h :
    storable mdb ->
    MDBShardInfo.get_file_reconstruction_info shard_info shard_bytes h =
    Some (if length (filter (fun e => truncate_hash e.1 = truncate_hash h) (MDBInMemoryShard.file_content mdb)) <? 8
          then Ok (MDBInMemoryShard.get_file_reconstruction_info mdb h) else Err (TruncatedHashCollision (truncate_hash h))).
Proof.
  intros Hs. unfold MDBShardInfo.get_file_reconstruction_info, MDBShardInfo.get_file_info_index_by_hash.
  cbn [MDBShardInfo.metadata shard_info]. destruct (search_file_table h Hs) as (l & Hl & ->). cbn [mbind option_bind result_bind].
  unfold MDBShardInfo.within_collisions.
  rewrite <- row_matches_length, <- Hl, length_take. destruct (Nat.ltb_spec (length l) 8).
  2: { rewrite (proj2 (Nat.ltb_ge _ _)) by lia. done. }
  rewrite (proj2 (Nat.ltb_lt _ _)), take_ge by lia. f_equal.
  unfold MDBInMemoryShard.get_file_reconstruction_info. rewrite get_to_map by apply (wf_files_sorted _ (storable_wf _ Hs)).
  assert (forall z, z ∈ l <-> z ∈ row_matches h file_rows) as Hin by (intros; by rewrite Hl).
  destruct (to_map _ !! h) as [c|] eqn:E.
  - destruct (proj1 (lookup_file_rows h Hs c) E) as [i Hi]. apply (first_file_match_hit h c i); [done| | |done|].
    + intros z (j & e & -> & Hr & _)%Hin%elem_of_row_matches. by exists j, e.
    + intros j d Hd. assert (to_map (MDBInMemoryShard.file_content mdb) !! h = Some d) as Ed by (apply lookup_file_rows; eauto). congruence.
    + apply Hin, elem_of_row_matches. by exists i, (h, c).
  - apply first_file_match_miss; [done|]. intros z (j & [h' d] & -> & Hr & _)%Hin%elem_of_row_matches. exists j, (h', d).
    split_and!; [done|done|]. intros Eh. cbn in Eh. subst h'.
    assert (to_map (MDBInMemoryShard.file_content mdb) !! h = Some d) as Ed by (apply lookup_file_rows; eauto). congruence.
Qed.
End Written.

(** ** What [serialize_from] writes *)

Definition expiry_of (now : Z) (expiry : option Z) : Z := match expiry with Some e => shard_expiry_time now e | None => 2 ^ 64 - 1 end.

Lemma serialize_from_spec `{SortUnstable (Z * Z)} now mdb expiry :
  storable mdb ->
  MDBShardInfo.serialize_from now mdb expiry =
    (shard_bytes DataHash.default 0 (expiry_of now expiry) mdb, shard_info DataHash.default 0 (expiry_of now expiry) mdb).
Proof.
  intros []. unfold MDBShardInfo.serialize_from, MDBShardInfo.convert_and_save_file_info, MDBShardInfo.convert_and_save_xorb_info.
  cbn zeta. cbn [MDBShardInfo.header MDBShardInfo.default MDBShardFileHeader.serialize].
  rewrite (save_file_infos_spec _ 0), (save_xorb_infos_spec _ 0) by done.
  assert (MDBShardFileFooter.version MDBShardFileFooter.default = MDB_SHARD_FOOTER_VERSION) by done.
  match goal with |- context [MDBShardFileFooter.serialize ?x] => assert (x = footer_of DataHash.default 0 (expiry_of now expiry) mdb) as -> end.
  { unfold footer_of. cbn zeta. rewrite files_section_length, xorbs_section_length.
    unfold MDB_FILE_INFO_ENTRY_SIZE, MDB_XORB_INFO_ENTRY_SIZE. f_equal; try lia; try done.
    all: unfold file_table, xorb_table, chunk_table, file_rows, xorb_rows; lia. }
  unfold shard_bytes, files_section, xorbs_section, tables_section, shard_info. cbn [fst MDBShardFileHeader.serialize].
  by rewrite <- !app_assoc.
Qed.

(** ** Matching a query with the chunks of a xorb in a file *)

Section Direct.
  Context `{B3 : Blake3} (self : MDBShardInfo.t).

Lemma match_chunks_spec off num i cs qs n_bytes rest :
    (off + i + Z.of_nat (length cs) = num)%Z -> Forall XorbChunkSequenceEntry.valid cs ->
    let n := MDBInMemoryShard.match_run cs (MDBShardInfo.keyed_chunk_hash self <$> qs) in
    exists rest', MDBShardInfo.match_chunks self off num i qs (wrap32 n_bytes) (concat (XorbChunkSequenceEntry.serialize <$> cs) ++ rest) =
      Ok ((i + Z.of_nat n)%Z, wrap32 (n_bytes + chunks_bytes (take n cs)), rest').
Proof.
  revert i cs n_bytes. induction qs as [|h qs IH]; intros i cs n_bytes Hi Hv; cbn zeta; cbn [MDBShardInfo.match_chunks].
  - destruct (Z.eqb_spec (off + i) num) as [E|E].
    + destruct cs; [|cbn in Hi; lia]. cbn. rewrite !Z.add_0_r. eauto.
    + destruct Hv as [|c cs Hc Hv]; [cbn in Hi; lia|]. cbn [fmap list_fmap concat]. rewrite <- app_assoc.
      rewrite (bind_decode (decode := XorbChunkSequenceEntry.deserialize)) by done. cbn. rewrite !Z.add_0_r. eauto.
  - destruct (Z.eqb_spec (off + i) num) as [E|E].
    + destruct cs; [|cbn in Hi; lia]. cbn. rewrite !Z.add_0_r. eauto.
    + destruct Hv as [|c cs Hc Hv]; [cbn in Hi; lia|]. cbn [fmap list_fmap concat]. rewrite <- app_assoc.
      rewrite (bind_decode (decode := XorbChunkSequenceEntry.deserialize)) by done. cbn [MDBInMemoryShard.match_run].
      case_bool_decide as Hh; cbn [negb].
      * rewrite decide_True by done. destruct (IH (i + 1)%Z cs (n_bytes + XorbChunkSequenceEntry.unpacked_segment_bytes c)%Z) as [rest' IH'];
          [cbn in Hi; lia|done|]. exists rest'. rewrite wrap32_add_l. cbn zeta in IH'. rewrite IH'. cbn [take]. unfold chunks_bytes. cbn [foldr].
        do 3 f_equal; [lia|]. f_equal. lia.
      * rewrite decide_False by done. cbn. rewrite !Z.add_0_r. eauto.
Qed.

Definition run_entry (x : MDBXorbInfo.t) (off n : nat) : FileDataSequenceEntry.t :=
    FileDataSequenceEntry.mk (XorbChunkSequenceHeader.xorb_hash (MDBXorbInfo.metadata x)) (XorbChunkSequenceHeader.xorb_flags (MDBXorbInfo.metadata x))
      (wrap32 (chunks_bytes ((MDBXorbInfo.chunks x) ⟦off, off + n⟧))) (Z.of_nat off) (Z.of_nat (off + n)).

Lemma skip_chunks off cs rest :
    off <= length cs ->
    (if negb (Z.of_nat off =? 0)%Z then skip (Z.to_nat (Z.of_nat MDB_XORB_INFO_ENTRY_SIZE * Z.of_nat off)) else mret tt)
      (concat (XorbChunkSequenceEntry.serialize <$> cs) ++ rest) =
    Ok (tt, concat (XorbChunkSequenceEntry.serialize <$> drop off cs) ++ rest).
Proof.
  intros Hoff. assert (drop (48 * off) (concat (XorbChunkSequenceEntry.serialize <$> cs) ++ rest) =
    concat (XorbChunkSequenceEntry.serialize <$> drop off cs) ++ rest) as E.
  { rewrite <- (take_drop off cs) at 1. rewrite fmap_app, concat_app, <- app_assoc, drop_app_length'; [done|].
    rewrite length_concat_encode, length_take. lia. }
  destruct off as [|off]; [by rewrite drop_0|]. rewrite <- E. unfold skip, MDB_XORB_INFO_ENTRY_SIZE.
  replace (Z.to_nat _) with (48 * S off) by lia. done.
Qed.

Lemma query_direct_spec f x idx off hs rest :
    MDBXorbInfo.valid x -> hs <> [] -> off < length (MDBXorbInfo.chunks x) ->
    seek_to f (wrap64 (MDBShardFileFooter.xorb_info_offset (MDBShardInfo.metadata self) + Z.of_nat MDB_XORB_INFO_ENTRY_SIZE * idx)) =
      (MDBXorbInfo.serialize x).1 ++ rest ->
    let n := MDBInMemoryShard.match_run (drop off (MDBXorbInfo.chunks x)) (MDBShardInfo.keyed_chunk_hash self <$> hs) in
    MDBShardInfo.chunk_hash_dedup_query_direct self f hs idx (Z.of_nat off) =
      Ok (if n =? 0 then None else Some (n, run_entry x off n)).
Proof.
  intros (Hh & Hb & Hn & Hv) Hne Hoff Hseek. cbn zeta. unfold MDBShardInfo.chunk_hash_dedup_query_direct. destruct hs as [|first others]; [done|].
  rewrite Hseek. unfold MDBXorbInfo.serialize. cbn [fst]. rewrite <- app_assoc.
  rewrite (bind_decode (decode := XorbChunkSequenceHeader.deserialize)) by done.
  rewrite (bind_ok _ _ _ _ _ (skip_chunks off _ _ (Nat.lt_le_incl _ _ Hoff))).
  destruct (lookup_lt_is_Some_2 _ _ Hoff) as [c Hc]. rewrite (drop_S _ _ _ Hc). cbn [fmap list_fmap concat]. rewrite <- app_assoc.
  assert (XorbChunkSequenceEntry.valid c) as Hcv by (eapply Forall_lookup_1; done).
  rewrite (bind_decode (decode := XorbChunkSequenceEntry.deserialize)) by done. cbn [MDBInMemoryShard.match_run].
  case_bool_decide as Hf; cbn [negb]; [|by rewrite decide_False].
  rewrite decide_True by done. cbn [Nat.eqb].
  destruct (match_chunks_spec (Z.of_nat off) (XorbChunkSequenceHeader.num_entries (MDBXorbInfo.metadata x)) 1 (drop (S off) (MDBXorbInfo.chunks x)) others
    (XorbChunkSequenceEntry.unpacked_segment_bytes c) rest) as [rest' E]; [rewrite length_drop; lia|by apply Forall_drop|]. cbn zeta in E.
  rewrite wrap32_small in E by apply Hcv. rewrite (bind_ok _ _ _ _ _ E). unfold mret, reader_ret. rewrite result_bind_Ok.
  set (m := MDBInMemoryShard.match_run _ _).
  assert (m <= length (drop (S off) (MDBXorbInfo.chunks x))) as Hm by apply match_run_spec. rewrite length_drop in Hm.
  destruct Hh as (_ & _ & Hu & _). unfold is_u32 in Hu. unfold run_entry.
  rewrite (wrap32_small (1 + _)), (wrap32_small (Z.of_nat off + _)) by (unfold is_u32; lia).
  replace (Z.to_nat (1 + Z.of_nat m)) with (S m) by lia. replace (Z.of_nat off + (1 + Z.of_nat m))%Z with (Z.of_nat (off + S m)) by lia.
  assert ((MDBXorbInfo.chunks x) ⟦off, off + S m⟧ = c :: take m (drop (S off) (MDBXorbInfo.chunks x))) as ->; [|done].
  unfold slice. rewrite (drop_S _ _ _ Hc). by replace (off + S m - off) with (S m) by lia.
Qed.
End Direct.

(** ** Querying a file for chunks

    The file has the xorbs [xs] in its xorb section, and a sorted table of their chunks.  The chunk
    hashes may be keyed. *)
Section Query.
  Context `{B3 : Blake3} (self : MDBShardInfo.t) (f r1 r2 : list byte).
  Context (xs : list (DataHash * MDBXorbInfo.t)) (table : list (Z * (Z * Z))).

Let footer := MDBShardInfo.metadata self.
Let rows := concat (chunk_row_of <$> with_index xorb_records 0 xs).

  Hypothesis xorbs_valid : Forall (fun e => MDBXorbInfo.valid e.2) xs.
  Hypothesis xorbs_count : (Z.of_nat (total xorb_records xs) < 2 ^ 32)%Z.
  Hypothesis xorbs_at : seek_to f (MDBShardFileFooter.xorb_info_offset footer) = concat (xorb_bytes <$> xs) ++ r1.
  Hypothesis xorbs_offset : (0 <= MDBShardFileFooter.xorb_info_offset footer < 2 ^ 63)%Z.
  Hypothesis table_at : seek_to f (MDBShardFileFooter.chunk_lookup_offset footer) = concat (write_pair write_u32_pair <$> table) ++ r2.
  Hypothesis table_offset : (0 <= MDBShardFileFooter.chunk_lookup_offset footer < 2 ^ 63)%Z.
  Hypothesis table_count : MDBShardFileFooter.chunk_lookup_num_entry footer = Z.of_nat (length table).
  Hypothesis table_rows : table ≡ₚ rows.
  Hypothesis table_sorted : StronglySorted key_le table.

(** A row of the table: the xorb at record [i] has the chunk [c] at [off]. *)
Definition row_of (v : Z * Z) (i off : nat) (k : DataHash) (x : MDBXorbInfo.t) (c : XorbChunkSequenceEntry.t) : Prop :=
    v = (Z.of_nat i, Z.of_nat off) /\ (i, (k, x)) ∈ with_index xorb_records 0 xs /\ MDBXorbInfo.chunks x !! off = Some c.

Lemma elem_of_rows key v :
    (key, v) ∈ rows <-> exists i off k x c, row_of v i off k x c /\ key = truncate_hash (XorbChunkSequenceEntry.chunk_hash c).
Proof.
  unfold rows, row_of. rewrite list_elem_of_In, in_concat. setoid_rewrite <- list_elem_of_In. split.
  - intros (l & ([i [k x]] & -> & Hr)%list_elem_of_fmap & Hv). apply list_elem_of_lookup in Hv as [off Hv]. unfold chunk_row_of in Hv.
    rewrite list_lookup_imap in Hv. cbn [fst snd] in Hv. destruct (MDBXorbInfo.chunks x !! off) as [c|] eqn:Hc; [|done].
    injection Hv as <- <-. by exists i, off, k, x, c.
  - intros (i & off & k & x & c & (-> & Hr & Hc) & ->). exists (chunk_row_of (i, (k, x))). split; [by apply list_elem_of_fmap_2|].
    apply list_elem_of_lookup. exists off. unfold chunk_row_of. rewrite list_lookup_imap. cbn [fst snd]. by rewrite Hc.
Qed.

Lemma row_index i e : (i, e) ∈ with_index xorb_records 0 xs -> e ∈ xs /\ (Z.of_nat (i + xorb_records e) <= Z.of_nat (total xorb_records xs))%Z.
Proof.
  intros (l1 & l2 & -> & ->)%with_index_elem. split; [apply elem_of_app; right; by left|]. rewrite sum_list_with_app. cbn [sum_list_with]. lia.
Qed.

Lemma xorb_valid_at e : e ∈ xs -> MDBXorbInfo.valid e.2.
Proof. rewrite Forall_forall in xorbs_valid. auto. Qed.

Lemma seek_row i e :
    (i, e) ∈ with_index xorb_records 0 xs ->
    exists rest, seek_to f (wrap64 (MDBShardFileFooter.xorb_info_offset footer + Z.of_nat MDB_XORB_INFO_ENTRY_SIZE * Z.of_nat i)) =
      (MDBXorbInfo.serialize e.2).1 ++ rest.
Proof.
  intros Hr. pose proof (row_index _ _ Hr) as [_ Hi]. apply with_index_elem in Hr as (l1 & l2 & Hl & ->).
  unfold MDB_XORB_INFO_ENTRY_SIZE. rewrite wrap64_small by (unfold is_u64; lia).
  exists (concat (xorb_bytes <$> l2) ++ r1).
  assert (seek_to f (MDBShardFileFooter.xorb_info_offset footer + Z.of_nat 48 * Z.of_nat (0 + total xorb_records l1)) =
    drop (48 * total xorb_records l1) (seek_to f (MDBShardFileFooter.xorb_info_offset footer))) as ->.
  { unfold seek_to. rewrite drop_drop. f_equal. lia. }
  rewrite xorbs_at, Hl, drop_section by (apply Forall_true; intros; apply xorb_bytes_length).
  cbn [fmap list_fmap concat]. by rewrite <- app_assoc.
Qed.

Lemma direct_at_row hs first v i off k x c :
    row_of v i off k x c -> head hs = Some first ->
    exists found, MDBShardInfo.chunk_hash_dedup_query_direct self f hs v.1 v.2 = Ok found /\
      match found with
      | Some (n, e) => longest_run x (MDBShardInfo.keyed_chunk_hash self <$> hs) n e
      | None => XorbChunkSequenceEntry.chunk_hash c <> MDBShardInfo.keyed_chunk_hash self first
      end.
Proof.
  intros (-> & Hr & Hc) Hf. pose proof (lookup_lt_Some _ _ _ Hc) as Hoff. destruct (seek_row _ _ Hr) as [rest Hseek]. cbn [fst snd].
  eexists. split.
  { eapply query_direct_spec; [|by destruct hs|done|exact Hseek]. apply (xorb_valid_at (k, x)). by apply (row_index i (k, x)). }
  destruct (Nat.eqb_spec (MDBInMemoryShard.match_run (drop off (MDBXorbInfo.chunks x)) (MDBShardInfo.keyed_chunk_hash self <$> hs)) 0) as [E|E].
  - destruct hs as [|h hs]; [done|]. injection Hf as ->. rewrite (drop_S _ _ _ Hc) in E. cbn in E. by case_decide.
  - by apply match_run_longest; lia.
Qed.

Lemma first_chunk_match_spec hs first idxs :
    head hs = Some first -> (forall v, v ∈ idxs -> exists i off k x c, row_of v i off k x c) ->
    exists found, MDBShardInfo.first_chunk_match self f hs idxs = Ok found /\
      match found with
      | Some (n, e) => exists k x, (k, x) ∈ xs /\ longest_run x (MDBShardInfo.keyed_chunk_hash self <$> hs) n e
      | None => forall v i off k x c, v ∈ idxs -> row_of v i off k x c -> XorbChunkSequenceEntry.chunk_hash c <> MDBShardInfo.keyed_chunk_hash self first
      end.
Proof.
  intros Hf. induction idxs as [|v idxs IH]; intros H.
  { exists None. split; [done|]. intros v i off k x c Hv. by apply not_elem_of_nil in Hv. }
  cbn [MDBShardInfo.first_chunk_match]. destruct (H v) as (i & off & k & x & c & Hr); [by left|].
  destruct (direct_at_row hs first v i off k x c Hr Hf) as (found & E & Hfound). destruct v as [zi zo]. cbn [fst snd] in E. rewrite E, result_bind_Ok.
  destruct found as [[n e]|].
  - exists (Some (n, e)). split; [done|]. exists k, x. split; [|done]. apply (row_index i (k, x)). apply Hr.
  - destruct IH as (found & -> & IH); [intros; apply H; by right|]. exists found. split; [done|].
    destruct found as [[n e]|]; [done|]. intros v' i' off' k' x' c' Hv' Hr'. apply elem_of_cons in Hv' as [->|Hv']; [|by eapply IH].
    destruct (direct_at_row hs first _ _ _ _ _ _ Hr' Hf) as (found' & E' & Hfound'). cbn [fst snd] in E'. rewrite E in E'. by injection E' as <-.
Qed.

Lemma matches_rows key v : v ∈ matches key table <-> exists i off k x c, row_of v i off k x c /\ key = truncate_hash (XorbChunkSequenceEntry.chunk_hash c).
Proof.
  unfold matches. rewrite list_elem_of_fmap. setoid_rewrite list_elem_of_filter. split.
  - intros ([key' v'] & -> & [Hk Hin]). cbn [fst] in Hk. subst key'. rewrite table_rows in Hin. by apply elem_of_rows.
  - intros H. exists (key, v). split; [done|]. split; [done|]. rewrite table_rows. by apply elem_of_rows.
Qed.

Lemma search_chunk_table key :
    exists l, l ≡ₚ matches key table /\
      search_on_sorted_u64s read_u32_pair 8 f (MDBShardFileFooter.chunk_lookup_offset footer)
        (MDBShardFileFooter.chunk_lookup_num_entry footer) key 8 = Some (Ok (take 8 l)).
Proof.
  rewrite table_count. pose proof (chunk_rows_length 0 xs) as Hlen. fold rows in Hlen. rewrite <- table_rows in Hlen.
  apply (search_spec write_u32_pair read_u32_pair (fun v => is_u32 v.1 /\ is_u32 v.2) 8 _ _ _ _ 8 table table_at); try done; try lia.
  apply Forall_forall. intros [key' v] Hin. rewrite table_rows in Hin.
  apply elem_of_rows in Hin as (i & off & k & x & c & (-> & Hr & Hc) & ->). pose proof (row_index _ _ Hr) as [He Hi].
  apply xorb_valid_at in He as (_ & _ & _ & Hv). cbn [fst snd].
  pose proof (lookup_lt_Some _ _ _ Hc) as Hoff. assert (xorb_records (k, x) = S (length (MDBXorbInfo.chunks x))) as Ex by done.
  destruct (Forall_lookup_1 _ _ _ _ Hv Hc) as [[Hw _] _]. unfold is_u32. split; [exact Hw|lia].
Qed.

Lemma file_query_spec hs :
    exists found, MDBShardInfo.chunk_hash_dedup_query self f hs = Some (Ok found) /\
      match found with
      | Some (n, e) => exists k x, (k, x) ∈ xs /\ longest_run x (MDBShardInfo.keyed_chunk_hash self <$> hs) n e
      | None => forall h, head hs = Some h ->
          length (matches (truncate_hash (MDBShardInfo.keyed_chunk_hash self h)) rows) <= 8 ->
          forall k x c, (k, x) ∈ xs -> c ∈ MDBXorbInfo.chunks x -> XorbChunkSequenceEntry.chunk_hash c <> MDBShardInfo.keyed_chunk_hash self h
      end.
Proof.
  unfold MDBShardInfo.chunk_hash_dedup_query. destruct hs as [|first hs]; [by exists None|]. fold footer. rewrite table_count.
  assert (forall k x c, (k, x) ∈ xs -> c ∈ MDBXorbInfo.chunks x ->
    exists v i off, row_of v i off k x c) as Hrow.
  { intros k x c (l1 & l2 & Hl)%list_elem_of_split [off Hc]%list_elem_of_lookup. eexists (_, _), (0 + total xorb_records l1), off.
    split_and!; [done| |done]. rewrite Hl. apply with_index_elem_2. }
  destruct (Z.eqb_spec (Z.of_nat (length table)) 0) as [E|E].
  { exists None. split; [done|]. intros h _ _ k x c Hx Hc. destruct (Hrow k x c Hx Hc) as (v & i & off & Hr).
    assert ((truncate_hash (XorbChunkSequenceEntry.chunk_hash c), v) ∈ table) as Hin by (rewrite table_rows; apply elem_of_rows; eauto 10).
    destruct table; [by apply not_elem_of_nil in Hin|cbn in E; lia]. }
  unfold MDBShardInfo.get_xorb_info_index_by_chunk. fold footer.
  destruct (search_chunk_table (truncate_hash (MDBShardInfo.keyed_chunk_hash self first))) as (l & Hl & ->). cbn [mbind option_bind result_bind].
  destruct (first_chunk_match_spec (first :: hs) first (take 8 l)) as (found & -> & Hfound); [done| |].
  { intros v Hv. assert (v ∈ l) as Hv' by (apply elem_of_take in Hv as (j & Hj & _); by apply list_elem_of_lookup_2 in Hj). rewrite Hl in Hv'. apply matches_rows in Hv' as (i & off & k & x & c & Hr & _). eauto 10. }
  exists found. split; [done|]. destruct found as [[n e]|]; [done|]. intros h [= <-] Hle k x c Hx Hc Heq.
  destruct (Hrow k x c Hx Hc) as (v & i & off & Hr). apply (Hfound v i off k x c); [|done|done].
  rewrite take_ge; [rewrite Hl; apply matches_rows; exists i, off, k, x, c; by rewrite Heq|].
  rewrite Hl. unfold matches in *. rewrite length_fmap in *. by rewrite table_rows.
Qed.
End Query.

(** ** Reading whole sections *)

Lemma file_info_consumes : consumes 48 MDBFileInfo.deserialize.
Proof.
  unfold MDBFileInfo.deserialize. apply consumes_first; [apply consumes_codec|]. intros h.
  apply consumes_if; [apply consumes_ret|]. cbn zeta. auto 12 with xet_consumes.
Qed.

Lemma xorb_info_consumes : consumes 48 MDBXorbInfo.deserialize.
Proof.
  unfold MDBXorbInfo.deserialize. apply consumes_first; [apply consumes_codec|]. intros h. auto with xet_consumes.
Qed.

Lemma file_bookend_read rest :
  MDBFileInfo.deserialize (FileDataSequenceHeader.serialize FileDataSequenceHeader.bookend ++ rest) = Ok (None, rest).
Proof.
  unfold MDBFileInfo.deserialize. by rewrite (bind_decode (decode := FileDataSequenceHeader.deserialize)) by done.
Qed.

Lemma xorb_bookend_read rest :
  MDBXorbInfo.deserialize (XorbChunkSequenceHeader.serialize XorbChunkSequenceHeader.bookend ++ rest) = Ok (None, rest).
Proof.
  unfold MDBXorbInfo.deserialize. by rewrite (bind_decode (decode := XorbChunkSequenceHeader.deserialize)) by done.
Qed.

Lemma read_file_section (l : list (DataHash * MDBFileInfo.t)) rest :
  Forall (fun e => MDBFileInfo.valid e.2) l ->
  while_some MDBFileInfo.deserialize (concat (file_bytes <$> l) ++ FileDataSequenceHeader.serialize FileDataSequenceHeader.bookend ++ rest) =
  Ok (l.*2, rest).
Proof.
  intros Hv. assert (file_bytes <$> l = (fun c => (MDBFileInfo.serialize c).1) <$> l.*2) as -> by (by rewrite <- list_fmap_compose).
  apply (while_some_written _ _ MDBFileInfo.valid).
  - intros r a r' H%file_info_consumes. lia.
  - intros. by apply deserialize_serialize.
  - apply file_bookend_read.
  - by apply Forall_fmap.
Qed.

Lemma read_xorb_section (l : list (DataHash * MDBXorbInfo.t)) rest :
  Forall (fun e => MDBXorbInfo.valid e.2) l ->
  while_some MDBXorbInfo.deserialize (concat (xorb_bytes <$> l) ++ XorbChunkSequenceHeader.serialize XorbChunkSequenceHeader.bookend ++ rest) =
  Ok (l.*2, rest).
Proof.
  intros Hv. assert (xorb_bytes <$> l = (fun c => (MDBXorbInfo.serialize c).1) <$> l.*2) as -> by (by rewrite <- list_fmap_compose).
  apply (while_some_written _ _ MDBXorbInfo.valid).
  - intros r a r' H%xorb_info_consumes. lia.
  - intros. by apply xorb_deserialize_serialize.
  - apply xorb_bookend_read.
  - by apply Forall_fmap.
Qed.

(** C8: a shard written from memory reads back.  The header and footer that are loaded from the file
    are those that the writer returned, the size they give is that of the file, and scanning the
    file and xorb sections gives the files and the xorbs of the shard in the order of their
    hashes. *)
Theorem shard_file_roundtrip `{SortUnstable (Z * Z)} `{Blake3} now mdb expiry :
  storable mdb -> is_u64 (expiry_of now expiry) ->
  let '(f, info) := MDBShardInfo.serialize_from now mdb expiry in
  MDBShardInfo.load_from_reader f = Ok info /\
  MDBShardInfo.num_bytes info = Z.of_nat (length f) /\
  MDBShardInfo.read_all_file_info_sections info f = Ok (MDBInMemoryShard.file_content mdb).*2 /\
  MDBShardInfo.read_all_xorb_blocks_full info f = Ok (MDBInMemoryShard.xorb_content mdb).*2.
Proof.
  intros Hs He. rewrite serialize_from_spec by done. pose proof (footer_of_wf DataHash.default 0 (expiry_of now expiry) mdb Hs ltac:(done) ltac:(done) He) as Hf. split_and!.
  - by apply load_written.
  - rewrite shard_bytes_length by done. unfold MDBShardInfo.num_bytes. cbn [MDBShardInfo.metadata shard_info].
    apply wrap64_small. pose proof (table_bounds mdb Hs). unfold is_u64, footer_of, MDB_SHARD_FOOTER_SIZE.
    cbn [MDBShardFileFooter.footer_offset]. lia.
  - unfold MDBShardInfo.read_all_file_info_sections. cbn [MDBShardInfo.metadata shard_info]. rewrite seek_files. unfold files_section.
    rewrite <- !app_assoc, read_file_section by apply Hs. done.
  - unfold MDBShardInfo.read_all_xorb_blocks_full. cbn [MDBShardInfo.xorb_info_byte_range MDBShardInfo.metadata shard_info].
    rewrite seek_xorbs. unfold xorbs_section. rewrite <- !app_assoc, read_xorb_section by apply Hs. done.
Qed.

(** C17: looking up a file in a shard file gives what the shard in memory holds, present or not, as long
    as fewer than eight of its files share the first eight bytes of the hash; otherwise it is the
    collision error.  The search always ends. *)
Theorem shard_file_lookup `{SortUnstable (Z * Z)} now mdb expiry h :
  storable mdb ->
  let '(f, info) := MDBShardInfo.serialize_from now mdb expiry in
  MDBShardInfo.get_file_reconstruction_info info f h =
  Some (if length (filter (fun e => truncate_hash e.1 = truncate_hash h) (MDBInMemoryShard.file_content mdb)) <? 8
        then Ok (MDBInMemoryShard.get_file_reconstruction_info mdb h) else Err (TruncatedHashCollision (truncate_hash h))).
Proof. intros Hs. rewrite serialize_from_spec by done. by apply file_lookup_agrees. Qed.

(** The chunks of a shard whose hashes start with the same eight bytes as [h]. *)
Definition collisions (mdb : MDBInMemoryShard.t) (h : DataHash) : nat :=
  length (matches (truncate_hash h) (concat (chunk_row_of <$> xorb_rows mdb))).


(** ** The size of the file *)

Lemma file_num_bytes e :
  MDBFileInfo.valid e.2 -> (Z.of_nat (file_records e) < 2 ^ 32)%Z -> MDBFileInfo.num_bytes e.2 = (48 * Z.of_nat (file_records e))%Z.
Proof.
  intros (Hh & _ & Hn & _ & Hv & He) Hb. pose proof (file_bytes_length e) as Hl. unfold file_bytes in Hl. rewrite serialize_count in Hl.
  unfold MDBFileInfo.serialize, MDB_FILE_INFO_ENTRY_SIZE in Hl. cbn zeta in Hl.
  unfold MDBFileInfo.num_bytes, FileDataSequenceHeader.num_info_entry_following, MDB_FILE_INFO_ENTRY_SIZE.
  unfold MDBFileInfo.contains_verification, MDBFileInfo.contains_metadata_ext in *. rewrite <- Hn.
  destruct (FileDataSequenceHeader.contains_verification (MDBFileInfo.metadata e.2)), (FileDataSequenceHeader.contains_metadata_ext (MDBFileInfo.metadata e.2));
    [destruct He as (x & He & _), Hv as [Hv _]|destruct Hv as [Hv _]|destruct He as (x & He & _)|]; rewrite He in Hl; cbn [snd] in Hl;
    rewrite ?(wrap32_small (_ * 2)), wrap32_small by (unfold is_u32; lia); lia.
Qed.

Lemma fold_sizes {A} (g : A -> Z) l a :
  fold_left (fun n e => wrap64 (wrap64 (n + g e) + (8 + 4))) l (wrap64 a) = wrap64 (a + foldr (fun e s => g e + 12 + s)%Z 0%Z l).
Proof.
  revert a. induction l as [|e l IH]; intros a; cbn [fold_left foldr]; [by rewrite Z.add_0_r|]. rewrite (wrap64_l a), wrap64_l, IH. f_equal. lia.
Qed.

Lemma sum_sizes {A} (records : A -> nat) (g : A -> Z) l :
  Forall (fun e => g e = 48 * Z.of_nat (records e))%Z l ->
  foldr (fun e s => g e + 12 + s)%Z 0%Z l = (48 * Z.of_nat (total records l) + 12 * Z.of_nat (length l))%Z.
Proof. induction 1 as [|e l He Hl IH]; cbn; lia. Qed.

Lemma records_le_total {A} (records : A -> nat) e l : e ∈ l -> records e <= total records l.
Proof. induction 1; cbn; lia. Qed.

(** The chunks of all xorbs of a shard. *)
Definition num_chunks (mdb : MDBInMemoryShard.t) : nat := total (fun e => length (MDBXorbInfo.chunks e.2)) (MDBInMemoryShard.xorb_content mdb).

Lemma chunks_and_headers (l : list (DataHash * MDBXorbInfo.t)) :
  total (fun e => length (MDBXorbInfo.chunks e.2)) l + length l = total xorb_records l.
Proof. induction l as [|e l IH]; [done|]. cbn [sum_list_with length]. assert (xorb_records e = S (length (MDBXorbInfo.chunks e.2))) by done. lia. Qed.

(** The size that a shard in memory announces is that of the file written from it only when all its
    chunks have different hashes: the announced size counts one lookup entry for each hash, the file
    has one for each chunk of each xorb, 16 bytes each. *)
Theorem shard_size_announced `{SortUnstable (Z * Z)} `{Blake3} now mdb expiry :
  storable mdb -> is_u64 (expiry_of now expiry) -> (Z.of_nat (size (MDBInMemoryShard.chunk_hash_lookup mdb)) < 2 ^ 32)%Z ->
  let f := (MDBShardInfo.serialize_from now mdb expiry).1 in
  (Z.of_nat (length f) =
   MDBInMemoryShard.shard_file_size (MDBInMemoryShard.recalculate_shard_size mdb) +
   16 * (Z.of_nat (num_chunks mdb) - Z.of_nat (size (MDBInMemoryShard.chunk_hash_lookup mdb))))%Z.
Proof.
  intros Hs He Hl. rewrite serialize_from_spec by done. cbn [fst]. rewrite shard_bytes_length by by apply footer_of_wf.
  unfold footer_of. cbn [MDBShardFileFooter.footer_offset]. rewrite files_section_length, xorbs_section_length, file_table_length, xorb_table_length.
  pose proof (chunk_table_length mdb) as Hc. destruct Hs as [Hwf Hf Hx Hfr Hxr].
  assert (num_chunks mdb = length (chunk_table mdb)) as ->.
  { assert (num_chunks mdb + length (MDBInMemoryShard.xorb_content mdb) = total xorb_records (MDBInMemoryShard.xorb_content mdb)); [|lia].
    apply chunks_and_headers. }
  unfold MDBInMemoryShard.shard_file_size, MDBInMemoryShard.recalculate_shard_size, MDBInMemoryShard.non_content_byte_size.
  cbn [MDBInMemoryShard.current_shard_file_size].
  change (fold_left ?g (MDBInMemoryShard.xorb_content mdb) 0%Z) with (fold_left g (MDBInMemoryShard.xorb_content mdb) (wrap64 0)).
  rewrite !fold_sizes, (sum_sizes file_records), (sum_sizes xorb_records).
  - pose proof (length_le_total file_records _ file_records_pos : length (MDBInMemoryShard.file_content mdb) <= _).
    unfold MDB_SHARD_FOOTER_SIZE, MDB_FILE_INFO_ENTRY_SIZE, MDB_XORB_INFO_ENTRY_SIZE.
    rewrite (wrap64_l (0 + _ + _)), wrap64_l, wrap64_small by (unfold is_u64; lia). lia.
  - apply Forall_true. intros e. unfold MDBXorbInfo.num_bytes, xorb_records, MDB_XORB_INFO_ENTRY_SIZE. lia.
  - apply Forall_forall. intros e He'. rewrite Forall_forall in Hf. apply file_num_bytes; [by apply Hf|].
    pose proof (records_le_total file_records e _ He'). lia.
Qed.
