(* ===== verification/ShardPass.v ===== *)
(** * Passes that write a shard

    The export of a shard and the set operations copy the files and then the xorbs of their input to
    the output, one record at a time, and build the lookup tables on the way.  This file has the state
    of such a pass and what it is after all records of a shard: the sections of the file that
    [ShardFormat] describes. *)

From Stdlib Require Import Sorted.
From coqutil Require Import Byte Word.LittleEndianList.
From stdpp Require Import base numbers gmap sorting list.
From S2P Require Import Prelude DataHash Codec FileStructs XorbStructs Interpolation ShardMemory ShardFormat.

(** What the loop over the files has written, and the lookup table it builds. *)
Record file_pass := mk_file_pass {
  fp_out : list byte;
  fp_byte_pos : nat;
  fp_lookup : list (Z * Z);
  fp_index : Z;
  fp_materialized_bytes : Z;
}.

Record xorb_pass := mk_xorb_pass {
  xp_out : list byte;
  xp_byte_pos : nat;
  xp_xorb_lookup : list (Z * Z);
  xp_chunk_lookup : list (Z * (Z * Z));
  xp_index : Z;
  xp_stored_bytes_on_disk : Z;
  xp_stored_bytes : Z;
}.

Lemma fold_wrap64 {A} (g : A -> Z) l a :
  fold_left (fun a e => wrap64 (a + g e)) l (wrap64 a) = wrap64 (a + foldr (fun e s => g e + s)%Z 0%Z l).
Proof.
  revert a. induction l as [|e l IH]; intros a; cbn [fold_left foldr]; [by rewrite Z.add_0_r|]. rewrite wrap64_l, IH. f_equal. lia.
Qed.

Lemma fold_wrap64_from {A} (g : A -> Z) l a :
  is_u64 a -> fold_left (fun a e => wrap64 (a + g e)) l a = wrap64 (a + fold_left (fun a e => wrap64 (a + g e)) l 0%Z).
Proof.
  intros Ha. rewrite <- (wrap64_small a) at 1 by done. change (fold_left _ l 0%Z) with (fold_left (fun a e => wrap64 (a + g e)) l (wrap64 0)).
  by rewrite !fold_wrap64, wrap64_r.
Qed.

(** The bytes after the segments of a file. *)
Definition extended_bytes (i : MDBFileInfo.t) : list byte :=
  concat (FileVerificationEntry.serialize <$> MDBFileInfo.verification i) ++
  match MDBFileInfo.metadata_ext i with Some e => FileMetadataExt.serialize e | None => [] end.

Lemma extended_bytes_length i :
  MDBFileInfo.valid i ->
  length (extended_bytes i) =
    (if FileDataSequenceHeader.contains_verification (MDBFileInfo.metadata i) then Z.to_nat (FileDataSequenceHeader.num_entries (MDBFileInfo.metadata i)) * 48 else 0) +
    (if FileDataSequenceHeader.contains_metadata_ext (MDBFileInfo.metadata i) then 48 else 0).
Proof.
  intros (_ & _ & Hn & _ & Hv & He). unfold extended_bytes. rewrite length_app, length_concat_encode. unfold MDBFileInfo.contains_verification in Hv.
  unfold MDBFileInfo.contains_metadata_ext in He. f_equal.
  - destruct (FileDataSequenceHeader.contains_verification _); [destruct Hv as [-> _]; lia|by rewrite Hv].
  - destruct (FileDataSequenceHeader.contains_metadata_ext _); [destruct He as (e & -> & _); apply encode_length|by rewrite He].
Qed.

Lemma file_bytes_split e :
  MDBFileInfo.valid e.2 ->
  file_bytes e = FileDataSequenceHeader.serialize (MDBFileInfo.metadata e.2) ++
    concat (FileDataSequenceEntry.serialize <$> MDBFileInfo.segments e.2) ++ extended_bytes e.2.
Proof. intros Hv. unfold file_bytes. by rewrite serialize_bytes. Qed.

Lemma file_records_split e :
  MDBFileInfo.valid e.2 ->
  file_records e = 1 + Z.to_nat (FileDataSequenceHeader.num_entries (MDBFileInfo.metadata e.2)) + length (extended_bytes e.2) / MDB_FILE_INFO_ENTRY_SIZE.
Proof.
  intros Hv. pose proof (file_bytes_length e) as Hl. rewrite file_bytes_split in Hl by done.
  rewrite !length_app, length_concat_encode, encode_length in Hl. pose proof (extended_bytes_length e.2 Hv) as Hx.
  destruct Hv as (_ & _ & Hn & _). rewrite <- Hn, Nat2Z.id in *.
  set (k := if FileDataSequenceHeader.contains_verification _ then _ else _) in Hx. set (m := if FileDataSequenceHeader.contains_metadata_ext _ then _ else _) in Hx.
  assert (exists q, length (extended_bytes e.2) = q * 48) as [q Hq].
  { rewrite Hx. exists ((if FileDataSequenceHeader.contains_verification (MDBFileInfo.metadata e.2) then length (MDBFileInfo.segments e.2) else 0) +
      (if FileDataSequenceHeader.contains_metadata_ext (MDBFileInfo.metadata e.2) then 1 else 0)). unfold k, m. repeat case_match; lia. }
  rewrite Hq in *. unfold MDB_FILE_INFO_ENTRY_SIZE. rewrite Nat.div_mul by done. lia.
Qed.

(** What a round does with a file or a xorb. *)
Definition pass_file (s : file_pass) (e : DataHash * MDBFileInfo.t) : file_pass :=
  mk_file_pass (fp_out s ++ file_bytes e) (fp_byte_pos s + 48 * file_records e) (fp_lookup s ++ [(truncate_hash e.1, fp_index s)])
    (wrap32 (fp_index s + wrap32 (Z.of_nat (file_records e))))
    (fold_left (fun a e => wrap64 (a + FileDataSequenceEntry.unpacked_segment_bytes e)) (MDBFileInfo.segments e.2) (fp_materialized_bytes s)).

Definition file_ok (e : DataHash * MDBFileInfo.t) : Prop :=
  MDBFileInfo.valid e.2 /\ FileDataSequenceHeader.file_hash (MDBFileInfo.metadata e.2) = e.1.


Lemma pass_files l s idx :
  fp_index s = Z.of_nat idx -> (Z.of_nat (idx + total file_records l) < 2 ^ 32)%Z -> is_u64 (fp_materialized_bytes s) ->
  fold_left pass_file l s =
    mk_file_pass (fp_out s ++ concat (file_bytes <$> l)) (fp_byte_pos s + 48 * total file_records l)
      (fp_lookup s ++ (file_row <$> with_index file_records idx l)) (Z.of_nat (idx + total file_records l))
      (fold_left (fun a e => wrap64 (a + MDBFileInfo.file_size e.2)) l (fp_materialized_bytes s)).
Proof.
  revert s idx. induction l as [|e l IH]; intros s idx Hi Hb Hm; cbn [fold_left fmap list_fmap concat with_index sum_list_with].
  - destruct s. cbn in *. rewrite !app_nil_r, !Nat.add_0_r. by subst.
  - cbn [sum_list_with] in Hb. rewrite (IH _ (idx + file_records e)).
    + cbn [pass_file fp_out fp_byte_pos fp_lookup fp_index fp_materialized_bytes]. rewrite Hi, <- !app_assoc.
      f_equal; try lia. f_equal. by apply fold_wrap64_from.
    + cbn [pass_file fp_index]. rewrite Hi, (wrap32_small (Z.of_nat (file_records e))), wrap32_small by (unfold is_u32; lia). lia.
    + lia.
    + cbn [pass_file fp_materialized_bytes]. rewrite fold_wrap64_from by done. apply wrap64_is_u64.
Qed.


Definition pass_xorb (s : xorb_pass) (e : DataHash * MDBXorbInfo.t) : xorb_pass :=
  mk_xorb_pass (xp_out s ++ xorb_bytes e) (xp_byte_pos s + 48 * xorb_records e)
    (xp_xorb_lookup s ++ [(truncate_hash e.1, xp_index s)])
    (xp_chunk_lookup s ++ imap (fun i c => (truncate_hash (XorbChunkSequenceEntry.chunk_hash c), (xp_index s, Z.of_nat i))) (MDBXorbInfo.chunks e.2))
    (wrap32 (xp_index s + wrap32 (Z.of_nat (xorb_records e))))
    (wrap64 (xp_stored_bytes_on_disk s + XorbChunkSequenceHeader.num_bytes_on_disk (MDBXorbInfo.metadata e.2)))
    (wrap64 (xp_stored_bytes s + XorbChunkSequenceHeader.num_bytes_in_xorb (MDBXorbInfo.metadata e.2))).

Definition xorb_ok (e : DataHash * MDBXorbInfo.t) : Prop :=
  MDBXorbInfo.valid e.2 /\ XorbChunkSequenceHeader.xorb_hash (MDBXorbInfo.metadata e.2) = e.1.

Lemma pass_xorbs l s idx :
  xp_index s = Z.of_nat idx -> (Z.of_nat (idx + total xorb_records l) < 2 ^ 32)%Z ->
  fold_left pass_xorb l s =
    mk_xorb_pass (xp_out s ++ concat (xorb_bytes <$> l)) (xp_byte_pos s + 48 * total xorb_records l)
      (xp_xorb_lookup s ++ (xorb_row <$> with_index xorb_records idx l))
      (xp_chunk_lookup s ++ concat (chunk_row_of <$> with_index xorb_records idx l))
      (Z.of_nat (idx + total xorb_records l))
      (fold_left (fun a e => wrap64 (a + XorbChunkSequenceHeader.num_bytes_on_disk (MDBXorbInfo.metadata e.2))) l (xp_stored_bytes_on_disk s))
      (fold_left (fun a e => wrap64 (a + XorbChunkSequenceHeader.num_bytes_in_xorb (MDBXorbInfo.metadata e.2))) l (xp_stored_bytes s)).
Proof.
  revert s idx. induction l as [|e l IH]; intros s idx Hi Hb; cbn [fold_left fmap list_fmap concat with_index sum_list_with].
  - destruct s. cbn in *. rewrite !app_nil_r, !Nat.add_0_r. by subst.
  - cbn [sum_list_with] in Hb. rewrite (IH _ (idx + xorb_records e)).
    + cbn [pass_xorb xp_out xp_byte_pos xp_xorb_lookup xp_chunk_lookup xp_index xp_stored_bytes_on_disk xp_stored_bytes].
      rewrite Hi, <- !app_assoc. f_equal; lia.
    + cbn [pass_xorb xp_index]. rewrite Hi, (wrap32_small (Z.of_nat (xorb_records e))), wrap32_small by (unfold is_u32; lia). lia.
    + lia.
Qed.

Lemma storable_sections mdb :
  storable mdb -> Forall file_ok (MDBInMemoryShard.file_content mdb) /\ Forall xorb_ok (MDBInMemoryShard.xorb_content mdb).
Proof.
  intros [[] Hf Hx _ _]. rewrite !Forall_forall in *. split; intros [k e] He.
  - split; [by apply (Hf (k, e))|]. apply wf_file_keys. by apply sorted_lookup.
  - split; [by apply (Hx (k, e))|]. apply wf_xorb_keys. by apply sorted_lookup.
Qed.


(** ** The end of the file

    The lookup tables and the footer, written after both passes. *)
Definition finish_footer (key : DataHash) (creation key_expiry : Z) (files : file_pass) (xorbs : xorb_pass) (chunk_lookup : list (Z * (Z * Z)))
    : MDBShardFileFooter.t :=
  let xorb_lookup_offset := xp_byte_pos xorbs + length (fp_lookup files) * (8 + 4) in
  let chunk_lookup_offset := xorb_lookup_offset + length (xp_xorb_lookup xorbs) * (8 + 4) in
  MDBShardFileFooter.mk MDB_SHARD_FOOTER_VERSION (Z.of_nat 48) (Z.of_nat (fp_byte_pos files)) (Z.of_nat (xp_byte_pos xorbs))
    (Z.of_nat (length (fp_lookup files))) (Z.of_nat xorb_lookup_offset) (Z.of_nat (length (xp_xorb_lookup xorbs))) (Z.of_nat chunk_lookup_offset)
    (Z.of_nat (length chunk_lookup)) key creation key_expiry (MDBShardFileFooter._buffer MDBShardFileFooter.default)
    (xp_stored_bytes_on_disk xorbs) (fp_materialized_bytes files) (xp_stored_bytes xorbs)
    (Z.of_nat (chunk_lookup_offset + length chunk_lookup * (8 + 2 * 4))).

Definition finish (files : file_pass) (xorbs : xorb_pass) (chunk_lookup : list (Z * (Z * Z))) (footer : MDBShardFileFooter.t) : list byte :=
  xp_out xorbs ++ concat (write_pair write_u32 <$> fp_lookup files) ++ concat (write_pair write_u32 <$> xp_xorb_lookup xorbs) ++
  concat (write_pair write_u32_pair <$> chunk_lookup) ++ (MDBShardFileFooter.serialize footer).1.

(** The passes over the records of a shard, with the end markers. *)
Definition start_files : file_pass := mk_file_pass (MDBShardFileHeader.serialize MDBShardFileHeader.default).1 48 [] 0 0.

Definition end_files (s : file_pass) : file_pass :=
  mk_file_pass (fp_out s ++ FileDataSequenceHeader.serialize FileDataSequenceHeader.bookend) (fp_byte_pos s + 48) (fp_lookup s) (fp_index s)
    (fp_materialized_bytes s).

Definition start_xorbs (s : file_pass) : xorb_pass := mk_xorb_pass (fp_out s) (fp_byte_pos s) [] [] 0 0 0.

Definition end_xorbs (s : xorb_pass) : xorb_pass :=
  mk_xorb_pass (xp_out s ++ XorbChunkSequenceHeader.serialize XorbChunkSequenceHeader.bookend) (xp_byte_pos s + 48) (xp_xorb_lookup s)
    (xp_chunk_lookup s) (xp_index s) (xp_stored_bytes_on_disk s) (xp_stored_bytes s).

Definition files_pass (mdb : MDBInMemoryShard.t) : file_pass := end_files (fold_left pass_file (MDBInMemoryShard.file_content mdb) start_files).
Definition xorbs_pass (mdb : MDBInMemoryShard.t) : xorb_pass :=
  end_xorbs (fold_left pass_xorb (MDBInMemoryShard.xorb_content mdb) (start_xorbs (files_pass mdb))).

(** After passes over all records of a shard, the output is the file of the shard. *)
Lemma passes_written `{Sort : SortUnstable (Z * Z)} key creation key_expiry mdb :
  storable mdb ->
  sort_unstable_by_key (xp_chunk_lookup (xorbs_pass mdb)) = chunk_table mdb /\
  finish_footer key creation key_expiry (files_pass mdb) (xorbs_pass mdb) (chunk_table mdb) = footer_of key creation key_expiry mdb /\
  finish (files_pass mdb) (xorbs_pass mdb) (chunk_table mdb) (footer_of key creation key_expiry mdb) = shard_bytes key creation key_expiry mdb.
Proof.
  intros Hs. pose proof (files_section_length mdb) as Hlf. pose proof (xorbs_section_length mdb) as Hlx.
  assert (files_pass mdb = end_files (mk_file_pass ((MDBShardFileHeader.serialize MDBShardFileHeader.default).1 ++ concat (file_bytes <$> MDBInMemoryShard.file_content mdb))
    (48 + 48 * total file_records (MDBInMemoryShard.file_content mdb)) (file_table mdb) (Z.of_nat (total file_records (MDBInMemoryShard.file_content mdb)))
    (MDBInMemoryShard.materialized_bytes mdb))) as Ef.
  { unfold files_pass. f_equal. by apply (pass_files _ start_files 0); [|apply Hs|]. }
  assert (xorbs_pass mdb = end_xorbs (mk_xorb_pass (fp_out (files_pass mdb) ++ concat (xorb_bytes <$> MDBInMemoryShard.xorb_content mdb))
    (fp_byte_pos (files_pass mdb) + 48 * total xorb_records (MDBInMemoryShard.xorb_content mdb)) (xorb_table mdb) (concat (chunk_row_of <$> xorb_rows mdb))
    (Z.of_nat (total xorb_records (MDBInMemoryShard.xorb_content mdb))) (MDBInMemoryShard.stored_bytes_on_disk mdb) (MDBInMemoryShard.stored_bytes mdb))) as Ex.
  { unfold xorbs_pass. f_equal. by apply (pass_xorbs _ (start_xorbs (files_pass mdb)) 0); [|apply Hs]. }
  rewrite Ex, Ef. unfold finish_footer, finish, footer_of, end_files, end_xorbs.
  cbn [fp_out fp_byte_pos fp_lookup fp_index fp_materialized_bytes xp_out xp_byte_pos xp_xorb_lookup xp_chunk_lookup xp_index xp_stored_bytes_on_disk xp_stored_bytes].
  cbn zeta. split; [done|]. split; [f_equal; (lia || done)|].
  unfold shard_bytes, files_section, xorbs_section, tables_section. by rewrite <- !app_assoc.
Qed.
