(* ===== verification/ShardExport.v ===== *)
(** * Export of a shard with keyed chunk hashes

    Model of [export_as_keyed_shard_impl] of
    [xet_core_structures/src/metadata_shard/shard_format.rs] and its two entry points, which differ
    only in the debug assertions.  The reader is at the start of the shard; the time is a parameter,
    in nanoseconds since the epoch. *)

From Stdlib Require Import Sorted.
From coqutil Require Import Byte Word.LittleEndianList.
From stdpp Require Import base numbers gmap sorting list.
From S2P Require Import Prelude DataHash Codec FileStructs XorbStructs Interpolation ShardMemory ShardFormat ShardPass.

Section Exporting.
  Context `{B3 : Blake3}.
  Context (now : Z) (hmac_key : DataHash) (key_valid_for : Z).
  Context (include_file_info include_xorb_lookup_table include_chunk_lookup_table : bool).

Definition export_file (s : file_pass) : Reader (file_pass + file_pass) :=
    file_metadata ← FileDataSequenceHeader.deserialize;
    if FileDataSequenceHeader.is_bookend file_metadata then
      mret (inr (mk_file_pass (fp_out s ++ FileDataSequenceHeader.serialize file_metadata) (fp_byte_pos s + 48) (fp_lookup s) (fp_index s)
                   (fp_materialized_bytes s)))
    else
      let num_entries := Z.to_nat (FileDataSequenceHeader.num_entries file_metadata) in
      let n_extended_bytes :=
        (if FileDataSequenceHeader.contains_verification file_metadata then num_entries * 48 else 0) +
        (if FileDataSequenceHeader.contains_metadata_ext file_metadata then 48 else 0) in
      if include_file_info then
        entries ← read_n FileDataSequenceEntry.deserialize num_entries;
        extended ← (if negb (n_extended_bytes =? 0) then copy_up_to n_extended_bytes else mret []);
        mret (inl (mk_file_pass
          (fp_out s ++ FileDataSequenceHeader.serialize file_metadata ++ concat (FileDataSequenceEntry.serialize <$> entries) ++ extended)
          (fp_byte_pos s + 48 + 48 * length entries + length extended)
          (fp_lookup s ++ [(truncate_hash (FileDataSequenceHeader.file_hash file_metadata), fp_index s)])
          (wrap32 (fp_index s + wrap32 (Z.of_nat (1 + num_entries + n_extended_bytes / MDB_FILE_INFO_ENTRY_SIZE))))
          (fold_left (fun a e => wrap64 (a + FileDataSequenceEntry.unpacked_segment_bytes e)) entries (fp_materialized_bytes s))))
      else
        _ ← copy_up_to n_extended_bytes;
        mret (inl s).

(** [chunk.chunk_hash.hmac(hmac_key)], unless there is no key. *)
Definition key_chunk (chunk : XorbChunkSequenceEntry.t) : XorbChunkSequenceEntry.t :=
    if negb (bool_decide (hmac_key = DataHash.default))
    then XorbChunkSequenceEntry.mk (hmac (XorbChunkSequenceEntry.chunk_hash chunk) hmac_key) (XorbChunkSequenceEntry.chunk_byte_range_start chunk)
           (XorbChunkSequenceEntry.unpacked_segment_bytes chunk) (XorbChunkSequenceEntry.flags chunk) (XorbChunkSequenceEntry._unused chunk)
    else chunk.

Definition export_xorb (s : xorb_pass) : Reader (xorb_pass + xorb_pass) :=
    xorb_metadata ← XorbChunkSequenceHeader.deserialize;
    let out := xp_out s ++ XorbChunkSequenceHeader.serialize xorb_metadata in
    let byte_pos := xp_byte_pos s + 48 in
    if XorbChunkSequenceHeader.is_bookend xorb_metadata then
      mret (inr (mk_xorb_pass out byte_pos (xp_xorb_lookup s) (xp_chunk_lookup s) (xp_index s) (xp_stored_bytes_on_disk s) (xp_stored_bytes s)))
    else
      let xorb_lookup :=
        if include_xorb_lookup_table then xp_xorb_lookup s ++ [(truncate_hash (XorbChunkSequenceHeader.xorb_hash xorb_metadata), xp_index s)]
        else xp_xorb_lookup s in
      chunks ← read_n XorbChunkSequenceEntry.deserialize (Z.to_nat (XorbChunkSequenceHeader.num_entries xorb_metadata));
      let keyed := key_chunk <$> chunks in
      let chunk_lookup :=
        if include_chunk_lookup_table
        then xp_chunk_lookup s ++
             imap (fun chunk_index chunk => (truncate_hash (XorbChunkSequenceEntry.chunk_hash chunk), (xp_index s, Z.of_nat chunk_index))) keyed
        else xp_chunk_lookup s in
      mret (inl (mk_xorb_pass (out ++ concat (XorbChunkSequenceEntry.serialize <$> keyed)) (byte_pos + 48 * length keyed) xorb_lookup chunk_lookup
        (wrap32 (xp_index s + wrap32 (1 + XorbChunkSequenceHeader.num_entries xorb_metadata)))
        (wrap64 (xp_stored_bytes_on_disk s + XorbChunkSequenceHeader.num_bytes_on_disk xorb_metadata))
        (wrap64 (xp_stored_bytes s + XorbChunkSequenceHeader.num_bytes_in_xorb xorb_metadata)))).

(** The bytes written and the count returned. *)
Definition export_as_keyed_shard_impl : Reader (list byte * nat) :=
    in_header ← MDBShardFileHeader.deserialize;
    let '(out, byte_pos) := MDBShardFileHeader.serialize in_header in
    let file_info_offset := byte_pos in
    files ← loop export_file (mk_file_pass out byte_pos [] 0 0);
    let xorb_info_offset := fp_byte_pos files in
    xorbs ← loop export_xorb (mk_xorb_pass (fp_out files) (fp_byte_pos files) [] [] 0 0 0);
    let file_lookup_offset := xp_byte_pos xorbs in
    let '(file_lookup_out, byte_pos, file_lookup_num_entry) :=
      if include_file_info
      then (concat (write_pair write_u32 <$> fp_lookup files), file_lookup_offset + length (fp_lookup files) * (8 + 4), length (fp_lookup files))
      else ([], file_lookup_offset, 0) in
    let xorb_lookup_offset := byte_pos in
    let '(xorb_lookup_out, byte_pos, xorb_lookup_num_entry) :=
      if include_xorb_lookup_table
      then (concat (write_pair write_u32 <$> xp_xorb_lookup xorbs), byte_pos + length (xp_xorb_lookup xorbs) * (8 + 4), length (xp_xorb_lookup xorbs))
      else ([], byte_pos, 0) in
    let chunk_lookup_offset := byte_pos in
    let '(chunk_lookup_out, byte_pos, chunk_lookup_num_entry) :=
      if include_chunk_lookup_table
      then let chunk_lookup := sort_by_key (xp_chunk_lookup xorbs) in
           (concat (write_pair write_u32_pair <$> chunk_lookup), byte_pos + length chunk_lookup * (8 + 2 * 4), length chunk_lookup)
      else ([], byte_pos, 0) in
    let out_footer :=
      MDBShardFileFooter.mk MDB_SHARD_FOOTER_VERSION (Z.of_nat file_info_offset) (Z.of_nat xorb_info_offset) (Z.of_nat file_lookup_offset)
        (Z.of_nat file_lookup_num_entry) (Z.of_nat xorb_lookup_offset) (Z.of_nat xorb_lookup_num_entry) (Z.of_nat chunk_lookup_offset)
        (Z.of_nat chunk_lookup_num_entry) hmac_key (shard_expiry_time now 0) (shard_expiry_time now key_valid_for)
        (MDBShardFileFooter._buffer MDBShardFileFooter.default) (xp_stored_bytes_on_disk xorbs) (fp_materialized_bytes files)
        (xp_stored_bytes xorbs) (Z.of_nat byte_pos) in
    let '(footer_out, n) := MDBShardFileFooter.serialize out_footer in
    mret (xp_out xorbs ++ file_lookup_out ++ xorb_lookup_out ++ chunk_lookup_out ++ footer_out, byte_pos + n).

(** [export_as_keyed_shard] and [export_as_keyed_shard_streaming] *)
Definition export_as_keyed_shard : Reader (list byte * nat) := export_as_keyed_shard_impl.

End Exporting.

(** ** The rounds of the loops *)

Lemma export_file_round s e rest : file_ok e -> export_file true s (file_bytes e ++ rest) = Ok (inl (pass_file s e), rest).
Proof.
  intros [Hv Hk]. pose proof (extended_bytes_length e.2 Hv) as Hx. pose proof (file_records_split e Hv) as Hr.
  pose proof (file_bytes_length e) as Hl. unfold pass_file. rewrite file_bytes_split in * by done. rewrite <- !app_assoc. unfold export_file.
  destruct Hv as (Hh & Hb & Hn & Hs & _). rewrite (bind_decode (decode := FileDataSequenceHeader.deserialize)), Hb by done. cbn zeta. rewrite <- Hx.
  rewrite (bind_decode_n (decode := FileDataSequenceEntry.deserialize)) by (done || lia).
  assert (forall rest, (if negb (length (extended_bytes e.2) =? 0) then copy_up_to (length (extended_bytes e.2)) else mret [])
    (extended_bytes e.2 ++ rest) = Ok (extended_bytes e.2, rest)) as Hc.
  { intros r. destruct (Nat.eqb_spec (length (extended_bytes e.2)) 0) as [E|E]; cbn [negb].
    - apply nil_length_inv in E. by rewrite E.
    - unfold copy_up_to. by rewrite take_app_length, drop_app_length. }
  rewrite (bind_ok _ _ _ _ _ (Hc rest)), Hk, <- Hr. unfold mret, reader_ret. do 4 f_equal.
  rewrite !length_app, length_concat_encode, encode_length in Hl. lia.
Qed.

Lemma export_file_progresses b : progresses (export_file b).
Proof.
  apply progresses_of_consumes. intros s. eapply (consumes_weaken 48); [|lia]. unfold export_file.
  apply consumes_first; [apply consumes_codec|]. intros h. cbn zeta. auto 12 with xet_consumes.
Qed.

Lemma export_files l s rest :
  Forall file_ok l ->
  loop (export_file true) s (concat (file_bytes <$> l) ++ FileDataSequenceHeader.serialize FileDataSequenceHeader.bookend ++ rest) =
  Ok (end_files (fold_left pass_file l s), rest).
Proof.
  intros Hl. apply (loop_written _ file_bytes file_ok pass_file end_files); [apply export_file_progresses|intros; by apply export_file_round| |done].
  intros s'. unfold export_file. by rewrite (bind_decode (decode := FileDataSequenceHeader.deserialize)) by done.
Qed.

Section Xorbs.
  Context `{B3 : Blake3} (hmac_key : DataHash).

Definition keyed_xorb (x : MDBXorbInfo.t) : MDBXorbInfo.t := MDBXorbInfo.mk (MDBXorbInfo.metadata x) (key_chunk hmac_key <$> MDBXorbInfo.chunks x).
Definition keyed_entry (e : DataHash * MDBXorbInfo.t) : DataHash * MDBXorbInfo.t := (e.1, keyed_xorb e.2).

Lemma export_xorb_round s e rest :
    xorb_ok e -> export_xorb hmac_key true true s (xorb_bytes e ++ rest) = Ok (inl (pass_xorb s (keyed_entry e)), rest).
Proof.
  intros [(Hh & Hb & Hn & Hv) Hk]. unfold pass_xorb, xorb_bytes, MDBXorbInfo.serialize. cbn [fst snd keyed_entry keyed_xorb MDBXorbInfo.metadata MDBXorbInfo.chunks].
  rewrite <- !app_assoc. unfold export_xorb. rewrite (bind_decode (decode := XorbChunkSequenceHeader.deserialize)), Hb by done. cbn zeta.
  rewrite (bind_decode_n (decode := XorbChunkSequenceEntry.deserialize)) by (done || lia). rewrite Hk, <- Hn, <- app_assoc.
  assert (xorb_records (keyed_entry e) = S (length (MDBXorbInfo.chunks e.2))) as -> by (unfold xorb_records; cbn; by rewrite length_fmap).
  rewrite length_fmap. replace (1 + Z.of_nat _)%Z with (Z.of_nat (S (length (MDBXorbInfo.chunks e.2)))) by lia.
  replace (xp_byte_pos s + 48 + 48 * _) with (xp_byte_pos s + 48 * S (length (MDBXorbInfo.chunks e.2))) by lia. done.
Qed.

Lemma export_xorb_progresses a b : progresses (export_xorb hmac_key a b).
Proof.
  apply progresses_of_consumes. intros s. eapply (consumes_weaken 48); [|lia]. unfold export_xorb.
  apply consumes_first; [apply consumes_codec|]. intros h. cbn zeta. auto 12 with xet_consumes.
Qed.

Lemma export_xorbs l s rest :
    Forall xorb_ok l ->
    loop (export_xorb hmac_key true true) s
      (concat (xorb_bytes <$> l) ++ XorbChunkSequenceHeader.serialize XorbChunkSequenceHeader.bookend ++ rest) =
    Ok (end_xorbs (fold_left pass_xorb (keyed_entry <$> l) s), rest).
Proof.
  intros Hl. rewrite (loop_written _ xorb_bytes xorb_ok (fun s e => pass_xorb s (keyed_entry e)) end_xorbs);
    [|apply export_xorb_progresses|intros; by apply export_xorb_round| |done].
  - do 3 f_equal. revert s. induction l as [|e l IH]; intros s; [done|]. apply Forall_cons in Hl as [_ Hl]. cbn. by apply IH.
  - intros s'. unfold export_xorb. by rewrite (bind_decode (decode := XorbChunkSequenceHeader.deserialize)) by done.
Qed.
End Xorbs.

(** ** The exported file *)

(** The stable sort of the export also serves as the unstable one. *)
#[global] Instance key_le_total {V} : Total (key_le (V := V)).
Proof. intros a b. unfold key_le. lia. Qed.

#[global] Instance key_le_trans {V} : Transitive (key_le (V := V)).
Proof. intros a b c. unfold key_le. lia. Qed.

#[refine] Instance sort_stable : SortUnstable (Z * Z) := {| sort_unstable_by_key := sort_by_key |}.
Proof.
  - intros l. apply merge_sort_Permutation.
  - intros l. apply (StronglySorted_merge_sort key_le).
Defined.

Section Keyed.
  Context `{B3 : Blake3} (hmac_key : DataHash).

(** The shard in memory that has the keyed hashes. *)
Definition keyed_shard (mdb : MDBInMemoryShard.t) : MDBInMemoryShard.t :=
    MDBInMemoryShard.mk (keyed_entry hmac_key <$> MDBInMemoryShard.xorb_content mdb) (MDBInMemoryShard.file_content mdb) ∅ 0.

Lemma keyed_valid x : MDBXorbInfo.valid x -> MDBXorbInfo.valid (keyed_xorb hmac_key x).
Proof.
  intros (Hh & Hb & Hn & Hv). split_and!; [done|done|by cbn; rewrite length_fmap|]. cbn. apply Forall_fmap. eapply Forall_impl; [exact Hv|].
  intros c Hc. unfold compose, key_chunk. case_bool_decide; cbn [negb]; [done|]. destruct Hc as (_ & Hc). split; [|exact Hc]. cbn.
  apply from_bytes_wf, keyed_hash_length.
Qed.

Lemma keyed_total l : total xorb_records (keyed_entry hmac_key <$> l) = total xorb_records l.
Proof.
  induction l as [|e l IH]; [done|]. cbn [fmap list_fmap sum_list_with]. rewrite IH. f_equal. unfold xorb_records. cbn. by rewrite length_fmap.
Qed.

Lemma keyed_elem k y (l : list (DataHash * MDBXorbInfo.t)) : (k, y) ∈ keyed_entry hmac_key <$> l -> exists x, (k, x) ∈ l /\ y = keyed_xorb hmac_key x.
Proof. intros ([k' x] & [= -> ->] & Hx)%list_elem_of_fmap. by exists x. Qed.

Lemma keyed_storable mdb : storable mdb -> storable (keyed_shard mdb).
Proof.
  intros [[] Hf Hx Hfr Hxr].
  assert (key_sorted (keyed_entry hmac_key <$> MDBInMemoryShard.xorb_content mdb)) as Hsort.
  { unfold key_sorted. clear - wf_xorbs_sorted. induction wf_xorbs_sorted as [|e l Hs IH Hall]; cbn; constructor; [done|].
    apply Forall_fmap. eapply Forall_impl; [exact Hall|]. done. }
  split; [split| | | |]; cbn; try done.
  - intros k y. rewrite sorted_lookup by done. intros (x & Hin & ->)%keyed_elem. apply (wf_xorb_keys k x). by apply sorted_lookup.
  - apply Forall_fmap. eapply Forall_impl; [exact Hx|]. intros e He. by apply keyed_valid.
  - by rewrite keyed_total.
Qed.

Lemma export_written `{SortUnstable (Z * Z)} now key_valid_for k0 c0 e0 mdb :
    storable mdb -> hash_wf hmac_key -> is_u64 (shard_expiry_time now 0) -> is_u64 (shard_expiry_time now key_valid_for) ->
    exists rest,
    export_as_keyed_shard now hmac_key key_valid_for true true true (shard_bytes k0 c0 e0 mdb) =
    let g := shard_bytes (Sort := sort_stable) hmac_key (shard_expiry_time now 0) (shard_expiry_time now key_valid_for) (keyed_shard mdb) in
    Ok (g, length g, rest).
Proof.
  intros Hs Hk Hc He. pose proof (keyed_storable mdb Hs) as Hs'. pose proof (footer_of_wf (Sort := sort_stable) hmac_key _ _ _ Hs' Hk Hc He) as Hf.
  pose proof (shard_bytes_length (Sort := sort_stable) _ _ _ _ Hf) as Hlen.
  unfold export_as_keyed_shard, export_as_keyed_shard_impl. eexists. cbn zeta.
  unfold shard_bytes at 1, files_section, xorbs_section. rewrite <- !app_assoc.
  assert (header_wf MDBShardFileHeader.default) as Hh by done.
  rewrite (bind_ok _ _ _ _ _ (shard_header_written _ _ Hh)).
  rewrite (surjective_pairing (MDBShardFileHeader.serialize _)). cbn [MDBShardFileHeader.serialize snd].
  destruct (storable_sections mdb Hs) as [Hfok Hxok].
  rewrite (bind_ok _ _ _ _ _ (export_files _ _ _ Hfok)), (bind_ok _ _ _ _ _ (export_xorbs hmac_key _ _ _ Hxok)).
  destruct (passes_written (Sort := sort_stable) hmac_key (shard_expiry_time now 0) (shard_expiry_time now key_valid_for) (keyed_shard mdb) Hs') as (H1 & H2 & H3).
  change (fold_left pass_file _ _) with (fold_left pass_file (MDBInMemoryShard.file_content (keyed_shard mdb)) start_files).
  fold (files_pass (keyed_shard mdb)).
  change (end_xorbs _) with (xorbs_pass (keyed_shard mdb)). cbn [sort_unstable_by_key sort_stable] in H1. rewrite H1.
  match goal with |- context [MDBShardFileFooter.serialize ?x] =>
    change x with (finish_footer hmac_key (shard_expiry_time now 0) (shard_expiry_time now key_valid_for) (files_pass (keyed_shard mdb))
      (xorbs_pass (keyed_shard mdb)) (chunk_table (Sort := sort_stable) (keyed_shard mdb))) end.
  rewrite H2, (surjective_pairing (MDBShardFileFooter.serialize _)). unfold mret, reader_ret. f_equal. f_equal. f_equal; [exact H3|].
  apply Nat2Z.inj. rewrite Hlen, <- H2. unfold finish_footer. cbn [MDBShardFileFooter.footer_offset MDBShardFileFooter.serialize snd]. lia.
Qed.
End Keyed.

(** *** Queries with and without the key *)
Section KeyedQuery.
  Context `{B3 : Blake3} (hmac_key : DataHash).

Definition keyed_hash_of (h : DataHash) : DataHash := if negb (bool_decide (hmac_key = DataHash.default)) then hmac h hmac_key else h.

(** No two hashes are the same under the key. *)
Definition key_injective : Prop := forall a b, hash_wf a -> hash_wf b -> hmac a hmac_key = hmac b hmac_key -> a = b.

Lemma key_chunk_hash c : XorbChunkSequenceEntry.chunk_hash (key_chunk hmac_key c) = keyed_hash_of (XorbChunkSequenceEntry.chunk_hash c).
Proof. unfold key_chunk, keyed_hash_of. by case_bool_decide. Qed.

Lemma keyed_hash_of_inj a b : key_injective -> hash_wf a -> hash_wf b -> keyed_hash_of a = keyed_hash_of b -> a = b.
Proof. intros Hi Ha Hb. unfold keyed_hash_of. case_bool_decide; cbn [negb]; [done|by apply Hi]. Qed.

Lemma keyed_hashes_inj l1 l2 :
    key_injective -> Forall hash_wf l1 -> Forall hash_wf l2 -> keyed_hash_of <$> l1 = keyed_hash_of <$> l2 -> l1 = l2.
Proof.
  intros Hi H1. revert l2. induction H1 as [|a l1 Ha H1 IH]; intros l2 H2 E; destruct H2 as [|b l2 Hb H2]; [done|done|done|].
  cbn in E. injection E as E1 E2. f_equal; [by apply keyed_hash_of_inj|by apply IH].
Qed.

Lemma key_chunk_bytes cs : chunks_bytes (key_chunk hmac_key <$> cs) = chunks_bytes cs.
Proof.
  induction cs as [|c cs IH]; [done|]. unfold chunks_bytes in *. cbn [fmap list_fmap foldr]. rewrite IH. f_equal. unfold key_chunk. by case_bool_decide.
Qed.

Lemma slice_fmap {A B} (g : A -> B) a b l : (g <$> l) ⟦a, b⟧ = g <$> l ⟦a, b⟧.
Proof. unfold slice. by rewrite skipn_map, firstn_map. Qed.

Lemma longest_run_unkeyed x hs n e :
    key_injective -> MDBXorbInfo.valid x -> Forall hash_wf hs ->
    longest_run (keyed_xorb hmac_key x) (keyed_hash_of <$> hs) n e -> longest_run x hs n e.
Proof.
  intros Hi (_ & _ & _ & Hv) Hw (start & H1 & H2 & H3 & H4 & H5). cbn zeta in H3.
  change (MDBXorbInfo.chunks (keyed_xorb hmac_key x)) with (key_chunk hmac_key <$> MDBXorbInfo.chunks x) in *. rewrite length_fmap in H1. rewrite length_fmap in H2.
  exists start. cbn zeta. split_and!; [lia|lia|lia| | |].
  - rewrite slice_fmap, firstn_map in H3. apply keyed_hashes_inj; [done| |by apply Forall_take|].
    + apply Forall_fmap. unfold slice. apply Forall_take, Forall_drop. eapply Forall_impl; [exact Hv|]. intros c Hc. apply Hc.
    + etrans; [|exact H3]. rewrite <- !list_fmap_compose. apply list_fmap_ext. intros _ c _. cbn. by rewrite key_chunk_hash.
  - intros c h Hc Hh E. apply (H4 (key_chunk hmac_key c) (keyed_hash_of h)); [by rewrite list_lookup_fmap, Hc|by rewrite list_lookup_fmap, Hh|].
    by rewrite key_chunk_hash, E.
  - by rewrite H5, slice_fmap, key_chunk_bytes.
Qed.
End KeyedQuery.

(** The export of a shard with keyed chunk hashes keeps what can be asked of it.  The export of a
    written shard succeeds and counts its bytes; the new file loads, with the key; it has the same
    files; and a query for plain hashes, which the new file keys itself, finds a run of chunks of the
    original shard when the key does not make two hashes equal, and misses only what is not there
    when at most eight keyed hashes share their first eight bytes. *)
Theorem keyed_export `{SortUnstable (Z * Z)} `{Blake3} now0 mdb expiry now key valid_for :
  storable mdb -> hash_wf key -> is_u64 (shard_expiry_time now 0) -> is_u64 (shard_expiry_time now valid_for) ->
  let '(f, info0) := MDBShardInfo.serialize_from now0 mdb expiry in
  exists g rest info, export_as_keyed_shard now key valid_for true true true f = Ok (g, length g, rest) /\
    MDBShardInfo.load_from_reader g = Ok info /\
    MDBShardInfo.chunk_hmac_key info = (if bool_decide (key = DataHash.default) then None else Some key) /\
    (forall h, MDBShardInfo.get_file_reconstruction_info info g h = MDBShardInfo.get_file_reconstruction_info info0 f h) /\
    forall hs, exists found, MDBShardInfo.chunk_hash_dedup_query info g hs = Some (Ok found) /\
      match found with
      | Some (n, e) => exists k x, to_map (MDBInMemoryShard.xorb_content mdb) !! k = Some x /\
          (key_injective key -> Forall hash_wf hs -> longest_run x hs n e)
      | None => forall h, head hs = Some h -> collisions (keyed_shard key mdb) (keyed_hash_of key h) <= 8 ->
          forall k x c, to_map (MDBInMemoryShard.xorb_content mdb) !! k = Some x -> c ∈ MDBXorbInfo.chunks x ->
            XorbChunkSequenceEntry.chunk_hash c <> h
      end.
Proof.
  intros Hs Hk Hc He. rewrite serialize_from_spec by done. pose proof (keyed_storable key mdb Hs) as Hs'.
  destruct (export_written key now valid_for DataHash.default 0 (expiry_of now0 expiry) mdb Hs Hk Hc He) as [rest Hexp].
  eexists _, rest, _. split; [exact Hexp|]. split; [by apply load_written|]. split; [done|]. split.
  { intros h. rewrite !file_lookup_agrees by done. done. }
  intros hs. pose proof (table_bounds (Sort := sort_stable) (keyed_shard key mdb) Hs') as Hb.
  pose proof (wf_xorbs_sorted _ (storable_wf _ Hs)) as Hsort.
  set (info := shard_info (Sort := sort_stable) key _ _ _). set (g := shard_bytes (Sort := sort_stable) key _ _ _).
  assert (forall h, MDBShardInfo.keyed_chunk_hash info h = keyed_hash_of key h) as Hkey by done.
  assert (0 <= MDBShardFileFooter.xorb_info_offset (MDBShardInfo.metadata info) < 2 ^ 63 /\
    0 <= MDBShardFileFooter.chunk_lookup_offset (MDBShardInfo.metadata info) < 2 ^ 63)%Z as [Ho1 Ho2].
  { unfold info, shard_info, footer_of. cbn [MDBShardInfo.metadata MDBShardFileFooter.xorb_info_offset MDBShardFileFooter.chunk_lookup_offset]. lia. }
  destruct (file_query_spec info g _ _ (MDBInMemoryShard.xorb_content (keyed_shard key mdb))
    (chunk_table (Sort := sort_stable) (keyed_shard key mdb)) (storable_xorbs _ Hs') (storable_xorb_records _ Hs')
    (eq_trans (seek_xorbs (Sort := sort_stable) _ _ _ (keyed_shard key mdb)) (eq_sym (app_assoc _ _ _))) Ho1
    (seek_chunk_table (Sort := sort_stable) _ _ _ (keyed_shard key mdb)) Ho2
    eq_refl (sort_unstable_Permutation _) (sort_unstable_sorted _) hs) as (found & -> & Hfound).
  exists found. split; [done|]. destruct found as [[n e]|].
  - destruct Hfound as (k & y & (x & Hx & ->)%keyed_elem & Hrun). exists k, x. rewrite sorted_lookup by done. split; [done|].
    intros Hi Hw. apply (longest_run_unkeyed key); [done| |done|exact Hrun]. pose proof (storable_xorbs _ Hs) as Hv. rewrite Forall_forall in Hv. by apply (Hv (k, x)).
  - intros h Hh Hcol k x c Hx Hin Heq. rewrite sorted_lookup in Hx by done.
    apply (Hfound h Hh Hcol k (keyed_xorb key x) (key_chunk key c)).
    + cbn. by apply (list_elem_of_fmap_2 (keyed_entry key) _ (k, x)).
    + cbn. by apply list_elem_of_fmap_2.
    + by rewrite key_chunk_hash, Heq, Hkey.
Qed.
