(* ===== verification/SetOperations.v ===== *)
(** * Set operations on shard files

    Model of [xet_core_structures/src/metadata_shard/set_operations.rs]: the union and the difference
    of two shard files, computed by reading both in order and writing the result.

    The two readers are the bytes ahead of them.  Every round of the loops reads a record at least,
    and every failed read is the end of the file: the fuel is one round more than bytes.  What is written
    so far is the state of a pass of [ShardPass]. *)

From Stdlib Require Import Sorted.
From coqutil Require Import Byte Word.LittleEndianList.
From stdpp Require Import base numbers gmap sorting list.
From S2P Require Import Prelude DataHash Codec FileStructs XorbStructs Interpolation ShardMemory ShardFormat ShardPass.

Inductive MDBSetOperation := Union | Difference.

Inductive NextAction := CopyToOut | SkipOver | Nothing | Merge.

Definition is_union (op : MDBSetOperation) : bool := match op with Union => true | Difference => false end.

Definition get_next_actions (h1 h2 : option DataHash) (op : MDBSetOperation) : option (NextAction * NextAction) :=
  match h1, h2 with
  | None, None => None
  | Some _, None => if is_union op then Some (CopyToOut, Nothing) else Some (SkipOver, Nothing)
  | None, Some _ => Some (Nothing, CopyToOut)
  | Some ft0, Some ft1 =>
      match cmp ft0 ft1 with
      | Lt => if is_union op then Some (CopyToOut, Nothing) else Some (SkipOver, Nothing)
      | Eq => if is_union op then Some (CopyToOut, SkipOver) else Some (SkipOver, SkipOver)
      | Gt => Some (Nothing, CopyToOut)
      end
  end.

Definition get_next_actions_for_file_info (h1 h2 : option FileDataSequenceHeader.t) (op : MDBSetOperation) : option (NextAction * NextAction) :=
  let hashes := get_next_actions (FileDataSequenceHeader.file_hash <$> h1) (FileDataSequenceHeader.file_hash <$> h2) op in
  match h1, h2 with
  | Some ft0, Some ft1 =>
      match cmp (FileDataSequenceHeader.file_hash ft0) (FileDataSequenceHeader.file_hash ft1) with
      | Eq =>
          if is_union op then
            match FileDataSequenceHeader.compare_flag_superset ft0 ft1 with
            | FileDataSequenceHeader.SuperA | FileDataSequenceHeader.Equal => Some (CopyToOut, SkipOver)
            | FileDataSequenceHeader.SuperB => Some (SkipOver, CopyToOut)
            | FileDataSequenceHeader.Neither => Some (Merge, Nothing)
            end
          else hashes
      | _ => hashes
      end
  | _, _ => hashes
  end.

(** ** The file section *)

(** The headers of the next entries and the readers after them, for the two shards. *)
Record file_inputs := mk_file_inputs {
  fi_header0 : option FileDataSequenceHeader.t;
  fi_header1 : option FileDataSequenceHeader.t;
  fi_reader0 : list byte;
  fi_reader1 : list byte;
}.

Definition load_next_file : Reader (option FileDataSequenceHeader.t) :=
  fdsh ← FileDataSequenceHeader.deserialize;
  mret (if FileDataSequenceHeader.is_bookend fdsh then None else Some fdsh).

Definition add_segments (materialized_bytes : Z) (entries : list FileDataSequenceEntry.t) : Z :=
  fold_left (fun a e => wrap64 (a + FileDataSequenceEntry.unpacked_segment_bytes e)) entries materialized_bytes.

(** [NextAction::CopyToOut], from the reader after the header [fh]: the output and the next header. *)
Definition copy_file (fh : FileDataSequenceHeader.t) (o : file_pass) : Reader (file_pass * option FileDataSequenceHeader.t) :=
  let n := Z.to_nat (FileDataSequenceHeader.num_entries fh) in
  entries ← read_n FileDataSequenceEntry.deserialize n;
  verification ← (if FileDataSequenceHeader.contains_verification fh then read_n FileVerificationEntry.deserialize n else mret []);
  metadata_ext ← (if FileDataSequenceHeader.contains_metadata_ext fh then (e ← FileMetadataExt.deserialize; mret [e]) else mret []);
  next ← load_next_file;
  mret (mk_file_pass
    (fp_out o ++ FileDataSequenceHeader.serialize fh ++ concat (FileDataSequenceEntry.serialize <$> entries) ++
     concat (FileVerificationEntry.serialize <$> verification) ++ concat (FileMetadataExt.serialize <$> metadata_ext))
    (fp_byte_pos o + 48 + n * 48 + length verification * 48 + length metadata_ext * 48)
    (fp_lookup o ++ [(truncate_hash (FileDataSequenceHeader.file_hash fh), fp_index o)])
    (wrap32 (fp_index o + wrap32 (1 + FileDataSequenceHeader.num_info_entry_following fh)))
    (add_segments (fp_materialized_bytes o) entries), next).

(** [NextAction::SkipOver] *)
Definition skip_file (fh : FileDataSequenceHeader.t) : Reader (option FileDataSequenceHeader.t) :=
  _ ← skip (Z.to_nat (FileDataSequenceHeader.num_info_entry_following fh * 48));
  load_next_file.

(** [NextAction::Merge], of the entries after the headers [fh0] and [fh1]; the outer [None] is a panic. *)
Definition merge_file (fh0 fh1 : FileDataSequenceHeader.t) (r0 r1 : list byte) (o : file_pass)
    : option (result CoreError (file_pass * file_inputs)) :=
  let has_verification := FileDataSequenceHeader.contains_verification fh0 || FileDataSequenceHeader.contains_verification fh1 in
  let has_metadata_ext := FileDataSequenceHeader.contains_metadata_ext fh0 || FileDataSequenceHeader.contains_metadata_ext fh1 in
  header ← FileDataSequenceHeader.new (FileDataSequenceHeader.file_hash fh0) (FileDataSequenceHeader.num_entries fh0) has_verification has_metadata_ext;
  let n0 := Z.to_nat (FileDataSequenceHeader.num_entries fh0) in
  let n1 := Z.to_nat (FileDataSequenceHeader.num_entries fh1) in
  Some (
    '(entries, r0) ← read_n FileDataSequenceEntry.deserialize n0 r0;
    '(_, r1) ← skip (n1 * 48) r1;
    '(verification, r0, r1) ←
      (if has_verification then
         if FileDataSequenceHeader.contains_verification fh0 then
           '(v, r0) ← read_n FileVerificationEntry.deserialize n0 r0;
           '(_, r1) ← (if FileDataSequenceHeader.contains_verification fh1 then skip (n1 * 48) r1 else Ok (tt, r1));
           Ok (v, r0, r1)
         else
           '(v, r1) ← read_n FileVerificationEntry.deserialize n1 r1;
           Ok (v, r0, r1)
       else Ok ([], r0, r1));
    '(metadata_ext, r0, r1) ←
      (if has_metadata_ext then
         if FileDataSequenceHeader.contains_metadata_ext fh0 then
           '(e, r0) ← FileMetadataExt.deserialize r0;
           '(_, r1) ← (if FileDataSequenceHeader.contains_metadata_ext fh1 then skip 48 r1 else Ok (tt, r1));
           Ok ([e], r0, r1)
         else
           '(e, r1) ← FileMetadataExt.deserialize r1;
           Ok ([e], r0, r1)
       else Ok ([], r0, r1));
    '(next0, r0) ← load_next_file r0;
    '(next1, r1) ← load_next_file r1;
    Ok (mk_file_pass
      (fp_out o ++ FileDataSequenceHeader.serialize header ++ concat (FileDataSequenceEntry.serialize <$> entries) ++
       concat (FileVerificationEntry.serialize <$> verification) ++ concat (FileMetadataExt.serialize <$> metadata_ext))
      (fp_byte_pos o + 48 + n0 * 48 + length verification * 48 + length metadata_ext * 48)
      (fp_lookup o ++ [(truncate_hash (FileDataSequenceHeader.file_hash fh0), fp_index o)])
      (wrap32 (fp_index o + wrap32 (1 + FileDataSequenceHeader.num_info_entry_following header)))
      (add_segments (fp_materialized_bytes o) entries),
      mk_file_inputs next0 next1 r0 r1)).

(** What [match action[i]] does for reader 0 and reader 1; the outer [None] is a panic. *)
Definition file_action0 (action : NextAction) (o : file_pass) (i : file_inputs) : option (result CoreError (file_pass * file_inputs)) :=
  match action with
  | CopyToOut =>
      fh ← fi_header0 i;
      Some ('((o, next), r) ← copy_file fh o (fi_reader0 i);
            Ok (o, mk_file_inputs next (fi_header1 i) r (fi_reader1 i)))
  | SkipOver =>
      fh ← fi_header0 i;
      Some ('(next, r) ← skip_file fh (fi_reader0 i);
            Ok (o, mk_file_inputs next (fi_header1 i) r (fi_reader1 i)))
  | Nothing => Some (Ok (o, i))
  | Merge => fh0 ← fi_header0 i; fh1 ← fi_header1 i; merge_file fh0 fh1 (fi_reader0 i) (fi_reader1 i) o
  end.

Definition file_action1 (action : NextAction) (o : file_pass) (i : file_inputs) : option (result CoreError (file_pass * file_inputs)) :=
  match action with
  | CopyToOut =>
      fh ← fi_header1 i;
      Some ('((o, next), r) ← copy_file fh o (fi_reader1 i);
            Ok (o, mk_file_inputs (fi_header0 i) next (fi_reader0 i) r))
  | SkipOver =>
      fh ← fi_header1 i;
      Some ('(next, r) ← skip_file fh (fi_reader1 i);
            Ok (o, mk_file_inputs (fi_header0 i) next (fi_reader0 i) r))
  | Nothing => Some (Ok (o, i))
  | Merge => fh0 ← fi_header0 i; fh1 ← fi_header1 i; merge_file fh0 fh1 (fi_reader0 i) (fi_reader1 i) o
  end.

(** [while let Some(action) = ..]; the outer [None] is a panic. *)
Fixpoint file_loop (fuel : nat) (op : MDBSetOperation) (o : file_pass) (i : file_inputs) : option (result CoreError file_pass) :=
  match get_next_actions_for_file_info (fi_header0 i) (fi_header1 i) op with
  | None => Some (Ok o)
  | Some (action0, action1) =>
      match fuel with
      | O => Some (Err (Io UnexpectedEof))
      | S fuel' =>
          match file_action0 action0 o i with
          | None => None
          | Some (Err e) => Some (Err e)
          | Some (Ok (o, i)) =>
              match file_action1 action1 o i with
              | None => None
              | Some (Err e) => Some (Err e)
              | Some (Ok (o, i)) => file_loop fuel' op o i
              end
          end
      end
  end.

(** ** The xorb section *)

Definition load_next_xorb : Reader (option XorbChunkSequenceHeader.t) :=
  ccsh ← XorbChunkSequenceHeader.deserialize;
  mret (if XorbChunkSequenceHeader.is_bookend ccsh then None else Some ccsh).

Definition copy_xorb (fh : XorbChunkSequenceHeader.t) (o : xorb_pass) : Reader (xorb_pass * option XorbChunkSequenceHeader.t) :=
  chunks ← read_n XorbChunkSequenceEntry.deserialize (Z.to_nat (XorbChunkSequenceHeader.num_entries fh));
  next ← load_next_xorb;
  mret (mk_xorb_pass
    (xp_out o ++ XorbChunkSequenceHeader.serialize fh ++ concat (XorbChunkSequenceEntry.serialize <$> chunks))
    (xp_byte_pos o + 48 + length chunks * 48)
    (xp_xorb_lookup o ++ [(truncate_hash (XorbChunkSequenceHeader.xorb_hash fh), xp_index o)])
    (xp_chunk_lookup o ++ imap (fun j chunk => (truncate_hash (XorbChunkSequenceEntry.chunk_hash chunk), (xp_index o, Z.of_nat j))) chunks)
    (wrap32 (xp_index o + wrap32 (1 + XorbChunkSequenceHeader.num_entries fh)))
    (wrap64 (xp_stored_bytes_on_disk o + XorbChunkSequenceHeader.num_bytes_on_disk fh))
    (wrap64 (xp_stored_bytes o + XorbChunkSequenceHeader.num_bytes_in_xorb fh)), next).

Definition skip_xorb (fh : XorbChunkSequenceHeader.t) : Reader (option XorbChunkSequenceHeader.t) :=
  _ ← skip (Z.to_nat (XorbChunkSequenceHeader.num_entries fh * 48));
  load_next_xorb.

(** What an action does for one reader, with its next header; [None] is a panic. *)
Definition xorb_action (action : NextAction) (o : xorb_pass) (fh : option XorbChunkSequenceHeader.t) (r : list byte)
    : option (result CoreError (xorb_pass * option XorbChunkSequenceHeader.t * list byte)) :=
  match action with
  | CopyToOut => fh ← fh; Some (copy_xorb fh o r)
  | SkipOver => fh ← fh; Some ('(next, r) ← skip_xorb fh r; Ok (o, next, r))
  | Nothing | Merge => Some (Ok (o, fh, r))
  end.

Fixpoint xorb_loop (fuel : nat) (op : MDBSetOperation) (o : xorb_pass) (h0 h1 : option XorbChunkSequenceHeader.t) (r0 r1 : list byte)
    : option (result CoreError xorb_pass) :=
  match get_next_actions (XorbChunkSequenceHeader.xorb_hash <$> h0) (XorbChunkSequenceHeader.xorb_hash <$> h1) op with
  | None => Some (Ok o)
  | Some (action0, action1) =>
      match fuel with
      | O => Some (Err (Io UnexpectedEof))
      | S fuel' =>
          match xorb_action action0 o h0 r0 with
          | None => None
          | Some (Err e) => Some (Err e)
          | Some (Ok (o, h0, r0)) =>
              match xorb_action action1 o h1 r1 with
              | None => None
              | Some (Err e) => Some (Err e)
              | Some (Ok (o, h1, r1)) => xorb_loop fuel' op o h0 h1 r0 r1
              end
          end
      end
  end.

(** ** The operation *)
Section SetOperation.
  Context `{SortUnstable (Z * Z)}.

(** The files [f0] and [f1] of the shards [s0] and [s1]; the bytes written and the information returned.
    The outer [None] is a panic. *)
Definition set_operation (s0 s1 : MDBShardInfo.t) (f0 f1 : list byte) (op : MDBSetOperation)
    : option (result CoreError (list byte * MDBShardInfo.t)) :=
    let header := MDBShardFileHeader.default in
    let '(out, out_offset) := MDBShardFileHeader.serialize header in
    let file_info_offset := out_offset in
    let r0 := seek_to f0 (MDBShardFileFooter.file_info_offset (MDBShardInfo.metadata s0)) in
    let r1 := seek_to f1 (MDBShardFileFooter.file_info_offset (MDBShardInfo.metadata s1)) in
    match load_next_file r0, load_next_file r1 with
    | Err e, _ => Some (Err e)
    | _, Err e => Some (Err e)
    | Ok (h0, r0), Ok (h1, r1) =>
        match file_loop (S (length r0 + length r1)) op (mk_file_pass out out_offset [] 0 0) (mk_file_inputs h0 h1 r0 r1) with
        | None => None
        | Some (Err e) => Some (Err e)
        | Some (Ok files) =>
            let out := fp_out files ++ FileDataSequenceHeader.serialize FileDataSequenceHeader.bookend in
            let xorb_info_offset := fp_byte_pos files + 48 in
            let r0 := seek_to f0 (MDBShardFileFooter.xorb_info_offset (MDBShardInfo.metadata s0)) in
            let r1 := seek_to f1 (MDBShardFileFooter.xorb_info_offset (MDBShardInfo.metadata s1)) in
            match load_next_xorb r0, load_next_xorb r1 with
            | Err e, _ => Some (Err e)
            | _, Err e => Some (Err e)
            | Ok (h0, r0), Ok (h1, r1) =>
                match xorb_loop (S (length r0 + length r1)) op (mk_xorb_pass out xorb_info_offset [] [] 0 0 0) h0 h1 r0 r1 with
                | None => None
                | Some (Err e) => Some (Err e)
                | Some (Ok xorbs) =>
                    let out := xp_out xorbs ++ XorbChunkSequenceHeader.serialize XorbChunkSequenceHeader.bookend in
                    let file_lookup_offset := xp_byte_pos xorbs + 48 in
                    let xorb_lookup_offset := file_lookup_offset + length (fp_lookup files) * (8 + 4) in
                    let chunk_lookup_offset := xorb_lookup_offset + length (xp_xorb_lookup xorbs) * (8 + 4) in
                    let chunk_lookup := sort_unstable_by_key (xp_chunk_lookup xorbs) in
                    let footer_offset := chunk_lookup_offset + length chunk_lookup * (8 + 2 * 4) in
                    let footer :=
                      MDBShardFileFooter.mk (MDBShardFileFooter.version MDBShardFileFooter.default) (Z.of_nat file_info_offset) (Z.of_nat xorb_info_offset)
                        (Z.of_nat file_lookup_offset) (Z.of_nat (length (fp_lookup files))) (Z.of_nat xorb_lookup_offset)
                        (Z.of_nat (length (xp_xorb_lookup xorbs))) (Z.of_nat chunk_lookup_offset) (Z.of_nat (length chunk_lookup))
                        (MDBShardFileFooter.chunk_hash_hmac_key MDBShardFileFooter.default)
                        (MDBShardFileFooter.shard_creation_timestamp MDBShardFileFooter.default)
                        (MDBShardFileFooter.shard_key_expiry MDBShardFileFooter.default) (MDBShardFileFooter._buffer MDBShardFileFooter.default)
                        (xp_stored_bytes_on_disk xorbs) (fp_materialized_bytes files) (xp_stored_bytes xorbs) (Z.of_nat footer_offset) in
                    Some (Ok (out ++ concat (write_pair write_u32 <$> fp_lookup files) ++ concat (write_pair write_u32 <$> xp_xorb_lookup xorbs) ++
                              concat (write_pair write_u32_pair <$> chunk_lookup) ++ (MDBShardFileFooter.serialize footer).1,
                              MDBShardInfo.mk header footer))
                end
            end
        end
    end.

Definition shard_set_union (s1 : MDBShardInfo.t) (r1 : list byte) (s2 : MDBShardInfo.t) (r2 : list byte) := set_operation s1 s2 r1 r2 Union.
Definition shard_set_difference (s1 : MDBShardInfo.t) (r1 : list byte) (s2 : MDBShardInfo.t) (r2 : list byte) := set_operation s1 s2 r1 r2 Difference.

End SetOperation.

(** ** Combining sorted lists

    What the loops do, on lists: with [keep0] the entries that only the first list has are kept, and
    [both] says what becomes of two entries with the same key. *)
Section Combine.
  Context {A : Type} (keep0 : bool) (both : A -> A -> option A).

Fixpoint combine (fuel : nat) (l0 l1 : list (DataHash * A)) : list (DataHash * A) :=
    match fuel with
    | O => []
    | S fuel' =>
        match l0, l1 with
        | [], [] => []
        | e0 :: l0', [] => (if keep0 then [e0] else []) ++ combine fuel' l0' []
        | [], e1 :: l1' => e1 :: combine fuel' [] l1'
        | e0 :: l0', e1 :: l1' =>
            match cmp e0.1 e1.1 with
            | Lt => (if keep0 then [e0] else []) ++ combine fuel' l0' l1
            | Eq => match both e0.2 e1.2 with Some a => [(e0.1, a)] | None => [] end ++ combine fuel' l0' l1'
            | Gt => e1 :: combine fuel' l0 l1'
            end
        end
    end.

Definition pick (o0 o1 : option A) : option A :=
    match o0, o1 with
    | Some a, Some b => both a b
    | Some a, None => if keep0 then Some a else None
    | None, o => o
    end.

Lemma combine_above fuel l0 l1 k :
    Forall (fun e => cmp k e.1 = Lt) l0 -> Forall (fun e => cmp k e.1 = Lt) l1 -> Forall (fun e => cmp k e.1 = Lt) (combine fuel l0 l1).
Proof.
  revert l0 l1. induction fuel as [|fuel IH]; intros l0 l1 H0 H1; [constructor|]. cbn [combine].
  destruct H0 as [|e0 l0 He0 H0], H1 as [|e1 l1 He1 H1].
  - constructor.
  - constructor; [done|]. by apply IH.
  - apply Forall_app. split; [destruct keep0; repeat constructor; done|]. by apply IH.
  - destruct (cmp e0.1 e1.1).
    + apply Forall_app. split; [destruct (both _ _); repeat constructor; done|]. by apply IH.
    + apply Forall_app. split; [destruct keep0; repeat constructor; done|]. apply IH; [done|by constructor].
    + constructor; [done|]. apply IH; [by constructor|done].
Qed.

Lemma above_trans k k' (l : list (DataHash * A)) : cmp k k' = Lt -> Forall (fun e => cmp k' e.1 = Lt) l -> Forall (fun e => cmp k e.1 = Lt) l.
Proof. intros H Hl. eapply Forall_impl; [exact Hl|]. intros e He. by eapply cmp_trans. Qed.

(** A new first entry, if any. *)
Lemma sorted_first (o : option A) k l :
    key_sorted l -> Forall (fun e => cmp k e.1 = Lt) l ->
    let l' := match o with Some a => [(k, a)] | None => [] end ++ l in
    key_sorted l' /\ forall j, to_map l' !! j = if decide (j = k) then o else to_map l !! j.
Proof.
  intros Hs Ha. destruct o as [a|]; cbn [app]; split; try done.
  - by constructor.
  - intros j. change (to_map ((k, a) :: l)) with (<[k := a]> (to_map l)). case_decide; [subst; apply lookup_insert_eq|by apply lookup_insert_ne].
  - intros j. case_decide; [subst; by apply lookup_above|done].
Qed.

Lemma combine_spec fuel l0 l1 :
    key_sorted l0 -> key_sorted l1 -> length l0 + length l1 <= fuel ->
    key_sorted (combine fuel l0 l1) /\ forall j, to_map (combine fuel l0 l1) !! j = pick (to_map l0 !! j) (to_map l1 !! j).
Proof.
  revert l0 l1. induction fuel as [|fuel IH]; intros l0 l1 H0 H1 Hf.
  { destruct l0, l1; cbn in Hf; try lia. split; [constructor|done]. }
  assert (forall k a (l : list (DataHash * A)) j, to_map ((k, a) :: l) !! j = if decide (j = k) then Some a else to_map l !! j) as Hcons.
  { intros k a l j. change (to_map ((k, a) :: l)) with (<[k := a]> (to_map l)). case_decide; [subst; apply lookup_insert_eq|by apply lookup_insert_ne]. }
  (* the smallest key [k], and what is left of the lists after it *)
  assert (forall k o m0 m1 l0 l1, key_sorted m0 -> key_sorted m1 -> length m0 + length m1 <= fuel ->
    Forall (fun e => cmp k e.1 = Lt) m0 -> Forall (fun e => cmp k e.1 = Lt) m1 ->
    pick (to_map l0 !! k) (to_map l1 !! k) = o ->
    (forall j, j <> k -> to_map m0 !! j = to_map l0 !! j /\ to_map m1 !! j = to_map l1 !! j) ->
    let r := match o with Some a => [(k, a)] | None => [] end ++ combine fuel m0 m1 in
    key_sorted r /\ forall j, to_map r !! j = pick (to_map l0 !! j) (to_map l1 !! j)) as Hstep.
  { intros k o m0 m1 l0' l1' Hm0 Hm1 Hlen Ha0 Ha1 Ho Hj. destruct (IH m0 m1 Hm0 Hm1 Hlen) as [IH1 IH2].
    destruct (sorted_first o k (combine fuel m0 m1) IH1 (combine_above _ _ _ _ Ha0 Ha1)) as [S1 S2]. split; [done|].
    intros j. cbn zeta in S2. rewrite S2. case_decide as E; [by subst|]. rewrite IH2. by destruct (Hj j E) as [-> ->]. }
  cbn [combine]. destruct H0 as [|[k0 a0] l0 H0 A0], H1 as [|[k1 a1] l1 H1 A1]; cbn [length] in Hf; cbn [fst snd].
  - split; [constructor|done].
  - apply (Hstep k1 (Some a1) [] l1 [] ((k1, a1) :: l1)); [constructor|done|cbn; lia|constructor|done| |].
    + by rewrite Hcons, decide_True.
    + intros j Hj. by rewrite Hcons, decide_False.
  - replace (if keep0 then [(k0, a0)] else []) with (match (if keep0 then Some a0 else None) with Some a => [(k0, a)] | None => [] end) by by destruct keep0.
    apply (Hstep k0 _ l0 [] ((k0, a0) :: l0) []); [done|constructor|cbn; lia|done|constructor| |].
    + by rewrite Hcons, decide_True.
    + intros j Hj. by rewrite Hcons, decide_False.
  - destruct (cmp k0 k1) eqn:Hc.
    + apply cmp_eq_iff in Hc as ->. apply (Hstep k1 _ l0 l1 ((k1, a0) :: l0) ((k1, a1) :: l1)); [done|done|lia|done|done| |].
      * by rewrite !Hcons, !decide_True.
      * intros j Hj. by rewrite !Hcons, !decide_False.
    + replace (if keep0 then [(k0, a0)] else []) with (match (if keep0 then Some a0 else None) with Some a => [(k0, a)] | None => [] end) by by destruct keep0.
      assert (Forall (fun e => cmp k0 e.1 = Lt) ((k1, a1) :: l1)) as Hab by (constructor; [done|by apply (above_trans k0 k1)]).
      apply (Hstep k0 _ l0 ((k1, a1) :: l1) ((k0, a0) :: l0) ((k1, a1) :: l1)); [done|by constructor|cbn; lia|done|done| |].
      * rewrite Hcons, decide_True by done. by rewrite (lookup_above ((k1, a1) :: l1)).
      * intros j Hj. by rewrite (Hcons k0), decide_False.
    + apply cmp_gt in Hc. assert (Forall (fun e => cmp k1 e.1 = Lt) ((k0, a0) :: l0)) as Hab by (constructor; [done|by apply (above_trans k1 k0)]).
      apply (Hstep k1 (Some a1) ((k0, a0) :: l0) l1 ((k0, a0) :: l0) ((k1, a1) :: l1)); [by constructor|done|cbn; lia|done|done| |].
      * rewrite (lookup_above ((k0, a0) :: l0)) by done. by rewrite Hcons, decide_True.
      * intros j Hj. by rewrite (Hcons k1), decide_False.
Qed.
End Combine.

(** ** The readers over the records of a shard *)

(** The header of the first file, and the reader after it. *)
Definition file_head (l : list (DataHash * MDBFileInfo.t)) : option FileDataSequenceHeader.t := (fun e => MDBFileInfo.metadata e.2) <$> head l.

Definition files_ahead (l : list (DataHash * MDBFileInfo.t)) (rest : list byte) : list byte :=
  concat (file_bytes <$> l) ++ FileDataSequenceHeader.serialize FileDataSequenceHeader.bookend ++ rest.

Definition file_body (i : MDBFileInfo.t) : list byte := concat (FileDataSequenceEntry.serialize <$> MDBFileInfo.segments i) ++ extended_bytes i.

Definition file_tail (l : list (DataHash * MDBFileInfo.t)) (rest : list byte) : list byte :=
  match l with
  | [] => rest
  | e :: l' => file_body e.2 ++ files_ahead l' rest
  end.

Definition file_fits (e : DataHash * MDBFileInfo.t) : Prop := file_ok e /\ (Z.of_nat (file_records e) < 2 ^ 32)%Z.

Lemma load_next_file_spec l rest : Forall file_fits l -> load_next_file (files_ahead l rest) = Ok (file_head l, file_tail l rest).
Proof.
  unfold load_next_file, files_ahead. destruct 1 as [|e l [[Hv _] _] _]; cbn [fmap list_fmap concat app].
  - by rewrite (bind_decode (decode := FileDataSequenceHeader.deserialize)) by done.
  - rewrite file_bytes_split by done. rewrite <- !app_assoc. destruct Hv as (Hh & Hb & _).
    rewrite (bind_decode (decode := FileDataSequenceHeader.deserialize)) by done. rewrite Hb. cbn. unfold file_body. by rewrite <- !app_assoc.
Qed.

Lemma file_body_length e : file_ok e -> length (file_body e.2) + 48 = 48 * file_records e.
Proof.
  intros [Hv _]. pose proof (file_bytes_length e) as Hl. rewrite file_bytes_split in Hl by done.
  rewrite length_app, encode_length in Hl. unfold file_body. lia.
Qed.

(** The optional records of a valid file. *)
Lemma read_verification i R :
  MDBFileInfo.valid i ->
  (if FileDataSequenceHeader.contains_verification (MDBFileInfo.metadata i)
   then read_n FileVerificationEntry.deserialize (Z.to_nat (FileDataSequenceHeader.num_entries (MDBFileInfo.metadata i))) else mret [])
    (concat (FileVerificationEntry.serialize <$> MDBFileInfo.verification i) ++ R) = Ok (MDBFileInfo.verification i, R).
Proof.
  intros (_ & _ & Hn & _ & Hv & _). unfold MDBFileInfo.contains_verification in Hv. destruct (FileDataSequenceHeader.contains_verification _); [|by rewrite Hv].
  destruct Hv as [Hl Hv]. rewrite <- Hn, Nat2Z.id, <- Hl. by apply read_n_encode.
Qed.

Definition ext_list (i : MDBFileInfo.t) : list FileMetadataExt.t := match MDBFileInfo.metadata_ext i with Some e => [e] | None => [] end.

Lemma read_ext i R :
  MDBFileInfo.valid i ->
  (if FileDataSequenceHeader.contains_metadata_ext (MDBFileInfo.metadata i) then (e ← FileMetadataExt.deserialize; mret [e]) else mret [])
    (concat (FileMetadataExt.serialize <$> ext_list i) ++ R) = Ok (ext_list i, R).
Proof.
  intros (_ & _ & _ & _ & _ & He). unfold MDBFileInfo.contains_metadata_ext, ext_list in *. destruct (FileDataSequenceHeader.contains_metadata_ext _); [|by rewrite He].
  destruct He as (e & -> & He). cbn [fmap list_fmap concat]. rewrite app_nil_r. by rewrite (bind_decode (decode := FileMetadataExt.deserialize)).
Qed.

Lemma extended_bytes_lists i :
  extended_bytes i = concat (FileVerificationEntry.serialize <$> MDBFileInfo.verification i) ++ concat (FileMetadataExt.serialize <$> ext_list i).
Proof. unfold extended_bytes, ext_list. f_equal. destruct (MDBFileInfo.metadata_ext i); cbn; [by rewrite app_nil_r|done]. Qed.

(** The records of a file after its header, modulo [2^32]. *)
Lemma following_records e :
  file_ok e -> wrap32 (1 + FileDataSequenceHeader.num_info_entry_following (MDBFileInfo.metadata e.2)) = wrap32 (Z.of_nat (file_records e)).
Proof.
  intros [Hv _]. rewrite (file_records_split e Hv). pose proof (extended_bytes_length e.2 Hv) as Hx. rewrite Hx.
  destruct Hv as ((_ & _ & Hn & _) & _). unfold is_u32 in Hn. unfold FileDataSequenceHeader.num_info_entry_following, MDB_FILE_INFO_ENTRY_SIZE.
  set (n := FileDataSequenceHeader.num_entries _) in *.
  destruct (FileDataSequenceHeader.contains_verification _), (FileDataSequenceHeader.contains_metadata_ext _).
  - replace (Z.to_nat n * 48 + 48) with ((Z.to_nat n + 1) * 48) by lia. rewrite Nat.div_mul by done.
    rewrite wrap32_add_l. rewrite (Z.add_comm 1), wrap32_add_l. f_equal. lia.
  - rewrite Nat.add_0_r, Nat.div_mul by done. rewrite wrap32_add_l, (Z.add_comm 1), wrap32_add_l. f_equal. lia.
  - rewrite (Z.add_comm 1), wrap32_add_l. f_equal. cbn. lia.
  - rewrite (Z.add_comm 1), wrap32_add_l. f_equal. cbn. lia.
Qed.

Lemma following_exact e :
  file_fits e -> FileDataSequenceHeader.num_info_entry_following (MDBFileInfo.metadata e.2) = (Z.of_nat (file_records e) - 1)%Z.
Proof.
  intros [[Hv _] Hb]. pose proof (file_num_bytes e Hv Hb) as H. unfold MDBFileInfo.num_bytes, MDB_FILE_INFO_ENTRY_SIZE in H. lia.
Qed.

(** What is written of a file, spelled out. *)
Lemma pass_file_spelled o e :
  file_ok e ->
  mk_file_pass
    (fp_out o ++ FileDataSequenceHeader.serialize (MDBFileInfo.metadata e.2) ++ concat (FileDataSequenceEntry.serialize <$> MDBFileInfo.segments e.2) ++
     concat (FileVerificationEntry.serialize <$> MDBFileInfo.verification e.2) ++ concat (FileMetadataExt.serialize <$> ext_list e.2))
    (fp_byte_pos o + 48 + length (MDBFileInfo.segments e.2) * 48 + length (MDBFileInfo.verification e.2) * 48 + length (ext_list e.2) * 48)
    (fp_lookup o ++ [(truncate_hash (FileDataSequenceHeader.file_hash (MDBFileInfo.metadata e.2)), fp_index o)])
    (wrap32 (fp_index o + wrap32 (1 + FileDataSequenceHeader.num_info_entry_following (MDBFileInfo.metadata e.2))))
    (add_segments (fp_materialized_bytes o) (MDBFileInfo.segments e.2)) = pass_file o e.
Proof.
  intros He. rewrite following_records by done. pose proof (file_bytes_length e) as Hl. destruct He as [Hv Hk]. unfold pass_file.
  rewrite (file_bytes_split e Hv), extended_bytes_lists, Hk in *. rewrite !length_app, !length_concat_encode, encode_length in Hl.
  f_equal. lia.
Qed.

Lemma copy_file_spec e l o rest :
  Forall file_fits (e :: l) -> copy_file (MDBFileInfo.metadata e.2) o (file_tail (e :: l) rest) = Ok (pass_file o e, file_head l, file_tail l rest).
Proof.
  intros [[He _] Hl]%Forall_cons. pose proof He as [Hv _]. rewrite <- pass_file_spelled by done. cbn [file_tail]. unfold file_body.
  rewrite extended_bytes_lists, <- !app_assoc. unfold copy_file. cbn zeta.
  pose proof Hv as (_ & _ & Hn & Hs & _). rewrite (bind_decode_n (decode := FileDataSequenceEntry.deserialize)) by (done || lia).
  rewrite (bind_ok _ _ _ _ _ (read_verification e.2 _ Hv)), (bind_ok _ _ _ _ _ (read_ext e.2 _ Hv)).
  rewrite (bind_ok _ _ _ _ _ (load_next_file_spec l rest Hl)). rewrite <- Hn, Nat2Z.id. done.
Qed.

Lemma skip_file_spec e l rest :
  Forall file_fits (e :: l) -> skip_file (MDBFileInfo.metadata e.2) (file_tail (e :: l) rest) = Ok (file_head l, file_tail l rest).
Proof.
  intros [He Hl]%Forall_cons. unfold skip_file. cbn [file_tail]. rewrite following_exact by done.
  erewrite bind_ok; [apply (load_next_file_spec l rest Hl)|]. unfold skip. rewrite drop_app_length'; [done|].
  pose proof (file_body_length e (proj1 He)). lia.
Qed.

(** ** Files that both shards have *)

Definition flags_of (v e : bool) : Z :=
  Z.lor (Z.lor MDB_DEFAULT_FILE_FLAG (if v then MDB_FILE_FLAG_WITH_VERIFICATION else 0%Z)) (if e then MDB_FILE_FLAG_WITH_METADATA_EXT else 0%Z).

(** Two records of the same file: the same segments, no flags but those of the optional parts, and equal
    optional parts where both have them. *)
Definition compatible (a b : MDBFileInfo.t) : Prop :=
  exists h n va ea vb eb,
    MDBFileInfo.metadata a = FileDataSequenceHeader.mk h (flags_of va ea) n 0 /\
    MDBFileInfo.metadata b = FileDataSequenceHeader.mk h (flags_of vb eb) n 0 /\
    MDBFileInfo.segments a = MDBFileInfo.segments b /\
    (va = true -> vb = true -> MDBFileInfo.verification a = MDBFileInfo.verification b) /\
    (ea = true -> eb = true -> MDBFileInfo.metadata_ext a = MDBFileInfo.metadata_ext b).

Lemma contains_flags h n v e u :
  FileDataSequenceHeader.contains_verification (FileDataSequenceHeader.mk h (flags_of v e) n u) = v /\
  FileDataSequenceHeader.contains_metadata_ext (FileDataSequenceHeader.mk h (flags_of v e) n u) = e.
Proof. by destruct v, e. Qed.

Lemma valid_parts i h v e n u :
  MDBFileInfo.valid i -> MDBFileInfo.metadata i = FileDataSequenceHeader.mk h (flags_of v e) n u ->
  (v = false -> MDBFileInfo.verification i = []) /\ (e = false -> MDBFileInfo.metadata_ext i = None) /\
  (e = true -> exists x, MDBFileInfo.metadata_ext i = Some x /\ FileMetadataExt.valid x).
Proof.
  intros (_ & _ & _ & _ & Hv & He) Hm. unfold MDBFileInfo.contains_verification, MDBFileInfo.contains_metadata_ext in *.
  rewrite Hm in Hv, He. destruct (contains_flags h n v e u) as [E1 E2]. rewrite E1 in Hv. rewrite E2 in He.
  split_and!; [by intros ->|by intros ->|]. by intros ->.
Qed.

(** The merged record, as [merge_from] gives it. *)
Lemma merge_from_compatible a b h n va ea vb eb :
  MDBFileInfo.metadata a = FileDataSequenceHeader.mk h (flags_of va ea) n 0 ->
  MDBFileInfo.metadata b = FileDataSequenceHeader.mk h (flags_of vb eb) n 0 ->
  MDBFileInfo.merge_from a b =
    MDBFileInfo.mk (FileDataSequenceHeader.mk h (flags_of (va || vb) (ea || eb)) n 0) (MDBFileInfo.segments a)
      (if va then MDBFileInfo.verification a else if vb then MDBFileInfo.verification b else MDBFileInfo.verification a)
      (if ea then MDBFileInfo.metadata_ext a else if eb then MDBFileInfo.metadata_ext b else MDBFileInfo.metadata_ext a).
Proof.
  destruct a as [ma sa wa xa], b as [mb sb wb xb]. cbn. intros -> ->. destruct va, ea, vb, eb; reflexivity.
Qed.

Lemma merge_superset a b :
  MDBFileInfo.valid a -> MDBFileInfo.valid b -> compatible a b ->
  match FileDataSequenceHeader.compare_flag_superset (MDBFileInfo.metadata a) (MDBFileInfo.metadata b) with
  | FileDataSequenceHeader.SuperA | FileDataSequenceHeader.Equal => MDBFileInfo.merge_from a b = a
  | FileDataSequenceHeader.SuperB => MDBFileInfo.merge_from a b = b
  | FileDataSequenceHeader.Neither => True
  end.
Proof.
  intros Ha Hb (h & n & va & ea & vb & eb & Ma & Mb & Hs & Hv & He). rewrite (merge_from_compatible a b h n va ea vb eb Ma Mb).
  destruct (valid_parts _ _ _ _ _ _ Ha Ma) as (Va & Xa & _), (valid_parts _ _ _ _ _ _ Hb Mb) as (Vb & Xb & _). rewrite Ma, Mb.
  destruct a as [ma sa wa xa], b as [mb sb wb xb]. cbn in *. subst ma mb sb.
  destruct va, ea, vb, eb; vm_compute; naive_solver.
Qed.

(** The two ways in which neither record has all that the other has. *)
Lemma neither_cases a b h n va ea vb eb :
  MDBFileInfo.metadata a = FileDataSequenceHeader.mk h (flags_of va ea) n 0 ->
  MDBFileInfo.metadata b = FileDataSequenceHeader.mk h (flags_of vb eb) n 0 ->
  FileDataSequenceHeader.compare_flag_superset (MDBFileInfo.metadata a) (MDBFileInfo.metadata b) = FileDataSequenceHeader.Neither ->
  va = negb ea /\ vb = ea /\ eb = negb ea.
Proof. intros -> ->. destruct va, ea, vb, eb; vm_compute; intros [=]; done. Qed.

Lemma merged_valid a b :
  MDBFileInfo.valid a -> MDBFileInfo.valid b -> compatible a b -> MDBFileInfo.valid (MDBFileInfo.merge_from a b).
Proof.
  intros Ha Hb (h & n & va & ea & vb & eb & Ma & Mb & Hs & Hv & He). rewrite (merge_from_compatible a b h n va ea vb eb Ma Mb).
  destruct Ha as ((Hh & _ & Hn & _) & Hbe & Hl & Hsa & Hva & Hea), Hb as (_ & _ & _ & _ & Hvb & Heb).
  unfold MDBFileInfo.contains_verification, MDBFileInfo.contains_metadata_ext in *. rewrite Ma in *. rewrite Mb in *.
  cbn [FileDataSequenceHeader.file_hash FileDataSequenceHeader.num_entries] in *.
  destruct (contains_flags h n va ea 0) as [E1 E2], (contains_flags h n vb eb 0) as [E3 E4], (contains_flags h n (va || vb) (ea || eb) 0) as [E5 E6].
  rewrite E1 in Hva. rewrite E2 in Hea. rewrite E3 in Hvb. rewrite E4 in Heb. rewrite <- Hs in Hvb.
  unfold MDBFileInfo.valid, MDBFileInfo.contains_verification, MDBFileInfo.contains_metadata_ext.
  cbn [MDBFileInfo.metadata MDBFileInfo.segments MDBFileInfo.verification MDBFileInfo.metadata_ext]. rewrite E5, E6. split_and!; try done.
  - by destruct va, vb, ea, eb.
  - by destruct va, vb.
  - by destruct ea, eb.
Qed.

Lemma skip_app n l r : length l = n -> skip n (l ++ r) = Ok (tt, r).
Proof. intros <-. unfold skip. by rewrite drop_app_length. Qed.

Lemma merge_file_spec k a b l0 l1 o rest0 rest1 :
  Forall file_fits ((k, a) :: l0) -> Forall file_fits ((k, b) :: l1) -> compatible a b ->
  FileDataSequenceHeader.compare_flag_superset (MDBFileInfo.metadata a) (MDBFileInfo.metadata b) = FileDataSequenceHeader.Neither ->
  merge_file (MDBFileInfo.metadata a) (MDBFileInfo.metadata b) (file_tail ((k, a) :: l0) rest0) (file_tail ((k, b) :: l1) rest1) o =
  Some (Ok (pass_file o (k, MDBFileInfo.merge_from a b), mk_file_inputs (file_head l0) (file_head l1) (file_tail l0 rest0) (file_tail l1 rest1))).
Proof.
  intros [[[Hva Hka] _] Hl0]%Forall_cons [[[Hvb Hkb] _] Hl1]%Forall_cons Hc Hn. cbn [fst snd] in *. pose proof (merged_valid a b Hva Hvb Hc) as Hm.
  destruct Hc as (h & n & va & ea & vb & eb & Ma & Mb & Hs & _ & _).
  destruct (neither_cases a b h n va ea vb eb Ma Mb Hn) as (-> & -> & ->). clear Hn.
  pose proof (merge_from_compatible a b _ _ _ _ _ _ Ma Mb) as Em.
  rewrite <- pass_file_spelled by (split; [done|cbn; by rewrite merge_from_hash]). cbn [snd]. rewrite Em.
  destruct (valid_parts _ _ _ _ _ _ Hva Ma) as (Va & Xa & Ya), (valid_parts _ _ _ _ _ _ Hvb Mb) as (Vb & Xb & Yb).
  specialize (read_verification a). specialize (read_verification b). intros Rvb Rva.
  pose proof (load_next_file_spec l0 rest0 Hl0) as L0. pose proof (load_next_file_spec l1 rest1 Hl1) as L1.
  pose proof Hva as ((_ & _ & Hu & _) & _ & Hna & Hsa & _). pose proof Hvb as (_ & _ & Hnb & Hsb & _).
  cbn [file_tail snd]. unfold file_body. rewrite !extended_bytes_lists, <- !app_assoc.
  unfold merge_file, FileDataSequenceHeader.new. cbn zeta. rewrite Ma, Mb in *. cbn [FileDataSequenceHeader.num_entries FileDataSequenceHeader.file_hash] in *.
  rewrite try_u32_small by done. cbn [mbind option_bind]. f_equal.
  destruct (contains_flags h n (negb ea) ea 0) as [E1 E2], (contains_flags h n ea (negb ea) 0) as [E3 E4].
  rewrite E1, E2, E3, E4 in *. rewrite <- Hna, Nat2Z.id in *.
  rewrite read_n_encode by done. cbn [result_bind].
  rewrite (skip_app _ (concat (FileDataSequenceEntry.serialize <$> MDBFileInfo.segments b))) by (rewrite length_concat_encode, Hs; done).
  cbn [result_bind].
  destruct ea; cbn [negb orb] in *.
  - destruct (Ya eq_refl) as (x & Hx & Hxv). unfold ext_list. cbn [MDBFileInfo.metadata_ext]. rewrite Hx, (Va eq_refl), (Xb eq_refl).
    cbn [fmap list_fmap concat app]. rewrite app_nil_r, !result_bind_Ok, Rvb, !result_bind_Ok by done.
    rewrite (decode_encode (decode := FileMetadataExt.deserialize)), !result_bind_Ok by done. rewrite L0, result_bind_Ok, L1, result_bind_Ok.
    cbn [fmap list_fmap concat]. by rewrite app_nil_r.
  - destruct (Yb eq_refl) as (x & Hx & Hxv). unfold ext_list. cbn [MDBFileInfo.metadata_ext]. rewrite Hx, (Vb eq_refl), (Xa eq_refl).
    cbn [fmap list_fmap concat app]. rewrite app_nil_r, !result_bind_Ok, Rva, !result_bind_Ok by done.
    rewrite (decode_encode (decode := FileMetadataExt.deserialize)), !result_bind_Ok by done. rewrite L0, result_bind_Ok, L1, result_bind_Ok.
    cbn [fmap list_fmap concat]. by rewrite app_nil_r.
Qed.

(** ** The loops combine the records *)

Definition both_files (op : MDBSetOperation) (a b : MDBFileInfo.t) : option MDBFileInfo.t := if is_union op then Some (MDBFileInfo.merge_from a b) else None.
Definition both_xorbs (op : MDBSetOperation) (a b : MDBXorbInfo.t) : option MDBXorbInfo.t := if is_union op then Some a else None.

Definition file_inputs_of (l0 l1 : list (DataHash * MDBFileInfo.t)) (rest0 rest1 : list byte) : file_inputs :=
  mk_file_inputs (file_head l0) (file_head l1) (file_tail l0 rest0) (file_tail l1 rest1).

(** One round, for any heads of the lists. *)
Lemma copy0_round e l0 l1 o rest0 rest1 :
  Forall file_fits (e :: l0) ->
  file_action0 CopyToOut o (file_inputs_of (e :: l0) l1 rest0 rest1) = Some (Ok (pass_file o e, file_inputs_of l0 l1 rest0 rest1)).
Proof. intros H. cbn -[copy_file file_tail]. by rewrite copy_file_spec. Qed.

Lemma skip0_round e l0 l1 o rest0 rest1 :
  Forall file_fits (e :: l0) ->
  file_action0 SkipOver o (file_inputs_of (e :: l0) l1 rest0 rest1) = Some (Ok (o, file_inputs_of l0 l1 rest0 rest1)).
Proof. intros H. cbn -[skip_file file_tail]. by rewrite skip_file_spec. Qed.

Lemma copy1_round e l0 l1 o rest0 rest1 :
  Forall file_fits (e :: l1) ->
  file_action1 CopyToOut o (file_inputs_of l0 (e :: l1) rest0 rest1) = Some (Ok (pass_file o e, file_inputs_of l0 l1 rest0 rest1)).
Proof. intros H. cbn -[copy_file file_tail]. by rewrite copy_file_spec. Qed.

Lemma skip1_round e l0 l1 o rest0 rest1 :
  Forall file_fits (e :: l1) ->
  file_action1 SkipOver o (file_inputs_of l0 (e :: l1) rest0 rest1) = Some (Ok (o, file_inputs_of l0 l1 rest0 rest1)).
Proof. intros H. cbn -[skip_file file_tail]. by rewrite skip_file_spec. Qed.

Lemma file_actions k0 a l0 k1 b l1 op :
  FileDataSequenceHeader.file_hash (MDBFileInfo.metadata a) = k0 -> FileDataSequenceHeader.file_hash (MDBFileInfo.metadata b) = k1 ->
  get_next_actions_for_file_info (file_head ((k0, a) :: l0)) (file_head ((k1, b) :: l1)) op =
  Some (match cmp k0 k1 with
        | Lt => if is_union op then (CopyToOut, Nothing) else (SkipOver, Nothing)
        | Eq =>
            if is_union op then
              match FileDataSequenceHeader.compare_flag_superset (MDBFileInfo.metadata a) (MDBFileInfo.metadata b) with
              | FileDataSequenceHeader.SuperA | FileDataSequenceHeader.Equal => (CopyToOut, SkipOver)
              | FileDataSequenceHeader.SuperB => (SkipOver, CopyToOut)
              | FileDataSequenceHeader.Neither => (Merge, Nothing)
              end
            else (SkipOver, SkipOver)
        | Gt => (Nothing, CopyToOut)
        end).
Proof.
  intros <- <-. unfold get_next_actions_for_file_info, get_next_actions, file_head. cbn -[cmp FileDataSequenceHeader.compare_flag_superset].
  destruct (cmp _ _) eqn:E; [|by destruct op|done]. destruct op; [|done]. cbn [is_union]. by destruct (FileDataSequenceHeader.compare_flag_superset _ _).
Qed.

Lemma file_loop_spec fuel op l0 l1 o rest0 rest1 :
  Forall file_fits l0 -> Forall file_fits l1 -> (forall k a b, (k, a) ∈ l0 -> (k, b) ∈ l1 -> compatible a b) ->
  length l0 + length l1 <= fuel ->
  file_loop fuel op o (file_inputs_of l0 l1 rest0 rest1) =
  Some (Ok (fold_left pass_file (combine (is_union op) (both_files op) fuel l0 l1) o)).
Proof.
  revert l0 l1 o. induction fuel as [|fuel IH]; intros l0 l1 o H0 H1 Hc Hf.
  { destruct l0, l1; cbn in Hf; try lia. done. }
  destruct l0 as [|[k0 a] l0], l1 as [|[k1 b] l1]; [done| | |]; cbn [length] in Hf.
  - assert (get_next_actions_for_file_info (file_head []) (file_head ((k1, b) :: l1)) op = Some (Nothing, CopyToOut)) as E by done.
    cbn [file_loop combine]. cbn [file_inputs_of fi_header0 fi_header1] in *. rewrite E.
    change (file_action0 Nothing o ?i) with (Some (Ok (E := CoreError) (o, i))). cbn iota. rewrite copy1_round by done.
    apply Forall_cons in H1 as [_ H1]. rewrite IH; [done|done|done| |cbn; lia]. intros k x y Hx. by apply not_elem_of_nil in Hx.
  - apply Forall_cons in H0 as Hx. destruct Hx as [_ H0'].
    assert (forall k x y, (k, x) ∈ l0 -> (k, y) ∈ ([] : list (DataHash * MDBFileInfo.t)) -> compatible x y) as Hc'.
    { intros k x y _ Hy. by apply not_elem_of_nil in Hy. }
    cbn [file_loop combine]. destruct op; cbn [is_union].
    + assert (get_next_actions_for_file_info (file_head ((k0, a) :: l0)) (file_head []) Union = Some (CopyToOut, Nothing)) as E by done.
      cbn [file_inputs_of fi_header0 fi_header1]. rewrite E, copy0_round by done. cbn [file_action1]. rewrite IH; [done|done|done|done|cbn; lia].
    + assert (get_next_actions_for_file_info (file_head ((k0, a) :: l0)) (file_head []) Difference = Some (SkipOver, Nothing)) as E by done.
      cbn [file_inputs_of fi_header0 fi_header1]. rewrite E, skip0_round by done. cbn [file_action1]. rewrite IH; [done|done|done|done|cbn; lia].
  - apply Forall_cons in H0 as Hx. destruct Hx as [[[Hva Hka] _] H0']. apply Forall_cons in H1 as Hx. destruct Hx as [[[Hvb Hkb] _] H1']. cbn [fst snd] in *.
    cbn [file_loop combine fst snd]. cbn [file_inputs_of fi_header0 fi_header1]. rewrite file_actions by done.
    fold (file_inputs_of ((k0, a) :: l0) ((k1, b) :: l1) rest0 rest1).
    assert (forall k x y, (k, x) ∈ l0 -> (k, y) ∈ l1 -> compatible x y) as Hc01 by (intros k x y Hx Hy; eapply Hc; right; done).
    destruct (cmp k0 k1) eqn:Ek.
    + apply cmp_eq_iff in Ek as ->. assert (compatible a b) as Hab by (apply (Hc k1); left).
      unfold both_files. destruct op; cbn [is_union].
      * pose proof (merge_superset a b Hva Hvb Hab) as Hm.
        destruct (FileDataSequenceHeader.compare_flag_superset (MDBFileInfo.metadata a) (MDBFileInfo.metadata b)) eqn:Es.
        -- rewrite copy0_round, skip1_round by done. rewrite Hm, IH; [done..|lia].
        -- rewrite skip0_round, copy1_round by done. rewrite Hm, IH; [done..|lia].
        -- cbn [file_action0 file_inputs_of fi_header0 fi_header1 fi_reader0 fi_reader1 file_head fmap option_fmap option_map head snd mbind option_bind].
           rewrite merge_file_spec by done. cbn [file_action1]. fold (file_inputs_of l0 l1 rest0 rest1). rewrite IH; [done..|lia].
        -- rewrite copy0_round, skip1_round by done. rewrite Hm, IH; [done..|lia].
      * rewrite skip0_round, skip1_round by done. rewrite IH; [done..|lia].
    + destruct op; cbn [is_union].
      * rewrite copy0_round by done. cbn [file_action1]. rewrite IH; [done|done|done| |cbn; lia]. intros k x y Hx Hy. eapply Hc; [by right|done].
      * rewrite skip0_round by done. cbn [file_action1]. rewrite IH; [done|done|done| |cbn; lia]. intros k x y Hx Hy. eapply Hc; [by right|done].
    + cbn [file_action0]. rewrite copy1_round by done. rewrite IH; [done|done|done| |cbn; lia]. intros k x y Hx Hy. eapply Hc; [done|by right].
Qed.

(** *** Xorbs *)

Definition xorb_head (l : list (DataHash * MDBXorbInfo.t)) : option XorbChunkSequenceHeader.t := (fun e => MDBXorbInfo.metadata e.2) <$> head l.

Definition xorbs_ahead (l : list (DataHash * MDBXorbInfo.t)) (rest : list byte) : list byte :=
  concat (xorb_bytes <$> l) ++ XorbChunkSequenceHeader.serialize XorbChunkSequenceHeader.bookend ++ rest.

Definition xorb_tail (l : list (DataHash * MDBXorbInfo.t)) (rest : list byte) : list byte :=
  match l with
  | [] => rest
  | e :: l' => concat (XorbChunkSequenceEntry.serialize <$> MDBXorbInfo.chunks e.2) ++ xorbs_ahead l' rest
  end.

Lemma load_next_xorb_spec l rest : Forall xorb_ok l -> load_next_xorb (xorbs_ahead l rest) = Ok (xorb_head l, xorb_tail l rest).
Proof.
  unfold load_next_xorb, xorbs_ahead. destruct 1 as [|e l [Hv _] _]; cbn [fmap list_fmap concat app].
  - by rewrite (bind_decode (decode := XorbChunkSequenceHeader.deserialize)) by done.
  - unfold xorb_bytes at 1, MDBXorbInfo.serialize. cbn [fst]. rewrite <- !app_assoc. destruct Hv as (Hh & Hb & _).
    rewrite (bind_decode (decode := XorbChunkSequenceHeader.deserialize)) by done. by rewrite Hb.
Qed.

Lemma copy_xorb_spec e l o rest :
  Forall xorb_ok (e :: l) -> copy_xorb (MDBXorbInfo.metadata e.2) o (xorb_tail (e :: l) rest) = Ok (pass_xorb o e, xorb_head l, xorb_tail l rest).
Proof.
  intros [[Hv Hk] Hl]%Forall_cons. destruct Hv as (Hh & Hb & Hn & Hc). cbn [xorb_tail]. unfold copy_xorb.
  rewrite (bind_decode_n (decode := XorbChunkSequenceEntry.deserialize)) by (done || lia). rewrite (bind_ok _ _ _ _ _ (load_next_xorb_spec l rest Hl)).
  unfold mret, reader_ret, pass_xorb. rewrite Hk, <- Hn.
  assert (xorb_records e = S (length (MDBXorbInfo.chunks e.2))) as -> by done.
  replace (1 + Z.of_nat _)%Z with (Z.of_nat (S (length (MDBXorbInfo.chunks e.2)))) by lia.
  replace (xp_byte_pos o + 48 + _ * 48) with (xp_byte_pos o + 48 * S (length (MDBXorbInfo.chunks e.2))) by lia. done.
Qed.

Lemma skip_xorb_spec e l rest :
  Forall xorb_ok (e :: l) -> skip_xorb (MDBXorbInfo.metadata e.2) (xorb_tail (e :: l) rest) = Ok (xorb_head l, xorb_tail l rest).
Proof.
  intros [[Hv Hk] Hl]%Forall_cons. destruct Hv as (Hh & Hb & Hn & Hc). unfold skip_xorb. cbn [xorb_tail].
  erewrite bind_ok; [apply (load_next_xorb_spec l rest Hl)|]. apply skip_app. rewrite length_concat_encode. lia.
Qed.

Lemma xorb_action_rounds e l o rest :
  Forall xorb_ok (e :: l) ->
  xorb_action CopyToOut o (xorb_head (e :: l)) (xorb_tail (e :: l) rest) = Some (Ok (pass_xorb o e, xorb_head l, xorb_tail l rest)) /\
  xorb_action SkipOver o (xorb_head (e :: l)) (xorb_tail (e :: l) rest) = Some (Ok (o, xorb_head l, xorb_tail l rest)).
Proof. intros H. cbn -[copy_xorb skip_xorb xorb_tail]. by rewrite copy_xorb_spec, skip_xorb_spec. Qed.

Lemma nothing_round o h r : xorb_action Nothing o h r = Some (Ok (o, h, r)).
Proof. done. Qed.

Lemma xorb_loop_spec fuel op l0 l1 o rest0 rest1 :
  Forall xorb_ok l0 -> Forall xorb_ok l1 -> length l0 + length l1 <= fuel ->
  xorb_loop fuel op o (xorb_head l0) (xorb_head l1) (xorb_tail l0 rest0) (xorb_tail l1 rest1) =
  Some (Ok (fold_left pass_xorb (combine (is_union op) (both_xorbs op) fuel l0 l1) o)).
Proof.
  revert l0 l1 o. induction fuel as [|fuel IH]; intros l0 l1 o H0 H1 Hf.
  { destruct l0, l1; cbn in Hf; try lia. done. }
  destruct l0 as [|[k0 a] l0], l1 as [|[k1 b] l1]; [done| | |]; cbn [length] in Hf; cbn [xorb_loop combine].
  - change (get_next_actions _ _ op) with (Some (Nothing, CopyToOut)). cbn iota beta. rewrite nothing_round.
    rewrite (proj1 (xorb_action_rounds _ _ _ _ H1)). apply Forall_cons in H1 as [_ H1]. rewrite IH; [done..|cbn; lia].
  - apply Forall_cons in H0 as Hx. destruct Hx as [_ H0']. destruct op; cbn [is_union].
    + change (get_next_actions _ _ Union) with (Some (CopyToOut, Nothing)). cbn iota beta.
      rewrite (proj1 (xorb_action_rounds _ _ _ _ H0)). rewrite nothing_round. rewrite IH; [done..|cbn; lia].
    + change (get_next_actions _ _ Difference) with (Some (SkipOver, Nothing)). cbn iota beta.
      rewrite (proj2 (xorb_action_rounds _ _ _ _ H0)). rewrite nothing_round. rewrite IH; [done..|cbn; lia].
  - apply Forall_cons in H0 as Hx. destruct Hx as [[_ Hka] H0']. apply Forall_cons in H1 as Hx. destruct Hx as [[_ Hkb] H1']. cbn [fst snd] in *.
    assert (get_next_actions (XorbChunkSequenceHeader.xorb_hash <$> xorb_head ((k0, a) :: l0)) (XorbChunkSequenceHeader.xorb_hash <$> xorb_head ((k1, b) :: l1)) op =
      Some (match cmp k0 k1 with
            | Lt => if is_union op then (CopyToOut, Nothing) else (SkipOver, Nothing)
            | Eq => if is_union op then (CopyToOut, SkipOver) else (SkipOver, SkipOver)
            | Gt => (Nothing, CopyToOut)
            end)) as ->.
    { cbn -[cmp]. rewrite Hka, Hkb. by destruct (cmp k0 k1), op. }
    unfold both_xorbs. destruct (cmp k0 k1) eqn:Ek.
    + apply cmp_eq_iff in Ek as ->. destruct op; cbn [is_union].
      * rewrite (proj1 (xorb_action_rounds _ _ _ _ H0)), (proj2 (xorb_action_rounds _ _ _ _ H1)). rewrite IH; [done..|lia].
      * rewrite (proj2 (xorb_action_rounds _ _ _ _ H0)), (proj2 (xorb_action_rounds _ _ _ _ H1)). rewrite IH; [done..|lia].
    + destruct op; cbn [is_union].
      * rewrite (proj1 (xorb_action_rounds _ _ _ _ H0)). rewrite nothing_round. rewrite IH; [done..|cbn; lia].
      * rewrite (proj2 (xorb_action_rounds _ _ _ _ H0)). rewrite nothing_round. rewrite IH; [done..|cbn; lia].
    + rewrite nothing_round. rewrite (proj1 (xorb_action_rounds _ _ _ _ H1)). rewrite IH; [done..|cbn; lia].
Qed.

(** ** The operations on files are the operations in memory *)

Section Agree.
  Context `{Sort : SortUnstable (Z * Z)}.

(** Shards that agree on the xorbs and files that both have. *)
Definition consistent (a b : MDBInMemoryShard.t) : Prop :=
    (forall k x y, to_map (MDBInMemoryShard.xorb_content a) !! k = Some x -> to_map (MDBInMemoryShard.xorb_content b) !! k = Some y -> x = y) /\
    (forall k x y, to_map (MDBInMemoryShard.file_content a) !! k = Some x -> to_map (MDBInMemoryShard.file_content b) !! k = Some y -> compatible x y).

Definition memory_op (op : MDBSetOperation) (a b : MDBInMemoryShard.t) : MDBInMemoryShard.t :=
    match op with Union => MDBInMemoryShard.union a b | Difference => MDBInMemoryShard.difference a b end.

Lemma storable_fits mdb : storable mdb -> Forall file_fits (MDBInMemoryShard.file_content mdb).
Proof.
  intros Hs. destruct (storable_sections mdb Hs) as [Hf _]. rewrite Forall_forall in *. intros e He. split; [by apply Hf|].
  pose proof (records_le_total file_records e _ He). pose proof (storable_file_records _ Hs). lia.
Qed.

Lemma combined_files op fuel a b :
    storable a -> storable b -> length (MDBInMemoryShard.file_content a) + length (MDBInMemoryShard.file_content b) <= fuel ->
    combine (is_union op) (both_files op) fuel (MDBInMemoryShard.file_content a) (MDBInMemoryShard.file_content b) =
    MDBInMemoryShard.file_content (memory_op op a b).
Proof.
  intros Ha Hb Hf. pose proof (wf_files_sorted _ (storable_wf _ Ha)) as Sa. pose proof (wf_files_sorted _ (storable_wf _ Hb)) as Sb.
  destruct (combine_spec (is_union op) (both_files op) fuel _ _ Sa Sb Hf) as [H1 H2]. destruct op; cbn [memory_op is_union] in *.
  - destruct (union_files_map _ _ Sa Sb) as [H3 H4]. apply sorted_ext; [done|exact H3|]. apply map_eq. intros k. rewrite H2. cbn. rewrite H4, lookup_union_with.
    by destruct (to_map (MDBInMemoryShard.file_content a) !! k), (to_map (MDBInMemoryShard.file_content b) !! k).
  - apply sorted_ext; [done|by apply filter_sorted|]. apply map_eq. intros k. rewrite H2. cbn. rewrite filter_to_map by done. rewrite lookup_difference.
    by destruct (to_map (MDBInMemoryShard.file_content a) !! k), (to_map (MDBInMemoryShard.file_content b) !! k).
Qed.

Lemma combined_xorbs op fuel a b :
    storable a -> storable b -> consistent a b ->
    length (MDBInMemoryShard.xorb_content a) + length (MDBInMemoryShard.xorb_content b) <= fuel ->
    combine (is_union op) (both_xorbs op) fuel (MDBInMemoryShard.xorb_content a) (MDBInMemoryShard.xorb_content b) =
    MDBInMemoryShard.xorb_content (memory_op op a b).
Proof.
  intros Ha Hb [Hc _] Hf. pose proof (wf_xorbs_sorted _ (storable_wf _ Ha)) as Sa. pose proof (wf_xorbs_sorted _ (storable_wf _ Hb)) as Sb.
  destruct (combine_spec (is_union op) (both_xorbs op) fuel _ _ Sa Sb Hf) as [H1 H2]. destruct op; cbn [memory_op is_union] in *.
  - destruct (insert_all _ _ Sa Sb) as [H3 H4]. apply sorted_ext; [done|exact H3|]. apply map_eq. intros k. rewrite H2. cbn. rewrite H4, lookup_union.
    destruct (to_map (MDBInMemoryShard.xorb_content a) !! k) as [x|] eqn:Ex, (to_map (MDBInMemoryShard.xorb_content b) !! k) as [y|] eqn:Ey; try done.
    cbn. by rewrite (Hc k x y Ex Ey).
  - apply sorted_ext; [done|by apply filter_sorted|]. apply map_eq. intros k. rewrite H2. cbn. rewrite filter_to_map by done. rewrite lookup_difference.
    by destruct (to_map (MDBInMemoryShard.xorb_content a) !! k), (to_map (MDBInMemoryShard.xorb_content b) !! k).
Qed.

Lemma consistent_files a b k x y :
    storable a -> storable b -> consistent a b -> (k, x) ∈ MDBInMemoryShard.file_content a -> (k, y) ∈ MDBInMemoryShard.file_content b -> compatible x y.
Proof.
  intros Ha Hb [_ Hc] Hx Hy. apply (Hc k); apply sorted_lookup; try done; by apply wf_files_sorted, storable_wf.
Qed.

Lemma length_le_concat {A} (write : A -> list byte) l rest : (forall a, 0 < length (write a)) -> length l <= length (concat (write <$> l) ++ rest).
Proof.
  intros H. rewrite length_app. induction l as [|a l IH]; cbn; [lia|]. rewrite length_app. specialize (H a). lia.
Qed.

Lemma files_fuel l rest : length l <= length (file_tail l rest).
Proof.
  destruct l as [|e l]; cbn [file_tail length]; [lia|]. unfold files_ahead.
  pose proof (length_le_concat file_bytes l []) as H. rewrite app_nil_r in H.
  rewrite !length_app, (encode_length (encode := FileDataSequenceHeader.serialize)).
  assert (forall a, 0 < length (file_bytes a)) as Hp by (intros a; rewrite file_bytes_length; pose proof (file_records_pos a); lia).
  specialize (H Hp). lia.
Qed.

Lemma xorbs_fuel l rest : length l <= length (xorb_tail l rest).
Proof.
  destruct l as [|e l]; cbn [xorb_tail length]; [lia|]. unfold xorbs_ahead.
  pose proof (length_le_concat xorb_bytes l []) as H. rewrite app_nil_r in H.
  rewrite !length_app, (encode_length (encode := XorbChunkSequenceHeader.serialize)).
  assert (forall a, 0 < length (xorb_bytes a)) as Hp by (intros a; rewrite xorb_bytes_length; unfold xorb_records; lia).
  specialize (H Hp). lia.
Qed.

Lemma set_operation_written op a b k0 c0 x0 k1 c1 x1 :
    storable a -> storable b -> storable (memory_op op a b) -> consistent a b ->
    set_operation (shard_info k0 c0 x0 a) (shard_info k1 c1 x1 b) (shard_bytes k0 c0 x0 a) (shard_bytes k1 c1 x1 b) op =
    Some (Ok (shard_bytes DataHash.default 0 (2 ^ 64 - 1) (memory_op op a b), shard_info DataHash.default 0 (2 ^ 64 - 1) (memory_op op a b))).
Proof.
  intros Ha Hb Hm Hc. pose proof (storable_fits a Ha) as Fa. pose proof (storable_fits b Hb) as Fb.
  destruct (storable_sections a Ha) as [_ Xa], (storable_sections b Hb) as [_ Xb].
  destruct (passes_written DataHash.default 0 (2 ^ 64 - 1) (memory_op op a b) Hm) as (P1 & P2 & P3).
  unfold set_operation. cbn zeta. cbn [MDBShardInfo.metadata shard_info]. rewrite !seek_files, !seek_xorbs. unfold files_section, xorbs_section.
  rewrite <- !app_assoc. change (concat (file_bytes <$> MDBInMemoryShard.file_content ?m) ++ _ ++ ?r) with (files_ahead (MDBInMemoryShard.file_content m) r).
  change (concat (xorb_bytes <$> MDBInMemoryShard.xorb_content ?m) ++ _ ++ ?r) with (xorbs_ahead (MDBInMemoryShard.xorb_content m) r).
  rewrite !load_next_file_spec, !load_next_xorb_spec by done. rewrite (surjective_pairing (MDBShardFileHeader.serialize _)).
  set (ra := xorbs_ahead (MDBInMemoryShard.xorb_content a) _). set (rb := xorbs_ahead (MDBInMemoryShard.xorb_content b) _).
  fold (file_inputs_of (MDBInMemoryShard.file_content a) (MDBInMemoryShard.file_content b) ra rb).
  pose proof (files_fuel (MDBInMemoryShard.file_content a) ra) as La. pose proof (files_fuel (MDBInMemoryShard.file_content b) rb) as Lb.
  rewrite file_loop_spec, combined_files by (done || lia || (intros; by eapply (consistent_files a b))).
  pose proof (xorbs_fuel (MDBInMemoryShard.xorb_content a) (tables_section a ++ footer_bytes k0 c0 x0 a)) as Ma.
  pose proof (xorbs_fuel (MDBInMemoryShard.xorb_content b) (tables_section b ++ footer_bytes k1 c1 x1 b)) as Mb.
  rewrite xorb_loop_spec, combined_xorbs by (done || lia).
  cbn [snd MDBShardFileHeader.serialize].
  set (m := memory_op op a b) in *. set (cl := sort_unstable_by_key (xp_chunk_lookup (xorbs_pass m))) in *.
  transitivity (Some (Ok (E := CoreError) (finish (files_pass m) (xorbs_pass m) cl (finish_footer DataHash.default 0 (2 ^ 64 - 1) (files_pass m) (xorbs_pass m) cl),
    MDBShardInfo.mk MDBShardFileHeader.default (finish_footer DataHash.default 0 (2 ^ 64 - 1) (files_pass m) (xorbs_pass m) cl)))); [reflexivity|].
  by rewrite P1, P2, P3.
Qed.
End Agree.

(** C10: the union and the difference of two shard files are, byte for byte, the files written from the
    union and the difference of the shards in memory, when the shards agree on the xorbs that both
    have and their records of a common file differ at most in optional parts that one of them lacks.
    The operation ends and does not panic. *)
Theorem set_operation_agrees `{SortUnstable (Z * Z)} op a b now0 expiry0 now1 expiry1 now :
  storable a -> storable b -> storable (memory_op op a b) -> consistent a b ->
  let '(f0, s0) := MDBShardInfo.serialize_from now0 a expiry0 in
  let '(f1, s1) := MDBShardInfo.serialize_from now1 b expiry1 in
  set_operation s0 s1 f0 f1 op = Some (Ok (MDBShardInfo.serialize_from now (memory_op op a b) None)).
Proof. intros Ha Hb Hm Hc. rewrite !serialize_from_spec by done. by apply set_operation_written. Qed.
