(* ===== verification/StreamingShard.v ===== *)
(** * Shards read and written as a stream

    Model of [xet_core_structures/src/metadata_shard/streaming_shard.rs]: the passes over the two
    sections with a callback for each record, blocking and asynchronous, and the minimal shard that
    keeps views of the records; and of [from_reader] of [shard_in_memory.rs], which is built on them.
    A callback changes the variables it captures, here its state.  The vectors that the code
    reserves for the number of records a header announces are lists here, which need no room. *)

From coqutil Require Import Byte Word.LittleEndianList.
From stdpp Require Import base numbers gmap sorting list.
From S2P Require Import Prelude DataHash Codec FileStructs XorbStructs Interpolation ShardMemory ShardFormat.

Section Process.
  Context {St : Type}.
  Context (file_callback : St -> MDBFileInfoView.t -> result CoreError St).
  Context (xorb_callback : St -> MDBXorbInfoView.t -> result CoreError St).

(** The bytes that follow a file header. *)
Definition n_file_bytes (header : FileDataSequenceHeader.t) : nat :=
    let n := Z.to_nat (FileDataSequenceHeader.num_entries header) in
    let n_entries := n
      + (if FileDataSequenceHeader.contains_verification header then n else 0)
      + (if FileDataSequenceHeader.contains_metadata_ext header then 1 else 0) in
    n_entries * MDB_FILE_INFO_ENTRY_SIZE.

Definition process_shard_file_info_section : St -> Reader St :=
    loop (fun s =>
      header ← FileDataSequenceHeader.deserialize;
      if FileDataSequenceHeader.is_bookend header then mret (inr s)
      else
        copied ← copy_up_to (n_file_bytes header);
        view ← lift (MDBFileInfoView.from_data_and_header header (FileDataSequenceHeader.serialize header ++ copied));
        s' ← lift (file_callback s view);
        mret (inl s')).

Definition process_shard_xorb_info_section : St -> Reader St :=
    loop (fun s =>
      header ← XorbChunkSequenceHeader.deserialize;
      if XorbChunkSequenceHeader.is_bookend header then mret (inr s)
      else
        let n_bytes := Z.to_nat (XorbChunkSequenceHeader.num_entries header) * 48 in
        copied ← copy_up_to n_bytes;
        view ← lift (MDBXorbInfoView.from_data_and_header header (XorbChunkSequenceHeader.serialize header ++ copied));
        s' ← lift (xorb_callback s view);
        mret (inl s')).

Definition process_shard_file_info_section_async : St -> Reader St :=
    loop (fun s =>
      header_buf ← read_exact 48;
      header ← from_cursor header_buf FileDataSequenceHeader.deserialize;
      if FileDataSequenceHeader.is_bookend header then mret (inr s)
      else
        remainder ← read_exact (n_file_bytes header);
        view ← lift (MDBFileInfoView.from_data_and_header header (header_buf ++ remainder));
        s' ← lift (file_callback s view);
        mret (inl s')).

Definition process_shard_xorb_info_section_async : St -> Reader St :=
    loop (fun s =>
      header_buf ← read_exact 48;
      header ← from_cursor header_buf XorbChunkSequenceHeader.deserialize;
      if XorbChunkSequenceHeader.is_bookend header then mret (inr s)
      else
        let n_bytes := Z.to_nat (XorbChunkSequenceHeader.num_entries header) * 48 in
        remainder ← read_exact n_bytes;
        view ← lift (MDBXorbInfoView.from_data_and_header header (header_buf ++ remainder));
        s' ← lift (xorb_callback s view);
        mret (inl s')).

End Process.

(** [Vec::dedup] *)
Fixpoint dedup (l : list nat) : list nat :=
  match l with
  | [] => []
  | a :: l' => match l' with b :: _ => if a =? b then dedup l' else a :: dedup l' | [] => [a] end
  end.

Module MDBMinimalShard.

Record t := mk { file_info_views : list MDBFileInfoView.t; xorb_info_views : list MDBXorbInfoView.t }.

(** The views of the files, one for each hash, and the hashes seen. *)
Definition register_file (s : gset DataHash * list MDBFileInfoView.t) (fiv : MDBFileInfoView.t) : gset DataHash * list MDBFileInfoView.t :=
  let '(seen_file_hashes, views) := s in
  if bool_decide (MDBFileInfoView.file_hash fiv ∈ seen_file_hashes) then s
  else ({[ MDBFileInfoView.file_hash fiv ]} ∪ seen_file_hashes, views ++ [fiv]).

Definition from_reader (include_files include_xorb : bool) : Reader t :=
  _ ← MDBShardFileHeader.deserialize;
  '(_, file_info_views) ← process_shard_file_info_section
    (fun s fiv => Ok (if include_files then register_file s fiv else s)) (∅, []);
  xorb_info_views ← (if include_xorb then process_shard_xorb_info_section (fun views civ => Ok (views ++ [civ])) [] else mret []);
  mret (mk file_info_views xorb_info_views).

(** [Itertools::all_equal] *)
Definition all_equal (l : list bool) : bool := match l with [] => true | a :: l' => forallb (Bool.eqb a) l' end.

(** The state [c] is what the two custom callbacks capture. *)
Definition from_reader_async_with_custom_callbacks {Cb} (include_files include_xorb : bool)
    (file_callback : Cb -> MDBFileInfoView.t -> result CoreError Cb) (xorb_callback : Cb -> MDBXorbInfoView.t -> result CoreError Cb)
    (c : Cb) : Reader (t * Cb) :=
  buf ← read_exact 48;
  _ ← from_cursor buf MDBShardFileHeader.deserialize;
  '(c, (_, file_info_views)) ← process_shard_file_info_section_async
    (fun '(c, s) fiv => if include_files then c' ← file_callback c fiv; Ok (c', register_file s fiv) else Ok (c, s)) (c, (∅, []));
  if negb (bool_decide (file_info_views = [])) && negb (all_equal (MDBFileInfoView.contains_verification <$> file_info_views))
  then fail InvalidShard
  else
    '(c, xorb_info_views) ← (if include_xorb
      then process_shard_xorb_info_section_async (fun '(c, views) civ => c' ← xorb_callback c civ; Ok (c', views ++ [civ])) (c, [])
      else mret (c, []));
    mret (mk file_info_views xorb_info_views, c).

Definition from_reader_async (include_files include_xorb : bool) : Reader t :=
  '(m, _) ← from_reader_async_with_custom_callbacks include_files include_xorb (fun c _ => Ok c) (fun c _ => Ok c) tt;
  mret m.

Definition has_file_verification (m : t) : bool :=
  match file_info_views m with [] => false | v :: _ => MDBFileInfoView.contains_verification v end.

Definition serialized_size (m : t) (with_verification : bool) : nat :=
  if with_verification && negb (has_file_verification m) then 0
  else
    48 + fold_left (fun acc fiv => acc + MDBFileInfoView.byte_size fiv with_verification) (file_info_views m) 0
    + 48 + fold_left (fun acc civ => acc + MDBXorbInfoView.byte_size civ) (xorb_info_views m) 0
    + 48 + MDB_SHARD_FOOTER_SIZE.

(** The first segment of each file, by xorb; [None] when the code panics. *)
Definition file_start_entries (m : t) : option (gmap DataHash (list nat)) :=
  firsts ← mapM (fun fv => MDBFileInfoView.entry fv 0) (filter (fun fv => 0 < MDBFileInfoView.num_entries fv) (file_info_views m));
  let starts := fold_left (fun (starts : gmap DataHash (list nat)) entry =>
    partial_alter (fun v => Some (from_option id [] v ++ [Z.to_nat (FileDataSequenceEntry.chunk_index_start entry)]))
      (FileDataSequenceEntry.xorb_hash entry) starts) firsts ∅ in
  Some ((fun v => dedup (merge_sort Nat.le v)) <$> starts).

(** The file section: the bytes written, their count and the sum of the segment sizes. *)
Fixpoint save_files (with_verification : bool) (views : list MDBFileInfoView.t) (out : list byte) (bytes : nat) (materialized_bytes : Z)
    : option (result CoreError (list byte * nat * Z)) :=
  match views with
  | [] => Some (Ok (out, bytes, materialized_bytes))
  | file_info :: views' =>
      entries ← mapM (MDBFileInfoView.entry file_info) (seq 0 (MDBFileInfoView.num_entries file_info));
      match MDBFileInfoView.serialize file_info with_verification with
      | Err e => Some (Err e)
      | Ok (o, n) =>
          save_files with_verification views' (out ++ o) (bytes + n)
            (fold_left (fun acc e => wrap64 (acc + FileDataSequenceEntry.unpacked_segment_bytes e)) entries materialized_bytes)
      end
  end.

(** The xorb section with the start of each file flagged: the bytes, their count, the bytes on disk and
    the bytes stored. *)
Fixpoint save_xorbs (xorb_filter_fn : MDBXorbInfoView.t -> bool) (file_start_chunks : gmap DataHash (list nat))
    (views : list MDBXorbInfoView.t) (out : list byte) (bytes : nat) (stored_bytes_on_disk stored_bytes : Z)
    : option (list byte * nat * Z * Z) :=
  match views with
  | [] => Some (out, bytes, stored_bytes_on_disk, stored_bytes)
  | xorb_info :: views' =>
      if negb (xorb_filter_fn xorb_info) then
        save_xorbs xorb_filter_fn file_start_chunks views' out bytes stored_bytes_on_disk stored_bytes
      else
        '(o, n) ← match file_start_chunks !! MDBXorbInfoView.xorb_hash xorb_info with
          | Some gde_indices =>
              MDBXorbInfoView.serialize_with_chunk_rewrite xorb_info (fun idx chunk =>
                if bool_decide (idx ∈ gde_indices) then XorbChunkSequenceEntry.with_global_dedup_flag chunk true else chunk)
          | None => Some (MDBXorbInfoView.serialize xorb_info)
          end;
        save_xorbs xorb_filter_fn file_start_chunks views' (out ++ o) (bytes + n)
          (wrap64 (stored_bytes_on_disk + XorbChunkSequenceHeader.num_bytes_on_disk (MDBXorbInfoView.header xorb_info)))
          (wrap64 (stored_bytes + XorbChunkSequenceHeader.num_bytes_in_xorb (MDBXorbInfoView.header xorb_info)))
  end.

(** [now] is the time in seconds and [expiry] in nanoseconds since the epoch. *)
Definition serialize_impl (now : Z) (m : t) (with_file_section with_verification : bool) (expiry : option Z)
    (xorb_filter_fn : MDBXorbInfoView.t -> bool) : option (result CoreError (list byte * nat)) :=
  let '(out, bytes) := MDBShardFileHeader.serialize MDBShardFileHeader.default in
  file_start_chunks ← file_start_entries m;
  let fs_start := Z.of_nat bytes in
  files ← save_files with_verification (if with_file_section then file_info_views m else []) out bytes 0;
  match files with
  | Err e => Some (Err e)
  | Ok (out, bytes, materialized_bytes) =>
      let out := out ++ FileDataSequenceHeader.serialize FileDataSequenceHeader.bookend in
      let bytes := bytes + 48 in
      let cs_start := Z.of_nat bytes in
      '(out, bytes, stored_bytes_on_disk, stored_bytes) ← save_xorbs xorb_filter_fn file_start_chunks (xorb_info_views m) out bytes 0 0;
      let out := out ++ XorbChunkSequenceHeader.serialize XorbChunkSequenceHeader.bookend in
      let bytes := bytes + 48 in
      let footer_start := Z.of_nat bytes in
      let footer := MDBShardFileFooter.mk (MDBShardFileFooter.version MDBShardFileFooter.default) fs_start cs_start footer_start 0 footer_start 0
        footer_start 0 (MDBShardFileFooter.chunk_hash_hmac_key MDBShardFileFooter.default) now
        (match expiry with Some t => Z.max 0 (t / 10 ^ 9) | None => 0 end)
        (MDBShardFileFooter._buffer MDBShardFileFooter.default) stored_bytes_on_disk materialized_bytes stored_bytes footer_start in
      let '(footer_out, n) := MDBShardFileFooter.serialize footer in
      Some (Ok (out ++ footer_out, bytes + n))
  end.

Definition serialize_xorb_subset_only (now : Z) (m : t) (xorb_filter_fn : MDBXorbInfoView.t -> bool) : option (result CoreError (list byte * nat)) :=
  serialize_impl now m false false None xorb_filter_fn.

Definition serialize_xorb_subset_with_expiry (now : Z) (m : t) (expiry : option Z) (xorb_filter_fn : MDBXorbInfoView.t -> bool)
    : option (result CoreError (list byte * nat)) :=
  serialize_impl now m false false expiry xorb_filter_fn.

Definition serialize (now : Z) (m : t) (with_verification : bool) : option (result CoreError (list byte * nat)) :=
  serialize_impl now m true with_verification None (fun _ => true).

(** The hashes to add for one xorb; indices out of range are passed over. *)
Definition eligible_of_xorb (file_start_entries : gmap DataHash (list nat)) (v : MDBXorbInfoView.t) : option (list DataHash) :=
  let num_entries := MDBXorbInfoView.num_entries v in
  let starts := from_option id [] (file_start_entries !! MDBXorbInfoView.xorb_hash v) in
  first_chunks ← mapM (MDBXorbInfoView.chunk v) (filter (fun c_idx => c_idx < num_entries) starts);
  chunks ← mapM (MDBXorbInfoView.chunk v) (seq 0 num_entries);
  Some (XorbChunkSequenceEntry.chunk_hash <$> first_chunks ++ filter (fun c => XorbChunkSequenceEntry.is_global_dedup_eligible c = true) chunks).

(** The hashes as a set: the order of the result is not specified. *)
Definition global_dedup_eligible_chunks (m : t) : option (gset DataHash) :=
  starts ← file_start_entries m;
  hashes ← mapM (eligible_of_xorb starts) (xorb_info_views m);
  Some (list_to_set (concat hashes)).

End MDBMinimalShard.

(** [MDBShardInfo::filter_cas_chunks_for_global_dedup] *)
Definition filter_cas_chunks_for_global_dedup : Reader (option (gset DataHash)) :=
  shard ← MDBMinimalShard.from_reader true true;
  mret (MDBMinimalShard.global_dedup_eligible_chunks shard).

(** [MDBInMemoryShard::from_reader]; the result is [None] when the conversion of a view panics. *)
Definition from_reader : Reader (option MDBInMemoryShard.t) :=
  _ ← MDBShardFileHeader.deserialize;
  shard ← process_shard_file_info_section (fun shard view =>
    Ok (s ← shard; i ← MDBFileInfoView.to_file_info view; Some (MDBInMemoryShard.add_file_reconstruction_info s i))) (Some MDBInMemoryShard.default);
  process_shard_xorb_info_section (fun shard view =>
    Ok (s ← shard; x ← MDBXorbInfoView.to_xorb_info view; Some (MDBInMemoryShard.add_xorb_block s x))) shard.

(** ** The two forms of the passes *)

Lemma loop_ext {St B} (body body' : St -> Reader (St + B)) :
  (forall s r, body s r = body' s r) -> forall s r, loop body s r = loop body' s r.
Proof.
  intros H s r. unfold loop. generalize (S (length r)) as n. intros n. revert s r.
  induction n as [|n IH]; intros s r; [done|]. cbn [iterate]. unfold mbind, reader_bind. rewrite H.
  destruct (body' s r) as [[[s'|b] r']|e]; [apply IH|done|done].
Qed.

Lemma cursor_exact {A} encode (p : Reader A) valid n :
  ExactCodec A encode p valid -> (forall a, length (encode a) = n) ->
  ExactCodec A (fun a => in_buffer n (encode a)) (v ← read_exact n; from_cursor v p) valid.
Proof.
  intros E Hn r a r' H. apply bind_inv in H as (v & r1 & [-> Hv]%read_exact_inv & H). unfold from_cursor in H.
  destruct (p v) as [[b rest]|e] eqn:Ep; [|done]. injection H as -> ->. apply decode_exact in Ep as [-> Ha].
  rewrite length_app, Hn in Hv. destruct rest; [|cbn in Hv; lia]. rewrite in_buffer_exact by done. by rewrite app_nil_r.
Qed.

(** Runs of reads, each of which keeps its bytes. *)
Ltac exact_reads :=
  repeat match goal with
  | H : (_ ≫= _) _ = Ok _ |- _ =>
      let a := fresh "a" in let r := fresh "r" in let E := fresh "E" in
      apply bind_inv in H as (a & r & E & H); apply decode_exact in E as [-> ?]
  end.

#[export] Instance file_header_exact :
  ExactCodec FileDataSequenceHeader.t FileDataSequenceHeader.serialize FileDataSequenceHeader.deserialize FileDataSequenceHeader.valid.
Proof.
  apply (cursor_exact (fun h => write_hash (FileDataSequenceHeader.file_hash h) ++ write_u32 (FileDataSequenceHeader.file_flags h) ++
    write_u32 (FileDataSequenceHeader.num_entries h) ++ write_u64 (FileDataSequenceHeader._unused h))).
  - intros r a r' H. exact_reads. injection H as <- <-. rewrite <- !app_assoc. by split.
  - intros a. by rewrite !length_app, !encode_length.
Qed.

#[export] Instance xorb_header_exact :
  ExactCodec XorbChunkSequenceHeader.t XorbChunkSequenceHeader.serialize XorbChunkSequenceHeader.deserialize XorbChunkSequenceHeader.valid.
Proof.
  apply (cursor_exact (fun h => write_hash (XorbChunkSequenceHeader.xorb_hash h) ++ write_u32 (XorbChunkSequenceHeader.xorb_flags h) ++
    write_u32 (XorbChunkSequenceHeader.num_entries h) ++ write_u32 (XorbChunkSequenceHeader.num_bytes_in_xorb h) ++
    write_u32 (XorbChunkSequenceHeader.num_bytes_on_disk h))).
  - intros r a r' H. exact_reads. injection H as <- <-. rewrite <- !app_assoc. by split.
  - intros a. by rewrite !length_app, !encode_length.
Qed.

(** A header taken from a buffer of its size. *)
Lemma buffered_header `{C : FixedCodec A enc dec valid sz} `{E : !ExactCodec A enc dec valid} {B} (k : list byte -> A -> Reader B) r :
  (buf ← read_exact sz; h ← from_cursor buf dec; k buf h) r = (h ← dec; k (enc h) h) r.
Proof.
  destruct (Nat.lt_ge_cases (length r) sz) as [Hs|Hs].
  - rewrite (bind_err _ _ _ _ (read_exact_short _ _ Hs)), (bind_err _ _ _ _ (decode_short _ Hs)). done.
  - destruct (decode_enough r Hs) as (a & Ea & Ha). rewrite (bind_ok _ _ _ _ _ Ea), (bind_ok _ _ _ _ _ (read_exact_enough _ _ Hs)).
    apply decode_exact in Ea as [Er _]. assert (take sz r = enc a) as ->.
    { rewrite Er at 1. rewrite take_app_length' by (symmetry; apply encode_length). done. }
    unfold mbind at 1, reader_bind at 1, from_cursor. pose proof (decode_encode a [] Ha) as Hd. rewrite app_nil_r in Hd. by rewrite Hd.
Qed.

(** Data that is copied and then checked for its length, or read whole. *)
Lemma copy_or_read {B} n (k : list byte -> Reader B) r :
  (forall d r, length d < n -> k d r = Err (Io UnexpectedEof)) ->
  (d ← copy_up_to n; k d) r = (d ← read_exact n; k d) r.
Proof.
  intros Hk. unfold copy_up_to. rewrite (bind_ok _ _ r (take n r) (drop n r)) by done. destruct (Nat.lt_ge_cases (length r) n) as [Hs|Hs].
  - rewrite (bind_err _ _ _ _ (read_exact_short _ _ Hs)). apply Hk. rewrite length_take. lia.
  - by rewrite (bind_ok _ _ _ _ _ (read_exact_enough _ _ Hs)).
Qed.

Lemma file_pass_async {St} (cb : St -> MDBFileInfoView.t -> result CoreError St) s r :
  process_shard_file_info_section_async cb s r = process_shard_file_info_section cb s r.
Proof.
  apply loop_ext. clear s r. intros s r. rewrite (buffered_header (dec := FileDataSequenceHeader.deserialize)).
  apply bind_ext. intros h r' E. destruct (FileDataSequenceHeader.is_bookend h); [done|]. symmetry. apply copy_or_read.
  intros d r'' Hd. apply bind_err. unfold lift, MDBFileInfoView.from_data_and_header. cbn zeta. rewrite (proj2 (Nat.ltb_lt _ _)); [done|].
  rewrite length_app, encode_length. unfold n_file_bytes, MDB_FILE_INFO_ENTRY_SIZE in *. lia.
Qed.

Lemma xorb_pass_async {St} (cb : St -> MDBXorbInfoView.t -> result CoreError St) s r :
  process_shard_xorb_info_section_async cb s r = process_shard_xorb_info_section cb s r.
Proof.
  apply loop_ext. clear s r. intros s r. rewrite (buffered_header (dec := XorbChunkSequenceHeader.deserialize)).
  apply bind_ext. intros h r' E. destruct (XorbChunkSequenceHeader.is_bookend h); [done|]. symmetry. apply copy_or_read.
  intros d r'' Hd. apply bind_err. unfold lift, MDBXorbInfoView.from_data_and_header. cbn zeta. rewrite (proj2 (Nat.ltb_lt _ _)); [done|].
  rewrite length_app, encode_length. unfold MDB_XORB_INFO_ENTRY_SIZE in *. lia.
Qed.

(** A pass whose state is the image of the state of another. *)
Lemma loop_image {S1 S2 B1 B2} (g : S1 -> S2) (g' : B1 -> B2) (body1 : S1 -> Reader (S1 + B1)) (body2 : S2 -> Reader (S2 + B2)) :
  (forall s r, body2 (g s) r = (x ← body1 s; mret (match x with inl s' => inl (g s') | inr b => inr (g' b) end)) r) ->
  forall s r, loop body2 (g s) r = (b ← loop body1 s; mret (g' b)) r.
Proof.
  intros H s r. unfold loop, mbind at 1, reader_bind at 1. generalize (S (length r)) as n. intros n. revert s r.
  induction n as [|n IH]; intros s r; [done|]. cbn [iterate]. unfold mbind, reader_bind in *. rewrite H.
  destruct (body1 s r) as [[[s'|b] r']|e]; [apply IH|done|done].
Qed.

Lemma file_pass_image {S1 S2} (g : S1 -> S2) (cb1 : S1 -> MDBFileInfoView.t -> result CoreError S1) (cb2 : S2 -> MDBFileInfoView.t -> result CoreError S2) s r :
  (forall s v, cb2 (g s) v = (x ← cb1 s v; Ok (g x))) ->
  process_shard_file_info_section cb2 (g s) r = (b ← process_shard_file_info_section cb1 s; mret (g b)) r.
Proof.
  intros H. unfold process_shard_file_info_section. apply (loop_image g g). clear s r. intros s r. unfold mbind, reader_bind.
  destruct (FileDataSequenceHeader.deserialize r) as [[h r1]|e]; [|done]. destruct (FileDataSequenceHeader.is_bookend h); [done|].
  unfold copy_up_to, lift. destruct (MDBFileInfoView.from_data_and_header _ _) as [v|e]; [|done]. rewrite H. by destruct (cb1 s v).
Qed.

Lemma xorb_pass_image {S1 S2} (g : S1 -> S2) (cb1 : S1 -> MDBXorbInfoView.t -> result CoreError S1) (cb2 : S2 -> MDBXorbInfoView.t -> result CoreError S2) s r :
  (forall s v, cb2 (g s) v = (x ← cb1 s v; Ok (g x))) ->
  process_shard_xorb_info_section cb2 (g s) r = (b ← process_shard_xorb_info_section cb1 s; mret (g b)) r.
Proof.
  intros H. unfold process_shard_xorb_info_section. apply (loop_image g g). clear s r. intros s r. unfold mbind, reader_bind.
  destruct (XorbChunkSequenceHeader.deserialize r) as [[h r1]|e]; [|done]. destruct (XorbChunkSequenceHeader.is_bookend h); [done|].
  unfold copy_up_to, lift. destruct (MDBXorbInfoView.from_data_and_header _ _) as [v|e]; [|done]. rewrite H. by destruct (cb1 s v).
Qed.

(** The header of the shard, from the stream or from a buffer. *)
Lemma shard_header_buffered {B} (k : Reader B) r :
  48 <= length r ->
  (buf ← read_exact 48; _ ← from_cursor buf MDBShardFileHeader.deserialize; k) r = (_ ← MDBShardFileHeader.deserialize; k) r.
Proof.
  intros Hr. rewrite (bind_ok _ _ _ _ _ (read_exact_enough 48 r Hr)).
  assert (exists a b c d, r = a ++ b ++ c ++ d /\ length a = 32 /\ length b = 8 /\ length c = 8) as (a & b & c & d & -> & Ha & Hb & Hc).
  { exists (take 32 r), (take 8 (drop 32 r)), (take 8 (drop 40 r)), (drop 48 r).
    rewrite !length_take, !length_drop. split_and!; [|lia..].
    rewrite <- (drop_drop r 8 40 : drop 8 (drop 40 r) = drop 48 r), take_drop.
    by rewrite <- (drop_drop r 8 32 : drop 8 (drop 32 r) = drop 40 r), take_drop, take_drop. }
  assert (take 48 (a ++ b ++ c ++ d) = a ++ b ++ c) as ->.
  { rewrite !app_assoc. apply take_app_length'. rewrite !length_app. lia. }
  assert (drop 48 (a ++ b ++ c ++ d) = d) as ->.
  { rewrite !app_assoc. apply drop_app_length'. rewrite !length_app. lia. }
  unfold mbind at 1 2, reader_bind at 1 2, from_cursor, MDBShardFileHeader.deserialize, read_u64. rewrite <- (app_nil_r c) at 1.
  rewrite !(bind_read_exact _ 32) by done. destruct (negb _); [done|].
  assert (forall e x, length e = 8 -> read_exact 8 (e ++ x) = Ok (e, x)) as H8 by (intros e x <-; apply read_exact_app).
  unfold mbind, reader_bind. rewrite !(H8 b) by done. unfold mret, reader_ret. by rewrite !(H8 c) by done.
Qed.

(** Some files of the shard have verification entries and some do not. *)
Definition mixed_verification (m : MDBMinimalShard.t) : bool :=
  negb (MDBMinimalShard.all_equal (MDBFileInfoView.contains_verification <$> MDBMinimalShard.file_info_views m)).

(** Too few bytes for a header. *)
Lemma short_shard include_files include_xorb r :
  length r < 48 ->
  MDBMinimalShard.from_reader_async include_files include_xorb r = Err (Io UnexpectedEof) /\
  MDBMinimalShard.from_reader include_files include_xorb r =
    Err (if (32 <=? length r) && negb (bool_decide (take 32 r = MDB_SHARD_HEADER_TAG)) then ShardVersion else Io UnexpectedEof).
Proof.
  intros Hr. split.
  - unfold MDBMinimalShard.from_reader_async, MDBMinimalShard.from_reader_async_with_custom_callbacks, mbind, reader_bind, read_exact.
    by destruct (Nat.leb_spec 48 (length r)); [lia|].
  - unfold MDBMinimalShard.from_reader, MDBShardFileHeader.deserialize, read_u64, mbind, reader_bind, read_exact.
    destruct (Nat.leb_spec 32 (length r)) as [H32|]; [|done]. cbn [andb]. destruct (negb _); [done|].
    destruct (Nat.leb_spec 8 (length (drop 32 r))) as [H40|]; [|done]. cbn [mret reader_ret].
    by destruct (Nat.leb_spec 8 (length (drop 8 (drop 32 r)))) as [H48|]; [rewrite !length_drop in *; lia|].
Qed.

(** C22: the asynchronous readers do what the blocking ones do.  The passes over the sections agree for
    every callback and on every input, cut short or not.  Reading a minimal shard from bytes that have
    a whole header, the readers differ only in that the asynchronous one rejects a shard in which some
    files have verification entries and some do not.  On fewer bytes both fail, the asynchronous one
    always for the end of the bytes, the blocking one for the tag when that is there and wrong. *)
Theorem streaming_readers_agree :
  (forall St (cb : St -> MDBFileInfoView.t -> result CoreError St) s r,
    process_shard_file_info_section_async cb s r = process_shard_file_info_section cb s r) /\
  (forall St (cb : St -> MDBXorbInfoView.t -> result CoreError St) s r,
    process_shard_xorb_info_section_async cb s r = process_shard_xorb_info_section cb s r) /\
  (forall include_files include_xorb r,
    if 48 <=? length r then
      MDBMinimalShard.from_reader_async include_files include_xorb r =
      match MDBMinimalShard.from_reader include_files false r with
      | Ok (m, _) => if mixed_verification m then Err InvalidShard else MDBMinimalShard.from_reader include_files include_xorb r
      | Err e => Err e
      end
    else
      MDBMinimalShard.from_reader_async include_files include_xorb r = Err (Io UnexpectedEof) /\
      MDBMinimalShard.from_reader include_files include_xorb r =
        Err (if (32 <=? length r) && negb (bool_decide (take 32 r = MDB_SHARD_HEADER_TAG)) then ShardVersion else Io UnexpectedEof)).
Proof.
  split_and!; [intros; apply file_pass_async|intros; apply xorb_pass_async|]. intros include_files include_xorb r.
  destruct (Nat.leb_spec 48 (length r)) as [Hr|Hr]; [|by apply short_shard].
  unfold MDBMinimalShard.from_reader_async, MDBMinimalShard.from_reader_async_with_custom_callbacks, MDBMinimalShard.from_reader.
  unfold mbind at 1, reader_bind at 1. rewrite shard_header_buffered by done. unfold mbind, reader_bind, mret, reader_ret.
  destruct (MDBShardFileHeader.deserialize r) as [[h r1]|e]; [|done].
  rewrite file_pass_async, (file_pass_image (fun s => (tt, s)) (fun s fiv => Ok (if include_files then MDBMinimalShard.register_file s fiv else s)))
    by (intros; by destruct include_files).
  unfold mbind at 1, reader_bind at 1.
  destruct (process_shard_file_info_section _ _ r1) as [[[seen files] r2]|e]; [|done].
  unfold mixed_verification. cbn [MDBMinimalShard.file_info_views mret reader_ret].
  replace (negb (bool_decide (files = [])) && _) with (negb (MDBMinimalShard.all_equal (MDBFileInfoView.contains_verification <$> files)))
    by (by destruct files). destruct (negb _); [done|]. destruct include_xorb; [|done].
  rewrite xorb_pass_async, (xorb_pass_image (fun s => (tt, s)) (fun views civ => Ok (views ++ [civ]))) by done.
  unfold mbind, reader_bind. by destruct (process_shard_xorb_info_section _ _ r2) as [[views r3]|e].
Qed.

(** ** Streams that were written *)

Definition file_view (i : MDBFileInfo.t) : MDBFileInfoView.t := MDBFileInfoView.mk (MDBFileInfo.metadata i) (info_bytes i).
Definition xorb_view (x : MDBXorbInfo.t) : MDBXorbInfoView.t := MDBXorbInfoView.mk (MDBXorbInfo.metadata x) (MDBXorbInfo.serialize x).1.
Definition view_shard (files : list MDBFileInfo.t) (xorbs : list MDBXorbInfo.t) : MDBMinimalShard.t :=
  MDBMinimalShard.mk (file_view <$> files) (xorb_view <$> xorbs).

Definition file_section (files : list MDBFileInfo.t) : list byte :=
  concat (info_bytes <$> files) ++ FileDataSequenceHeader.serialize FileDataSequenceHeader.bookend.
Definition xorb_section (xorbs : list MDBXorbInfo.t) : list byte :=
  concat ((fun x => (MDBXorbInfo.serialize x).1) <$> xorbs) ++ XorbChunkSequenceHeader.serialize XorbChunkSequenceHeader.bookend.
Definition stream_bytes (files : list MDBFileInfo.t) (xorbs : list MDBXorbInfo.t) : list byte :=
  (MDBShardFileHeader.serialize MDBShardFileHeader.default).1 ++ file_section files ++ xorb_section xorbs.

Lemma minimal_info_length i : MDBFileInfo.valid i -> length (info_bytes i) = 48 + n_file_bytes (MDBFileInfo.metadata i).
Proof.
  intros (_ & _ & Hn & _ & Hv & He). unfold info_bytes, n_file_bytes, MDB_FILE_INFO_ENTRY_SIZE. cbn zeta.
  rewrite !length_app, !length_concat_encode, encode_length, <- Hn, Nat2Z.id.
  unfold MDBFileInfo.contains_verification, MDBFileInfo.contains_metadata_ext in *.
  destruct (FileDataSequenceHeader.contains_verification _), (FileDataSequenceHeader.contains_metadata_ext _);
    match type of Hv with _ /\ _ => rewrite (proj1 Hv) | _ => rewrite Hv end;
    match type of He with ex _ => destruct He as (e & -> & _) | _ => rewrite He end; rewrite ?encode_length; cbn [length]; lia.
Qed.

Lemma file_view_of_bytes i :
  MDBFileInfo.valid i -> MDBFileInfoView.from_data_and_header (MDBFileInfo.metadata i) (info_bytes i) = Ok (file_view i).
Proof.
  intros Hi. unfold MDBFileInfoView.from_data_and_header. cbn zeta. rewrite (proj2 (Nat.ltb_ge _ _)); [done|].
  rewrite minimal_info_length by done. unfold n_file_bytes, MDB_FILE_INFO_ENTRY_SIZE. lia.
Qed.

Lemma xorb_bytes_split x : (MDBXorbInfo.serialize x).1 = XorbChunkSequenceHeader.serialize (MDBXorbInfo.metadata x) ++ concat (XorbChunkSequenceEntry.serialize <$> MDBXorbInfo.chunks x).
Proof. done. Qed.

Lemma xorb_view_of_bytes x :
  MDBXorbInfo.valid x -> MDBXorbInfoView.from_data_and_header (MDBXorbInfo.metadata x) (MDBXorbInfo.serialize x).1 = Ok (xorb_view x).
Proof.
  intros (_ & _ & Hn & _). unfold MDBXorbInfoView.from_data_and_header. cbn zeta. rewrite (proj2 (Nat.ltb_ge _ _)); [done|].
  rewrite xorb_bytes_split, length_app, encode_length, length_concat_encode. unfold MDB_XORB_INFO_ENTRY_SIZE. lia.
Qed.

Lemma consumes_lift {A} (x : result CoreError A) : consumes 0 (lift x).
Proof. intros r a r'. unfold lift. destruct x; [|done]. by intros [= <- <-]. Qed.
#[local] Hint Resolve consumes_lift : xet_consumes.

Lemma copy_up_to_app bs rest n : length bs = n -> copy_up_to n (bs ++ rest) = Ok (bs, rest).
Proof. intros <-. unfold copy_up_to. by rewrite take_app_length, drop_app_length. Qed.

Lemma file_pass_written {St} (cb : St -> MDBFileInfoView.t -> result CoreError St) (g : St -> MDBFileInfo.t -> St) s files rest :
  Forall MDBFileInfo.valid files -> (forall s i, MDBFileInfo.valid i -> cb s (file_view i) = Ok (g s i)) ->
  process_shard_file_info_section cb s (file_section files ++ rest) = Ok (fold_left g files s, rest).
Proof.
  intros Hf Hcb. unfold file_section. rewrite <- app_assoc. apply (loop_written _ info_bytes MDBFileInfo.valid g (fun s => s)); [| |done|done].
  - apply progresses_of_consumes. intros s'. apply consumes_first; [eapply consumes_weaken; [apply consumes_codec|lia]|]. auto 12 with xet_consumes.
  - clear s Hf files. intros s i r Hi. pose proof Hi as (Hh & Hb & _).
    assert (exists body, info_bytes i = FileDataSequenceHeader.serialize (MDBFileInfo.metadata i) ++ body /\ length body = n_file_bytes (MDBFileInfo.metadata i)) as (body & Eb & Hl).
    { eexists. split; [reflexivity|]. pose proof (minimal_info_length i Hi) as H. unfold info_bytes in H. rewrite length_app, encode_length in H. lia. }
    rewrite Eb, <- app_assoc, (bind_decode (decode := FileDataSequenceHeader.deserialize)) by done. rewrite Hb.
    rewrite (bind_ok _ _ _ _ _ (copy_up_to_app _ _ _ Hl)), <- Eb, file_view_of_bytes by done.
    unfold mbind, reader_bind, lift. by rewrite Hcb.
Qed.

Lemma xorb_pass_written {St} (cb : St -> MDBXorbInfoView.t -> result CoreError St) (g : St -> MDBXorbInfo.t -> St) s xorbs rest :
  Forall MDBXorbInfo.valid xorbs -> (forall s x, MDBXorbInfo.valid x -> cb s (xorb_view x) = Ok (g s x)) ->
  process_shard_xorb_info_section cb s (xorb_section xorbs ++ rest) = Ok (fold_left g xorbs s, rest).
Proof.
  intros Hf Hcb. unfold xorb_section. rewrite <- app_assoc. apply (loop_written _ _ MDBXorbInfo.valid g (fun s => s)); [| |done|done].
  - apply progresses_of_consumes. intros s'. apply consumes_first; [eapply consumes_weaken; [apply consumes_codec|lia]|]. intros h. cbn zeta. auto 12 with xet_consumes.
  - clear s Hf xorbs. intros s x r Hx. pose proof Hx as (Hh & Hb & Hn & _).
    rewrite xorb_bytes_split, <- app_assoc, (bind_decode (decode := XorbChunkSequenceHeader.deserialize)) by done. rewrite Hb.
    erewrite bind_ok by (apply copy_up_to_app; rewrite length_concat_encode; lia). rewrite <- xorb_bytes_split, xorb_view_of_bytes by done.
    unfold mbind, reader_bind, lift. by rewrite Hcb.
Qed.

Abbreviation hash_of i := (FileDataSequenceHeader.file_hash (MDBFileInfo.metadata i)).

Lemma register_all files seen views :
  NoDup ((fun i => hash_of i) <$> files) -> (forall i, i ∈ files -> hash_of i ∉ seen) ->
  (fold_left (fun s i => MDBMinimalShard.register_file s (file_view i)) files (seen, views)).2 = views ++ (file_view <$> files).
Proof.
  revert seen views. induction files as [|i files IH]; intros seen views Hn Hs; cbn [fmap list_fmap fold_left]; [by rewrite app_nil_r|].
  apply NoDup_cons in Hn as [Hi Hn]. unfold MDBMinimalShard.register_file at 2.
  rewrite bool_decide_eq_false_2 by (apply Hs; by left). rewrite IH; [by rewrite <- app_assoc|done|].
  intros j Hj. apply not_elem_of_union. split; [|apply Hs; by right].
  apply not_elem_of_singleton. intros E. apply Hi. apply list_elem_of_fmap. eauto.
Qed.

Lemma push_all xorbs (views : list MDBXorbInfoView.t) : fold_left (fun views x => views ++ [xorb_view x]) xorbs views = views ++ (xorb_view <$> xorbs).
Proof.
  revert views. induction xorbs as [|x xorbs IH]; intros views; cbn [fmap list_fmap fold_left]; [by rewrite app_nil_r|]. by rewrite IH, <- app_assoc.
Qed.

Lemma from_reader_written files xorbs rest :
  Forall MDBFileInfo.valid files -> Forall MDBXorbInfo.valid xorbs -> NoDup ((fun i => hash_of i) <$> files) ->
  MDBMinimalShard.from_reader true true (stream_bytes files xorbs ++ rest) = Ok (view_shard files xorbs, rest).
Proof.
  intros Hf Hx Hn. unfold MDBMinimalShard.from_reader, stream_bytes. rewrite <- !app_assoc.
  erewrite bind_ok by by apply shard_header_written.
  erewrite bind_ok by by apply (file_pass_written _ (fun s i => MDBMinimalShard.register_file s (file_view i))).
  pose proof (register_all files ∅ [] Hn ltac:(set_solver)) as Hr. destruct (fold_left _ files _) as [seen views]. cbn [snd] in Hr. subst views.
  erewrite bind_ok by by apply (xorb_pass_written _ (fun views x => views ++ [xorb_view x])). by rewrite push_all.
Qed.

(** ** The starts of files *)

Definition first_start (i : MDBFileInfo.t) : option (DataHash * nat) :=
  (fun e => (FileDataSequenceEntry.xorb_hash e, Z.to_nat (FileDataSequenceEntry.chunk_index_start e))) <$> head (MDBFileInfo.segments i).

Definition starts_of (files : list MDBFileInfo.t) : list (DataHash * nat) := omap first_start files.

Lemma dedup_elem l k : k ∈ dedup l <-> k ∈ l.
Proof.
  induction l as [|a [|b l] IH]; [done|done|]. cbn [dedup]. destruct (Nat.eqb_spec a b) as [->|Hne].
  - rewrite IH. rewrite !elem_of_cons. tauto.
  - rewrite (elem_of_cons _ k a), IH. by rewrite (elem_of_cons _ k a).
Qed.

Lemma add_starts (es : list FileDataSequenceEntry.t) (m : gmap DataHash (list nat)) h k :
  k ∈ from_option id [] (fold_left (fun starts entry =>
      partial_alter (fun v => Some (from_option id [] v ++ [Z.to_nat (FileDataSequenceEntry.chunk_index_start entry)]))
        (FileDataSequenceEntry.xorb_hash entry) starts) es m !! h) <->
  k ∈ from_option id [] (m !! h) \/
  (h, k) ∈ (fun e => (FileDataSequenceEntry.xorb_hash e, Z.to_nat (FileDataSequenceEntry.chunk_index_start e))) <$> es.
Proof.
  revert m. induction es as [|e es IH]; intros m; cbn [fold_left fmap list_fmap];
    [split; [by left|by intros [?|?%not_elem_of_nil]]|]. rewrite IH, elem_of_cons.
  destruct (decide (FileDataSequenceEntry.xorb_hash e = h)) as [<-|Hne].
  - rewrite lookup_partial_alter_eq. cbn [from_option]. unfold id at 1. rewrite elem_of_app, list_elem_of_singleton.
    split; [intros [[?| ->]|?]; auto|intros [?|[[= ->]|?]]; auto].
  - rewrite lookup_partial_alter_ne by done. split; [intros [?|?]; auto|]. intros [?|[E|?]]; [by left|by injection E as Eh _; destruct Hne|by right].
Qed.

Lemma file_view_entries i : MDBFileInfo.valid i -> MDBFileInfoView.num_entries (file_view i) = length (MDBFileInfo.segments i).
Proof. intros (_ & _ & Hn & _). unfold MDBFileInfoView.num_entries. cbn. lia. Qed.

Lemma file_view_entry i k e : MDBFileInfo.valid i -> MDBFileInfo.segments i !! k = Some e -> MDBFileInfoView.entry (file_view i) k = Some e.
Proof. intros Hi He. unfold file_view. rewrite <- (app_nil_r (info_bytes i)). by apply view_entry. Qed.

Lemma first_entries files :
  Forall MDBFileInfo.valid files ->
  mapM (fun fv => MDBFileInfoView.entry fv 0) (filter (fun fv => 0 < MDBFileInfoView.num_entries fv) (file_view <$> files)) =
  Some (omap (fun i => head (MDBFileInfo.segments i)) files).
Proof.
  induction 1 as [|i files Hi Hf IH]; [done|]. cbn [fmap list_fmap omap list_omap]. rewrite filter_cons, file_view_entries by done.
  destruct (MDBFileInfo.segments i) as [|e es] eqn:Es; cbn [length head].
  - rewrite decide_False by lia. exact IH.
  - rewrite decide_True by lia. cbn [mapM]. rewrite (file_view_entry i 0 e) by (done || by rewrite Es). cbn [mbind option_bind].
    by rewrite IH.
Qed.

Lemma file_start_entries_spec files xorbs :
  Forall MDBFileInfo.valid files ->
  exists starts, MDBMinimalShard.file_start_entries (view_shard files xorbs) = Some starts /\
    forall h k, k ∈ from_option id [] (starts !! h) <-> (h, k) ∈ starts_of files.
Proof.
  intros Hf. unfold MDBMinimalShard.file_start_entries. cbn [MDBMinimalShard.file_info_views view_shard]. rewrite first_entries by done.
  cbn [mbind option_bind]. eexists. split; [done|]. intros h k. rewrite lookup_fmap.
  pose proof (add_starts (omap (fun i => head (MDBFileInfo.segments i)) files) ∅ h k) as H. rewrite lookup_empty in H.
  cbn [from_option] in H. unfold id at 2 in H.
  set (m := fold_left _ _ _) in *. transitivity (k ∈ from_option id [] (m !! h)).
  - destruct (m !! h) as [l|]; [|done]. cbn [fmap option_fmap option_map from_option]. unfold id. by rewrite dedup_elem, merge_sort_Permutation.
  - rewrite H. unfold starts_of, first_start. rewrite list_elem_of_omap, list_elem_of_fmap. setoid_rewrite list_elem_of_omap. split.
    + intros [?%not_elem_of_nil|(e & E & i & Hi & He)]; [done|]. exists i. rewrite He. cbn. by rewrite E.
    + intros (i & Hi & E). right. destruct (head (MDBFileInfo.segments i)) as [e|] eqn:Eh; [|done]. injection E as <- <-. eauto.
Qed.

(** ** What is written from views *)

(** The file information without its verification entries. *)
Definition stripped (i : MDBFileInfo.t) : MDBFileInfo.t :=
  if MDBFileInfo.contains_verification i then
    match FileDataSequenceHeader.new (hash_of i) (FileDataSequenceHeader.num_entries (MDBFileInfo.metadata i)) false (MDBFileInfo.contains_metadata_ext i) with
    | Some m => without_verification i m
    | None => i
    end
  else i.

Definition kept_file (with_verification : bool) (i : MDBFileInfo.t) : MDBFileInfo.t := if with_verification then i else stripped i.

(** The xorb with the chunks that start a file flagged. *)
Definition flag_starts (starts : list (DataHash * nat)) (x : MDBXorbInfo.t) : MDBXorbInfo.t :=
  MDBXorbInfo.mk (MDBXorbInfo.metadata x) (imap (fun idx chunk =>
    if bool_decide ((XorbChunkSequenceHeader.xorb_hash (MDBXorbInfo.metadata x), idx) ∈ starts)
    then XorbChunkSequenceEntry.with_global_dedup_flag chunk true else chunk) (MDBXorbInfo.chunks x)).

Lemma view_byte_size i w :
  MDBFileInfo.valid i -> (MDBFileInfo.contains_verification i = true -> w = true) -> MDBFileInfoView.byte_size (file_view i) w = length (info_bytes i).
Proof.
  intros Hi Hw. rewrite minimal_info_length by done. unfold MDBFileInfoView.byte_size, n_file_bytes, MDB_FILE_INFO_ENTRY_SIZE. cbn zeta.
  unfold MDBFileInfo.contains_verification in Hw. unfold MDBFileInfoView.contains_verification, MDBFileInfoView.contains_metadata_ext, MDBFileInfoView.num_entries.
  cbn [MDBFileInfoView.header file_view]. destruct (FileDataSequenceHeader.contains_verification _); [rewrite Hw by done|rewrite andb_false_r];
    destruct (FileDataSequenceHeader.contains_metadata_ext _); cbn [andb]; lia.
Qed.

Lemma view_written i w :
  MDBFileInfo.valid i -> (w = true -> MDBFileInfo.contains_verification i = true) ->
  MDBFileInfo.valid (kept_file w i) /\
  MDBFileInfoView.serialize (file_view i) w = Ok (info_bytes (kept_file w i), length (info_bytes (kept_file w i))) /\
  length (info_bytes (kept_file w i)) = MDBFileInfoView.byte_size (file_view i) w.
Proof.
  intros Hi Hw. assert (MDBFileInfoView.contains_verification (file_view i) = MDBFileInfo.contains_verification i) as Ec by done.
  destruct (MDBFileInfo.contains_verification i) eqn:Hc; [destruct w|destruct w; [by specialize (Hw eq_refl)|]].
  - unfold kept_file, MDBFileInfoView.serialize. rewrite Ec. cbn [negb andb]. split_and!; [done..|by rewrite view_byte_size].
  - unfold kept_file, stripped. rewrite Hc. pose proof Hi as ((_ & _ & Hu & _) & _).
    destruct (new_total (hash_of i) _ false (MDBFileInfo.contains_metadata_ext i) Hu) as [m Hm]. rewrite Hm.
    destruct (view_strip_bytes i m Hi Hc Hm) as [H1 H2]. unfold file_view. rewrite H1, H2. split_and!; [by apply without_verification_valid|done..].
  - unfold kept_file, stripped. rewrite Hc. unfold MDBFileInfoView.serialize. rewrite Ec. cbn [negb andb]. split_and!; [done..|].
    rewrite view_byte_size by (done || by rewrite Hc). done.
Qed.

Definition segments_sum (acc : Z) (i : MDBFileInfo.t) : Z :=
  fold_left (fun acc e => wrap64 (acc + FileDataSequenceEntry.unpacked_segment_bytes e)) (MDBFileInfo.segments i) acc.

Lemma save_files_written w files out bytes acc :
  Forall MDBFileInfo.valid files -> (w = true -> Forall (fun i => MDBFileInfo.contains_verification i = true) files) ->
  let section := concat (info_bytes <$> (kept_file w <$> files)) in
  MDBMinimalShard.save_files w (file_view <$> files) out bytes acc =
  Some (Ok (out ++ section, bytes + length section, fold_left segments_sum files acc)).
Proof.
  intros Hf Hw. revert out bytes acc. induction Hf as [|i files Hi Hf IH]; intros out bytes acc; cbn [fmap list_fmap MDBMinimalShard.save_files concat fold_left].
  - by rewrite app_nil_r, Nat.add_0_r.
  - destruct (view_written i w Hi) as (_ & Hs & _). { intros E. by apply Forall_cons in Hw as [? _]. }
    rewrite file_view_entries, (mapM_seq _ (MDBFileInfo.segments i)) by (done || intros; by apply file_view_entry). cbn [mbind option_bind].
    rewrite Hs. cbn zeta in IH. rewrite IH by (intros E; by apply Forall_cons in Hw as [_ ?]).
    by rewrite <- app_assoc, length_app, Nat.add_assoc.
Qed.

Lemma xorb_view_serialize x : MDBXorbInfo.valid x -> MDBXorbInfoView.serialize (xorb_view x) = ((MDBXorbInfo.serialize x).1, length (MDBXorbInfo.serialize x).1).
Proof.
  intros (_ & _ & Hn & _). unfold MDBXorbInfoView.serialize, MDBXorbInfoView.byte_size, MDBXorbInfoView.num_entries. cbn [MDBXorbInfoView.header MDBXorbInfoView.data xorb_view].
  assert (length (MDBXorbInfo.serialize x).1 = MDB_XORB_INFO_ENTRY_SIZE + Z.to_nat (XorbChunkSequenceHeader.num_entries (MDBXorbInfo.metadata x)) * MDB_XORB_INFO_ENTRY_SIZE) as Hl.
  { rewrite xorb_bytes_split, length_app, encode_length, length_concat_encode. unfold MDB_XORB_INFO_ENTRY_SIZE. lia. }
  by rewrite <- Hl, firstn_all.
Qed.

Lemma xorb_view_entries x : MDBXorbInfo.valid x -> MDBXorbInfoView.num_entries (xorb_view x) = length (MDBXorbInfo.chunks x).
Proof. intros Hx. by apply xorb_view_num_entries. Qed.

Lemma xorb_view_chunks x idx c : MDBXorbInfo.valid x -> MDBXorbInfo.chunks x !! idx = Some c -> MDBXorbInfoView.chunk (xorb_view x) idx = Some c.
Proof. intros Hx Hc. unfold xorb_view. rewrite <- (app_nil_r (MDBXorbInfo.serialize x).1). by apply xorb_view_chunk. Qed.

Lemma xorb_view_rewrite x f :
  MDBXorbInfo.valid x ->
  let x' := MDBXorbInfo.mk (MDBXorbInfo.metadata x) (imap f (MDBXorbInfo.chunks x)) in
  MDBXorbInfoView.serialize_with_chunk_rewrite (xorb_view x) f = Some ((MDBXorbInfo.serialize x').1, length (MDBXorbInfo.serialize x').1).
Proof.
  intros Hx x'. unfold MDBXorbInfoView.serialize_with_chunk_rewrite. rewrite xorb_view_entries by done.
  rewrite (mapM_imap_seq _ f (MDBXorbInfo.chunks x)) by (intros; by apply xorb_view_chunks). cbn [mbind option_bind]. subst x'.
  rewrite xorb_bytes_split, length_app, encode_length, length_concat_encode. done.
Qed.

Lemma flag_starts_valid starts x : MDBXorbInfo.valid x -> MDBXorbInfo.valid (flag_starts starts x).
Proof.
  intros (Hh & Hb & Hn & Hc). unfold MDBXorbInfo.valid, flag_starts. cbn [MDBXorbInfo.metadata MDBXorbInfo.chunks]. rewrite length_imap.
  split_and!; [done..|]. apply Forall_lookup. intros idx c Hl. rewrite list_lookup_imap in Hl.
  destruct (MDBXorbInfo.chunks x !! idx) as [c0|] eqn:E; [|done]. injection Hl as <-. pose proof (Forall_lookup_1 _ _ _ _ Hc E) as Hc0.
  case_bool_decide; [|done]. destruct Hc0 as (? & ? & ? & ? & ?). unfold XorbChunkSequenceEntry.with_global_dedup_flag, XorbChunkSequenceEntry.valid.
  cbn. split_and!; try done. by apply lor_is_u32.
Qed.

Definition written_xorbs (xorb_filter_fn : MDBXorbInfoView.t -> bool) (starts : list (DataHash * nat)) (xorbs : list MDBXorbInfo.t) : list MDBXorbInfo.t :=
  flag_starts starts <$> filter (fun x => xorb_filter_fn (xorb_view x) = true) xorbs.

Lemma save_xorbs_written f m starts xorbs out bytes disk stored :
  Forall MDBXorbInfo.valid xorbs -> (forall h k, k ∈ from_option id [] (m !! h) <-> (h, k) ∈ starts) ->
  let section := concat ((fun x => (MDBXorbInfo.serialize x).1) <$> written_xorbs f starts xorbs) in
  exists disk' stored', MDBMinimalShard.save_xorbs f m (xorb_view <$> xorbs) out bytes disk stored =
    Some (out ++ section, bytes + length section, disk', stored') /\ (is_u64 disk -> is_u64 disk') /\ (is_u64 stored -> is_u64 stored').
Proof.
  intros Hx Hm. unfold written_xorbs. revert out bytes disk stored.
  induction Hx as [|x xorbs Hx Hxs IH]; intros out bytes disk stored; cbn [fmap list_fmap MDBMinimalShard.save_xorbs concat].
  - exists disk, stored. cbn. by rewrite app_nil_r, Nat.add_0_r.
  - rewrite filter_cons. destruct (f (xorb_view x)) eqn:Ef; cbn [negb]; [rewrite decide_True by done|rewrite decide_False by done; apply IH].
    assert (match m !! MDBXorbInfoView.xorb_hash (xorb_view x) with
      | Some gde_indices => MDBXorbInfoView.serialize_with_chunk_rewrite (xorb_view x) (fun idx chunk =>
          if bool_decide (idx ∈ gde_indices) then XorbChunkSequenceEntry.with_global_dedup_flag chunk true else chunk)
      | None => Some (MDBXorbInfoView.serialize (xorb_view x))
      end = Some ((MDBXorbInfo.serialize (flag_starts starts x)).1, length (MDBXorbInfo.serialize (flag_starts starts x)).1)) as ->.
    { change (MDBXorbInfoView.xorb_hash (xorb_view x)) with (XorbChunkSequenceHeader.xorb_hash (MDBXorbInfo.metadata x)).
      specialize (Hm (XorbChunkSequenceHeader.xorb_hash (MDBXorbInfo.metadata x))). unfold flag_starts. destruct (m !! _) as [gde|]; cbn [from_option] in Hm.
      - rewrite xorb_view_rewrite by done. cbn zeta. erewrite (imap_ext (fun idx chunk => if bool_decide (idx ∈ gde) then _ else _)); [reflexivity|].
        intros k c _. cbn. by rewrite (bool_decide_ext _ _ (Hm k)).
      - rewrite xorb_view_serialize by done. assert (imap (fun idx chunk => if bool_decide ((XorbChunkSequenceHeader.xorb_hash (MDBXorbInfo.metadata x), idx) ∈ starts)
          then XorbChunkSequenceEntry.with_global_dedup_flag chunk true else chunk) (MDBXorbInfo.chunks x) = MDBXorbInfo.chunks x) as ->; [|by destruct x].
        apply list_eq. intros k. rewrite list_lookup_imap. destruct (MDBXorbInfo.chunks x !! k) as [c|]; [|done]. cbn.
        rewrite bool_decide_eq_false_2; [done|]. by rewrite <- Hm; intros ?%not_elem_of_nil. }
    cbn [mbind option_bind fmap list_fmap concat]. edestruct IH as (disk' & stored' & -> & H1 & H2). exists disk', stored'.
    rewrite <- app_assoc, length_app, Nat.add_assoc. split_and!; [done|intros; apply H1, wrap64_is_u64|intros; apply H2, wrap64_is_u64].
Qed.

Lemma stream_bytes_length files xorbs :
  length (stream_bytes files xorbs) =
  48 + length (concat (info_bytes <$> files)) + 48 + length (concat ((fun x => (MDBXorbInfo.serialize x).1) <$> xorbs)) + 48.
Proof.
  unfold stream_bytes, file_section, xorb_section. rewrite !length_app, (encode_length (encode := FileDataSequenceHeader.serialize)),
    (encode_length (encode := XorbChunkSequenceHeader.serialize)), default_header_length. lia.
Qed.

Definition expiry_seconds (expiry : option Z) : Z := match expiry with Some t => Z.max 0 (t / 10 ^ 9) | None => 0 end.

Lemma serialize_impl_written now files xorbs with_file_section w expiry f :
  Forall MDBFileInfo.valid files -> Forall MDBXorbInfo.valid xorbs ->
  (with_file_section = true -> w = true -> Forall (fun i => MDBFileInfo.contains_verification i = true) files) ->
  is_u64 now -> is_u64 (expiry_seconds expiry) ->
  let fs := if with_file_section then kept_file w <$> files else [] in
  let xs := written_xorbs f (starts_of files) xorbs in
  (Z.of_nat (length (stream_bytes fs xs)) < 2 ^ 64)%Z ->
  exists footer, MDBMinimalShard.serialize_impl now (view_shard files xorbs) with_file_section w expiry f =
      Some (Ok (stream_bytes fs xs ++ (MDBShardFileFooter.serialize footer).1, length (stream_bytes fs xs) + MDB_SHARD_FOOTER_SIZE)) /\
    footer_wf footer /\ MDBShardFileFooter.file_info_offset footer = 48%Z /\
    MDBShardFileFooter.xorb_info_offset footer = Z.of_nat (48 + length (file_section fs)) /\
    MDBShardFileFooter.shard_key_expiry footer = expiry_seconds expiry.
Proof.
  intros Hf Hx Hw Hnow Hexp fs xs Hlen. unfold MDBMinimalShard.serialize_impl.
  destruct (file_start_entries_spec files xorbs Hf) as (starts & -> & Hstarts). cbn [mbind option_bind MDBShardFileHeader.serialize].
  assert (forall out bytes, exists acc, is_u64 acc /\
    MDBMinimalShard.save_files w (if with_file_section then MDBMinimalShard.file_info_views (view_shard files xorbs) else []) out bytes 0 =
    Some (Ok (out ++ concat (info_bytes <$> fs), bytes + length (concat (info_bytes <$> fs)), acc))) as Hs.
  { intros out bytes. subst fs. destruct with_file_section; cbn [MDBMinimalShard.file_info_views view_shard].
    - rewrite save_files_written by auto. eexists. split; [|done].
      assert (forall l a, is_u64 a -> is_u64 (fold_left segments_sum l a)) as Ha; [|by apply Ha].
      induction l as [|i l IH]; intros a Ha; [done|]. cbn [fold_left]. apply IH. unfold segments_sum. by apply fold_is_u64.
    - exists 0%Z. cbn. by rewrite app_nil_r, Nat.add_0_r. }
  destruct (Hs (MDBShardFileHeader.serialize MDBShardFileHeader.default).1 48) as (acc & Hacc & Es). unfold MDBShardFileHeader.serialize in Es.
  cbn [fst] in Es. rewrite Es. cbn [mbind option_bind]. cbn [MDBMinimalShard.xorb_info_views view_shard].
  edestruct (save_xorbs_written f starts (starts_of files) xorbs) as (disk & stored & -> & Hd & Hst); [done..|]. cbn [mbind option_bind].
  cbn zeta. match goal with |- context [MDBShardFileFooter.serialize ?F] => exists F end. split; [|split; [|split; [|split]]].
  2: { rewrite stream_bytes_length in Hlen. unfold footer_wf. footer_fields. fold xs.
    split_and!; first [done|by apply Hd|by apply Hst|by (unfold is_u64; lia)|repeat constructor; unfold is_u64; lia]. }
  2: done. 3: done.
  - cbn [MDBShardFileFooter.serialize fst]. do 3 f_equal.
    + unfold stream_bytes, file_section, xorb_section, MDBShardFileHeader.serialize. cbn [fst]. fold xs. by rewrite <- !app_assoc.
    + rewrite stream_bytes_length. fold xs. unfold MDB_SHARD_FOOTER_SIZE. lia.
  - footer_fields. unfold file_section. rewrite length_app, (encode_length (encode := FileDataSequenceHeader.serialize)). lia.
Qed.

(** A shard without lookup tables reads back. *)
Lemma stream_read `{Blake3} files xorbs footer :
  Forall MDBFileInfo.valid files -> Forall MDBXorbInfo.valid xorbs -> footer_wf footer ->
  MDBShardFileFooter.file_info_offset footer = 48%Z -> MDBShardFileFooter.xorb_info_offset footer = Z.of_nat (48 + length (file_section files)) ->
  let out := stream_bytes files xorbs ++ (MDBShardFileFooter.serialize footer).1 in
  let info := MDBShardInfo.mk MDBShardFileHeader.default footer in
  MDBShardInfo.load_from_reader out = Ok info /\
  MDBShardInfo.read_all_file_info_sections info out = Ok files /\ MDBShardInfo.read_all_xorb_blocks_full info out = Ok xorbs.
Proof.
  intros Hf Hx Hw H1 H2 out info. split_and!.
  - unfold MDBShardInfo.load_from_reader. assert (header_wf MDBShardFileHeader.default) as Hh by done.
    subst out. unfold stream_bytes. rewrite <- app_assoc, (shard_header_written _ _ Hh), result_bind_Ok. rewrite app_assoc.
    rewrite seek_from_end_app by by apply shard_footer_length. rewrite result_bind_Ok.
    rewrite <- (app_nil_r (MDBShardFileFooter.serialize _).1), shard_footer_written by done. by rewrite result_bind_Ok.
  - unfold MDBShardInfo.read_all_file_info_sections, info. cbn [MDBShardInfo.metadata]. rewrite H1. subst out. unfold stream_bytes. rewrite <- app_assoc.
    rewrite seek_to_app by done. unfold file_section. rewrite <- !app_assoc.
    rewrite (while_some_written _ info_bytes MDBFileInfo.valid); [done|..|apply file_bookend_read|done].
    + intros r a r' E%file_info_consumes. lia.
    + intros a r Ha. rewrite <- serialize_bytes by done. by apply deserialize_serialize.
  - unfold MDBShardInfo.read_all_xorb_blocks_full, info, MDBShardInfo.xorb_info_byte_range. cbn [MDBShardInfo.metadata]. rewrite H2. subst out. unfold stream_bytes.
    rewrite app_assoc, <- app_assoc, seek_to_app by (by rewrite length_app, default_header_length). unfold xorb_section. rewrite <- !app_assoc.
    rewrite (while_some_written _ _ MDBXorbInfo.valid); [done|..|apply xorb_bookend_read|done].
    + intros r a r' E%xorb_info_consumes. lia.
    + intros a r Ha. by apply xorb_deserialize_serialize.
Qed.

Lemma kept_files_length w files :
  Forall MDBFileInfo.valid files -> (w = true -> Forall (fun i => MDBFileInfo.contains_verification i = true) files) ->
  length (concat (info_bytes <$> (kept_file w <$> files))) <= length (concat (info_bytes <$> files)) /\
  Forall MDBFileInfo.valid (kept_file w <$> files) /\
  forall acc, fold_left (fun acc fiv => acc + MDBFileInfoView.byte_size fiv w) (file_view <$> files) acc =
    acc + length (concat (info_bytes <$> (kept_file w <$> files))).
Proof.
  intros Hf Hw. induction Hf as [|i files Hi Hf IH]; [by split_and!; [|constructor|intros; cbn; lia]|].
  destruct (view_written i w Hi) as (Hv & _ & Hl). { intros E. by apply Forall_cons in Hw as [? _]. }
  destruct IH as (H1 & H2 & H3). { intros E. by apply Forall_cons in Hw as [_ ?]. }
  cbn [fmap list_fmap concat]. rewrite !length_app. split_and!.
  - enough (MDBFileInfoView.byte_size (file_view i) w <= MDBFileInfoView.byte_size (file_view i) true) as H.
    { rewrite (view_byte_size i true) in H by done. lia. }
    unfold MDBFileInfoView.byte_size. destruct w; cbn [andb]; lia.
  - by constructor.
  - intros acc. cbn [fold_left]. rewrite H3. lia.
Qed.

Lemma flagged_length starts x : length (MDBXorbInfo.serialize (flag_starts starts x)).1 = length (MDBXorbInfo.serialize x).1.
Proof. rewrite !xorb_bytes_split, !length_app, !encode_length, !length_concat_encode. unfold flag_starts. cbn [MDBXorbInfo.chunks]. by rewrite length_imap. Qed.

Lemma written_xorbs_length f starts xorbs :
  length (concat ((fun x => (MDBXorbInfo.serialize x).1) <$> written_xorbs f starts xorbs)) <= length (concat ((fun x => (MDBXorbInfo.serialize x).1) <$> xorbs)).
Proof.
  unfold written_xorbs. induction xorbs as [|x xorbs IH]; [done|]. rewrite filter_cons. destruct (decide _); cbn [fmap list_fmap concat];
    rewrite !length_app, ?flagged_length; lia.
Qed.

Lemma written_xorbs_valid f starts xorbs : Forall MDBXorbInfo.valid xorbs -> Forall MDBXorbInfo.valid (written_xorbs f starts xorbs).
Proof.
  intros Hx. apply Forall_fmap. rewrite Forall_forall in *. intros x [_ H]%list_elem_of_filter. apply flag_starts_valid. auto.
Qed.

Lemma xorb_sizes xorbs starts acc :
  Forall MDBXorbInfo.valid xorbs ->
  fold_left (fun acc civ => acc + MDBXorbInfoView.byte_size civ) (xorb_view <$> xorbs) acc =
  acc + length (concat ((fun x => (MDBXorbInfo.serialize x).1) <$> (flag_starts starts <$> xorbs))).
Proof.
  intros Hx. revert acc. induction Hx as [|x xorbs Hx Hxs IH]; intros acc; cbn [fmap list_fmap fold_left concat]; [cbn; lia|].
  rewrite IH, length_app, flagged_length. pose proof (xorb_view_serialize x Hx) as E. apply (f_equal snd) in E. cbn [snd MDBXorbInfoView.serialize] in E. rewrite E. lia.
Qed.

(** The sections of a shard written from memory. *)
Lemma shard_bytes_stream `{SortUnstable (Z * Z)} key creation key_expiry mdb :
  storable mdb -> exists rest,
    shard_bytes key creation key_expiry mdb = stream_bytes (MDBInMemoryShard.file_content mdb).*2 (MDBInMemoryShard.xorb_content mdb).*2 ++ rest.
Proof.
  intros Hs. exists (tables_section mdb ++ (MDBShardFileFooter.serialize (footer_of key creation key_expiry mdb)).1).
  unfold shard_bytes, stream_bytes. rewrite <- !app_assoc.
  assert (files_section mdb = file_section (MDBInMemoryShard.file_content mdb).*2) as ->.
  { unfold files_section, file_section. rewrite <- list_fmap_compose. f_equal. f_equal. apply Forall_fmap_ext_1.
    eapply Forall_impl; [apply (storable_files _ Hs)|]. intros e He. by apply serialize_bytes. }
  assert (xorbs_section mdb = xorb_section (MDBInMemoryShard.xorb_content mdb).*2) as ->; [|done].
  unfold xorbs_section, xorb_section. by rewrite <- list_fmap_compose.
Qed.

Lemma stored_hashes mdb : storable mdb -> NoDup ((fun i => hash_of i) <$> (MDBInMemoryShard.file_content mdb).*2).
Proof.
  intros [Hwf _ _ _ _]. rewrite <- list_fmap_compose. assert ((fun i => hash_of i) ∘ snd <$> MDBInMemoryShard.file_content mdb = (MDBInMemoryShard.file_content mdb).*1) as ->.
  - apply list_fmap_ext. intros _ e He%list_elem_of_lookup_2. cbn. apply (wf_file_keys _ Hwf), sorted_lookup; [by apply wf_files_sorted|]. by destruct e.
  - apply sorted_NoDup, Hwf.
Qed.

Lemma stored_length `{SortUnstable (Z * Z)} mdb :
  storable mdb -> (Z.of_nat (length (stream_bytes (MDBInMemoryShard.file_content mdb).*2 (MDBInMemoryShard.xorb_content mdb).*2)) < 2 ^ 64 - 200)%Z.
Proof.
  intros Hs. destruct (shard_bytes_stream DataHash.default 0 0 mdb Hs) as (rest & Er).
  pose proof (shard_bytes_length DataHash.default 0 0 mdb (footer_of_wf DataHash.default 0 0 mdb Hs ltac:(done) ltac:(done) ltac:(done))) as Hl.
  rewrite Er, length_app in Hl. pose proof (table_bounds mdb Hs). unfold footer_of, MDB_SHARD_FOOTER_SIZE in Hl. footer_fields.
  cbn [MDBShardFileFooter.footer_offset] in Hl. lia.
Qed.

(** ** Chunks for global deduplication *)

(** The hashes of the chunks that are eligible themselves or start a file. *)
Definition eligible (files : list MDBFileInfo.t) (xorbs : list MDBXorbInfo.t) (h : DataHash) : Prop :=
  exists x idx c, x ∈ xorbs /\ MDBXorbInfo.chunks x !! idx = Some c /\ XorbChunkSequenceEntry.chunk_hash c = h /\
    (XorbChunkSequenceEntry.is_global_dedup_eligible c = true \/
     (XorbChunkSequenceHeader.xorb_hash (MDBXorbInfo.metadata x), idx) ∈ starts_of files).

Lemma eligible_cons files x xorbs h : eligible files (x :: xorbs) h <-> eligible files [x] h \/ eligible files xorbs h.
Proof.
  unfold eligible. split.
  - intros (y & k & c & [->|Hy]%elem_of_cons & H); [left; exists x|right; exists y]; exists k, c; split; auto using list_elem_of_here.
  - intros [(y & k & c & ->%list_elem_of_singleton & H)|(y & k & c & Hy & H)]; [exists x|exists y]; exists k, c; split; auto using list_elem_of_here, list_elem_of_further.
Qed.

Lemma mapM_chunks x l :
  MDBXorbInfo.valid x -> Forall (fun k => k < length (MDBXorbInfo.chunks x)) l ->
  exists cs, mapM (MDBXorbInfoView.chunk (xorb_view x)) l = Some cs /\ forall c, c ∈ cs <-> exists k, k ∈ l /\ MDBXorbInfo.chunks x !! k = Some c.
Proof.
  intros Hx Hl. induction Hl as [|k l Hk Hl (cs & Ecs & Hcs)].
  - exists []. split; [done|]. intros c. split; [by intros ?%not_elem_of_nil|]. by intros (k & ?%not_elem_of_nil & _).
  - destruct (lookup_lt_is_Some_2 _ _ Hk) as [c Hc]. exists (c :: cs). cbn [mapM]. rewrite (xorb_view_chunks x k c Hx Hc). cbn [mbind option_bind].
    rewrite Ecs. split; [done|]. intros c'. rewrite elem_of_cons, Hcs. setoid_rewrite elem_of_cons. split.
    + intros [->|(j & Hj & Ej)]; eauto.
    + intros (j & [->|Hj] & Ej); [left; congruence|eauto].
Qed.

Lemma eligible_of_xorb_spec m files x :
  MDBXorbInfo.valid x -> (forall h k, k ∈ from_option id [] (m !! h) <-> (h, k) ∈ starts_of files) ->
  exists hs, MDBMinimalShard.eligible_of_xorb m (xorb_view x) = Some hs /\ forall h, h ∈ hs <-> eligible files [x] h.
Proof.
  intros Hx Hm. unfold MDBMinimalShard.eligible_of_xorb. rewrite xorb_view_entries by done.
  change (MDBXorbInfoView.xorb_hash (xorb_view x)) with (XorbChunkSequenceHeader.xorb_hash (MDBXorbInfo.metadata x)).
  destruct (mapM_chunks x (filter (fun k => k < length (MDBXorbInfo.chunks x))
    (from_option id [] (m !! XorbChunkSequenceHeader.xorb_hash (MDBXorbInfo.metadata x)))) Hx) as (cs & -> & Hcs).
  { apply Forall_forall. by intros k [? _]%list_elem_of_filter. }
  destruct (mapM_chunks x (seq 0 (length (MDBXorbInfo.chunks x))) Hx) as (cs' & -> & Hcs').
  { apply Forall_forall. intros k Hk%elem_of_seq. lia. }
  cbn [mbind option_bind]. eexists. split; [done|]. intros h. rewrite list_elem_of_fmap. setoid_rewrite elem_of_app.
  setoid_rewrite list_elem_of_filter. setoid_rewrite Hcs. setoid_rewrite Hcs'. setoid_rewrite list_elem_of_filter. setoid_rewrite Hm. split.
  - intros (c & -> & [(k & [_ Hk] & Hc)|[He (k & _ & Hc)]]); exists x, k, c; split_and!; auto using list_elem_of_here.
  - intros (x' & k & c & ->%list_elem_of_singleton & Hc & <- & H). exists c. split; [done|]. destruct H as [H|H].
    + right. split; [done|]. exists k. split; [|done]. apply elem_of_seq. apply lookup_lt_Some in Hc. lia.
    + left. exists k. split; [|done]. split; [|done]. by apply lookup_lt_Some in Hc.
Qed.

Lemma eligible_chunks_spec files xorbs :
  Forall MDBFileInfo.valid files -> Forall MDBXorbInfo.valid xorbs ->
  exists s, MDBMinimalShard.global_dedup_eligible_chunks (view_shard files xorbs) = Some s /\ forall h, h ∈ s <-> eligible files xorbs h.
Proof.
  intros Hf Hx. unfold MDBMinimalShard.global_dedup_eligible_chunks. destruct (file_start_entries_spec files xorbs Hf) as (m & -> & Hm).
  cbn [mbind option_bind MDBMinimalShard.xorb_info_views view_shard].
  assert (exists hss, mapM (MDBMinimalShard.eligible_of_xorb m) (xorb_view <$> xorbs) = Some hss /\ forall h, h ∈ concat hss <-> eligible files xorbs h) as (hss & -> & H).
  { induction Hx as [|x xorbs Hx Hxs (hss & E & IH)].
    - exists []. split; [done|]. intros h. split; [by intros ?%not_elem_of_nil|]. by intros (x & k & c & ?%not_elem_of_nil & _).
    - destruct (eligible_of_xorb_spec m files x Hx Hm) as (hs & Ehs & Hhs). exists (hs :: hss). cbn [fmap list_fmap mapM]. rewrite Ehs. cbn [mbind option_bind].
      rewrite E. split; [done|]. intros h. cbn [concat]. by rewrite elem_of_app, Hhs, IH, <- eligible_cons. }
  cbn [mbind option_bind]. eexists. split; [done|]. intros h. by rewrite elem_of_list_to_set.
Qed.

Lemma flagged_eligible c (b : bool) : is_u32 (XorbChunkSequenceEntry.flags c) ->
  XorbChunkSequenceEntry.is_global_dedup_eligible (if b then XorbChunkSequenceEntry.with_global_dedup_flag c true else c) = true <->
  XorbChunkSequenceEntry.is_global_dedup_eligible c = true \/ b = true.
Proof.
  intros Hu. destruct b; [|split; [by left|by intros [?|?]]]. split; [by right|]. intros _. unfold XorbChunkSequenceEntry.is_global_dedup_eligible, XorbChunkSequenceEntry.with_global_dedup_flag.
  cbn [XorbChunkSequenceEntry.flags XorbChunkSequenceEntry.with_flags]. apply orb_true_iff. left.
  change MDB_CHUNK_WITH_GLOBAL_DEDUP_FLAG with (2 ^ 31)%Z. rewrite flag_testbit by lia. rewrite Z.lor_spec, Z.pow2_bits_true by lia. by rewrite orb_true_r.
Qed.

(** Writing a shard without its files keeps the eligible chunks of the xorbs written. *)
Lemma eligible_written files xorbs f h :
  Forall MDBXorbInfo.valid xorbs ->
  eligible [] (written_xorbs f (starts_of files) xorbs) h <-> eligible files (filter (fun x => f (xorb_view x) = true) xorbs) h.
Proof.
  intros Hx. unfold eligible, written_xorbs. setoid_rewrite list_elem_of_fmap. split.
  - intros (x' & k & c & (x & -> & Hin) & Hc & <- & H). destruct H as [H|?%not_elem_of_nil]; [|done].
    unfold flag_starts in Hc. cbn [MDBXorbInfo.chunks] in Hc. rewrite list_lookup_imap in Hc.
    destruct (MDBXorbInfo.chunks x !! k) as [c0|] eqn:Hc0; [|done]. injection Hc as <-. exists x, k, c0. split; [done|]. split; [done|].
    assert (is_u32 (XorbChunkSequenceEntry.flags c0)) as Hu.
    { apply list_elem_of_filter in Hin as [_ Hin]. rewrite Forall_forall in Hx. destruct (Hx _ Hin) as (_ & _ & _ & Hcs). by apply (Forall_lookup_1 _ _ _ _ Hcs Hc0). }
    pose proof (flagged_eligible c0 (bool_decide ((XorbChunkSequenceHeader.xorb_hash (MDBXorbInfo.metadata x), k) ∈ starts_of files)) Hu) as Hfl.
    split; [by case_bool_decide|]. rewrite Hfl, bool_decide_eq_true in H. done.
  - intros (x & k & c & Hin & Hc & <- & H). eexists (flag_starts (starts_of files) x), k, _. split; [eauto|].
    unfold flag_starts. cbn [MDBXorbInfo.chunks]. rewrite list_lookup_imap, Hc. split; [done|]. split; [by case_bool_decide|]. left.
    apply flagged_eligible; [|by rewrite bool_decide_eq_true].
    apply list_elem_of_filter in Hin as [_ Hin]. rewrite Forall_forall in Hx. destruct (Hx _ Hin) as (_ & _ & _ & Hcs). by apply (Forall_lookup_1 _ _ _ _ Hcs Hc).
Qed.

(** A shard file that is read as a stream and written again keeps its contents.  The views of the
    minimal shard are those of the files and xorbs in order.  What it writes has the size it
    announces and, read back, has the same files, with or without their verification entries, and
    the same xorbs, with the chunks that start a file flagged for global deduplication. *)
Theorem minimal_shard_rewritten `{SortUnstable (Z * Z)} `{Blake3} now0 mdb expiry now with_verification :
  storable mdb -> is_u64 now ->
  (with_verification = true -> MDBInMemoryShard.file_content mdb <> [] /\
     Forall (fun e => MDBFileInfo.contains_verification e.2 = true) (MDBInMemoryShard.file_content mdb)) ->
  let f := (MDBShardInfo.serialize_from now0 mdb expiry).1 in
  let files := (MDBInMemoryShard.file_content mdb).*2 in
  let xorbs := (MDBInMemoryShard.xorb_content mdb).*2 in
  exists m rest out info, MDBMinimalShard.from_reader true true f = Ok (m, rest) /\
    m = view_shard files xorbs /\
    MDBMinimalShard.serialize now m with_verification = Some (Ok (out, MDBMinimalShard.serialized_size m with_verification)) /\
    length out = MDBMinimalShard.serialized_size m with_verification /\
    MDBShardInfo.load_from_reader out = Ok info /\
    MDBShardInfo.read_all_file_info_sections info out = Ok (kept_file with_verification <$> files) /\
    MDBShardInfo.read_all_xorb_blocks_full info out = Ok (flag_starts (starts_of files) <$> xorbs).
Proof.
  intros Hs Hnow Hver. cbn zeta. rewrite serialize_from_spec by done. cbn [fst].
  destruct (shard_bytes_stream DataHash.default 0 (expiry_of now0 expiry) mdb Hs) as (rest & ->).
  pose proof (stored_length mdb Hs) as Hlen. pose proof (stored_hashes mdb Hs) as Hn.
  assert (Forall MDBFileInfo.valid (MDBInMemoryShard.file_content mdb).*2) as Hf by (apply Forall_fmap, (storable_files _ Hs)).
  assert (Forall MDBXorbInfo.valid (MDBInMemoryShard.xorb_content mdb).*2) as Hx by (apply Forall_fmap, (storable_xorbs _ Hs)).
  assert (with_verification = true -> Forall (fun i => MDBFileInfo.contains_verification i = true) (MDBInMemoryShard.file_content mdb).*2) as Hv.
  { intros E. apply Forall_fmap. by apply Hver. }
  assert (with_verification = true -> (MDBInMemoryShard.file_content mdb).*2 <> []) as Hne.
  { intros E. destruct (Hver E) as [Hne _]. by destruct (MDBInMemoryShard.file_content mdb). }
  clear Hver. revert Hlen Hn Hf Hx Hv Hne. generalize (MDBInMemoryShard.file_content mdb).*2 as files, (MDBInMemoryShard.xorb_content mdb).*2 as xorbs.
  intros files xorbs Hlen Hn Hf Hx Hv Hne. destruct (kept_files_length with_verification files Hf Hv) as (Hk1 & Hk2 & Hk3).
  pose proof (written_xorbs_length (fun _ => true) (starts_of files) xorbs) as Hw.
  assert (written_xorbs (fun _ => true) (starts_of files) xorbs = flag_starts (starts_of files) <$> xorbs) as Ew.
  { unfold written_xorbs. f_equal. clear. induction xorbs as [|x xorbs IH]; [done|]. by rewrite filter_cons, decide_True, IH. }
  destruct (serialize_impl_written now files xorbs true with_verification None (fun _ => true)) as (footer & Es & Hwf & Hoff1 & Hoff2 & _);
    [done|done|intros _; exact Hv|done|done|rewrite !stream_bytes_length in *; lia|].
  rewrite Ew in *. destruct (stream_read (kept_file with_verification <$> files) (flag_starts (starts_of files) <$> xorbs) footer) as (R1 & R2 & R3);
    [done|apply Forall_fmap; eapply Forall_impl; [done|apply flag_starts_valid]|done..|].
  assert (MDBMinimalShard.serialized_size (view_shard files xorbs) with_verification =
    length (stream_bytes (kept_file with_verification <$> files) (flag_starts (starts_of files) <$> xorbs)) + MDB_SHARD_FOOTER_SIZE) as Esz.
  { unfold MDBMinimalShard.serialized_size. replace (with_verification && _) with false.
    - cbn [MDBMinimalShard.file_info_views MDBMinimalShard.xorb_info_views view_shard]. rewrite Hk3, (xorb_sizes _ (starts_of files)), stream_bytes_length by done. lia.
    - symmetry. apply andb_false_iff. destruct with_verification; [right|by left]. specialize (Hne eq_refl). specialize (Hv eq_refl). destruct files as [|i l]; [done|].
      apply Forall_cons in Hv as [Hv _]. unfold MDBFileInfo.contains_verification in Hv. unfold MDBMinimalShard.has_file_verification, MDBFileInfoView.contains_verification. cbn. by rewrite Hv. }
  eexists _, rest, _, _. split_and!; [by apply from_reader_written|done| | |exact R1|exact R2|exact R3].
  - unfold MDBMinimalShard.serialize. by rewrite Es, Esz.
  - by rewrite Esz, length_app, shard_footer_length.
Qed.

(** The chunks that a shard offers for global deduplication are those of its xorbs that are
    eligible themselves or start a file of the shard, and a shard written without its files for a
    subset of the xorbs still offers those of the subset.  The footer of such a shard has the
    expiry time 0. *)
Theorem global_dedup_chunks_kept `{Blake3} now files xorbs xorb_filter_fn :
  Forall MDBFileInfo.valid files -> Forall MDBXorbInfo.valid xorbs -> is_u64 now ->
  (Z.of_nat (length (stream_bytes files xorbs)) < 2 ^ 64)%Z ->
  let m := view_shard files xorbs in
  (exists s, MDBMinimalShard.global_dedup_eligible_chunks m = Some s /\ forall h, h ∈ s <-> eligible files xorbs h) /\
  exists out info m' rest s', MDBMinimalShard.serialize_xorb_subset_only now m xorb_filter_fn = Some (Ok (out, length out)) /\
    MDBShardInfo.load_from_reader out = Ok info /\ MDBShardFileFooter.shard_key_expiry (MDBShardInfo.metadata info) = 0%Z /\
    MDBMinimalShard.from_reader true true out = Ok (m', rest) /\ MDBMinimalShard.global_dedup_eligible_chunks m' = Some s' /\
    forall h, h ∈ s' <-> eligible files (filter (fun x => xorb_filter_fn (xorb_view x) = true) xorbs) h.
Proof.
  intros Hf Hx Hnow Hlen m. split; [by apply eligible_chunks_spec|]. pose proof (written_xorbs_length xorb_filter_fn (starts_of files) xorbs) as Hw.
  destruct (serialize_impl_written now files xorbs false false None xorb_filter_fn) as (footer & Es & Hwf & Hoff1 & Hoff2 & Hexp);
    [done|done|done|done|done|rewrite !stream_bytes_length in *; cbn [fmap list_fmap concat length] in *; lia|].
  pose proof (written_xorbs_valid xorb_filter_fn (starts_of files) xorbs Hx) as Hv.
  destruct (stream_read [] (written_xorbs xorb_filter_fn (starts_of files) xorbs) footer) as (R1 & _ & _); [constructor|done..|].
  destruct (eligible_chunks_spec [] (written_xorbs xorb_filter_fn (starts_of files) xorbs)) as (s' & Es' & Hs'); [constructor|done|].
  eexists _, _, _, _, s'. split_and!; [|exact R1|exact Hexp|apply from_reader_written; [constructor|done|constructor]|exact Es'|].
  - unfold MDBMinimalShard.serialize_xorb_subset_only, m. rewrite Es, length_app, shard_footer_length; done.
  - intros h. rewrite Hs'. by apply eligible_written.
Qed.

(** ** Reading a shard into memory *)

Lemma loop_invariant {St B} (P : St -> Prop) (Q : B -> Prop) (body : St -> Reader (St + B)) :
  (forall s r x r', P s -> body s r = Ok (x, r') -> match x with inl s' => P s' | inr b => Q b end) ->
  forall s r b r', P s -> loop body s r = Ok (b, r') -> Q b.
Proof.
  intros H s r b r'. unfold loop. generalize (S (length r)) as n. intros n. revert s r.
  induction n as [|n IH]; intros s r Hs E; [done|]. cbn [iterate] in E. apply bind_inv in E as (x & r1 & E1 & E2).
  pose proof (H _ _ _ _ Hs E1) as Hx. destruct x as [s'|b']; [by eapply IH|]. by injection E2 as <- <-.
Qed.

Lemma read_at_total `{C : FixedCodec A enc dec valid sz} offset bs : offset + sz <= length bs -> is_Some (MDBFileInfoView.read_at dec offset bs).
Proof.
  intros Hl. unfold MDBFileInfoView.read_at. rewrite (proj2 (Nat.ltb_ge _ _)) by lia.
  destruct (decode_enough (drop offset bs)) as (a & -> & _); [rewrite length_drop; lia|]. by eexists.
Qed.

Lemma mapM_total {A B} (f : A -> option B) l : (forall a, a ∈ l -> is_Some (f a)) -> exists l', mapM f l = Some l' /\ length l' = length l.
Proof.
  intros H. destruct (mapM f l) as [l'|] eqn:E.
  - exists l'. split; [done|]. apply mapM_Some in E. symmetry. by eapply Forall2_length.
  - exfalso. apply eq_None_not_Some in E. apply E. apply mapM_is_Some_2, Forall_forall. auto.
Qed.

(** The views that a pass makes can be converted. *)
Lemma file_conversion_total header bs v :
  FileDataSequenceHeader.valid header -> MDBFileInfoView.from_data_and_header header bs = Ok v -> is_Some (MDBFileInfoView.to_file_info v).
Proof.
  intros (_ & _ & Hu & _) E. unfold MDBFileInfoView.from_data_and_header in E. cbn zeta in E.
  destruct (Nat.ltb_spec (length bs) ((1 + Z.to_nat (FileDataSequenceHeader.num_entries header)
    + (if FileDataSequenceHeader.contains_verification header then Z.to_nat (FileDataSequenceHeader.num_entries header) else 0)
    + (if FileDataSequenceHeader.contains_metadata_ext header then 1 else 0)) * MDB_FILE_INFO_ENTRY_SIZE)) as [|Hl]; [done|]. injection E as <-.
  unfold MDBFileInfoView.to_file_info. set (v := MDBFileInfoView.mk header bs). set (n := MDBFileInfoView.num_entries v).
  assert (n = Z.to_nat (FileDataSequenceHeader.num_entries header)) as En by done. unfold MDB_FILE_INFO_ENTRY_SIZE in Hl. rewrite <- En in Hl.
  destruct (mapM_total (MDBFileInfoView.entry v) (seq 0 n)) as (segments & -> & Hs).
  { intros k [_ Hk]%elem_of_seq. apply read_at_total. cbn [MDBFileInfoView.data v]. unfold MDB_FILE_INFO_ENTRY_SIZE. lia. }
  cbn [mbind option_bind]. change (MDBFileInfoView.contains_verification v) with (FileDataSequenceHeader.contains_verification header).
  assert (exists ver, (if FileDataSequenceHeader.contains_verification header then mapM (MDBFileInfoView.verification v) (seq 0 n) else Some []) = Some ver) as (ver & ->).
  { destruct (FileDataSequenceHeader.contains_verification header); [|by eexists].
    destruct (mapM_total (MDBFileInfoView.verification v) (seq 0 n)) as (ver & -> & _); [|by eexists].
    intros k [_ Hk]%elem_of_seq. apply read_at_total. cbn [MDBFileInfoView.data v]. fold n. unfold MDB_FILE_INFO_ENTRY_SIZE. lia. }
  cbn [mbind option_bind]. rewrite Hs, length_seq.
  destruct (new_total (MDBFileInfoView.file_hash v) (Z.of_nat n) (FileDataSequenceHeader.contains_verification header) (MDBFileInfoView.contains_metadata_ext v)) as [m ->]; [|by eexists].
  rewrite En, Z2Nat.id; [done|]. apply Hu.
Qed.

Lemma xorb_conversion_total header bs v :
  XorbChunkSequenceHeader.valid header -> MDBXorbInfoView.from_data_and_header header bs = Ok v -> is_Some (MDBXorbInfoView.to_xorb_info v).
Proof.
  intros (_ & _ & Hu & _) E. unfold MDBXorbInfoView.from_data_and_header in E. cbn zeta in E.
  destruct (Nat.ltb_spec (length bs) (MDB_XORB_INFO_ENTRY_SIZE + Z.to_nat (XorbChunkSequenceHeader.num_entries header) * MDB_XORB_INFO_ENTRY_SIZE)) as [|Hl]; [done|]. injection E as <-.
  unfold MDBXorbInfoView.to_xorb_info. set (v := MDBXorbInfoView.mk header bs). set (n := MDBXorbInfoView.num_entries v).
  assert (n = Z.to_nat (XorbChunkSequenceHeader.num_entries header)) as En by done. unfold MDB_XORB_INFO_ENTRY_SIZE in Hl. rewrite <- En in Hl.
  destruct (mapM_total (MDBXorbInfoView.chunk v) (seq 0 n)) as (chunks & -> & Hs).
  { intros k [_ Hk]%elem_of_seq. apply read_at_total. cbn [MDBXorbInfoView.data v]. unfold MDB_XORB_INFO_ENTRY_SIZE. lia. }
  cbn [mbind option_bind]. unfold XorbChunkSequenceHeader.new.
  destruct (last chunks); rewrite !try_u32_small by (done || apply wrap32_is_u32); by eexists.
Qed.

(** The records after a shard has been read into memory.  A file keeps its hash, segments, verification
    entries and extension; its header keeps only the two flags that say which parts there are.  A
    xorb keeps its hash and its chunks; its header has no flags and no size on disk, and the size that
    the last chunk ends at. *)
Definition rebuilt_file (i : MDBFileInfo.t) : MDBFileInfo.t :=
  MDBFileInfo.mk
    (FileDataSequenceHeader.mk (hash_of i)
       (Z.lor (if MDBFileInfo.contains_verification i then MDB_FILE_FLAG_WITH_VERIFICATION else 0%Z)
          (if MDBFileInfo.contains_metadata_ext i then MDB_FILE_FLAG_WITH_METADATA_EXT else 0%Z))
       (Z.of_nat (length (MDBFileInfo.segments i))) 0)
    (MDBFileInfo.segments i) (MDBFileInfo.verification i) (MDBFileInfo.metadata_ext i).

Definition rebuilt_xorb (x : MDBXorbInfo.t) : MDBXorbInfo.t :=
  MDBXorbInfo.mk
    (XorbChunkSequenceHeader.mk (XorbChunkSequenceHeader.xorb_hash (MDBXorbInfo.metadata x)) 0 (Z.of_nat (length (MDBXorbInfo.chunks x)))
       (from_option (fun c => wrap32 (XorbChunkSequenceEntry.chunk_byte_range_start c + XorbChunkSequenceEntry.unpacked_segment_bytes c)) 0%Z
          (last (MDBXorbInfo.chunks x))) 0)
    (MDBXorbInfo.chunks x).

(** Whatever is read into memory is a well-formed shard. *)
Lemma memory_reader_invariant r shard rest :
  from_reader r = Ok (shard, rest) -> exists s, shard = Some s /\ shard_wf s /\ shard_complete s.
Proof.
  intros E. unfold from_reader in E. apply bind_inv in E as (h & r1 & _ & E). apply bind_inv in E as (s1 & r2 & E1 & E2).
  set (P := fun shard : option MDBInMemoryShard.t => exists s, shard = Some s /\ shard_wf s /\ shard_complete s).
  assert (P s1) as Hs1.
  { refine (loop_invariant P P _ _ _ _ _ _ _ E1); [|exists MDBInMemoryShard.default; split_and!; [done|apply default_wf|apply default_complete]].
    intros s r' x r'' Hs Ex. apply bind_inv in Ex as (hd & r3 & Eh & Ex). apply decode_exact in Eh as [_ Hv].
    destruct (FileDataSequenceHeader.is_bookend hd); [by injection Ex as <- <-|].
    apply bind_inv in Ex as (d & r4 & _ & Ex). apply bind_inv in Ex as (v & r5 & Ev & Ex). apply bind_inv in Ex as (s' & r6 & Es & Ex).
    injection Ex as <- <-. unfold lift in Ev, Es. destruct (MDBFileInfoView.from_data_and_header _ _) as [v'|] eqn:Efd; [|done]. injection Ev as -> _.
    apply file_conversion_total in Efd as [i Hi]; [|done]. destruct Hs as (s0 & -> & Hw & Hc). injection Es as <- _. rewrite Hi. eexists. split_and!; [done|by apply add_file_wf|done]. }
  refine (loop_invariant P P _ _ _ _ _ _ Hs1 E2). clear - P. intros s r' x r'' Hs Ex. apply bind_inv in Ex as (hd & r3 & Eh & Ex). apply decode_exact in Eh as [_ Hv].
  destruct (XorbChunkSequenceHeader.is_bookend hd); [by injection Ex as <- <-|].
  apply bind_inv in Ex as (d & r4 & _ & Ex). apply bind_inv in Ex as (v & r5 & Ev & Ex). apply bind_inv in Ex as (s' & r6 & Es & Ex).
  injection Ex as <- <-. unfold lift in Ev, Es. destruct (MDBXorbInfoView.from_data_and_header _ _) as [v'|] eqn:Efd; [|done]. injection Ev as -> _.
  apply xorb_conversion_total in Efd as [x Hx]; [|done]. destruct Hs as (s0 & -> & Hw & Hc). injection Es as <- _. rewrite Hx. eexists.
  split_and!; [done|by apply add_xorb_wf|by apply add_xorb_complete].
Qed.

Lemma rebuilt_file_spec i :
  MDBFileInfo.valid i -> MDBFileInfoView.to_file_info (file_view i) = Some (rebuilt_file i) /\ hash_of (rebuilt_file i) = hash_of i /\
    MDBFileInfo.segments (rebuilt_file i) = MDBFileInfo.segments i /\ MDBFileInfo.verification (rebuilt_file i) = MDBFileInfo.verification i /\
    MDBFileInfo.metadata_ext (rebuilt_file i) = MDBFileInfo.metadata_ext i.
Proof.
  intros Hi. pose proof Hi as ((_ & _ & Hu & _) & _ & Hn & _). split; [|done]. unfold file_view, rebuilt_file.
  apply to_file_info_exact; [done|]. unfold FileDataSequenceHeader.new. rewrite try_u32_small by done. cbn [mbind option_bind].
  by rewrite Hn, Z.lor_0_l.
Qed.

Lemma rebuilt_xorb_spec x :
  MDBXorbInfo.valid x -> MDBXorbInfoView.to_xorb_info (xorb_view x) = Some (rebuilt_xorb x) /\
    XorbChunkSequenceHeader.xorb_hash (MDBXorbInfo.metadata (rebuilt_xorb x)) = XorbChunkSequenceHeader.xorb_hash (MDBXorbInfo.metadata x) /\
    MDBXorbInfo.chunks (rebuilt_xorb x) = MDBXorbInfo.chunks x.
Proof.
  intros Hx. unfold rebuilt_xorb, MDBXorbInfoView.to_xorb_info. rewrite xorb_view_entries by done.
  rewrite (mapM_seq _ (MDBXorbInfo.chunks x)) by (done || intros; by apply xorb_view_chunks). cbn [mbind option_bind].
  unfold XorbChunkSequenceHeader.new. pose proof Hx as ((_ & _ & Hu & _) & _ & Hn & _).
  assert (is_u32 (Z.of_nat (length (MDBXorbInfo.chunks x)))) as Hl by (by rewrite Hn). rewrite (wrap32_small _ Hl).
  destruct (last (MDBXorbInfo.chunks x)); rewrite !try_u32_small by (done || apply wrap32_is_u32); done.
Qed.

Definition load_file (shard : option MDBInMemoryShard.t) (i : MDBFileInfo.t) : option MDBInMemoryShard.t :=
  s ← shard; j ← MDBFileInfoView.to_file_info (file_view i); Some (MDBInMemoryShard.add_file_reconstruction_info s j).

Definition load_xorb (shard : option MDBInMemoryShard.t) (x : MDBXorbInfo.t) : option MDBInMemoryShard.t :=
  s ← shard; y ← MDBXorbInfoView.to_xorb_info (xorb_view x); Some (MDBInMemoryShard.add_xorb_block s y).

Lemma add_files_content (l : list (DataHash * MDBFileInfo.t)) s :
  Forall (fun e => MDBFileInfo.valid e.2) l -> (forall e, e ∈ l -> hash_of e.2 = e.1) ->
  exists s', fold_left load_file l.*2 (Some s) = Some s' /\
    MDBInMemoryShard.xorb_content s' = MDBInMemoryShard.xorb_content s /\
    MDBInMemoryShard.file_content s' = fold_left (fun m '(k, v) => BTree.insert k v m) ((fun e => (e.1, rebuilt_file e.2)) <$> l) (MDBInMemoryShard.file_content s).
Proof.
  intros Hv. revert s. induction Hv as [|[k i] l Hi Hl IH]; intros s Hk; [by eexists|]. cbn [snd] in Hi. cbn [fmap list_fmap fold_left snd fst].
  destruct (rebuilt_file_spec i Hi) as (Hr & Hh & _). pose proof (Hk _ ltac:(by left)) as Hki. cbn [fst snd] in Hki.
  assert (load_file (Some s) i = Some (MDBInMemoryShard.add_file_reconstruction_info s (rebuilt_file i))) as -> by (unfold load_file; cbn [mbind option_bind]; by rewrite Hr).
  edestruct IH as (s' & -> & Hx & Hf); [intros; apply Hk; by right|]. exists s'. split; [done|]. rewrite Hx, Hf. split; [done|]. cbn. by rewrite <- Hki.
Qed.

Lemma add_xorbs_content (l : list (DataHash * MDBXorbInfo.t)) s :
  Forall (fun e => MDBXorbInfo.valid e.2) l -> (forall e, e ∈ l -> XorbChunkSequenceHeader.xorb_hash (MDBXorbInfo.metadata e.2) = e.1) ->
  exists s', fold_left load_xorb l.*2 (Some s) = Some s' /\
    MDBInMemoryShard.file_content s' = MDBInMemoryShard.file_content s /\
    MDBInMemoryShard.xorb_content s' = fold_left (fun m '(k, v) => BTree.insert k v m) ((fun e => (e.1, rebuilt_xorb e.2)) <$> l) (MDBInMemoryShard.xorb_content s).
Proof.
  intros Hv. revert s. induction Hv as [|[k x] l Hx Hl IH]; intros s Hk; [by eexists|]. cbn [snd] in Hx. cbn [fmap list_fmap fold_left snd fst].
  destruct (rebuilt_xorb_spec x Hx) as (Hr & Hh & _). pose proof (Hk _ ltac:(by left)) as Hkx. cbn [fst snd] in Hkx.
  assert (load_xorb (Some s) x = Some (MDBInMemoryShard.add_xorb_block s (rebuilt_xorb x))) as -> by (unfold load_xorb; cbn [mbind option_bind]; by rewrite Hr).
  edestruct IH as (s' & -> & Hf & Hc); [intros; apply Hk; by right|]. exists s'. split; [done|].
  destruct (add_xorb_fields s (rebuilt_xorb x)) as (Ex & Ef & _). rewrite Hc, Hf, Ex, Ef. split; [done|]. by rewrite Hh, Hkx.
Qed.

(** Changing the values of a sorted list of entries. *)
Lemma sorted_values {V W} (g : V -> W) (l : list (DataHash * V)) :
  key_sorted l -> key_sorted ((fun e => (e.1, g e.2)) <$> l) /\ to_map ((fun e => (e.1, g e.2)) <$> l) = g <$> to_map l.
Proof.
  intros H. split.
  - induction H as [|a l Hl IH Ha]; cbn [fmap list_fmap]; constructor; [done|]. apply Forall_fmap. eapply Forall_impl; [exact Ha|]. by intros b Hb.
  - clear. unfold to_map. induction l as [|[k v] l IH]; cbn; [by rewrite fmap_empty|by rewrite IH, fmap_insert].
Qed.

(** C37: reading a shard into memory gives a well-formed shard from any bytes on which it succeeds, and
    no conversion of a view panics.  From the bytes of a shard it gives every file with its hash,
    segments, verification entries and extension, and every xorb with its hash and all its chunks;
    of the headers the other flags and the size of a xorb on disk are lost, and the size of a xorb is
    where its last chunk ends. *)
Theorem memory_reader_sound :
  (forall r shard rest, from_reader r = Ok (shard, rest) -> exists s, shard = Some s /\ shard_wf s /\ shard_complete s) /\
  (forall `{SortUnstable (Z * Z)} now mdb expiry, storable mdb ->
    exists s rest, from_reader (MDBShardInfo.serialize_from now mdb expiry).1 = Ok (Some s, rest) /\
      to_map (MDBInMemoryShard.file_content s) = rebuilt_file <$> to_map (MDBInMemoryShard.file_content mdb) /\
      to_map (MDBInMemoryShard.xorb_content s) = rebuilt_xorb <$> to_map (MDBInMemoryShard.xorb_content mdb)).
Proof.
  split; [apply memory_reader_invariant|]. intros Sort now mdb expiry Hs. rewrite serialize_from_spec by done. cbn [fst].
  destruct (shard_bytes_stream DataHash.default 0 (expiry_of now expiry) mdb Hs) as (rest & ->). pose proof Hs as [Hwf Hvf Hvx _ _].
  destruct (add_files_content (MDBInMemoryShard.file_content mdb) MDBInMemoryShard.default Hvf) as (s1 & E1 & X1 & F1).
  { intros e He. apply (wf_file_keys _ Hwf), sorted_lookup; [by apply wf_files_sorted|]. by destruct e. }
  destruct (add_xorbs_content (MDBInMemoryShard.xorb_content mdb) s1 Hvx) as (s2 & E2 & F2 & X2).
  { intros e He. apply (wf_xorb_keys _ Hwf), sorted_lookup; [by apply wf_xorbs_sorted|]. by destruct e. }
  exists s2, rest. split.
  - unfold from_reader, stream_bytes. rewrite <- !app_assoc. erewrite bind_ok by by apply shard_header_written.
    erewrite bind_ok by (apply (file_pass_written _ load_file); [by apply Forall_fmap|done]). rewrite E1.
    rewrite (xorb_pass_written _ load_xorb); [|by apply Forall_fmap|done]. by rewrite E2.
  - destruct (sorted_values rebuilt_file _ (wf_files_sorted _ Hwf)) as [K1 M1]. destruct (sorted_values rebuilt_xorb _ (wf_xorbs_sorted _ Hwf)) as [K2 M2].
    rewrite F2, F1, X2, X1. split; (etrans; [apply insert_all; [constructor|done]|]).
    + etrans; [|exact M1]. apply map_union_empty.
    + etrans; [|exact M2]. apply map_union_empty.
Qed.
