(* ===== verification/ShardExamples.v ===== *)
(** * A sample shard

    The properties of the shard files applied to a shard with one file and one xorb, and the export
    that loses its place. *)

From coqutil Require Import Byte Word.LittleEndianList.
From stdpp Require Import base numbers gmap list.
From S2P Require Import Prelude DataHash Codec FileStructs XorbStructs Interpolation ShardMemory ShardFormat ShardExport SetOperations StreamingShard.

Module ShardExamples.

#[local] Existing Instance toy_blake3.

Definition sample_shard : MDBInMemoryShard.t :=
  MDBInMemoryShard.add_file_reconstruction_info
    (MDBInMemoryShard.add_xorb_block MDBInMemoryShard.default XorbExamples.sample_xorb) FileExamples.full.

Lemma sample_wf : shard_wf sample_shard.
Proof. apply add_file_wf, add_xorb_wf, default_wf. Qed.

Lemma sample_complete : shard_complete sample_shard.
Proof. apply (add_xorb_complete _ XorbExamples.sample_xorb default_wf default_complete). Qed.

Lemma sample_lookup h x i : MDBInMemoryShard.chunk_hash_lookup sample_shard !! h = Some (x, i) -> x = XorbExamples.sample_xorb.
Proof.
  intros H. change (MDBInMemoryShard.chunk_hash_lookup sample_shard) with
    ((MDBInMemoryShard.index_chunks XorbExamples.sample_xorb 0 (MDBXorbInfo.chunks XorbExamples.sample_xorb) ∅ 0).1) in H.
  apply index_chunks_lookup in H as [H|(j & c & _ & _ & [= -> _])]; [by rewrite lookup_empty in H|done].
Qed.

Lemma sample_storable : storable sample_shard.
Proof.
  split; [apply sample_wf| | |vm_compute; reflexivity|vm_compute; reflexivity].
  - constructor; [apply FileExamples.full_valid|constructor].
  - constructor; [apply XorbExamples.sample_valid|constructor].
Qed.

Definition query : list DataHash := [mkDataHash 1 0 0 1; mkDataHash 2 0 0 2; mkDataHash 9 0 0 9].

Lemma shard_refines_maps_witness :
  let u := MDBInMemoryShard.union sample_shard MDBInMemoryShard.default in
  shard_wf u /\ to_map (MDBInMemoryShard.xorb_content u) = ∅ ∪ to_map (MDBInMemoryShard.xorb_content sample_shard).
Proof.
  destruct (shard_refines_maps sample_shard MDBInMemoryShard.default XorbExamples.sample_xorb FileExamples.full sample_wf default_wf)
    as (_ & _ & (H1 & H2 & _) & _).
  exact (conj H1 H2).
Defined.

Lemma memory_query_correct_witness :
  exists n e, MDBInMemoryShard.chunk_hash_dedup_query sample_shard query = Some (Some (n, e)) /\ longest_run XorbExamples.sample_xorb query n e.
Proof.
  pose proof (memory_query_correct sample_shard query sample_wf sample_complete) as H.
  destruct (MDBInMemoryShard.chunk_hash_dedup_query sample_shard query) as [[[n e]|]|] eqn:E.
  - exists n, e. split; [reflexivity|]. destruct H as (h & x & i & _ & Hl & Hr).
    + intros h x i Hl. rewrite (sample_lookup h x i Hl). vm_compute. reflexivity.
    + by rewrite <- (sample_lookup h x i Hl).
  - vm_compute in E. discriminate E.
  - vm_compute in E. discriminate E.
Defined.

Lemma shard_file_roundtrip_witness :
  let '(f, info) := MDBShardInfo.serialize_from (H := sort_stable) 0 sample_shard (Some (10 ^ 9)%Z) in
  MDBShardInfo.load_from_reader f = Ok info /\
  MDBShardInfo.num_bytes info = Z.of_nat (length f) /\
  MDBShardInfo.read_all_file_info_sections info f = Ok [FileExamples.full] /\
  MDBShardInfo.read_all_xorb_blocks_full info f = Ok [XorbExamples.sample_xorb].
Proof.
  apply (shard_file_roundtrip (H := sort_stable) 0 sample_shard (Some (10 ^ 9)%Z) sample_storable).
  unfold is_u64. split; [vm_compute; discriminate|vm_compute; reflexivity].
Defined.

Lemma shard_file_lookup_witness :
  let '(f, info) := MDBShardInfo.serialize_from (H := sort_stable) 0 sample_shard None in
  MDBShardInfo.get_file_reconstruction_info info f FileExamples.hash_a = Some (Ok (Some FileExamples.full)).
Proof. apply (shard_file_lookup (H := sort_stable) 0 sample_shard None FileExamples.hash_a sample_storable). Defined.


Lemma shard_size_announced_witness :
  let f := (MDBShardInfo.serialize_from (H := sort_stable) 0 sample_shard None).1 in
  Z.of_nat (length f) = (MDBInMemoryShard.shard_file_size (MDBInMemoryShard.recalculate_shard_size sample_shard) + 16 * (3 - 3))%Z.
Proof.
  apply (shard_size_announced (H := sort_stable) 0 sample_shard None sample_storable).
  - unfold is_u64. split; [vm_compute; discriminate|vm_compute; reflexivity].
  - vm_compute. reflexivity.
Defined.

Definition key : DataHash := mkDataHash 3 1 4 1.

Lemma key_wf : hash_wf key.
Proof. unfold hash_wf, is_u64. FileExamples.concrete_validity. Qed.

Lemma keyed_export_witness :
  let '(f, info0) := MDBShardInfo.serialize_from (H := sort_stable) 0 sample_shard None in
  exists g rest info, export_as_keyed_shard 0 key (10 ^ 9) true true true f = Ok (g, length g, rest) /\
    MDBShardInfo.load_from_reader g = Ok info /\ MDBShardInfo.chunk_hmac_key info = Some key.
Proof.
  destruct (keyed_export (H := sort_stable) 0 sample_shard None 0 key (10 ^ 9) sample_storable key_wf) as (g & rest & info & H1 & H2 & H3 & _).
  - unfold is_u64. split; [vm_compute; discriminate|vm_compute; reflexivity].
  - unfold is_u64. split; [vm_compute; discriminate|vm_compute; reflexivity].
  - exists g, rest, info. exact (conj H1 (conj H2 H3)).
Defined.

(** A second shard, with the same file without its optional records. *)
Definition bare_shard : MDBInMemoryShard.t :=
  MDBInMemoryShard.add_file_reconstruction_info MDBInMemoryShard.default FileExamples.bare.

Lemma bare_storable : storable bare_shard.
Proof.
  split; [apply add_file_wf, default_wf| | |vm_compute; reflexivity|vm_compute; reflexivity].
  - constructor; [apply FileExamples.bare_valid|constructor].
  - constructor.
Qed.

Lemma both_storable : storable (memory_op Union bare_shard sample_shard).
Proof.
  assert (Hw : shard_wf (memory_op Union bare_shard sample_shard)).
  { apply union_wf; [apply bare_storable|apply sample_storable]. }
  split; [exact Hw| | |vm_compute; reflexivity|vm_compute; reflexivity].
  - constructor; [apply FileExamples.full_valid|constructor].
  - constructor; [apply XorbExamples.sample_valid|constructor].
Qed.

Lemma shards_consistent : consistent bare_shard sample_shard.
Proof.
  split; intros k x y Hx Hy; [discriminate Hx|].
  change (({[ FileExamples.hash_a := FileExamples.bare ]} : gmap DataHash _) !! k = Some x) in Hx.
  change (({[ FileExamples.hash_a := FileExamples.full ]} : gmap DataHash _) !! k = Some y) in Hy.
  apply lookup_singleton_Some in Hx as [<- <-]. apply lookup_singleton_Some in Hy as [_ <-].
  exists FileExamples.hash_a, 2%Z, false, false, true, true. by split_and!.
Qed.

Lemma set_operation_agrees_witness :
  let '(f0, s0) := MDBShardInfo.serialize_from (H := sort_stable) 0 bare_shard None in
  let '(f1, s1) := MDBShardInfo.serialize_from (H := sort_stable) 0 sample_shard None in
  set_operation (H := sort_stable) s0 s1 f0 f1 Union =
    Some (Ok (MDBShardInfo.serialize_from (H := sort_stable) 0 (MDBInMemoryShard.union bare_shard sample_shard) None)).
Proof.
  exact (set_operation_agrees (H := sort_stable) Union bare_shard sample_shard 0 None 0 None 0
    bare_storable sample_storable both_storable shards_consistent).
Defined.

Definition sample_file : list byte := (MDBShardInfo.serialize_from (H := sort_stable) 0 sample_shard None).1.

Lemma streaming_readers_agree_witness :
  MDBMinimalShard.from_reader_async true true sample_file = MDBMinimalShard.from_reader true true sample_file.
Proof.
  destruct streaming_readers_agree as (_ & _ & H). specialize (H true true sample_file).
  assert ((48 <=? length sample_file) = true) as Hl by (vm_compute; reflexivity). rewrite Hl in H. rewrite H. vm_compute. reflexivity.
Defined.

Lemma minimal_shard_rewritten_witness :
  exists m rest out, MDBMinimalShard.from_reader true true sample_file = Ok (m, rest) /\
    MDBMinimalShard.serialize 0 m true = Some (Ok (out, MDBMinimalShard.serialized_size m true)) /\
    length out = MDBMinimalShard.serialized_size m true.
Proof.
  destruct (minimal_shard_rewritten (H := sort_stable) 0 sample_shard None 0 true sample_storable) as (m & rest & out & info & H1 & _ & H2 & H3 & _).
  - unfold is_u64. split; [vm_compute; discriminate|vm_compute; reflexivity].
  - intros _. split; [vm_compute; discriminate|]. constructor; [vm_compute; reflexivity|constructor].
  - exists m, rest, out. exact (conj H1 (conj H2 H3)).
Defined.

Lemma global_dedup_chunks_kept_witness :
  exists s, MDBMinimalShard.global_dedup_eligible_chunks (view_shard [FileExamples.full] [XorbExamples.sample_xorb]) = Some s /\
    forall h, h ∈ s <-> eligible [FileExamples.full] [XorbExamples.sample_xorb] h.
Proof.
  apply (global_dedup_chunks_kept 0 [FileExamples.full] [XorbExamples.sample_xorb] (fun _ => true)).
  - constructor; [apply FileExamples.full_valid|constructor].
  - constructor; [apply XorbExamples.sample_valid|constructor].
  - unfold is_u64. split; [vm_compute; discriminate|vm_compute; reflexivity].
  - vm_compute. reflexivity.
Defined.

Lemma memory_reader_sound_witness :
  exists s rest, from_reader sample_file = Ok (Some s, rest) /\
    to_map (MDBInMemoryShard.xorb_content s) = rebuilt_xorb <$> to_map (MDBInMemoryShard.xorb_content sample_shard).
Proof.
  destruct memory_reader_sound as [_ H]. destruct (H sort_stable 0%Z sample_shard None sample_storable) as (s & rest & H1 & _ & H2).
  exists s, rest. exact (conj H1 H2).
Defined.

(** A file whose only segment has a flag set. *)
Definition flagged_file : MDBFileInfo.t :=
  MDBFileInfo.mk (FileDataSequenceHeader.mk FileExamples.hash_a 0 1 0)
    [FileDataSequenceEntry.mk FileExamples.hash_a MDB_FILE_FLAG_WITH_VERIFICATION 4096 0 3] [] None.

Definition flagged_bytes : list byte :=
  (MDBShardInfo.serialize_from (H := sort_stable) 0
     (MDBInMemoryShard.add_file_reconstruction_info MDBInMemoryShard.default flagged_file) None).1.

(** An export without the file information loses its place in a shard whose segments have flags: it
    steps over the optional records of a file but not over its segments, and reads those as headers.
    The shard of one file with one flagged segment is exported with its file information, and
    without it the export fails at the end of the input. *)
Theorem export_without_files_misreads :
  is_ok (export_as_keyed_shard 0 key 0 true true true flagged_bytes) = true /\
  export_as_keyed_shard 0 key 0 false true true flagged_bytes = Err (Io UnexpectedEof).
Proof. split; vm_compute; reflexivity. Qed.

End ShardExamples.
