(* ===== verification/Defrag.v ===== *)
(** * Fragmentation control

    Model of [xet_data/src/deduplication/defrag_prevention.rs]: the sliding window over the
    sizes of the last ranges of a file, and the decision with hysteresis whether the next
    range may be deduplicated.  [f32] is the IEEE single of [SpecFloat]. *)

From Stdlib Require Import SpecFloat.
From stdpp Require Import base numbers list.
From S2P Require Import Prelude.

Definition f32 := spec_float.
Definition f32_prec : Z := 24.
Definition f32_emax : Z := 128.

(** [n as f32] *)
Definition f32_of_usize (n : nat) : f32 := binary_normalize f32_prec f32_emax (Z.of_nat n) 0 false.

Module DefragPrevention.

Record t := mk {
  nranges_in_streaming_fragmentation_estimator : nat;
  rolling_last_nranges : list nat;
  rolling_nranges_chunks : nat;
  defrag_at_low_threshold : bool;
  min_chunks_per_range : f32;
  min_chunks_per_range_historesis_factor : f32;
}.

Definition new (nranges : nat) (min_n_chunks_per_range hysteresis_factor : f32) : t :=
  mk nranges [] 0 true min_n_chunks_per_range hysteresis_factor.

Definition with_window (d : t) (window : list nat) (chunks : nat) : t :=
  mk (nranges_in_streaming_fragmentation_estimator d) window chunks (defrag_at_low_threshold d)
    (min_chunks_per_range d) (min_chunks_per_range_historesis_factor d).

Definition with_threshold (d : t) (low : bool) : t :=
  mk (nranges_in_streaming_fragmentation_estimator d) (rolling_last_nranges d) (rolling_nranges_chunks d) low
    (min_chunks_per_range d) (min_chunks_per_range_historesis_factor d).

(** [*back_mut() += n], when there is a last element. *)
Definition add_to_last (n : nat) (l : list nat) : list nat := alter (fun back => back + n) (length l - 1) l.

Definition increment_last_range_in_fragmentation_estimate (d : t) (nchunks : nat) : t :=
  match rolling_last_nranges d with
  | [] => d
  | _ => with_window d (add_to_last nchunks (rolling_last_nranges d)) (rolling_nranges_chunks d + nchunks)
  end.

Definition add_range_to_fragmentation_estimate (d : t) (nchunks : nat) : t :=
  let window := rolling_last_nranges d ++ [nchunks] in
  let chunks := rolling_nranges_chunks d + nchunks in
  match window with
  | front :: window' =>
      if nranges_in_streaming_fragmentation_estimator d <? length window
      then with_window d window' (chunks - front)
      else with_window d window chunks
  | [] => with_window d window chunks
  end.

Definition rolling_chunks_per_range (d : t) : option f32 :=
  if length (rolling_last_nranges d) <? nranges_in_streaming_fragmentation_estimator d then None
  else Some (SFdiv f32_prec f32_emax (f32_of_usize (rolling_nranges_chunks d)) (f32_of_usize (length (rolling_last_nranges d)))).

Definition allow_dedup_on_next_range (d : t) (dedup_range_size : nat) : bool * t :=
  match rolling_chunks_per_range d with
  | None => (true, d)
  | Some chunks_per_range =>
      let target_cpr :=
        if defrag_at_low_threshold d
        then SFmul f32_prec f32_emax (min_chunks_per_range d) (min_chunks_per_range_historesis_factor d)
        else min_chunks_per_range d in
      if SFltb chunks_per_range target_cpr
      then
        if SFltb (f32_of_usize dedup_range_size) chunks_per_range
        then (false, with_threshold d false)
        else (true, d)
      else (true, with_threshold d true)
  end.

End DefragPrevention.

(** ** The window is the end of the history *)

Inductive DefragOp := AddRange (nchunks : nat) | IncrementLast (nchunks : nat) | AllowNext (dedup_range_size : nat).

Definition defrag_step (d : DefragPrevention.t) (op : DefragOp) : DefragPrevention.t :=
  match op with
  | AddRange n => DefragPrevention.add_range_to_fragmentation_estimate d n
  | IncrementLast n => DefragPrevention.increment_last_range_in_fragmentation_estimate d n
  | AllowNext n => (DefragPrevention.allow_dedup_on_next_range d n).2
  end.

(** Every range of the file, with its final size. *)
Definition history_step (ranges : list nat) (op : DefragOp) : list nat :=
  match op with
  | AddRange n => ranges ++ [n]
  | IncrementLast n => DefragPrevention.add_to_last n ranges
  | AllowNext _ => ranges
  end.

Definition history (ops : list DefragOp) : list nat := fold_left history_step ops [].

Definition last_n {A} (n : nat) (l : list A) : list A := drop (length l - n) l.

Definition follows (nranges : nat) (ranges : list nat) (d : DefragPrevention.t) : Prop :=
  DefragPrevention.nranges_in_streaming_fragmentation_estimator d = nranges /\
  DefragPrevention.rolling_last_nranges d = last_n nranges ranges /\
  DefragPrevention.rolling_nranges_chunks d = sum_list (DefragPrevention.rolling_last_nranges d).

Lemma add_to_last_snoc n l x : DefragPrevention.add_to_last n (l ++ [x]) = l ++ [x + n].
Proof.
  unfold DefragPrevention.add_to_last. rewrite length_app. cbn [length].
  replace (length l + 1 - 1) with (length l + 0) by lia. by rewrite alter_app_r.
Qed.

Lemma last_n_snoc {A} n (l : list A) x : last_n (S n) (l ++ [x]) = last_n n l ++ [x].
Proof.
  unfold last_n. rewrite length_app. cbn [length]. rewrite drop_app_le by lia. do 2 f_equal. lia.
Qed.

Lemma sum_list_app l1 l2 : sum_list (l1 ++ l2) = sum_list l1 + sum_list l2.
Proof. induction l1 as [|x l1 IH]; simpl; lia. Qed.

Lemma length_last_n {A} n (l : list A) : length (last_n n l) = Nat.min n (length l).
Proof. unfold last_n. rewrite length_drop. lia. Qed.

Lemma last_n_tail {A} n (l : list A) x window :
  last_n n l ++ [x] = window -> last_n n (l ++ [x]) = if n <? length window then tail window else window.
Proof.
  intros <-. rewrite length_app, length_last_n. cbn [length]. unfold last_n. rewrite length_app. cbn [length].
  destruct (Nat.ltb_spec n (Nat.min n (length l) + 1)).
  - rewrite <- (drop_app_le l [x]) by lia. rewrite tail_drop. f_equal. lia.
  - rewrite <- (drop_app_le l [x]) by lia. f_equal. lia.
Qed.

Lemma follows_add nranges ranges d n :
  follows nranges ranges d -> follows nranges (ranges ++ [n]) (DefragPrevention.add_range_to_fragmentation_estimate d n).
Proof.
  intros (Hn & Hw & Hs). unfold DefragPrevention.add_range_to_fragmentation_estimate. rewrite Hn.
  pose proof (last_n_tail nranges ranges n _ (f_equal (fun w => w ++ [n]) (eq_sym Hw))) as Ht.
  assert (sum_list (DefragPrevention.rolling_last_nranges d ++ [n]) = DefragPrevention.rolling_nranges_chunks d + n) as Hsum
    by (rewrite sum_list_app, <- Hs; simpl; lia).
  destruct (DefragPrevention.rolling_last_nranges d ++ [n]) as [|front window] eqn:E; [by destruct (DefragPrevention.rolling_last_nranges d)|].
  destruct (nranges <? length (front :: window)); (split_and!; [done|by rewrite Ht|]); cbn; simpl in Hsum; lia.
Qed.

Lemma follows_increment nranges ranges d n :
  follows nranges ranges d ->
  follows nranges (DefragPrevention.add_to_last n ranges) (DefragPrevention.increment_last_range_in_fragmentation_estimate d n).
Proof.
  intros (Hn & Hw & Hs). unfold DefragPrevention.increment_last_range_in_fragmentation_estimate.
  destruct ranges as [|x ranges _] using rev_ind.
  - unfold last_n in Hw. cbn in Hw. rewrite Hw. by split_and!.
  - rewrite add_to_last_snoc. destruct nranges as [|k].
    + assert (DefragPrevention.rolling_last_nranges d = []) as E.
      { apply length_zero_iff_nil. by rewrite Hw, length_last_n. }
      rewrite E. split_and!; [done| |done]. rewrite E. symmetry. apply length_zero_iff_nil. by rewrite length_last_n.
    + rewrite last_n_snoc in Hw. rewrite Hw in Hs |- *.
      destruct (last_n k ranges ++ [x]) eqn:E; [by destruct (last_n k ranges)|]. rewrite <- E in *. clear E.
      rewrite add_to_last_snoc. split_and!; [done|by rewrite last_n_snoc|]. cbn. rewrite Hs, !sum_list_app. simpl. lia.
Qed.

(** The fragmentation estimate is over the last ranges of the file.  After any sequence of
    added ranges, increments of the last range and decisions, the window holds exactly the last
    [nranges] ranges in their final sizes and the running count is their sum, so the subtraction
    never underflows; and while there are fewer ranges than that, every range is allowed. *)
Theorem defrag_window nranges cpr factor ops k :
  let d := fold_left defrag_step ops (DefragPrevention.new nranges cpr factor) in
  DefragPrevention.rolling_last_nranges d = last_n nranges (history ops) /\
  DefragPrevention.rolling_nranges_chunks d = sum_list (last_n nranges (history ops)) /\
  (length (history ops) < nranges -> DefragPrevention.allow_dedup_on_next_range d k = (true, d)).
Proof.
  assert (follows nranges (history ops) (fold_left defrag_step ops (DefragPrevention.new nranges cpr factor))) as (Hn & Hw & Hs).
  { unfold history. induction ops as [|op ops IH] using rev_ind.
    - by split_and!.
    - rewrite !fold_left_app. cbn [fold_left]. destruct op as [n|n|n]; cbn [defrag_step history_step].
      + by apply follows_add.
      + by apply follows_increment.
      + unfold DefragPrevention.allow_dedup_on_next_range. repeat case_match; done. }
  cbn zeta. rewrite <- Hw. split_and!; [done|done|]. intros Hl.
  unfold DefragPrevention.allow_dedup_on_next_range, DefragPrevention.rolling_chunks_per_range.
  assert (Nat.ltb (length (last_n nranges (history ops))) nranges = true) as E.
  { apply Nat.ltb_lt. rewrite length_last_n. lia. }
  by rewrite Hn, Hw, E.
Qed.
