(* ===== verification/Dedup.v ===== *)
(** * File deduplication

    Model of [xet_data/src/deduplication/file_deduplication.rs], [dedup_metrics.rs] and
    [interface.rs]: the deduper that turns the chunks of a file into segments of xorbs, known
    ones and the one it is building.

    The interface to the shards and the upload queue, a trait of the code, is the class
    [DeduplicationDataInterface]; what an implementation promises is [DedupContract], and the
    theorems are proved against it.  The [simulation] feature is off.  Where an error is
    returned the deduper is dropped by its caller, so errors carry no state. *)

From Stdlib Require Import SpecFloat.
From coqutil Require Import Byte Word.LittleEndianList.
From stdpp Require Import base numbers gmap list.
From S2P Require Import Prelude DataHash AggregatedHash Chunking FileStructs XorbStructs RawXorb Defrag.

(** ** Metrics *)

Module DeduplicationMetrics.

Record t := mk {
  total_bytes : Z;
  deduped_bytes : Z;
  new_bytes : Z;
  deduped_bytes_by_global_dedup : Z;
  defrag_prevented_dedup_bytes : Z;
  total_chunks : Z;
  deduped_chunks : Z;
  new_chunks : Z;
  deduped_chunks_by_global_dedup : Z;
  defrag_prevented_dedup_chunks : Z;
  xorb_bytes_uploaded : Z;
  shard_bytes_uploaded : Z;
  total_bytes_uploaded : Z;
}.

Definition default : t := mk 0 0 0 0 0 0 0 0 0 0 0 0 0.

Definition merge_in (m other : t) : t :=
  mk (wrap64 (total_bytes m + total_bytes other))
     (wrap64 (deduped_bytes m + deduped_bytes other))
     (wrap64 (new_bytes m + new_bytes other))
     (wrap64 (deduped_bytes_by_global_dedup m + deduped_bytes_by_global_dedup other))
     (wrap64 (defrag_prevented_dedup_bytes m + defrag_prevented_dedup_bytes other))
     (wrap64 (total_chunks m + total_chunks other))
     (wrap64 (deduped_chunks m + deduped_chunks other))
     (wrap64 (new_chunks m + new_chunks other))
     (wrap64 (deduped_chunks_by_global_dedup m + deduped_chunks_by_global_dedup other))
     (wrap64 (defrag_prevented_dedup_chunks m + defrag_prevented_dedup_chunks other))
     (wrap64 (xorb_bytes_uploaded m + xorb_bytes_uploaded other))
     (wrap64 (shard_bytes_uploaded m + shard_bytes_uploaded other))
     (wrap64 (total_bytes_uploaded m + total_bytes_uploaded other)).

(** The four groups of increments in [process_chunks], each as metrics to add. *)
Definition of_global_dedup (chunks : nat) (bytes : Z) : t := mk 0 0 0 bytes 0 0 0 0 (Z.of_nat chunks) 0 0 0 0.
Definition of_deduped (chunks : nat) (bytes : Z) : t := mk bytes bytes 0 0 0 (Z.of_nat chunks) (Z.of_nat chunks) 0 0 0 0 0 0.
Definition of_prevented (chunks : nat) (bytes : Z) : t := mk 0 0 0 0 bytes 0 0 0 0 (Z.of_nat chunks) 0 0 0.
Definition of_new (bytes : nat) : t := mk (Z.of_nat bytes) 0 (Z.of_nat bytes) 0 0 1 0 1 0 0 0 0 0.

End DeduplicationMetrics.

(** ** The interface *)

Record FileXorbDependency := mkFileXorbDependency {
  dependency_file_id : Z;
  dependency_xorb_hash : DataHash;
  dependency_n_bytes : Z;
  is_external : bool;
}.

Abbreviation Segment := FileDataSequenceEntry.t.

(** The answer to a dedup query: how many of the chunks, where they are, and whether the shard is
    already uploaded. *)
Abbreviation DedupHit := (nat * Segment * bool)%type.

Class DeduplicationDataInterface (D E : Type) := {
  chunk_hash_dedup_query : D -> list DataHash -> result E (option DedupHit * D);
  register_global_dedup_query : D -> DataHash -> result E D;
  complete_global_dedup_queries : D -> result E (bool * D);
  register_new_xorb : D -> RawXorbData.t -> result E D;
  register_xorb_dependencies : D -> list FileXorbDependency -> D;
}.

(** An error of the interface, a panic, or a loop that does not end. *)
Inductive DedupError (E : Type) := Interface (e : E) | Panic | Diverges.
Arguments Interface {E} e.
Arguments Panic {E}.
Arguments Diverges {E}.

Definition interface {E A} (r : result E A) : result (DedupError E) A :=
  match r with Ok a => Ok a | Err e => Err (Interface e) end.

Definition or_panic {E A} (o : option A) : result (DedupError E) A := result_of_option Panic o.

(** ** Segments *)

(** [l.last_mut()] *)
Definition update_last {A} (f : A -> A) (l : list A) : list A := alter f (length l - 1) l.

Definition with_xorb_hash (h : DataHash) (s : Segment) : Segment :=
  FileDataSequenceEntry.mk h (FileDataSequenceEntry.xorb_flags s) (FileDataSequenceEntry.unpacked_segment_bytes s)
    (FileDataSequenceEntry.chunk_index_start s) (FileDataSequenceEntry.chunk_index_end s).

(** More bytes, up to another end. *)
Definition extend_segment (bytes end_ : Z) (s : Segment) : Segment :=
  FileDataSequenceEntry.mk (FileDataSequenceEntry.xorb_hash s) (FileDataSequenceEntry.xorb_flags s)
    (wrap32 (FileDataSequenceEntry.unpacked_segment_bytes s + bytes)) (FileDataSequenceEntry.chunk_index_start s) end_.

(** [for &idx in indices { file_info[idx].xorb_hash = xorb_hash }]; [None] when an index is out of
    range. *)
Fixpoint fill_in_hash (xorb_hash : DataHash) (indices : list nat) (file_info : list Segment) : option (list Segment) :=
  match indices with
  | [] => Some file_info
  | idx :: indices' =>
      if idx <? length file_info
      then fill_in_hash xorb_hash indices' (alter (with_xorb_hash xorb_hash) idx file_info)
      else None
  end.

(** ** The deduper *)

Module FileDeduper.

Record t (D : Type) := mk {
  data_mng : D;
  file_id : Z;
  new_data : list Chunk;
  new_data_size : nat;
  new_data_hash_lookup : gmap DataHash nat;
  chunk_hashes : list Node;
  file_info : list Segment;
  internally_referencing_entries : list nat;
  defrag_tracker : DefragPrevention.t;
  min_spacing_between_global_dedup_queries : nat;
  next_chunk_index_eligible_for_global_dedup_query : nat;
  deduplication_metrics : DeduplicationMetrics.t;
}.
Arguments mk {D}.
Arguments data_mng {D}.
Arguments file_id {D}.
Arguments new_data {D}.
Arguments new_data_size {D}.
Arguments new_data_hash_lookup {D}.
Arguments chunk_hashes {D}.
Arguments file_info {D}.
Arguments internally_referencing_entries {D}.
Arguments defrag_tracker {D}.
Arguments min_spacing_between_global_dedup_queries {D}.
Arguments next_chunk_index_eligible_for_global_dedup_query {D}.
Arguments deduplication_metrics {D}.

Section Deduper.
  Context `{B3 : Blake3} `{XC : XorbConstants} {D E : Type} `{DI : DeduplicationDataInterface D E}.

Definition new (data_manager : D) (file_id : Z) (defrag : DefragPrevention.t) : t D :=
    mk data_manager file_id [] 0 ∅ [] [] [] defrag 0 0 DeduplicationMetrics.default.

(** *** Updates of some of the fields *)

Definition with_data_mng (fd : t D) (d : D) : t D :=
    mk d (file_id fd) (new_data fd) (new_data_size fd) (new_data_hash_lookup fd) (chunk_hashes fd) (file_info fd)
      (internally_referencing_entries fd) (defrag_tracker fd) (min_spacing_between_global_dedup_queries fd)
      (next_chunk_index_eligible_for_global_dedup_query fd) (deduplication_metrics fd).

Definition with_next_query (fd : t D) (d : D) (next : nat) : t D :=
    mk d (file_id fd) (new_data fd) (new_data_size fd) (new_data_hash_lookup fd) (chunk_hashes fd) (file_info fd)
      (internally_referencing_entries fd) (defrag_tracker fd) (min_spacing_between_global_dedup_queries fd)
      next (deduplication_metrics fd).

Definition with_tracker (fd : t D) (tracker : DefragPrevention.t) : t D :=
    mk (data_mng fd) (file_id fd) (new_data fd) (new_data_size fd) (new_data_hash_lookup fd) (chunk_hashes fd) (file_info fd)
      (internally_referencing_entries fd) tracker (min_spacing_between_global_dedup_queries fd)
      (next_chunk_index_eligible_for_global_dedup_query fd) (deduplication_metrics fd).

Definition with_file_info (fd : t D) (info : list Segment) (internal : list nat) (tracker : DefragPrevention.t) : t D :=
    mk (data_mng fd) (file_id fd) (new_data fd) (new_data_size fd) (new_data_hash_lookup fd) (chunk_hashes fd) info
      internal tracker (min_spacing_between_global_dedup_queries fd)
      (next_chunk_index_eligible_for_global_dedup_query fd) (deduplication_metrics fd).

Definition with_new_data (fd : t D) (data : list Chunk) (bytes : nat) (lookup : gmap DataHash nat) : t D :=
    mk (data_mng fd) (file_id fd) data bytes lookup (chunk_hashes fd) (file_info fd)
      (internally_referencing_entries fd) (defrag_tracker fd) (min_spacing_between_global_dedup_queries fd)
      (next_chunk_index_eligible_for_global_dedup_query fd) (deduplication_metrics fd).

Definition with_totals (fd : t D) (hashes : list Node) (metrics : DeduplicationMetrics.t) : t D :=
    mk (data_mng fd) (file_id fd) (new_data fd) (new_data_size fd) (new_data_hash_lookup fd) hashes (file_info fd)
      (internally_referencing_entries fd) (defrag_tracker fd) (min_spacing_between_global_dedup_queries fd)
      (next_chunk_index_eligible_for_global_dedup_query fd) metrics.

(** *** Helpers of [process_chunks] *)

Definition file_data_sequence_continues_current (fd : t D) (fse : Segment) : bool :=
    match last (file_info fd) with
    | Some l =>
        bool_decide (FileDataSequenceEntry.xorb_hash l = FileDataSequenceEntry.xorb_hash fse) &&
        (FileDataSequenceEntry.chunk_index_end l =? FileDataSequenceEntry.chunk_index_start fse)%Z
    | None => false
    end.

Definition add_file_data_sequence_entry (fd : t D) (fse : Segment) (n_deduped : nat) : t D :=
    if file_data_sequence_continues_current fd fse
    then
      with_file_info fd
        (update_last (extend_segment (FileDataSequenceEntry.unpacked_segment_bytes fse) (FileDataSequenceEntry.chunk_index_end fse)) (file_info fd))
        (internally_referencing_entries fd)
        (DefragPrevention.increment_last_range_in_fragmentation_estimate (defrag_tracker fd) n_deduped)
    else
      with_file_info fd
        (file_info fd ++ [fse])
        (if decide (FileDataSequenceEntry.xorb_hash fse = marker)
         then internally_referencing_entries fd ++ [length (file_info fd)]
         else internally_referencing_entries fd)
        (DefragPrevention.add_range_to_fragmentation_estimate (defrag_tracker fd) n_deduped).

(** [None] when the code panics. *)
Definition cut_new_xorb (fd : t D) : option (RawXorbData.t * t D) :=
    new_xorb ← RawXorbData.from_chunks (new_data fd) [0];
    let xorb_hash := RawXorbData.hash new_xorb in
    file_info ← fill_in_hash xorb_hash (internally_referencing_entries fd) (file_info fd);
    Some (new_xorb, with_new_data (with_file_info fd file_info [] (defrag_tracker fd)) [] 0 ∅).

(** [for (i, chunk) in chunks.iter().enumerate().skip(1)], from index [i]. *)
Fixpoint local_run_loop (fd : t D) (base_idx i : nat) (chunks : list DataHash) (end_idx n_bytes : nat) : option (nat * nat) :=
    match chunks with
    | [] => Some (end_idx, n_bytes)
    | chunk :: chunks' =>
        match new_data_hash_lookup fd !! chunk with
        | Some idx =>
            if idx =? base_idx + i
            then c ← new_data fd !! idx; local_run_loop fd base_idx (i + 1) chunks' (idx + 1) (n_bytes + length (chunk_data c))
            else Some (end_idx, n_bytes)
        | None => Some (end_idx, n_bytes)
        end
    end.

(** The outer [None] when the code panics. *)
Definition dedup_query_against_local_data (fd : t D) (chunks : list DataHash) : option (option DedupHit) :=
    first ← chunks !! 0;
    match new_data_hash_lookup fd !! first with
    | Some base_idx =>
        c ← new_data fd !! base_idx;
        '(end_idx, n_bytes) ← local_run_loop fd base_idx 1 (drop 1 chunks) (base_idx + 1) (length (chunk_data c));
        fse ← FileDataSequenceEntry.new marker (Z.of_nat n_bytes) (Z.of_nat base_idx) (Z.of_nat end_idx);
        Some (Some (end_idx - base_idx, fse, false))
    | None => Some None
    end.

(** *** Querying the known shards *)

(** One round of [while local_chunk_index < chunks.len()]: the next index, and what changes. *)
Definition query_step (first_pass : bool) (hashes : list DataHash) (local_chunk_index : nat)
    (deduped_blocks : list (option DedupHit)) (fd : t D) (m : DeduplicationMetrics.t) :
    result (DedupError E) (nat * list (option DedupHit) * t D * DeduplicationMetrics.t) :=
    let global_chunk_index := length (chunk_hashes fd) + local_chunk_index in
    match deduped_blocks !! local_chunk_index with
    | Some (Some (n_deduped, _, _)) => Ok (local_chunk_index + n_deduped, deduped_blocks, fd, m)
    | _ =>
        '(hit, d) ← interface (chunk_hash_dedup_query (data_mng fd) (drop local_chunk_index hashes));
        let fd := with_data_mng fd d in
        match hit with
        | Some (n_deduped, fse, is_uploaded_shard) =>
            let m :=
              if first_pass then m
              else DeduplicationMetrics.merge_in m
                     (DeduplicationMetrics.of_global_dedup n_deduped (FileDataSequenceEntry.unpacked_segment_bytes fse)) in
            Ok (local_chunk_index + n_deduped,
                <[local_chunk_index := Some (n_deduped, fse, is_uploaded_shard)]> deduped_blocks, fd, m)
        | None =>
            hash ← or_panic (hashes !! local_chunk_index);
            fd ←
              (if first_pass
                  && ((global_chunk_index =? 0) || hash_is_global_dedup_eligible hash)
                  && (next_chunk_index_eligible_for_global_dedup_query fd <=? global_chunk_index)
               then
                 d ← interface (register_global_dedup_query (data_mng fd) hash);
                 Ok (with_next_query fd d (global_chunk_index + min_spacing_between_global_dedup_queries fd))
               else Ok fd);
            Ok (local_chunk_index + 1, deduped_blocks, fd, m)
        end
    end.

(** Every hit is for at least one chunk, so there are at most as many rounds as chunks; [Diverges]
    stands for a loop on hits of no chunk. *)
Fixpoint query_loop (fuel : nat) (first_pass : bool) (hashes : list DataHash) (local_chunk_index : nat)
    (deduped_blocks : list (option DedupHit)) (fd : t D) (m : DeduplicationMetrics.t) :
    result (DedupError E) (list (option DedupHit) * t D * DeduplicationMetrics.t) :=
    if negb (local_chunk_index <? length hashes) then Ok (deduped_blocks, fd, m)
    else
      match fuel with
      | O => Err Diverges
      | S fuel' =>
          '(local_chunk_index, deduped_blocks, fd, m) ← query_step first_pass hashes local_chunk_index deduped_blocks fd m;
          query_loop fuel' first_pass hashes local_chunk_index deduped_blocks fd m
      end.

(** One pass of [for first_pass in [true, false]]: the loop, then whether new shards came in. *)
Definition query_pass (first_pass : bool) (hashes : list DataHash) (deduped_blocks : list (option DedupHit)) (fd : t D)
    (m : DeduplicationMetrics.t) :
    result (DedupError E) (list (option DedupHit) * t D * DeduplicationMetrics.t * bool) :=
    '(deduped_blocks, fd, m) ← query_loop (length hashes) first_pass hashes 0 deduped_blocks fd m;
    '(new_shards_added, d) ← interface (complete_global_dedup_queries (data_mng fd));
    Ok (deduped_blocks, with_data_mng fd d, m, new_shards_added).

Definition query_passes (hashes : list DataHash) (fd : t D) :
    result (DedupError E) (list (option DedupHit) * t D * DeduplicationMetrics.t) :=
    let deduped_blocks := replicate (length hashes) None in
    '(deduped_blocks, fd, m, new_shards_added) ← query_pass true hashes deduped_blocks fd DeduplicationMetrics.default;
    if (new_shards_added : bool)
    then '(deduped_blocks, fd, m, _) ← query_pass false hashes deduped_blocks fd m; Ok (deduped_blocks, fd, m)
    else Ok (deduped_blocks, fd, m).

(** *** New data *)

(** [if new_data_size + n_bytes > .. { cut_new_xorb .. register_new_xorb }] *)
Definition make_room (fd : t D) (n_bytes : nat) (deps : list FileXorbDependency) :
    result (DedupError E) (t D * list FileXorbDependency) :=
    if (MAX_XORB_BYTES <? new_data_size fd + n_bytes) || (MAX_XORB_CHUNKS <? length (new_data fd) + 1)
    then
      '(new_xorb, fd) ← or_panic (cut_new_xorb fd);
      let deps := deps ++ [mkFileXorbDependency (file_id fd) (RawXorbData.hash new_xorb) (RawXorbData.num_bytes new_xorb) false] in
      d ← interface (register_new_xorb (data_mng fd) new_xorb);
      Ok (with_data_mng fd d, deps)
    else Ok (fd, deps).

(** The last entry is of the xorb being built and ends at its end. *)
Definition continues_new_data (fd : t D) : bool :=
    match last (file_info fd) with
    | Some l =>
        bool_decide (FileDataSequenceEntry.xorb_hash l = marker) &&
        (FileDataSequenceEntry.chunk_index_end l =? Z.of_nat (length (new_data fd)))%Z
    | None => false
    end.

Definition push_chunk (fd : t D) (chunk : Chunk) : t D :=
    with_new_data fd (new_data fd ++ [chunk]) (new_data_size fd + length (chunk_data chunk))
      (<[chunk_hash chunk := length (new_data fd)]> (new_data_hash_lookup fd)).

(** The entry of a new chunk, and the chunk itself; [None] when the code panics. *)
Definition append_chunk (fd : t D) (chunk : Chunk) : option (t D) :=
    let n_bytes := length (chunk_data chunk) in
    if continues_new_data fd
    then
      Some (push_chunk (with_file_info fd
        (update_last (fun l => extend_segment (wrap32 (Z.of_nat n_bytes)) (wrap32 (FileDataSequenceEntry.chunk_index_end l + 1)) l) (file_info fd))
        (internally_referencing_entries fd)
        (DefragPrevention.increment_last_range_in_fragmentation_estimate (defrag_tracker fd) 1)) chunk)
    else
      let chunk_idx := length (new_data fd) in
      fse ← FileDataSequenceEntry.new marker (Z.of_nat n_bytes) (Z.of_nat chunk_idx) (Z.of_nat (chunk_idx + 1));
      Some (push_chunk (with_file_info fd
        (file_info fd ++ [fse])
        (internally_referencing_entries fd ++ [length (file_info fd)])
        (DefragPrevention.add_range_to_fragmentation_estimate (defrag_tracker fd) 1)) chunk).

(** *** The main loop *)

(** The test [file_data_sequence_continues_current || allow_dedup_on_next_range], which runs the
    tracker only when the first part is false. *)
Definition allow_dedup (fd : t D) (fse : Segment) (n_deduped : nat) : bool * t D :=
    if file_data_sequence_continues_current fd fse then (true, fd)
    else
      let '(allowed, tracker) := DefragPrevention.allow_dedup_on_next_range (defrag_tracker fd) n_deduped in
      (allowed, with_tracker fd tracker).

Definition add_new_data (fd : t D) (chunk : Chunk) (m : DeduplicationMetrics.t) (deps : list FileXorbDependency) :
    result (DedupError E) (t D * DeduplicationMetrics.t * list FileXorbDependency) :=
    let n_bytes := length (chunk_data chunk) in
    let m := DeduplicationMetrics.merge_in m (DeduplicationMetrics.of_new n_bytes) in
    '(fd, deps) ← make_room fd n_bytes deps;
    fd ← or_panic (append_chunk fd chunk);
    Ok (fd, m, deps).

(** One round of [while cur_idx < chunks.len()]. *)
Definition process_step (chunks : list Chunk) (cur_idx : nat) (deduped_blocks : list (option DedupHit)) (fd : t D)
    (m : DeduplicationMetrics.t) (deps : list FileXorbDependency) :
    result (DedupError E) (nat * list (option DedupHit) * (t D * DeduplicationMetrics.t * list FileXorbDependency)) :=
    block ← or_panic (deduped_blocks !! cur_idx);
    let deduped_blocks := <[cur_idx := None]> deduped_blocks in
    dedupe_query ←
      match block with
      | Some hit => Ok (Some hit)
      | None => or_panic (dedup_query_against_local_data fd (drop cur_idx (chunk_hash <$> chunks)))
      end;
    chunk ← or_panic (chunks !! cur_idx);
    match dedupe_query with
    | Some (n_deduped, fse, is_external) =>
        let bytes := FileDataSequenceEntry.unpacked_segment_bytes fse in
        let m := DeduplicationMetrics.merge_in m (DeduplicationMetrics.of_deduped n_deduped bytes) in
        let '(allowed, fd) := allow_dedup fd fse n_deduped in
        if allowed
        then
          let deps :=
            if decide (FileDataSequenceEntry.xorb_hash fse = marker) then deps
            else deps ++ [mkFileXorbDependency (file_id fd) (FileDataSequenceEntry.xorb_hash fse) bytes is_external] in
          Ok (cur_idx + n_deduped, deduped_blocks, (add_file_data_sequence_entry fd fse n_deduped, m, deps))
        else
          let m := DeduplicationMetrics.merge_in m (DeduplicationMetrics.of_prevented n_deduped bytes) in
          st ← add_new_data fd chunk m deps; Ok (cur_idx + 1, deduped_blocks, st)
    | None => st ← add_new_data fd chunk m deps; Ok (cur_idx + 1, deduped_blocks, st)
    end.

Fixpoint process_loop (fuel : nat) (chunks : list Chunk) (cur_idx : nat) (deduped_blocks : list (option DedupHit)) (fd : t D)
    (m : DeduplicationMetrics.t) (deps : list FileXorbDependency) :
    result (DedupError E) (t D * DeduplicationMetrics.t * list FileXorbDependency) :=
    if negb (cur_idx <? length chunks) then Ok (fd, m, deps)
    else
      match fuel with
      | O => Err Diverges
      | S fuel' =>
          '(cur_idx, deduped_blocks, (fd, m, deps)) ← process_step chunks cur_idx deduped_blocks fd m deps;
          process_loop fuel' chunks cur_idx deduped_blocks fd m deps
      end.

Definition process_chunks (fd : t D) (chunks : list Chunk) : result (DedupError E) (DeduplicationMetrics.t * t D) :=
    '(deduped_blocks, fd, dedup_metrics) ← query_passes (chunk_hash <$> chunks) fd;
    '(fd, dedup_metrics, xorb_dependencies) ← process_loop (length chunks) chunks 0 deduped_blocks fd dedup_metrics [];
    let fd := with_totals fd (chunk_hashes fd ++ (chunk_node <$> chunks))
                (DeduplicationMetrics.merge_in (deduplication_metrics fd) dedup_metrics) in
    Ok (dedup_metrics,
        match xorb_dependencies with
        | [] => fd
        | _ => with_data_mng fd (register_xorb_dependencies (data_mng fd) xorb_dependencies)
        end).

End Deduper.

End FileDeduper.

(** ** What the interface promises

    [Holds d h nodes]: the xorb [h] is known in state [d], with these chunks.  A xorb hash names one
    list of chunks; its sizes fit the fields of the records; nothing that is known is forgotten; a hit
    names chunks with the hashes asked for; and a registered xorb is known.  No xorb is known under the
    all-ones marker, which stands for the xorb that is being built: an interface that is handed a
    xorb with that hash refuses it.  The code relies on that, since its hashes are of 256 bits: debug
    builds assert that no segment whose hash is filled in, and no dependency of a file, carries the
    marker ([cut_new_xorb], [DataAggregator::finalize], [register_dependencies]). *)

Definition nodes_size (nodes : list Node) : Z := foldr (fun n z => (n.2 + z)%Z) 0%Z nodes.

(** The chunks [[a, b)] of a xorb. *)
Definition range_of (nodes : list Node) (s : Segment) (hashes : list DataHash) : Prop :=
  exists a b,
    FileDataSequenceEntry.chunk_index_start s = Z.of_nat a /\ FileDataSequenceEntry.chunk_index_end s = Z.of_nat b /\
    a < b <= length nodes /\ hashes = nodes ⟦a, b⟧.*1 /\
    FileDataSequenceEntry.unpacked_segment_bytes s = nodes_size (nodes ⟦a, b⟧).

Definition nodes_bounded (nodes : list Node) : Prop :=
  Forall (fun n : Node => (0 <= n.2)%Z) nodes /\ (nodes_size nodes < 2 ^ 32)%Z /\ (Z.of_nat (length nodes) < 2 ^ 32)%Z.

(** The xorbs the deduper hands over: not empty, within the limits, and named by their chunks. *)
Definition xorb_within `{Blake3} `{XorbConstants} (x : RawXorbData.t) : Prop :=
  0 < length (RawXorbData.nodes x) <= MAX_XORB_CHUNKS /\
  (0 < RawXorbData.num_bytes x <= Z.of_nat MAX_XORB_BYTES)%Z /\ RawXorbData.num_bytes x = nodes_size (RawXorbData.nodes x) /\
  RawXorbData.hash x = xorb_hash (RawXorbData.nodes x).

Class DedupContract `{Blake3} `{XorbConstants} (D E : Type) `{DeduplicationDataInterface D E} := {
  Holds : D -> DataHash -> list Node -> Prop;
  Holds_unique d h n1 n2 : Holds d h n1 -> Holds d h n2 -> n1 = n2;
  Holds_not_marker d h n : Holds d h n -> h <> marker;
  Holds_bounded d h n : Holds d h n -> nodes_bounded n;
  query_keeps d hs r d' : chunk_hash_dedup_query d hs = Ok (r, d') -> forall h n, Holds d h n -> Holds d' h n;
  query_hit d hs n fse ext d' :
    chunk_hash_dedup_query d hs = Ok (Some (n, fse, ext), d') ->
    0 < n <= length hs /\ exists nodes, Holds d' (FileDataSequenceEntry.xorb_hash fse) nodes /\ range_of nodes fse (take n hs);
  register_query_keeps d c d' : register_global_dedup_query d c = Ok d' -> forall h n, Holds d h n -> Holds d' h n;
  complete_keeps d b d' : complete_global_dedup_queries d = Ok (b, d') -> forall h n, Holds d h n -> Holds d' h n;
  register_xorb_keeps d x d' : register_new_xorb d x = Ok d' -> forall h n, Holds d h n -> Holds d' h n;
  register_xorb_holds d x d' :
    register_new_xorb d x = Ok d' -> xorb_within x -> Holds d' (RawXorbData.hash x) (RawXorbData.nodes x);
  dependencies_keep d deps : forall h n, Holds d h n -> Holds (register_xorb_dependencies d deps) h n;
}.

(** ** Ranges of nodes *)

Lemma nodes_size_app l1 l2 : nodes_size (l1 ++ l2) = (nodes_size l1 + nodes_size l2)%Z.
Proof. induction l1 as [|n l1 IH]; simpl; [done|]. unfold nodes_size in *. lia. Qed.

Lemma nodes_size_pos l : Forall (fun n : Node => (0 <= n.2)%Z) l -> (0 <= nodes_size l)%Z.
Proof. induction 1 as [|n l Hn _ IH]; simpl; [done|]. unfold nodes_size in *. lia. Qed.

Lemma slice_split3 {A} a b (l : list A) : a <= b -> l = take a l ++ l ⟦a, b⟧ ++ drop b l.
Proof. intros. rewrite slice_then_drop by done. by rewrite take_drop. Qed.

Lemma slice_size_bound nodes a b :
  nodes_bounded nodes -> a <= b -> (0 <= nodes_size (nodes ⟦a, b⟧) <= nodes_size nodes)%Z.
Proof.
  intros (Hp & _ & _) Hab. pose proof (slice_split3 a b nodes Hab) as Hs.
  assert (nodes_size nodes = nodes_size (take a nodes) + (nodes_size (nodes ⟦a, b⟧) + nodes_size (drop b nodes)))%Z as ->
    by (rewrite <- !nodes_size_app; by f_equal).
  rewrite Hs, !Forall_app in Hp. destruct Hp as (H1%nodes_size_pos & H2%nodes_size_pos & H3%nodes_size_pos). lia.
Qed.

Lemma chunk_nodes_size l : nodes_size (chunk_node <$> l) = Z.of_nat (chunks_size l).
Proof. induction l as [|c l IH]; [done|]. change (nodes_size (chunk_node <$> c :: l)) with (Z.of_nat (length (chunk_data c)) + nodes_size (chunk_node <$> l))%Z.
  rewrite IH. unfold chunks_size. cbn [sum_list_with]. lia. Qed.

Lemma chunk_nodes_bounded l :
  (Z.of_nat (chunks_size l) < 2 ^ 32)%Z -> (Z.of_nat (length l) < 2 ^ 32)%Z -> nodes_bounded (chunk_node <$> l).
Proof.
  intros Hs Hl. split_and!; [|by rewrite chunk_nodes_size|by rewrite length_fmap].
  apply Forall_fmap, Forall_true. intros c. simpl. lia.
Qed.

Lemma slice_app_l {A} a b (l1 l2 : list A) : b <= length l1 -> (l1 ++ l2) ⟦a, b⟧ = l1 ⟦a, b⟧.
Proof.
  intros Hb. unfold slice. destruct (decide (a <= length l1)).
  - rewrite drop_app_le by done. rewrite take_app_le; [done|]. rewrite length_drop. lia.
  - replace (b - a) with 0 by lia. done.
Qed.

(** A range stays where it is when the xorb grows. *)
Lemma range_of_grow nodes extra s hs : range_of nodes s hs -> range_of (nodes ++ extra) s hs.
Proof.
  intros (a & b & Hs & He & Hab & Hh & Hu). exists a, b. rewrite slice_app_l by lia. rewrite length_app. split_and!; (done || lia).
Qed.

Lemma range_of_rename nodes s hs h : range_of nodes s hs -> range_of nodes (with_xorb_hash h s) hs.
Proof. done. Qed.

(** Two adjacent ranges of a xorb make one. *)
Lemma range_of_extend nodes s1 s2 hs1 hs2 :
  nodes_bounded nodes -> range_of nodes s1 hs1 -> range_of nodes s2 hs2 ->
  FileDataSequenceEntry.chunk_index_end s1 = FileDataSequenceEntry.chunk_index_start s2 ->
  range_of nodes (extend_segment (FileDataSequenceEntry.unpacked_segment_bytes s2) (FileDataSequenceEntry.chunk_index_end s2) s1) (hs1 ++ hs2).
Proof.
  intros Hb (a & b & Hs & He & Hab & -> & Hu) (a' & c & Hs' & He' & Hac & -> & Hu') Heq.
  assert (a' = b) as -> by lia. exists a, c. cbn. rewrite <- fmap_app, slice_app_slice by lia. split_and!; try (done || lia).
  rewrite Hu, Hu', <- nodes_size_app, slice_app_slice by lia. apply wrap32_small. unfold is_u32.
  pose proof (slice_size_bound nodes a c Hb ltac:(lia)). destruct Hb as (_ & Hb & _). lia.
Qed.

(** ** Filling in a hash *)

Definition fill (h : DataHash) (s : Segment) : Segment :=
  if decide (FileDataSequenceEntry.xorb_hash s = marker) then with_xorb_hash h s else s.

Lemma fill_in_hash_lookup h indices info :
  Forall (fun i => i < length info) indices ->
  exists info', fill_in_hash h indices info = Some info' /\
    forall i, info' !! i = (fun s => if decide (i ∈ indices) then with_xorb_hash h s else s) <$> info !! i.
Proof.
  revert info. induction indices as [|idx indices IH]; intros info Hf; cbn [fill_in_hash].
  - exists info. split; [done|]. intros i. destruct (info !! i); cbn; [|done]. by rewrite decide_False by (by intros []%elem_of_nil).
  - apply Forall_cons in Hf as [Hi Hf]. apply Nat.ltb_lt in Hi. rewrite Hi.
    destruct (IH (alter (with_xorb_hash h) idx info)) as (info' & -> & Hl).
    { eapply Forall_impl; [exact Hf|]. intros. by rewrite length_alter. }
    exists info'. split; [done|]. intros i. rewrite Hl. destruct (decide (i = idx)) as [->|Hne].
    + rewrite list_lookup_alter_eq. destruct (info !! idx); cbn; [|done].
      rewrite (decide_True (P := idx ∈ idx :: indices)) by left. by destruct (decide (idx ∈ indices)).
    + rewrite list_lookup_alter_ne by done. destruct (info !! i); cbn; [|done]. f_equal.
      apply decide_ext. rewrite elem_of_cons. naive_solver.
Qed.

(** The indices are those of the marked entries. *)
Definition marks (indices : list nat) (info : list Segment) : Prop :=
  Forall (fun i => i < length info) indices /\
  forall i s, info !! i = Some s -> FileDataSequenceEntry.xorb_hash s = marker <-> i ∈ indices.

Lemma fill_in_hash_marks h indices info : marks indices info -> fill_in_hash h indices info = Some (fill h <$> info).
Proof.
  intros [Hf Hm]. destruct (fill_in_hash_lookup h indices info Hf) as (info' & -> & Hl). f_equal.
  apply list_eq. intros i. rewrite Hl, list_lookup_fmap. destruct (info !! i) as [s|] eqn:E; cbn; [|done]. f_equal.
  unfold fill. apply decide_ext. symmetry. by apply Hm.
Qed.

Lemma marks_app indices info s :
  marks indices info ->
  marks (if decide (FileDataSequenceEntry.xorb_hash s = marker) then indices ++ [length info] else indices) (info ++ [s]).
Proof.
  intros [Hf Hm]. assert (forall i, i ∈ indices -> i < length info) as Hlt by (by apply Forall_forall).
  split.
  - apply Forall_forall. intros i Hi. rewrite length_app. cbn [length].
    case_decide; [apply elem_of_app in Hi as [Hi|Hi%list_elem_of_singleton]|]; [apply Hlt in Hi; lia|lia|apply Hlt in Hi; lia].
  - intros i s' [Hs'|(Hge & Hs')]%lookup_app_Some.
    + rewrite (Hm i s' Hs'). apply lookup_lt_Some in Hs'. case_decide; [|done].
      rewrite elem_of_app, list_elem_of_singleton. intuition lia.
    + apply list_lookup_singleton_Some in Hs' as [H0 <-]. assert (i = length info) as -> by lia.
      case_decide as Hd; [rewrite elem_of_app, list_elem_of_singleton; naive_solver|].
      split; [done|]. intros Hi%Hlt. lia.
Qed.

Lemma marks_update_last indices info f :
  marks indices info -> (forall s, FileDataSequenceEntry.xorb_hash (f s) = FileDataSequenceEntry.xorb_hash s) ->
  marks indices (update_last f info).
Proof.
  intros [Hf Hm] Hh. unfold update_last. split; [by setoid_rewrite length_alter|].
  intros i s Hs. destruct (decide (i = length info - 1)) as [->|Hne].
  - rewrite list_lookup_alter_eq in Hs. apply fmap_Some in Hs as (s' & Hs' & ->). rewrite Hh. by apply Hm.
  - rewrite list_lookup_alter_ne in Hs by done. by apply Hm.
Qed.

(** ** The invariant of the deduper *)

Section Invariant.
  Context `{B3 : Blake3} `{XC : XorbConstants} {D E : Type} `{DI : !DeduplicationDataInterface D E} `{DC : !DedupContract D E}.

Definition extends (d d' : D) : Prop := forall h n, Holds d h n -> Holds d' h n.

(** The segment [s] of a file is the chunks [hs], where [new_data] is the xorb being built. *)
Definition segment_in (d : D) (new_data : list Chunk) (s : Segment) (hs : list DataHash) : Prop :=
    exists nodes,
      (if decide (FileDataSequenceEntry.xorb_hash s = marker) then nodes = chunk_node <$> new_data
       else Holds d (FileDataSequenceEntry.xorb_hash s) nodes) /\ range_of nodes s hs.

(** The segments of a file are its chunks, in order. *)
Definition segments_in (d : D) (new_data : list Chunk) (info : list Segment) (hashes : list DataHash) : Prop :=
    exists hss, Forall2 (segment_in d new_data) info hss /\ concat hss = hashes.

(** A chunk that can be part of a xorb: it is not empty. *)
Definition storable (c : Chunk) : Prop := 0 < length (chunk_data c).

(** The chunks of the xorb being built. *)
Definition new_data_ok (new_data : list Chunk) : Prop :=
    chunks_size new_data <= MAX_XORB_BYTES /\ length new_data <= MAX_XORB_CHUNKS /\
    Forall storable new_data.

Record Inv (fd : FileDeduper.t D) (hashes : list DataHash) : Prop := {
    inv_size : FileDeduper.new_data_size fd = chunks_size (FileDeduper.new_data fd);
    inv_new_data : new_data_ok (FileDeduper.new_data fd);
    inv_lookup : forall h i, FileDeduper.new_data_hash_lookup fd !! h = Some i ->
      exists c, FileDeduper.new_data fd !! i = Some c /\ chunk_hash c = h;
    inv_marks : marks (FileDeduper.internally_referencing_entries fd) (FileDeduper.file_info fd);
    inv_segments : segments_in (FileDeduper.data_mng fd) (FileDeduper.new_data fd) (FileDeduper.file_info fd) hashes;
  }.

Lemma storable_size nd : nd <> [] -> Forall storable nd -> 0 < chunks_size nd.
Proof. intros Hne H. destruct H as [|c nd Hc _]; [done|]. unfold chunks_size, storable in *. simpl. lia. Qed.

Lemma new_data_bounded nd : new_data_ok nd -> nodes_bounded (chunk_node <$> nd).
Proof.
  intros (Hb & Hc & _). pose proof MAX_XORB_BYTES_u32. pose proof MAX_XORB_CHUNKS_u32. apply chunk_nodes_bounded; lia.
Qed.

Lemma segment_in_extends d d' nd s hs : extends d d' -> segment_in d nd s hs -> segment_in d' nd s hs.
Proof. intros He (nodes & Hn & Hr). exists nodes. split; [|done]. case_decide; [done|by apply He]. Qed.

Lemma segment_in_push d nd c s hs : segment_in d nd s hs -> segment_in d (nd ++ [c]) s hs.
Proof.
  intros (nodes & Hn & Hr). unfold segment_in. case_decide.
  - exists (chunk_node <$> (nd ++ [c])). split; [done|]. rewrite fmap_app, <- Hn. by apply range_of_grow.
  - by exists nodes.
Qed.

(** Cutting the xorb gives the marked segments its hash. *)
Lemma segment_in_fill d d' nd h s hs :
    extends d d' -> (FileDataSequenceEntry.xorb_hash s = marker -> Holds d' h (chunk_node <$> nd)) -> h <> marker ->
    segment_in d nd s hs -> forall nd', segment_in d' nd' (fill h s) hs.
Proof.
  intros He Hh Hne (nodes & Hn & Hr) nd'. unfold segment_in, fill.
  destruct (decide (FileDataSequenceEntry.xorb_hash s = marker)) as [Hm|Hm]; exists nodes.
  - rewrite decide_False by done. cbn. subst nodes. split; [by apply Hh|by apply range_of_rename].
  - rewrite decide_False by done. split; [by apply He|done].
Qed.

Lemma segments_in_extends d d' nd info hashes : extends d d' -> segments_in d nd info hashes -> segments_in d' nd info hashes.
Proof.
  intros He (hss & Hf & Hc). exists hss. split; [|done]. eapply Forall2_impl; [done|]. intros s hs. by apply segment_in_extends.
Qed.

Lemma segments_in_app d nd info hashes s hs :
    segments_in d nd info hashes -> segment_in d nd s hs -> segments_in d nd (info ++ [s]) (hashes ++ hs).
Proof.
  intros (hss & Hf & Hc) Hs. exists (hss ++ [hs]). split; [by apply Forall2_app; [|constructor]|].
  rewrite concat_app, Hc. cbn. by rewrite app_nil_r.
Qed.

(** The last segment replaced by one that also covers [hs]. *)
Lemma segments_in_update_last d nd info hashes l f hs :
    segments_in d nd info hashes -> last info = Some l ->
    (forall hs0, segment_in d nd l hs0 -> segment_in d nd (f l) (hs0 ++ hs)) ->
    segments_in d nd (update_last f info) (hashes ++ hs).
Proof.
  intros (hss & Hf & Hc) Hl Hup. apply last_Some in Hl as (info' & ->).
  apply Forall2_app_inv_l in Hf as (hss1 & hss2 & H1 & H2 & ->).
  apply Forall2_cons_inv_l in H2 as (hs0 & hss' & H0 & Hnil%Forall2_nil_inv_l & ->). subst hss'.
  exists (hss1 ++ [hs0 ++ hs]). unfold update_last. rewrite length_app. cbn [length].
  replace (length info' + 1 - 1) with (length info' + 0) by lia. rewrite alter_app_r. cbn.
  split; [apply Forall2_app; [done|constructor; [by apply Hup|constructor]]|].
  rewrite <- Hc, !concat_app. cbn. by rewrite !app_nil_r, app_assoc.
Qed.

(** *** Segments *)

Lemma segment_in_join d nd l fse hs0 hs :
    new_data_ok nd -> FileDataSequenceEntry.xorb_hash l = FileDataSequenceEntry.xorb_hash fse ->
    FileDataSequenceEntry.chunk_index_end l = FileDataSequenceEntry.chunk_index_start fse ->
    segment_in d nd l hs0 -> segment_in d nd fse hs ->
    segment_in d nd (extend_segment (FileDataSequenceEntry.unpacked_segment_bytes fse) (FileDataSequenceEntry.chunk_index_end fse) l) (hs0 ++ hs).
Proof.
  intros Hnd Hh He (n1 & Hn1 & Hr1) (n2 & Hn2 & Hr2). unfold segment_in. cbn [extend_segment FileDataSequenceEntry.xorb_hash].
  rewrite Hh in *. exists n1. split; [done|].
  assert (n1 = n2 /\ nodes_bounded n1) as [<- Hb].
  { case_decide; [subst; split; [done|by apply new_data_bounded]|].
    split; [by eapply Holds_unique|by eapply Holds_bounded]. }
  by apply range_of_extend.
Qed.

Lemma Inv_extends fd hashes d : Inv fd hashes -> extends (FileDeduper.data_mng fd) d -> Inv (FileDeduper.with_data_mng fd d) hashes.
Proof. intros [] He. split; [done..|]. cbn. by eapply segments_in_extends. Qed.

Lemma Inv_tracker fd hashes t : Inv fd hashes -> Inv (FileDeduper.with_tracker fd t) hashes.
Proof. by intros []; split. Qed.

Lemma Inv_next_query fd hashes d n : Inv fd hashes -> extends (FileDeduper.data_mng fd) d -> Inv (FileDeduper.with_next_query fd d n) hashes.
Proof. intros [] He. split; [done..|]. cbn. by eapply segments_in_extends. Qed.

(** Adding a segment of chunks adds the chunks. *)
Lemma add_entry_inv fd hashes fse n hs :
    Inv fd hashes -> segment_in (FileDeduper.data_mng fd) (FileDeduper.new_data fd) fse hs ->
    Inv (FileDeduper.add_file_data_sequence_entry fd fse n) (hashes ++ hs).
Proof.
  intros [Hs Hnd Hl Hm Hseg] Hfse. unfold FileDeduper.add_file_data_sequence_entry.
  destruct (FileDeduper.file_data_sequence_continues_current fd fse) eqn:Hc; split; try done; cbn.
  - by apply marks_update_last.
  - unfold FileDeduper.file_data_sequence_continues_current in Hc.
    destruct (last (FileDeduper.file_info fd)) as [l|] eqn:El; [|done].
    apply andb_true_iff in Hc as [Hh%bool_decide_eq_true He%Z.eqb_eq].
    eapply segments_in_update_last; [done|done|]. intros hs0 H0. by apply segment_in_join.
  - by apply marks_app.
  - by apply segments_in_app.
Qed.

(** *** New chunks *)

Definition single (c : Chunk) (idx : nat) : Segment :=
    FileDataSequenceEntry.mk marker MDB_DEFAULT_FILE_FLAG (Z.of_nat (length (chunk_data c))) (Z.of_nat idx) (Z.of_nat (idx + 1)).

Lemma single_in d nd c : segment_in d (nd ++ [c]) (single c (length nd)) [chunk_hash c].
Proof.
  exists (chunk_node <$> (nd ++ [c])). split; [by rewrite decide_True|]. exists (length nd), (length nd + 1).
  rewrite length_fmap, length_app. cbn [length]. split_and!; try (done || lia).
  all: rewrite fmap_app, <- (app_nil_r (_ <$> [c])), slice_middle by (rewrite ?length_fmap; simpl; lia).
  - done.
  - cbn. lia.
Qed.

Definition fits (fd : FileDeduper.t D) (c : Chunk) : Prop :=
    chunks_size (FileDeduper.new_data fd) + length (chunk_data c) <= MAX_XORB_BYTES /\ length (FileDeduper.new_data fd) + 1 <= MAX_XORB_CHUNKS.

Lemma push_chunk_inv fd hashes c info internal tracker :
    Inv fd hashes -> storable c -> fits fd c -> marks internal info ->
    segments_in (FileDeduper.data_mng fd) (FileDeduper.new_data fd ++ [c]) info (hashes ++ [chunk_hash c]) ->
    Inv (FileDeduper.push_chunk (FileDeduper.with_file_info fd info internal tracker) c) (hashes ++ [chunk_hash c]).
Proof.
  intros [Hs (Hb & Hc & Hne) Hl _ _] Hh [Hf1 Hf2] Hm Hseg. split; cbn; try done.
  - rewrite Hs, chunks_size_app. unfold chunks_size. simpl. lia.
  - split_and!; [rewrite chunks_size_app; unfold chunks_size in *; simpl; lia|rewrite length_app; simpl; lia|].
    apply Forall_app. by split; [|constructor].
  - intros h i [[<- <-]|[Hne' Hi]]%lookup_insert_Some.
    + exists c. by rewrite lookup_app_r, Nat.sub_diag by lia.
    + destruct (Hl h i Hi) as (c' & Hc' & <-). exists c'. split; [|done]. by apply lookup_app_l_Some.
Qed.

Lemma segments_in_push d nd c info hashes : segments_in d nd info hashes -> segments_in d (nd ++ [c]) info hashes.
Proof. intros (hss & Hf & Hc). exists hss. split; [|done]. eapply Forall2_impl; [done|]. intros s hs. by apply segment_in_push. Qed.

(** What the steps of a call leave alone. *)
Definition frame (fd fd' : FileDeduper.t D) : Prop :=
    FileDeduper.chunk_hashes fd' = FileDeduper.chunk_hashes fd /\ FileDeduper.file_id fd' = FileDeduper.file_id fd /\
    FileDeduper.deduplication_metrics fd' = FileDeduper.deduplication_metrics fd.

Lemma append_chunk_inv fd hashes c :
    Inv fd hashes -> storable c -> fits fd c ->
    exists fd', FileDeduper.append_chunk fd c = Some fd' /\ Inv fd' (hashes ++ [chunk_hash c]) /\ frame fd fd' /\
      FileDeduper.data_mng fd' = FileDeduper.data_mng fd.
Proof.
  intros Hinv Hh Hf. pose proof Hinv as [Hs Hnd Hl Hm Hseg]. pose proof MAX_XORB_BYTES_u32. pose proof MAX_XORB_CHUNKS_u32.
  pose proof Hf as [Hf1 Hf2]. apply (segments_in_push _ _ c) in Hseg.
  unfold FileDeduper.append_chunk. destruct (FileDeduper.continues_new_data fd) eqn:Hc.
  - eexists. split; [done|]. split; [|done]. apply push_chunk_inv; [done..|by apply marks_update_last|].
    unfold FileDeduper.continues_new_data in Hc. destruct (last (FileDeduper.file_info fd)) as [l|] eqn:El; [|done].
    apply andb_true_iff in Hc as [Hlm%bool_decide_eq_true He%Z.eqb_eq].
    eapply segments_in_update_last; [done|done|]. intros hs0 Hl0. cbn beta.
    rewrite He, !wrap32_small by (unfold is_u32; lia).
    replace (Z.of_nat (length (FileDeduper.new_data fd)) + 1)%Z with (Z.of_nat (length (FileDeduper.new_data fd) + 1)) by lia.
    refine (segment_in_join _ _ l (single c (length (FileDeduper.new_data fd))) _ _ _ Hlm He Hl0 (single_in _ _ _)).
    destruct Hnd as (_ & _ & Hne). split_and!; [rewrite chunks_size_app; unfold chunks_size in *; simpl; lia|rewrite length_app; simpl; lia|].
    apply Forall_app. by split; [|constructor].
  - unfold FileDataSequenceEntry.new. rewrite !try_u32_small by (unfold is_u32; lia). cbn [mbind option_bind].
    eexists. split; [done|]. split; [|done]. apply push_chunk_inv; [done..| |].
    + apply (marks_app _ _ (single c (length (FileDeduper.new_data fd)))) in Hm. by rewrite decide_True in Hm.
    + apply segments_in_app; [done|apply single_in].
Qed.

(** *** Runs that end, without a panic, in a value or in an error of the interface *)

Definition returns {A} (r : result (DedupError E) A) (P : A -> Prop) : Prop :=
    match r with
    | Ok a => P a
    | Err (Interface _) => True
    | Err Panic | Err Diverges => False
    end.

Lemma returns_bind {A B} (r : result (DedupError E) A) (k : A -> result (DedupError E) B) P Q :
    returns r P -> (forall a, P a -> returns (k a) Q) -> returns (r ≫= k) Q.
Proof. destruct r as [a|[]]; cbn; auto. Qed.

Lemma returns_interface {A} (r : result E A) (P : A -> Prop) : (forall a, r = Ok a -> P a) -> returns (interface r) P.
Proof. destruct r; cbn; auto. Qed.

Lemma returns_impl {A} (r : result (DedupError E) A) (P Q : A -> Prop) : returns r P -> (forall a, P a -> Q a) -> returns r Q.
Proof. destruct r as [a|[]]; cbn; auto. Qed.

(** An invariant of the interface, for xorbs within the limits. *)
Record interface_invariant (I : D -> Prop) : Prop := {
    keeps_query d hs r d' : chunk_hash_dedup_query d hs = Ok (r, d') -> I d -> I d';
    keeps_register_query d c d' : register_global_dedup_query d c = Ok d' -> I d -> I d';
    keeps_complete d b d' : complete_global_dedup_queries d = Ok (b, d') -> I d -> I d';
    keeps_register_xorb d x d' : register_new_xorb d x = Ok d' -> xorb_within x -> I d -> I d';
    keeps_dependencies d deps : I d -> I (register_xorb_dependencies d deps);
  }.

Section Steps.
  Context (I : D -> Prop) (HI : interface_invariant I).

(** What every part of a call keeps, from [fd] to [fd']. *)
Definition progress (fd fd' : FileDeduper.t D) : Prop :=
    frame fd fd' /\ extends (FileDeduper.data_mng fd) (FileDeduper.data_mng fd') /\ I (FileDeduper.data_mng fd').

Lemma progress_trans fd1 fd2 fd3 : progress fd1 fd2 -> progress fd2 fd3 -> progress fd1 fd3.
Proof.
  intros ((F1 & F2 & F3) & E1 & _) ((G1 & G2 & G3) & E2 & I2).
  split_and!; [split_and!; congruence| |done]. intros h n Hn. by apply E2, E1.
Qed.

Lemma progress_same fd fd' :
    I (FileDeduper.data_mng fd) -> frame fd fd' -> FileDeduper.data_mng fd' = FileDeduper.data_mng fd -> progress fd fd'.
Proof. intros Hi Hf Heq. split_and!; [done|rewrite Heq; by intros h n|by rewrite Heq]. Qed.

(** *** Cutting a xorb *)

Lemma cut_new_xorb_ok fd hashes :
    Inv fd hashes -> FileDeduper.new_data fd <> [] ->
    exists x fd', FileDeduper.cut_new_xorb fd = Some (x, fd') /\ xorb_within x /\
      frame fd fd' /\ FileDeduper.data_mng fd' = FileDeduper.data_mng fd /\ FileDeduper.new_data fd' = [] /\
      forall d, extends (FileDeduper.data_mng fd) d -> Holds d (RawXorbData.hash x) (RawXorbData.nodes x) ->
        Inv (FileDeduper.with_data_mng fd' d) hashes.
Proof.
  intros [Hs Hnd Hl Hm Hseg] Hne. pose proof Hnd as (Hb & Hc & Hmk).
  pose proof MAX_XORB_BYTES_u32. pose proof MAX_XORB_CHUNKS_u32.
  destruct (from_chunks_ok (FileDeduper.new_data fd) [0]) as (x & Hx & Hh & Hn & Hnb & _); [lia|lia|].
  unfold FileDeduper.cut_new_xorb. rewrite Hx. cbn [mbind option_bind]. rewrite fill_in_hash_marks by done. cbn [mbind option_bind].
  exists x. eexists. split; [done|]. split_and!; try done.
  - unfold xorb_within. rewrite Hh, Hnb, Hn, length_fmap, chunk_nodes_size.
    pose proof (storable_size _ Hne Hmk). split_and!; try (done || lia). destruct (FileDeduper.new_data fd); [done|simpl; lia].
  - intros d Hd Hx'. pose proof (Holds_not_marker _ _ _ Hx') as Hxm. rewrite Hn in Hx'. split; cbn; try done.
    + split_and!; [unfold chunks_size; simpl; lia|simpl; lia|constructor].
    + split; [constructor|]. intros i s Hi. rewrite list_lookup_fmap in Hi. apply fmap_Some in Hi as (s' & _ & ->).
      unfold fill. split; [|by intros ?%elem_of_nil]. case_decide; cbn; [intros Hbad; by rewrite Hbad in Hxm|done].
    + destruct Hseg as (hss & Hf & Hcat). exists hss. split; [|done]. apply Forall2_fmap_l.
      eapply Forall2_impl; [done|]. intros s hs Hsi. by eapply segment_in_fill.
Qed.

Lemma make_room_ok fd hashes c deps :
    Inv fd hashes -> I (FileDeduper.data_mng fd) -> length (chunk_data c) <= MAX_XORB_BYTES ->
    returns (FileDeduper.make_room fd (length (chunk_data c)) deps)
      (fun '(fd', _) => Inv fd' hashes /\ fits fd' c /\ progress fd fd').
Proof.
  intros Hinv Hi Hc. pose proof (inv_size _ _ Hinv) as Hs. pose proof MAX_XORB_CHUNKS_u32.
  unfold FileDeduper.make_room. destruct (_ || _) eqn:Hfull.
  - assert (FileDeduper.new_data fd <> []) as Hne.
    { intros Hnil. rewrite Hnil in Hs. unfold chunks_size in Hs. simpl in Hs. rewrite Hs, Hnil in Hfull. simpl in Hfull.
      apply orb_true_iff in Hfull as [Hf%Nat.ltb_lt|Hf%Nat.ltb_lt]; lia. }
    destruct (cut_new_xorb_ok fd hashes Hinv Hne) as (x & fd' & -> & Hw & Hfr & Hd & Hnil & Hcut).
    cbn -[xorb_hash]. eapply returns_bind with (P := fun d => _).
    { apply returns_interface. intros d Hreg. rewrite Hd in Hreg. exact Hreg. }
    intros d Hreg. cbn beta in Hreg. cbn. split_and!.
    + apply Hcut; [intros h n; by eapply register_xorb_keeps|by eapply register_xorb_holds].
    + unfold fits. cbn. rewrite Hnil. unfold chunks_size. simpl. lia.
    + split; [exact Hfr|]. split; [intros h n; cbn; by eapply register_xorb_keeps|]. cbn. by eapply (keeps_register_xorb I HI).
  - apply orb_false_iff in Hfull as [Hf1%Nat.ltb_ge Hf2%Nat.ltb_ge]. cbn. split_and!; [done| |by apply progress_same].
    split; lia.
Qed.

Lemma add_new_data_ok fd hashes c m deps :
    Inv fd hashes -> I (FileDeduper.data_mng fd) -> length (chunk_data c) <= MAX_XORB_BYTES -> storable c ->
    returns (FileDeduper.add_new_data fd c m deps)
      (fun '(fd', m', _) => Inv fd' (hashes ++ [chunk_hash c]) /\ progress fd fd' /\
         m' = DeduplicationMetrics.merge_in m (DeduplicationMetrics.of_new (length (chunk_data c)))).
Proof.
  intros Hinv Hi Hc Hh. unfold FileDeduper.add_new_data. eapply returns_bind; [by eapply make_room_ok|].
  intros [fd1 deps1] (Hinv1 & Hfit & Hp1). destruct (append_chunk_inv fd1 hashes c) as (fd2 & -> & Hinv2 & Hfr & Hd); [done..|].
  cbn. split_and!; [done| |done]. eapply progress_trans; [done|]. apply progress_same; [apply Hp1|done|done].
Qed.

(** *** Deduplication against the xorb being built *)

Lemma slice_cons {A} a b (l : list A) x : l !! a = Some x -> a < b -> l ⟦a, b⟧ = x :: l ⟦S a, b⟧.
Proof.
  intros Hx Hab. unfold slice. rewrite (drop_S _ x) by done. replace (b - a) with (S (b - S a)) by lia. done.
Qed.

Lemma local_run_loop_ok fd hashes base i rest nb :
    Inv fd hashes -> base + i <= length (FileDeduper.new_data fd) ->
    exists k, k <= length rest /\ base + i + k <= length (FileDeduper.new_data fd) /\
      chunk_hash <$> (FileDeduper.new_data fd) ⟦base + i, base + i + k⟧ = take k rest /\
      FileDeduper.local_run_loop fd base i rest (base + i) nb =
        Some (base + i + k, nb + chunks_size ((FileDeduper.new_data fd) ⟦base + i, base + i + k⟧)).
Proof.
  intros Hinv. revert i nb. induction rest as [|h rest IH]; intros i nb Hlen; cbn [FileDeduper.local_run_loop].
  - exists 0. rewrite Nat.add_0_r. unfold slice. rewrite Nat.sub_diag, !take_0. cbn. unfold chunks_size. cbn. by rewrite Nat.add_0_r.
  - assert (exists k, k <= length (h :: rest) /\ base + i + k <= length (FileDeduper.new_data fd) /\
      chunk_hash <$> (FileDeduper.new_data fd) ⟦base + i, base + i + k⟧ = take k (h :: rest) /\
      Some (base + i, nb) = Some (base + i + k, nb + chunks_size ((FileDeduper.new_data fd) ⟦base + i, base + i + k⟧))) as Hstop.
    { exists 0. rewrite Nat.add_0_r. unfold slice. rewrite Nat.sub_diag, !take_0. split_and!; [lia|done|done|]. unfold chunks_size. cbn. by rewrite Nat.add_0_r. }
    destruct (FileDeduper.new_data_hash_lookup fd !! h) as [idx|] eqn:Hidx; [|exact Hstop].
    destruct (Nat.eqb_spec idx (base + i)) as [->|]; [|exact Hstop]. clear Hstop.
    destruct (inv_lookup _ _ Hinv h _ Hidx) as (c & Hc & <-). pose proof (lookup_lt_Some _ _ _ Hc) as Hlt.
    rewrite Hc. cbn [mbind option_bind].
    destruct (IH (i + 1) (nb + length (chunk_data c))) as (k & Hk & Hkl & Hh & Hr); [lia|].
    exists (S k). replace (base + i + 1) with (base + (i + 1)) by lia. rewrite Hr. rewrite !(slice_cons (base + i) _ _ c) by (done || lia).
    replace (base + i + S k) with (base + (i + 1) + k) by lia. replace (S (base + i)) with (base + (i + 1)) by lia.
    split_and!; [simpl; lia|lia|by rewrite fmap_cons, Hh|]. do 2 f_equal. unfold chunks_size. cbn [sum_list_with]. lia.
Qed.

(** A hit at the head of [hs] is for some of its chunks. *)
Definition hit_ok (d : D) (nd : list Chunk) (hs : list DataHash) (hit : DedupHit) : Prop :=
    0 < hit.1.1 <= length hs /\ segment_in d nd hit.1.2 (take hit.1.1 hs).

Lemma local_query_ok fd hashes hs :
    Inv fd hashes -> hs <> [] ->
    exists r, FileDeduper.dedup_query_against_local_data fd hs = Some r /\
      forall hit, r = Some hit -> hit_ok (FileDeduper.data_mng fd) (FileDeduper.new_data fd) hs hit.
Proof.
  intros Hinv Hne. destruct hs as [|h hs]; [done|]. unfold FileDeduper.dedup_query_against_local_data. cbn [lookup list_lookup mbind option_bind].
  destruct (FileDeduper.new_data_hash_lookup fd !! h) as [base|] eqn:Hb; [|by exists None].
  destruct (inv_lookup _ _ Hinv h base Hb) as (c & Hc & <-). pose proof (lookup_lt_Some _ _ _ Hc) as Hlt.
  rewrite Hc. cbn [mbind option_bind]. change (drop 1 (chunk_hash c :: hs)) with hs.
  destruct (local_run_loop_ok fd hashes base 1 hs (length (chunk_data c)) Hinv ltac:(lia)) as (k & Hk & Hkl & Hh & ->).
  cbn [mbind option_bind]. set (nd := FileDeduper.new_data fd) in *.
  assert (length (chunk_data c) + chunks_size (nd ⟦base + 1, base + 1 + k⟧) = chunks_size (nd ⟦base, base + 1 + k⟧)) as ->.
  { rewrite (slice_cons base _ _ c) by (done || lia). by replace (S base) with (base + 1) by lia. }
  pose proof (new_data_bounded _ (inv_new_data _ _ Hinv)) as Hbd.
  pose proof (slice_size_bound _ base (base + 1 + k) Hbd ltac:(lia)) as Hsz. destruct Hbd as (_ & Hbs & Hbl).
  change (chunk_node <$> FileDeduper.new_data fd) with (chunk_node <$> nd) in *.
  assert ((chunk_node <$> nd) ⟦base, base + 1 + k⟧ = chunk_node <$> nd ⟦base, base + 1 + k⟧) as Hmap
    by (unfold slice; by rewrite fmap_take, fmap_drop).
  rewrite length_fmap in Hbl. rewrite Hmap, chunk_nodes_size in Hsz.
  unfold FileDataSequenceEntry.new. rewrite !try_u32_small by (unfold is_u32; lia). cbn [mbind option_bind].
  eexists. split; [done|]. intros hit [= <-]. split; cbn [fst snd]; [simpl; lia|].
  exists (chunk_node <$> nd). split; [by rewrite decide_True|]. exists base, (base + 1 + k).
  rewrite length_fmap, Hmap, chunk_nodes_size. split_and!; try (done || lia).
  rewrite (slice_cons base _ _ c) by (done || lia). replace (S base) with (base + 1) by lia.
  replace (base + 1 + k - base) with (S k) by lia. rewrite <- list_fmap_compose. cbn. f_equal. by rewrite <- Hh.
Qed.

(** *** Querying the known shards *)

Definition blocks_ok (d : D) (hashes : list DataHash) (blocks : list (option DedupHit)) : Prop :=
    length blocks = length hashes /\
    forall i n fse ext, blocks !! i = Some (Some (n, fse, ext)) ->
      0 < n <= length (drop i hashes) /\
      exists nodes, Holds d (FileDataSequenceEntry.xorb_hash fse) nodes /\ range_of nodes fse (take n (drop i hashes)).

Lemma blocks_ok_extends d d' hashes blocks : extends d d' -> blocks_ok d hashes blocks -> blocks_ok d' hashes blocks.
Proof.
  intros He [Hl Hb]. split; [done|]. intros i n fse ext Hi. destruct (Hb i n fse ext Hi) as (Hn & nodes & Hh & Hr).
  split; [done|]. exists nodes. split; [by apply He|done].
Qed.

Lemma blocks_ok_insert d hashes blocks i b :
    blocks_ok d hashes blocks ->
    (forall n fse ext, b = Some (n, fse, ext) -> 0 < n <= length (drop i hashes) /\
      exists nodes, Holds d (FileDataSequenceEntry.xorb_hash fse) nodes /\ range_of nodes fse (take n (drop i hashes))) ->
    blocks_ok d hashes (<[i := b]> blocks).
Proof.
  intros [Hl Hb] Hnew. split; [by rewrite length_insert|]. intros j n fse ext [(<- & Heq & _)|[_ Hj]]%list_lookup_insert_Some.
  - by apply (Hnew n fse ext).
  - by apply (Hb j n fse ext).
Qed.

(** The counters that the queries leave at zero. *)
Definition uncounted (m : DeduplicationMetrics.t) : Prop :=
    DeduplicationMetrics.total_chunks m = 0%Z /\ DeduplicationMetrics.deduped_chunks m = 0%Z /\ DeduplicationMetrics.new_chunks m = 0%Z /\
    DeduplicationMetrics.total_bytes m = 0%Z /\ DeduplicationMetrics.deduped_bytes m = 0%Z /\ DeduplicationMetrics.new_bytes m = 0%Z /\
    DeduplicationMetrics.defrag_prevented_dedup_chunks m = 0%Z.

Lemma uncounted_global m n b : uncounted m -> uncounted (DeduplicationMetrics.merge_in m (DeduplicationMetrics.of_global_dedup n b)).
Proof. intros (H1 & H2 & H3 & H4 & H5 & H6 & H7). unfold uncounted. cbn. by rewrite H1, H2, H3, H4, H5, H6, H7. Qed.

Definition queried (hashes : list DataHash) (fd : FileDeduper.t D) (hs : list DataHash)
      (blocks' : list (option DedupHit)) (fd' : FileDeduper.t D) (m' : DeduplicationMetrics.t) : Prop :=
    Inv fd' hashes /\ progress fd fd' /\ blocks_ok (FileDeduper.data_mng fd') hs blocks' /\ uncounted m'.

(** A chunk that no shard has: perhaps a global query. *)
Lemma global_query_ok fd hashes (b : bool) h next :
    Inv fd hashes -> I (FileDeduper.data_mng fd) ->
    returns (if b
             then d ← interface (register_global_dedup_query (FileDeduper.data_mng fd) h); Ok (FileDeduper.with_next_query fd d next)
             else Ok fd) (fun fd' => Inv fd' hashes /\ progress fd fd').
Proof.
  intros Hinv Hi. destruct b; [|split; [done|by apply progress_same]].
  eapply returns_bind; [apply returns_interface; intros d Hd; exact Hd|]. intros d Hd. cbn beta in Hd.
  pose proof (register_query_keeps _ _ _ Hd) as Hext. split; [by apply Inv_next_query|].
  split; [done|split; [done|]]. cbn. by eapply (keeps_register_query I HI).
Qed.

Lemma query_step_ok first_pass hashes hs i blocks fd m :
    Inv fd hashes -> I (FileDeduper.data_mng fd) -> blocks_ok (FileDeduper.data_mng fd) hs blocks -> uncounted m -> i < length hs ->
    returns (FileDeduper.query_step first_pass hs i blocks fd m)
      (fun '(i', blocks', fd', m') => i < i' /\ queried hashes fd hs blocks' fd' m').
Proof.
  intros Hinv Hi Hb Hm Hlt. unfold FileDeduper.query_step. cbn zeta.
  destruct (blocks !! i) as [[[[n fse] ext]|]|] eqn:Hbi.
  1: { destruct (proj2 Hb _ _ _ _ Hbi) as [Hn _]. split; [lia|]. split_and!; [done|by apply progress_same|done|done]. }
  all: eapply returns_bind with (P := fun '(hit, d) => chunk_hash_dedup_query (FileDeduper.data_mng fd) (drop i hs) = Ok (hit, d));
    [apply returns_interface; by intros [hit d]|].
  2: { apply lookup_ge_None in Hbi. destruct Hb. lia. }
  intros [hit d] Hq. pose proof (query_keeps _ _ _ _ Hq) as Hext.
  assert (progress fd (FileDeduper.with_data_mng fd d)) as Hp by (split; [done|split; [done|by eapply (keeps_query I HI)]]).
  pose proof (Inv_extends _ _ _ Hinv Hext) as Hinv'. pose proof (blocks_ok_extends _ _ _ _ Hext Hb) as Hb'.
  destruct hit as [[[n fse] ext]|].
  - destruct (query_hit _ _ _ _ _ _ Hq) as (Hn & Hh). split; [lia|].
    split_and!; [done|done| |by destruct first_pass; [|apply uncounted_global]].
    apply blocks_ok_insert; [done|]. by intros n' fse' ext' [= <- <- <-].
  - destruct (lookup_lt_is_Some_2 hs i Hlt) as [h ->]. cbn [or_panic result_of_option mbind result_bind].
    eapply returns_bind; [apply (global_query_ok _ hashes); [done|apply Hp]|].
    intros fd' [Hinv2 Hp2]. pose proof (progress_trans _ _ _ Hp Hp2) as Hp3. split; [lia|]. split_and!; [done|done| |done].
    eapply blocks_ok_extends; [|exact Hb]. apply Hp3.
Qed.

Lemma query_loop_ok fuel first_pass hashes hs i blocks fd m :
    Inv fd hashes -> I (FileDeduper.data_mng fd) -> blocks_ok (FileDeduper.data_mng fd) hs blocks -> uncounted m ->
    length hs - i <= fuel ->
    returns (FileDeduper.query_loop fuel first_pass hs i blocks fd m) (fun '(blocks', fd', m') => queried hashes fd hs blocks' fd' m').
Proof.
  revert i blocks fd m. induction fuel as [|fuel IH]; intros i blocks fd m Hinv Hi Hb Hm Hfuel; cbn [FileDeduper.query_loop];
    (destruct (Nat.ltb_spec i (length hs)) as [Hlt|Hge]; [|split_and!; [done|by apply progress_same|done|done]]); [lia|].
  cbn [negb]. eapply returns_bind; [by apply (query_step_ok _ hashes)|].
  intros [[[i1 b1] fd1] m1] (Hi1 & Hinv1 & Hp1 & Hb1 & Hm1). eapply returns_impl; [apply IH; [done|apply Hp1|done|done|lia]|].
  intros [[b2 fd2] m2] (Hinv2 & Hp2 & Hb2 & Hm2). split_and!; [done|by eapply progress_trans|done|done].
Qed.

Lemma query_pass_ok first_pass hashes hs blocks fd m :
    Inv fd hashes -> I (FileDeduper.data_mng fd) -> blocks_ok (FileDeduper.data_mng fd) hs blocks -> uncounted m ->
    returns (FileDeduper.query_pass first_pass hs blocks fd m) (fun '(blocks', fd', m', _) => queried hashes fd hs blocks' fd' m').
Proof.
  intros Hinv Hi Hb Hm. unfold FileDeduper.query_pass.
  eapply returns_bind; [apply (query_loop_ok _ _ hashes); [done..|lia]|]. intros [[b1 fd1] m1] (Hinv1 & Hp1 & Hb1 & Hm1).
  eapply returns_bind with (P := fun '(b, d) => complete_global_dedup_queries (FileDeduper.data_mng fd1) = Ok (b, d));
    [apply returns_interface; by intros [b d]|].
  intros [b d] Hc. pose proof (complete_keeps _ _ _ Hc) as Hext. cbn. split_and!; [by apply Inv_extends| |by eapply blocks_ok_extends|done].
  eapply progress_trans; [done|]. split; [done|split; [done|]]. eapply (keeps_complete I HI); [done|apply Hp1].
Qed.

Lemma query_passes_ok hashes hs fd :
    Inv fd hashes -> I (FileDeduper.data_mng fd) ->
    returns (FileDeduper.query_passes hs fd) (fun '(blocks', fd', m') => queried hashes fd hs blocks' fd' m').
Proof.
  intros Hinv Hi. unfold FileDeduper.query_passes. cbn zeta.
  eapply returns_bind; [apply (query_pass_ok _ hashes); [done|done| |done]|].
  { split; [by rewrite length_replicate|]. intros i n fse ext Hr. by apply lookup_replicate in Hr as [? _]. }
  intros [[[b1 fd1] m1] more] (Hinv1 & Hp1 & Hb1 & Hm1). destruct more; [|by split_and!].
  eapply returns_bind; [apply (query_pass_ok _ hashes); [done|apply Hp1|done|done]|].
  intros [[[b2 fd2] m2] more] (Hinv2 & Hp2 & Hb2 & Hm2). split_and!; [done|by eapply progress_trans|done|done].
Qed.

(** *** The main loop *)

(** Every chunk up to [cur] is counted once, and those whose deduplication was prevented twice; the
    totals are the deduplicated and the new. *)
Definition counted (m : DeduplicationMetrics.t) (cur : nat) : Prop :=
    DeduplicationMetrics.total_chunks m = wrap64 (Z.of_nat cur + DeduplicationMetrics.defrag_prevented_dedup_chunks m) /\
    DeduplicationMetrics.total_chunks m = wrap64 (DeduplicationMetrics.deduped_chunks m + DeduplicationMetrics.new_chunks m) /\
    DeduplicationMetrics.total_bytes m = wrap64 (DeduplicationMetrics.deduped_bytes m + DeduplicationMetrics.new_bytes m).

Lemma counted_merge m cur cur' other :
    counted m cur ->
    (Z.of_nat cur + DeduplicationMetrics.total_chunks other = Z.of_nat cur' + DeduplicationMetrics.defrag_prevented_dedup_chunks other)%Z ->
    (DeduplicationMetrics.total_chunks other = DeduplicationMetrics.deduped_chunks other + DeduplicationMetrics.new_chunks other)%Z ->
    (DeduplicationMetrics.total_bytes other = DeduplicationMetrics.deduped_bytes other + DeduplicationMetrics.new_bytes other)%Z ->
    counted (DeduplicationMetrics.merge_in m other) cur'.
Proof.
  intros (H1 & H2 & H3) E1 E2 E3. unfold counted. cbn -[wrap64]. rewrite !wrap64_l, !wrap64_r.
  split_and!; [rewrite H1|rewrite H2|rewrite H3]; rewrite wrap64_l; f_equal; lia.
Qed.

Lemma counted_deduped m cur n b : counted m cur -> counted (DeduplicationMetrics.merge_in m (DeduplicationMetrics.of_deduped n b)) (cur + n).
Proof. intros Hc. apply (counted_merge _ cur); [done|cbn; lia..]. Qed.

Lemma counted_new m cur b : counted m cur -> counted (DeduplicationMetrics.merge_in m (DeduplicationMetrics.of_new b)) (cur + 1).
Proof. intros Hc. apply (counted_merge _ cur); [done|cbn; lia..]. Qed.

Lemma counted_prevented m cur n b : counted m (cur + n) -> counted (DeduplicationMetrics.merge_in m (DeduplicationMetrics.of_prevented n b)) cur.
Proof. intros Hc. apply (counted_merge _ (cur + n)); [done|cbn; lia..]. Qed.

Lemma uncounted_counted m : uncounted m -> counted m 0.
Proof. intros (H1 & H2 & H3 & H4 & H5 & H6 & H7). unfold counted. by rewrite H1, H2, H3, H4, H5, H6, H7. Qed.

Lemma external_hit_ok d nd hs n fse ext :
    (0 < n <= length hs /\ exists nodes, Holds d (FileDataSequenceEntry.xorb_hash fse) nodes /\ range_of nodes fse (take n hs)) ->
    hit_ok d nd hs (n, fse, ext).
Proof.
  intros (Hn & nodes & Hh & Hr). split; [done|]. exists nodes. rewrite decide_False by (by eapply Holds_not_marker). done.
Qed.

(** The chunks of a call. *)
Definition chunk_ok (c : Chunk) : Prop := length (chunk_data c) <= MAX_XORB_BYTES /\ storable c.

Lemma allow_dedup_ok fd hashes fse n :
    Inv fd hashes -> I (FileDeduper.data_mng fd) ->
    let fd' := (FileDeduper.allow_dedup fd fse n).2 in
    Inv fd' hashes /\ progress fd fd' /\ FileDeduper.data_mng fd' = FileDeduper.data_mng fd /\ FileDeduper.new_data fd' = FileDeduper.new_data fd.
Proof.
  intros Hinv Hi. cbn zeta. unfold FileDeduper.allow_dedup. destruct (FileDeduper.file_data_sequence_continues_current fd fse).
  - split_and!; [done|by apply progress_same|done|done].
  - destruct (DefragPrevention.allow_dedup_on_next_range _ _) as [b t]. cbn.
    split_and!; [by apply Inv_tracker|by apply progress_same|done|done].
Qed.

Definition processed (h0 : list DataHash) (fd : FileDeduper.t D) (hs : list DataHash) (cur : nat)
      (fd' : FileDeduper.t D) (m' : DeduplicationMetrics.t) : Prop :=
    Inv fd' (h0 ++ take cur hs) /\ progress fd fd' /\ counted m' cur.

Lemma new_chunk_step fd fd1 h0 chunks cur c m deps blocks :
    Inv fd1 (h0 ++ take cur (chunk_hash <$> chunks)) -> progress fd fd1 -> chunk_ok c -> chunks !! cur = Some c -> counted m cur ->
    blocks_ok (FileDeduper.data_mng fd) (chunk_hash <$> chunks) blocks ->
    returns (st ← FileDeduper.add_new_data fd1 c m deps; Ok (cur + 1, blocks, st))
      (fun '(cur', blocks', (fd', m', _)) => cur < cur' <= length chunks /\
         processed h0 fd (chunk_hash <$> chunks) cur' fd' m' /\ blocks_ok (FileDeduper.data_mng fd') (chunk_hash <$> chunks) blocks').
Proof.
  intros Hinv Hp1 [Hc Hm] Hl Hcnt Hb. pose proof (lookup_lt_Some _ _ _ Hl).
  eapply returns_bind; [apply (add_new_data_ok fd1); [exact Hinv|apply Hp1|done|done]|].
  intros [[fd2 m2] deps2] (Hinv2 & Hp2 & ->). pose proof (progress_trans _ _ _ Hp1 Hp2) as Hp3.
  split; [lia|]. split; [split_and!; [|done|by apply counted_new]|eapply blocks_ok_extends; [apply Hp3|done]].
  rewrite Nat.add_1_r. erewrite take_S_r by (rewrite list_lookup_fmap, Hl; done). by rewrite app_assoc.
Qed.

Lemma process_step_ok h0 chunks cur blocks fd m deps :
    Forall chunk_ok chunks -> cur < length chunks ->
    Inv fd (h0 ++ take cur (chunk_hash <$> chunks)) -> I (FileDeduper.data_mng fd) ->
    blocks_ok (FileDeduper.data_mng fd) (chunk_hash <$> chunks) blocks -> counted m cur ->
    returns (FileDeduper.process_step chunks cur blocks fd m deps)
      (fun '(cur', blocks', (fd', m', _)) => cur < cur' <= length chunks /\
         processed h0 fd (chunk_hash <$> chunks) cur' fd' m' /\ blocks_ok (FileDeduper.data_mng fd') (chunk_hash <$> chunks) blocks').
Proof.
  intros Hok Hlt Hinv Hi Hb Hcnt. set (hs := chunk_hash <$> chunks) in *. unfold FileDeduper.process_step.
  assert (length hs = length chunks) as Hlen by apply length_fmap.
  destruct (lookup_lt_is_Some_2 blocks cur ltac:(destruct Hb; lia)) as [b Hbc]. rewrite Hbc. cbn [or_panic result_of_option mbind result_bind].
  assert (blocks_ok (FileDeduper.data_mng fd) hs (<[cur := None]> blocks)) as Hb' by (by apply blocks_ok_insert).
  eapply returns_bind with (P := fun q => forall hit, q = Some hit ->
    hit_ok (FileDeduper.data_mng fd) (FileDeduper.new_data fd) (drop cur hs) hit).
  { destruct b as [hit|].
    - intros ? [= <-]. destruct hit as [[n fse] ext]. apply external_hit_ok. by apply (proj2 Hb _ _ _ ext).
    - destruct (local_query_ok fd _ (drop cur hs) Hinv) as (r & Er & Hr); [|fold hs; by rewrite Er].
      intros Hnil%(f_equal length). rewrite length_drop in Hnil. simpl in Hnil. lia. }
  intros q Hq. destruct (lookup_lt_is_Some_2 chunks cur Hlt) as [c Hc]. rewrite Hc. cbn [or_panic result_of_option mbind result_bind].
  pose proof (proj1 (Forall_lookup _ _) Hok _ _ Hc) as Hcok.
  destruct q as [[[n fse] ext]|]; [|by apply new_chunk_step; [|apply progress_same|..]].
  destruct (Hq _ eq_refl) as [Hn Hseg]. cbn [fst snd] in Hn, Hseg. rewrite length_drop, Hlen in Hn.
  destruct (allow_dedup_ok fd _ fse n Hinv Hi) as (Hinv1 & Hp1 & Hd1 & Hnd1).
  destruct (FileDeduper.allow_dedup fd fse n) as [[|] fd1]; cbn [snd] in *; cbn zeta.
  - split; [lia|]. split; [split_and!|].
    + rewrite <- take_take_drop, app_assoc. apply add_entry_inv; [done|]. by rewrite Hd1, Hnd1.
    + eapply progress_trans; [done|]. unfold FileDeduper.add_file_data_sequence_entry.
      destruct (FileDeduper.file_data_sequence_continues_current fd1 fse); by apply progress_same; [apply Hp1| |].
    + by apply counted_deduped.
    + eapply blocks_ok_extends; [|done]. rewrite <- Hd1. unfold FileDeduper.add_file_data_sequence_entry.
      by destruct (FileDeduper.file_data_sequence_continues_current fd1 fse); intros h k.
  - apply new_chunk_step; [done..|by apply counted_prevented, counted_deduped|done].
Qed.

Lemma process_loop_ok fuel h0 chunks cur blocks fd m deps :
    Forall chunk_ok chunks -> cur <= length chunks -> length chunks - cur <= fuel ->
    Inv fd (h0 ++ take cur (chunk_hash <$> chunks)) -> I (FileDeduper.data_mng fd) ->
    blocks_ok (FileDeduper.data_mng fd) (chunk_hash <$> chunks) blocks -> counted m cur ->
    returns (FileDeduper.process_loop fuel chunks cur blocks fd m deps)
      (fun '(fd', m', _) => processed h0 fd (chunk_hash <$> chunks) (length chunks) fd' m').
Proof.
  intros Hok. revert cur blocks fd m deps. induction fuel as [|fuel IH]; intros cur blocks fd m deps Hle Hfuel Hinv Hi Hb Hcnt;
    cbn [FileDeduper.process_loop];
    (destruct (Nat.ltb_spec cur (length chunks)) as [Hlt|Hge];
     [|assert (cur = length chunks) as -> by lia; split_and!; [done|by apply progress_same|done]]); [lia|].
  cbn [negb]. eapply returns_bind; [by apply (process_step_ok h0)|].
  intros [[cur1 b1] [[fd1 m1] deps1]] (Hcur & (Hinv1 & Hp1 & Hc1) & Hb1).
  eapply returns_impl; [apply IH; [lia|lia|done|apply Hp1|done|done]|].
  intros [[fd2 m2] deps2] (Hinv2 & Hp2 & Hc2). split_and!; [done|by eapply progress_trans|done].
Qed.

Lemma process_chunks_ok fd chunks :
    Forall chunk_ok chunks -> Inv fd (FileDeduper.chunk_hashes fd).*1 -> I (FileDeduper.data_mng fd) ->
    returns (FileDeduper.process_chunks fd chunks)
      (fun '(m, fd') => Inv fd' (FileDeduper.chunk_hashes fd').*1 /\
         FileDeduper.chunk_hashes fd' = FileDeduper.chunk_hashes fd ++ (chunk_node <$> chunks) /\
         FileDeduper.file_id fd' = FileDeduper.file_id fd /\
         extends (FileDeduper.data_mng fd) (FileDeduper.data_mng fd') /\ I (FileDeduper.data_mng fd') /\
         counted m (length chunks)).
Proof.
  intros Hok Hinv Hi. unfold FileDeduper.process_chunks.
  eapply returns_bind; [by apply (query_passes_ok (FileDeduper.chunk_hashes fd).*1)|].
  intros [[b1 fd1] m1] (Hinv1 & Hp1 & Hb1 & Hm1).
  eapply returns_bind; [apply (process_loop_ok _ (FileDeduper.chunk_hashes fd).*1); [done|lia|lia| |apply Hp1|done|by apply uncounted_counted]|].
  { by rewrite take_0, app_nil_r. }
  intros [[fd2 m2] deps] (Hinv2 & Hp2 & Hc2). destruct (progress_trans _ _ _ Hp1 Hp2) as ((Hch & Hid & _) & Hext & Hi2).
  rewrite take_ge in Hinv2 by (rewrite length_fmap; lia).
  set (fd3 := FileDeduper.with_totals _ _ _).
  assert (Inv fd3 (FileDeduper.chunk_hashes fd3).*1) as Hinv3.
  { destruct Hinv2. split; try done. cbn. rewrite fmap_app, Hch, <- list_fmap_compose. done. }
  cbn. destruct deps as [|dep deps].
  - split_and!; [done|by rewrite <- Hch|done|done|done|done].
  - split_and!; [apply (Inv_extends fd3); [done|]; by intros h n; apply dependencies_keep|by rewrite <- Hch|done| | |done].
    + intros h n Hn. by apply dependencies_keep, Hext.
    + by apply (keeps_dependencies I HI).
Qed.

(** *** A file that arrives in several calls *)

Fixpoint process_file (fd : FileDeduper.t D) (calls : list (list Chunk)) : result (DedupError E) (FileDeduper.t D) :=
    match calls with
    | [] => Ok fd
    | chunks :: calls' => '(_, fd) ← FileDeduper.process_chunks fd chunks; process_file fd calls'
    end.

Lemma process_file_ok fd calls :
    Forall chunk_ok (concat calls) -> Inv fd (FileDeduper.chunk_hashes fd).*1 -> I (FileDeduper.data_mng fd) ->
    returns (process_file fd calls)
      (fun fd' => Inv fd' (FileDeduper.chunk_hashes fd').*1 /\
         FileDeduper.chunk_hashes fd' = FileDeduper.chunk_hashes fd ++ (chunk_node <$> concat calls) /\
         FileDeduper.file_id fd' = FileDeduper.file_id fd /\
         extends (FileDeduper.data_mng fd) (FileDeduper.data_mng fd') /\ I (FileDeduper.data_mng fd')).
Proof.
  revert fd. induction calls as [|chunks calls IH]; intros fd Hok Hinv Hi; cbn [process_file concat].
  - cbn. rewrite app_nil_r. split_and!; try done. by intros h n.
  - cbn [concat] in Hok. apply Forall_app in Hok as [Hok1 Hok2]. eapply returns_bind; [by apply process_chunks_ok|].
    intros [m fd1] (Hinv1 & Hch1 & Hid1 & Hext1 & Hi1 & _). eapply returns_impl; [by apply IH|].
    intros fd2 (Hinv2 & Hch2 & Hid2 & Hext2 & Hi2). split_and!; [done| |congruence|intros h n Hn; by apply Hext2, Hext1|done].
    rewrite Hch2, Hch1, fmap_app, app_assoc. done.
Qed.

Lemma new_inv d id defrag : Inv (FileDeduper.new d id defrag) [].
Proof.
  split; cbn; [done| |intros h i Hi; by rewrite lookup_empty in Hi| |by exists []].
  - split_and!; [unfold chunks_size; simpl; lia|simpl; lia|constructor].
  - split; [constructor|]. intros i s Hi. by rewrite lookup_nil in Hi.
Qed.

End Steps.

Lemma trivial_invariant : interface_invariant (fun _ => True).
Proof. by split. Qed.

End Invariant.

(** ** Properties of the deduper *)

Section Properties.
  Context `{B3 : Blake3} `{XC : XorbConstants} {D E : Type} `{DI : !DeduplicationDataInterface D E} `{DC : !DedupContract D E}.

(** C20: a file is processed without a panic or an endless loop, and only xorbs within the limits are
    handed over.  For a file whose chunks each fit a xorb, every run of the deduper ends, in a value
    or in an error of the interface, which is assumed to keep its contract and so never to accept a xorb
    under the marker hash; any property of the interface that registering a nonempty xorb
    of at most the maximum number of chunks and bytes, named by its own chunks, keeps, is kept by
    the run; and the data left over is within the same limits. *)
Theorem dedup_total_within_limits I d id defrag calls :
    interface_invariant I -> I d -> Forall chunk_ok (concat calls) ->
    returns (process_file (FileDeduper.new d id defrag) calls)
      (fun fd => I (FileDeduper.data_mng fd) /\ chunks_size (FileDeduper.new_data fd) <= MAX_XORB_BYTES /\
         length (FileDeduper.new_data fd) <= MAX_XORB_CHUNKS).
Proof.
  intros HI Hi Hok. eapply returns_impl; [by apply (process_file_ok I HI); [|apply new_inv|]|].
  intros fd (Hinv & _ & _ & _ & Hi'). destruct (inv_new_data _ _ Hinv) as (Hb & Hc & _). done.
Qed.

(** The counts of a call.  Modulo 2^64, the total number of chunks reported is the number of
    chunks processed plus the number whose deduplication was prevented, which are counted once as
    deduplicated and again as new data; the totals of chunks and of bytes are those of the
    deduplicated and of the new together. *)
Theorem dedup_metrics_counts d id defrag calls fd chunks m fd' :
    Forall chunk_ok (concat calls) -> Forall chunk_ok chunks ->
    process_file (FileDeduper.new d id defrag) calls = Ok fd -> FileDeduper.process_chunks fd chunks = Ok (m, fd') ->
    DeduplicationMetrics.total_chunks m =
      wrap64 (Z.of_nat (length chunks) + DeduplicationMetrics.defrag_prevented_dedup_chunks m) /\
    DeduplicationMetrics.total_chunks m = wrap64 (DeduplicationMetrics.deduped_chunks m + DeduplicationMetrics.new_chunks m) /\
    DeduplicationMetrics.total_bytes m = wrap64 (DeduplicationMetrics.deduped_bytes m + DeduplicationMetrics.new_bytes m).
Proof.
  intros Hok Hok' Hf Hp.
  pose proof (process_file_ok _ trivial_invariant (FileDeduper.new d id defrag) calls Hok (new_inv _ _ _) Logic.I) as Hr.
  rewrite Hf in Hr. destruct Hr as (Hinv & _).
  pose proof (process_chunks_ok _ trivial_invariant fd chunks Hok' Hinv Logic.I) as Hr.
  rewrite Hp in Hr. apply Hr.
Qed.

End Properties.
