(* ===== verification/Aggregator.v ===== *)
(** * From deduplicated files to xorbs and file information

    Model of [xet_data/src/deduplication/data_aggregator.rs] and of [FileDeduper::finalize]: the
    remainder of a file, its merge with those of other files into one xorb, and the file
    information that results. *)

From Stdlib Require Import SpecFloat.
From coqutil Require Import Byte Word.LittleEndianList.
From stdpp Require Import base numbers gmap list.
From S2P Require Import Prelude DataHash AggregatedHash Chunking FileStructs XorbStructs RawXorb Defrag Dedup.

Module DataAggregator.

Record t := mk {
  chunks : list Chunk;
  num_bytes : nat;
  pending_file_info : list (MDBFileInfo.t * list nat * Z);
  file_boundaries : list nat;
}.

Definition new (chunks : list Chunk) (pending_file_info : MDBFileInfo.t) (internally_referencing_entries : list nat) (file_id : Z) : t :=
  mk chunks (chunks_size chunks) [(pending_file_info, internally_referencing_entries, file_id)]
    (match chunks with [] => [] | _ => [0] end).

Definition is_empty (a : t) : bool :=
  match chunks a, pending_file_info a with [], [] => true | _, _ => false end.

Definition num_chunks (a : t) : nat := length (chunks a).

Definition with_segments (fi : MDBFileInfo.t) (segments : list Segment) : MDBFileInfo.t :=
  MDBFileInfo.mk (MDBFileInfo.metadata fi) segments (MDBFileInfo.verification fi) (MDBFileInfo.metadata_ext fi).

(** [for &i in chunk_hash_indices_ref]: the segments and the bytes of the file that are in the xorb;
    [None] when an index is out of range. *)
Fixpoint fill_and_count (xorb_hash : DataHash) (indices : list nat) (segments : list Segment) (bytes : Z) : option (list Segment * Z) :=
  match indices with
  | [] => Some (segments, bytes)
  | i :: indices' =>
      s ← segments !! i;
      fill_and_count xorb_hash indices' (<[i := with_xorb_hash xorb_hash s]> segments)
        (wrap64 (bytes + FileDataSequenceEntry.unpacked_segment_bytes s))
  end.

(** The file information of one pending file [(fi, indices, file_id)], filled in. *)
Definition fill_pending (xorb_hash : DataHash) (p : MDBFileInfo.t * list nat * Z) : option (Z * MDBFileInfo.t * Z) :=
  '(segments, bytes) ← fill_and_count xorb_hash p.1.2 (MDBFileInfo.segments p.1.1) 0;
  Some (p.2, with_segments p.1.1 segments, bytes).

Section Finalize.
  Context `{B3 : Blake3}.

(** [None] when the code panics. *)
Definition finalize (a : t) : option (RawXorbData.t * list (Z * MDBFileInfo.t * Z)) :=
    xorb_data ← RawXorbData.from_chunks (chunks a) (file_boundaries a);
    files ← mapM (fill_pending (RawXorbData.hash xorb_data)) (pending_file_info a);
    Some (xorb_data, files).

End Finalize.

(** [fi.chunk_index_start += shift; fi.chunk_index_end += shift] *)
Definition shift_segment (shift : Z) (s : Segment) : Segment :=
  if decide (FileDataSequenceEntry.xorb_hash s = marker)
  then FileDataSequenceEntry.mk (FileDataSequenceEntry.xorb_hash s) (FileDataSequenceEntry.xorb_flags s)
         (FileDataSequenceEntry.unpacked_segment_bytes s)
         (wrap32 (FileDataSequenceEntry.chunk_index_start s + shift)) (wrap32 (FileDataSequenceEntry.chunk_index_end s + shift))
  else s.

Definition merge_in (a other : t) : t :=
  let shift := wrap32 (Z.of_nat (length (chunks a))) in
  mk (chunks a ++ chunks other) (num_bytes a + num_bytes other)
    (pending_file_info a ++
     ((fun '(fi, indices, id) => (with_segments fi (shift_segment shift <$> MDBFileInfo.segments fi), indices, id)) <$> pending_file_info other))
    (file_boundaries a ++ ((fun idx => idx + Z.to_nat shift) <$> file_boundaries other)).

End DataAggregator.

(** ** [FileDeduper::finalize] *)

Section FinalizeFile.
  Context `{B3 : Blake3} {D : Type}.

(** [self.file_info.iter().map(..)]; [None] when a slice is out of range. *)
Fixpoint verification_loop (entries : list Segment) (chunk_idx : nat) (chunk_hashes : list Node) : option (list FileVerificationEntry.t) :=
    match entries with
    | [] => Some []
    | entry :: entries' =>
        let n_chunks := Z.to_nat (wrap32 (FileDataSequenceEntry.chunk_index_end entry - FileDataSequenceEntry.chunk_index_start entry)) in
        if length chunk_hashes <? chunk_idx + n_chunks then None
        else
          let range_hash := RawXorbData.range_hash_from_chunks (chunk_hashes ⟦chunk_idx, chunk_idx + n_chunks⟧).*1 in
          rest ← verification_loop entries' (chunk_idx + n_chunks) chunk_hashes;
          Some (FileVerificationEntry.new range_hash :: rest)
    end.

Definition finalize_file (fd : FileDeduper.t D) (metadata_ext : option FileMetadataExt.t) :
    option (DataHash * list Node * DataAggregator.t * DeduplicationMetrics.t) :=
    let file_hash := file_hash (FileDeduper.chunk_hashes fd) in
    metadata ← FileDataSequenceHeader.new file_hash (Z.of_nat (length (FileDeduper.file_info fd))) true
                 (match metadata_ext with Some _ => true | None => false end);
    verification ← verification_loop (FileDeduper.file_info fd) 0 (FileDeduper.chunk_hashes fd);
    let fi := MDBFileInfo.mk metadata (FileDeduper.file_info fd) verification metadata_ext in
    let remaining_data := DataAggregator.new (FileDeduper.new_data fd) fi (FileDeduper.internally_referencing_entries fd) (FileDeduper.file_id fd) in
    Some (file_hash, FileDeduper.chunk_hashes fd, remaining_data, FileDeduper.deduplication_metrics fd).

End FinalizeFile.

(** ** The invariant of an aggregator *)

Lemma alter_as_insert {A} (f : A -> A) (i : nat) (l : list A) x : l !! i = Some x -> alter f i l = <[i := f x]> l.
Proof. revert i. induction l as [|y l IH]; intros [|i] Hx; simplify_eq/=; [done|]. f_equal. by apply IH. Qed.

Lemma fill_and_count_ok h indices info bytes :
  marks indices info -> exists n, DataAggregator.fill_and_count h indices info bytes = Some (fill h <$> info, n).
Proof.
  intros Hm. pose proof (fill_in_hash_marks h _ _ Hm) as Hf. generalize dependent (fill h <$> info). destruct Hm as [Hlt _].
  revert info bytes Hlt. induction indices as [|i indices IH]; intros info bytes Hlt out Hf;
    cbn [fill_in_hash DataAggregator.fill_and_count] in *; [by exists bytes; simplify_eq|].
  apply Forall_cons in Hlt as [Hi Hlt]. destruct (lookup_lt_is_Some_2 info i Hi) as [s Hs]. rewrite Hs. cbn [mbind option_bind].
  apply Nat.ltb_lt in Hi. rewrite Hi, (alter_as_insert _ _ _ s) in Hf by done.
  eapply IH; [|exact Hf]. eapply Forall_impl; [exact Hlt|]. intros. by rewrite length_insert.
Qed.

Section Aggregates.
  Context `{B3 : Blake3} `{XC : XorbConstants} {D E : Type} `{DI : !DeduplicationDataInterface D E} `{DC : !DedupContract D E}.

(** A segment of a known xorb. *)
Definition resolved (d : D) (s : Segment) (hs : list DataHash) : Prop :=
    exists nodes, Holds d (FileDataSequenceEntry.xorb_hash s) nodes /\ range_of nodes s hs.

Definition pending_ok (d : D) (chunks : list Chunk) (p : MDBFileInfo.t * list nat * Z) (hss : list (list DataHash)) : Prop :=
    marks p.1.2 (MDBFileInfo.segments p.1.1) /\ Forall2 (segment_in d chunks) (MDBFileInfo.segments p.1.1) hss.

(** Each pending file is a list of segments with their chunk hashes. *)
Definition agg_ok (d : D) (a : DataAggregator.t) (files : list (list (list DataHash))) : Prop :=
    new_data_ok (DataAggregator.chunks a) /\ DataAggregator.num_bytes a = chunks_size (DataAggregator.chunks a) /\
    Forall2 (pending_ok d (DataAggregator.chunks a)) (DataAggregator.pending_file_info a) files.

(** *** Merging *)

Lemma segment_in_grow d nd extra s hs : segment_in d nd s hs -> segment_in d (nd ++ extra) s hs.
Proof.
  revert nd. induction extra as [|c extra IH]; intros nd Hs; [by rewrite app_nil_r|].
  change (c :: extra) with ([c] ++ extra). rewrite app_assoc. by apply IH, segment_in_push.
Qed.

Lemma slice_app_r {A} a b (l1 l2 : list A) : (l1 ++ l2) ⟦length l1 + a, length l1 + b⟧ = l2 ⟦a, b⟧.
Proof.
  unfold slice. rewrite drop_app_ge by lia. f_equal; [lia|]. f_equal. lia.
Qed.

Lemma segment_in_shift d nd extra s hs :
    (Z.of_nat (length (nd ++ extra)) < 2 ^ 32)%Z -> segment_in d extra s hs ->
    segment_in d (nd ++ extra) (DataAggregator.shift_segment (wrap32 (Z.of_nat (length nd))) s) hs.
Proof.
  rewrite length_app. intros Hlen (nodes & Hn & Hr). unfold DataAggregator.shift_segment, segment_in.
  destruct (decide (FileDataSequenceEntry.xorb_hash s = marker)) as [Hm|Hm]; cbn [FileDataSequenceEntry.xorb_hash].
  - subst nodes. exists (chunk_node <$> (nd ++ extra)). rewrite decide_True by done. split; [done|].
    destruct Hr as (a & b & Hs & He & Hab & Hh & Hu). rewrite length_fmap in Hab.
    exists (length nd + a), (length nd + b). cbn. rewrite Hs, He, !wrap32_small by (unfold is_u32; rewrite ?wrap32_small; unfold is_u32; lia).
    rewrite fmap_app. rewrite <- (length_fmap chunk_node nd), slice_app_r, length_app, !length_fmap. split_and!; (done || lia).
  - exists nodes. by rewrite decide_False by done.
Qed.

Lemma marks_shift indices info k : marks indices info -> marks indices (DataAggregator.shift_segment k <$> info).
Proof.
  intros [Hf Hm]. split; [by setoid_rewrite length_fmap|]. intros i s Hi. rewrite list_lookup_fmap in Hi.
  apply fmap_Some in Hi as (s' & Hs' & ->). rewrite <- (Hm i s' Hs'). unfold DataAggregator.shift_segment. by case_decide.
Qed.

Lemma merge_in_ok d a b fa fb :
    agg_ok d a fa -> agg_ok d b fb ->
    DataAggregator.num_bytes a + DataAggregator.num_bytes b <= MAX_XORB_BYTES ->
    DataAggregator.num_chunks a + DataAggregator.num_chunks b <= MAX_XORB_CHUNKS ->
    agg_ok d (DataAggregator.merge_in a b) (fa ++ fb).
Proof.
  intros ((Ha1 & Ha2 & Ha3) & Hna & Hpa) ((Hb1 & Hb2 & Hb3) & Hnb & Hpb) Hbytes Hchunks. unfold DataAggregator.num_chunks in *.
  pose proof MAX_XORB_CHUNKS_u32. split_and!; cbn.
  - split_and!; [rewrite chunks_size_app; lia|rewrite length_app; lia|by apply Forall_app].
  - rewrite chunks_size_app. lia.
  - apply Forall2_app.
    + eapply Forall2_impl; [done|]. intros p hss [Hm Hs]. split; [done|]. eapply Forall2_impl; [done|]. intros s hs. by apply segment_in_grow.
    + apply Forall2_fmap_l. eapply Forall2_impl; [done|]. intros [[fi idxs] id] hss [Hm Hs]. split; cbn in *; [by apply marks_shift|].
      apply Forall2_fmap_l. eapply Forall2_impl; [done|]. intros s hs. apply segment_in_shift. rewrite length_app. lia.
Qed.

(** *** Finalizing *)

(** A marked segment is filled in with the hash of the xorb, and then every segment is known. *)
Lemma fill_resolved d d' chunks x s hs :
    extends d d' -> RawXorbData.nodes x = chunk_node <$> chunks ->
    (chunks <> [] -> Holds d' (RawXorbData.hash x) (RawXorbData.nodes x)) ->
    segment_in d chunks s hs -> resolved d' (fill (RawXorbData.hash x) s) hs.
Proof.
  intros He Hn Hx (nodes & Hs & Hr). unfold resolved, fill. case_decide as Hm; exists nodes; [|split; [by apply He|done]].
  subst nodes. rewrite <- Hn in Hr |- *. split; [|done]. apply Hx. intros ->.
  destruct Hr as (a & b & _ & _ & Hab & _). rewrite Hn in Hab. simpl in Hab. lia.
Qed.

(** What a finalized file is: the id and parts of the pending one, and known segments. *)
Definition finalized (d : D) (p : MDBFileInfo.t * list nat * Z) (out : Z * MDBFileInfo.t * Z) (hss : list (list DataHash)) : Prop :=
    out.1.1 = p.2 /\ MDBFileInfo.metadata out.1.2 = MDBFileInfo.metadata p.1.1 /\
    MDBFileInfo.verification out.1.2 = MDBFileInfo.verification p.1.1 /\ MDBFileInfo.metadata_ext out.1.2 = MDBFileInfo.metadata_ext p.1.1 /\
    Forall2 (resolved d) (MDBFileInfo.segments out.1.2) hss.

Definition filled (h : DataHash) (p : MDBFileInfo.t * list nat * Z) (out : Z * MDBFileInfo.t * Z) : Prop :=
    out.1 = (p.2, DataAggregator.with_segments p.1.1 (fill h <$> MDBFileInfo.segments p.1.1)).

Lemma finalize_files d chunks h pending files :
    Forall2 (pending_ok d chunks) pending files ->
    exists out, mapM (DataAggregator.fill_pending h) pending = Some out /\ Forall2 (filled h) pending out.
Proof.
  induction 1 as [|p hss pending files [Hm _] _ (out & Ho & Hf)]; [by exists []|].
  destruct (fill_and_count_ok h _ _ 0 Hm) as [n Hn]. exists ((p.2, DataAggregator.with_segments p.1.1 (fill h <$> MDBFileInfo.segments p.1.1), n) :: out).
  split; [|by constructor].
  assert (DataAggregator.fill_pending h p = Some (p.2, DataAggregator.with_segments p.1.1 (fill h <$> MDBFileInfo.segments p.1.1), n)) as Hp
    by (unfold DataAggregator.fill_pending; by rewrite Hn).
  cbn -[DataAggregator.fill_pending]. rewrite Hp. cbn -[DataAggregator.fill_pending]. by rewrite Ho.
Qed.

Lemma finalize_ok d a files :
    agg_ok d a files ->
    exists x out, DataAggregator.finalize a = Some (x, out) /\
      RawXorbData.nodes x = chunk_node <$> DataAggregator.chunks a /\
      Forall2 (filled (RawXorbData.hash x)) (DataAggregator.pending_file_info a) out /\
      forall d', extends d d' -> (DataAggregator.chunks a <> [] -> Holds d' (RawXorbData.hash x) (RawXorbData.nodes x)) ->
        Forall2 (fun p => Forall2 (resolved d') (fill (RawXorbData.hash x) <$> MDBFileInfo.segments p.1.1)) (DataAggregator.pending_file_info a) files.
Proof.
  intros (Hnd & Hn & Hp). pose proof Hnd as (Hb & Hc & Hm). pose proof MAX_XORB_BYTES_u32. pose proof MAX_XORB_CHUNKS_u32.
  destruct (from_chunks_ok (DataAggregator.chunks a) (DataAggregator.file_boundaries a)) as (x & Hx & Hh & Hns & _); [lia|lia|].
  destruct (finalize_files d _ (RawXorbData.hash x) _ _ Hp) as (out & Ho & Hf).
  exists x, out. split_and!; [|done|done|].
  - unfold DataAggregator.finalize. rewrite Hx. cbn [mbind option_bind]. by rewrite Ho.
  - intros d' He Hx'. eapply Forall2_impl; [done|]. intros p hss [_ Hs]. apply Forall2_fmap_l. eapply Forall2_impl; [done|]. intros s hs. by apply fill_resolved.
Qed.

(** The xorb of an aggregator that has chunks is within the limits. *)
Lemma finalize_within d a files x out :
    agg_ok d a files -> DataAggregator.finalize a = Some (x, out) -> DataAggregator.chunks a <> [] ->
    xorb_within x.
Proof.
  intros ((Hb & Hc & Hm) & _) Hf Hne. pose proof MAX_XORB_BYTES_u32. pose proof MAX_XORB_CHUNKS_u32.
  destruct (from_chunks_ok (DataAggregator.chunks a) (DataAggregator.file_boundaries a)) as (x' & Hx & Hh & Hns & Hnb & _); [lia|lia|].
  unfold DataAggregator.finalize in Hf. rewrite Hx in Hf. cbn [mbind option_bind] in Hf.
  destruct (mapM _ _); [|done]. injection Hf as -> _.
  unfold xorb_within. rewrite Hh, Hnb, Hns, length_fmap, chunk_nodes_size. pose proof (storable_size _ Hne Hm).
  split_and!; try (done || lia). destruct (DataAggregator.chunks a); [done|simpl; lia].
Qed.

Lemma filled_finalized d h pending out files :
    Forall2 (filled h) pending out ->
    Forall2 (fun p => Forall2 (resolved d) (fill h <$> MDBFileInfo.segments p.1.1)) pending files ->
    Forall3 (finalized d) pending out files.
Proof.
  intros Hf. revert files. induction Hf as [|p o pending out Hpo _ IH]; intros files Hr; inversion Hr; subst; constructor; [|by apply IH].
  unfold finalized. rewrite Hpo. by split_and!.
Qed.

(** Merging aggregators keeps every file.  Let two aggregators, whose pending files are segments
    that denote some chunks, be merged within the limits of a xorb.  The merged one finalizes, its
    xorb holds the chunks of both in order, and once that xorb is known every segment of every file
    of either names the chunks it named before, while the rest of the file information is
    unchanged. *)
Theorem merged_files_resolve d a b fa fb :
    agg_ok d a fa -> agg_ok d b fb ->
    DataAggregator.num_bytes a + DataAggregator.num_bytes b <= MAX_XORB_BYTES ->
    DataAggregator.num_chunks a + DataAggregator.num_chunks b <= MAX_XORB_CHUNKS ->
    exists x out, DataAggregator.finalize (DataAggregator.merge_in a b) = Some (x, out) /\
      RawXorbData.nodes x = chunk_node <$> (DataAggregator.chunks a ++ DataAggregator.chunks b) /\
      forall d', extends d d' -> Holds d' (RawXorbData.hash x) (RawXorbData.nodes x) ->
        Forall3 (finalized d') (DataAggregator.pending_file_info (DataAggregator.merge_in a b)) out (fa ++ fb).
Proof.
  intros Ha Hb H1 H2. destruct (finalize_ok d _ _ (merge_in_ok d a b fa fb Ha Hb H1 H2)) as (x & out & Hf & Hn & Ho & Hr).
  exists x, out. split_and!; [done|done|]. intros d' He Hx. eapply filled_finalized; [done|]. by apply Hr.
Qed.

(** *** Verification entries *)

Lemma segment_in_count d nd s hs :
    new_data_ok nd -> segment_in d nd s hs ->
    Z.to_nat (wrap32 (FileDataSequenceEntry.chunk_index_end s - FileDataSequenceEntry.chunk_index_start s)) = length hs /\ hs <> [].
Proof.
  intros Hnd (nodes & Hn & a & b & -> & -> & Hab & -> & _).
  assert (nodes_bounded nodes) as (_ & _ & Hl).
  { case_decide; [subst; by apply new_data_bounded|by eapply Holds_bounded]. }
  assert (length (nodes ⟦a, b⟧).*1 = b - a) as Hlen by (rewrite length_fmap, slice_length; lia).
  split; [rewrite Hlen, wrap32_small by (unfold is_u32; lia); lia|]. intros Hnil%(f_equal length). rewrite Hlen in Hnil. simpl in Hnil. lia.
Qed.

Lemma verification_loop_ok d nd info hss idx hashes :
    new_data_ok nd -> Forall2 (segment_in d nd) info hss -> drop idx hashes.*1 = concat hss -> idx <= length hashes ->
    verification_loop info idx hashes = Some ((fun hs => FileVerificationEntry.new (RawXorbData.range_hash_from_chunks hs)) <$> hss).
Proof.
  intros Hnd Hf. revert idx. induction Hf as [|s hs info hss Hs Hf IH]; intros idx Hd Hle; [done|]. cbn [verification_loop concat] in *.
  destruct (segment_in_count d nd s hs Hnd Hs) as [-> _].
  assert (length hashes - idx = length hs + length (concat hss)) as Hlen
    by (rewrite <- length_app, <- Hd, length_drop, length_fmap; done).
  destruct (Nat.ltb_spec (length hashes) (idx + length hs)); [lia|].
  assert ((hashes ⟦idx, idx + length hs⟧).*1 = hs) as ->.
  { unfold slice. rewrite fmap_take, fmap_drop, Hd. replace (idx + length hs - idx) with (length hs) by lia. apply take_app_length. }
  rewrite IH; [done| |lia]. by rewrite <- drop_drop, Hd, drop_app_length.
Qed.

Lemma segments_in_length d nd info hashes :
    new_data_ok nd -> segments_in d nd info hashes -> length info <= length hashes.
Proof.
  intros Hnd (hss & Hf & <-). induction Hf as [|s hs info hss Hs _ IH]; [done|]. cbn. rewrite length_app.
  destruct (segment_in_count d nd s hs Hnd Hs) as [_ Hne]. destruct hs; [done|simpl; lia].
Qed.

(** File information with the header, the extension and the verification entries of a file of the
    chunks [nodes], where [hss] are the chunk hashes of its segments. *)
Definition describes (fi : MDBFileInfo.t) (nodes : list Node) (ext : option FileMetadataExt.t) (hss : list (list DataHash)) : Prop :=
    FileDataSequenceHeader.new (file_hash nodes) (Z.of_nat (length (MDBFileInfo.segments fi))) true
      (match ext with Some _ => true | None => false end) = Some (MDBFileInfo.metadata fi) /\
    MDBFileInfo.metadata_ext fi = ext /\
    MDBFileInfo.verification fi = (fun hs => FileVerificationEntry.new (RawXorbData.range_hash_from_chunks hs)) <$> hss /\
    concat hss = nodes.*1.

Lemma describes_segments fi nodes ext hss segments :
    describes fi nodes ext hss -> length segments = length (MDBFileInfo.segments fi) ->
    describes (DataAggregator.with_segments fi segments) nodes ext hss.
Proof. intros (H1 & H2 & H3 & H4) Hl. unfold describes. cbn. by rewrite Hl. Qed.

(** A deduper that has seen the whole file. *)
Lemma finalize_file_ok (fd : FileDeduper.t D) nodes ext :
    Inv fd (FileDeduper.chunk_hashes fd).*1 -> FileDeduper.chunk_hashes fd = nodes -> (Z.of_nat (length nodes) < 2 ^ 32)%Z ->
    exists fi hss, let agg := DataAggregator.new (FileDeduper.new_data fd) fi (FileDeduper.internally_referencing_entries fd) (FileDeduper.file_id fd) in
      finalize_file fd ext = Some (file_hash nodes, nodes, agg, FileDeduper.deduplication_metrics fd) /\
      agg_ok (FileDeduper.data_mng fd) agg [hss] /\ describes fi nodes ext hss.
Proof.
  intros [Hs Hnd Hl Hm Hseg] Hch Hlen. rewrite Hch in Hseg.
  pose proof (segments_in_length _ _ _ _ Hnd Hseg) as Hinfo. rewrite length_fmap in Hinfo. destruct Hseg as (hss & Hf & Hc).
  unfold finalize_file. rewrite Hch. cbn zeta. unfold FileDataSequenceHeader.new at 1. rewrite try_u32_small by (unfold is_u32; lia).
  cbn [mbind option_bind]. erewrite verification_loop_ok by (done || (cbn; lia)). cbn [mbind option_bind].
  eexists _, hss. split; [done|]. split.
  - split_and!; [done|done|]. cbn. constructor; [by split|constructor].
  - unfold describes. cbn. split_and!; [by unfold FileDataSequenceHeader.new; rewrite try_u32_small by (unfold is_u32; lia)|done..].
Qed.

(** C2: the file information of a deduplicated file denotes the file.  For a file whose chunks each
    fit a xorb and number fewer than 2^32, however they are grouped into calls and whatever the
    interface deduplicates, as long as it keeps its contract and so never accepts a xorb under the
    marker hash, the run ends without a panic; the file then finalizes with the Merkle
    hash of its chunks, and its remainder with one last xorb; and once that xorb is known, the
    segments of the file information name exactly the chunks of the file, in order, with a
    verification hash of each segment's own chunks. *)
Theorem dedup_file_correct d id defrag calls ext :
    Forall chunk_ok (concat calls) -> (Z.of_nat (length (concat calls)) < 2 ^ 32)%Z ->
    returns (process_file (FileDeduper.new d id defrag) calls) (fun fd =>
      let nodes := chunk_node <$> concat calls in
      exists agg m x fi n hss,
        finalize_file fd ext = Some (file_hash nodes, nodes, agg, m) /\
        DataAggregator.finalize agg = Some (x, [(id, fi, n)]) /\
        describes fi nodes ext hss /\
        forall d', extends (FileDeduper.data_mng fd) d' ->
          (RawXorbData.nodes x <> [] -> Holds d' (RawXorbData.hash x) (RawXorbData.nodes x)) ->
          Forall2 (resolved d') (MDBFileInfo.segments fi) hss).
Proof.
  intros Hok Hlen.
  eapply returns_impl; [by apply (process_file_ok _ trivial_invariant); [|apply new_inv|]|].
  intros fd (Hinv & Hch & Hid & _ & _). cbn zeta. cbn in Hch, Hid.
  destruct (finalize_file_ok fd _ ext Hinv Hch) as (fi & hss & Hfile & Hagg & Hd); [by rewrite length_fmap|]. cbn zeta in *.
  destruct (finalize_ok _ _ _ Hagg) as (x & out & Hfin & Hn & Ho & Hr).
  apply Forall2_cons_inv_l in Ho as ([[id' fi'] n] & out' & [= -> ->] & ->%Forall2_nil_inv_l & ->).
  eexists _, _, x, _, n, hss. split; [done|]. split; [by rewrite Hfin, Hid|].
  split; [apply describes_segments; [done|by rewrite length_fmap]|].
  intros d' He Hx. specialize (Hr d' He). cbn in Hr. apply Forall2_cons in Hr as [Hr _]; [done|].
  intros Hne. apply Hx. rewrite Hn. cbn. by destruct (FileDeduper.new_data fd).
Qed.

End Aggregates.
