(* ===== verification/DedupExamples.v ===== *)
(** * A concrete deduplication interface

    The contract of [Dedup] and the assumptions of its properties hold of a small implementation: a
    map from xorb hashes to chunk lists, asked for one chunk at a time.  The properties of [Dedup]
    and [Aggregator] are applied to it, on a file where the fragmentation control prevents a
    deduplication. *)

From Stdlib Require Import SpecFloat.
From coqutil Require Import Byte Word.LittleEndianList.
From stdpp Require Import base numbers gmap list.
From S2P Require Import Prelude DataHash AggregatedHash Chunking FileStructs XorbStructs RawXorb Defrag Dedup Aggregator.

Module DedupExamples.

(** A small hash. *)
Definition short_keyed_hash (key data : list byte) : list byte :=
  le_split 31 (fold_left (fun a b => (a * 257 + u8 b + 1) mod 2 ^ 248)%Z data 0%Z) ++ [Byte.x00].

Lemma short_keyed_hash_length key data : length (short_keyed_hash key data) = 32.
Proof. unfold short_keyed_hash. by rewrite length_app, length_le_split. Qed.

#[local] Instance short_blake3 : Blake3 := {| keyed_hash := short_keyed_hash; keyed_hash_length := short_keyed_hash_length |}.

#[local, refine] Instance small_xorbs : XorbConstants := {| MAX_XORB_BYTES := 100; MAX_XORB_CHUNKS := 4 |}.
Proof. all: lia. Defined.

(** ** The interface *)

Abbreviation Known := (gmap DataHash (list Node)).

#[local] Instance nodes_bounded_dec nodes : Decision (nodes_bounded nodes).
Proof. unfold nodes_bounded. apply _. Defined.

Definition usable (h : DataHash) (nodes : list Node) : Prop := h <> marker /\ nodes_bounded nodes.

#[local] Instance usable_dec h nodes : Decision (usable h nodes).
Proof. unfold usable. apply _. Defined.

(** The position of a chunk in a known xorb. *)
Definition find_in (h : DataHash) (x : DataHash * list Node) : option DedupHit :=
  if decide (usable x.1 x.2)
  then
    '(i, n) ← list_find (fun n : Node => n.1 = h) x.2;
    Some (1, FileDataSequenceEntry.mk x.1 0 n.2 (Z.of_nat i) (Z.of_nat (i + 1)), true)
  else None.

Definition find_chunk (h : DataHash) (known : list (DataHash * list Node)) : option DedupHit := head (omap (find_in h) known).

#[local] Instance map_interface : DeduplicationDataInterface Known () := {|
  chunk_hash_dedup_query d hs := Ok (match hs with h :: _ => find_chunk h (map_to_list d) | [] => None end, d);
  register_global_dedup_query d _ := Ok d;
  complete_global_dedup_queries d := Ok (false, d);
  register_new_xorb d x :=
    let h := RawXorbData.hash x in
    if decide (usable (RawXorbData.hash x) (RawXorbData.nodes x) /\ (d !! h = None \/ d !! h = Some (RawXorbData.nodes x)))
    then Ok (<[h := RawXorbData.nodes x]> d) else Err tt;
  register_xorb_dependencies d _ := d;
|}.

Definition known_holds (d : Known) (h : DataHash) (n : list Node) : Prop := d !! h = Some n /\ usable h n.

Lemma find_in_ok (d : Known) h x hit :
  x ∈ map_to_list d -> find_in h x = Some hit ->
  hit.1.1 = 1 /\ exists nodes, known_holds d (FileDataSequenceEntry.xorb_hash hit.1.2) nodes /\ range_of nodes hit.1.2 [h].
Proof.
  destruct x as [xh nodes]. intros Hin%elem_of_map_to_list. unfold find_in. cbn [fst snd]. case_decide as Hu; [|done].
  destruct (list_find _ nodes) as [[i n]|] eqn:Hf; [|done]. intros [= <-]. apply list_find_Some in Hf as (Hi & Hn & _). subst h.
  pose proof (lookup_lt_Some _ _ _ Hi). split; [done|]. exists nodes. split; [done|]. exists i, (i + 1). cbn.
  unfold slice. replace (i + 1 - i) with 1 by lia. rewrite (drop_S _ n) by done. cbn. rewrite take_0. cbn. split_and!; (done || lia).
Qed.

#[local, refine] Instance map_contract : DedupContract Known () := {| Holds := known_holds |}.
Proof.
  all: unfold known_holds.
  - intros d h n1 n2 [H1 _] [H2 _]. congruence.
  - by intros d h n (_ & ? & _).
  - by intros d h n (_ & _ & ?).
  - by intros d hs r d' [= _ <-] h n.
  - intros d hs n fse ext d' [= Hr <-]. destruct hs as [|h hs]; [done|].
    unfold find_chunk in Hr. apply head_Some in Hr as [rest Hr].
    assert ((n, fse, ext) ∈ omap (find_in h) (map_to_list d)) as (x & Hx & Hf)%list_elem_of_omap by (rewrite Hr; left).
    destruct (find_in_ok d h x _ Hx Hf) as [Hn Hrange]. cbn in Hn, Hrange. subst n. cbn. rewrite take_0. split; [lia|done].
  - by intros d c d' [= <-] h n.
  - by intros d b d' [= _ <-] h n.
  - intros d x d'. cbn. case_decide as Hd; [|done]. intros [= <-] h n [Hn Hu]. split; [|done].
    destruct (decide (RawXorbData.hash x = h)) as [<-|]; [|by rewrite lookup_insert_ne].
    rewrite lookup_insert_eq. destruct Hd as [_ [Hd|Hd]]; congruence.
  - intros d x d'. cbn. case_decide as Hd; [|done]. intros [= <-] _. rewrite lookup_insert_eq. by split; [|apply Hd].
  - done.
Defined.

(** ** A file of four chunks, the last of which is known *)

Definition chunk_of (b n : nat) : Chunk := Chunk_new (repeat (byte_of (Z.of_nat b)) n).
Definition new_chunks : list Chunk := [chunk_of 1 5; chunk_of 2 6; chunk_of 3 7].
Definition known_chunk : Chunk := chunk_of 4 8.
Definition file : list Chunk := new_chunks ++ [known_chunk].

Definition known_xorb : DataHash := mkDataHash 1 2 3 4.
Definition known : Known := {[ known_xorb := [chunk_node known_chunk] ]}.

(** A window of one range, with at least eight chunks per range or half of that. *)
Definition strict_defrag : DefragPrevention.t :=
  DefragPrevention.new 1 (S754_finite false 8388608 (-20)) (S754_finite false 8388608 (-24)).

Definition deduper : FileDeduper.t Known := FileDeduper.new known 7 strict_defrag.

#[local] Instance chunk_ok_dec c : Decision (chunk_ok c).
Proof. unfold chunk_ok, storable. apply _. Defined.

Lemma file_ok : Forall chunk_ok file.
Proof. apply (bool_decide_unpack _). vm_compute. exact Logic.I. Qed.

(** The known chunk is a single range, under the average of three, so it is stored again: four
    chunks of 26 bytes are reported as five of 34. *)
Lemma dedup_metrics_counts_witness :
  exists m fd, FileDeduper.process_chunks deduper file = Ok (m, fd) /\
    DeduplicationMetrics.total_chunks m = wrap64 (4 + DeduplicationMetrics.defrag_prevented_dedup_chunks m) /\
    DeduplicationMetrics.defrag_prevented_dedup_chunks m = 1%Z /\ DeduplicationMetrics.total_bytes m = 34%Z /\ chunks_size file = 26.
Proof.
  eexists _, _. split; [vm_compute; reflexivity|]. split.
  - eapply (dedup_metrics_counts known 7 strict_defrag [] deduper file); [constructor|apply file_ok|reflexivity|vm_compute; reflexivity].
  - vm_compute. split; [|split]; reflexivity.
Defined.

Definition within (d : Known) : Prop := map_Forall (fun _ nodes => length nodes <= 4) d.

Lemma within_invariant : interface_invariant within.
Proof.
  split.
  - by intros d hs r d' [= _ <-].
  - by intros d c d' [= <-].
  - by intros d b d' [= _ <-].
  - intros d x d'. cbn. case_decide; [|done]. intros [= <-] (Hl & _) Hd. by apply map_Forall_insert_2; [apply Hl|].
  - done.
Qed.

Lemma dedup_total_within_limits_witness :
  returns (process_file deduper [file; new_chunks])
    (fun fd => within (FileDeduper.data_mng fd) /\ chunks_size (FileDeduper.new_data fd) <= 100 /\ length (FileDeduper.new_data fd) <= 4).
Proof.
  apply (dedup_total_within_limits within known 7 strict_defrag [file; new_chunks] within_invariant).
  - apply map_Forall_singleton. simpl. lia.
  - apply (bool_decide_unpack _). vm_compute. exact Logic.I.
Defined.

Lemma dedup_file_correct_witness :
  returns (process_file deduper [new_chunks; [known_chunk]]) (fun fd =>
    exists agg m x fi n, finalize_file fd None = Some (file_hash (chunk_node <$> file), chunk_node <$> file, agg, m) /\
      DataAggregator.finalize agg = Some (x, [(7%Z, fi, n)])).
Proof.
  eapply returns_impl; [apply (dedup_file_correct known 7 strict_defrag [new_chunks; [known_chunk]] None)|].
  - exact file_ok.
  - apply Z.ltb_lt. vm_compute. reflexivity.
  - intros fd (agg & m & x & fi & n & hss & Hf & Hx & _). exists agg, m, x, fi, n. exact (conj Hf Hx).
Defined.

(** ** Two files that share a xorb *)

Definition one_chunk_file (c : Chunk) (id : Z) : DataAggregator.t :=
  DataAggregator.new [c] (MDBFileInfo.mk (FileDataSequenceHeader.mk default 0 1 0) [single c 0] [] None) [0] id.

Lemma one_chunk_file_ok c id : chunk_ok c -> agg_ok known (one_chunk_file c id) [[[chunk_hash c]]].
Proof.
  intros [Hl Hm]. split_and!.
  - split_and!; [unfold chunks_size; simpl in *; lia|simpl; lia|by constructor].
  - done.
  - constructor; [|constructor]. split; cbn.
    + split; [constructor; [simpl; lia|constructor]|]. intros i s Hi. apply list_lookup_singleton_Some in Hi as [-> <-].
      split; [intros _; left|done].
    + constructor; [apply (single_in known [] c)|constructor].
Qed.

Lemma merged_files_resolve_witness :
  exists x out, DataAggregator.finalize (DataAggregator.merge_in (one_chunk_file (chunk_of 1 5) 1) (one_chunk_file (chunk_of 2 6) 2)) = Some (x, out) /\
    RawXorbData.nodes x = chunk_node <$> [chunk_of 1 5; chunk_of 2 6].
Proof.
  destruct (merged_files_resolve known (one_chunk_file (chunk_of 1 5) 1) (one_chunk_file (chunk_of 2 6) 2)
    [[[chunk_hash (chunk_of 1 5)]]] [[[chunk_hash (chunk_of 2 6)]]]) as (x & out & Hf & Hn & _).
  - apply one_chunk_file_ok, (bool_decide_unpack _). vm_compute. exact Logic.I.
  - apply one_chunk_file_ok, (bool_decide_unpack _). vm_compute. exact Logic.I.
  - apply Nat.leb_le. vm_compute. reflexivity.
  - apply Nat.leb_le. vm_compute. reflexivity.
  - exists x, out. exact (conj Hf Hn).
Defined.

End DedupExamples.
