(* ===== verification/AdjustableSemaphore.v ===== *)
(** * A semaphore whose number of permits can be adjusted

    Model of [xet_runtime/src/utils/adjustable_semaphore.rs].  The operations run in several threads;
    each access to an atomic counter or to the semaphore below is one step, and [step] lets the
    threads interleave between them.  The adjustments hold a lock, so at most one is under way. *)

From Stdlib Require Import ZArith Lia.
From stdpp Require Import base numbers relations list.
From S2P Require Import Prelude.

#[local] Open Scope Z_scope.

(** ** The semaphore of tokio

    [stored] are the permits that no caller holds, [available] those that a new request can take at
    once, and [waiting] the requests in the order in which they were made.  The first request is
    served when enough permits are stored. *)
Class Semaphore := {
  sem : Type;
  MAX_PERMITS : Z;
  sem_new : Z -> sem;
  stored : sem -> Z;
  available : sem -> Z;
  waiting : sem -> list Z;
  add_permits : Z -> sem -> sem;
  try_acquire_many : Z -> sem -> option sem;
  acquire_many : Z -> sem -> sem;
  grant : sem -> option (Z * sem);
  cancel : nat -> sem -> sem;
  MAX_PERMITS_range : 2 <= MAX_PERMITS < 2 ^ 64;
  sem_new_spec n : stored (sem_new n) = n /\ waiting (sem_new n) = [];
  available_stored s : available s <= stored s /\ (waiting s = [] -> available s = stored s);
  add_permits_spec n s : stored (add_permits n s) = stored s + n /\ waiting (add_permits n s) = waiting s;
  try_acquire_spec n s : 0 < n ->
    match try_acquire_many n s with
    | Some s' => n <= stored s /\ stored s' = stored s - n /\ waiting s' = waiting s
    | None => available s < n
    end;
  acquire_many_spec n s : stored (acquire_many n s) = stored s /\ waiting (acquire_many n s) = waiting s ++ [n];
  grant_spec s :
    match grant s with
    | Some (n, s') => waiting s = n :: waiting s' /\ n <= stored s /\ stored s' = stored s - n
    | None => match waiting s with [] => True | n :: _ => stored s < n end
    end;
  cancel_spec i s : stored (cancel i s) = stored s /\ waiting (cancel i s) = delete i (waiting s);
}.

Definition div_ceil (n d : Z) : Z := (n + d - 1) / d.
Definition saturating_add (a b : Z) : Z := Z.min (a + b) (2 ^ 64 - 1).
Definition saturating_sub (a b : Z) : Z := Z.max 0 (a - b).

(** The new value of the counter and the amount added. *)
Definition attempt_add (v n max_value : Z) : Z * Z :=
  if max_value <=? v then (v, 0)
  else (Z.min (saturating_add v n) max_value, Z.min (saturating_add v n) max_value - v).

(** The new value of the counter and the amount subtracted. *)
Definition attempt_sub (v n min_value : Z) : Z * Z :=
  if v <=? min_value then (v, 0)
  else (Z.max (saturating_sub v n) min_value, v - Z.max (saturating_sub v n) min_value).

Section AdjustableSemaphore.
  Context `{Sem : Semaphore}.

Definition PERMIT_LIMIT : Z := Z.min MAX_PERMITS (2 ^ 32 - 1).

Record AdjustableSemaphore := mk_adjustable {
    semaphore : sem;
    total : Z;
    enqueued_permit_decreases : Z;
    min_physical_permits : Z;
    max_physical_permits : Z;
    basis : Z;
}.

Definition with_counters (s : AdjustableSemaphore) (sm : sem) (t e : Z) : AdjustableSemaphore :=
    mk_adjustable sm t e (min_physical_permits s) (max_physical_permits s) (basis s).

(** A permit; [real] when it holds permits of the semaphore below. *)
Record Permit := mk_permit { real : bool; num_physical_permits : Z }.

Fixpoint compute_basis_loop (fuel : nat) (max_permits b : Z) : Z :=
    match fuel with
    | O => b
    | S fuel' => if PERMIT_LIMIT <? div_ceil max_permits b then compute_basis_loop fuel' max_permits (wrap64 (b * 2)) else b
    end.

(** The basis is a [u64], so 64 rounds are enough. *)
Definition compute_basis (max_permits : Z) : Z := compute_basis_loop 64 max_permits 1.

Definition clamp (x lo hi : Z) : Z := Z.min (Z.max x lo) hi.

Definition new (initial_permits : Z) (permit_range : Z * Z) : AdjustableSemaphore :=
    let b := compute_basis permit_range.2 in
    let min_physical := div_ceil permit_range.1 b in
    let max_physical := div_ceil permit_range.2 b in
    let initial_physical := clamp (div_ceil initial_permits b) min_physical max_physical in
    mk_adjustable (sem_new initial_physical) initial_physical 0 min_physical max_physical b.

Definition total_permits (s : AdjustableSemaphore) : Z := wrap64 (total s * basis s).

Definition active_permits (s : AdjustableSemaphore) : Z :=
    wrap64 (saturating_sub (wrap64 (total s + enqueued_permit_decreases s)) (available (semaphore s)) * basis s).

Definition to_physical_acquire (s : AdjustableSemaphore) (n : Z) : Z :=
    wrap32 (clamp (div_ceil n (basis s)) 1 (Z.max (total s) 1)).

Definition split (s : AdjustableSemaphore) (p : Permit) (n : Z) : Permit * option Permit :=
    let physical_n := div_ceil n (basis s) in
    if num_physical_permits p <? physical_n then (p, None)
    else
      let p' := mk_permit (real p) (num_physical_permits p - physical_n) in
      if 0 <? physical_n then (p', Some (mk_permit (real p) physical_n)) else (p', None).

(** *** Dropping a permit *)

(** The first step resolves enqueued decreases and leaves the number of permits to give back. *)
Definition drop_resolve (s : AdjustableSemaphore) (p : Permit) : AdjustableSemaphore * Z :=
    let num_permits := num_physical_permits p in
    let '(e, decreases_resolved) := attempt_sub (enqueued_permit_decreases s) num_permits 0 in
    (with_counters s (semaphore s) (total s) e, num_permits - decreases_resolved).

(** The rest of a real permit is dropped and that of a virtual one is added. *)
Definition drop_return (s : AdjustableSemaphore) (to_return : Z) : AdjustableSemaphore :=
    if 0 <? to_return then with_counters s (add_permits to_return (semaphore s)) (total s) (enqueued_permit_decreases s) else s.

(** *** Adjustments *)

Definition decrement_begin (s : AdjustableSemaphore) (n : Z) : AdjustableSemaphore * Z :=
    let physical_n := div_ceil n (basis s) in
    if physical_n =? 0 then (s, 0)
    else
      let '(t, removed) := attempt_sub (total s) physical_n (min_physical_permits s) in
      (with_counters s (semaphore s) t (enqueued_permit_decreases s), removed).

(** The permits are taken from the semaphore, which may fail; then they are enqueued. *)
Definition decrement_acquire (s : AdjustableSemaphore) (removed : Z) : option AdjustableSemaphore :=
    sm ← try_acquire_many (wrap32 removed) (semaphore s);
    Some (with_counters s sm (total s) (enqueued_permit_decreases s)).

Definition decrement_enqueue (s : AdjustableSemaphore) (removed : Z) : AdjustableSemaphore :=
    with_counters s (semaphore s) (total s) (wrap64 (enqueued_permit_decreases s + removed)).

Definition decrement_total_permits_impl (s : AdjustableSemaphore) (n : Z) : AdjustableSemaphore * option Z :=
    let '(s, removed) := decrement_begin s n in
    if removed =? 0 then (s, None)
    else
      let s := match decrement_acquire s removed with Some s' => s' | None => decrement_enqueue s removed end in
      (s, Some (wrap64 (removed * basis s))).

Definition decrement_permits_to_target (s : AdjustableSemaphore) (target : Z) : AdjustableSemaphore * option Z :=
    let current := total_permits s in
    if current <=? target then (s, None) else decrement_total_permits_impl s (current - target).

Definition increment_begin (s : AdjustableSemaphore) (n : Z) : AdjustableSemaphore * Z :=
    let physical_n := div_ceil n (basis s) in
    if physical_n =? 0 then (s, 0)
    else
      let '(t, added) := attempt_add (total s) physical_n (max_physical_permits s) in
      (with_counters s (semaphore s) t (enqueued_permit_decreases s), added).

Definition increment_cancel (s : AdjustableSemaphore) (added : Z) : AdjustableSemaphore * Permit :=
    let '(e, cancelled) := attempt_sub (enqueued_permit_decreases s) added 0 in
    (with_counters s (semaphore s) (total s) e, mk_permit false (wrap32 (added - cancelled))).

Definition increment_total_permits_impl (s : AdjustableSemaphore) (n : Z) : AdjustableSemaphore * option Permit :=
    let '(s, added) := increment_begin s n in
    if added =? 0 then (s, None)
    else let '(s, p) := increment_cancel s added in (s, Some p).

Definition increment_permits_to_target (s : AdjustableSemaphore) (target : Z) : AdjustableSemaphore * option Permit :=
    let current := total_permits s in
    if target <=? current then (s, None) else increment_total_permits_impl s (target - current).

(** ** Interleaving *)

(** What the holder of the adjustment lock does next. *)
Inductive Adjustment := Removing (removed : Z) | Enqueuing (removed : Z) | Adding (added : Z).

(** The semaphore, the permits that callers hold, the requests computed and not yet made, the
    permits that are being given back, and the adjustment under way. *)
Record world := mk_world {
    w_sem : AdjustableSemaphore;
    w_permits : list Permit;
    w_requests : list Z;
    w_returning : list Z;
    w_adjusting : option Adjustment;
}.

Inductive step : world -> world -> Prop :=
| step_request s ps rq rt ad n :
    step (mk_world s ps rq rt ad) (mk_world s ps (to_physical_acquire s n :: rq) rt ad)
| step_acquire s ps rq rt ad i k :
    rq !! i = Some k ->
    step (mk_world s ps rq rt ad)
      (mk_world (with_counters s (acquire_many k (semaphore s)) (total s) (enqueued_permit_decreases s)) ps (delete i rq) rt ad)
| step_grant s ps rq rt ad k sm :
    grant (semaphore s) = Some (k, sm) ->
    step (mk_world s ps rq rt ad)
      (mk_world (with_counters s sm (total s) (enqueued_permit_decreases s)) (mk_permit true k :: ps) rq rt ad)
| step_cancel s ps rq rt ad i :
    step (mk_world s ps rq rt ad)
      (mk_world (with_counters s (cancel i (semaphore s)) (total s) (enqueued_permit_decreases s)) ps rq rt ad)
| step_split s ps rq rt ad i p n p1 p2 :
    0 <= n -> ps !! i = Some p -> split s p n = (p1, p2) ->
    step (mk_world s ps rq rt ad) (mk_world s (option_list p2 ++ <[i := p1]> ps) rq rt ad)
| step_drop s ps rq rt ad i p s' k :
    ps !! i = Some p -> drop_resolve s p = (s', k) ->
    step (mk_world s ps rq rt ad) (mk_world s' (delete i ps) rq (k :: rt) ad)
| step_return s ps rq rt ad i k :
    rt !! i = Some k ->
    step (mk_world s ps rq rt ad) (mk_world (drop_return s k) ps rq (delete i rt) ad)
| step_decrement s ps rq rt n s' removed :
    0 <= n -> decrement_begin s n = (s', removed) ->
    step (mk_world s ps rq rt None) (mk_world s' ps rq rt (if removed =? 0 then None else Some (Removing removed)))
| step_remove s ps rq rt removed :
    step (mk_world s ps rq rt (Some (Removing removed)))
      (match decrement_acquire s removed with
       | Some s' => mk_world s' ps rq rt None
       | None => mk_world s ps rq rt (Some (Enqueuing removed))
       end)
| step_enqueue s ps rq rt removed :
    step (mk_world s ps rq rt (Some (Enqueuing removed))) (mk_world (decrement_enqueue s removed) ps rq rt None)
| step_increment s ps rq rt n s' added :
    0 <= n -> increment_begin s n = (s', added) ->
    step (mk_world s ps rq rt None) (mk_world s' ps rq rt (if added =? 0 then None else Some (Adding added)))
| step_add s ps rq rt added s' p :
    increment_cancel s added = (s', p) ->
    step (mk_world s ps rq rt (Some (Adding added))) (mk_world s' (p :: ps) rq rt None).

(** The permits held, all together. *)
Definition held (ps : list Permit) : Z := foldr (fun p acc => num_physical_permits p + acc) 0 ps.
Definition sum_Z (l : list Z) : Z := foldr Z.add 0 l.

(** ** The counters *)

Lemma div_ceil_spec n d : 0 <= n -> 0 < d -> 0 <= div_ceil n d /\ n <= div_ceil n d * d < n + d.
Proof.
  intros Hn Hd. unfold div_ceil. pose proof (Z.div_mod (n + d - 1) d ltac:(lia)). pose proof (Z.mod_pos_bound (n + d - 1) d Hd). nia.
Qed.

Lemma div_ceil_mono n m d : 0 < d -> n <= m -> div_ceil n d <= div_ceil m d.
Proof. intros Hd Hn. unfold div_ceil. apply Z.div_le_mono; lia. Qed.

Lemma attempt_sub_spec v n m v' d :
    attempt_sub v n m = (v', d) -> 0 <= n -> 0 <= m <= v -> v' = v - d /\ 0 <= d <= n /\ m <= v' /\ (d = n \/ v' = m).
Proof. unfold attempt_sub, saturating_sub. destruct (Z.leb_spec v m); intros [= <- <-]; lia. Qed.

Lemma attempt_add_spec v n m v' a :
    attempt_add v n m = (v', a) -> 0 <= n -> 0 <= v <= m -> m < 2 ^ 64 -> v' = v + a /\ 0 <= a <= n /\ v' <= m.
Proof. unfold attempt_add, saturating_add. destruct (Z.leb_spec m v); intros [= <- <-]; lia. Qed.

Lemma PERMIT_LIMIT_range : 2 <= PERMIT_LIMIT < 2 ^ 32.
Proof. unfold PERMIT_LIMIT. pose proof MAX_PERMITS_range. lia. Qed.

Lemma compute_basis_loop_spec fuel max_permits k :
    is_u64 max_permits -> 0 <= k <= 63 -> Z.of_nat fuel = 64 - k -> (k = 0 \/ PERMIT_LIMIT < div_ceil max_permits (2 ^ (k - 1))) ->
    exists j, k <= j <= 63 /\ compute_basis_loop fuel max_permits (2 ^ k) = 2 ^ j /\ div_ceil max_permits (2 ^ j) <= PERMIT_LIMIT /\
      (j = 0 \/ PERMIT_LIMIT < div_ceil max_permits (2 ^ (j - 1))).
Proof.
  intros Hu. revert k. induction fuel as [|fuel IH]; intros k Hk Hf Hmin; [lia|]. cbn [compute_basis_loop].
  destruct (Z.ltb_spec PERMIT_LIMIT (div_ceil max_permits (2 ^ k))) as [Hlt|Hge].
  - pose proof PERMIT_LIMIT_range as HL.
    assert (k <= 62) as Hk'.
    { destruct (decide (k = 63)) as [->|]; [|lia]. exfalso. unfold is_u64 in Hu.
      assert (div_ceil max_permits (2 ^ 63) <= 2); [|lia]. unfold div_ceil. apply Z.lt_succ_r. apply Z.div_lt_upper_bound; lia. }
    assert (2 ^ k * 2 = 2 ^ (k + 1)) as E by (rewrite Z.pow_add_r; lia).
    rewrite wrap64_small by (rewrite E; unfold is_u64; split; [apply Z.pow_nonneg; lia|apply Z.pow_lt_mono_r; lia]). rewrite E.
    destruct (IH (k + 1)) as (j & Hj & H); [lia|lia|right; by rewrite Z.add_simpl_r|]. exists j. split; [lia|done].
  - exists k. split; [lia|]. done.
Qed.

Lemma compute_basis_spec max_permits :
    is_u64 max_permits ->
    exists j, 0 <= j <= 63 /\ compute_basis max_permits = 2 ^ j /\ div_ceil max_permits (2 ^ j) <= PERMIT_LIMIT /\
      (j = 0 \/ PERMIT_LIMIT < div_ceil max_permits (2 ^ (j - 1))).
Proof. intros Hu. apply (compute_basis_loop_spec 64 max_permits 0 Hu); [lia|lia|by left]. Qed.

(** ** The invariant *)

(** The counters are ahead of the semaphore by the adjustment under way. *)
Definition offset (ad : option Adjustment) : Z :=
    match ad with Some (Removing r) | Some (Enqueuing r) => r | Some (Adding a) => - a | None => 0 end.

(** The permits that exist: stored, held, or on their way back. *)
Definition in_existence (w : world) : Z := stored (semaphore (w_sem w)) + held (w_permits w) + sum_Z (w_returning w).

Definition request_ok (s : AdjustableSemaphore) (k : Z) : Prop := 1 <= k <= Z.max 1 (max_physical_permits s).

Record sem_inv (w : world) : Prop := {
    inv_range : 0 <= min_physical_permits (w_sem w) <= total (w_sem w) /\ total (w_sem w) <= max_physical_permits (w_sem w) <= PERMIT_LIMIT;
    inv_basis : 0 < basis (w_sem w);
    inv_enqueued : 0 <= enqueued_permit_decreases (w_sem w);
    inv_stored : 0 <= stored (semaphore (w_sem w));
    inv_permits : Forall (fun p => 0 <= num_physical_permits p) (w_permits w);
    inv_returning : Forall (fun k => 0 <= k) (w_returning w);
    inv_requests : Forall (request_ok (w_sem w)) (w_requests w) /\ Forall (request_ok (w_sem w)) (waiting (semaphore (w_sem w)));
    inv_adjusting : match w_adjusting w with
      | Some (Removing r) | Some (Enqueuing r) => 0 < r
      | Some (Adding a) => 0 < a <= total (w_sem w)
      | None => True
      end;
    inv_balance : total (w_sem w) + enqueued_permit_decreases (w_sem w) + offset (w_adjusting w) = in_existence w;
    inv_bound : in_existence w <= max_physical_permits (w_sem w);
}.

Lemma held_nonneg ps : Forall (fun p => 0 <= num_physical_permits p) ps -> 0 <= held ps.
Proof. unfold held. induction 1; simpl; lia. Qed.

Lemma sum_Z_nonneg l : Forall (fun k => 0 <= k) l -> 0 <= sum_Z l.
Proof. unfold sum_Z. induction 1; simpl; lia. Qed.

Lemma held_delete ps i p : ps !! i = Some p -> held (delete i ps) = held ps - num_physical_permits p.
Proof. unfold held. revert i. induction ps as [|q ps IH]; intros [|i] H; simplify_eq/=; [lia|]. rewrite (IH i) by done. lia. Qed.

Lemma held_insert ps i p q : ps !! i = Some p -> held (<[i := q]> ps) = held ps - num_physical_permits p + num_physical_permits q.
Proof. unfold held. revert i. induction ps as [|p' ps IH]; intros [|i] H; simplify_eq/=; [lia|]. rewrite (IH i) by done. lia. Qed.

Lemma held_app ps qs : held (ps ++ qs) = held ps + held qs.
Proof. unfold held. induction ps; simpl; lia. Qed.

Lemma sum_Z_delete l i k : l !! i = Some k -> sum_Z (delete i l) = sum_Z l - k.
Proof. unfold sum_Z. revert i. induction l as [|a l IH]; intros [|i] H; simplify_eq/=; [lia|]. rewrite (IH i) by done. lia. Qed.

Lemma Forall_delete {A} (P : A -> Prop) l i : Forall P l -> Forall P (delete i l).
Proof. intros H. revert i. induction H as [|a l Ha Hl IH]; intros [|i]; cbn; [constructor|constructor|done|by constructor]. Qed.

Lemma held_cons p ps : held (p :: ps) = num_physical_permits p + held ps.
Proof. done. Qed.

Lemma sum_Z_cons k l : sum_Z (k :: l) = k + sum_Z l.
Proof. done. Qed.

#[local] Arguments held _ : simpl never.
#[local] Arguments sum_Z _ : simpl never.

Definition start (initial_permits : Z) (permit_range : Z * Z) : world := mk_world (new initial_permits permit_range) [] [] [] None.

Lemma start_inv initial lo hi : 0 <= lo -> lo <= initial <= hi -> is_u64 hi -> sem_inv (start initial (lo, hi)).
Proof.
  intros Hlo Hi Hu. destruct (compute_basis_spec hi Hu) as (j & Hj & Eb & Hb & _). unfold start, new. cbn [fst snd]. rewrite Eb.
  assert (0 < 2 ^ j) as Hpos by (apply Z.pow_pos_nonneg; lia).
  destruct (div_ceil_spec lo (2 ^ j)) as [H1 _]; [lia|lia|].
  pose proof (div_ceil_mono lo initial (2 ^ j) Hpos ltac:(lia)). pose proof (div_ceil_mono initial hi (2 ^ j) Hpos ltac:(lia)).
  assert (clamp (div_ceil initial (2 ^ j)) (div_ceil lo (2 ^ j)) (div_ceil hi (2 ^ j)) = div_ceil initial (2 ^ j)) as -> by (unfold clamp; lia).
  destruct (sem_new_spec (div_ceil initial (2 ^ j))) as [E1 E2].
  split; unfold in_existence, held, sum_Z; cbn; rewrite ?E1, ?E2; try lia; try constructor; try constructor.
Qed.

Lemma to_physical_ok s n :
    0 <= total s <= max_physical_permits s -> max_physical_permits s <= PERMIT_LIMIT -> request_ok s (to_physical_acquire s n).
Proof.
  intros Ht Hm. pose proof PERMIT_LIMIT_range. unfold request_ok, to_physical_acquire, clamp. rewrite wrap32_small by (unfold is_u32; lia). lia.
Qed.

Ltac inv_cases := split; unfold in_existence in *; cbn in *; rewrite ?held_cons, ?sum_Z_cons; cbn; try done; try assumption; try lia.

Lemma inv_drop s ps rq rt ad i p s' k :
    sem_inv (mk_world s ps rq rt ad) -> ps !! i = Some p -> drop_resolve s p = (s', k) -> sem_inv (mk_world s' (delete i ps) rq (k :: rt) ad).
Proof.
  intros [] Hp E. unfold drop_resolve in E. destruct (attempt_sub _ _ _) as [e d] eqn:Ea. injection E as <- <-.
  assert (0 <= num_physical_permits p) as Hn by (by eapply (Forall_lookup_1 _ _ _ _ inv_permits0)).
  apply attempt_sub_spec in Ea as (-> & Hd & He & _); [|done|cbn in *; lia].
  inv_cases; rewrite ?(held_delete _ _ _ Hp); try lia; [by apply Forall_delete|constructor; [lia|done]].
Qed.

Lemma inv_return s ps rq rt ad i k :
    sem_inv (mk_world s ps rq rt ad) -> rt !! i = Some k -> sem_inv (mk_world (drop_return s k) ps rq (delete i rt) ad).
Proof.
  intros [] Hk. assert (0 <= k) as Hn by (by eapply (Forall_lookup_1 _ _ _ _ inv_returning0)).
  unfold drop_return. destruct (add_permits_spec k (semaphore s)) as [E1 E2].
  destruct (Z.ltb_spec 0 k); inv_cases; rewrite ?(sum_Z_delete _ _ _ Hk), ?E1, ?E2; try done; try lia; by apply Forall_delete.
Qed.

Lemma inv_split s ps rq rt ad i p n p1 p2 :
    sem_inv (mk_world s ps rq rt ad) -> 0 <= n -> ps !! i = Some p -> split s p n = (p1, p2) ->
    sem_inv (mk_world s (option_list p2 ++ <[i := p1]> ps) rq rt ad).
Proof.
  intros [] Hn Hp E. assert (0 <= num_physical_permits p) as Hp0 by (by eapply (Forall_lookup_1 _ _ _ _ inv_permits0)).
  destruct (div_ceil_spec n (basis s) Hn inv_basis0) as [Hd _].
  assert (0 <= num_physical_permits p1 /\ Forall (fun p => 0 <= num_physical_permits p) (option_list p2) /\
    num_physical_permits p1 + held (option_list p2) = num_physical_permits p) as (H1 & H2 & H3).
  { unfold split in E. destruct (Z.ltb_spec (num_physical_permits p) (div_ceil n (basis s))); [|destruct (Z.ltb_spec 0 (div_ceil n (basis s)))];
      injection E as <- <-; unfold held; cbn; split_and!; try lia; repeat constructor; cbn; lia. }
  inv_cases; rewrite ?held_app, ?(held_insert _ _ _ _ Hp); try lia. apply Forall_app. split; [done|]. by apply Forall_insert.
Qed.

Lemma inv_decrement s ps rq rt n s' r :
    sem_inv (mk_world s ps rq rt None) -> 0 <= n -> decrement_begin s n = (s', r) ->
    sem_inv (mk_world s' ps rq rt (if r =? 0 then None else Some (Removing r))).
Proof.
  intros [] Hn E. destruct (div_ceil_spec n (basis s) Hn inv_basis0) as [Hd _]. unfold decrement_begin in E.
  destruct (Z.eqb_spec (div_ceil n (basis s)) 0); [injection E as <- <-; by split|].
  destruct (attempt_sub _ _ _) as [t d] eqn:Ea. injection E as <- <-. apply attempt_sub_spec in Ea as (-> & Hd' & Ht & _); [|lia|cbn in *; lia].
  destruct (Z.eqb_spec d 0); inv_cases.
Qed.

Lemma inv_remove s ps rq rt r :
    sem_inv (mk_world s ps rq rt (Some (Removing r))) ->
    sem_inv (match decrement_acquire s r with Some s' => mk_world s' ps rq rt None | None => mk_world s ps rq rt (Some (Enqueuing r)) end).
Proof.
  intros [] . cbn in *. pose proof PERMIT_LIMIT_range. pose proof (held_nonneg ps inv_permits0). pose proof (sum_Z_nonneg rt inv_returning0).
  assert (wrap32 r = r) as Hr by (apply wrap32_small; unfold is_u32, in_existence in *; cbn in *; lia).
  unfold decrement_acquire. rewrite Hr. pose proof (try_acquire_spec r (semaphore s) inv_adjusting0) as Ht.
  destruct (try_acquire_many r (semaphore s)) as [sm|]; cbn [mbind option_bind]; [destruct Ht as (T1 & T2 & T3); inv_cases; rewrite ?T2, ?T3; done || lia|inv_cases].
Qed.

Lemma inv_increment s ps rq rt n s' a :
    sem_inv (mk_world s ps rq rt None) -> 0 <= n -> increment_begin s n = (s', a) ->
    sem_inv (mk_world s' ps rq rt (if a =? 0 then None else Some (Adding a))).
Proof.
  intros [] Hn E. destruct (div_ceil_spec n (basis s) Hn inv_basis0) as [Hd _]. unfold increment_begin in E. pose proof PERMIT_LIMIT_range.
  destruct (Z.eqb_spec (div_ceil n (basis s)) 0); [injection E as <- <-; by split|].
  destruct (attempt_add _ _ _) as [t d] eqn:Ea. injection E as <- <-. apply attempt_add_spec in Ea as (-> & Ha & Ht); [|lia|cbn in *; lia|cbn in *; lia].
  destruct (Z.eqb_spec d 0); inv_cases.
Qed.

Lemma inv_add s ps rq rt a s' p :
    sem_inv (mk_world s ps rq rt (Some (Adding a))) -> increment_cancel s a = (s', p) -> sem_inv (mk_world s' (p :: ps) rq rt None).
Proof.
  intros [] E. unfold increment_cancel in E. cbn in *. pose proof PERMIT_LIMIT_range.
  destruct (attempt_sub _ _ _) as [e c] eqn:Ea. injection E as <- <-. apply attempt_sub_spec in Ea as (-> & Hc & He & Hor); [|lia|lia].
  assert (wrap32 (a - c) = a - c) as Hw by (apply wrap32_small; unfold is_u32; lia).
  inv_cases; rewrite ?Hw; try lia. constructor; [cbn; lia|done].
Qed.

Lemma step_inv w w' : step w w' -> sem_inv w -> sem_inv w'.
Proof.
  intros Hs Hi. pose proof PERMIT_LIMIT_range. destruct Hs.
  - destruct Hi. cbn in *. inv_cases. split; [|apply inv_requests0]. constructor; [apply to_physical_ok; lia|apply inv_requests0].
  - destruct Hi. cbn in *. destruct (acquire_many_spec k (semaphore s)) as [E1 E2]. inv_cases; rewrite ?E1, ?E2; try lia.
    destruct inv_requests0 as [Hr Hw]. split; [by apply Forall_delete|]. apply Forall_app. split; [done|].
    constructor; [by eapply (Forall_lookup_1 _ _ _ _ Hr)|constructor].
  - destruct Hi. cbn in *. pose proof (grant_spec (semaphore s)) as Hg. rewrite H0 in Hg. destruct Hg as (E1 & E2 & E3).
    destruct inv_requests0 as [Hr Hw]. rewrite E1 in Hw. apply Forall_cons in Hw as [Hk Hw]. unfold request_ok in Hk.
    inv_cases; rewrite ?E3; try lia. constructor; [cbn; lia|done].
  - destruct Hi. cbn in *. destruct (cancel_spec i (semaphore s)) as [E1 E2]. inv_cases; rewrite ?E1, ?E2; try lia.
    split; [apply inv_requests0|]. apply Forall_delete, inv_requests0.
  - by eapply inv_split.
  - by eapply inv_drop.
  - by eapply inv_return.
  - by eapply inv_decrement.
  - by apply inv_remove.
  - destruct Hi. cbn in *. pose proof (held_nonneg ps inv_permits0). pose proof (sum_Z_nonneg rt inv_returning0).
    assert (wrap64 (enqueued_permit_decreases s + removed) = enqueued_permit_decreases s + removed) as Ew
      by (apply wrap64_small; unfold is_u64, in_existence in *; cbn in *; lia).
    inv_cases; rewrite ?Ew; lia.
  - by eapply inv_increment.
  - by eapply inv_add.
Qed.

Lemma reachable_inv w w' : rtc step w w' -> sem_inv w -> sem_inv w'.
Proof. induction 1; eauto using step_inv. Qed.

(** The bounds and the basis never change. *)
Lemma step_constants w w' :
    step w w' -> min_physical_permits (w_sem w') = min_physical_permits (w_sem w) /\
      max_physical_permits (w_sem w') = max_physical_permits (w_sem w) /\ basis (w_sem w') = basis (w_sem w).
Proof.
  intros []; unfold drop_resolve, drop_return, decrement_begin, decrement_acquire, increment_begin, increment_cancel in *; cbn;
    repeat (case_match; simplify_eq/=); try done.
  all: match goal with E : (_ ≫= _) = Some _ |- _ => apply bind_Some in E as (? & _ & E); injection E as <-; done end.
Qed.

Lemma reachable_constants w w' :
    rtc step w w' -> min_physical_permits (w_sem w') = min_physical_permits (w_sem w) /\
      max_physical_permits (w_sem w') = max_physical_permits (w_sem w) /\ basis (w_sem w') = basis (w_sem w).
Proof. induction 1 as [|w1 w2 w3 H12 _ IH]; [done|]. apply step_constants in H12. intuition congruence. Qed.

(** ** Settling

    The threads finish what they have begun and drop their permits; nothing new is requested. *)
Inductive settle : world -> world -> Prop :=
| settle_acquire s ps rq rt ad i k :
    rq !! i = Some k ->
    settle (mk_world s ps rq rt ad)
      (mk_world (with_counters s (acquire_many k (semaphore s)) (total s) (enqueued_permit_decreases s)) ps (delete i rq) rt ad)
| settle_grant s ps rq rt ad k sm :
    grant (semaphore s) = Some (k, sm) ->
    settle (mk_world s ps rq rt ad)
      (mk_world (with_counters s sm (total s) (enqueued_permit_decreases s)) (mk_permit true k :: ps) rq rt ad)
| settle_drop s ps rq rt ad i p s' k :
    ps !! i = Some p -> drop_resolve s p = (s', k) ->
    settle (mk_world s ps rq rt ad) (mk_world s' (delete i ps) rq (k :: rt) ad)
| settle_return s ps rq rt ad i k :
    rt !! i = Some k ->
    settle (mk_world s ps rq rt ad) (mk_world (drop_return s k) ps rq (delete i rt) ad)
| settle_remove s ps rq rt removed :
    settle (mk_world s ps rq rt (Some (Removing removed)))
      (match decrement_acquire s removed with
       | Some s' => mk_world s' ps rq rt None
       | None => mk_world s ps rq rt (Some (Enqueuing removed))
       end)
| settle_enqueue s ps rq rt removed :
    settle (mk_world s ps rq rt (Some (Enqueuing removed))) (mk_world (decrement_enqueue s removed) ps rq rt None)
| settle_add s ps rq rt added s' p :
    increment_cancel s added = (s', p) ->
    settle (mk_world s ps rq rt (Some (Adding added))) (mk_world s' (p :: ps) rq rt None).

Lemma settle_is_step w w' : settle w w' -> step w w'.
Proof. destruct 1; by econstructor. Qed.

Definition weight (ad : option Adjustment) : nat :=
    match ad with Some (Removing _) => 2 | Some (Enqueuing _) => 1 | Some (Adding _) => 3 | None => 0 end.

Definition work_left (w : world) : nat :=
    4 * length (w_requests w) + 3 * length (waiting (semaphore (w_sem w))) + 2 * length (w_permits w) + length (w_returning w) + weight (w_adjusting w).

Lemma delete_shorter {A} (l : list A) i x : l !! i = Some x -> S (length (delete i l)) = length l.
Proof. intros Hl. rewrite length_delete by (by eexists). apply lookup_lt_Some in Hl. lia. Qed.

Lemma settle_decreases w w' : sem_inv w -> settle w w' -> (work_left w' < work_left w)%nat.
Proof.
  intros Hi Hst. destruct Hst; unfold work_left; cbn [w_requests w_sem w_permits w_returning w_adjusting with_counters semaphore weight length].
  - rewrite (proj2 (acquire_many_spec k (semaphore s))), length_app. cbn [length]. apply delete_shorter in H. lia.
  - pose proof (grant_spec (semaphore s)) as Hg. rewrite H in Hg. destruct Hg as (-> & _). cbn [length]. lia.
  - unfold drop_resolve in H0. destruct (attempt_sub _ _ _). injection H0 as <- <-. apply delete_shorter in H. cbn [with_counters semaphore]. lia.
  - apply delete_shorter in H. unfold drop_return. case_match; cbn [with_counters semaphore]; [rewrite (proj2 (add_permits_spec k (semaphore s)))|]; lia.
  - pose proof (inv_adjusting _ Hi) as Hr. pose proof (inv_bound _ Hi) as Hb. pose proof (inv_balance _ Hi) as Hbal. cbn in Hr. pose proof PERMIT_LIMIT_range.
    pose proof (inv_range _ Hi). pose proof (inv_enqueued _ Hi). cbn in *.
    assert (wrap32 removed = removed) as Hw by (apply wrap32_small; unfold is_u32; lia).
    unfold decrement_acquire. rewrite Hw. pose proof (try_acquire_spec removed (semaphore s) Hr) as Ht.
    destruct (try_acquire_many removed (semaphore s)) as [sm|]; cbn; [destruct Ht as (_ & _ & ->)|]; lia.
  - cbn. lia.
  - unfold increment_cancel in H. destruct (attempt_sub _ _ _). injection H as <- <-. cbn. lia.
Qed.

(** Settling comes to an end. *)
Lemma settle_terminates w : sem_inv w -> sn settle w.
Proof.
  intros Hi. remember (work_left w) as n eqn:En. revert w Hi En. induction n as [n IH] using lt_wf_ind. intros w Hi ->.
  constructor. intros w' Hs. pose proof (settle_decreases _ _ Hi Hs). eapply IH; [done| |done]. by eapply step_inv; [apply settle_is_step|].
Qed.

Definition requests_within (w : world) : Prop :=
    Forall (fun k => k <= total (w_sem w)) (w_requests w) /\ Forall (fun k => k <= total (w_sem w)) (waiting (semaphore (w_sem w))).

Lemma settle_within w w' : sem_inv w -> settle w w' -> requests_within w -> requests_within w'.
Proof.
  unfold requests_within. intros Hi Hst [Hr Hw]. destruct Hst; cbn in *.
  - rewrite (proj2 (acquire_many_spec k (semaphore s))). split; [by apply Forall_delete|]. apply Forall_app. split; [done|].
    constructor; [by eapply (Forall_lookup_1 _ _ _ _ Hr)|constructor].
  - pose proof (grant_spec (semaphore s)) as Hg. rewrite H in Hg. destruct Hg as (E & _). rewrite E in Hw. by apply Forall_cons in Hw as [_ Hw].
  - unfold drop_resolve in H0. destruct (attempt_sub _ _ _). injection H0 as <- <-. done.
  - unfold drop_return. case_match; cbn; [|done]. by rewrite (proj2 (add_permits_spec k (semaphore s))).
  - pose proof (inv_adjusting _ Hi) as Hr'. cbn in Hr'. unfold decrement_acquire.
    destruct (try_acquire_many (wrap32 removed) (semaphore s)) as [sm|] eqn:E; cbn; [|done].
    pose proof (inv_bound _ Hi) as Hb. pose proof (inv_balance _ Hi) as Hbal. pose proof PERMIT_LIMIT_range.
    pose proof (inv_range _ Hi). pose proof (inv_enqueued _ Hi). cbn in *.
    rewrite wrap32_small in E by (unfold is_u32; lia). pose proof (try_acquire_spec removed (semaphore s) Hr') as Ht. rewrite E in Ht. by destruct Ht as (_ & _ & ->).
  - done.
  - unfold increment_cancel in H. destruct (attempt_sub _ _ _). injection H as <- <-. done.
Qed.

(** Where nothing more can settle, everything has been given back. *)
Lemma settled_empty w :
    sem_inv w -> (forall w', ~ settle w w') ->
    w_permits w = [] /\ w_requests w = [] /\ w_returning w = [] /\ w_adjusting w = None /\
    stored (semaphore (w_sem w)) = total (w_sem w) + enqueued_permit_decreases (w_sem w) /\ grant (semaphore (w_sem w)) = None.
Proof.
  intros Hi Hn. destruct w as [s ps rq rt ad]. cbn.
  assert (ps = []) as ->. { destruct ps as [|p ps]; [done|]. exfalso. destruct (drop_resolve s p) as [s' k] eqn:E. eapply Hn. by apply (settle_drop _ _ _ _ _ 0 p). }
  assert (rq = []) as ->. { destruct rq as [|k rq]; [done|]. exfalso. eapply Hn. by apply (settle_acquire _ _ _ _ _ 0 k). }
  assert (rt = []) as ->. { destruct rt as [|k rt]; [done|]. exfalso. eapply Hn. by apply (settle_return _ _ _ _ _ 0 k). }
  assert (ad = None) as ->.
  { destruct ad as [[r|r|a]|]; [| | |done]; exfalso; [eapply Hn, settle_remove|eapply Hn, settle_enqueue|].
    destruct (increment_cancel s a) as [s' p] eqn:E. eapply Hn. by apply (settle_add _ _ _ _ a s' p). }
  split_and!; try done.
  - pose proof (inv_balance _ Hi) as Hb. unfold in_existence in Hb. cbn in Hb. unfold held, sum_Z in Hb. cbn in Hb. lia.
  - destruct (grant (semaphore s)) as [[k sm]|] eqn:E; [|done]. exfalso. eapply Hn. by eapply settle_grant.
Qed.

(** ** Executing a schedule *)

Inductive event :=
| Request (n : Z) | Acquire (i : nat) | Grant | Drop (i : nat) | Return (i : nat) | Decrement (n : Z) | Increment (n : Z) | Adjust.

Definition perform (w : world) (e : event) : option world :=
    let '(mk_world s ps rq rt ad) := w in
    match e, ad with
    | Request n, _ => Some (mk_world s ps (to_physical_acquire s n :: rq) rt ad)
    | Acquire i, _ =>
        k ← rq !! i;
        Some (mk_world (with_counters s (acquire_many k (semaphore s)) (total s) (enqueued_permit_decreases s)) ps (delete i rq) rt ad)
    | Grant, _ =>
        '(k, sm) ← grant (semaphore s);
        Some (mk_world (with_counters s sm (total s) (enqueued_permit_decreases s)) (mk_permit true k :: ps) rq rt ad)
    | Drop i, _ => p ← ps !! i; let '(s', k) := drop_resolve s p in Some (mk_world s' (delete i ps) rq (k :: rt) ad)
    | Return i, _ => k ← rt !! i; Some (mk_world (drop_return s k) ps rq (delete i rt) ad)
    | Decrement n, None =>
        if 0 <=? n then let '(s', r) := decrement_begin s n in Some (mk_world s' ps rq rt (if r =? 0 then None else Some (Removing r))) else None
    | Increment n, None =>
        if 0 <=? n then let '(s', a) := increment_begin s n in Some (mk_world s' ps rq rt (if a =? 0 then None else Some (Adding a))) else None
    | Adjust, Some (Removing r) =>
        Some (match decrement_acquire s r with Some s' => mk_world s' ps rq rt None | None => mk_world s ps rq rt (Some (Enqueuing r)) end)
    | Adjust, Some (Enqueuing r) => Some (mk_world (decrement_enqueue s r) ps rq rt None)
    | Adjust, Some (Adding a) => let '(s', p) := increment_cancel s a in Some (mk_world s' (p :: ps) rq rt None)
    | _, _ => None
    end.

Definition execute (w : world) (es : list event) : option world := foldl (fun w e => w ≫= (fun w => perform w e)) (Some w) es.

Lemma perform_step w e w' : perform w e = Some w' -> step w w'.
Proof.
  destruct w as [s ps rq rt ad]. intros E. destruct e as [n|i| |i|i|n|n|]; cbn in E.
  - injection E as <-. constructor.
  - apply bind_Some in E as (k & Hk & [= <-]). by constructor.
  - apply bind_Some in E as ([k sm] & Hk & [= <-]). by constructor.
  - apply bind_Some in E as (p & Hp & E). destruct (drop_resolve s p) as [s' k] eqn:Ed. injection E as <-. by econstructor.
  - apply bind_Some in E as (k & Hk & [= <-]). by constructor.
  - destruct ad; [done|]. destruct (Z.leb_spec 0 n); [|done]. destruct (decrement_begin s n) as [s' r] eqn:Ed. injection E as <-. by econstructor.
  - destruct ad; [done|]. destruct (Z.leb_spec 0 n); [|done]. destruct (increment_begin s n) as [s' r] eqn:Ed. injection E as <-. by econstructor.
  - destruct ad as [[r|r|a]|]; [injection E as <-; constructor|injection E as <-; constructor| |done].
    destruct (increment_cancel s a) as [s' p] eqn:Ed. injection E as <-. by econstructor.
Qed.

Lemma execute_reaches w es w' : execute w es = Some w' -> rtc step w w'.
Proof.
  unfold execute. revert w. induction es as [|e es IH]; intros w E; cbn in E; [by injection E as <-|].
  destruct (perform w e) as [w1|] eqn:Ep.
  - eapply rtc_l; [by eapply perform_step|]. by apply IH.
  - exfalso. clear - E. induction es as [|e' es IH]; [done|]. by apply IH.
Qed.

End AdjustableSemaphore.

(** C12: however the threads interleave, permits are neither lost nor made.  From a semaphore with an
    initial number of permits in the given range, the total stays between the bounds, it agrees with
    the permits that exist up to the decreases that are enqueued or under way, and never more
    permits exist than the upper bound.  The number of active permits reported when no request
    waits and no adjustment is under way is the number held or being given back. *)
Theorem semaphore_conserves `{Semaphore} initial lo hi w :
  0 <= lo -> lo <= initial <= hi -> is_u64 hi -> rtc step (start initial (lo, hi)) w ->
  let s := w_sem w in
  let b := compute_basis hi in
  div_ceil lo b <= total s <= div_ceil hi b /\
  total s + enqueued_permit_decreases s + offset (w_adjusting w) = in_existence w /\
  0 <= enqueued_permit_decreases s /\ 0 <= held (w_permits w) /\ in_existence w <= div_ceil hi b /\
  (waiting (semaphore s) = [] -> w_adjusting w = None -> hi + b <= 2 ^ 64 ->
    total_permits s = total s * b /\ active_permits s = (held (w_permits w) + sum_Z (w_returning w)) * b).
Proof.
  intros Hlo Hi Hu Hr. cbn zeta. pose proof (reachable_inv _ _ Hr (start_inv initial lo hi Hlo Hi Hu)) as [].
  destruct (reachable_constants _ _ Hr) as (Emin & Emax & Eb). unfold start, new in Emin, Emax, Eb.
  cbn [w_sem min_physical_permits max_physical_permits basis fst snd] in Emin, Emax, Eb. rewrite Emin, Emax in inv_range0. rewrite Emax in inv_bound0. rewrite Eb in inv_basis0. pose proof (held_nonneg _ inv_permits0). pose proof (sum_Z_nonneg _ inv_returning0). pose proof PERMIT_LIMIT_range.
  split_and!; try lia. intros Hw Ha Hhi. unfold total_permits, active_permits. rewrite Eb.
  destruct (div_ceil_spec hi (compute_basis hi)) as [_ Hd]; [unfold is_u64 in Hu; lia|lia|].
  rewrite Ha in inv_balance0. cbn [offset] in inv_balance0. unfold in_existence in *.
  destruct (available_stored (semaphore (w_sem w))) as [_ Hav]. rewrite (Hav Hw).
  rewrite (wrap64_small (total (w_sem w) + _)) by (unfold is_u64; lia).
  unfold saturating_sub. rewrite Z.max_r by lia.
  split; [apply wrap64_small; unfold is_u64; nia|]. rewrite wrap64_small by (unfold is_u64; nia). f_equal. lia.
Qed.

(** C34: no request waits for ever.  Once the threads only finish what they have begun and drop their
    permits, in any order, they come to rest, and if the requests under way fit the total then
    every one of them has been served, no permit is held and all permits are back in the
    semaphore. *)
Theorem waiting_requests_served `{Semaphore} initial lo hi w :
  0 <= lo -> lo <= initial <= hi -> is_u64 hi -> rtc step (start initial (lo, hi)) w -> requests_within w ->
  sn settle w /\
  forall w', rtc settle w w' -> (forall w'', ~ settle w' w'') ->
    waiting (semaphore (w_sem w')) = [] /\ w_requests w' = [] /\ w_permits w' = [] /\ w_returning w' = [] /\
    stored (semaphore (w_sem w')) = total (w_sem w') + enqueued_permit_decreases (w_sem w').
Proof.
  intros Hlo Hi Hu Hr Hw. pose proof (reachable_inv _ _ Hr (start_inv initial lo hi Hlo Hi Hu)) as Hinv. split; [by apply settle_terminates|].
  intros w' Hs Hn. assert (sem_inv w' /\ requests_within w') as [Hinv' Hw'].
  { clear Hr Hn. induction Hs as [|w1 w2 w3 H12 _ IH]; [done|]. apply IH; [by eapply settle_within|by eapply step_inv; [apply settle_is_step|]]. }
  destruct (settled_empty w' Hinv' Hn) as (H1 & H2 & H3 & H4 & H5 & H6). split_and!; try done.
  pose proof (grant_spec (semaphore (w_sem w'))) as Hg. rewrite H6 in Hg. destruct Hw' as [_ Hw']. destruct (waiting (semaphore (w_sem w'))) as [|k q]; [done|].
  apply Forall_cons in Hw' as [Hk _]. pose proof (inv_enqueued _ Hinv'). lia.
Qed.

(** ** A concrete semaphore *)

Module SemaphoreExamples.

(** A count and a queue; a request that cannot wait is refused while others wait. *)
#[refine] Instance counting_semaphore : Semaphore := {|
  sem := Z * list Z;
  MAX_PERMITS := 2 ^ 61 - 1;
  sem_new n := (n, []);
  stored s := s.1;
  available s := match s.2 with [] => s.1 | _ => Z.min 0 s.1 end;
  waiting s := s.2;
  add_permits n s := (s.1 + n, s.2);
  try_acquire_many n s := match s.2 with [] => if n <=? s.1 then Some (s.1 - n, s.2) else None | _ => None end;
  acquire_many n s := (s.1, s.2 ++ [n]);
  grant s := match s.2 with n :: q => if n <=? s.1 then Some (n, (s.1 - n, q)) else None | [] => None end;
  cancel i s := (s.1, delete i s.2);
|}.
Proof.
  - lia.
  - done.
  - intros [n [|k q]]; cbn; split; (lia || done).
  - done.
  - intros n [m [|k q]]; cbn; [|lia]. destruct (Z.leb_spec n m); cbn; (lia || done).
  - done.
  - intros [m [|k q]]; cbn; [done|]. destruct (Z.leb_spec k m); cbn; (lia || done).
  - done.
Defined.

Definition begin : world := start 10 (2, 10).

(** Six permits are held when the total is decreased by eight. *)
Definition decreased : list event := [Request 6; Acquire 0; Grant; Decrement 8; Adjust; Adjust].

(** A request for all permits waits when the total is decreased, and the last permit is dropped. *)
Definition starved : list event := [Request 1; Acquire 0; Grant; Request 10; Acquire 0; Decrement 8; Adjust; Adjust; Drop 0; Return 0].

(** Permits are issued while decreases are enqueued.  After a decrease to two permits that could
    not take its eight permits from the semaphore, a new request for two permits is served at
    once, while the eight decreases are still enqueued and more than two permits are held. *)
Theorem issued_before_decreases :
  exists w w', execute begin decreased = Some w /\ total (w_sem w) = 2 /\ enqueued_permit_decreases (w_sem w) = 8 /\ held (w_permits w) = 6 /\
    execute w [Request 2; Acquire 0; Grant] = Some w' /\ enqueued_permit_decreases (w_sem w') = 8 /\ held (w_permits w') = 8.
Proof. eexists _, _. by split_and!; [vm_compute|..]. Qed.

(** A request that was clamped to the total before a decrease waits for ever.  Nothing is held any
    more, no thread can take a step except by new requests and adjustments, and the request is
    larger than what is stored. *)
Theorem request_starves :
  exists w, execute begin starved = Some w /\ waiting (semaphore (w_sem w)) = [10] /\ w_permits w = [] /\ total (w_sem w) = 2 /\
    forall w', ~ settle w w'.
Proof.
  eexists. split; [vm_compute; reflexivity|]. split_and!; try done. intros w' Hs.
  inversion Hs; simplify_eq/=; by destruct i.
Qed.

Lemma semaphore_conserves_witness :
  exists w, execute begin decreased = Some w /\ 2 <= total (w_sem w) <= 10 /\ in_existence w <= 10.
Proof.
  destruct (execute begin decreased) as [w|] eqn:E; [|vm_compute in E; discriminate E]. exists w. split; [reflexivity|].
  pose proof (semaphore_conserves 10 2 10 w ltac:(lia) ltac:(lia) ltac:(unfold is_u64; lia) (execute_reaches _ _ _ E)) as H.
  assert (div_ceil 2 (compute_basis 10) = 2) as E1 by (vm_compute; reflexivity).
  assert (div_ceil 10 (compute_basis 10) = 10) as E2 by (vm_compute; reflexivity).
  cbn zeta in H. rewrite E1, E2 in H. exact (conj (proj1 H) (proj1 (proj2 (proj2 (proj2 (proj2 H)))))).
Defined.

Lemma waiting_requests_served_witness :
  exists w, execute begin [Request 6; Acquire 0; Grant; Request 7; Acquire 0] = Some w /\ waiting (semaphore (w_sem w)) = [7] /\ sn settle w.
Proof.
  destruct (execute begin [Request 6; Acquire 0; Grant; Request 7; Acquire 0]) as [w|] eqn:E; [|vm_compute in E; discriminate E].
  exists w. split; [reflexivity|].
  assert (waiting (semaphore (w_sem w)) = [7] /\ requests_within w) as [H1 H2].
  { vm_compute in E. injection E as <-. split; [reflexivity|]. split; [constructor|]. constructor; [vm_compute; discriminate|constructor]. }
  split; [exact H1|].
  apply (waiting_requests_served 10 2 10 w ltac:(lia) ltac:(lia) ltac:(unfold is_u64; lia) (execute_reaches _ _ _ E) H2).
Defined.

(** The total of a semaphore for all [u64] permits overflows: it is reported as 0. *)
Lemma total_permits_overflow : total_permits (new (2 ^ 64 - 1) (0, 2 ^ 64 - 1)) = 0.
Proof. vm_compute. reflexivity. Qed.

End SemaphoreExamples.
