(* ===== verification/Singleflight.v ===== *)
(** * One operation in flight for each key

    Model of [xet_runtime/src/utils/singleflight.rs] and of its errors in [errors.rs].  Callers and the
    tasks that own a call interleave; a step is what a caller or a task does between two points
    where others can run: the map of calls and the result of a call are behind locks that are not
    held across an await.  A caller can be cancelled where it awaits. *)

From stdpp Require Import base numbers gmap strings relations list.
From S2P Require Import Prelude.

(** [tokio::sync::Notify]: a future made by [notified] is ready after the next call of
    [notify_waiters], and not before. *)
Class Notify := {
  notify : Type;
  notification : Type;
  notify_new : notify;
  notify_waiters : notify -> notify;
  notified : notify -> notification;
  ready : notify -> notification -> bool;
  not_ready_at_first n : ready n (notified n) = false;
  ready_after_notify n : ready (notify_waiters n) (notified n) = true;
}.

Section Singleflight.
  Context `{Nt : Notify} {T E : Type} (debug : E -> string).

Inductive SingleflightError :=
| NoResult | CallMissing | NoNotifierCreated | InternalError (e : E) | WaiterInternalError (s : string) | JoinError (s : string)
| OwnerPanicked | GroupLockPoisoned.

Abbreviation SingleflightResult := (result SingleflightError T).

(** Cloning keeps only the message of an inner error. *)
Definition clone_error (e : SingleflightError) : SingleflightError :=
    match e with InternalError e => WaiterInternalError (debug e) | e => e end.

Definition clone_result (r : SingleflightResult) : SingleflightResult :=
    match r with Ok t => Ok t | Err e => Err (clone_error e) end.

Record Call := mk_call { nt : notify; res : option SingleflightResult; num_waiters : Z }.

Definition Call_new : Call := mk_call notify_new None 0.

Definition complete (c : Call) (r : SingleflightResult) : Call := mk_call (notify_waiters (nt c)) (Some r) (num_waiters c).

(** [NoResult] when there is no result yet. *)
Definition get (c : Call) : SingleflightResult :=
    match clone_result <$> res c with Some r => r | None => Err NoResult end.

(** The result, or the call with one more waiter and the future to wait for. *)
Definition get_future (c : Call) : SingleflightResult + Call * notification :=
    match clone_result <$> res c with
    | Some r => inl r
    | None => inr (mk_call (nt c) (res c) ((num_waiters c + 1) mod 2 ^ 16)%Z, notified (nt c))
    end.

(** The task that owns a call.  A finished one keeps the output of its future, which only
    statements look at, and the result it returned. *)
Inductive OwnerTask := NotSpawned | Running | Finished (output : result E T) (r : SingleflightResult) | Panicked.

(** [OwnerTask::poll] when the future is ready with [r]. *)
Definition poll_ready (c : Call) (output : result E T) : Call * OwnerTask :=
    let r := match output with Ok t => Ok t | Err e => Err (InternalError e) end in
    (complete c (clone_result r), Finished output r).

(** [OwnerTask::drop] when the future panicked. *)
Definition drop_task (c : Call) : Call * OwnerTask := (complete c (Err OwnerPanicked), Panicked).

(** Where a caller of [work] is.  A returned caller keeps the number of its call. *)
Inductive Caller :=
| Calling (key : string)
| Owning (key : string) (c : nat)
| Joining (key : string) (c : nat)
| Joined (key : string) (c : nat) (r : SingleflightResult)
| Attached (c : nat)
| Waiting (c : nat) (f : notification)
| Returned (c : nat) (r : SingleflightResult) (owner : bool)
| GuardPanicked
| Cancelled.

(** The group: the map of calls; every call made so far with its task; the callers. *)
Record group := mk_group { call_map : gmap string nat; calls : list (Call * OwnerTask); callers : list Caller }.

(** The call of a key and whether it was created. *)
Definition get_call_or_create (g : group) (key : string) : group * Caller :=
    match call_map g !! key with
    | Some c => (g, Attached c)
    | None =>
        let c := length (calls g) in
        (mk_group (<[key := c]> (call_map g)) (calls g ++ [(Call_new, NotSpawned)]) (callers g), Owning key c)
    end.

(** The removal of a call fails when there is none, and the guard then panics. *)
Definition remove_call (m : gmap string nat) (key : string) : option (gmap string nat) :=
    match m !! key with Some _ => Some (delete key m) | None => None end.

Definition drop_guard (m : gmap string nat) (key : string) (after : Caller) : gmap string nat * Caller :=
    match remove_call m key with Some m' => (m', after) | None => (m, GuardPanicked) end.

(** The result that joining the task gives. *)
Definition join_result (message : string) (o : OwnerTask) : option SingleflightResult :=
    match o with Finished _ r => Some r | Panicked => Some (Err (JoinError message)) | NotSpawned | Running => None end.

(** What the callers and tasks under way can do. *)
Inductive progress : group -> group -> Prop :=
| progress_create m cs cl i key g' st :
    cl !! i = Some (Calling key) -> get_call_or_create (mk_group m cs cl) key = (g', st) ->
    progress (mk_group m cs cl) (mk_group (call_map g') (calls g') (<[i := st]> cl))
| progress_spawn m cs cl i key c k :
    cl !! i = Some (Owning key c) -> cs !! c = Some (k, NotSpawned) ->
    progress (mk_group m cs cl) (mk_group m (<[c := (k, Running)]> cs) (<[i := Joining key c]> cl))
| progress_finish m cs cl c k r :
    cs !! c = Some (k, Running) ->
    progress (mk_group m cs cl) (mk_group m (<[c := poll_ready k r]> cs) cl)
| progress_panic m cs cl c k :
    cs !! c = Some (k, Running) ->
    progress (mk_group m cs cl) (mk_group m (<[c := drop_task k]> cs) cl)
| progress_join m cs cl i key c k o message r :
    cl !! i = Some (Joining key c) -> cs !! c = Some (k, o) -> join_result message o = Some r ->
    progress (mk_group m cs cl) (mk_group m cs (<[i := Joined key c r]> cl))
| progress_return m cs cl i key c r m' st :
    cl !! i = Some (Joined key c r) -> drop_guard m key (Returned c r true) = (m', st) ->
    progress (mk_group m cs cl) (mk_group m' cs (<[i := st]> cl))
| progress_get_future m cs cl i c k o :
    cl !! i = Some (Attached c) -> cs !! c = Some (k, o) ->
    progress (mk_group m cs cl)
      (match get_future k with
       | inl r => mk_group m cs (<[i := Returned c r false]> cl)
       | inr (k', f) => mk_group m (<[c := (k', o)]> cs) (<[i := Waiting c f]> cl)
       end)
| progress_wake m cs cl i c f k o :
    cl !! i = Some (Waiting c f) -> cs !! c = Some (k, o) -> ready (nt k) f = true ->
    progress (mk_group m cs cl) (mk_group m cs (<[i := Returned c (get k) false]> cl)).

(** Callers also arrive and are cancelled.  An owner that is cancelled drops its guard; its task
    goes on. *)
Inductive step : group -> group -> Prop :=
| step_progress g g' : progress g g' -> step g g'
| step_work m cs cl key : step (mk_group m cs cl) (mk_group m cs (cl ++ [Calling key]))
| step_cancel_owner m cs cl i key c m' st :
    cl !! i = Some (Joining key c) -> drop_guard m key Cancelled = (m', st) ->
    step (mk_group m cs cl) (mk_group m' cs (<[i := st]> cl))
| step_cancel_waiter m cs cl i c f :
    cl !! i = Some (Waiting c f) -> step (mk_group m cs cl) (mk_group m cs (<[i := Cancelled]> cl)).

Definition new : group := mk_group ∅ [] [].

(** ** The invariant *)

(** The key and the call whose guard a caller holds. *)
Definition guard_of (cl : Caller) : option (string * nat) :=
    match cl with Owning key c | Joining key c | Joined key c _ => Some (key, c) | _ => None end.

(** The result that the owner of a call, and a waiter, is due from the output of the future: a value as
    it is, an error whole for the owner and as its message for a waiter. *)
Definition due (output : result E T) (owner : bool) : SingleflightResult :=
    match output with
    | Ok t => Ok t
    | Err e => Err (if owner then InternalError e else WaiterInternalError (debug e))
    end.

(** A call and its task agree. *)
Definition call_ok (k : Call) (o : OwnerTask) : Prop :=
    match o with
    | NotSpawned | Running => res k = None /\ nt k = notify_new
    | Finished output r => (r = due output true /\ res k = Some (due output false)) /\ nt k = notify_waiters notify_new
    | Panicked => res k = Some (Err OwnerPanicked) /\ nt k = notify_waiters notify_new
    end.

(** What the result of a returned caller has to do with the task of its call: it is what is due from
    the output of the future. *)
Definition result_ok (o : OwnerTask) (r : SingleflightResult) (owner : bool) : Prop :=
    match o, owner with
    | Finished output _, _ => r = due output owner
    | Panicked, true => exists message, r = Err (JoinError message)
    | Panicked, false => r = Err OwnerPanicked
    | NotSpawned, _ | Running, _ => False
    end.

Definition caller_ok (cs : list (Call * OwnerTask)) (cl : Caller) : Prop :=
    match cl with
    | Calling _ | Cancelled => True
    | Owning _ c => exists k, cs !! c = Some (k, NotSpawned)
    | Joining _ c => exists k o, cs !! c = Some (k, o) /\ o <> NotSpawned
    | Joined _ c r => exists k o, cs !! c = Some (k, o) /\ result_ok o r true
    | Attached c => is_Some (cs !! c)
    | Waiting c f => is_Some (cs !! c) /\ f = notified notify_new
    | Returned c r owner => exists k o, cs !! c = Some (k, o) /\ result_ok o r owner
    | GuardPanicked => False
    end.

Record group_inv (g : group) : Prop := {
    inv_calls : forall c k o, calls g !! c = Some (k, o) -> call_ok k o;
    inv_callers : forall i cl, callers g !! i = Some cl -> caller_ok (calls g) cl;
    inv_guards : forall i cl key c, callers g !! i = Some cl -> guard_of cl = Some (key, c) -> call_map g !! key = Some c;
    inv_unique : forall i j cl cl' key c key' c', callers g !! i = Some cl -> callers g !! j = Some cl' ->
      guard_of cl = Some (key, c) -> guard_of cl' = Some (key', c') -> key = key' \/ c = c' -> i = j;
    inv_map : forall key c, call_map g !! key = Some c -> exists i cl, callers g !! i = Some cl /\ guard_of cl = Some (key, c);
    inv_spawn : forall c k, calls g !! c = Some (k, NotSpawned) -> exists i key, callers g !! i = Some (Owning key c);
}.

Lemma clone_due output : clone_result (due output false) = due output false.
Proof. by destruct output. Qed.

Lemma result_not_missing o r owner : result_ok o r owner -> r <> Err NoResult.
Proof. destruct o as [| |[t|e] r'|], owner; cbn; try done; [by intros ->..| |by intros ->]. by intros [message ->]. Qed.

Lemma group_new_inv : group_inv new.
Proof. split; cbn; intros *; rewrite ?lookup_nil, ?lookup_empty; done. Qed.

(** One caller moves on and keeps its guard. *)
Lemma move_caller m cs cl i old st :
    group_inv (mk_group m cs cl) -> cl !! i = Some old -> caller_ok cs st -> guard_of st = guard_of old -> (forall key c, old <> Owning key c) ->
    group_inv (mk_group m cs (<[i := st]> cl)).
Proof.
  intros [] Hi Hok Hg Hold. pose proof (lookup_lt_Some _ _ _ Hi) as Hlt. cbn in *.
  assert (forall j x key c, <[i := st]> cl !! j = Some x -> guard_of x = Some (key, c) -> exists y, cl !! j = Some y /\ guard_of y = Some (key, c)) as Hback.
  { intros j x key c [(<- & <- & _)|[Hne Hj]]%list_lookup_insert_Some Hx; [exists old|exists x]; by rewrite <- ?Hg. }
  split; cbn.
  - done.
  - intros j x [(<- & <- & _)|[Hne Hj]]%list_lookup_insert_Some; [done|by eapply inv_callers0].
  - intros j x key c Hj Hx. destruct (Hback j x key c Hj Hx) as (y & Hy & Hgy). by eapply inv_guards0.
  - intros j j' x x' key c key' c' Hj Hj' Hx Hx' Hor. destruct (Hback _ _ _ _ Hj Hx) as (y & Hy & Hgy). destruct (Hback _ _ _ _ Hj' Hx') as (y' & Hy' & Hgy').
    by eapply (inv_unique0 j j' y y').
  - intros key c Hk. destruct (inv_map0 key c Hk) as (j & x & Hj & Hx). destruct (decide (j = i)) as [->|Hne].
    + exists i, st. rewrite list_lookup_insert_eq by done. split; [done|]. rewrite Hg. congruence.
    + exists j, x. by rewrite list_lookup_insert_ne.
  - intros c k Hc. destruct (inv_spawn0 c k Hc) as (j & key & Hj). exists j, key. rewrite list_lookup_insert_ne; [done|]. intros ->.
    apply (Hold key c). congruence.
Qed.

(** One caller drops its guard, which succeeds. *)
Lemma release_guard m cs cl i old key c after m' st :
    group_inv (mk_group m cs cl) -> cl !! i = Some old -> guard_of old = Some (key, c) -> (forall key c, old <> Owning key c) ->
    caller_ok cs after -> guard_of after = None -> drop_guard m key after = (m', st) ->
    group_inv (mk_group m' cs (<[i := st]> cl)).
Proof.
  intros [] Hi Hgo Hold Hok Hga Ed. pose proof (lookup_lt_Some _ _ _ Hi) as Hlt. cbn in *.
  unfold drop_guard, remove_call in Ed. rewrite (inv_guards0 i old key c Hi Hgo) in Ed. injection Ed as <- <-.
  assert (forall j x k d, <[i := after]> cl !! j = Some x -> guard_of x = Some (k, d) -> i <> j /\ cl !! j = Some x) as Hback.
  { intros j x k d [(<- & <- & _)|[Hne Hj]]%list_lookup_insert_Some Hx; [congruence|done]. }
  split; cbn.
  - done.
  - intros j x [(<- & <- & _)|[Hne Hj]]%list_lookup_insert_Some; [done|by eapply inv_callers0].
  - intros j x k d Hj Hx. destruct (Hback j x k d Hj Hx) as [Hne Hj']. rewrite lookup_delete_ne; [by eapply inv_guards0|].
    intros <-. apply Hne. by eapply (inv_unique0 i j old x); [..|left].
  - intros j j' x x' k d k' d' Hj Hj' Hx Hx' Hor. destruct (Hback _ _ _ _ Hj Hx) as [_ Hy]. destruct (Hback _ _ _ _ Hj' Hx') as [_ Hy'].
    by eapply (inv_unique0 j j' x x').
  - intros k d [Hne Hk]%lookup_delete_Some. destruct (inv_map0 k d Hk) as (j & x & Hj & Hx). exists j, x. split; [|done].
    rewrite list_lookup_insert_ne; [done|]. intros ->. congruence.
  - intros d k Hd. destruct (inv_spawn0 d k Hd) as (j & k' & Hj). exists j, k'. rewrite list_lookup_insert_ne; [done|]. intros ->.
    apply (Hold k' d). congruence.
Qed.

(** A call changes together with its task. *)
Lemma caller_ok_update cs c k o k' o' cl :
    cs !! c = Some (k, o) -> o' = o \/ (o = Running /\ o' <> NotSpawned) -> caller_ok cs cl -> caller_ok (<[c := (k', o')]> cs) cl.
Proof.
  intros Hc Ho. pose proof (lookup_lt_Some _ _ _ Hc) as Hlt.
  assert (forall d, is_Some (cs !! d) -> is_Some (<[c := (k', o')]> cs !! d)) as Hs.
  { intros d [x Hd]. apply lookup_lt_is_Some. rewrite length_insert. by apply lookup_lt_Some in Hd. }
  assert (forall d k1 o1, cs !! d = Some (k1, o1) -> exists k2 o2, <[c := (k', o')]> cs !! d = Some (k2, o2) /\ (o2 = o1 \/ (o1 = Running /\ o2 <> NotSpawned))) as Hd.
  { intros d k1 o1 Hd. destruct (decide (c = d)) as [<-|Hne].
    - exists k', o'. rewrite list_lookup_insert_eq by done. split; [done|]. rewrite Hc in Hd. injection Hd as <- <-. done.
    - exists k1, o1. rewrite list_lookup_insert_ne by done. auto. }
  destruct cl as [key|key d|key d|key d r|d|d f|d r b| |]; cbn; try done.
  - intros (k1 & H1). destruct (Hd _ _ _ H1) as (k2 & o2 & H2 & [->|[? _]]); [by exists k2|done].
  - intros (k1 & o1 & H1 & Hne). destruct (Hd _ _ _ H1) as (k2 & o2 & H2 & [->|[_ ?]]); [by exists k2, o1|by exists k2, o2].
  - intros (k1 & o1 & H1 & Hr). destruct (Hd _ _ _ H1) as (k2 & o2 & H2 & [->|[-> _]]); [by exists k2, o1|done].
  - apply Hs.
  - intros [H ->]. auto.
  - intros (k1 & o1 & H1 & Hr). destruct (Hd _ _ _ H1) as (k2 & o2 & H2 & [->|[-> _]]); [by exists k2, o1|done].
Qed.

Lemma change_call m cs cl c k o k' o' :
    group_inv (mk_group m cs cl) -> cs !! c = Some (k, o) -> o' = o \/ (o = Running /\ o' <> NotSpawned) -> call_ok k' o' ->
    group_inv (mk_group m (<[c := (k', o')]> cs) cl).
Proof.
  intros [] Hc Ho Hok. cbn in *. split; cbn; try done.
  - intros d x y [(<- & [= <- <-] & _)|[Hne Hd]]%list_lookup_insert_Some; [done|by eapply inv_calls0].
  - intros i x Hx. eapply caller_ok_update; eauto.
  - intros d x [(<- & [= <- ->] & _)|[Hne Hd]]%list_lookup_insert_Some; [|by eapply inv_spawn0].
    destruct Ho as [<-|[_ ?]]; [by eapply inv_spawn0|done].
Qed.

(** A caller that finds no call creates one. *)
Lemma create_call m cs cl i key :
    group_inv (mk_group m cs cl) -> cl !! i = Some (Calling key) -> m !! key = None ->
    group_inv (mk_group (<[key := length cs]> m) (cs ++ [(Call_new, NotSpawned)]) (<[i := Owning key (length cs)]> cl)).
Proof.
  intros [] Hi Hm. pose proof (lookup_lt_Some _ _ _ Hi) as Hlt. cbn in *.
  assert (forall c x, cs !! c = Some x -> (cs ++ [(Call_new, NotSpawned)]) !! c = Some x) as Happ.
  { intros c x Hc. rewrite lookup_app_l; [done|]. by apply lookup_lt_Some in Hc. }
  assert (forall x key c, guard_of x = Some (key, c) -> caller_ok cs x -> is_Some (cs !! c)) as Hlen.
  { intros x k c Hx. destruct x; cbn in *; try done; injection Hx as <- <-; [intros [? H]|intros (? & ? & H & _)..]; rewrite H; by eexists. }
  split; cbn.
  - intros c k o [Hc|[Hc Ho]]%lookup_app_Some; [by eapply inv_calls0|]. apply list_lookup_singleton_Some in Ho as [_ [= <- <-]]. done.
  - intros j x [(<- & <- & _)|[Hne Hj]]%list_lookup_insert_Some.
    + exists Call_new. by apply list_lookup_middle.
    + pose proof (inv_callers0 j x Hj) as Hok. destruct x; cbn in *; try done.
      * destruct Hok as [k Hk]. exists k. auto.
      * destruct Hok as (k & o & H1 & H2). exists k, o. auto.
      * destruct Hok as (k & o & H1 & H2). exists k, o. auto.
      * destruct Hok as [x Hx]. exists x. auto.
      * destruct Hok as [[x Hx] ->]. split; [|done]. exists x. auto.
      * destruct Hok as (k & o & H1 & H2). exists k, o. auto.
  - intros j x k c [(<- & <- & _)|[Hne Hj]]%list_lookup_insert_Some Hx.
    + injection Hx as <- <-. by rewrite lookup_insert_eq.
    + rewrite lookup_insert_ne; [by eapply inv_guards0|]. intros <-. pose proof (inv_guards0 _ _ _ _ Hj Hx). congruence.
  - intros j j' x x' k c k' c' [(<- & <- & _)|[Hne Hj]]%list_lookup_insert_Some [(<- & <- & _)|[Hne' Hj']]%list_lookup_insert_Some Hx Hx' Hor; [done| | |by eapply (inv_unique0 j j' x x')].
    + exfalso. injection Hx as <- <-. pose proof (inv_guards0 _ _ _ _ Hj' Hx') as Hk. destruct Hor as [->|Hc]; [congruence|].
      destruct (Hlen _ _ _ Hx' (inv_callers0 _ _ Hj')) as [y Hy]. apply lookup_lt_Some in Hy. lia.
    + exfalso. injection Hx' as <- <-. pose proof (inv_guards0 _ _ _ _ Hj Hx) as Hk. destruct Hor as [->|Hc]; [congruence|].
      destruct (Hlen _ _ _ Hx (inv_callers0 _ _ Hj)) as [y Hy]. apply lookup_lt_Some in Hy. lia.
  - intros k c [[<- <-]|[Hne Hk]]%lookup_insert_Some.
    + exists i, (Owning key (length cs)). by rewrite list_lookup_insert_eq.
    + destruct (inv_map0 k c Hk) as (j & x & Hj & Hx). exists j, x. split; [|done]. rewrite list_lookup_insert_ne; [done|]. intros ->. by simplify_eq/=.
  - intros c k [Hc|[Hc Ho]]%lookup_app_Some.
    + destruct (inv_spawn0 c k Hc) as (j & k' & Hj). exists j, k'. rewrite list_lookup_insert_ne; [done|]. intros ->. congruence.
    + apply list_lookup_singleton_Some in Ho as [Ho _]. exists i, key. rewrite list_lookup_insert_eq by done. do 2 f_equal. lia.
Qed.

Lemma spawn_task m cs cl i key c k :
    group_inv (mk_group m cs cl) -> cl !! i = Some (Owning key c) -> cs !! c = Some (k, NotSpawned) ->
    group_inv (mk_group m (<[c := (k, Running)]> cs) (<[i := Joining key c]> cl)).
Proof.
  intros [] Hi Hc. pose proof (lookup_lt_Some _ _ _ Hi) as Hlt. pose proof (lookup_lt_Some _ _ _ Hc) as Hltc. cbn in *.
  assert (forall j x k d, <[i := Joining key c]> cl !! j = Some x -> guard_of x = Some (k, d) -> exists y, cl !! j = Some y /\ guard_of y = Some (k, d)) as Hback.
  { intros j x k1 d [(<- & <- & _)|[Hne Hj]]%list_lookup_insert_Some Hx; [by eexists|by exists x]. }
  split; cbn.
  - intros d x y [(<- & [= <- <-] & _)|[Hne Hd]]%list_lookup_insert_Some; [by apply (inv_calls0 _ _ _ Hc)|by eapply inv_calls0].
  - intros j x [(<- & <- & _)|[Hne Hj]]%list_lookup_insert_Some.
    + exists k, Running. by rewrite list_lookup_insert_eq.
    + pose proof (inv_callers0 j x Hj) as Hok.
      assert (forall d k1 o1, cs !! d = Some (k1, o1) -> o1 <> NotSpawned -> <[c := (k, Running)]> cs !! d = Some (k1, o1)) as Hd.
      { intros d k1 o1 Hd Ho. rewrite list_lookup_insert_ne; [done|]. intros ->. congruence. }
      assert (forall d, is_Some (cs !! d) -> is_Some (<[c := (k, Running)]> cs !! d)) as Hs.
      { intros d [y Hd']. apply lookup_lt_is_Some. rewrite length_insert. by apply lookup_lt_Some in Hd'. }
      destruct x as [k1|k1 d|k1 d|k1 d r|d|d f|d r b| |]; cbn in *; try done; auto.
      * destruct Hok as [k2 Hok]. exists k2. rewrite list_lookup_insert_ne; [done|]. intros <-. apply Hne.
        by eapply (inv_unique0 i j (Owning key c) (Owning k1 c)); [..|right].
      * destruct Hok as (k2 & o2 & H1 & H2). exists k2, o2. auto.
      * destruct Hok as (k2 & o2 & H1 & H2). exists k2, o2. split; [|done]. apply Hd; [done|]. by intros ->.
      * destruct Hok as [H1 ->]. auto.
      * destruct Hok as (k2 & o2 & H1 & H2). exists k2, o2. split; [|done]. apply Hd; [done|]. by intros ->.
  - intros j x k1 d Hj Hx. destruct (Hback _ _ _ _ Hj Hx) as (y & Hy & Hgy). by eapply inv_guards0.
  - intros j j' x x' k1 d k2 d' Hj Hj' Hx Hx' Hor. destruct (Hback _ _ _ _ Hj Hx) as (y & Hy & Hgy). destruct (Hback _ _ _ _ Hj' Hx') as (y' & Hy' & Hgy').
    by eapply (inv_unique0 j j' y y').
  - intros k1 d Hk. destruct (inv_map0 k1 d Hk) as (j & x & Hj & Hx). destruct (decide (i = j)) as [<-|Hne].
    + exists i, (Joining key c). rewrite list_lookup_insert_eq by done. split; [done|]. by simplify_eq/=.
    + exists j, x. by rewrite list_lookup_insert_ne.
  - intros d k1 [(<- & ? & _)|[Hne Hd]]%list_lookup_insert_Some; [done|]. destruct (inv_spawn0 d k1 Hd) as (j & k2 & Hj). exists j, k2.
    rewrite list_lookup_insert_ne; [done|]. intros ->. congruence.
Qed.

Lemma progress_inv g g' : progress g g' -> group_inv g -> group_inv g'.
Proof.
  intros Hp Hi. destruct Hp as [m cs cl i key g' st Hl Ec|m cs cl i key c k Hl Hc|m cs cl c k r Hc|m cs cl c k Hc
    |m cs cl i key c k o msg r Hl Hc Hj|m cs cl i key c r m' st Hl Hd|m cs cl i c k o Hl Hc|m cs cl i c f k o Hl Hc Hr].
  - unfold get_call_or_create in Ec. cbn in Ec. destruct (m !! key) as [c|] eqn:Em; injection Ec as <- <-; cbn.
    + eapply move_caller; [done|done| |done|done]. destruct (inv_map _ Hi key c Em) as (j & x & Hj & Hx). pose proof (inv_callers _ Hi j x Hj) as Hok. cbn in Hok.
      destruct x; cbn in *; try done; injection Hx as <- <-; [destruct Hok as [? Hok]|destruct Hok as (? & ? & Hok & _)..]; rewrite Hok; by eexists.
    + by apply create_call.
  - by eapply spawn_task.
  - eapply change_call; [done|done|right; by split|]. pose proof (inv_calls _ Hi c k _ Hc) as [_ Hn]. cbn. rewrite Hn. by destruct r.
  - eapply change_call; [done|done|right; by split|]. pose proof (inv_calls _ Hi c k _ Hc) as [_ Hn]. cbn. by rewrite Hn.
  - eapply move_caller; [done|done| |done|done]. exists k, o. split; [done|]. pose proof (inv_calls _ Hi c k o Hc) as Hok.
    destruct o; cbn in Hj; try done; injection Hj as <-; cbn in *; [by destruct Hok as [[-> _] _]|eauto].
  - eapply (release_guard _ _ _ _ (Joined key c r) key c (Returned c r true)); try done. by apply (inv_callers _ Hi i _ Hl).
  - pose proof (inv_calls _ Hi c k o Hc) as Hok. unfold get_future. destruct (res k) as [r|] eqn:Er; cbn.
    + eapply move_caller; [done|done| |done|done]. exists k, o. split; [done|]. destruct o as [| |output r'|]; cbn in *; [by destruct Hok as [Hk _]; rewrite Hk in Er..|destruct Hok as [[_ Hk] _]|destruct Hok as [Hk _]];
        rewrite Hk in Er; injection Er as <-; [apply clone_due|done].
    + assert (nt k = notify_new) as Hn by (destruct o; cbn in Hok; destruct Hok as [Hk ?]; intuition congruence).
      eapply move_caller; [|done| |done|done].
      * eapply change_call; [done|done|by left|]. destruct o; cbn in *; destruct Hok as [Hk ?]; try done; intuition congruence.
      * split; [|by rewrite Hn]. rewrite list_lookup_insert_eq by (by eapply lookup_lt_Some). by eexists.
  - pose proof (inv_callers _ Hi i _ Hl) as [_ ->]. eapply move_caller; [done|done| |done|done]. exists k, o. split; [done|].
    pose proof (inv_calls _ Hi c k o Hc) as Hok. destruct o; cbn in Hok; destruct Hok as [Hk Hn]; rewrite Hn in Hr.
    + by rewrite not_ready_at_first in Hr.
    + by rewrite not_ready_at_first in Hr.
    + unfold get. destruct Hk as [_ Hk]. rewrite Hk. apply clone_due.
    + unfold get. by rewrite Hk.
Qed.

Lemma group_step_inv g g' : step g g' -> group_inv g -> group_inv g'.
Proof.
  intros Hs Hi. destruct Hs as [g g' Hp|m cs cl key|m cs cl i key c m' st Hl Hd|m cs cl i c f Hl].
  - by eapply progress_inv.
  - destruct Hi. split; cbn in *; try done.
    + intros i x [Hx|[_ Hx]]%lookup_app_Some; [by eapply inv_callers0|]. by apply list_lookup_singleton_Some in Hx as [_ <-].
    + intros i x k c [Hx|[_ Hx]]%lookup_app_Some Hg; [by eapply inv_guards0|]. by apply list_lookup_singleton_Some in Hx as [_ <-].
    + intros i j x x' k c k' c' [Hx|[_ Hx]]%lookup_app_Some [Hx'|[_ Hx']]%lookup_app_Some Hg Hg' Hor;
        [by eapply (inv_unique0 i j x x')|..]; try (by apply list_lookup_singleton_Some in Hx as [_ <-]); by apply list_lookup_singleton_Some in Hx' as [_ <-].
    + intros k c Hk. destruct (inv_map0 k c Hk) as (i & x & Hx & Hg). exists i, x. split; [|done]. rewrite lookup_app_l; [done|]. by eapply lookup_lt_Some.
    + intros c k Hc. destruct (inv_spawn0 c k Hc) as (i & k' & Hx). exists i, k'. rewrite lookup_app_l; [done|]. by eapply lookup_lt_Some.
  - by eapply (release_guard _ _ _ _ (Joining key c) key c Cancelled).
  - by eapply move_caller.
Qed.

Lemma group_reachable_inv g g' : rtc step g g' -> group_inv g -> group_inv g'.
Proof. induction 1; eauto using group_step_inv. Qed.

(** ** Coming to rest *)

Definition caller_weight (cl : Caller) : nat :=
    match cl with Calling _ => 10 | Owning _ _ => 6 | Attached _ => 5 | Joining _ _ => 3 | Waiting _ _ => 2 | Joined _ _ _ => 1 | _ => 0 end.

Definition task_weight (x : Call * OwnerTask) : nat := match x.2 with NotSpawned => 3 | Running => 2 | _ => 0 end.

Definition work_left (g : group) : nat := sum_list_with caller_weight (callers g) + sum_list_with task_weight (calls g).

Lemma progress_decreases g g' : progress g g' -> work_left g' < work_left g.
Proof.
  intros Hp. unfold work_left. destruct Hp as [m cs cl i key g' st Hl Ec|m cs cl i key c k Hl Hc|m cs cl c k r Hc|m cs cl c k Hc
    |m cs cl i key c k o msg r Hl Hc Hj|m cs cl i key c r m' st Hl Hd|m cs cl i c k o Hl Hc|m cs cl i c f k o Hl Hc Hr]; cbn [callers calls].
  - pose proof (sum_insert caller_weight cl i _ st Hl) as H. unfold get_call_or_create in Ec. cbn in Ec.
    destruct (m !! key); injection Ec as <- <-; cbn in *; rewrite ?sum_list_with_app; cbn; lia.
  - pose proof (sum_insert caller_weight cl i _ (Joining key c) Hl). pose proof (sum_insert task_weight cs c _ (k, Running) Hc). cbn in *. lia.
  - pose proof (sum_insert task_weight cs c _ (poll_ready k r) Hc). cbn in *. lia.
  - pose proof (sum_insert task_weight cs c _ (drop_task k) Hc). cbn in *. lia.
  - pose proof (sum_insert caller_weight cl i _ (Joined key c r) Hl). cbn in *. lia.
  - pose proof (sum_insert caller_weight cl i _ st Hl). assert (caller_weight st = 0); [|cbn in *; lia].
    unfold drop_guard in Hd. destruct (remove_call m key); by injection Hd as <- <-.
  - unfold get_future. destruct (res k); cbn [fmap option_fmap option_map callers calls].
    + pose proof (sum_insert caller_weight cl i _ (Returned c (clone_result r) false) Hl). cbn in *. lia.
    + match goal with |- context [<[c := (?k', o)]> cs] => pose proof (sum_insert task_weight cs c _ (k', o) Hc) end.
      match goal with |- context [<[i := ?st]> cl] => pose proof (sum_insert caller_weight cl i _ st Hl) end. unfold task_weight at 2 4 in H. cbn in *. lia.
  - pose proof (sum_insert caller_weight cl i _ (Returned c (get k) false) Hl). cbn in *. lia.
Qed.

Lemma progress_terminates g : sn progress g.
Proof.
  remember (work_left g) as n eqn:En. revert g En. induction n as [n IH] using lt_wf_ind. intros g ->.
  constructor. intros g' Hp. pose proof (progress_decreases _ _ Hp). by eapply IH.
Qed.

(** A task that has not finished can go on. *)
Lemma task_progress g c k o : group_inv g -> calls g !! c = Some (k, o) -> (o = NotSpawned \/ o = Running) -> exists g', progress g g'.
Proof.
  destruct g as [m cs cl]. cbn. intros Hi Hc [->| ->].
  - destruct (inv_spawn _ Hi c k Hc) as (i & key & Hl). eexists. by eapply progress_spawn.
  - eexists. by eapply progress_panic.
Qed.

(** A caller that has not returned can go on, or its task can. *)
Lemma caller_progress g i x :
    group_inv g -> callers g !! i = Some x -> (exists g', progress g g') \/ x = Cancelled \/ exists c r b, x = Returned c r b.
Proof.
  intros Hi Hl. pose proof (inv_callers _ Hi i x Hl) as Hok. destruct x as [key|key c|key c|key c r|c|c f|c r b| |]; cbn in Hok; [left..|right; right; eauto|done|right; by left].
  - destruct g as [m cs cl]. destruct (get_call_or_create (mk_group m cs cl) key) as [g' st] eqn:Ec. eexists. by eapply progress_create.
  - destruct Hok as [k Hc]. eapply task_progress; [done|done|by left].
  - destruct Hok as (k & o & Hc & Hne). destruct g as [m cs cl]. destruct o as [| |output r|]; [done|eapply task_progress; [done|done|by right]| |].
    + eexists. by eapply (progress_join _ _ _ _ _ _ _ _ EmptyString).
    + eexists. by eapply (progress_join _ _ _ _ _ _ _ _ EmptyString).
  - destruct g as [m cs cl]. destruct (drop_guard m key (Returned c r true)) as [m' st] eqn:Ed. eexists. by eapply progress_return.
  - destruct g as [m cs cl]. destruct Hok as [[k o] Hc]. eexists. by eapply progress_get_future.
  - destruct Hok as [[[k o] Hc] ->]. pose proof (inv_calls _ Hi c k o Hc) as Hk. destruct g as [m cs cl].
    destruct o as [| |output r|]; [eapply task_progress; [done|done|by left]|eapply task_progress; [done|done|by right]| |];
      cbn in Hk; destruct Hk as [_ Hn]; eexists; (eapply progress_wake; [done|done|]); by rewrite Hn, ready_after_notify.
Qed.

End Singleflight.

(** C18: a caller of [work] gets the output of the one future of its call.  Along every run, a caller that
    returned has the value that the future of its call gave, or its error, whole when the caller is
    the owner and as its message when it is a waiter; when the future panicked the owner has the
    error of the join and a waiter [OwnerPanicked]; no caller sees [NoResult].  The guards of two callers are for different
    calls and different keys, and no guard panics for a missing call. *)
Theorem singleflight_results `{Notify} {T E} (debug : E -> string) g :
  rtc (step debug) (new (T := T)) g ->
  (forall i c r owner, callers g !! i = Some (Returned c r owner) -> (exists k o, calls g !! c = Some (k, o) /\ result_ok debug o r owner) /\ r <> Err NoResult) /\
  (forall i j x y key c key' c', callers g !! i = Some x -> callers g !! j = Some y -> guard_of x = Some (key, c) -> guard_of y = Some (key', c') ->
    key = key' \/ c = c' -> i = j) /\
  (forall i, callers g !! i <> Some GuardPanicked).
Proof.
  intros Hr. pose proof (group_reachable_inv debug _ _ Hr (group_new_inv debug)) as Hi. split_and!.
  - intros i c r owner Hl. pose proof (inv_callers _ _ Hi i _ Hl) as (k & o & Hc & Ho). split; [by exists k, o|by eapply result_not_missing].
  - intros i j x y key c key' c'. apply (inv_unique _ _ Hi).
  - intros i Hl. apply (inv_callers _ _ Hi i _ Hl).
Qed.

(** C33: nobody waits for ever.  From every reachable state, when no more callers come and none is
    cancelled, the callers and tasks come to rest in any order of their steps, provided that the
    futures end or panic; every caller has then returned, and the map of calls is empty. *)
Theorem singleflight_all_return `{Notify} {T E} (debug : E -> string) g :
  rtc (step debug) (new (T := T)) g ->
  sn (progress debug) g /\
  forall g', rtc (progress debug) g g' -> (forall g'', ~ progress debug g' g'') ->
    (forall i x, callers g' !! i = Some x -> x = Cancelled \/ exists c r b, x = Returned c r b) /\ call_map g' = ∅.
Proof.
  intros Hr. split; [apply progress_terminates|]. intros g' Hp Hn.
  assert (group_inv debug g') as Hi.
  { eapply group_reachable_inv; [|by eapply group_reachable_inv; [exact Hr|apply group_new_inv]]. eapply rtc_subrel; [|exact Hp]. intros ? ?. by constructor. }
  assert (forall i x, callers g' !! i = Some x -> x = Cancelled \/ exists c r b, x = Returned c r b) as Hdone.
  { intros i x Hl. destruct (caller_progress debug g' i x Hi Hl) as [(g'' & Hg)|H']; [by destruct (Hn g'')|done]. }
  split; [done|]. apply map_empty. intros key. destruct (call_map g' !! key) as [c|] eqn:E0; [|done].
  destruct (inv_map _ _ Hi key c E0) as (i & x & Hl & Hg). by destruct (Hdone i x Hl) as [->|(? & ? & ? & ->)].
Qed.

(** ** Runs *)

Module SingleflightExamples.

(** A notifier that counts its notifications. *)
#[refine] Instance counting_notify : Notify := {
    notify := nat; notification := nat; notify_new := 0; notify_waiters := S; notified n := n; ready n f := bool_decide (f < n);
}.
Proof. all: intros n; case_bool_decide; (done || lia). Defined.

Definition debug (e : nat) : string := "error".

Abbreviation run := (rtc (step debug)).

(** A call with one waiter, before and after the task ended with [5]. *)
Definition waited : Call (T := nat) (E := nat) := mk_call 0 None 1.
Definition answered : Call (T := nat) (E := nat) := mk_call 1 (Some (Ok 5)) 1.

(** The two first callers of a key: an owner whose task runs and a waiter. *)
Definition two_callers : group (T := nat) (E := nat) :=
    mk_group {["a" := 0]} [(waited, Running)] [Joining "a" 0; Waiting 0 0].

(** An owner was cancelled and another caller came: the first task still runs. *)
Definition two_tasks : group (T := nat) (E := nat) :=
    mk_group {["a" := 1]} [(mk_call 0 None 0, Running); (mk_call 0 None 0, Running)] [Cancelled; Joining "a" 1].

(** One step to the given group. *)
Tactic Notation "go" uconstr(r) "to" uconstr(m) uconstr(cs) uconstr(cl) :=
    apply (rtc_l _ _ (mk_group m cs cl)); [let H := fresh in pose proof r as H; repeat specialize (H eq_refl); first [exact H | exact (step_progress _ _ _ H)]|].

Abbreviation fresh_call := (Call_new (T := nat) (E := nat)).

Lemma two_callers_reached : run new two_callers.
Proof.
  go (step_work (T := nat) debug ∅ [] [] "a") to ∅ [] [Calling "a"].
  go (progress_create (T := nat) debug ∅ [] [Calling "a"] 0 "a" (mk_group {["a" := 0]} [(fresh_call, NotSpawned)] [Calling "a"]) (Owning "a" 0))
    to {["a" := 0]} [(fresh_call, NotSpawned)] [Owning "a" 0].
  go (progress_spawn (T := nat) debug {["a" := 0]} [(fresh_call, NotSpawned)] [Owning "a" 0] 0 "a" 0 fresh_call) to {["a" := 0]} [(fresh_call, Running)] [Joining "a" 0].
  go (step_work (T := nat) debug {["a" := 0]} [(fresh_call, Running)] [Joining "a" 0] "a") to {["a" := 0]} [(fresh_call, Running)] [Joining "a" 0; Calling "a"].
  go (progress_create (T := nat) debug {["a" := 0]} [(fresh_call, Running)] [Joining "a" 0; Calling "a"] 1 "a"
      (mk_group {["a" := 0]} [(fresh_call, Running)] [Joining "a" 0; Calling "a"]) (Attached 0))
    to {["a" := 0]} [(fresh_call, Running)] [Joining "a" 0; Attached 0].
  go (progress_get_future (T := nat) debug {["a" := 0]} [(fresh_call, Running)] [Joining "a" 0; Attached 0] 1 0 fresh_call Running)
    to {["a" := 0]} (calls two_callers) (callers two_callers).
  apply rtc_refl.
Qed.

(** The task ended with [5], the owner returned, and the waiter was woken. *)
Definition two_returned : group (T := nat) (E := nat) :=
    mk_group ∅ [(answered, Finished (Ok 5) (Ok 5))] [Returned 0 (Ok 5) true; Returned 0 (Ok 5) false].

Lemma two_returned_reached : run new two_returned.
Proof.
  etrans; [exact two_callers_reached|].
  go (progress_finish (T := nat) debug {["a" := 0]} (calls two_callers) (callers two_callers) 0 waited (Ok 5)) to {["a" := 0]} (calls two_returned) (callers two_callers).
  go (progress_join (T := nat) debug {["a" := 0]} (calls two_returned) (callers two_callers) 0 "a" 0 answered (Finished (Ok 5) (Ok 5)) EmptyString (Ok 5))
    to {["a" := 0]} (calls two_returned) (<[0 := Joined "a" 0 (Ok 5)]> (callers two_callers)).
  go (progress_return (T := nat) debug {["a" := 0]} (calls two_returned) (<[0 := Joined "a" 0 (Ok 5)]> (callers two_callers)) 0 "a" 0 (Ok 5) ∅ (Returned 0 (Ok 5) true))
    to ∅ (calls two_returned) (<[0 := Returned 0 (Ok 5) true]> (callers two_callers)).
  go (progress_wake (T := nat) debug ∅ (calls two_returned) (<[0 := Returned 0 (Ok 5) true]> (callers two_callers)) 1 0 (notified (nt waited)) answered (Finished (Ok 5) (Ok 5)))
    to ∅ (calls two_returned) (callers two_returned).
  apply rtc_refl.
Qed.

Lemma singleflight_results_witness : (exists k o, calls two_returned !! 0 = Some (k, o) /\ result_ok debug o (Ok 5) false) /\ Ok 5 <> Err (A := nat) (E := SingleflightError (E := nat)) NoResult.
Proof. apply (singleflight_results debug two_returned) with (i := 1); [exact two_returned_reached|reflexivity]. Defined.

Lemma singleflight_all_return_witness : sn (progress debug) two_callers.
Proof. apply (singleflight_all_return debug two_callers). exact two_callers_reached. Defined.

(** Two operations of one key can be in flight.  [work] says that only one operation is in flight for a
    key at a given moment; when the caller that owns the call is cancelled, its guard removes the
    call while the spawned task goes on, and the next caller of the key starts a second task. *)
Theorem two_tasks_in_flight :
  run new two_tasks /\ (snd <$> calls two_tasks) = [Running; Running].
Proof.
  split; [|done]. go (step_work (T := nat) debug ∅ [] [] "a") to ∅ [] [Calling "a"].
  go (progress_create (T := nat) debug ∅ [] [Calling "a"] 0 "a" (mk_group {["a" := 0]} [(fresh_call, NotSpawned)] [Calling "a"]) (Owning "a" 0))
    to {["a" := 0]} [(fresh_call, NotSpawned)] [Owning "a" 0].
  go (progress_spawn (T := nat) debug {["a" := 0]} [(fresh_call, NotSpawned)] [Owning "a" 0] 0 "a" 0 fresh_call) to {["a" := 0]} [(fresh_call, Running)] [Joining "a" 0].
  go (step_cancel_owner (T := nat) debug {["a" := 0]} [(fresh_call, Running)] [Joining "a" 0] 0 "a" 0 ∅ Cancelled) to ∅ [(fresh_call, Running)] [Cancelled].
  go (step_work (T := nat) debug ∅ [(fresh_call, Running)] [Cancelled] "a") to ∅ [(fresh_call, Running)] [Cancelled; Calling "a"].
  go (progress_create (T := nat) debug ∅ [(fresh_call, Running)] [Cancelled; Calling "a"] 1 "a"
      (mk_group {["a" := 1]} [(fresh_call, Running); (fresh_call, NotSpawned)] [Cancelled; Calling "a"]) (Owning "a" 1))
    to {["a" := 1]} [(fresh_call, Running); (fresh_call, NotSpawned)] [Cancelled; Owning "a" 1].
  go (progress_spawn (T := nat) debug {["a" := 1]} [(fresh_call, Running); (fresh_call, NotSpawned)] [Cancelled; Owning "a" 1] 1 "a" 1 fresh_call)
    to {["a" := 1]} [(fresh_call, Running); (fresh_call, Running)] [Cancelled; Joining "a" 1].
  apply rtc_refl.
Qed.

End SingleflightExamples.
