(* ===== verification/TaskLock.v ===== *)
(** * A value made by a task, behind a lock

    Model of [xet_runtime/src/utils/rw_task_lock.rs].  Readers, updates and the tasks that compute the value
    interleave; a step is what one of them does between two awaits.  A caller can be cancelled where
    it awaits.  The function given to [update] is taken to return its future: one that panics instead,
    when it is called on a ready value, is not modelled. *)

From stdpp Require Import base numbers relations list.
From S2P Require Import Prelude.

Inductive access := Read | Write.

(** [tokio::sync::RwLock]: any number of readers or one writer.  The order in which requests are
    granted is left open; a request can be granted when nobody holds the lock. *)
Class RwLock := {
  rwlock : Type;
  rwlock_new : rwlock;
  readers : rwlock -> nat;
  writing : rwlock -> bool;
  grant : rwlock -> nat -> access -> rwlock -> Prop;
  drop_read : rwlock -> rwlock;
  drop_write : rwlock -> rwlock;
  downgrade : rwlock -> rwlock;
  rwlock_new_free : readers rwlock_new = 0 /\ writing rwlock_new = false;
  grant_read l i l' : grant l i Read l' -> writing l = false /\ readers l' = S (readers l) /\ writing l' = false;
  grant_write l i l' : grant l i Write l' -> (readers l = 0 /\ writing l = false) /\ readers l' = 0 /\ writing l' = true;
  grant_free l i a : readers l = 0 -> writing l = false -> exists l', grant l i a l';
  drop_read_free l n : readers l = S n -> writing l = false -> readers (drop_read l) = n /\ writing (drop_read l) = false;
  drop_write_free l : readers l = 0 -> writing l = true -> readers (drop_write l) = 0 /\ writing (drop_write l) = false;
  downgrade_reads l : readers l = 0 -> writing l = true -> readers (downgrade l) = 1 /\ writing (downgrade l) = false;
}.

Section TaskLock.
  Context `{Lk : RwLock} {T E J : Type}.

Inductive RwTaskLockError := JoinError (e : J) | CalledAfterError.

  Context (from : RwTaskLockError -> E).

(** How a task ends: with the result of its future, or with the error that joining it gives. *)
Abbreviation outcome := (result E T + J)%type.

(** What the future of an update ends with, by the value it is called with. *)
Abbreviation Updater := (T -> outcome).

(** [Pending] has the number of its task. *)
Inductive RwTaskLockState := Pending (j : nat) | Ready (v : T) | Error.

(** A task that runs its future, one that awaits another task to call its updater, or one that ended. *)
Inductive Task := Running (o : outcome) | Chained (j : nat) (u : Updater) | Done (o : outcome).

(** Where a caller of [read] or [update] is; [Holding] has a read guard. *)
Inductive Caller :=
| Reading | ReadingSlow | Awaiting (j : nat) | Holding (v : T) | Released | Failed (e : E)
| Updating (u : Updater) | Updated (r : result RwTaskLockError unit)
| Cancelled.

(** Dereferencing a read guard; [None] is the unreachable case. *)
Definition deref (s : RwTaskLockState) : option T := match s with Ready v => Some v | _ => None end.

Definition from_value (v : T) : RwTaskLockState * list Task := (Ready v, []).

Definition from_task (o : outcome) : RwTaskLockState * list Task := (Pending 0, [Running o]).

(** The fast path, under the read lock. *)
Definition read_fast (s : RwTaskLockState) : Caller :=
    match s with Ready v => Holding v | Error => Failed (from CalledAfterError) | Pending _ => ReadingSlow end.

(** Under the write lock, up to the await of the task. *)
Definition read_slow (s : RwTaskLockState) : RwTaskLockState * Caller :=
    match s with Ready v => (Ready v, Holding v) | Error => (Error, Failed (from CalledAfterError)) | Pending j => (Error, Awaiting j) end.

(** After the await, still under the write lock. *)
Definition read_joined (o : outcome) : RwTaskLockState * Caller :=
    match o with
    | inr e => (Error, Failed (from (JoinError e)))
    | inl (Ok v) => (Ready v, Holding v)
    | inl (Err e) => (Error, Failed e)
    end.

(** The lock after one of the above: a guard is kept by the reader that got one, and by the one
    that awaits. *)
Definition after_fast (l : rwlock) (c : Caller) : rwlock := match c with Holding _ => l | _ => drop_read l end.

Definition after_slow (l : rwlock) (c : Caller) : rwlock :=
    match c with Holding _ => downgrade l | Awaiting _ => l | _ => drop_write l end.

Definition update (s : RwTaskLockState) (ts : list Task) (u : Updater) : RwTaskLockState * list Task * result RwTaskLockError unit :=
    match s with
    | Pending j => (Pending (length ts), ts ++ [Chained j u], Ok tt)
    | Ready v => (Pending (length ts), ts ++ [Running (u v)], Ok tt)
    | Error => (Error, ts, Err CalledAfterError)
    end.

(** The task of an update of a pending value, once the task it awaits has ended. *)
Definition chained_resume (o : outcome) (u : Updater) : Task :=
    match o with
    | inr e => Done (inl (Err (from (JoinError e))))
    | inl (Err e) => Done (inl (Err e))
    | inl (Ok v) => Running (u v)
    end.

(** The lock, its tasks and callers, the updates accepted so far, and whether a reader was
    cancelled while it awaited the task. *)
Record world := mk_world {
    lock : rwlock; state : RwTaskLockState; tasks : list Task; callers : list Caller; accepted : list Updater; abandoned : bool;
}.

Inductive progress : world -> world -> Prop :=
| progress_read l s ts cl us b i l' :
    cl !! i = Some Reading -> grant l i Read l' ->
    progress (mk_world l s ts cl us b) (mk_world (after_fast l' (read_fast s)) s ts (<[i := read_fast s]> cl) us b)
| progress_read_slow l s ts cl us b i l' s' c :
    cl !! i = Some ReadingSlow -> grant l i Write l' -> read_slow s = (s', c) ->
    progress (mk_world l s ts cl us b) (mk_world (after_slow l' c) s' ts (<[i := c]> cl) us b)
| progress_joined l s ts cl us b i j o s' c :
    cl !! i = Some (Awaiting j) -> ts !! j = Some (Done o) -> read_joined o = (s', c) ->
    progress (mk_world l s ts cl us b) (mk_world (after_slow l c) s' ts (<[i := c]> cl) us b)
| progress_release l s ts cl us b i v :
    cl !! i = Some (Holding v) ->
    progress (mk_world l s ts cl us b) (mk_world (drop_read l) s ts (<[i := Released]> cl) us b)
| progress_update l s ts cl us b i u l' s' ts' r :
    cl !! i = Some (Updating u) -> grant l i Write l' -> update s ts u = (s', ts', r) ->
    progress (mk_world l s ts cl us b)
      (mk_world (drop_write l') s' ts' (<[i := Updated r]> cl) (match r with Ok _ => us ++ [u] | Err _ => us end) b)
| progress_task l s ts cl us b j o :
    ts !! j = Some (Running o) -> progress (mk_world l s ts cl us b) (mk_world l s (<[j := Done o]> ts) cl us b)
| progress_chained l s ts cl us b j j' u o :
    ts !! j = Some (Chained j' u) -> ts !! j' = Some (Done o) ->
    progress (mk_world l s ts cl us b) (mk_world l s (<[j := chained_resume o u]> ts) cl us b).

(** Callers also arrive and are cancelled.  A reader that is cancelled while it awaits drops the task's
    handle and its write guard. *)
Inductive step : world -> world -> Prop :=
| step_progress w w' : progress w w' -> step w w'
| step_read l s ts cl us b : step (mk_world l s ts cl us b) (mk_world l s ts (cl ++ [Reading]) us b)
| step_update l s ts cl us b u : step (mk_world l s ts cl us b) (mk_world l s ts (cl ++ [Updating u]) us b)
| step_cancel l s ts cl us b i c :
    cl !! i = Some c -> c = Reading \/ c = ReadingSlow \/ (exists u, c = Updating u) ->
    step (mk_world l s ts cl us b) (mk_world l s ts (<[i := Cancelled]> cl) us b)
| step_abandon l s ts cl us b i j :
    cl !! i = Some (Awaiting j) -> step (mk_world l s ts cl us b) (mk_world (drop_write l) s ts (<[i := Cancelled]> cl) us true).

Definition start (p : RwTaskLockState * list Task) : world := mk_world rwlock_new p.1 p.2 [] [] false.

(** ** The value that the lock stands for *)

(** One update after an outcome. *)
Definition chain (o : outcome) (u : Updater) : outcome :=
    match o with
    | inr e => inl (Err (from (JoinError e)))
    | inl (Err e) => inl (Err e)
    | inl (Ok v) => u v
    end.

Definition updates (o : outcome) (us : list Updater) : outcome := foldl chain o us.
Arguments updates : simpl never.

(** What a task will end with. *)
Inductive promised (ts : list Task) : nat -> outcome -> Prop :=
| promised_running j o : ts !! j = Some (Running o) -> promised ts j o
| promised_done j o : ts !! j = Some (Done o) -> promised ts j o
| promised_chained j i u o : ts !! j = Some (Chained i u) -> promised ts i o -> promised ts j (chain o u).

Definition is_holding (c : Caller) : nat := match c with Holding _ => 1 | _ => 0 end.
Definition is_awaiting (c : Caller) : nat := match c with Awaiting _ => 1 | _ => 0 end.

Abbreviation holding := (sum_list_with is_holding).
Abbreviation awaiting := (sum_list_with is_awaiting).

Definition succeeded (o : outcome) : Prop := exists v, o = inl (Ok v).

(** The error that a failed task gives to its reader. *)
Definition reported (o : outcome) (e : E) : Prop := o = inl (Err e) \/ exists j, o = inr j /\ e = from (JoinError j).

Definition caller_ok (s : RwTaskLockState) (ts : list Task) (o : outcome) (n : nat) (c : Caller) : Prop :=
    match c with
    | Holding v => s = Ready v
    | Awaiting j => s = Error /\ promised ts j o
    | Failed e => s = Error /\ n = 0 /\ (e = from CalledAfterError \/ reported o e)
    | _ => True
    end.

Definition writers (l : rwlock) : nat := if writing l then 1 else 0.

Definition state_ok (s : RwTaskLockState) (ts : list Task) (o : outcome) (n : nat) (b : bool) : Prop :=
    match s with
    | Ready v => o = inl (Ok v)
    | Pending j => promised ts j o
    | Error => n = 0 -> b = true \/ ~ succeeded o
    end.

Record lock_inv (o0 : outcome) (w : world) : Prop := {
    inv_readers : readers (lock w) = holding (callers w);
    inv_writer : awaiting (callers w) = writers (lock w);
    inv_exclusive : writing (lock w) = true -> holding (callers w) = 0;
    inv_callers : forall i c, callers w !! i = Some c -> caller_ok (state w) (tasks w) (updates o0 (accepted w)) (awaiting (callers w)) c;
    inv_state : state_ok (state w) (tasks w) (updates o0 (accepted w)) (awaiting (callers w)) (abandoned w);
}.

Lemma promised_done_inv ts j o o' : ts !! j = Some (Done o) -> promised ts j o' -> o' = o.
Proof. intros Hj Hp. inversion Hp; congruence. Qed.

Lemma promised_app ts ts' j o : promised ts j o -> promised (ts ++ ts') j o.
Proof.
  induction 1; [eapply promised_running|eapply promised_done|eapply promised_chained; [|done]]; by apply lookup_app_l_Some.
Qed.

(** The steps of the tasks keep what they promise. *)
Lemma promised_insert ts j x y k o :
    ts !! j = Some x -> (forall p ts', promised ts j p -> ts' !! j = Some y -> promised ts' j p) ->
    promised ts k o -> promised (<[j := y]> ts) k o.
Proof.
  intros Hj Hxy. pose proof (lookup_lt_Some _ _ _ Hj) as Hlt.
  assert (<[j := y]> ts !! j = Some y) as Hy by by apply list_lookup_insert_eq.
  induction 1 as [k o Hk|k o Hk|k i u o Hk Hp IH]; (destruct (decide (k = j)) as [->|Hne];
    [eapply Hxy; [|exact Hy]; by econstructor|]).
  - apply promised_running. by rewrite list_lookup_insert_ne.
  - apply promised_done. by rewrite list_lookup_insert_ne.
  - eapply promised_chained; [|done]. by rewrite list_lookup_insert_ne.
Qed.

Lemma promised_task ts j o k p : ts !! j = Some (Running o) -> promised ts k p -> promised (<[j := Done o]> ts) k p.
Proof.
  intros Hj. eapply promised_insert; [done|]. intros q ts' Hq Hy. destruct Hq; try congruence. apply promised_done. congruence.
Qed.

Lemma promised_resume ts j j' u o k p :
    ts !! j = Some (Chained j' u) -> ts !! j' = Some (Done o) -> promised ts k p -> promised (<[j := chained_resume o u]> ts) k p.
Proof.
  intros Hj Hj'. eapply promised_insert; [done|]. intros q ts' Hq Hy. destruct Hq as [j q Hq|j q Hq|j i u' q Hq Hp]; try congruence.
  assert (i = j' /\ u' = u) as [-> ->] by (rewrite Hj in Hq; by injection Hq). rewrite (promised_done_inv _ _ _ _ Hj' Hp).
  destruct o as [[v|e]|e]; [by apply promised_running|by apply promised_done..].
Qed.

Lemma updates_snoc o us u : updates o (us ++ [u]) = chain (updates o us) u.
Proof. apply foldl_snoc. Qed.

Lemma failed_stays o u : ~ succeeded o -> ~ succeeded (chain o u).
Proof. intros Hn. destruct o as [[v|e]|e]; cbn; [destruct Hn; by eexists|by intros [? [=]]..]. Qed.

(** One caller moves on. *)
Lemma move_lock_caller o0 l s ts cl us b i x c l' s' ts' us' b' :
    lock_inv o0 (mk_world l s ts cl us b) -> cl !! i = Some x ->
    readers l' + is_holding x = readers l + is_holding c -> writers l' + is_awaiting x = writers l + is_awaiting c ->
    (writing l' = true -> readers l' = 0) ->
    (forall d, caller_ok s ts (updates o0 us) (writers l) d -> is_holding d + is_holding x <= readers l -> is_awaiting d + is_awaiting x <= writers l ->
      caller_ok s' ts' (updates o0 us') (writers l') d) ->
    caller_ok s' ts' (updates o0 us') (writers l') c -> state_ok s' ts' (updates o0 us') (writers l') b' ->
    lock_inv o0 (mk_world l' s' ts' (<[i := c]> cl) us' b').
Proof.
  intros [Hrd Hwr Hex Hcl Hst] Hi Hr Hw He Ho Hc Hs. cbn in *.
  pose proof (sum_insert is_holding cl i x c Hi) as Hh. pose proof (sum_insert is_awaiting cl i x c Hi) as Ha.
  assert (awaiting (<[i := c]> cl) = writers l') as Hn by (lia).
  split; cbn; rewrite ?Hn; [lia|done| | |done].
  - intros Hl. specialize (He Hl). lia.
  - intros j d Hj. apply list_lookup_insert_Some in Hj as [(<- & <- & _)|[Hne Hj]]; [done|]. apply Ho.
    + rewrite <- Hwr. by eapply Hcl.
    + pose proof (sum_two is_holding cl i j x d Hi Hj Hne). lia.
    + pose proof (sum_two is_awaiting cl i j x d Hi Hj Hne). lia.
Qed.

(** A step that leaves the callers where they are. *)
Lemma move_task o0 l s ts ts' cl us b :
    lock_inv o0 (mk_world l s ts cl us b) -> (forall k p, promised ts k p -> promised ts' k p) -> lock_inv o0 (mk_world l s ts' cl us b).
Proof.
  intros [Hrd Hwr Hex Hcl Hst] Hp. cbn in *. split; cbn; [done..| |destruct s; cbn in *; auto].
  intros i c Hi. specialize (Hcl i c Hi). destruct c; cbn in *; naive_solver.
Qed.

(** The six obligations of a move, the counts of the lock being known. *)
Ltac move_obligations :=
    unfold writers in *; repeat match goal with H : writing ?x = _ , H' : context [if writing ?x then _ else _] |- _ => rewrite H in H' end;
    cbn; repeat match goal with H : writing ?x = _ |- context [writing ?x] => rewrite H end; cbn in *; try done; try lia; eauto.

Lemma read_fast_inv o0 l s ts cl us b i l' :
    lock_inv o0 (mk_world l s ts cl us b) -> cl !! i = Some Reading -> grant l i Read l' ->
    lock_inv o0 (mk_world (after_fast l' (read_fast s)) s ts (<[i := read_fast s]> cl) us b).
Proof.
  intros Hv Hi Hg. pose proof Hv as [_ Hwr _ _ Hst]. cbn in Hst, Hwr. rewrite Hwr in Hst. clear Hwr. apply grant_read in Hg as (Hw & Hr & Hw').
  destruct (drop_read_free l' _ Hr Hw') as [Hr1 Hw1].
  eapply (move_lock_caller _ l s ts cl us b i Reading); [done|done|..]; destruct s; move_obligations.
Qed.

Lemma read_slow_inv o0 l s ts cl us b i l' s' c :
    lock_inv o0 (mk_world l s ts cl us b) -> cl !! i = Some ReadingSlow -> grant l i Write l' -> read_slow s = (s', c) ->
    lock_inv o0 (mk_world (after_slow l' c) s' ts (<[i := c]> cl) us b).
Proof.
  intros Hv Hi Hg Es. pose proof Hv as [_ Hwr _ _ Hst]. cbn in Hst, Hwr. rewrite Hwr in Hst. clear Hwr. apply grant_write in Hg as ((Hr & Hw) & Hr' & Hw').
  destruct (drop_write_free l' Hr' Hw') as [Hr1 Hw1]. destruct (downgrade_reads l' Hr' Hw') as [Hr2 Hw2].
  eapply (move_lock_caller _ l s ts cl us b i ReadingSlow); [done|done|..]; destruct s; injection Es as <- <-; move_obligations.
  all: intros [] ?; cbn in *; naive_solver lia.
Qed.

(** The reader that awaits the task has the write lock. *)
Lemma awaiting_writes o0 l s ts cl us b i j :
    lock_inv o0 (mk_world l s ts cl us b) -> cl !! i = Some (Awaiting j) ->
    readers l = 0 /\ writing l = true /\ s = Error /\ promised ts j (updates o0 us).
Proof.
  intros [Hrd Hwr Hex Hcl Hst] Hi. cbn in Hwr, Hrd, Hex. assert (writing l = true) as Hw.
  { destruct (writing l) eqn:Ew; [done|]. unfold writers in Hwr. rewrite Ew in Hwr. by pose proof (sum_none _ _ _ _ Hwr Hi). }
  split_and!; [rewrite Hrd; auto|done|apply (Hcl i _ Hi)..].
Qed.

Lemma read_joined_inv o0 l s ts cl us b i j o s' c :
    lock_inv o0 (mk_world l s ts cl us b) -> cl !! i = Some (Awaiting j) -> ts !! j = Some (Done o) -> read_joined o = (s', c) ->
    lock_inv o0 (mk_world (after_slow l c) s' ts (<[i := c]> cl) us b).
Proof.
  intros Hv Hi Hd Es. destruct (awaiting_writes _ _ _ _ _ _ _ _ _ Hv Hi) as (Hr & Hw & Hs & Hp). apply (promised_done_inv _ _ _ _ Hd) in Hp.
  destruct (drop_write_free l Hr Hw) as [Hr1 Hw1]. destruct (downgrade_reads l Hr Hw) as [Hr2 Hw2].
  eapply (move_lock_caller _ l s ts cl us b i (Awaiting j)); [done|done|..]; destruct o as [[v|e]|e]; injection Es as <- <-; move_obligations.
  all: unfold reported, succeeded; rewrite ?Hp; try (intros [] ?; cbn in *; naive_solver lia); naive_solver.
Qed.

Lemma release_inv o0 l s ts cl us b i v :
    lock_inv o0 (mk_world l s ts cl us b) -> cl !! i = Some (Holding v) -> lock_inv o0 (mk_world (drop_read l) s ts (<[i := Released]> cl) us b).
Proof.
  intros Hv Hi. pose proof Hv as [Hrd Hwr Hex Hcl Hst]. cbn in Hst, Hwr, Hrd, Hex. rewrite Hwr in Hst.
  pose proof (sum_insert is_holding cl i _ Released Hi) as Hh. cbn in Hh.
  assert (writing l = false) as Hw by (destruct (writing l); [specialize (Hex eq_refl); lia|done]).
  destruct (readers l) as [|n] eqn:Er; [lia|]. destruct (drop_read_free l n Er Hw) as [Hr1 Hw1]. clear Hwr Hex Hcl Hh Hrd.
  eapply (move_lock_caller _ l s ts cl us b i (Holding v)); [done|done|..]; move_obligations.
Qed.

Lemma update_inv o0 l s ts cl us b i u l' s' ts' r :
    lock_inv o0 (mk_world l s ts cl us b) -> cl !! i = Some (Updating u) -> grant l i Write l' -> update s ts u = (s', ts', r) ->
    lock_inv o0 (mk_world (drop_write l') s' ts' (<[i := Updated r]> cl) (match r with Ok _ => us ++ [u] | Err _ => us end) b).
Proof.
  intros Hv Hi Hg Eu. pose proof Hv as [_ Hwr _ _ Hst]. cbn in Hst, Hwr. rewrite Hwr in Hst. clear Hwr. apply grant_write in Hg as ((Hr & Hw) & Hr' & Hw').
  destruct (drop_write_free l' Hr' Hw') as [Hr1 Hw1].
  eapply (move_lock_caller _ l s ts cl us b i (Updating u)); [done|done|..]; destruct s as [j|v|]; injection Eu as <- <- <-; move_obligations.
  - intros [] ?; cbn in *; naive_solver lia.
  - intros [] ?; cbn in *; naive_solver lia.
  - rewrite updates_snoc. eapply promised_chained; [apply list_lookup_middle; done|by apply promised_app].
  - rewrite updates_snoc, Hst. apply promised_running. by apply list_lookup_middle.
Qed.

Lemma lock_progress_inv o0 w w' : progress w w' -> lock_inv o0 w -> lock_inv o0 w'.
Proof.
  intros Hp Hv. destruct Hp; eauto using read_fast_inv, read_slow_inv, read_joined_inv, release_inv, update_inv, move_task, promised_task, promised_resume.
Qed.

Lemma arrive_inv o0 l s ts cl us b c :
    lock_inv o0 (mk_world l s ts cl us b) -> is_holding c = 0 -> is_awaiting c = 0 -> (forall e, c <> Failed e) -> lock_inv o0 (mk_world l s ts (cl ++ [c]) us b).
Proof.
  intros [Hrd Hwr Hex Hcl Hst] Hh Ha Hf. cbn in *.
  split; cbn; rewrite ?sum_list_with_app; cbn; rewrite ?Hh, ?Ha, ?Nat.add_0_r; [done..| |done].
  intros i d [Hi|[_ Hi]]%lookup_app_Some; [by eapply Hcl|]. apply list_lookup_singleton_Some in Hi as [_ <-]. destruct c; done || by destruct (Hf e).
Qed.

Lemma lock_step_inv o0 w w' : step w w' -> lock_inv o0 w -> lock_inv o0 w'.
Proof.
  intros Hs Hv. destruct Hs as [w w' Hp|l s ts cl us b|l s ts cl us b u|l s ts cl us b i c Hi Hc|l s ts cl us b i j Hi].
  - by eapply lock_progress_inv.
  - by apply arrive_inv.
  - by apply arrive_inv.
  - pose proof Hv as [Hrd Hwr Hex _ Hst]. cbn in Hst, Hwr, Hrd, Hex. rewrite Hwr in Hst. rewrite <- Hrd in Hex.
    eapply (move_lock_caller _ l s ts cl us b i c); [done|done|..]; [destruct Hc as [->|[->|[u ->]]]; cbn; lia..|done|done|done|done].
  - destruct (awaiting_writes _ _ _ _ _ _ _ _ _ Hv Hi) as (Hr & Hw & -> & Hp). destruct (drop_write_free l Hr Hw) as [Hr1 Hw1].
    eapply (move_lock_caller _ l _ ts cl us b i (Awaiting j)); [done|done|..]; move_obligations.
    intros [] ?; cbn in *; naive_solver lia.
Qed.

Lemma lock_reachable_inv o0 w w' : rtc step w w' -> lock_inv o0 w -> lock_inv o0 w'.
Proof. induction 1; eauto using lock_step_inv. Qed.

(** What the two constructors stand for. *)
Definition started (p : RwTaskLockState * list Task) (o0 : outcome) : Prop :=
    (exists v, p = from_value v /\ o0 = inl (Ok v)) \/ p = from_task o0.

Lemma start_lock_inv p o0 : started p o0 -> lock_inv o0 (start p).
Proof.
  destruct rwlock_new_free as [Hr Hw]. intros [(v & -> & ->)| ->]; split; cbn; unfold writers; rewrite ?Hr, ?Hw; try done.
  by apply promised_running.
Qed.

(** ** Coming to rest *)

Definition caller_weight (c : Caller) : nat :=
    match c with Reading => 4 | ReadingSlow => 3 | Awaiting _ => 2 | Holding _ => 1 | Updating _ => 3 | _ => 0 end.

Definition task_weight (t : Task) : nat := match t with Chained _ _ => 2 | Running _ => 1 | Done _ => 0 end.

Definition work_left (w : world) : nat := sum_list_with caller_weight (callers w) + sum_list_with task_weight (tasks w).

Lemma lock_work_decreases w w' : progress w w' -> work_left w' < work_left w.
Proof.
  intros Hp. unfold work_left. destruct Hp as [l s ts cl us b i l' Hi Hg|l s ts cl us b i l' s' c Hi Hg Es|l s ts cl us b i j o s' c Hi Hd Es|l s ts cl us b i v Hi
    |l s ts cl us b i u l' s' ts' r Hi Hg Eu|l s ts cl us b j o Hj|l s ts cl us b j j' u o Hj Hd]; cbn [callers tasks].
  - pose proof (sum_insert caller_weight cl i _ (read_fast s) Hi) as H. destruct s; cbn in *; lia.
  - pose proof (sum_insert caller_weight cl i _ c Hi) as H. destruct s; injection Es as <- <-; cbn in *; lia.
  - pose proof (sum_insert caller_weight cl i _ c Hi) as H. destruct o as [[]|]; injection Es as <- <-; cbn in *; lia.
  - pose proof (sum_insert caller_weight cl i _ Released Hi) as H. cbn in *. lia.
  - pose proof (sum_insert caller_weight cl i _ (Updated r) Hi) as H.
    destruct s; injection Eu as <- <- <-; rewrite ?sum_list_with_app; cbn in *; lia.
  - pose proof (sum_insert task_weight ts j _ (Done o) Hj) as H. cbn in *. lia.
  - pose proof (sum_insert task_weight ts j _ (chained_resume o u) Hj) as H. destruct o as [[]|]; cbn in *; lia.
Qed.

Lemma lock_settles w : sn progress w.
Proof.
  remember (work_left w) as n eqn:En. revert w En. induction n as [n IH] using lt_wf_ind. intros w ->.
  constructor. intros w' Hp. pose proof (lock_work_decreases _ _ Hp). by eapply IH.
Qed.

Lemma promised_progress l s ts cl us b j o :
    promised ts j o -> (exists o', ts !! j = Some (Done o')) \/ exists w', progress (mk_world l s ts cl us b) w'.
Proof.
  induction 1 as [j o Hj|j o Hj|j i u o Hj Hp [[o' Hd]|Hn]]; [right|left; eauto|right|by right].
  - eexists. by eapply progress_task.
  - eexists. by eapply progress_chained.
Qed.

Definition requests (c : Caller) : list access :=
    match c with Reading => [Read] | ReadingSlow | Updating _ => [Write] | _ => [] end.

(** A request that is granted is a step. *)
Lemma granted_progress l s ts cl us b i c a l' :
    cl !! i = Some c -> a ∈ requests c -> grant l i a l' -> exists w', progress (mk_world l s ts cl us b) w'.
Proof.
  intros Hi Ha Hg. destruct c as [| | | | | |u| |]; cbn in Ha; try (by apply not_elem_of_nil in Ha); apply list_elem_of_singleton in Ha as ->.
  - eexists. by eapply progress_read.
  - destruct (read_slow s) as [s' c] eqn:Es. eexists. by eapply progress_read_slow.
  - destruct (update s ts u) as [[s' ts'] r] eqn:Eu. eexists. by eapply progress_update.
Qed.

Definition over (c : Caller) : Prop :=
    match c with Released | Failed _ | Updated _ | Cancelled => True | _ => False end.

(** While a caller is not over, something can go on. *)
Lemma caller_goes_on o0 w i c : lock_inv o0 w -> callers w !! i = Some c -> over c \/ exists w', progress w w'.
Proof.
  intros Hv Hi. destruct w as [l s ts cl us b]. pose proof Hv as [Hrd Hwr Hex Hcl Hst]. cbn in Hrd, Hwr, Hi.
  destruct (holding cl) as [|n] eqn:Eh; [destruct (writing l) eqn:Ew|].
  - assert (exists j k, cl !! j = Some (Awaiting k)) as (j & k & Hj).
    { apply (sum_some is_awaiting) in Hwr as (j & d & Hj & Hd); [|unfold writers; rewrite Ew; lia]. destruct d; cbn in Hd; try lia. eauto. }
    destruct (awaiting_writes _ _ _ _ _ _ _ _ _ Hv Hj) as (_ & _ & _ & Hp). right.
    destruct (promised_progress l s ts cl us b k _ Hp) as [[o' Hd]|Hn]; [|done].
    destruct (read_joined o') as [s' d] eqn:Es. eexists. by eapply progress_joined.
  - destruct (requests c) as [|a reqs] eqn:Er.
    + unfold writers in Hwr. rewrite Ew in Hwr. pose proof (sum_none _ _ _ _ Hwr Hi). pose proof (sum_none _ _ _ _ Eh Hi). destruct c; try done; by left.
    + right. destruct (grant_free l i a Hrd Ew) as [l' Hg].
      eapply (granted_progress l s ts cl us b i c a l'); [done|rewrite Er; left|done].
  - right. destruct (sum_some is_holding cl (S n) Eh ltac:(lia)) as (j & d & Hj & Hd). destruct d; cbn in Hd; try lia. eexists. by eapply progress_release.
Qed.

End TaskLock.

(** C24: a read guard has the value of the task with every accepted update applied to it, in the order in
    which they were accepted.  Along every run, dereferencing a guard does not reach the
    unreachable case and gives that value.  A reader fails only when the task or an update failed,
    or when an earlier reader was cancelled while it awaited the task, and its error is the error of
    the task or [CalledAfterError]. *)
Theorem task_lock_value `{RwLock} {T E J} (from : RwTaskLockError (J := J) -> E) p (o0 : result E T + J) w :
  started p o0 -> rtc (step from) (start p) w ->
  (forall i v, callers w !! i = Some (Holding v) -> deref (state w) = Some v /\ updates from o0 (accepted w) = inl (Ok v)) /\
  (forall i e, callers w !! i = Some (Failed e) ->
    (abandoned w = true \/ ~ succeeded (updates from o0 (accepted w))) /\ (e = from CalledAfterError \/ reported from (updates from o0 (accepted w)) e)).
Proof.
  intros Hp Hr. destruct (lock_reachable_inv from o0 _ _ Hr (start_lock_inv from p o0 Hp)) as [_ _ _ Hcl Hst]. split.
  - intros i v Hi. pose proof (Hcl i _ Hi) as Hs. cbn in Hs. rewrite Hs in *. by split.
  - intros i e Hi. destruct (Hcl i _ Hi) as (Hs & Hn & He). rewrite Hs in Hst. split; [by apply Hst|done].
Qed.

(** C35: no reader and no update waits for ever.  From every reachable state, when no more callers come,
    none is cancelled and guards are dropped, the callers and tasks come to rest in any order of
    their steps, provided that the futures end; every read and every update has then ended. *)
Theorem task_lock_all_end `{RwLock} {T E J} (from : RwTaskLockError (J := J) -> E) p (o0 : result E T + J) w :
  started p o0 -> rtc (step from) (start p) w ->
  sn (progress from) w /\
  forall w', rtc (progress from) w w' -> (forall w'', ~ progress from w' w'') -> forall i c, callers w' !! i = Some c -> over c.
Proof.
  intros Hp Hr. split; [apply lock_settles|]. intros w' Hs Hn i c Hi.
  assert (rtc (step from) (start p) w') as Hr'.
  { etrans; [exact Hr|]. eapply rtc_subrel; [|exact Hs]. intros ? ?. by constructor. }
  destruct (caller_goes_on from o0 w' i c (lock_reachable_inv _ _ _ _ Hr' (start_lock_inv _ p o0 Hp)) Hi) as [Ho|[w'' Hw]]; [done|].
  by destruct (Hn w'').
Qed.

(** ** Runs *)

Module TaskLockExamples.

(** A lock that counts its readers. *)
#[refine] Instance counting_rwlock : RwLock := {
    rwlock := nat * bool; rwlock_new := (0, false); readers := fst; writing := snd;
    grant l i a l' := match a with Read => l.2 = false /\ l' = (S l.1, false) | Write => l = (0, false) /\ l' = (0, true) end;
    drop_read l := (pred l.1, l.2); drop_write l := (l.1, false); downgrade l := (1, false);
}.
Proof.
  - done.
  - intros [n w] i l'. cbn. intros [-> ->]. done.
  - intros [n w] i l'. cbn. by intros [[= -> ->] ->].
  - intros [n w] i [] H1 H2; cbn in *; subst; eauto.
  - intros [n w] k H1 H2. cbn in *. by subst.
  - intros [n w] H1 H2. cbn in *. by subst.
  - done.
Defined.

Definition from (e : RwTaskLockError (J := unit)) : nat := match e with JoinError _ => 100 | CalledAfterError => 101 end.

Abbreviation run := (rtc (step (T := nat) from)).

Definition written : rwlock (RwLock := counting_rwlock) := (0, true).
Definition read_once : rwlock (RwLock := counting_rwlock) := (1, false).

(** One step by the given rule. *)
Tactic Notation "go" uconstr(r) := eapply rtc_l; [first [eapply step_progress; eapply r | eapply r]; first [reflexivity | cbn; by split | by left]|cbn].

Definition double (v : nat) : result nat nat + unit := inl (Ok (2 * v)).

(** A task that gives [7] with an update that doubles the value, and its reader. *)
Definition doubled : world (T := nat) (E := nat) (J := unit) :=
    mk_world (1, false) (Ready 14) [Done (inl (Ok 7)); Done (inl (Ok 14))] [Updated (Ok tt); Holding 14] [double] false.

Lemma doubled_reached : run (start (from_task (inl (Ok 7)))) doubled.
Proof.
  unfold start, from_task, doubled. cbn. go (step_update from _ _ _ _ _ _ double). go (progress_update from _ _ _ _ _ _ 0 double written).
  go (step_read from). go (progress_read from _ _ _ _ _ _ 1 read_once). go (progress_read_slow from _ _ _ _ _ _ 1 written).
  go (progress_task from _ _ _ _ _ _ 0). go (progress_chained from _ _ _ _ _ _ 1 0 double). go (progress_task from _ _ _ _ _ _ 1).
  go (progress_joined from _ _ _ _ _ _ 1 1). apply rtc_refl.
Qed.

Lemma task_lock_value_witness : deref (state doubled) = Some 14 /\ updates from (inl (Ok 7)) [double] = inl (Ok 14).
Proof. apply (task_lock_value from (from_task (inl (Ok 7))) (inl (Ok 7)) doubled) with (i := 1); [by right|exact doubled_reached|reflexivity]. Defined.

Lemma task_lock_all_end_witness : sn (progress from) doubled.
Proof. apply (task_lock_all_end from (from_task (inl (Ok 7))) (inl (Ok 7)) doubled); [by right|exact doubled_reached]. Defined.

(** The task gave [7] and no update failed, but the reader that awaited it was cancelled. *)
Definition lost : world (T := nat) (E := nat) (J := unit) :=
    mk_world (0, false) Error [Done (inl (Ok 7))] [Cancelled; Failed 101] [] true.

(** A cancelled reader loses the value.  The value of a task that succeeds is to be cached for all
    later readers; a reader that is cancelled while it awaits the task leaves the error state, and
    every later read fails with [CalledAfterError] although the task ended with a value. *)
Theorem cancelled_reader_loses_value :
  run (start (from_task (inl (Ok 7)))) lost /\ read_fast from (state lost) = Failed (from CalledAfterError).
Proof.
  split; [|done]. unfold start, from_task, lost. cbn. go (step_read from). go (progress_read from _ _ _ _ _ _ 0 read_once).
  go (progress_read_slow from _ _ _ _ _ _ 0 written). go (progress_task from _ _ _ _ _ _ 0). go (step_abandon from _ _ _ _ _ _ 0).
  go (step_read from). go (progress_read from _ _ _ _ _ _ 1 read_once). apply rtc_refl.
Qed.

(** A task that fails with [5]: the first reader gets its error, the second one does not. *)
Definition failed_twice : world (T := nat) (E := nat) (J := unit) :=
    mk_world (0, false) Error [Done (inl (Err 5))] [Failed 5; Failed 101] [] false.

(** The error of the task is reported once; the documentation promises it to all subsequent
    calls. *)
Lemma error_reported_once : run (start (from_task (inl (Err 5)))) failed_twice.
Proof.
  unfold start, from_task, failed_twice. cbn. go (step_read from). go (progress_read from _ _ _ _ _ _ 0 read_once).
  go (progress_read_slow from _ _ _ _ _ _ 0 written). go (progress_task from _ _ _ _ _ _ 0). go (progress_joined from _ _ _ _ _ _ 0 0).
  go (step_read from). go (progress_read from _ _ _ _ _ _ 1 read_once). apply rtc_refl.
Qed.

End TaskLockExamples.
