(* ===== verification/UploadTracking.v ===== *)
(** * Progress of an upload

    Model of [xet_data/src/progress_tracking/upload_tracking.rs] and of the counters of
    [progress_types.rs]: which files wait for which xorbs, how many bytes of each file are done, and the
    counters of the items and of the group.  Every operation runs under one lock, so a run is a
    sequence of operations.  Sums of [u64] wrap around, as in a release build; the assertions of
    debug builds are not part of the operations.  [f64] is the IEEE double of [SpecFloat].  An index
    out of bounds panics: [None]. *)

From Stdlib Require Import ZArith Lia Sorted.
From stdpp Require Import base numbers gmap list.
From S2P Require Import Prelude Floats Sums DataHash Dedup.

#[local] Open Scope Z_scope.

(** ** Items and groups *)

(** The counters of a file; [size_finalized] when its size is known. *)
Record ItemProgress := mk_item { item_total : Z; item_completed : Z; size_finalized : bool }.

(** The counters of the group, and the file whose item each identifier names. *)
Record GroupProgress := mk_group {
  group_total_bytes : Z;
  group_total_bytes_completed : Z;
  group_total_transfer_bytes : Z;
  group_total_transfer_bytes_completed : Z;
  items : gmap Z nat;
}.

Definition ItemProgress_new : ItemProgress := mk_item 0 0 false.
Definition GroupProgress_new : GroupProgress := mk_group 0 0 0 0 ∅.

Definition update_item_size (g : GroupProgress) (it : ItemProgress) (total : Z) (is_final : bool) : GroupProgress * ItemProgress :=
  if size_finalized it then (g, it)
  else if item_total it <? total then
    (mk_group (wrap64 (group_total_bytes g + (total - item_total it))) (group_total_bytes_completed g)
      (group_total_transfer_bytes g) (group_total_transfer_bytes_completed g) (items g),
     mk_item total (item_completed it) is_final)
  else (g, mk_item (item_total it) (item_completed it) is_final).

Definition report_bytes_completed (g : GroupProgress) (it : ItemProgress) (increment : Z) : GroupProgress * ItemProgress :=
  if increment =? 0 then (g, it)
  else
    (mk_group (group_total_bytes g) (wrap64 (group_total_bytes_completed g + increment))
      (group_total_transfer_bytes g) (group_total_transfer_bytes_completed g) (items g),
     mk_item (item_total it) (wrap64 (item_completed it + increment)) (size_finalized it)).

(** The bytes to transfer, and those transferred, of the group. *)
Definition add_transfer (g : GroupProgress) (n completed : Z) : GroupProgress :=
  mk_group (group_total_bytes g) (group_total_bytes_completed g) (wrap64 (group_total_transfer_bytes g + n))
    (wrap64 (group_total_transfer_bytes_completed g + completed)) (items g).

(** ** The tracker *)

(** The files that need a xorb are a sorted list without duplicates. *)
Record XorbDependency := mk_xorb { file_indices : list nat; xorb_completed_bytes : Z; xorb_size : Z; is_completed : bool }.

Definition XorbDependency_default : XorbDependency := mk_xorb [] 0 0 false.

Fixpoint index_insert (i : nat) (l : list nat) : list nat :=
  match l with
  | [] => [i]
  | j :: l' => if (i <? j)%nat then i :: l else if (i =? j)%nat then l else j :: index_insert i l'
  end.

Record XorbPartCompletionStats := mk_part { part_completed : Z; part_n_bytes : Z }.

Record FileDependency := mk_file {
  tracking_id : Z;
  updater : ItemProgress;
  file_total_bytes : Z;
  is_final_size_known : bool;
  file_completed_bytes : Z;
  remaining_xorbs_parts : gmap DataHash XorbPartCompletionStats;
}.

Record CompletionTracker := mk_tracker {
  files : list FileDependency;
  xorbs : gmap DataHash XorbDependency;
  total_upload_bytes : Z;
  total_upload_bytes_completed : Z;
  total_bytes : Z;
  total_bytes_completed : Z;
  group_progress : GroupProgress;
}.

Definition new : CompletionTracker := mk_tracker [] ∅ 0 0 0 0 GroupProgress_new.

Definition xorb_entry (t : CompletionTracker) (h : DataHash) : XorbDependency :=
  match xorbs t !! h with Some e => e | None => XorbDependency_default end.

Definition with_xorb (t : CompletionTracker) (h : DataHash) (e : XorbDependency) : CompletionTracker :=
  mk_tracker (files t) (<[h := e]> (xorbs t)) (total_upload_bytes t) (total_upload_bytes_completed t) (total_bytes t) (total_bytes_completed t)
    (group_progress t).

Definition with_file (t : CompletionTracker) (i : nat) (f : FileDependency) (g : GroupProgress) : CompletionTracker :=
  mk_tracker (<[i := f]> (files t)) (xorbs t) (total_upload_bytes t) (total_upload_bytes_completed t) (total_bytes t) (total_bytes_completed t) g.

Definition with_parts (f : FileDependency) (parts : gmap DataHash XorbPartCompletionStats) : FileDependency :=
  mk_file (tracking_id f) (updater f) (file_total_bytes f) (is_final_size_known f) (file_completed_bytes f) parts.

(** [n] more bytes of file [i] are done, and its updater reports them. *)
Definition complete_file (t : CompletionTracker) (i : nat) (f : FileDependency) (n : Z) : CompletionTracker :=
  let '(g, it) := report_bytes_completed (group_progress t) (updater f) n in
  with_file t i
    (mk_file (tracking_id f) it (file_total_bytes f) (is_final_size_known f) (wrap64 (file_completed_bytes f + n)) (remaining_xorbs_parts f)) g.

Definition add_file_bytes (t : CompletionTracker) (n : Z) : CompletionTracker :=
  mk_tracker (files t) (xorbs t) (total_upload_bytes t) (total_upload_bytes_completed t) (total_bytes t) (wrap64 (total_bytes_completed t + n))
    (group_progress t).

Definition add_upload_bytes (t : CompletionTracker) (n completed : Z) : CompletionTracker :=
  mk_tracker (files t) (xorbs t) (wrap64 (total_upload_bytes t + n)) (wrap64 (total_upload_bytes_completed t + completed)) (total_bytes t)
    (total_bytes_completed t) (add_transfer (group_progress t) n completed).

Definition register_new_file (t : CompletionTracker) (id : Z) (n_bytes : option Z) : CompletionTracker * nat :=
  let file_id := length (files t) in
  let g := group_progress t in
  let g := mk_group (group_total_bytes g) (group_total_bytes_completed g) (group_total_transfer_bytes g)
             (group_total_transfer_bytes_completed g) (<[id := file_id]> (items g)) in
  let '(size, known) := match n_bytes with Some size => (size, true) | None => (0, false) end in
  let '(g, it) := update_item_size g ItemProgress_new size known in
  (mk_tracker (files t ++ [mk_file id it size known 0 ∅]) (xorbs t) (total_upload_bytes t) (total_upload_bytes_completed t)
     (wrap64 (total_bytes t + size)) (total_bytes_completed t) g,
   file_id).

Definition increment_file_size (t : CompletionTracker) (file_id : nat) (size_increment : Z) : option CompletionTracker :=
  f ← files t !! file_id;
  if is_final_size_known f then Some t
  else
    let size := wrap64 (file_total_bytes f + size_increment) in
    let '(g, it) := update_item_size (group_progress t) (updater f) size false in
    let f := mk_file (tracking_id f) it size (is_final_size_known f) (file_completed_bytes f) (remaining_xorbs_parts f) in
    Some (mk_tracker (<[file_id := f]> (files t)) (xorbs t) (total_upload_bytes t) (total_upload_bytes_completed t)
            (wrap64 (total_bytes t + size_increment)) (total_bytes_completed t) g).

(** One dependency; the second component is [file_bytes_processed]. *)
Definition register_dependency (st : CompletionTracker * Z) (dep : FileXorbDependency) : option (CompletionTracker * Z) :=
  let '(t, processed) := st in
  let i := Z.to_nat (dependency_file_id dep) in
  let n := dependency_n_bytes dep in
  f ← files t !! i;
  if is_external dep then Some (complete_file t i f n, wrap64 (processed + n))
  else
    let e := xorb_entry t (dependency_xorb_hash dep) in
    if is_completed e then Some (complete_file t i f n, wrap64 (processed + n))
    else
      let e := mk_xorb (index_insert i (file_indices e)) (xorb_completed_bytes e) (xorb_size e) (is_completed e) in
      let part := match remaining_xorbs_parts f !! dependency_xorb_hash dep with Some p => p | None => mk_part 0 0 end in
      let part := mk_part (part_completed part) (wrap64 (part_n_bytes part + n)) in
      let f := with_parts f (<[dependency_xorb_hash dep := part]> (remaining_xorbs_parts f)) in
      Some (with_file (with_xorb t (dependency_xorb_hash dep) e) i f (group_progress t), processed).

Fixpoint register_dependencies_loop (st : CompletionTracker * Z) (dependencies : list FileXorbDependency) : option (CompletionTracker * Z) :=
  match dependencies with
  | [] => Some st
  | dep :: deps => st ← register_dependency st dep; register_dependencies_loop st deps
  end.

Definition register_dependencies (t : CompletionTracker) (dependencies : list FileXorbDependency) : option CompletionTracker :=
  '(t, processed) ← register_dependencies_loop (t, 0) dependencies;
  Some (add_file_bytes t processed).

Definition register_new_xorb (t : CompletionTracker) (h : DataHash) (size : Z) : CompletionTracker * bool :=
  match xorbs t !! h with
  | Some e =>
      if xorb_size e =? 0 then
        (add_upload_bytes (with_xorb t h (mk_xorb (file_indices e) (xorb_completed_bytes e) size (is_completed e))) size 0, true)
      else (t, false)
  | None => (add_upload_bytes (with_xorb t h (mk_xorb [] 0 size false)) size 0, true)
  end.

(** A file whose xorb [h] is uploaded. *)
Definition completion_file (h : DataHash) (st : CompletionTracker * Z) (i : nat) : option (CompletionTracker * Z) :=
  let '(t, processed) := st in
  f ← files t !! i;
  let part := match remaining_xorbs_parts f !! h with Some p => p | None => mk_part 0 0 end in
  let f := with_parts f (delete h (remaining_xorbs_parts f)) in
  let n_bytes_remaining := wrap64 (part_n_bytes part - part_completed part) in
  if 0 <? n_bytes_remaining then Some (complete_file t i f n_bytes_remaining, wrap64 (processed + n_bytes_remaining))
  else Some (with_file t i f (group_progress t), processed).

Fixpoint completion_loop (h : DataHash) (st : CompletionTracker * Z) (indices : list nat) : option (CompletionTracker * Z) :=
  match indices with
  | [] => Some st
  | i :: indices' => st ← completion_file h st i; completion_loop h st indices'
  end.

Definition register_xorb_upload_completion (t : CompletionTracker) (h : DataHash) : option CompletionTracker :=
  let e := xorb_entry t h in
  if is_completed e then Some t
  else
    let byte_completion_increment := wrap64 (xorb_size e - xorb_completed_bytes e) in
    let t := with_xorb t h (mk_xorb [] (xorb_completed_bytes e) (xorb_size e) true) in
    '(t, processed) ← completion_loop h (t, 0) (file_indices e);
    Some (add_file_bytes (add_upload_bytes t 0 byte_completion_increment) processed).

(** ** Partial progress of a xorb *)

Definition new_completion_bytes (n_bytes completed size : Z) : Z :=
  floor_as_u64 (f64_mul (f64_of_u64 n_bytes) (f64_div (f64_of_u64 completed) (f64_of_u64 size))).

(** A file that needs xorb [h], of which [completed] bytes of [size] are uploaded. *)
Definition progress_file (h : DataHash) (completed size : Z) (st : CompletionTracker * Z) (i : nat) : option (CompletionTracker * Z) :=
  let '(t, processed) := st in
  f ← files t !! i;
  match remaining_xorbs_parts f !! h with
  | None => Some (t, processed)
  | Some part =>
      let incremental_update := Z.max 0 (new_completion_bytes (part_n_bytes part) completed size - part_completed part) in
      let part := mk_part (wrap64 (part_completed part + incremental_update)) (part_n_bytes part) in
      let f := with_parts f (<[h := part]> (remaining_xorbs_parts f)) in
      if incremental_update =? 0 then Some (with_file t i f (group_progress t), processed)
      else Some (complete_file t i f incremental_update, wrap64 (processed + incremental_update))
  end.

Fixpoint progress_loop (h : DataHash) (completed size : Z) (st : CompletionTracker * Z) (indices : list nat) : option (CompletionTracker * Z) :=
  match indices with
  | [] => Some st
  | i :: indices' => st ← progress_file h completed size st i; progress_loop h completed size st indices'
  end.

Definition register_xorb_upload_progress (t : CompletionTracker) (h : DataHash) (new_byte_progress : Z) (check_ordering : bool) :
    option CompletionTracker :=
  let e := xorb_entry t h in
  if negb check_ordering && is_completed e then Some t
  else
    let e := mk_xorb (file_indices e) (wrap64 (xorb_completed_bytes e + new_byte_progress)) (xorb_size e) (is_completed e) in
    let t := with_xorb t h e in
    '(t, processed) ← progress_loop h (xorb_completed_bytes e) (xorb_size e) (t, 0) (file_indices e);
    Some (add_file_bytes (add_upload_bytes t 0 new_byte_progress) processed).

(** ** Status *)

Definition status (t : CompletionTracker) : Z * Z :=
  (fold_left (fun a f => wrap64 (a + file_completed_bytes f)) (files t) 0, fold_left (fun a f => wrap64 (a + file_total_bytes f)) (files t) 0).

Definition is_complete (t : CompletionTracker) : bool := (status t).1 =? (status t).2.

(** The assertions on the group hold. *)
Definition group_complete (t : CompletionTracker) : bool :=
  let g := group_progress t in
  (group_total_bytes_completed g =? group_total_bytes g) &&
  (group_total_transfer_bytes_completed g =? group_total_transfer_bytes g) &&
  forallb (fun '(_, i) => match files t !! i with Some f => item_completed (updater f) =? item_total (updater f) | None => true end)
    (map_to_list (items g)).

(** The assertions of [assert_complete] hold. *)
Definition assert_complete (t : CompletionTracker) : bool :=
  forallb (fun f => (file_completed_bytes f =? file_total_bytes f) && bool_decide (remaining_xorbs_parts f = ∅)) (files t) &&
  forallb (fun '(_, e) => is_completed e && bool_decide (file_indices e = [])) (map_to_list (xorbs t)) &&
  group_complete t.

(** ** Runs *)

Inductive Operation :=
| NewFile (id : Z) (n_bytes : option Z)
| IncrementSize (file_id : nat) (n : Z)
| Dependencies (dependencies : list FileXorbDependency)
| NewXorb (h : DataHash) (size : Z)
| XorbCompletion (h : DataHash)
| XorbProgress (h : DataHash) (n : Z) (check_ordering : bool).

Definition perform (t : CompletionTracker) (op : Operation) : option CompletionTracker :=
  match op with
  | NewFile id n => Some (register_new_file t id n).1
  | IncrementSize i n => increment_file_size t i n
  | Dependencies deps => register_dependencies t deps
  | NewXorb h size => Some (register_new_xorb t h size).1
  | XorbCompletion h => register_xorb_upload_completion t h
  | XorbProgress h n check => register_xorb_upload_progress t h n check
  end.

Fixpoint perform_all (t : CompletionTracker) (ops : list Operation) : option CompletionTracker :=
  match ops with [] => Some t | op :: ops' => t ← perform t op; perform_all t ops' end.

(** ** The bytes of files *)

Definition part_left (p : XorbPartCompletionStats) : Z := part_n_bytes p - part_completed p.
Definition parts_left (f : FileDependency) : Z := map_sum part_left (remaining_xorbs_parts f).

(** The bytes of the dependencies of file [i]. *)
Definition owed_by (deps : list FileXorbDependency) (i : nat) : Z :=
  sum_of (fun d => if bool_decide (Z.to_nat (dependency_file_id d) = i) then dependency_n_bytes d else 0) deps.

(** A file has been told of [owed] bytes, which are done or left, and its updater agrees. *)
Definition file_ok (owed : Z) (f : FileDependency) : Prop :=
  wrap64 (file_completed_bytes f + parts_left f) = wrap64 owed /\ is_u64 (file_completed_bytes f) /\
  item_completed (updater f) = file_completed_bytes f.

(** The files, when [processed] bytes are not yet counted, and file [i] has a part of xorb [h]
    left when [holds i h]. *)
Record files_inv (owed : nat -> Z) (processed : Z) (holds : nat -> DataHash -> Prop) (t : CompletionTracker) : Prop := {
  inv_files : forall i f, files t !! i = Some f -> file_ok (owed i) f;
  inv_parts : forall i f h, files t !! i = Some f -> is_Some (remaining_xorbs_parts f !! h) <-> holds i h;
  inv_owed : forall i, (length (files t) <= i)%nat -> owed i = 0;
  inv_total : wrap64 (total_bytes_completed t + processed) = wrap64 (sum_of file_completed_bytes (files t));
  inv_group : group_total_bytes_completed (group_progress t) = wrap64 (sum_of file_completed_bytes (files t));
}.

(** Which files wait for a xorb. *)
Definition waits (t : CompletionTracker) (i : nat) (h : DataHash) : Prop := exists e, xorbs t !! h = Some e /\ i ∈ file_indices e.

Record xorbs_inv (t : CompletionTracker) : Prop := {
  inv_indices : forall h e i, xorbs t !! h = Some e -> i ∈ file_indices e -> (i < length (files t))%nat;
  inv_completed : forall h e, xorbs t !! h = Some e -> is_completed e = true -> file_indices e = [];
  inv_sorted : forall h e, xorbs t !! h = Some e -> StronglySorted lt (file_indices e);
}.

#[local] Ltac Zify.zify_post_hook ::= Z.to_euclidean_division_equations.

(** One file changes, and [n] bytes of it are done. *)
Lemma file_changes owed owed' processed holds holds' t i f f' g n :
  files_inv owed processed holds t -> files t !! i = Some f ->
  file_completed_bytes f' = wrap64 (file_completed_bytes f + n) -> item_completed (updater f') = file_completed_bytes f' ->
  wrap64 (n + parts_left f') = wrap64 (owed' i - owed i + parts_left f) -> (forall j, j <> i -> owed' j = owed j) ->
  (forall h, is_Some (remaining_xorbs_parts f' !! h) <-> holds' i h) -> (forall j h, j <> i -> holds' j h <-> holds j h) ->
  group_total_bytes_completed g = wrap64 (group_total_bytes_completed (group_progress t) + n) ->
  files_inv owed' (processed + n) holds' (with_file t i f' g).
Proof.
  intros [Hf Hp Ho Ht Hg] Hi Ec Eu El Eo Hh Hh' Eg. pose proof (lookup_lt_Some _ _ _ Hi) as Hlt.
  destruct (Hf i f Hi) as (Hs & Hu & Hit).
  split; cbn.
  - intros j x [(<- & <- & _)|[Hne Hj]]%list_lookup_insert_Some; [|rewrite Eo by done; by apply Hf].
    split_and!; [|rewrite Ec; apply wrap64_is_u64|done]. rewrite Ec. clear - Hs El. wrap_lia.
  - intros j x h [(<- & <- & _)|[Hne Hj]]%list_lookup_insert_Some; [done|]. rewrite Hh' by done. by apply Hp.
  - intros j Hj. rewrite length_insert in Hj. rewrite Eo by lia. by apply Ho.
  - rewrite (sum_of_insert _ _ _ _ _ Hi), Ec. clear - Ht. wrap_lia.
  - rewrite Eg, Hg, (sum_of_insert _ _ _ _ _ Hi), Ec. clear. wrap_lia.
Qed.

(** Nothing changes but the counters of the xorbs. *)
Lemma files_inv_frame owed processed holds t t' :
  files_inv owed processed holds t -> files t' = files t -> total_bytes_completed t' = total_bytes_completed t ->
  group_total_bytes_completed (group_progress t') = group_total_bytes_completed (group_progress t) -> files_inv owed processed holds t'.
Proof. intros [] Ef Et Eg. split; rewrite ?Ef, ?Et, ?Eg; done. Qed.

Lemma files_inv_holds owed processed holds holds' t :
  files_inv owed processed holds t -> (forall i h, holds' i h <-> holds i h) -> files_inv owed processed holds' t.
Proof. intros [] Hh. split; try done. intros i f h Hi. rewrite Hh. eauto. Qed.

(** The bytes processed so far matter modulo [2^64]. *)
Lemma files_inv_processed owed p p' holds t : wrap64 p = wrap64 p' -> files_inv owed p holds t -> files_inv owed p' holds t.
Proof. intros Hp []. split; try done. rewrite <- inv_total0. clear - Hp. wrap_lia. Qed.

(** At the end of an operation they are counted. *)
Lemma files_inv_counted owed p holds t : files_inv owed p holds t -> files_inv owed 0 holds (add_file_bytes t p).
Proof. intros []. split; cbn; try done. rewrite <- inv_total0. clear. wrap_lia. Qed.

Lemma report_completed g it n :
  is_u64 (group_total_bytes_completed g) -> is_u64 (item_completed it) ->
  group_total_bytes_completed (report_bytes_completed g it n).1 = wrap64 (group_total_bytes_completed g + n) /\
  item_completed (report_bytes_completed g it n).2 = wrap64 (item_completed it + n).
Proof.
  intros Hg Hi. unfold report_bytes_completed. destruct (Z.eqb_spec n 0) as [->|]; cbn; [|done]. rewrite !Z.add_0_r, !wrap64_small by done. done.
Qed.

(** Bytes of one file are done: they were left, or newly owed. *)
Lemma complete_file_inv owed owed' processed holds holds' t i f f' n :
  files_inv owed processed holds t -> files t !! i = Some f ->
  updater f' = updater f -> file_completed_bytes f' = file_completed_bytes f ->
  wrap64 (n + parts_left f') = wrap64 (owed' i - owed i + parts_left f) -> (forall j, j <> i -> owed' j = owed j) ->
  (forall h, is_Some (remaining_xorbs_parts f' !! h) <-> holds' i h) -> (forall j h, j <> i -> holds' j h <-> holds j h) ->
  files_inv owed' (processed + n) holds' (complete_file t i f' n).
Proof.
  intros Hv Hi Eu Ec El Eo Hh Hh'. pose proof Hv as [Hf _ _ _ Hg]. destruct (Hf i f Hi) as (_ & Hu & Hit).
  unfold complete_file. rewrite (surjective_pairing (report_bytes_completed _ _ _)).
  destruct (report_completed (group_progress t) (updater f') n) as [E1 E2]; [rewrite Hg; apply wrap64_is_u64|rewrite Eu, Hit; done|].
  eapply file_changes; [done|done|cbn; by rewrite Ec|cbn; by rewrite E2, Eu, Hit, Ec|done|done|done|done|done].
Qed.

(** ** Sorted indices *)

Lemma elem_of_index_insert i j l : j ∈ index_insert i l <-> j = i \/ j ∈ l.
Proof.
  induction l as [|k l IH]; cbn [index_insert]; [rewrite elem_of_cons; tauto|].
  destruct (Nat.ltb_spec i k); [rewrite !elem_of_cons; tauto|]. destruct (Nat.eqb_spec i k) as [->|]; rewrite !elem_of_cons; [tauto|]. rewrite IH. tauto.
Qed.

Lemma index_insert_sorted i l : StronglySorted lt l -> StronglySorted lt (index_insert i l).
Proof.
  induction 1 as [|k l Hs IH Hk]; cbn [index_insert]; [repeat constructor|]. rewrite Forall_forall in Hk.
  destruct (Nat.ltb_spec i k) as [Hlt|Hge].
  - constructor; [constructor; [done|by apply Forall_forall]|]. apply Forall_forall. intros j [->|Hj]%elem_of_cons; [done|]. specialize (Hk j Hj). lia.
  - destruct (Nat.eqb_spec i k) as [->|Hne]; [constructor; [done|by apply Forall_forall]|].
    constructor; [done|]. apply Forall_forall. intros j [->|Hj]%elem_of_index_insert; [lia|by apply Hk].
Qed.

Lemma sorted_nodup l : StronglySorted lt l -> NoDup l.
Proof.
  induction 1 as [|k l Hs IH Hk]; constructor; [|done]. intros Hin. rewrite Forall_forall in Hk. specialize (Hk k Hin). lia.
Qed.

Lemma xorb_entry_ok t h :
  xorbs_inv t -> StronglySorted lt (file_indices (xorb_entry t h)) /\ (forall i, i ∈ file_indices (xorb_entry t h) <-> waits t i h) /\
  (is_completed (xorb_entry t h) = true -> file_indices (xorb_entry t h) = []).
Proof.
  intros [Hi Hc Hs]. unfold xorb_entry, waits. destruct (xorbs t !! h) as [e|] eqn:E; cbn.
  - split_and!; [by eapply Hs| |by apply (Hc h)]. intros i. split; [eauto|]. by intros (e' & [= <-] & Hin).
  - split_and!; [constructor| |done]. intros i. split; [by intros ?%not_elem_of_nil|]. by intros (e' & ? & _).
Qed.

(** One entry changes. *)
Lemma xorbs_inv_insert t h e' fs t' :
  xorbs_inv t -> xorbs t' = <[h := e']> (xorbs t) -> length (files t') = fs -> (length (files t) <= fs)%nat ->
  (forall i, i ∈ file_indices e' -> (i < fs)%nat) -> (is_completed e' = true -> file_indices e' = []) -> StronglySorted lt (file_indices e') ->
  xorbs_inv t'.
Proof.
  intros [Hi Hc Hs] Ex El Hle H1 H2 H3. split; rewrite Ex, ?El; intros h' e.
  - intros i [[_ <-]|[_ He]]%lookup_insert_Some Hin; [by apply H1|]. specialize (Hi h' e i He Hin). lia.
  - intros [[_ <-]|[_ He]]%lookup_insert_Some; [done|by apply (Hc h')].
  - intros [[_ <-]|[_ He]]%lookup_insert_Some; [done|by apply (Hs h')].
Qed.

Lemma waits_insert t t' h e' i h' :
  xorbs t' = <[h := e']> (xorbs t) -> waits t' i h' <-> (h' = h /\ i ∈ file_indices e') \/ (h' <> h /\ waits t i h').
Proof.
  intros Ex. unfold waits. rewrite Ex. destruct (decide (h' = h)) as [->|Hne].
  - rewrite lookup_insert_eq. split; [intros (e & [= <-] & H); by left|]. intros [[_ H]|[? _]]; [by exists e'|done].
  - rewrite lookup_insert_ne by done. split; [intros H; by right|]. by intros [[? _]|[_ H]].
Qed.

(** *** What the bytes that are done do not change *)

Definition same_size (f f' : FileDependency) : Prop :=
  tracking_id f' = tracking_id f /\ item_total (updater f') = item_total (updater f) /\ size_finalized (updater f') = size_finalized (updater f) /\
  file_total_bytes f' = file_total_bytes f /\ is_final_size_known f' = is_final_size_known f.

Record kept (t t' : CompletionTracker) : Prop := {
  kept_files : Forall2 same_size (files t) (files t');
  kept_upload : total_upload_bytes t' = total_upload_bytes t /\ total_upload_bytes_completed t' = total_upload_bytes_completed t;
  kept_total : total_bytes t' = total_bytes t;
  kept_group : group_total_bytes (group_progress t') = group_total_bytes (group_progress t) /\ items (group_progress t') = items (group_progress t) /\
    group_total_transfer_bytes (group_progress t') = group_total_transfer_bytes (group_progress t) /\
    group_total_transfer_bytes_completed (group_progress t') = group_total_transfer_bytes_completed (group_progress t);
}.

#[global] Instance same_size_preorder : PreOrder same_size.
Proof. split; [done|]. intros f1 f2 f3. unfold same_size. intuition congruence. Qed.

#[global] Instance kept_preorder : PreOrder kept.
Proof.
  split.
  - intros t. split; done.
  - intros t1 t2 t3 [F1 U1 T1 G1] [F2 U2 T2 G2]. split; [by etrans|intuition congruence..].
Qed.

Lemma kept_length t t' : kept t t' -> length (files t') = length (files t).
Proof. intros []. symmetry. by eapply Forall2_length. Qed.

Lemma with_file_kept t i f f' g :
  files t !! i = Some f -> same_size f f' -> g = group_progress t -> kept t (with_file t i f' g) /\ xorbs (with_file t i f' g) = xorbs t.
Proof.
  intros Hi Hs ->. split; [|done]. split; cbn; try done. apply Forall2_same_length_lookup. split; [by rewrite length_insert|].
  intros j x y Hx [(<- & <- & _)|[_ Hy]]%list_lookup_insert_Some; [by simplify_eq|]. rewrite Hx in Hy. injection Hy as <-. done.
Qed.

Lemma complete_file_kept t i f f' n :
  files t !! i = Some f -> same_size f f' -> kept t (complete_file t i f' n) /\ xorbs (complete_file t i f' n) = xorbs t.
Proof.
  intros Hi Hs. unfold complete_file, report_bytes_completed.
  destruct (n =? 0); (split; [|done]; split; cbn; try done; apply Forall2_same_length_lookup; split; [by rewrite length_insert|]);
    intros j x y Hx [(<- & <- & _)|[_ Hy]]%list_lookup_insert_Some; simplify_eq; try done; (rewrite Hx in Hy; by injection Hy as <-).
Qed.

(** ** Dependencies *)

Definition owe (owed : nat -> Z) (d : FileXorbDependency) (i : nat) : Z :=
  owed i + (if bool_decide (Z.to_nat (dependency_file_id d) = i) then dependency_n_bytes d else 0).

Lemma parts_left_insert f h p :
  parts_left (with_parts f (<[h := p]> (remaining_xorbs_parts f))) =
  parts_left f + part_left p - part_left (match remaining_xorbs_parts f !! h with Some p => p | None => mk_part 0 0 end).
Proof.
  unfold parts_left. cbn. destruct (remaining_xorbs_parts f !! h) as [q|] eqn:E.
  - rewrite map_sum_insert, (map_sum_delete _ (remaining_xorbs_parts f) h q E). lia.
  - rewrite map_sum_fresh by done. change (part_left (mk_part 0 0)) with 0. lia.
Qed.

Lemma register_dependency_inv owed t p d t' p' :
  files_inv owed p (waits t) t -> xorbs_inv t -> register_dependency (t, p) d = Some (t', p') ->
  files_inv (owe owed d) p' (waits t') t' /\ xorbs_inv t'.
Proof.
  intros Hv Hx. unfold register_dependency. set (i := Z.to_nat (dependency_file_id d)). set (n := dependency_n_bytes d). set (h := dependency_xorb_hash d).
  destruct (files t !! i) as [f|] eqn:Hi; [|done]. cbn [mbind option_bind].
  assert (forall j, j <> i -> owe owed d j = owed j) as Ho.
  { intros j Hj. unfold owe. rewrite bool_decide_false; [lia|]. fold i. congruence. }
  assert (owe owed d i = owed i + n) as Hoi by (unfold owe; by rewrite bool_decide_true).
  assert (files_inv (owe owed d) (wrap64 (p + n)) (waits (complete_file t i f n)) (complete_file t i f n) /\ xorbs_inv (complete_file t i f n)) as Hdone.
  { destruct (complete_file_kept t i f f n Hi) as [Hk Ex]; [done|]. pose proof (kept_length _ _ Hk) as El. split.
    - eapply files_inv_processed; [|eapply complete_file_inv; [exact Hv|exact Hi|done|done| |done| |]].
      + clear. wrap_lia.
      + rewrite Hoi. f_equal. lia.
      + intros h'. rewrite (inv_parts _ _ _ _ Hv i f h' Hi). unfold waits. by rewrite Ex.
      + intros j h' _. unfold waits. by rewrite Ex.
    - destruct Hx. split; rewrite ?Ex, ?El; done. }
  destruct (is_external d); [by intros [= <- <-]|].
  destruct (xorb_entry_ok t h Hx) as (Hs & Hw & Hc). set (e := xorb_entry t h) in *.
  destruct (is_completed e) eqn:Ec; [by intros [= <- <-]|]. intros [= <- <-].
  set (part := match remaining_xorbs_parts f !! h with Some q => q | None => mk_part 0 0 end).
  set (e' := mk_xorb _ _ _ _). set (t1 := with_xorb t h e').
  assert (forall j h', waits t1 j h' <-> (h' = h /\ (j = i \/ waits t j h)) \/ (h' <> h /\ waits t j h')) as Hw1.
  { intros j h'. rewrite (waits_insert t t1 h e') by done. cbn. rewrite elem_of_index_insert, Hw. done. }
  split.
  - destruct (inv_files _ _ _ _ Hv i f Hi) as (_ & Hu & Hit).
    eapply files_inv_processed; [|eapply (file_changes owed (owe owed d) p (waits t) _ t1 i f _ _ 0)]; [by rewrite Z.add_0_r|..].
    + by eapply files_inv_frame.
    + done.
    + cbn. by rewrite Z.add_0_r, wrap64_small.
    + done.
    + rewrite parts_left_insert. fold part. unfold part_left. cbn. rewrite Hoi. clear. wrap_lia.
    + done.
    + intros h'. change (waits _ i h') with (waits t1 i h'). rewrite Hw1. cbn. destruct (decide (h' = h)) as [->|Hne].
      * rewrite lookup_insert_eq. split; [intros _; left; auto|by eauto].
      * rewrite lookup_insert_ne by done. rewrite (inv_parts _ _ _ _ Hv i f h' Hi). tauto.
    + intros j h' Hj. change (waits t1 j h' <-> waits t j h'). rewrite Hw1. destruct (decide (h' = h)) as [->|Hne]; tauto.
    + cbn. destruct Hv. by rewrite Z.add_0_r, inv_group0, (wrap64_small (wrap64 _)) by apply wrap64_is_u64.
  - eapply (xorbs_inv_insert t h e' (length (files t))); [done|done|cbn; by rewrite length_insert|done| |cbn; congruence|by apply index_insert_sorted].
    cbn. intros j [->|Hj]%elem_of_index_insert; [by eapply lookup_lt_Some|]. apply Hw in Hj as (e0 & He0 & Hj). by eapply (inv_indices _ Hx).
Qed.

Lemma files_inv_owed owed owed' p holds t : (forall i, owed' i = owed i) -> files_inv owed p holds t -> files_inv owed' p holds t.
Proof. intros Ho []. split; try done; intros; rewrite Ho; eauto. Qed.

Lemma register_dependency_kept t p d t' p' : register_dependency (t, p) d = Some (t', p') -> kept t t'.
Proof.
  unfold register_dependency. destruct (files t !! _) as [f|] eqn:Hi; [|done]. cbn [mbind option_bind].
  pose proof (complete_file_kept t _ f f (dependency_n_bytes d) Hi ltac:(done)) as [Hk _].
  destruct (is_external d); [by intros [= <- <-]|]. destruct (is_completed _); [by intros [= <- <-]|]. intros [= <- <-].
  match goal with |- kept _ (with_file ?t1 ?i ?f' ?g) => transitivity t1; [by split|]; apply (with_file_kept t1 i f f' g Hi); done end.
Qed.

Lemma register_dependencies_loop_inv deps owed t p t' p' :
  files_inv owed p (waits t) t -> xorbs_inv t -> register_dependencies_loop (t, p) deps = Some (t', p') ->
  files_inv (fun i => owed i + owed_by deps i) p' (waits t') t' /\ xorbs_inv t' /\ kept t t'.
Proof.
  revert owed t p. induction deps as [|d deps IH]; intros owed t p Hv Hx; cbn [register_dependencies_loop].
  - intros [= <- <-]. split_and!; [|done|done]. eapply files_inv_owed; [|exact Hv]. intros i. unfold owed_by, sum_of. cbn. lia.
  - destruct (register_dependency (t, p) d) as [[t1 p1]|] eqn:E; [|done]. cbn [mbind option_bind]. intros Hl.
    destruct (register_dependency_inv _ _ _ _ _ _ Hv Hx E) as [Hv1 Hx1]. destruct (IH _ _ _ Hv1 Hx1 Hl) as (Hv' & Hx' & Hk).
    split_and!; [|done|etrans; [by eapply register_dependency_kept|done]].
    eapply files_inv_owed; [|exact Hv']. intros i. unfold owe, owed_by, sum_of. cbn. lia.
Qed.

(** ** Completion of a xorb *)

Lemma completion_file_inv owed t p h i idx (W : nat -> DataHash -> Prop) :
  files_inv owed p (fun j h' => (h' = h /\ j ∈ i :: idx) \/ W j h') t -> i ∉ idx -> (forall j, ~ W j h) -> (i < length (files t))%nat ->
  exists t' p', completion_file h (t, p) i = Some (t', p') /\ files_inv owed p' (fun j h' => (h' = h /\ j ∈ idx) \/ W j h') t' /\ kept t t' /\ xorbs t' = xorbs t.
Proof.
  intros Hv Hni HW Hlt. apply lookup_lt_is_Some in Hlt as [f Hi]. unfold completion_file. rewrite Hi. cbn [mbind option_bind].
  set (part := match remaining_xorbs_parts f !! h with Some q => q | None => mk_part 0 0 end).
  set (f' := with_parts f (delete h (remaining_xorbs_parts f))).
  assert (parts_left f = part_left part + parts_left f') as El.
  { unfold parts_left, part. cbn. destruct (remaining_xorbs_parts f !! h) as [q|] eqn:E; [by apply map_sum_delete|].
    rewrite delete_id by done. change (part_left (mk_part 0 0)) with 0. lia. }
  assert (forall h', is_Some (remaining_xorbs_parts f' !! h') <-> (h' = h /\ i ∈ idx) \/ W i h') as Hh.
  { intros h'. cbn. destruct (decide (h' = h)) as [->|Hne].
    - rewrite lookup_delete_eq. split; [by intros []|]. intros [[_ ?]|Hw]; [done|by destruct (HW i)].
    - rewrite lookup_delete_ne by done. rewrite (inv_parts _ _ _ _ Hv i f h' Hi). tauto. }
  assert (forall j h', j <> i -> ((h' = h /\ j ∈ idx) \/ W j h') <-> ((h' = h /\ j ∈ i :: idx) \/ W j h')) as Hh'.
  { intros j h' Hj. rewrite elem_of_cons. tauto. }
  assert (wrap64 (wrap64 (part_n_bytes part - part_completed part) + parts_left f') = wrap64 (owed i - owed i + parts_left f)) as Ew.
  { rewrite El. unfold part_left. clear. wrap_lia. }
  destruct (Z.ltb_spec 0 (wrap64 (part_n_bytes part - part_completed part))) as [Hpos|Hz].
  - eexists _, _. split; [reflexivity|]. split; [|by apply (complete_file_kept t i f f')].
    eapply files_inv_processed; [|eapply (complete_file_inv owed owed p _ _ t i f f'); done]. clear. wrap_lia.
  - eexists _, _. split; [reflexivity|]. split; [|by apply (with_file_kept t i f f')].
    assert (wrap64 (part_n_bytes part - part_completed part) = 0) as E0 by (pose proof (wrap64_is_u64 (part_n_bytes part - part_completed part)); unfold is_u64 in *; lia).
    rewrite E0 in Ew. destruct (inv_files _ _ _ _ Hv i f Hi) as (_ & Hu & Hit).
    eapply files_inv_processed; [|eapply (file_changes owed owed p _ _ t i f f' _ 0); [done|done|..]]; [by rewrite Z.add_0_r|..]; try done.
    + cbn. by rewrite Z.add_0_r, wrap64_small.
    + rewrite Z.add_0_r, wrap64_small; [done|]. rewrite (inv_group _ _ _ _ Hv). apply wrap64_is_u64.
Qed.

Lemma completion_loop_inv idx owed t p h (W : nat -> DataHash -> Prop) :
  files_inv owed p (fun j h' => (h' = h /\ j ∈ idx) \/ W j h') t -> NoDup idx -> (forall j, ~ W j h) -> (forall i, i ∈ idx -> (i < length (files t))%nat) ->
  exists t' p', completion_loop h (t, p) idx = Some (t', p') /\ files_inv owed p' W t' /\ kept t t' /\ xorbs t' = xorbs t.
Proof.
  revert t p. induction idx as [|i idx IH]; intros t p Hv Hnd HW Hlt; cbn [completion_loop].
  - exists t, p. split; [done|]. split; [|done]. eapply files_inv_holds; [exact Hv|]. intros j h'. split; [by right|]. intros [[_ ?%not_elem_of_nil]|?]; done.
  - apply NoDup_cons in Hnd as [Hni Hnd]. destruct (completion_file_inv owed t p h i idx W Hv Hni HW) as (t1 & p1 & E & Hv1 & Hk & Hx); [apply Hlt; left|].
    rewrite E. cbn [mbind option_bind]. destruct (IH t1 p1 Hv1 Hnd HW) as (t' & p' & E' & Hv' & Hk' & Hx').
    { intros j Hj. rewrite (kept_length _ _ Hk). apply Hlt. by right. }
    exists t', p'. split_and!; [done|done|by etrans|congruence].
Qed.

(** ** Partial progress of a xorb *)

Lemma progress_file_inv owed t p h completed size i holds :
  files_inv owed p holds t -> (i < length (files t))%nat ->
  exists t' p', progress_file h completed size (t, p) i = Some (t', p') /\ files_inv owed p' holds t' /\ kept t t' /\ xorbs t' = xorbs t.
Proof.
  intros Hv Hlt. apply lookup_lt_is_Some in Hlt as [f Hi]. unfold progress_file. rewrite Hi. cbn [mbind option_bind].
  destruct (remaining_xorbs_parts f !! h) as [part|] eqn:Ep; [|by exists t, p].
  set (n := Z.max 0 _). set (part' := mk_part _ _). set (f' := with_parts f (<[h := part']> (remaining_xorbs_parts f))).
  assert (forall h', is_Some (remaining_xorbs_parts f' !! h') <-> holds i h') as Hh.
  { intros h'. rewrite <- (inv_parts _ _ _ _ Hv i f h' Hi). cbn. destruct (decide (h' = h)) as [->|Hne].
    - rewrite lookup_insert_eq, Ep. split; by eauto.
    - by rewrite lookup_insert_ne. }
  assert (wrap64 (n + parts_left f') = wrap64 (owed i - owed i + parts_left f)) as El.
  { unfold f'. rewrite parts_left_insert, Ep. unfold part_left, part'. cbn. clear. wrap_lia. }
  destruct (Z.eqb_spec n 0) as [En|Hne].
  - eexists _, _. split; [reflexivity|]. split; [|by apply (with_file_kept t i f f')].
    destruct (inv_files _ _ _ _ Hv i f Hi) as (_ & Hu & Hit). rewrite En in El.
    eapply files_inv_processed; [|eapply (file_changes owed owed p _ _ t i f f' _ 0); [done|done|..]]; [by rewrite Z.add_0_r|..]; try done.
    + cbn. by rewrite Z.add_0_r, wrap64_small.
    + rewrite Z.add_0_r, wrap64_small; [done|]. rewrite (inv_group _ _ _ _ Hv). apply wrap64_is_u64.
  - eexists _, _. split; [reflexivity|]. split; [|by apply (complete_file_kept t i f f')].
    eapply files_inv_processed; [|eapply (complete_file_inv owed owed p _ _ t i f f'); done]. clear. wrap_lia.
Qed.

Lemma progress_loop_inv idx owed t p h completed size holds :
  files_inv owed p holds t -> (forall i, i ∈ idx -> (i < length (files t))%nat) ->
  exists t' p', progress_loop h completed size (t, p) idx = Some (t', p') /\ files_inv owed p' holds t' /\ kept t t' /\ xorbs t' = xorbs t.
Proof.
  revert t p. induction idx as [|i idx IH]; intros t p Hv Hlt; cbn [progress_loop]; [by exists t, p|].
  destruct (progress_file_inv owed t p h completed size i holds Hv) as (t1 & p1 & E & Hv1 & Hk & Hx); [apply Hlt; left|].
  rewrite E. cbn [mbind option_bind]. destruct (IH t1 p1 Hv1) as (t' & p' & E' & Hv' & Hk' & Hx').
  { intros j Hj. rewrite (kept_length _ _ Hk). apply Hlt. by right. }
  exists t', p'. split_and!; [done|done|by etrans|congruence].
Qed.

(** ** The invariant *)

Definition tracker_inv (owed : nat -> Z) (t : CompletionTracker) : Prop := files_inv owed 0 (waits t) t /\ xorbs_inv t.

Lemma new_tracker_inv : tracker_inv (fun _ => 0) new.
Proof. split; split; cbn; try done; intros *; rewrite ?lookup_nil, ?lookup_empty; done. Qed.

(** Completion of a xorb never panics; the counters of the upload grow by what was missing. *)
Lemma completion_inv owed t h :
  tracker_inv owed t -> is_completed (xorb_entry t h) = false ->
  exists t1 t' p, register_xorb_upload_completion t h = Some t' /\
    t' = add_file_bytes (add_upload_bytes t1 0 (wrap64 (xorb_size (xorb_entry t h) - xorb_completed_bytes (xorb_entry t h)))) p /\
    kept t t1 /\ xorbs t1 = <[h := mk_xorb [] (xorb_completed_bytes (xorb_entry t h)) (xorb_size (xorb_entry t h)) true]> (xorbs t) /\ tracker_inv owed t'.
Proof.
  intros [Hv Hx] Ec. unfold register_xorb_upload_completion. rewrite Ec. destruct (xorb_entry_ok t h Hx) as (Hs & Hw & _). set (e := xorb_entry t h) in *.
  set (e' := mk_xorb [] _ _ true). set (t0 := with_xorb t h e').
  assert (forall j h', (h' = h /\ j ∈ file_indices e) \/ waits t0 j h' <-> waits t j h') as Hh.
  { intros j h'. rewrite (waits_insert t t0 h e') by done. cbn. rewrite elem_of_nil, Hw. destruct (decide (h' = h)) as [->|]; tauto. }
  destruct (completion_loop_inv (file_indices e) owed t0 0 h (waits t0)) as (t1 & p & E & Hv1 & Hk & Hx1).
  - eapply files_inv_frame; [eapply files_inv_holds; [exact Hv|exact Hh]|done..].
  - by apply sorted_nodup.
  - intros j (e0 & He0 & Hj). cbn in He0. rewrite lookup_insert_eq in He0. injection He0 as <-. by apply elem_of_nil in Hj.
  - intros i Hi. apply Hw in Hi as (e0 & He0 & Hi). by apply (inv_indices _ Hx h e0).
  - rewrite E. cbn [mbind option_bind]. eexists t1, _, p. split; [reflexivity|]. split; [done|]. split; [by etrans; [|exact Hk]|]. split; [done|].
    split.
    + eapply files_inv_counted, files_inv_frame; [eapply files_inv_holds; [exact Hv1|]|done..].
      intros i h'. unfold waits. cbn. by rewrite Hx1.
    + eapply (xorbs_inv_insert t h e' (length (files t))); [done|done|cbn; by rewrite (kept_length _ _ Hk)|done|by intros i ?%elem_of_nil|done|constructor].
Qed.

Lemma upload_progress_inv owed t h n check :
  tracker_inv owed t -> negb check && is_completed (xorb_entry t h) = false ->
  let e := xorb_entry t h in
  exists t1 t' p, register_xorb_upload_progress t h n check = Some t' /\ t' = add_file_bytes (add_upload_bytes t1 0 n) p /\
    kept t t1 /\ xorbs t1 = <[h := mk_xorb (file_indices e) (wrap64 (xorb_completed_bytes e + n)) (xorb_size e) (is_completed e)]> (xorbs t) /\ tracker_inv owed t'.
Proof.
  intros [Hv Hx] Hc. cbn zeta. unfold register_xorb_upload_progress. rewrite Hc. destruct (xorb_entry_ok t h Hx) as (Hs & Hw & Hd). set (e := xorb_entry t h) in *.
  set (e' := mk_xorb _ _ _ _). set (t0 := with_xorb t h e').
  assert (forall j h', waits t0 j h' <-> waits t j h') as Hh.
  { intros j h'. rewrite (waits_insert t t0 h e') by done. cbn. rewrite Hw. destruct (decide (h' = h)) as [->|]; tauto. }
  assert (forall i, i ∈ file_indices e -> (i < length (files t))%nat) as Hlt.
  { intros i Hi. apply Hw in Hi as (e0 & He0 & Hi). by apply (inv_indices _ Hx h e0). }
  destruct (progress_loop_inv (file_indices e) owed t0 0 h (xorb_completed_bytes e') (xorb_size e') (waits t)) as (t1 & p & E & Hv1 & Hk & Hx1).
  - by eapply files_inv_frame.
  - done.
  - cbn [file_indices] in *. change (file_indices e') with (file_indices e). rewrite E. cbn [mbind option_bind]. eexists t1, _, p.
    split; [reflexivity|]. split; [done|]. split; [by etrans; [|exact Hk]|]. split; [done|]. split.
    + eapply files_inv_counted, files_inv_frame; [eapply files_inv_holds; [exact Hv1|]|done..].
      intros i h'. rewrite <- Hh. unfold waits. cbn. by rewrite Hx1.
    + eapply (xorbs_inv_insert t h e' (length (files t))); [done|done|cbn; by rewrite (kept_length _ _ Hk)|done|done|done|done].
Qed.

(** The bytes of dependencies that an operation brings to file [i]. *)
Definition owed_of (i : nat) (op : Operation) : Z := match op with Dependencies deps => owed_by deps i | _ => 0 end.

Lemma new_file_inv owed t id n : tracker_inv owed t -> tracker_inv owed (register_new_file t id n).1.
Proof.
  intros [Hv Hx]. unfold register_new_file, update_item_size. set (size := match n with Some s => s | None => 0 end).
  assert (forall g it, group_total_bytes_completed g = group_total_bytes_completed (group_progress t) -> item_completed it = 0 -> forall known,
    tracker_inv owed (mk_tracker (files t ++ [mk_file id it size known 0 ∅]) (xorbs t) (total_upload_bytes t) (total_upload_bytes_completed t)
      (wrap64 (total_bytes t + size)) (total_bytes_completed t) g)) as H.
  { intros g it Eg Ei known. destruct Hv as [Hf Hp Ho Ht Hg]. destruct Hx as [Hi Hc Hs]. split; split; cbn.
    - intros i f [Hl|[Hl Hf']]%lookup_app_Some; [by apply Hf|]. apply list_lookup_singleton_Some in Hf' as [Hz <-].
      assert (owed i = 0) as -> by (apply Ho; lia). split_and!; [|done|done]. unfold parts_left. cbn. by rewrite map_sum_empty.
    - intros i f h [Hl|[Hl Hf']]%lookup_app_Some; [by apply Hp|]. apply list_lookup_singleton_Some in Hf' as [Hz <-]. cbn. rewrite lookup_empty.
      split; [by intros []|]. intros (e & He & Hin). specialize (Hi h e i He Hin). lia.
    - intros i Hl. rewrite length_app in Hl. apply Ho. cbn in Hl. lia.
    - rewrite sum_of_app. cbn. rewrite Ht. f_equal. unfold sum_of. cbn. lia.
    - rewrite sum_of_app, Eg, Hg. f_equal. unfold sum_of. cbn. lia.
    - intros h e i He Hin. rewrite length_app. specialize (Hi h e i He Hin). lia.
    - done.
    - done. }
  destruct n as [n|]; cbn [size_finalized ItemProgress_new item_total item_completed]; destruct (0 <? _); cbn; apply H; done.
Qed.

Lemma increment_inv owed t i n t' : tracker_inv owed t -> increment_file_size t i n = Some t' -> tracker_inv owed t'.
Proof.
  intros [Hv Hx]. unfold increment_file_size. destruct (files t !! i) as [f|] eqn:Hi; [|done]. cbn [mbind option_bind].
  destruct (is_final_size_known f); [by intros [= <-]|]. destruct (update_item_size _ _ _ _) as [g it] eqn:Eu. intros [= <-].
  set (f' := mk_file _ _ _ _ _ _).
  assert (group_total_bytes_completed g = group_total_bytes_completed (group_progress t) /\ item_completed it = item_completed (updater f)) as [Eg Ei].
  { unfold update_item_size in Eu. destruct (size_finalized _); [by injection Eu as <- <-|]. destruct (_ <? _); by injection Eu as <- <-. }
  destruct (inv_files _ _ _ _ Hv i f Hi) as (_ & Hu & Hit). split.
  - eapply files_inv_frame; [eapply (files_inv_processed owed (0 + 0)); [done|];
      eapply (file_changes owed owed 0 (waits t) (waits t) t i f f' g 0)|..];
      try done.
    + cbn. by rewrite Z.add_0_r, wrap64_small.
    + cbn. by rewrite Ei.
    + cbn. unfold parts_left. cbn. f_equal. lia.
    + intros h. cbn. by apply (inv_parts _ _ _ _ Hv).
    + rewrite Eg, Z.add_0_r, wrap64_small; [done|]. rewrite (inv_group _ _ _ _ Hv). apply wrap64_is_u64.
  - destruct Hx. split; cbn; rewrite ?length_insert; done.
Qed.

Lemma new_xorb_inv owed t h size : tracker_inv owed t -> tracker_inv owed (register_new_xorb t h size).1.
Proof.
  intros [Hv Hx]. unfold register_new_xorb. destruct (xorb_entry_ok t h Hx) as (Hs & Hw & Hd). unfold xorb_entry in *.
  assert (forall e e', (match xorbs t !! h with Some e => e | None => XorbDependency_default end) = e -> file_indices e' = file_indices e -> is_completed e' = is_completed e ->
    tracker_inv owed (add_upload_bytes (with_xorb t h e') size 0)) as H.
  { intros e e' Ee Ei Ec. rewrite Ee in *. split.
    - eapply files_inv_frame; [eapply files_inv_holds; [exact Hv|]|done..]. intros i h'.
      rewrite (waits_insert t (add_upload_bytes (with_xorb t h e') size 0) h e') by done. rewrite Ei, Hw. destruct (decide (h' = h)) as [->|]; tauto.
    - eapply (xorbs_inv_insert t h e' (length (files t))); [done|done|done|done| |by rewrite Ei, Ec|by rewrite Ei].
      intros i. rewrite Ei, Hw. intros (e0 & He0 & Hi). by apply (inv_indices _ Hx h e0). }
  destruct (xorbs t !! h) as [e|] eqn:Ee; cbn [fst]; [destruct (_ =? 0); cbn [fst]; [by apply (H e)|by split]|by apply (H XorbDependency_default)].
Qed.

Lemma perform_inv owed t op t' : tracker_inv owed t -> perform t op = Some t' -> tracker_inv (fun i => owed i + owed_of i op) t'.
Proof.
  intros Hi Hp. assert (forall t'', tracker_inv owed t'' -> tracker_inv (fun i => owed i + 0) t'') as H0.
  { intros t'' [Hv Hx]. split; [|done]. eapply files_inv_owed; [|exact Hv]. intros i. lia. }
  destruct op as [id n|i n|deps|h size|h|h n check]; cbn [perform owed_of] in *.
  - injection Hp as <-. by apply H0, new_file_inv.
  - by eapply H0, increment_inv.
  - unfold register_dependencies in Hp. destruct (register_dependencies_loop (t, 0) deps) as [[t1 p]|] eqn:E; [|done]. injection Hp as <-.
    destruct Hi as [Hv Hx]. destruct (register_dependencies_loop_inv deps owed t 0 t1 p Hv Hx E) as (Hv1 & Hx1 & _). split; [|by destruct Hx1].
    by apply files_inv_counted in Hv1.
  - injection Hp as <-. by apply H0, new_xorb_inv.
  - destruct (is_completed (xorb_entry t h)) eqn:Ec.
    + unfold register_xorb_upload_completion in Hp. rewrite Ec in Hp. injection Hp as <-. by apply H0.
    + destruct (completion_inv owed t h Hi Ec) as (t1 & t2 & p & E & _ & _ & _ & Hi'). rewrite E in Hp. injection Hp as <-. by apply H0.
  - destruct (negb check && is_completed (xorb_entry t h)) eqn:Ec.
    + unfold register_xorb_upload_progress in Hp. rewrite Ec in Hp. injection Hp as <-. by apply H0.
    + destruct (upload_progress_inv owed t h n check Hi Ec) as (t1 & t2 & p & E & _ & _ & _ & Hi'). rewrite E in Hp. injection Hp as <-. by apply H0.
Qed.

(** ** Sizes *)

(** The arguments are [u64]. *)
Definition op_ok (op : Operation) : Prop :=
  match op with
  | NewFile _ (Some n) | IncrementSize _ n | NewXorb _ n | XorbProgress _ n _ => is_u64 n
  | _ => True
  end.

(** The bytes that an operation adds to the size of a file. *)
Definition size_of (op : Operation) : Z := match op with NewFile _ (Some n) | IncrementSize _ n => n | _ => 0 end.

Definition file_sized (f : FileDependency) : Prop :=
  item_total (updater f) = file_total_bytes f /\ size_finalized (updater f) = is_final_size_known f /\ 0 <= file_total_bytes f.

Record sizes_inv (bound : Z) (t : CompletionTracker) : Prop := {
  inv_sized : Forall file_sized (files t);
  inv_sum : total_bytes t = sum_of file_total_bytes (files t) /\ group_total_bytes (group_progress t) = sum_of file_total_bytes (files t);
  inv_bound : sum_of file_total_bytes (files t) <= bound;
}.

Lemma sizes_frame bound t t' :
  sizes_inv bound t -> Forall2 same_size (files t) (files t') -> total_bytes t' = total_bytes t ->
  group_total_bytes (group_progress t') = group_total_bytes (group_progress t) -> sizes_inv bound t'.
Proof.
  intros [Hf [Ht Hg] Hb] H2 Et Eg.
  assert (sum_of file_total_bytes (files t') = sum_of file_total_bytes (files t)) as Es.
  { clear - H2. induction H2 as [|f f' l l' Hs H2 IH]; [done|]. unfold sum_of in *. cbn. rewrite IH. f_equal. apply Hs. }
  split; rewrite ?Es, ?Et, ?Eg; [|done|done]. clear - Hf H2. induction H2 as [|f f' l l' Hs H2 IH]; [done|].
  apply Forall_cons in Hf as [H1 Hf]. constructor; [|by apply IH]. unfold file_sized, same_size in *. intuition congruence.
Qed.

Lemma sizes_nonneg bound t : sizes_inv bound t -> Forall (fun f => 0 <= file_total_bytes f) (files t).
Proof. intros []. eapply Forall_impl; [done|]. by intros f (_ & _ & ?). Qed.

Lemma new_file_sizes bound t id n :
  sizes_inv bound t -> op_ok (NewFile id n) -> bound + size_of (NewFile id n) < 2 ^ 64 -> sizes_inv (bound + size_of (NewFile id n)) (register_new_file t id n).1.
Proof.
  intros Hs Hok Hb. pose proof (sum_of_nonneg _ _ (sizes_nonneg _ _ Hs)) as [Hnn _]. destruct Hs as [Hf [Ht Hg] Hle].
  unfold register_new_file, update_item_size. destruct n as [n|]; cbn in *; [|].
  - unfold is_u64 in Hok. destruct (Z.ltb_spec 0 n); cbn; (split; cbn; [apply Forall_app; split; [done|]; repeat constructor; cbn; lia|rewrite sum_of_app, Ht|rewrite sum_of_app];
      change (sum_of file_total_bytes [_]) with (n + 0)); rewrite ?Hg, ?Z.sub_0_r, ?wrap64_small by (unfold is_u64; lia); lia.
  - split; cbn; [apply Forall_app; split; [done|]; repeat constructor; cbn; lia|rewrite sum_of_app, Ht|rewrite sum_of_app];
      change (sum_of file_total_bytes [_]) with (0 + 0); rewrite ?Hg, ?wrap64_small by (unfold is_u64; lia); lia.
Qed.

Lemma increment_sizes bound t i n t' :
  sizes_inv bound t -> is_u64 n -> bound + n < 2 ^ 64 -> increment_file_size t i n = Some t' -> sizes_inv (bound + n) t'.
Proof.
  intros Hs Hok Hb. pose proof (sum_of_nonneg _ _ (sizes_nonneg _ _ Hs)) as [Hnn Hle1]. pose proof Hs as [Hf [Ht Hg] Hle]. unfold is_u64 in Hok.
  unfold increment_file_size. destruct (files t !! i) as [f|] eqn:Hi; [|done]. cbn [mbind option_bind].
  destruct (is_final_size_known f) eqn:Ef; [intros [= <-]; split; [done|done|lia]|].
  destruct (proj1 (Forall_lookup _ _) Hf i f Hi) as (Eit & Efin & Hpos). specialize (Hle1 f (list_elem_of_lookup_2 _ _ _ Hi)).
  rewrite wrap64_small by (unfold is_u64; lia). unfold update_item_size. rewrite Efin, Ef, Eit.
  destruct (Z.ltb_spec (file_total_bytes f) (file_total_bytes f + n)) as [Hlt|Hge]; intros [= <-]; (split; cbn;
    [apply Forall_insert; [done|]; split_and!; cbn; [lia|done|lia]|rewrite (sum_of_insert _ _ _ _ _ Hi)..]); cbn;
    rewrite ?Ht, ?Hg, ?wrap64_small by (unfold is_u64; lia); lia.
Qed.

(** Every operation but the first two keeps the sizes. *)
Lemma perform_sizes owed bound t op t' :
  tracker_inv owed t -> sizes_inv bound t -> op_ok op -> bound + size_of op < 2 ^ 64 -> perform t op = Some t' -> sizes_inv (bound + size_of op) t'.
Proof.
  intros Hi Hs Hok Hb Hp. assert (forall t1 t2, kept t t1 -> files t2 = files t1 -> total_bytes t2 = total_bytes t1 ->
    group_total_bytes (group_progress t2) = group_total_bytes (group_progress t1) -> sizes_inv (bound + 0) t2) as Hk.
  { intros t1 t2 [Hf _ Ht [Hg _]] Ef Et Eg. rewrite Z.add_0_r. eapply sizes_frame; [exact Hs|by rewrite Ef|congruence..]. }
  destruct op as [id n|i n|deps|h size|h|h n check]; cbn [perform size_of] in *.
  - injection Hp as <-. by apply new_file_sizes.
  - by eapply increment_sizes.
  - unfold register_dependencies in Hp. destruct (register_dependencies_loop (t, 0) deps) as [[t1 p]|] eqn:E; [|done]. injection Hp as <-.
    destruct Hi as [Hv Hx]. destruct (register_dependencies_loop_inv deps owed t 0 t1 p Hv Hx E) as (_ & _ & Hk1). by apply (Hk t1).
  - injection Hp as <-. unfold register_new_xorb. destruct (xorbs t !! h) as [e|]; [destruct (_ =? 0)|]; by apply (Hk t).
  - destruct (is_completed (xorb_entry t h)) eqn:Ec.
    + unfold register_xorb_upload_completion in Hp. rewrite Ec in Hp. injection Hp as <-. by apply (Hk t).
    + destruct (completion_inv owed t h Hi Ec) as (t1 & t2 & p & E & -> & Hk1 & _ & _). rewrite E in Hp. injection Hp as <-. by apply (Hk t1).
  - destruct (negb check && is_completed (xorb_entry t h)) eqn:Ec.
    + unfold register_xorb_upload_progress in Hp. rewrite Ec in Hp. injection Hp as <-. by apply (Hk t).
    + destruct (upload_progress_inv owed t h n check Hi Ec) as (t1 & t2 & p & E & -> & Hk1 & _ & _). rewrite E in Hp. injection Hp as <-. by apply (Hk t1).
Qed.

(** ** Transfers *)

(** The bytes of a xorb that count as uploaded. *)
Definition uploaded (e : XorbDependency) : Z := if is_completed e then xorb_size e else xorb_completed_bytes e.

Record transfers_inv (t : CompletionTracker) : Prop := {
  inv_transfer : total_upload_bytes t = wrap64 (map_sum xorb_size (xorbs t)) /\ group_total_transfer_bytes (group_progress t) = total_upload_bytes t;
  inv_uploaded : total_upload_bytes_completed t = wrap64 (map_sum uploaded (xorbs t)) /\
    group_total_transfer_bytes_completed (group_progress t) = total_upload_bytes_completed t;
  inv_registered : forall h e, xorbs t !! h = Some e -> is_completed e = true -> xorb_size e <> 0;
}.

(** A xorb is completed after its size is registered, and partial progress that is not checked for
    order comes before its completion. *)
Definition allowed (t : CompletionTracker) (op : Operation) : Prop :=
  match op with
  | XorbCompletion h => xorb_size (xorb_entry t h) <> 0
  | XorbProgress h _ true => is_completed (xorb_entry t h) = false
  | _ => True
  end.

Lemma map_sum_entry f t h e : f XorbDependency_default = 0 -> map_sum f (<[h := e]> (xorbs t)) = map_sum f (xorbs t) - f (xorb_entry t h) + f e.
Proof.
  intros H0. unfold xorb_entry. destruct (xorbs t !! h) as [e0|] eqn:E.
  - rewrite map_sum_insert, (map_sum_delete f (xorbs t) h e0 E). lia.
  - rewrite map_sum_fresh by done. lia.
Qed.

(** One entry changes, and the counters by as much. *)
Lemma transfers_change t t' h e n c :
  transfers_inv t -> xorbs t' = <[h := e]> (xorbs t) ->
  wrap64 (xorb_size e - xorb_size (xorb_entry t h)) = wrap64 n -> wrap64 (uploaded e - uploaded (xorb_entry t h)) = wrap64 c ->
  total_upload_bytes t' = wrap64 (total_upload_bytes t + n) -> total_upload_bytes_completed t' = wrap64 (total_upload_bytes_completed t + c) ->
  group_total_transfer_bytes (group_progress t') = wrap64 (group_total_transfer_bytes (group_progress t) + n) ->
  group_total_transfer_bytes_completed (group_progress t') = wrap64 (group_total_transfer_bytes_completed (group_progress t) + c) ->
  (is_completed e = true -> xorb_size e <> 0) -> transfers_inv t'.
Proof.
  intros [[Ht Hg] [Hu Hgu] Hr] Ex En Ec E1 E2 E3 E4 Hz. split.
  - rewrite E1, E3, Hg, Ht, Ex, map_sum_entry by done. split; [|done]. clear - En. wrap_lia.
  - rewrite E2, E4, Hgu, Hu, Ex, map_sum_entry by done. split; [|done]. clear - Ec. wrap_lia.
  - rewrite Ex. intros h' e' [[_ <-]|[_ He]]%lookup_insert_Some; [done|by apply (Hr h')].
Qed.

Lemma transfers_u64 t : transfers_inv t -> is_u64 (total_upload_bytes t) /\ is_u64 (total_upload_bytes_completed t).
Proof. intros [[-> _] [-> _] _]. split; apply wrap64_is_u64. Qed.

Lemma transfers_frame t t' :
  transfers_inv t -> xorbs t' = xorbs t -> total_upload_bytes t' = total_upload_bytes t -> total_upload_bytes_completed t' = total_upload_bytes_completed t ->
  group_total_transfer_bytes (group_progress t') = group_total_transfer_bytes (group_progress t) ->
  group_total_transfer_bytes_completed (group_progress t') = group_total_transfer_bytes_completed (group_progress t) -> transfers_inv t'.
Proof. intros [] Ex E1 E2 E3 E4. split; rewrite ?Ex, ?E1, ?E2, ?E3, ?E4; done. Qed.

Lemma xorb_entry_registered t h : transfers_inv t -> is_completed (xorb_entry t h) = true -> xorb_size (xorb_entry t h) <> 0.
Proof. intros [_ _ Hr]. unfold xorb_entry. destruct (xorbs t !! h) eqn:E; [by apply (Hr h)|done]. Qed.

Lemma dependency_transfers t p d t' p' : transfers_inv t -> register_dependency (t, p) d = Some (t', p') -> transfers_inv t'.
Proof.
  intros Ht Hr. pose proof (register_dependency_kept _ _ _ _ _ Hr) as [_ [E1 E2] _ (_ & _ & E3 & E4)]. pose proof (transfers_u64 t Ht) as [U1 U2].
  destruct (inv_transfer _ Ht) as [_ Hg]. destruct (inv_uploaded _ Ht) as [_ Hgu]. unfold register_dependency in Hr.
  destruct (files t !! _) as [f|] eqn:Hi; [|done]. cbn [mbind option_bind] in Hr.
  pose proof (complete_file_kept t _ f f (dependency_n_bytes d) Hi ltac:(done)) as [_ Ex].
  destruct (is_external d); [injection Hr as <- <-; by eapply transfers_frame|].
  destruct (is_completed _) eqn:Ec; injection Hr as <- <-; [by eapply transfers_frame|].
  eapply (transfers_change t _ _ _ 0 0); [done|reflexivity|cbn; by rewrite Z.sub_diag|unfold uploaded; cbn; rewrite Ec; by rewrite Z.sub_diag|..];
    rewrite ?E1, ?E2, ?E3, ?E4, ?Hg, ?Hgu, ?Z.add_0_r, ?wrap64_small; done.
Qed.

Lemma perform_transfers owed t op t' :
  tracker_inv owed t -> transfers_inv t -> allowed t op -> perform t op = Some t' -> transfers_inv t'.
Proof.
  intros Hi Ht Ha Hp. pose proof (transfers_u64 t Ht) as [U1 U2]. destruct (inv_transfer _ Ht) as [_ Hg]. destruct (inv_uploaded _ Ht) as [_ Hgu].
  destruct op as [id n|i n|deps|h size|h|h n check]; cbn [perform allowed] in *.
  - injection Hp as <-. unfold register_new_file, update_item_size. destruct n as [n|]; cbn; [destruct (0 <? n)|]; by eapply transfers_frame.
  - unfold increment_file_size, update_item_size in Hp. destruct (files t !! i) as [f|]; [|done]. cbn [mbind option_bind] in Hp.
    destruct (is_final_size_known f); [by injection Hp as <-|]. destruct (size_finalized _); [|destruct (_ <? _)]; injection Hp as <-; by eapply transfers_frame.
  - unfold register_dependencies in Hp. destruct (register_dependencies_loop (t, 0) deps) as [[t1 p]|] eqn:E; [|done]. injection Hp as <-.
    eapply (transfers_frame t1); [|done..]. clear - E Ht. revert E. generalize 0. revert t Ht.
    induction deps as [|d deps IH]; intros t Ht q; cbn [register_dependencies_loop]; [by intros [= <- <-]|].
    destruct (register_dependency (t, q) d) as [[t2 q2]|] eqn:E; [|done]. apply IH. by eapply dependency_transfers.
  - injection Hp as <-. pose proof (xorb_entry_registered t h Ht) as Hr. unfold register_new_xorb.
    destruct (xorbs t !! h) as [e|] eqn:Ee; [destruct (Z.eqb_spec (xorb_size e) 0) as [Hz|]|].
    + eapply (transfers_change t _ h _ size 0); [done|reflexivity|..]; unfold uploaded, xorb_entry in *; rewrite Ee in *; cbn in *; rewrite ?Hg, ?Hgu; try done.
      * by rewrite Hz, Z.sub_0_r.
      * destruct (is_completed e); [by destruct Hr|by rewrite Z.sub_diag].
      * intros Hc. by destruct Hr.
    + done.
    + eapply (transfers_change t _ h _ size 0); [done|reflexivity|..]; unfold uploaded, xorb_entry; rewrite ?Ee; cbn; rewrite ?Hg, ?Hgu; try done.
      by rewrite Z.sub_0_r.
  - destruct (is_completed (xorb_entry t h)) eqn:Ec.
    + unfold register_xorb_upload_completion in Hp. rewrite Ec in Hp. by injection Hp as <-.
    + destruct (completion_inv owed t h Hi Ec) as (t1 & t2 & p & E & -> & [_ [E1 E2] _ (_ & _ & E3 & E4)] & Ex & _). rewrite E in Hp. injection Hp as <-.
      eapply (transfers_change t _ h _ 0 (wrap64 (xorb_size (xorb_entry t h) - xorb_completed_bytes (xorb_entry t h)))); [done|exact Ex|..]; cbn;
        rewrite ?E1, ?E2, ?E3, ?E4, ?Hg, ?Hgu, ?Z.add_0_r; try done.
      * by rewrite Z.sub_diag.
      * unfold uploaded. cbn. rewrite Ec. by rewrite (wrap64_small (wrap64 _)) by apply wrap64_is_u64.
  - destruct (negb check && is_completed (xorb_entry t h)) eqn:Ec.
    + unfold register_xorb_upload_progress in Hp. rewrite Ec in Hp. by injection Hp as <-.
    + destruct (upload_progress_inv owed t h n check Hi Ec) as (t1 & t2 & p & E & -> & [_ [E1 E2] _ (_ & _ & E3 & E4)] & Ex & _). rewrite E in Hp. injection Hp as <-.
      assert (is_completed (xorb_entry t h) = false) as Ed by (destruct check; [done|by apply andb_false_iff in Ec as [|]]).
      eapply (transfers_change t _ h _ 0 n); [done|exact Ex|..]; cbn; rewrite ?E1, ?E2, ?E3, ?E4, ?Hg, ?Hgu, ?Z.add_0_r; try done.
      * by rewrite Z.sub_diag.
      * unfold uploaded. cbn. rewrite Ed. clear. wrap_lia.
      * by rewrite Ed.
Qed.

(** ** Runs *)

Definition owed_in (ops : list Operation) (i : nat) : Z := sum_of (owed_of i) ops.

Fixpoint disciplined (t : CompletionTracker) (ops : list Operation) : Prop :=
  match ops with
  | [] => True
  | op :: ops' => allowed t op /\ match perform t op with Some t' => disciplined t' ops' | None => True end
  end.

Lemma size_of_nonneg op : op_ok op -> 0 <= size_of op.
Proof. destruct op as [id [n|]|i n| | | |]; cbn; unfold is_u64; lia. Qed.

Lemma perform_all_inv ops owed bound t t' :
  tracker_inv owed t -> sizes_inv bound t -> Forall op_ok ops -> bound + sum_of size_of ops < 2 ^ 64 -> perform_all t ops = Some t' ->
  tracker_inv (fun i => owed i + owed_in ops i) t' /\ sizes_inv (bound + sum_of size_of ops) t' /\
  (transfers_inv t -> disciplined t ops -> transfers_inv t').
Proof.
  revert owed bound t. induction ops as [|op ops IH]; intros owed bound t Hi Hs Hok Hb Hp; cbn [perform_all] in Hp.
  - injection Hp as <-. split_and!; [|by rewrite Z.add_0_r|done]. destruct Hi as [Hv Hx]. split; [|done]. eapply files_inv_owed; [|exact Hv]. intros i.
    unfold owed_in, sum_of. cbn. lia.
  - apply Forall_cons in Hok as [Ho Hok]. destruct (perform t op) as [t1|] eqn:E; [|done]. cbn [mbind option_bind] in Hp.
    assert (sum_of size_of (op :: ops) = size_of op + sum_of size_of ops) as Es by done. rewrite Es in *.
    assert (0 <= sum_of size_of ops) as Hnn.
    { apply sum_of_nonneg. eapply Forall_impl; [exact Hok|]. apply size_of_nonneg. }
    destruct (IH _ (bound + size_of op) t1 (perform_inv _ _ _ _ Hi E)) as ([Hv Hx] & Hs' & Ht'); [eapply perform_sizes; eauto; lia|done|lia|done|].
    split_and!.
    + split; [|done]. eapply files_inv_owed; [|exact Hv]. intros i. unfold owed_in, sum_of. cbn. lia.
    + by rewrite Z.add_assoc.
    + intros Ht [Ha Hd]. rewrite E in Hd. apply Ht'; [by eapply perform_transfers|done].
Qed.

Lemma new_sizes_inv : sizes_inv 0 new.
Proof. by split. Qed.

Lemma new_transfers_inv : transfers_inv new.
Proof. split; cbn; [done|done|]. intros h e. by rewrite lookup_empty. Qed.

(** A run from the empty tracker. *)
Lemma run_inv ops t :
  perform_all new ops = Some t -> Forall op_ok ops -> sum_of size_of ops < 2 ^ 64 ->
  tracker_inv (owed_in ops) t /\ sizes_inv (sum_of size_of ops) t /\ (disciplined new ops -> transfers_inv t).
Proof.
  intros Hp Hok Hb. destruct (perform_all_inv ops (fun _ => 0) 0 new t new_tracker_inv new_sizes_inv Hok Hb Hp) as (Hi & Hs & Ht).
  split_and!; [done|done|]. apply Ht, new_transfers_inv.
Qed.

Lemma status_sums bound t : sizes_inv bound t -> bound < 2 ^ 64 -> status t = (wrap64 (sum_of file_completed_bytes (files t)), total_bytes t).
Proof.
  intros Hs Hb. pose proof (sum_of_nonneg _ _ (sizes_nonneg _ _ Hs)) as [Hnn _]. destruct Hs as [_ [Ht _] Hle].
  unfold status. rewrite !fold_wrap_sum by done. cbn. rewrite Ht. f_equal. apply wrap64_small. unfold is_u64. lia.
Qed.

(** When every xorb is completed nothing is left of any file. *)
Lemma nothing_left owed t i f :
  tracker_inv owed t -> (forall h e, xorbs t !! h = Some e -> is_completed e = true) -> files t !! i = Some f ->
  remaining_xorbs_parts f = ∅ /\ file_completed_bytes f = wrap64 (owed i).
Proof.
  intros [Hv Hx] Hc Hi. assert (remaining_xorbs_parts f = ∅) as Ep.
  { apply map_empty. intros h. destruct (remaining_xorbs_parts f !! h) eqn:E; [|done].
    destruct (proj1 (inv_parts _ _ _ _ Hv i f h Hi)) as (e & He & Hin); [by rewrite E|].
    rewrite (inv_completed _ Hx h e He) in Hin by by eapply Hc. by apply elem_of_nil in Hin. }
  split; [done|]. destruct (inv_files _ _ _ _ Hv i f Hi) as (Hw & Hu & _).
  unfold parts_left in Hw. rewrite Ep, map_sum_empty, Z.add_0_r, wrap64_small in Hw by done. done.
Qed.

(** C23: No byte of an upload is lost or counted twice.  After any sequence of operations, whatever the
    rounding of partial progress: the bytes of the dependencies registered for a file are, modulo
    [2^64], those done and those left of the xorbs that the file waits for; the item of the file
    reports the same bytes and the same size; and the totals of the tracker and of the group are the
    sums over the files.  Progress and completion of a xorb do not panic. *)
Theorem tracking_conserves ops t :
  perform_all new ops = Some t -> Forall op_ok ops -> sum_of size_of ops < 2 ^ 64 ->
  (forall i f, files t !! i = Some f ->
    wrap64 (file_completed_bytes f + parts_left f) = wrap64 (owed_in ops i) /\
    item_completed (updater f) = file_completed_bytes f /\ item_total (updater f) = file_total_bytes f /\
    forall h, is_Some (remaining_xorbs_parts f !! h) <-> waits t i h) /\
  (total_bytes t = sum_of file_total_bytes (files t) /\ group_total_bytes (group_progress t) = total_bytes t) /\
  wrap64 (total_bytes_completed t) = wrap64 (sum_of file_completed_bytes (files t)) /\
  group_total_bytes_completed (group_progress t) = wrap64 (total_bytes_completed t) /\
  forall h n check, is_Some (register_xorb_upload_completion t h) /\ is_Some (register_xorb_upload_progress t h n check).
Proof.
  intros Hp Hok Hb. destruct (run_inv ops t Hp Hok Hb) as (Hi & [Hf [Ht Hg] _] & _). pose proof Hi as [[Hv Hpa _ Hto Hgr] _].
  rewrite Z.add_0_r in Hto. split_and!; [|done|congruence|done|by rewrite Hto|].
  - intros i f Hl. destruct (Hv i f Hl) as (Hw & _ & Hit). destruct (proj1 (Forall_lookup _ _) Hf i f Hl) as (Hsz & _). split_and!; [done..|]. intros h. by apply Hpa.
  - intros h n check. split.
    + destruct (is_completed (xorb_entry t h)) eqn:Ec; [unfold register_xorb_upload_completion; by rewrite Ec|].
      destruct (completion_inv _ t h Hi Ec) as (t1 & t2 & p & -> & _). by eexists.
    + destruct (negb check && is_completed (xorb_entry t h)) eqn:Ec; [unfold register_xorb_upload_progress; by rewrite Ec|].
      destruct (upload_progress_inv _ t h n check Hi Ec) as (t1 & t2 & p & -> & _). by eexists.
Qed.

(** An upload whose xorbs are all completed is complete.  When every xorb was completed after its size
    was registered, the assertions of [assert_complete] on the files, the xorbs, the items and the
    group hold exactly when the dependencies of every file add up to its size; [is_complete] is then
    true, and the status is the size of the files twice. *)
Theorem tracking_completes ops t :
  perform_all new ops = Some t -> Forall op_ok ops -> sum_of size_of ops < 2 ^ 64 -> disciplined new ops ->
  (forall h e, xorbs t !! h = Some e -> is_completed e = true) ->
  let exact := forall i f, files t !! i = Some f -> file_total_bytes f = wrap64 (owed_in ops i) in
  (assert_complete t = true <-> exact) /\ (exact -> is_complete t = true /\ status t = (total_bytes t, total_bytes t)).
Proof.
  intros Hp Hok Hb Hd Hc. cbn zeta. destruct (run_inv ops t Hp Hok Hb) as (Hi & Hs & Htr). destruct (Htr Hd) as [[Htt Htg] [Htu Htgu] _].
  pose proof Hi as [[Hv _ _ Hto Hgr] Hx]. pose proof Hs as [Hf [Ht Hg] Hle]. pose proof (sum_of_nonneg _ _ (sizes_nonneg _ _ Hs)) as [Hnn _].
  assert ((forall i f, files t !! i = Some f -> file_total_bytes f = wrap64 (owed_in ops i)) ->
    Forall (fun f => file_completed_bytes f = file_total_bytes f) (files t) /\ sum_of file_completed_bytes (files t) = total_bytes t) as Hex.
  { intros He. assert (Forall (fun f => file_completed_bytes f = file_total_bytes f) (files t)) as Hall.
    { apply Forall_lookup. intros i f Hl. destruct (nothing_left _ t i f Hi Hc Hl) as [_ ->]. by rewrite (He i f Hl). }
    split; [done|]. rewrite Ht. clear - Hall. induction Hall as [|f l Hf Hl IH]; [done|]. unfold sum_of in *. cbn. by rewrite IH, Hf. }
  split.
  - unfold assert_complete, group_complete. rewrite !andb_true_iff, !forallb_forall. split.
    + intros ((Hfs & _) & _) i f Hl. destruct (nothing_left _ t i f Hi Hc Hl) as [_ <-].
      assert (In f (files t)) as Hin by (apply list_elem_of_In; by eapply list_elem_of_lookup_2).
      apply Hfs, andb_true_iff in Hin as [Hz _]. by apply Z.eqb_eq in Hz.
    + intros He. destruct (Hex He) as [Hall Hsum]. split_and!.
      * intros f Hin. apply list_elem_of_In, list_elem_of_lookup in Hin as [i Hl]. destruct (nothing_left _ t i f Hi Hc Hl) as [-> ->].
        rewrite (He i f Hl), Z.eqb_refl. by rewrite bool_decide_true.
      * intros [h e] Hin. apply list_elem_of_In, elem_of_map_to_list in Hin. rewrite (Hc h e Hin), (inv_completed _ Hx h e Hin (Hc h e Hin)). done.
      * rewrite Hgr, Hg, Hsum, Ht. apply Z.eqb_eq, wrap64_small. unfold is_u64. lia.
      * rewrite Htgu, Htg, Htt, Htu. apply Z.eqb_eq. f_equal. apply map_sum_ext.
        intros h e He0. unfold uploaded. by rewrite (Hc h e He0).
      * intros [id i] _. destruct (files t !! i) as [f|] eqn:Hl; [|done]. destruct (Hv i f Hl) as (_ & _ & ->).
        destruct (proj1 (Forall_lookup _ _) Hf i f Hl) as (-> & _). apply Z.eqb_eq. by apply (proj1 (Forall_lookup _ _) Hall i).
  - intros He. destruct (Hex He) as [_ Hsum]. assert (status t = (total_bytes t, total_bytes t)) as Est.
    { rewrite (status_sums _ _ Hs Hb), Hsum. f_equal. apply wrap64_small. rewrite Ht. unfold is_u64. lia. }
    unfold is_complete. by rewrite Est, Z.eqb_refl.
Qed.

(** ** A run *)

Module TrackingExamples.

Definition h1 : DataHash := mkDataHash 1 0 0 0.

(** A file of 100 bytes: 30 in a xorb that is known, 70 in a new one of 90 bytes that is uploaded in
    two parts. *)
Definition upload : list Operation :=
  [NewFile 7 (Some 100); NewXorb h1 90;
   Dependencies [mkFileXorbDependency 0 DataHash.default 30 true; mkFileXorbDependency 0 h1 70 false]; XorbProgress h1 45 false].

Definition finished : list Operation := upload ++ [XorbCompletion h1].

Definition final (ops : list Operation) : CompletionTracker := match perform_all new ops with Some t => t | None => new end.

(** The operations have arguments within range. *)
Ltac ops_ok := repeat first [apply Forall_nil_2 | apply Forall_cons_2]; cbn; unfold is_u64; first [exact I | split; [discriminate|reflexivity]].

Lemma tracking_conserves_witness : exists f, files (final upload) !! 0%nat = Some f /\ file_completed_bytes f = 65 /\
  wrap64 (file_completed_bytes f + parts_left f) = 100.
Proof.
  destruct (tracking_conserves upload (final upload)) as [H _]; [vm_compute; reflexivity|ops_ok|reflexivity|].
  destruct (files (final upload) !! 0%nat) as [f|] eqn:E; [|vm_compute in E; discriminate]. exists f. destruct (H 0%nat f E) as [H1 _].
  split; [reflexivity|]. split; [vm_compute in E; injection E as <-; reflexivity|]. rewrite H1. reflexivity.
Defined.

Lemma tracking_completes_witness : assert_complete (final finished) = true.
Proof.
  apply (tracking_completes finished (final finished)); [vm_compute; reflexivity|ops_ok|reflexivity|vm_compute; intuition discriminate| |].
  - intros h e. change (xorbs (final finished)) with ({[h1 := mk_xorb [] 45 90 true]} : gmap DataHash XorbDependency).
    intros [_ <-]%lookup_singleton_Some. reflexivity.
  - intros [|i] f Hf; vm_compute in Hf; [injection Hf as <-; reflexivity|destruct i; discriminate].
Defined.

End TrackingExamples.
