(* ===== verification/ShardProgress.v ===== *)
(** * Progress of shard uploads

    Model of [ShardUploadProgress] in [xet_data/src/progress_tracking/progress_types.rs] and of the events of
    [xet_client/src/cas_types/mod.rs] that drive it.  Events are skipped, repeated or out of order on the
    wire; the counters are to be those of what happened to each shard.  [update] holds the lock of
    the states while it changes the counters, and the other operations are additions, so a run is a
    sequence of operations. *)

From Stdlib Require Import ZArith Lia.
From stdpp Require Import base numbers gmap strings list.
From S2P Require Import Prelude Sums.

#[local] Open Scope Z_scope.

Inductive CommitStage := Uploading | Syncing.

Inductive ShardUploadEvent :=
| Validating (verified total : Z)
| Committing (stage : CommitStage)
| Result
| Error (message : string) (retryable : bool)
| Unknown.

Definition stage_cmp (a b : CommitStage) : comparison :=
  match a, b with Uploading, Syncing => Lt | Syncing, Uploading => Gt | _, _ => Eq end.

(** The order of the pipeline; it is partial. *)
Definition partial_cmp (self other : ShardUploadEvent) : option comparison :=
  match self with
  | Validating _ _ => match other with Validating _ _ => None | Error _ _ | Unknown => None | _ => Some Lt end
  | Committing stage =>
      match other with
      | Validating _ _ => Some Gt
      | Committing other_stage => Some (stage_cmp stage other_stage)
      | Result => Some Lt
      | Error _ _ | Unknown => None
      end
  | Result => match other with Result => Some Eq | Error _ _ | Unknown => None | _ => Some Gt end
  | Error _ _ | Unknown => None
  end.

Definition precede (self other : ShardUploadEvent) : bool := match partial_cmp self other with Some Lt => true | _ => false end.

Record ShardUploadProgress := mk_progress {
  total_shard_bytes : Z;
  total_shard_bytes_upload_completed : Z;
  total_shards : Z;
  total_shard_validation_entries : Z;
  total_shard_validation_entries_completed : Z;
  total_shards_uploaded_to_store : Z;
  total_shards_synced : Z;
  total_shards_completed : Z;
  shard_upload_state : gmap Z ShardUploadEvent;
}.

Definition default : ShardUploadProgress := mk_progress 0 0 0 0 0 0 0 0 ∅.

(** Entries to validate and validated. *)
Definition add_entries (p : ShardUploadProgress) (n completed : Z) : ShardUploadProgress :=
  mk_progress (total_shard_bytes p) (total_shard_bytes_upload_completed p) (total_shards p) (wrap64 (total_shard_validation_entries p + n))
    (wrap64 (total_shard_validation_entries_completed p + completed)) (total_shards_uploaded_to_store p) (total_shards_synced p)
    (total_shards_completed p) (shard_upload_state p).

(** Shards in the store, and shards done. *)
Definition add_shards (p : ShardUploadProgress) (stored completed : Z) : ShardUploadProgress :=
  mk_progress (total_shard_bytes p) (total_shard_bytes_upload_completed p) (total_shards p) (total_shard_validation_entries p)
    (total_shard_validation_entries_completed p) (wrap32 (total_shards_uploaded_to_store p + stored)) (wrap32 (total_shards_synced p + completed))
    (wrap32 (total_shards_completed p + completed)) (shard_upload_state p).

Definition set_state (p : ShardUploadProgress) (id : Z) (e : ShardUploadEvent) : ShardUploadProgress :=
  mk_progress (total_shard_bytes p) (total_shard_bytes_upload_completed p) (total_shards p) (total_shard_validation_entries p)
    (total_shard_validation_entries_completed p) (total_shards_uploaded_to_store p) (total_shards_synced p) (total_shards_completed p)
    (<[id := e]> (shard_upload_state p)).

(** [id] is the new [UniqueId]. *)
Definition register_shard_transfer (p : ShardUploadProgress) (id shard_size : Z) : ShardUploadProgress :=
  let p := set_state p id (Validating 0 0) in
  mk_progress (wrap64 (total_shard_bytes p + shard_size)) (total_shard_bytes_upload_completed p) (wrap32 (total_shards p + 1))
    (total_shard_validation_entries p) (total_shard_validation_entries_completed p) (total_shards_uploaded_to_store p) (total_shards_synced p)
    (total_shards_completed p) (shard_upload_state p).

(** [increment_shard_transfer_progress], and [decrement_shard_transfer_progress] for a negative
    number. *)
Definition shard_transfer_progress (p : ShardUploadProgress) (nbytes : Z) : ShardUploadProgress :=
  mk_progress (total_shard_bytes p) (wrap64 (total_shard_bytes_upload_completed p + nbytes)) (total_shards p) (total_shard_validation_entries p)
    (total_shard_validation_entries_completed p) (total_shards_uploaded_to_store p) (total_shards_synced p) (total_shards_completed p)
    (shard_upload_state p).

Definition credit_validating_progress (p : ShardUploadProgress) (id : Z) (maybe_old : option ShardUploadEvent) (verified total : Z) : ShardUploadProgress :=
  match maybe_old with
  | Some (Validating old_verified old_total) =>
      let verified_increment := Z.max 0 (verified - old_verified) in
      let total_increment := Z.max 0 (total - old_total) in
      add_entries (set_state p id (Validating (old_verified + verified_increment) (old_total + total_increment))) total_increment verified_increment
  | _ => p
  end.

Definition credit_skipped_validation (p : ShardUploadProgress) (maybe_old : option ShardUploadEvent) : ShardUploadProgress :=
  match maybe_old with
  | Some (Validating old_verified old_total) => add_entries p 0 (Z.max 0 (old_total - old_verified))
  | _ => p
  end.

Definition reached_store_stage (e : ShardUploadEvent) : bool := match e with Committing Syncing | Result => true | _ => false end.

Definition credit_skipped_store_stage (p : ShardUploadProgress) (maybe_old : option ShardUploadEvent) (event : ShardUploadEvent) : ShardUploadProgress :=
  let already_counted := match maybe_old with Some old => reached_store_stage old | None => false end in
  if reached_store_stage event && negb already_counted then add_shards p 1 0 else p.

Definition update (p : ShardUploadProgress) (id : Z) (event : ShardUploadEvent) : ShardUploadProgress :=
  let maybe_old := shard_upload_state p !! id in
  match event with
  | Validating verified total => credit_validating_progress p id maybe_old verified total
  | Error _ _ | Unknown => p
  | _ =>
      let p := credit_skipped_validation p maybe_old in
      let p := credit_skipped_store_stage p maybe_old event in
      if match maybe_old with Some old => precede old event | None => true end then
        let p := set_state p id event in
        match event with Result => add_shards p 0 1 | _ => p end
      else p
  end.

(** ** What happened to each shard *)

(** The most entries validated and to validate that were announced while the shard was being
    validated, and the furthest milestone: 1 for uploading, 2 for syncing, 3 for the result. *)
Record shard_view := mk_view { v_verified : Z; v_total : Z; v_stage : nat }.

Definition milestone (e : ShardUploadEvent) : nat :=
  match e with Committing Uploading => 1 | Committing Syncing => 2 | Result => 3 | _ => 0 end.

Definition view_event (e : ShardUploadEvent) (v : shard_view) : shard_view :=
  match e with
  | Validating verified total =>
      if (v_stage v =? 0)%nat then mk_view (Z.max (v_verified v) verified) (Z.max (v_total v) total) (v_stage v) else v
  | _ => mk_view (v_verified v) (v_total v) (v_stage v `max` milestone e)
  end.

(** The entries that count as validated: all of them from the first milestone on. *)
Definition v_credit (v : shard_view) : Z := if (v_stage v =? 0)%nat then v_verified v else Z.max (v_verified v) (v_total v).
Definition v_stored (v : shard_view) : Z := if (2 <=? v_stage v)%nat then 1 else 0.
Definition v_done (v : shard_view) : Z := if (3 <=? v_stage v)%nat then 1 else 0.

(** The state that [update] keeps for it. *)
Definition v_state (v : shard_view) : ShardUploadEvent :=
  match v_stage v with
  | 0%nat => Validating (v_verified v) (v_total v)
  | 1%nat => Committing Uploading
  | 2%nat => Committing Syncing
  | _ => Result
  end.

(** ** Runs *)

Inductive ShardOp := RegisterShard (id size : Z) | Transferred (nbytes : Z) | Event (id : Z) (event : ShardUploadEvent).

Definition perform (p : ShardUploadProgress) (op : ShardOp) : ShardUploadProgress :=
  match op with
  | RegisterShard id size => register_shard_transfer p id size
  | Transferred nbytes => shard_transfer_progress p nbytes
  | Event id event => update p id event
  end.

Definition observe (m : gmap Z shard_view) (op : ShardOp) : gmap Z shard_view :=
  match op with
  | RegisterShard id _ => <[id := mk_view 0 0 0]> m
  | Transferred _ => m
  | Event id event => alter (view_event event) id m
  end.

(** Identifiers are unique, and events are for shards that are registered. *)
Fixpoint tracked (m : gmap Z shard_view) (ops : list ShardOp) : Prop :=
  match ops with
  | [] => True
  | op :: ops' =>
      match op with
      | RegisterShard id _ => m !! id = None
      | Transferred _ => True
      | Event id _ => is_Some (m !! id)
      end /\ tracked (observe m op) ops'
  end.

(** The counters are those of the shards. *)
Record agrees (m : gmap Z shard_view) (p : ShardUploadProgress) : Prop := {
  agrees_state : shard_upload_state p = v_state <$> m;
  agrees_stage : forall id v, m !! id = Some v -> (v_stage v <= 3)%nat;
  agrees_shards : total_shards p = wrap32 (map_sum (fun _ => 1) m);
  agrees_entries : total_shard_validation_entries p = wrap64 (map_sum v_total m) /\ total_shard_validation_entries_completed p = wrap64 (map_sum v_credit m);
  agrees_stored : total_shards_uploaded_to_store p = wrap32 (map_sum v_stored m);
  agrees_done : total_shards_synced p = wrap32 (map_sum v_done m) /\ total_shards_completed p = wrap32 (map_sum v_done m);
}.

#[local] Ltac Zify.zify_post_hook ::= Z.to_euclidean_division_equations.

Lemma map_sum_alter (f : shard_view -> Z) g (m : gmap Z shard_view) id v : m !! id = Some v -> map_sum f (alter g id m) = map_sum f m - f v + f (g v).
Proof.
  intros Hm. rewrite (map_sum_delete f m id v Hm). rewrite (map_sum_delete f (alter g id m) id (g v)) by (rewrite lookup_alter_eq, Hm; done).
  rewrite delete_alter_eq. lia.
Qed.

(** The counters and the state of one shard move together. *)
Lemma agrees_event m p id v event p' :
  agrees m p -> m !! id = Some v -> let v' := view_event event v in
  (v_stage v' <= 3)%nat -> shard_upload_state p' = <[id := v_state v']> (shard_upload_state p) -> total_shards p' = total_shards p ->
  wrap64 (total_shard_validation_entries p' - total_shard_validation_entries p) = wrap64 (v_total v' - v_total v) -> is_u64 (total_shard_validation_entries p') ->
  wrap64 (total_shard_validation_entries_completed p' - total_shard_validation_entries_completed p) = wrap64 (v_credit v' - v_credit v) ->
  is_u64 (total_shard_validation_entries_completed p') ->
  total_shards_uploaded_to_store p' = wrap32 (total_shards_uploaded_to_store p + (v_stored v' - v_stored v)) ->
  total_shards_synced p' = wrap32 (total_shards_synced p + (v_done v' - v_done v)) ->
  total_shards_completed p' = wrap32 (total_shards_completed p + (v_done v' - v_done v)) ->
  agrees (alter (view_event event) id m) p'.
Proof.
  intros [Hst Hle Hsh [He Hc] Hsto [Hsy Hd]] Hm. cbn zeta. intros Hv Es Et E1 U1 E2 U2 E3 E4 E5. split.
  - rewrite Es, Hst. apply map_eq. intros j. rewrite lookup_fmap. destruct (decide (j = id)) as [->|Hj].
    + by rewrite lookup_insert_eq, lookup_alter_eq, Hm.
    + by rewrite lookup_insert_ne, lookup_alter_ne, lookup_fmap.
  - intros j w [(<- & w' & Hw & ->)|[Hj Hw]]%lookup_alter_Some; [congruence|by eapply Hle].
  - rewrite Et, Hsh, (map_sum_alter _ _ _ _ _ Hm). f_equal. lia.
  - rewrite !(map_sum_alter _ _ _ _ _ Hm). rewrite He in E1. rewrite Hc in E2. clear - E1 U1 E2 U2. split; wrap_lia.
  - rewrite (map_sum_alter _ _ _ _ _ Hm), E3, Hsto. clear. wrap_lia.
  - rewrite !(map_sum_alter _ _ _ _ _ Hm), E4, E5, Hsy, Hd. clear. split; wrap_lia.
Qed.

Lemma agrees_words m p :
  agrees m p -> is_u64 (total_shard_validation_entries p) /\ is_u64 (total_shard_validation_entries_completed p) /\
  is_u32 (total_shards_uploaded_to_store p) /\ is_u32 (total_shards_synced p) /\ is_u32 (total_shards_completed p).
Proof. intros [_ _ _ [-> ->] -> [-> ->]]. split_and!; apply wrap64_is_u64 || apply wrap32_is_u32. Qed.

(** An event of a registered shard. *)
Lemma update_agrees m p id v event : agrees m p -> m !! id = Some v -> agrees (alter (view_event event) id m) (update p id event).
Proof.
  intros Ha Hm. destruct (agrees_words m p Ha) as (U1 & U2 & W1 & W2 & W3). pose proof (agrees_stage _ _ Ha id v Hm) as Hv.
  assert (shard_upload_state p !! id = Some (v_state v)) as Hs by (by rewrite (agrees_state _ _ Ha), lookup_fmap, Hm).
  destruct v as [V T st]. cbn in Hv, Hs. eapply agrees_event; [exact Ha|exact Hm|..].
  all: destruct st as [|[|[|[|st]]]]; [..|lia]; cbn in Hs.
  all: destruct event as [verified total|[]| |msg retry|]; cbn [view_event v_stage v_verified v_total Nat.eqb milestone Nat.max].
  all: unfold update; rewrite ?Hs; cbn; rewrite ?insert_id by done; try done; try lia.
  all: try (unfold wrap64, wrap32, is_u64, is_u32 in *; lia).
  f_equal. f_equal; lia.
Qed.

Lemma register_agrees m p id size : agrees m p -> m !! id = None -> agrees (<[id := mk_view 0 0 0]> m) (register_shard_transfer p id size).
Proof.
  intros [Hst Hle Hsh [He Hc] Hsto [Hsy Hd]] Hm. split; cbn; rewrite ?map_sum_fresh by done; try done.
  - rewrite Hst. by rewrite fmap_insert.
  - intros j v [[_ <-]|[_ Hj]]%lookup_insert_Some; [cbn; lia|by eapply Hle].
  - rewrite Hsh. clear. wrap_lia.
Qed.

Lemma run_agrees ops m p : agrees m p -> tracked m ops -> agrees (fold_left observe ops m) (fold_left perform ops p).
Proof.
  revert m p. induction ops as [|op ops IH]; intros m p Ha Ht; [done|]. destruct Ht as [Hop Ht]. cbn [fold_left]. apply IH; [|done].
  destruct op as [id size|n|id e]; cbn.
  - by apply register_agrees.
  - by destruct Ha.
  - destruct Hop as [v Hv]. by apply (update_agrees m p id v e).
Qed.

Lemma default_agrees : agrees ∅ default.
Proof. split; cbn; rewrite ?map_sum_empty, ?fmap_empty; try done. Qed.

(** C36: The counters of shard uploads are those of what happened to the shards, whatever events are
    skipped, repeated or out of order.  A shard is counted once as stored, from the first of syncing
    and the result, and once as done; its entries to validate are the most announced while it was
    validated, and from its first milestone on they count as validated.  When every shard has its
    result, all registered shards are stored and done. *)
Theorem shard_progress_refines ops :
  tracked ∅ ops ->
  let m := fold_left observe ops ∅ in
  let p := fold_left perform ops default in
  agrees m p /\
  ((forall id v, m !! id = Some v -> v_stage v = 3%nat) -> total_shards_completed p = total_shards p /\ total_shards_uploaded_to_store p = total_shards p).
Proof.
  intros Ht. cbn zeta. pose proof (run_agrees ops ∅ default default_agrees Ht) as Ha. split; [done|]. intros Hall.
  destruct Ha as [_ _ -> _ -> [_ ->]].
  split; f_equal; apply map_sum_ext; intros id v Hv; unfold v_done, v_stored; by rewrite (Hall id v Hv).
Qed.

Module ShardProgressExamples.

(** The syncing frame of the first shard is skipped, and frames of both come late or twice. *)
Definition frames : list ShardOp :=
  [RegisterShard 1 100; RegisterShard 2 50; Transferred 150; Event 1 (Validating 3 10); Event 2 (Validating 4 4); Event 1 (Validating 1 10);
   Event 1 (Committing Uploading); Event 2 (Committing Syncing); Event 1 Result; Event 1 (Committing Syncing); Event 2 (Committing Uploading);
   Event 2 Result; Event 2 Result; Event 1 (Validating 9 9)].

Lemma shard_progress_refines_witness :
  let p := fold_left perform frames default in
  total_shards_completed p = 2 /\ total_shards_uploaded_to_store p = 2 /\ total_shard_validation_entries_completed p = 14.
Proof.
  cbn zeta. destruct (shard_progress_refines frames) as [_ H]; [repeat split; vm_compute; by eauto|].
  destruct H as [-> ->]; [|vm_compute; done].
  intros id v. change (fold_left observe frames ∅) with ({[1 := mk_view 3 10 3; 2 := mk_view 4 4 3]} : gmap Z shard_view).
  intros [[_ <-]|[_ [_ <-]%lookup_singleton_Some]]%lookup_insert_Some; done.
Defined.

End ShardProgressExamples.
