(* ===== verification/CasTypes.v ===== *)
(** * Types of the CAS interface

    Model of the ranges and of the reconstruction responses of
    [xet_client/src/cas_types/mod.rs]: file and chunk ranges, which exclude their end, HTTP ranges,
    which include it, the text of a range, and the two versions of the response to a
    reconstruction query.  A range of [u64] or [u32] has its bounds in [Z]; arithmetic on them wraps
    at 64 bits. *)

From coqutil Require Import Byte.
From stdpp Require Import base numbers gmap list.
From S2P Require Import Prelude DataHash AggregatedHash.

#[local] Open Scope Z_scope.

(** ** Ranges *)

(** [Range<u64, _F>] *)
Module FileRange.

Record t := new { start : Z; end_ : Z }.

Definition full : t := new 0 (2 ^ 64 - 1).

Definition length (r : t) : Z := wrap64 (end_ r - start r).

(** A segment of at most the size given, and what remains. *)
Definition take_segment (r : t) (segment_size : Z) : t * option t :=
  let segment := new (start r) (Z.min (end_ r) (wrap64 (start r + segment_size))) in
  let remainder := if end_ segment =? end_ r then None else Some (new (end_ segment) (end_ r)) in
  (segment, remainder).

End FileRange.

(** [Range<u64, _H>] *)
Module HttpRange.

Record t := new { start : Z; end_ : Z }.

Definition length (r : t) : Z := wrap64 (wrap64 (end_ r - start r) + 1).

End HttpRange.

(** [Range<u32, _C>] *)
Module ChunkRange.

Record t := new { start : Z; end_ : Z }.

End ChunkRange.

#[export] Instance file_range_eq_dec : EqDecision FileRange.t.
Proof. solve_decision. Defined.
#[export] Instance http_range_eq_dec : EqDecision HttpRange.t.
Proof. solve_decision. Defined.
#[export] Instance chunk_range_eq_dec : EqDecision ChunkRange.t.
Proof. solve_decision. Defined.

(** [impl From<HttpRange> for FileRange] *)
Definition file_range_of_http (value : HttpRange.t) : FileRange.t :=
  FileRange.new (HttpRange.start value) (wrap64 (HttpRange.end_ value + 1)).

(** [impl From<FileRange> for HttpRange] *)
Definition http_range_of_file (value : FileRange.t) : HttpRange.t :=
  HttpRange.new (FileRange.start value) (wrap64 (FileRange.end_ value - 1)).

(** *** Their text *)

(** The text before and after the first [sep]. *)
Fixpoint split_once (sep : byte) (s : list byte) : option (list byte * list byte) :=
  match s with
  | [] => None
  | b :: s' =>
      if decide (b = sep) then Some ([], s')
      else '(before, after) ← split_once sep s'; Some (b :: before, after)
  end.

Fixpoint parse_digits (max acc : Z) (s : list byte) : option Z :=
  match s with
  | [] => Some acc
  | b :: s' =>
      if (48 <=? u8 b) && (u8 b <=? 57) then
        let acc := acc * 10 + (u8 b - 48) in
        if acc <=? max then parse_digits max acc s' else None
      else None
  end.

(** [parse::<Idx>()], for the unsigned type whose largest value is [max]. *)
Definition parse_uint (max : Z) (s : list byte) : option Z :=
  match s with
  | [] => None
  | Byte.x2b :: [] => None
  | Byte.x2b :: s' => parse_digits max 0 s'
  | _ => parse_digits max 0 s
  end.

(** [impl Display for Range] *)
Definition range_text (start end_ : Z) : list byte := write_decimal_u64 start ++ [Byte.x2d] ++ write_decimal_u64 end_.

Inductive RangeParseError := InvalidFormat | ParseError.

(** [impl TryFrom<&str> for Range] *)
Definition range_try_from (max : Z) (value : list byte) : result RangeParseError (Z * Z) :=
  match split_once Byte.x2d value with
  | None => Err InvalidFormat
  | Some (start, end_) =>
      start ← result_of_option ParseError (parse_uint max start);
      end_ ← result_of_option ParseError (parse_uint max end_);
      Ok (start, end_)
  end.

Lemma split_once_app sep before after : Forall (fun b => b <> sep) before -> split_once sep (before ++ sep :: after) = Some (before, after).
Proof.
  induction 1 as [|b s Hb _ IH]; cbn [app split_once]; [by rewrite decide_True|].
  rewrite decide_False by done. by rewrite IH.
Qed.

Lemma split_once_none sep s : Forall (fun b => b <> sep) s -> split_once sep s = None.
Proof. induction 1 as [|b s Hb _ IH]; cbn [split_once]; [done|]. rewrite decide_False by done. by rewrite IH. Qed.

Lemma digits_grow s acc :
  0 <= acc -> Forall is_decimal_digit s -> acc <= fold_left (fun a b => a * 10 + (u8 b - 48)) s acc.
Proof.
  intros Ha Hs. revert acc Ha. induction Hs as [|b s Hb _ IH]; intros acc Ha; cbn [fold_left]; [lia|].
  unfold is_decimal_digit in Hb. etrans; [|apply IH]; lia.
Qed.

Lemma parse_digits_spec max acc s :
  0 <= acc -> Forall is_decimal_digit s -> fold_left (fun a b => a * 10 + (u8 b - 48)) s acc <= max ->
  parse_digits max acc s = Some (fold_left (fun a b => a * 10 + (u8 b - 48)) s acc).
Proof.
  intros Ha Hs. revert acc Ha. induction Hs as [|b s Hb Hs IH]; intros acc Ha Hm; cbn [fold_left parse_digits] in *; [done|].
  unfold is_decimal_digit in Hb. rewrite !(proj2 (Z.leb_le _ _)) by lia. cbn [andb].
  assert (acc * 10 + (u8 b - 48) <= max) by (etrans; [apply digits_grow|exact Hm]; done || lia).
  rewrite (proj2 (Z.leb_le _ _)) by done. apply IH; [lia|done].
Qed.

Lemma parse_decimal max v : 0 <= v <= max -> max < 2 ^ 64 -> parse_uint max (write_decimal_u64 v) = Some v.
Proof.
  intros Hv Hm. destruct (write_decimal_u64_spec v) as (_ & Hd & E); [unfold is_u64; lia|].
  assert (parse_digits max 0 (write_decimal_u64 v) = Some v) as Hp.
  { rewrite <- E at 2. apply parse_digits_spec; [lia|done|]. change (decimal_value (write_decimal_u64 v) <= max). lia. }
  unfold parse_uint. destruct (write_decimal_u64 v) as [|b s] eqn:Ew.
  - exfalso. cbn in E. subst v. vm_compute in Ew. discriminate.
  - apply Forall_cons in Hd as [Hb _]. destruct b; try done; exfalso; destruct Hb as [Hb1 Hb2]; vm_compute in Hb1; contradiction.
Qed.

Lemma digits_not b s : Forall is_decimal_digit s -> ~ is_decimal_digit b -> Forall (fun x => x <> b) s.
Proof. intros Hs Hb. eapply Forall_impl; [exact Hs|]. intros x Hx ->. done. Qed.

Lemma decimal_not v b : is_u64 v -> ~ is_decimal_digit b -> Forall (fun x => x <> b) (write_decimal_u64 v).
Proof. intros Hv. apply digits_not. by destruct (write_decimal_u64_spec v Hv) as (_ & ? & _). Qed.

(** The text of a range is read back as the range. *)
Lemma range_text_roundtrip max a b :
  0 <= a <= max -> 0 <= b <= max -> max < 2 ^ 64 -> range_try_from max (range_text a b) = Ok (a, b).
Proof.
  intros Ha Hb Hm. unfold range_try_from, range_text. cbn [app].
  rewrite split_once_app by (apply decimal_not; [unfold is_u64; lia|]; intros [H1 H2]; vm_compute in H1; contradiction).
  by rewrite !parse_decimal by lia.
Qed.

(** Both conversions keep the bytes that a range stands for. *)
Lemma http_file_roundtrip r :
  0 <= FileRange.start r -> FileRange.start r < FileRange.end_ r < 2 ^ 64 ->
  file_range_of_http (http_range_of_file r) = r /\ HttpRange.length (http_range_of_file r) = FileRange.length r.
Proof.
  destruct r as [s e]. cbn. intros Hs He. unfold file_range_of_http, http_range_of_file, HttpRange.length, FileRange.length. cbn.
  rewrite (wrap64_small (e - 1)) by (unfold is_u64; lia). split; [f_equal; rewrite wrap64_small; unfold is_u64; lia|].
  rewrite wrap64_l. f_equal. lia.
Qed.

(** The segments that [take_segment] cuts off a range cover it. *)
Lemma take_segment_spec r n :
  0 < n -> FileRange.start r < FileRange.end_ r -> 0 <= FileRange.start r -> FileRange.start r + n < 2 ^ 64 ->
  let '(segment, remainder) := FileRange.take_segment r n in
  FileRange.start segment = FileRange.start r /\ FileRange.start segment < FileRange.end_ segment <= FileRange.start r + n /\
  match remainder with
  | None => FileRange.end_ segment = FileRange.end_ r
  | Some rest => FileRange.end_ segment = FileRange.start r + n /\ FileRange.start rest = FileRange.end_ segment /\
                 FileRange.end_ rest = FileRange.end_ r /\ FileRange.start rest < FileRange.end_ rest
  end.
Proof.
  destruct r as [s e]. cbn -[Z.pow]. intros Hn Hse Hs Hf. unfold FileRange.take_segment. cbn -[Z.pow].
  rewrite wrap64_small by (unfold is_u64; lia).
  destruct (Z.eqb_spec (Z.min e (s + n)) e); cbn; lia.
Qed.

(** ** Reconstruction queries *)

Module XorbReconstructionTerm.

Record t := mk { hash : DataHash; unpacked_length : Z; range : ChunkRange.t }.

End XorbReconstructionTerm.

Module XorbReconstructionFetchInfo.

Record t := mk { range : ChunkRange.t; url : list byte; url_range : HttpRange.t }.

End XorbReconstructionFetchInfo.

Module XorbRangeDescriptor.

Record t := mk { chunks : ChunkRange.t; bytes : HttpRange.t }.

End XorbRangeDescriptor.

Module XorbMultiRangeFetch.

Record t := mk { url : list byte; ranges : list XorbRangeDescriptor.t }.

End XorbMultiRangeFetch.

Module QueryReconstructionResponse.

Record t := mk {
  offset_into_first_range : Z;
  terms : list XorbReconstructionTerm.t;
  fetch_info : gmap DataHash (list XorbReconstructionFetchInfo.t);
}.

End QueryReconstructionResponse.

Module QueryReconstructionResponseV2.

Record t := mk {
  offset_into_first_range : Z;
  terms : list XorbReconstructionTerm.t;
  xorbs : gmap DataHash (list XorbMultiRangeFetch.t);
}.

Definition fetch_of_info (info : XorbReconstructionFetchInfo.t) : XorbMultiRangeFetch.t :=
  XorbMultiRangeFetch.mk (XorbReconstructionFetchInfo.url info)
    [XorbRangeDescriptor.mk (XorbReconstructionFetchInfo.range info) (XorbReconstructionFetchInfo.url_range info)].

(** [impl From<QueryReconstructionResponse>] *)
Definition from_v1 (v1 : QueryReconstructionResponse.t) : t :=
  mk (QueryReconstructionResponse.offset_into_first_range v1) (QueryReconstructionResponse.terms v1)
    (fmap (M := gmap DataHash) (fmap (M := list) fetch_of_info) (QueryReconstructionResponse.fetch_info v1)).

End QueryReconstructionResponseV2.
