(* ===== verification/ChunkWindows.v ===== *)
(** * The windows of an edited file

    Model of [xet_client/src/cas_client/chunk_window_builder.rs]: given the byte ranges of a file
    that a client is about to change, the builder walks over the chunks of the file and answers
    with the chunk-aligned windows that have to be uploaded again and with a Merkle subtree of
    each gap between them; the response also carries the verification hashes of the segments
    outside the windows.

    A chunk is a pair of its hash and its size.  The [expect] of an open window is [None]; the
    slice of dirty ranges is a list.  The proofs follow the walk with the list of pieces, each a
    gap and the window after it, that the chunks read so far are made of. *)

From coqutil Require Import Byte Word.LittleEndianList.
From stdpp Require Import base numbers list.
From S2P Require Import Prelude Sums DataHash AggregatedHash MerkleSubtree Chunking FileStructs XorbStructs RawXorb Defrag Dedup CasTypes.

#[local] Open Scope Z_scope.

#[local] Arguments nodes_size : simpl never.

(** ** The builder *)

Module ChunkWindowBuilder.

Record t := mk {
  dirty_ranges : list FileRange.t;
  dirty_idx : nat;
  in_dirty_zone : bool;
  gap_is_first : bool;
  cursor : Z;
  gap_chunks : list Node;
  windows : list FileRange.t;
  hash_ranges : list (option MerkleHashSubtree);
  tail_prev_size : option Z;
}.

Definition new (dirty_ranges : list FileRange.t) : t := mk dirty_ranges 0 false true 0 [] [] [] None.

Definition with_dirty_idx (b : t) (i : nat) : t :=
  mk (dirty_ranges b) i (in_dirty_zone b) (gap_is_first b) (cursor b) (gap_chunks b) (windows b) (hash_ranges b) (tail_prev_size b).
Definition with_zone (b : t) (zone first : bool) : t :=
  mk (dirty_ranges b) (dirty_idx b) zone first (cursor b) (gap_chunks b) (windows b) (hash_ranges b) (tail_prev_size b).
Definition with_cursor (b : t) (c : Z) : t :=
  mk (dirty_ranges b) (dirty_idx b) (in_dirty_zone b) (gap_is_first b) c (gap_chunks b) (windows b) (hash_ranges b) (tail_prev_size b).
Definition with_gap_chunks (b : t) (l : list Node) : t :=
  mk (dirty_ranges b) (dirty_idx b) (in_dirty_zone b) (gap_is_first b) (cursor b) l (windows b) (hash_ranges b) (tail_prev_size b).
Definition with_windows (b : t) (l : list FileRange.t) : t :=
  mk (dirty_ranges b) (dirty_idx b) (in_dirty_zone b) (gap_is_first b) (cursor b) (gap_chunks b) l (hash_ranges b) (tail_prev_size b).
Definition with_hash_ranges (b : t) (l : list (option MerkleHashSubtree)) : t :=
  mk (dirty_ranges b) (dirty_idx b) (in_dirty_zone b) (gap_is_first b) (cursor b) (gap_chunks b) (windows b) l (tail_prev_size b).
Definition with_tail (b : t) (size : option Z) : t :=
  mk (dirty_ranges b) (dirty_idx b) (in_dirty_zone b) (gap_is_first b) (cursor b) (gap_chunks b) (windows b) (hash_ranges b) size.

Definition to_option (hr : MerkleHashSubtree) : option MerkleHashSubtree := if is_empty hr then None else Some hr.

Definition overlaps_dirty_at (b : t) (idx : nat) (byte_start byte_end : Z) : bool :=
  match dirty_ranges b !! idx with
  | Some r => (FileRange.start r <? byte_end) && (byte_start <? FileRange.end_ r)
  | None => false
  end.

(** [while self.dirty_idx + 1 < self.dirty_ranges.len() && ..]; each round moves to a later
    range, so there are fewer rounds than ranges. *)
Fixpoint merge_ahead_loop (fuel : nat) (ranges : list FileRange.t) (idx : nat) (byte_end : Z) : nat :=
  match fuel with
  | O => idx
  | S fuel' =>
      match ranges !! S idx with
      | Some r => if FileRange.start r <? byte_end then merge_ahead_loop fuel' ranges (S idx) byte_end else idx
      | None => idx
      end
  end.

Definition merge_ahead (b : t) (byte_end : Z) : t :=
  with_dirty_idx b (merge_ahead_loop (length (dirty_ranges b)) (dirty_ranges b) (dirty_idx b) byte_end).

(** [None] when no window has been opened. *)
Definition extend_open_window (b : t) (byte_end : Z) : option t :=
  w ← last (windows b);
  Some (with_windows b (update_last (fun w => FileRange.new (FileRange.start w) byte_end) (windows b))).

Definition entry_fully_dirty (b : t) (byte_end : Z) : bool :=
  match dirty_ranges b !! dirty_idx b with
  | Some r => (FileRange.start r <=? cursor b) && (byte_end <=? FileRange.end_ r)
  | None => false
  end.

Section Operations.
  Context `{B3 : Blake3} `{CC : ChunkConstants}.

Definition open_window (b : t) (byte_end : Z) : t :=
    let gap := from_chunks (gap_is_first b) (gap_chunks b) false in
    let b := with_hash_ranges b (hash_ranges b ++ [to_option gap]) in
    let b := with_gap_chunks b [] in
    let b := with_windows b (windows b ++ [FileRange.new (cursor b) byte_end]) in
    merge_ahead b byte_end.

Definition stable_size (size : Z) : bool := is_stable_chunk_size (Z.to_nat size).

Definition process_chunk (b : t) (hash : DataHash) (size byte_end : Z) : option t :=
    let byte_start := cursor b in
    let overlaps_dirty := overlaps_dirty_at b (dirty_idx b) byte_start byte_end in
    b ←
      (if negb (in_dirty_zone b) then
         if overlaps_dirty then
           let b := open_window b byte_end in
           Some (with_tail (with_zone b true (gap_is_first b)) None)
         else Some (with_gap_chunks b (gap_chunks b ++ [(hash, size)]))
       else if overlaps_dirty || overlaps_dirty_at b (dirty_idx b + 1) byte_start byte_end then
         let b := if negb overlaps_dirty then with_dirty_idx b (dirty_idx b + 1) else b in
         b ← extend_open_window b byte_end;
         Some (with_tail (merge_ahead b byte_end) None)
       else
         b ← extend_open_window b byte_end;
         let stable := match tail_prev_size b with
                       | Some prev => stable_size prev && stable_size size
                       | None => false
                       end in
         let b := with_tail b (Some size) in
         Some (if stable then with_tail (with_zone (with_dirty_idx b (dirty_idx b + 1)) false false) None else b));
    Some (with_cursor b byte_end).

Definition skip_dirty_entry (b : t) (byte_end : Z) : option t :=
    b ←
      (if negb (in_dirty_zone b) then
         let b := open_window b byte_end in Some (with_zone b true (gap_is_first b))
       else
         b ← extend_open_window b byte_end;
         Some (merge_ahead b byte_end));
    Some (with_cursor (with_tail b None) byte_end).

Definition finish (b : t) : list FileRange.t * list (option MerkleHashSubtree) :=
    let trailing := from_chunks (gap_is_first b) (gap_chunks b) true in
    (windows b, hash_ranges b ++ [to_option trailing]).

(** [for (hash, size) in chunks] *)
Fixpoint process_chunks (b : t) (cumulative_bytes : Z) (chunks : list Node) : option (t * Z) :=
    match chunks with
    | [] => Some (b, cumulative_bytes)
    | (hash, size) :: chunks' =>
        let cumulative_bytes := wrap64 (cumulative_bytes + size) in
        b ← process_chunk b hash size cumulative_bytes;
        process_chunks b cumulative_bytes chunks'
    end.

End Operations.

End ChunkWindowBuilder.

(** ** The response *)

Record FileChunkHashesResponse := mkFileChunkHashesResponse {
  total_chunks : Z;
  response_file_size : Z;
  response_windows : list FileRange.t;
  response_hash_ranges : list (option MerkleHashSubtree);
  gap_verification : list DataHash;
}.

(** The messages of [ClientError::Other]. *)
Inductive ChunkHashesError :=
  | NoValidDirtyRanges
  | NoOverlap
  | VerificationMismatch (n_verification n_segments : nat).

(** [while wi < windows.len() && windows[wi].end <= seg_start]; the windows from [wi] on. *)
Fixpoint skip_passed (seg_start : Z) (ws : list FileRange.t) : list FileRange.t :=
  match ws with
  | w :: ws' => if FileRange.end_ w <=? seg_start then skip_passed seg_start ws' else ws
  | [] => []
  end.

(** [for (idx, seg) in file_info.segments.iter().enumerate()] *)
Fixpoint gap_verification_loop (segments : list (Segment * FileVerificationEntry.t)) (acc : Z) (ws : list FileRange.t) : list DataHash :=
  match segments with
  | [] => []
  | (seg, ver) :: segments' =>
      let seg_start := acc in
      let seg_end := wrap64 (acc + FileDataSequenceEntry.unpacked_segment_bytes seg) in
      let ws := skip_passed seg_start ws in
      let overlaps := match ws with w :: _ => FileRange.start w <? seg_end | [] => false end in
      (if overlaps then [] else [FileVerificationEntry.range_hash ver]) ++ gap_verification_loop segments' seg_end ws
  end.

Definition clamp_ranges (file_size : Z) (dirty_ranges : list FileRange.t) : list FileRange.t :=
  filter (fun r => (FileRange.start r <? FileRange.end_ r) && (FileRange.start r <? file_size))
    ((fun r => FileRange.new (FileRange.start r) (FileRange.end_ r `min` file_size)) <$> dirty_ranges).

Section Response.
  Context `{B3 : Blake3} `{CC : ChunkConstants}.

(** [None] when the code panics. *)
Definition build_file_chunk_hashes_response (file_info : MDBFileInfo.t) (dirty_ranges : list FileRange.t) (chunks : list Node) :
    option (result ChunkHashesError FileChunkHashesResponse) :=
    let file_size := MDBFileInfo.file_size file_info in
    let dirty_ranges := clamp_ranges file_size dirty_ranges in
    match dirty_ranges with
    | [] => Some (Err NoValidDirtyRanges)
    | _ =>
        let total_chunks := Z.of_nat (length chunks) in
        '(builder, _) ← ChunkWindowBuilder.process_chunks (ChunkWindowBuilder.new dirty_ranges) 0 chunks;
        let '(windows, hash_ranges) := ChunkWindowBuilder.finish builder in
        match windows with
        | [] => Some (Err NoOverlap)
        | _ =>
            let n_verification := length (MDBFileInfo.verification file_info) in
            let n_segments := length (MDBFileInfo.segments file_info) in
            if (n_verification =? 0)%nat then Some (Ok (mkFileChunkHashesResponse total_chunks file_size windows hash_ranges []))
            else if (n_verification =? n_segments)%nat then
              let gv := gap_verification_loop (zip (MDBFileInfo.segments file_info) (MDBFileInfo.verification file_info)) 0 windows in
              Some (Ok (mkFileChunkHashesResponse total_chunks file_size windows hash_ranges gv))
            else Some (Err (VerificationMismatch n_verification n_segments))
        end
    end.

End Response.

(** ** The pieces of a file *)

(** A gap, which starts at [p_start], and the window after it. *)
Record Piece := mkPiece { p_start : Z; p_gap : list Node; p_window : list Node }.

Definition p_from (p : Piece) : Z := p_start p + nodes_size (p_gap p).
Definition p_end (p : Piece) : Z := p_from p + nodes_size (p_window p).
Definition p_range (p : Piece) : FileRange.t := FileRange.new (p_from p) (p_end p).

Definition pieces_chunks (ps : list Piece) : list Node := concat ((fun p => p_gap p ++ p_window p) <$> ps).

(** The pieces follow each other from [pos] to [e]. *)
Fixpoint chained (pos : Z) (ps : list Piece) (e : Z) : Prop :=
  match ps with
  | [] => pos = e
  | p :: ps' => p_start p = pos /\ chained (p_end p) ps' e
  end.

(** No dirty range meets [[a, b)]. *)
Definition untouched (rs : list FileRange.t) (a b : Z) : Prop :=
  Forall (fun r => FileRange.end_ r <= a \/ b <= FileRange.start r) rs.

(** A dirty range is inside one window. *)
Definition covered (ps : list Piece) (r : FileRange.t) : Prop :=
  exists p, p ∈ ps /\ p_from p <= FileRange.start r /\ FileRange.end_ r <= p_end p.

Definition ranges_sorted (rs : list FileRange.t) : Prop :=
  forall i r r', rs !! i = Some r -> rs !! S i = Some r' -> FileRange.end_ r <= FileRange.start r'.

Definition ranges_nonempty (rs : list FileRange.t) : Prop := Forall (fun r => FileRange.start r < FileRange.end_ r) rs.

Section Pieces.
  Context `{B3 : Blake3} `{CC : ChunkConstants}.

(** The window ends with two chunks of stable sizes that no dirty range meets. *)
Definition resynced (rs : list FileRange.t) (p : Piece) : Prop :=
    exists w a b, p_window p = w ++ [a; b] /\
      ChunkWindowBuilder.stable_size a.2 = true /\ ChunkWindowBuilder.stable_size b.2 = true /\
      untouched rs (p_end p - b.2 - a.2) (p_end p).

(** The gap is untouched, and a dirty range starts in the first chunk of the window. *)
Definition piece_ok (rs : list FileRange.t) (p : Piece) : Prop :=
    untouched rs (p_start p) (p_from p) /\ 0 < nodes_size (p_window p) /\
    exists n w r, p_window p = n :: w /\ r ∈ rs /\ p_from p <= FileRange.start r < p_from p + n.2.

(** The subtrees of the gaps before the windows. *)
Fixpoint gap_subtrees (first : bool) (ps : list Piece) : list (option MerkleHashSubtree) :=
    match ps with
    | [] => []
    | p :: ps' => ChunkWindowBuilder.to_option (from_chunks first (p_gap p) false) :: gap_subtrees false ps'
    end.

(** What the windows and the subtrees of a file are: [ps] are its gaps and windows and
    [trailing] is the last gap.  Every window ends in a stable place, but for one at the end of
    the file. *)
Definition laid_out (rs : list FileRange.t) (ps : list Piece) (trailing : list Node) (chunks : list Node) : Prop :=
    chunks = pieces_chunks ps ++ trailing /\
    (exists e, chained 0 ps e /\ untouched rs e (e + nodes_size trailing)) /\
    Forall (piece_ok rs) ps /\
    Forall (covered ps) rs /\
    (Forall (resynced rs) ps \/ trailing = [] /\ exists ps0 p, ps = ps0 ++ [p] /\ Forall (resynced rs) ps0).

Definition all_subtrees (ps : list Piece) (trailing : list Node) : list (option MerkleHashSubtree) :=
    gap_subtrees true ps ++ [ChunkWindowBuilder.to_option (from_chunks (is_nil ps) trailing true)].

Lemma gap_subtrees_snoc first ps p :
    gap_subtrees first (ps ++ [p]) =
    gap_subtrees first ps ++ [ChunkWindowBuilder.to_option (from_chunks (first && is_nil ps) (p_gap p) false)].
Proof.
  revert first. induction ps as [|q ps IH]; intros first; cbn; [by rewrite andb_true_r|]. by rewrite IH, andb_false_r.
Qed.

Lemma chained_snoc pos ps e p : chained pos ps e -> p_start p = e -> chained pos (ps ++ [p]) (p_end p).
Proof. revert pos. induction ps as [|q ps IH]; intros pos; cbn; [by intros -> ->|]. intros [? ?] ?. split; [done|by apply IH]. Qed.

Lemma chained_app pos ps ps' e : chained pos (ps ++ ps') e <-> exists m, chained pos ps m /\ chained m ps' e.
Proof.
  revert pos. induction ps as [|q ps IH]; intros pos; cbn; [split; [intros ?; by exists pos|by intros (m & -> & ?)]|]. rewrite IH. split.
  - intros (? & m & ? & ?). by exists m.
  - intros (m & [? ?] & ?). split; [done|by exists m].
Qed.

Lemma pieces_chunks_snoc ps p : pieces_chunks (ps ++ [p]) = pieces_chunks ps ++ p_gap p ++ p_window p.
Proof. unfold pieces_chunks. rewrite fmap_app, concat_app. cbn. by rewrite app_nil_r. Qed.

Lemma chained_size pos ps e : chained pos ps e -> e = pos + nodes_size (pieces_chunks ps).
Proof.
  revert pos. induction ps as [|p ps IH]; intros pos; cbn; [intros ->; change (nodes_size _) with 0; lia|]. intros [<- ->%IH].
  unfold pieces_chunks. cbn. rewrite !nodes_size_app. unfold p_end, p_from. lia.
Qed.

Lemma ranges_sorted_lt rs i j r r' :
    ranges_sorted rs -> ranges_nonempty rs -> (i < j)%nat -> rs !! i = Some r -> rs !! j = Some r' ->
    FileRange.end_ r <= FileRange.start r'.
Proof.
  intros Hs Hn Hij Hi. revert r'. induction Hij as [|j Hij IH]; intros r' Hj; [by eapply Hs|].
  destruct (lookup_lt_is_Some_2 rs j) as [q Hq]; [apply lookup_lt_Some in Hj; lia|].
  specialize (IH q Hq). pose proof (Hs _ _ _ Hq Hj). pose proof (Forall_lookup_1 _ _ _ _ Hn Hq). cbn in *. lia.
Qed.

Lemma untouched_intro rs a b :
    (forall j r, rs !! j = Some r -> FileRange.end_ r <= a \/ b <= FileRange.start r) -> untouched rs a b.
Proof. intros H. by apply Forall_lookup_2. Qed.

Lemma covered_app ps ps' r : covered ps r -> covered (ps ++ ps') r.
Proof. intros (p & Hp & H). exists p. split; [apply elem_of_app; by left|done]. Qed.

End Pieces.

(** ** The walk over the chunks *)

Lemma update_last_snoc {A} (f : A -> A) l x : update_last f (l ++ [x]) = l ++ [f x].
Proof. unfold update_last. rewrite length_app, Nat.add_sub. induction l as [|y l IH]; [done|]. cbn. by f_equal. Qed.

Section Walk.
  Context `{B3 : Blake3} `{CC : ChunkConstants}.
  Context (rs : list FileRange.t) (Hsorted : ranges_sorted rs) (Hnonempty : ranges_nonempty rs).

Import ChunkWindowBuilder.

(** Between windows: the ranges before [dirty_idx] are inside windows, the others ahead. *)
Definition Outside (b : t) (ps : list Piece) (e : Z) : Prop :=
    gap_is_first b = is_nil ps /\ Forall (resynced rs) ps /\
    forall j r, rs !! j = Some r ->
      ((j < dirty_idx b)%nat -> FileRange.end_ r <= e /\ covered ps r) /\
      ((dirty_idx b <= j)%nat -> cursor b <= FileRange.start r).

(** Inside the window of the last piece [p]: the ranges up to [dirty_idx] have begun, the ones
    before it have ended, and the others are ahead. *)
Definition Inside (b : t) (ps : list Piece) (p : Piece) : Prop :=
    gap_chunks b = [] /\ gap_is_first b = is_nil ps /\ Forall (resynced rs) ps /\
    (forall j r, rs !! j = Some r ->
       ((j <= dirty_idx b)%nat -> FileRange.start r < cursor b /\ (covered ps r \/ p_from p <= FileRange.start r)) /\
       ((j < dirty_idx b)%nat -> FileRange.end_ r <= cursor b) /\
       ((dirty_idx b < j)%nat -> cursor b <= FileRange.start r)) /\
    forall size, tail_prev_size b = Some size -> exists w a, p_window p = w ++ [a] /\ a.2 = size /\ 0 <= size /\
      forall j r, rs !! j = Some r -> (j <= dirty_idx b)%nat -> FileRange.end_ r <= cursor b - size.

Record Walk (b : t) (ps : list Piece) (done : list Node) : Prop := {
    walk_ranges : dirty_ranges b = rs;
    walk_done : done = pieces_chunks ps ++ gap_chunks b;
    walk_windows : windows b = p_range <$> ps;
    walk_subtrees : hash_ranges b = gap_subtrees true ps;
    walk_pieces : Forall (piece_ok rs) ps;
    walk_zone : exists e, chained 0 ps e /\ cursor b = e + nodes_size (gap_chunks b) /\
      if in_dirty_zone b then exists ps0 p, ps = ps0 ++ [p] /\ Inside b ps0 p else Outside b ps e;
  }.

Lemma new_walk : Forall (fun r => 0 <= FileRange.start r) rs -> Walk (new rs) [] [].
Proof.
  intros Hpos. split; try done. exists 0. split_and!; try done. split_and!; [done|done|]. intros j r Hj. split; [cbn; lia|]. intros _.
  exact (Forall_lookup_1 _ _ _ _ Hpos Hj).
Qed.

(** [byte_end] is past the start of the range [idx] and not past the start of a later one. *)
Definition reached (idx : nat) (byte_end : Z) : Prop :=
    forall j r, rs !! j = Some r ->
      ((j <= idx)%nat -> FileRange.start r < byte_end) /\ ((j < idx)%nat -> FileRange.end_ r < byte_end) /\
      ((idx < j)%nat -> byte_end <= FileRange.start r).

Lemma reached_intro idx r0 byte_end :
    rs !! idx = Some r0 -> FileRange.start r0 < byte_end ->
    (forall r, rs !! S idx = Some r -> byte_end <= FileRange.start r) -> reached idx byte_end.
Proof.
  intros H0 Hlt Hnext j r Hj. pose proof (Forall_lookup_1 _ _ _ _ Hnonempty Hj) as Hne. cbn in Hne.
  assert ((j < idx)%nat -> FileRange.end_ r < byte_end) as Hb.
  { intros Hji. pose proof (ranges_sorted_lt rs j idx r r0 Hsorted Hnonempty Hji Hj H0). lia. }
  split_and!; [|done|].
  - intros [Hji| ->]%Nat.lt_eq_cases; [apply Hb in Hji; lia|]. congruence.
  - intros Hij. destruct (lookup_lt_is_Some_2 rs (S idx)) as [q Hq]; [apply lookup_lt_Some in Hj; lia|].
    pose proof (Hnext q Hq). pose proof (Forall_lookup_1 _ _ _ _ Hnonempty Hq). cbn in *.
    apply Nat.lt_eq_cases in Hij as [Hij| <-]; [|congruence].
    pose proof (ranges_sorted_lt rs (S idx) j q r Hsorted Hnonempty Hij Hq Hj). lia.
Qed.

Lemma merge_ahead_loop_spec fuel idx r0 byte_end :
    (length rs <= idx + S fuel)%nat -> rs !! idx = Some r0 -> FileRange.start r0 < byte_end ->
    (idx <= merge_ahead_loop fuel rs idx byte_end)%nat /\ reached (merge_ahead_loop fuel rs idx byte_end) byte_end.
Proof.
  revert idx r0. induction fuel as [|fuel IH]; intros idx r0 Hf H0 Hlt; cbn [merge_ahead_loop].
  - split; [lia|]. eapply reached_intro; [done..|]. intros r Hr. apply lookup_lt_Some in Hr. lia.
  - destruct (rs !! S idx) as [r|] eqn:Hr; [destruct (Z.ltb_spec (FileRange.start r) byte_end) as [Hs|Hs]|].
    + destruct (IH (S idx) r ltac:(lia) Hr Hs). split; [lia|done].
    + split; [lia|]. eapply reached_intro; [done..|]. intros q Hq. simplify_eq. done.
    + split; [lia|]. eapply reached_intro; [done..|]. intros q Hq. congruence.
Qed.

Lemma merge_ahead_loop_same idx byte_end :
    reached idx byte_end -> merge_ahead_loop (length rs) rs idx byte_end = idx.
Proof.
  intros Hr. destruct (length rs); [done|]. cbn [merge_ahead_loop]. destruct (rs !! S idx) as [r|] eqn:E; [|done].
  destruct (Hr _ _ E) as (_ & _ & H). specialize (H ltac:(lia)). apply Z.ltb_ge in H. by rewrite H.
Qed.

Lemma overlaps_dirty_at_true b idx c byte_end :
    dirty_ranges b = rs -> overlaps_dirty_at b idx c byte_end = true ->
    exists r, rs !! idx = Some r /\ FileRange.start r < byte_end /\ c < FileRange.end_ r.
Proof.
  intros <-. unfold overlaps_dirty_at. destruct (dirty_ranges b !! idx) as [r|]; [|done].
  intros [?%Z.ltb_lt ?%Z.ltb_lt]%andb_true_iff. by exists r.
Qed.

Lemma overlaps_dirty_at_false b idx c byte_end r :
    dirty_ranges b = rs -> overlaps_dirty_at b idx c byte_end = false -> rs !! idx = Some r ->
    byte_end <= FileRange.start r \/ FileRange.end_ r <= c.
Proof.
  intros <- Ho Hr. unfold overlaps_dirty_at in Ho. rewrite Hr in Ho. apply andb_false_iff in Ho as [?%Z.ltb_ge|?%Z.ltb_ge]; lia.
Qed.

(** A window opens on the chunk [n]. *)
Lemma open_window_walk b ps done n byte_end :
    Walk b ps done -> in_dirty_zone b = false -> byte_end = cursor b + n.2 -> 0 < n.2 ->
    overlaps_dirty_at b (dirty_idx b) (cursor b) byte_end = true ->
    exists p, Walk (with_cursor (with_tail (with_zone (open_window b byte_end) true (gap_is_first b)) None) byte_end) (ps ++ [p]) (done ++ [n]).
Proof.
  assert (nodes_size [n] = n.2) as Hn by (unfold nodes_size; cbn; lia). set (l := [n]) in *.
  intros [Hrs Hd Hw Hh Hp (e & Hc & Hcur & Hz)] Hzone Hbe Hpos Ho. rewrite Hzone in Hz. destruct Hz as (Hfirst & Hres & Hr).
  destruct (overlaps_dirty_at_true _ _ _ _ Hrs Ho) as (r0 & H0 & Hs0 & He0).
  destruct (merge_ahead_loop_spec (length rs) (dirty_idx b) r0 byte_end ltac:(lia) H0 Hs0) as [Hle Hreach].
  set (p := mkPiece e (gap_chunks b) l). exists p.
  assert (p_from p = cursor b) as Hfrom by (unfold p_from; cbn; lia). assert (p_end p = byte_end) as Hend by (unfold p_end; cbn; lia).
  split; cbn; try done.
  - by rewrite Hd, pieces_chunks_snoc, app_nil_r, <- !app_assoc.
  - rewrite Hw, fmap_app. cbn. unfold p_range. by rewrite Hfrom, Hend.
  - by rewrite Hh, Hfirst, gap_subtrees_snoc.
  - apply Forall_app. split; [done|]. constructor; [|constructor]. split_and!; [|cbn; lia|].
    2: { exists n, [], r0. split_and!; [done|by eapply list_elem_of_lookup_2|rewrite Hfrom; by apply (Hr _ _ H0)|rewrite Hfrom; lia]. }
    rewrite Hfrom. apply untouched_intro. cbn. intros j r Hj. destruct (Hr j r Hj) as [H1 H2]. destruct (Nat.lt_ge_cases j (dirty_idx b)); [left; by apply H1|right; by apply H2].
  - exists (p_end p). split_and!; [by apply chained_snoc with e|rewrite Hend; change (nodes_size []) with 0; lia|]. exists ps, p. split; [done|].
    split_and!; [done|done|done| |done]. cbn. rewrite Hrs. intros j r Hj. destruct (Hr j r Hj) as [H1 H2].
    destruct (Hreach j r Hj) as (R1 & R2 & R3). split_and!; [|intros Hq; specialize (R2 Hq); lia|done]. intros Hji. split; [by apply R1|].
    destruct (Nat.lt_ge_cases j (dirty_idx b)); [left; by apply H1|right; rewrite Hfrom; by apply H2].
Qed.

(** The open window grows by the chunks [l], and [idx] is the range reached. *)
Lemma extend_window_walk b ps0 p done l byte_end idx tail :
    Walk b (ps0 ++ [p]) done -> in_dirty_zone b = true -> Inside b ps0 p -> byte_end = cursor b + nodes_size l -> 0 <= nodes_size l ->
    (dirty_idx b <= idx)%nat -> reached idx byte_end ->
    (forall size, tail = Some size -> exists w a, l = w ++ [a] /\ a.2 = size /\ 0 <= size /\
      forall j r, rs !! j = Some r -> (j <= idx)%nat -> FileRange.end_ r <= byte_end - size) ->
    let p' := mkPiece (p_start p) (p_gap p) (p_window p ++ l) in
    exists ws, extend_open_window b byte_end = Some (with_windows b ws) /\
      let b' := with_cursor (with_tail (with_dirty_idx (with_windows b ws) idx) tail) byte_end in
      Walk b' (ps0 ++ [p']) (done ++ l) /\ Inside b' ps0 p'.
Proof.
  intros [Hrs Hd Hw Hh Hp (e & Hc & Hcur & _)] Hzone (Hg & Hfirst & Hres & Hr & _) Hbe Hpos Hle Hreach Htail.
  unfold extend_open_window. rewrite Hw, fmap_app. cbn [fmap list_fmap]. rewrite last_snoc. cbn [mbind option_bind]. rewrite update_last_snoc.
  set (p' := mkPiece _ _ _). eexists. split; [done|]. set (b' := with_cursor _ _).
  apply Forall_app in Hp as [Hp0 Hp]. apply Forall_singleton in Hp as (Hgap & Hne & n0 & w0 & r0 & Hw0 & Hr0 & Hs0).
  apply chained_app in Hc as (m & Hc & Hst & Hend). cbn [chained] in Hend. rewrite Hg in Hcur. change (nodes_size []) with 0 in Hcur.
  assert (p_end p' = byte_end) as Hend' by (unfold p_end, p_from in *; cbn; rewrite nodes_size_app; lia).
  assert (Inside b' ps0 p') as Hin.
  { split_and!; [done|done|done| |].
    - cbn. intros j r Hj. destruct (Hr j r Hj) as (H1 & H2 & H3). destruct (Hreach j r Hj) as (R1 & R2 & R3).
      split_and!; [|intros Hq; specialize (R2 Hq); lia|done]. intros Hji. split; [by apply R1|].
      destruct (Nat.le_gt_cases j (dirty_idx b)) as [Hj'|Hj']; [by apply H1|]. right. change (p_from p') with (p_from p).
      specialize (H3 Hj'). unfold p_end in Hend. lia.
    - intros size Ht. destruct (Htail size Ht) as (w & a & -> & Ha & Hs & Hall). exists (p_window p ++ w), a. cbn. by rewrite app_assoc. }
  split; [|done]. split; cbn; try done.
  - by rewrite Hd, !pieces_chunks_snoc, Hg, !app_nil_r, <- !app_assoc.
  - rewrite fmap_app. cbn. unfold p_range. by rewrite Hend'.
  - rewrite Hh. by rewrite !gap_subtrees_snoc.
  - apply Forall_app. split; [done|]. constructor; [|constructor]. split_and!; [done|cbn; rewrite nodes_size_app; lia|].
    exists n0, (w0 ++ l), r0. split_and!; [cbn; by rewrite Hw0|done|exact (proj1 Hs0)|exact (proj2 Hs0)].
  - exists (p_end p'). rewrite Hg, Hzone. split_and!; [|change (nodes_size []) with 0; cbn; lia|by exists ps0, p'].
    apply chained_app. exists m. split; [done|]. by split.
Qed.

(** When the next range is not met, no later one is. *)
Lemma next_ahead b idx c byte_end :
    dirty_ranges b = rs -> overlaps_dirty_at b idx c byte_end = false -> c <= byte_end ->
    (forall r, rs !! idx = Some r -> c <= FileRange.start r) ->
    forall j r, rs !! j = Some r -> (idx <= j)%nat -> byte_end <= FileRange.start r.
Proof.
  intros Hrs Ho Hle Hc.
  assert (forall r, rs !! idx = Some r -> byte_end <= FileRange.start r) as Hidx.
  { intros r Hr. pose proof (Forall_lookup_1 _ _ _ _ Hnonempty Hr). cbn in *. specialize (Hc r Hr).
    destruct (overlaps_dirty_at_false b idx c byte_end r Hrs Ho Hr); lia. }
  intros j r Hj [Hlt| ->]%Nat.lt_eq_cases; [|by apply Hidx].
  destruct (lookup_lt_is_Some_2 rs idx) as [q Hq]; [apply lookup_lt_Some in Hj; lia|]. specialize (Hidx q Hq).
  pose proof (Forall_lookup_1 _ _ _ _ Hnonempty Hq). cbn in *.
  pose proof (ranges_sorted_lt rs idx j q r Hsorted Hnonempty Hlt Hq Hj). lia.
Qed.

(** Two stable chunks after the last range end the window. *)
Lemma close_window_walk b ps0 p done w x y :
    Walk b (ps0 ++ [p]) done -> in_dirty_zone b = true -> Inside b ps0 p -> p_window p = w ++ [x; y] ->
    stable_size x.2 = true -> stable_size y.2 = true -> 0 <= x.2 -> 0 <= y.2 ->
    (forall j r, rs !! j = Some r -> (j <= dirty_idx b)%nat -> FileRange.end_ r <= cursor b - y.2 - x.2) ->
    Walk (with_tail (with_zone (with_dirty_idx b (dirty_idx b + 1)) false false) None) (ps0 ++ [p]) done.
Proof.
  intros [Hrs Hd Hw Hh Hp (e & Hc & Hcur & _)] Hzone (Hg & Hfirst & Hres & Hr & _) Hwin Sx Sy Hx Hy Hend.
  rewrite Hg in Hcur. change (nodes_size []) with 0 in Hcur. pose proof Hc as (m & _ & _ & He)%chained_app. cbn [chained] in He.
  split; cbn; try done. exists e. split_and!; [done|rewrite Hg; change (nodes_size []) with 0; lia|]. split_and!; [by destruct ps0| |].
  - apply Forall_app. split; [done|]. constructor; [|constructor]. exists w, x, y. split_and!; [done..|]. apply untouched_intro.
    intros j r Hj. destruct (Hr j r Hj) as (H1 & H2 & H3). destruct (Nat.le_gt_cases j (dirty_idx b)) as [Hle|Hlt].
    + left. specialize (Hend j r Hj Hle). lia.
    + right. specialize (H3 Hlt). lia.
  - cbn. intros j r Hj. destruct (Hr j r Hj) as (H1 & H2 & H3). split; [|intros; apply H3; lia]. intros Hlt.
    specialize (Hend j r Hj ltac:(lia)). split; [lia|]. destruct (H1 ltac:(lia)) as (_ & [Hcov|Hfrom]); [by apply covered_app|].
    exists p. split; [apply elem_of_app; right; by apply list_elem_of_singleton|]. lia.
Qed.

Lemma process_chunk_outside b ps done hash size byte_end :
    Walk b ps done -> in_dirty_zone b = false -> 0 < size -> byte_end = cursor b + size ->
    exists b' ps', process_chunk b hash size byte_end = Some b' /\ Walk b' ps' (done ++ [(hash, size)]) /\ cursor b' = byte_end.
Proof.
  intros HW Hzone Hsize Hbe. unfold process_chunk. rewrite Hzone. cbn [negb].
  assert (nodes_size [(hash, size)] = size) as Hn by (unfold nodes_size; cbn; lia).
  destruct (overlaps_dirty_at b (dirty_idx b) (cursor b) byte_end) eqn:Ho; cbn [mbind option_bind].
  - destruct (open_window_walk b ps done (hash, size) byte_end) as [p Hp]; [done|done|done|done|done|]. by eexists _, _.
  - eexists _, ps. split_and!; [done| |done]. destruct HW as [Hrs Hd Hw Hh Hp (e & Hc & Hcur & Hz)]. rewrite Hzone in Hz.
    destruct Hz as (Hfirst & Hres & Hr). split; cbn; try done; [by rewrite Hd, app_assoc|].
    exists e. rewrite Hzone, nodes_size_app. split_and!; [done|lia|]. split_and!; [done|done|]. cbn. intros j r Hj.
    destruct (Hr j r Hj) as (H1 & H2). split; [done|]. intros Hle.
    apply (next_ahead b (dirty_idx b) (cursor b)) with j; [done|done|lia| |done|done]. intros q Hq. by apply (Hr _ _ Hq).
Qed.

(** A chunk of the window that a range meets. *)
Lemma process_chunk_dirty b ps0 p done l byte_end idx r0 :
    Walk b (ps0 ++ [p]) done -> in_dirty_zone b = true -> Inside b ps0 p -> byte_end = cursor b + nodes_size l -> 0 <= nodes_size l ->
    (dirty_idx b <= idx)%nat -> rs !! idx = Some r0 -> FileRange.start r0 < byte_end ->
    exists ws p', extend_open_window (with_dirty_idx b idx) byte_end = Some (with_windows (with_dirty_idx b idx) ws) /\
      Walk (with_cursor (with_tail (merge_ahead (with_windows (with_dirty_idx b idx) ws) byte_end) None) byte_end) (ps0 ++ [p']) (done ++ l).
Proof.
  intros HW Hzone Hin Hbe Hn Hle H0 Hs0.
  destruct (merge_ahead_loop_spec (length rs) idx r0 byte_end ltac:(lia) H0 Hs0) as [Hle' Hreach].
  destruct (extend_window_walk b ps0 p done l byte_end _ None HW Hzone Hin Hbe Hn (Nat.le_trans _ _ _ Hle Hle') Hreach) as (ws & He & HW' & _); [done|].
  exists ws. eexists. split; [|].
  - unfold extend_open_window in *. cbn in *. destruct (last (windows b)); [|done]. cbn in *. by injection He as <-.
  - unfold merge_ahead. cbn. rewrite (walk_ranges _ _ _ HW). exact HW'.
Qed.

Lemma process_chunk_inside b ps done hash size byte_end :
    Walk b ps done -> in_dirty_zone b = true -> 0 < size -> byte_end = cursor b + size ->
    exists b' ps', process_chunk b hash size byte_end = Some b' /\ Walk b' ps' (done ++ [(hash, size)]) /\ cursor b' = byte_end.
Proof.
  intros HW Hzone Hsize Hbe. unfold process_chunk. rewrite Hzone. cbn [negb].
  assert (nodes_size [(hash, size)] = size) as Hn by (unfold nodes_size; cbn; lia).
  pose proof HW as [Hrs _ _ _ _ (e & _ & _ & Hz)]. rewrite Hzone in Hz. destruct Hz as (ps0 & p & -> & Hin).
  pose proof Hin as (_ & _ & _ & Hr & Htail).
  destruct (overlaps_dirty_at b (dirty_idx b) (cursor b) byte_end) eqn:Ho; cbn [orb negb].
  { destruct (overlaps_dirty_at_true _ _ _ _ Hrs Ho) as (r0 & H0 & Hs0 & _).
    destruct (process_chunk_dirty b ps0 p done [(hash, size)] byte_end (dirty_idx b) r0) as (ws & p' & He & HW'); [done..|lia|lia|lia|done|done|].
    assert (with_dirty_idx b (dirty_idx b) = b) as E by by destruct b. rewrite E in He, HW'.
    rewrite He. cbn [mbind option_bind]. by eexists _, _. }
  destruct (overlaps_dirty_at b (dirty_idx b + 1) (cursor b) byte_end) eqn:Ho1.
  { destruct (overlaps_dirty_at_true _ _ _ _ Hrs Ho1) as (r0 & H0 & Hs0 & _).
    destruct (process_chunk_dirty b ps0 p done [(hash, size)] byte_end (dirty_idx b + 1) r0) as (ws & p' & He & HW'); [done..|lia|lia|lia|done|done|].
    rewrite He. cbn [mbind option_bind]. by eexists _, _. }
  assert (forall j r, rs !! j = Some r -> (j <= dirty_idx b)%nat -> FileRange.end_ r <= cursor b) as Hends.
  { intros j r Hj [Hlt| ->]%Nat.lt_eq_cases; [by apply (Hr _ _ Hj)|]. destruct (Hr _ _ Hj) as (H1 & _). specialize (H1 ltac:(lia)).
    destruct (overlaps_dirty_at_false _ _ _ _ _ Hrs Ho Hj); lia. }
  assert (reached (dirty_idx b) byte_end) as Hreach.
  { intros j r Hj. destruct (Hr j r Hj) as (H1 & H2 & H3). split_and!.
    - intros Hle. destruct (H1 Hle). lia.
    - intros Hlt. specialize (H2 Hlt). lia.
    - intros Hlt. apply (next_ahead b (dirty_idx b + 1) (cursor b)) with j; [done|done|lia| |done|lia]. intros q Hq. apply (Hr _ _ Hq). lia. }
  destruct (extend_window_walk b ps0 p done [(hash, size)] byte_end (dirty_idx b) (Some size)) as (ws & He & HW' & Hin');
    [done|done|done|lia|lia|lia|done| |].
  { intros size' [= <-]. exists [], (hash, size). split_and!; [done|done|lia|]. intros j r Hj Hle. specialize (Hends j r Hj Hle). lia. }
  rewrite He. cbn [mbind option_bind]. destruct b as [a1 a2 a3 a4 a5 a6 a7 a8 tail]. cbn in Hzone. subst a3.
  cbn [tail_prev_size with_windows] in *. destruct tail as [prev|]; [|by eexists _, _].
  destruct (stable_size prev && stable_size size) eqn:Hst; [|by eexists _, _]. apply andb_true_iff in Hst as [Sp Ss].
  destruct (Htail prev eq_refl) as (w & a & Hw & Ha & Hprev & Hends').
  pose proof (fun Hx => close_window_walk _ _ _ _ w a (hash, size) HW' eq_refl Hin' Hx) as Hclose. cbn in Hclose.
  rewrite Hw, <- app_assoc, Ha in Hclose.
  eexists _, _. split_and!; [done|apply Hclose; try done; [lia|]|done]. intros j r Hj Hle. specialize (Hends' j r Hj Hle). cbn in Hbe, Hends'. lia.
Qed.

Lemma process_chunk_walk b ps done hash size byte_end :
    Walk b ps done -> 0 < size -> byte_end = cursor b + size ->
    exists b' ps', process_chunk b hash size byte_end = Some b' /\ Walk b' ps' (done ++ [(hash, size)]) /\ cursor b' = byte_end.
Proof. intros HW. destruct (in_dirty_zone b) eqn:Hz; [by eapply process_chunk_inside|by eapply process_chunk_outside]. Qed.

Lemma process_chunks_walk b ps done chunks :
    Walk b ps done -> Forall (fun n : Node => 0 < n.2) chunks -> 0 <= cursor b -> cursor b + nodes_size chunks < 2 ^ 64 ->
    exists b' ps', process_chunks b (cursor b) chunks = Some (b', cursor b') /\ Walk b' ps' (done ++ chunks) /\
      cursor b' = cursor b + nodes_size chunks.
Proof.
  intros HW Hpos. revert b ps done HW. induction Hpos as [|[h z] chunks Hz Hpos IH]; intros b ps done HW H0 Hlt; cbn [process_chunks].
  - exists b, ps. rewrite app_nil_r. change (nodes_size []) with 0. split_and!; [done|done|lia].
  - assert (nodes_size ((h, z) :: chunks) = z + nodes_size chunks) as Hn by done. cbn in Hz.
    assert (0 <= nodes_size chunks) by (apply nodes_size_pos; eapply Forall_impl; [done|]; cbn; lia).
    rewrite wrap64_small by (unfold is_u64; lia).
    destruct (process_chunk_walk b ps done h z (cursor b + z) HW Hz eq_refl) as (b1 & ps1 & -> & HW1 & Hc1). cbn [mbind option_bind].
    rewrite <- Hc1. destruct (IH b1 ps1 _ HW1 ltac:(lia) ltac:(lia)) as (b2 & ps2 & -> & HW2 & Hc2).
    exists b2, ps2. rewrite <- app_assoc in HW2. split_and!; [done|done|lia].
Qed.

Lemma finish_walk b ps chunks :
    Walk b ps chunks -> Forall (fun r => FileRange.end_ r <= cursor b) rs ->
    finish b = (p_range <$> ps, all_subtrees ps (gap_chunks b)) /\ laid_out rs ps (gap_chunks b) chunks.
Proof.
  intros [Hrs Hd Hw Hh Hp (e & Hc & Hcur & Hz)] Hends. unfold finish, laid_out, all_subtrees. rewrite Hw, Hh.
  assert (forall j r, rs !! j = Some r -> cursor b <= FileRange.start r -> False) as Hno.
  { intros j r Hj Hle. pose proof (Forall_lookup_1 _ _ _ _ Hnonempty Hj). pose proof (Forall_lookup_1 _ _ _ _ Hends Hj). cbn in *. lia. }
  destruct (in_dirty_zone b).
  - destruct Hz as (ps0 & p & -> & Hg & Hfirst & Hres & Hr & _). rewrite Hg in *. change (nodes_size []) with 0 in *.
    pose proof Hc as (m & _ & _ & He)%chained_app. cbn [chained] in He.
    split; [unfold to_option; by rewrite !from_chunks_empty|]. split_and!; [done| |done| |right; split; [done|by exists ps0, p]].
    + exists e. split; [done|]. apply untouched_intro. intros j r Hj. left. pose proof (Forall_lookup_1 _ _ _ _ Hends Hj). cbn in *. lia.
    + apply Forall_lookup_2. intros j r Hj. destruct (Hr j r Hj) as (H1 & _ & H3). pose proof (Forall_lookup_1 _ _ _ _ Hends Hj). cbn in *.
      destruct (Nat.le_gt_cases j (dirty_idx b)) as [Hle|Hlt]; [|by destruct (Hno j r Hj); apply H3].
      destruct (H1 Hle) as (_ & [Hcov|Hfrom]); [by apply covered_app|]. exists p.
      split; [apply elem_of_app; right; by apply list_elem_of_singleton|]. lia.
  - destruct Hz as (Hfirst & Hres & Hr). rewrite Hfirst. split; [done|]. split_and!; [done| |done| |by left].
    + exists e. split; [done|]. apply untouched_intro. intros j r Hj. left. destruct (Hr j r Hj) as [H1 H2].
      destruct (Nat.lt_ge_cases j (dirty_idx b)) as [Hlt|Hge]; [by apply H1|]. by destruct (Hno j r Hj); apply H2.
    + apply Forall_lookup_2. intros j r Hj. destruct (Hr j r Hj) as [H1 H2].
      destruct (Nat.lt_ge_cases j (dirty_idx b)) as [Hlt|Hge]; [by apply H1|]. by destruct (Hno j r Hj); apply H2.
Qed.

End Walk.

(** ** Sorted ranges *)

(** [dirty_ranges.windows(2).all(|w| w[0].end <= w[1].start)], from [pos] on. *)
Fixpoint ordered (pos : Z) (rs : list FileRange.t) : Prop :=
  match rs with
  | [] => True
  | r :: rs' => pos <= FileRange.start r /\ ordered (FileRange.end_ r) rs'
  end.

Lemma ordered_weaken pos pos' rs : pos' <= pos -> ordered pos rs -> ordered pos' rs.
Proof. destruct rs; cbn; [done|]. intros ? [? ?]. split; [lia|done]. Qed.

Lemma ordered_sorted pos rs : ordered pos rs -> ranges_sorted rs.
Proof.
  intros H i r r'. revert pos rs H. induction i as [|i IH]; intros pos [|r1 [|r2 rs]] H Hr Hr'; simplify_eq/=; try tauto.
  destruct H as (_ & H). by eapply (IH _ (r2 :: rs)).
Qed.

Lemma ordered_starts pos rs : Forall (fun r => FileRange.start r <= FileRange.end_ r) rs -> ordered pos rs -> Forall (fun r => pos <= FileRange.start r) rs.
Proof.
  intros Hf. revert pos. induction Hf as [|r rs Hr _ IH]; intros pos; cbn; [done|]. intros [? Ho]. constructor; [done|].
  eapply Forall_impl; [by apply IH|]. cbn. intros. lia.
Qed.

Lemma clamp_ranges_ok file_size pos dirty :
  Forall (fun r => FileRange.start r <= FileRange.end_ r) dirty -> ordered pos dirty ->
  let rs := clamp_ranges file_size dirty in
  ordered pos rs /\ ranges_nonempty rs /\ Forall (fun r => FileRange.end_ r <= file_size) rs.
Proof.
  intros Hf. cbn zeta. unfold clamp_ranges. revert pos. induction Hf as [|r dirty Hr _ IH]; intros pos; [intros _; split_and!; constructor|]. cbn [ordered]. intros [Hp Ho].
  rewrite fmap_cons, filter_cons. cbn [FileRange.start FileRange.end_].
  destruct (IH _ Ho) as (IH1 & IH2 & IH3). case_decide as Hd.
  - apply Is_true_true, andb_true_iff in Hd as [H1%Z.ltb_lt H2%Z.ltb_lt]. split_and!; [|constructor; [cbn; lia|done]..].
    cbn. split; [done|]. eapply ordered_weaken; [|done]. lia.
  - split_and!; [|done|done]. eapply ordered_weaken; [|done]. lia.
Qed.

(** ** The verification hashes of the segments outside the windows *)

Definition outside_windows (ws : list FileRange.t) (a b : Z) : bool :=
  forallb (fun w => (FileRange.end_ w <=? a) || (b <=? FileRange.start w)) ws.

(** The entries of the segments that no window meets. *)
Fixpoint kept_verification (segments : list (Segment * FileVerificationEntry.t)) (acc : Z) (ws : list FileRange.t) : list DataHash :=
  match segments with
  | [] => []
  | (seg, ver) :: segments' =>
      let seg_end := acc + FileDataSequenceEntry.unpacked_segment_bytes seg in
      (if outside_windows ws acc seg_end then [FileVerificationEntry.range_hash ver] else []) ++ kept_verification segments' seg_end ws
  end.

Definition segments_size (segments : list Segment) : Z := sum_of FileDataSequenceEntry.unpacked_segment_bytes segments.

Lemma skip_passed_spec seg_start ws : exists passed, ws = passed ++ skip_passed seg_start ws /\
  Forall (fun w => FileRange.end_ w <= seg_start) passed /\
  forall w ws', skip_passed seg_start ws = w :: ws' -> seg_start < FileRange.end_ w.
Proof.
  induction ws as [|w ws (passed & IH1 & IH2 & IH3)]; cbn; [by exists []|]. destruct (Z.leb_spec (FileRange.end_ w) seg_start).
  - exists (w :: passed). split_and!; [by cbn; f_equal|by constructor|done].
  - exists []. split_and!; [done|done|]. by intros ? ? [= <- <-].
Qed.

Lemma outside_windows_passed passed ws a b :
  Forall (fun w => FileRange.end_ w <= a) passed -> outside_windows (passed ++ ws) a b = outside_windows ws a b.
Proof.
  induction 1 as [|w passed Hw _ IH]; [done|]. cbn. apply Z.leb_le in Hw. by rewrite Hw.
Qed.

Lemma outside_windows_ahead ws a b pos :
  Forall (fun r => FileRange.start r <= FileRange.end_ r) ws -> ordered pos ws ->
  (forall w ws', ws = w :: ws' -> a < FileRange.end_ w) ->
  outside_windows ws a b = negb (match ws with w :: _ => FileRange.start w <? b | [] => false end).
Proof.
  intros Hf Ho Hw. destruct ws as [|w ws]; [done|]. specialize (Hw w ws eq_refl). cbn.
  destruct (Z.leb_spec (FileRange.end_ w) a); [lia|]. cbn. rewrite Z.ltb_antisym, negb_involutive.
  destruct (Z.leb_spec b (FileRange.start w)) as [Hb|]; [|done]. cbn. apply Forall_cons in Hf as [Hr Hf]. destruct Ho as [_ Ho].
  apply forallb_forall. intros w' Hin. pose proof (ordered_starts _ _ Hf Ho) as Hs. rewrite Forall_forall in Hs.
  specialize (Hs w' ltac:(by apply list_elem_of_In)). cbn in Hs. apply orb_true_iff. right. apply Z.leb_le. lia.
Qed.

Lemma gap_verification_loop_spec segments acc passed ws pos :
  Forall (fun s => 0 <= FileDataSequenceEntry.unpacked_segment_bytes s) segments.*1 -> 0 <= acc -> acc + segments_size segments.*1 < 2 ^ 64 ->
  Forall (fun r => FileRange.start r <= FileRange.end_ r) ws -> ordered pos ws ->
  Forall (fun w => FileRange.end_ w <= acc) passed ->
  gap_verification_loop segments acc ws = kept_verification segments acc (passed ++ ws).
Proof.
  revert acc passed ws pos. induction segments as [|[seg ver] segments IH]; intros acc passed ws pos Hs H0 Hlt Hf Ho Hp; [done|].
  cbn [gap_verification_loop kept_verification]. cbn [fmap list_fmap] in Hs. apply Forall_cons in Hs as [Hseg Hs]. cbn in Hseg.
  assert (0 <= segments_size segments.*1) by (by apply sum_of_nonneg).
  unfold segments_size, sum_of in Hlt. cbn in Hlt. fold (sum_of FileDataSequenceEntry.unpacked_segment_bytes segments.*1) in Hlt.
  fold (segments_size segments.*1) in Hlt. rewrite wrap64_small by (unfold is_u64; lia).
  destruct (skip_passed_spec acc ws) as (more & Hm & Hmore & Hhead). rewrite Hm in Hf, Ho at 1. set (ws' := skip_passed acc ws) in *.
  apply Forall_app in Hf as [Hfm Hf]. rewrite Hm. rewrite app_assoc.
  assert (exists pos', ordered pos' ws') as [pos' Ho'].
  { clear -Ho. revert pos Ho. induction more as [|w more IH]; intros pos Ho; [by exists pos|]. destruct Ho as [_ Ho]. by eapply IH. }
  rewrite outside_windows_passed by (apply Forall_app; by split). rewrite (outside_windows_ahead ws' _ _ pos') by done. f_equal.
  - by destruct (match ws' with w :: _ => _ | [] => false end).
  - apply (IH _ _ _ pos'); [done|lia|lia|done|done|]. apply Forall_app. split; (eapply Forall_impl; [done|]; cbn; lia).
Qed.

(** ** Properties of the response *)

Section Properties.
  Context `{B3 : Blake3} `{CC : ChunkConstants}.

(** The verification hashes of a file: none, or one for each segment outside the windows. *)
Definition kept_hashes (file_info : MDBFileInfo.t) (ws : list FileRange.t) : list DataHash :=
    kept_verification (zip (MDBFileInfo.segments file_info) (MDBFileInfo.verification file_info)) 0 ws.

Definition verification_matches (file_info : MDBFileInfo.t) : Prop :=
    MDBFileInfo.verification file_info = [] \/
    length (MDBFileInfo.verification file_info) = length (MDBFileInfo.segments file_info).

(** The file has the chunks given, and its sizes do not overflow. *)
Definition file_of_chunks (file_info : MDBFileInfo.t) (chunks : list Node) : Prop :=
    Forall (fun n : Node => 0 < n.2) chunks /\ nodes_size chunks < 2 ^ 64 /\
    Forall (fun s => 0 <= FileDataSequenceEntry.unpacked_segment_bytes s) (MDBFileInfo.segments file_info) /\
    segments_size (MDBFileInfo.segments file_info) = nodes_size chunks.

Lemma file_of_chunks_size file_info chunks : file_of_chunks file_info chunks -> MDBFileInfo.file_size file_info = nodes_size chunks.
Proof.
  intros (Hpos & Hlt & _ & Hs). unfold MDBFileInfo.file_size. rewrite fold_wrap_sum by (unfold is_u64; lia).
  fold (segments_size (MDBFileInfo.segments file_info)). rewrite Hs, Z.add_0_l, wrap64_small; [done|]. split; [|done].
  apply nodes_size_pos. eapply Forall_impl; [done|]. cbn. lia.
Qed.

Lemma chained_windows pos ps e :
    Forall (fun p => 0 <= nodes_size (p_gap p) /\ 0 <= nodes_size (p_window p)) ps -> chained pos ps e ->
    Forall (fun r => FileRange.start r <= FileRange.end_ r) (p_range <$> ps) /\ ordered pos (p_range <$> ps).
Proof.
  intros Hf. revert pos. induction Hf as [|p ps [Hg Hw] _ IH]; intros pos; cbn; [done|]. intros [<- Hc]. destruct (IH _ Hc) as [IH1 IH2].
  unfold p_from, p_end in *. split; [constructor; [cbn; unfold p_end, p_from; lia|done]|]. split; [lia|done].
Qed.

Lemma pieces_sizes ps trailing :
    Forall (fun n : Node => 0 < n.2) (pieces_chunks ps ++ trailing) ->
    Forall (fun p => 0 <= nodes_size (p_gap p) /\ 0 <= nodes_size (p_window p)) ps.
Proof.
  assert (forall l : list Node, Forall (fun n : Node => 0 < n.2) l -> 0 <= nodes_size l) as Hl.
  { intros l H. apply nodes_size_pos. eapply Forall_impl; [done|]. cbn. lia. }
  intros [H _]%Forall_app. induction ps as [|p ps IH]; [constructor|]. unfold pieces_chunks in H. cbn in H.
  apply Forall_app in H as [[Hg Hw]%Forall_app H]. constructor; [split; by apply Hl|by apply IH].
Qed.

Lemma response_ok file_info dirty chunks :
    file_of_chunks file_info chunks -> verification_matches file_info ->
    Forall (fun r => FileRange.start r <= FileRange.end_ r) dirty -> ordered 0 dirty ->
    clamp_ranges (nodes_size chunks) dirty <> [] ->
    exists ps trailing,
      build_file_chunk_hashes_response file_info dirty chunks =
        Some (Ok (mkFileChunkHashesResponse (Z.of_nat (length chunks)) (nodes_size chunks) (p_range <$> ps)
          (all_subtrees ps trailing) (kept_hashes file_info (p_range <$> ps)))) /\
      ps <> [] /\ laid_out (clamp_ranges (nodes_size chunks) dirty) ps trailing chunks.
Proof.
  intros Hfile Hver Hf Ho Hne. pose proof Hfile as (Hpos & Hlt & Hsegs & Hs).
  unfold build_file_chunk_hashes_response. rewrite (file_of_chunks_size _ _ Hfile).
  destruct (clamp_ranges_ok (nodes_size chunks) 0 dirty Hf Ho) as (Hco & Hcn & Hce). set (rs := clamp_ranges _ _) in *.
  assert (Forall (fun r => 0 <= FileRange.start r) rs) as H0.
  { apply ordered_starts; [|done]. eapply Forall_impl; [exact Hcn|]. cbn. lia. }
  pose proof (ordered_sorted _ _ Hco) as Hsorted.
  destruct (process_chunks_walk rs Hsorted Hcn (ChunkWindowBuilder.new rs) [] [] chunks) as (b & ps & Hp & HW & Hcur);
    [by apply new_walk|done|cbn; lia|cbn; lia|]. cbn in Hcur, HW, Hp.
  destruct (finish_walk rs Hcn b ps chunks HW) as [Hfin Hlaid]; [by rewrite Hcur|].
  exists ps, (ChunkWindowBuilder.gap_chunks b). destruct Hlaid as (Hch & (e & Hc & Hu) & Hlaid).
  assert (ps <> []) as Hps.
  { destruct Hlaid as (_ & Hcov & _). destruct rs as [|r rs']; [done|]. apply Forall_cons in Hcov as [(p & Hin & _) _]. by destruct ps; [apply elem_of_nil in Hin|]. }
  split; [|split; [done|]; split; [done|]; split; [by exists e|done]].
  destruct rs as [|r rs'] eqn:Ers; [done|]. rewrite <- Ers in *. rewrite Hp. cbn [mbind option_bind]. rewrite Hfin.
  destruct (p_range <$> ps) as [|w ws] eqn:Ews; [by destruct ps|]. rewrite <- Ews. unfold kept_hashes.
  destruct Hver as [Hv|Hv].
  - rewrite Hv. cbn. by destruct (MDBFileInfo.segments file_info).
  - rewrite Hv, Nat.eqb_refl. destruct (Nat.eqb_spec (length (MDBFileInfo.segments file_info)) 0) as [E|E].
    + apply nil_length_inv in E. by rewrite E.
    + do 4 f_equal. destruct (chained_windows 0 ps e) as [Hw1 Hw2]; [apply (pieces_sizes _ (ChunkWindowBuilder.gap_chunks b)); by rewrite <- Hch|done|].
      apply (gap_verification_loop_spec _ _ [] _ 0); [| | |done|done|constructor]; rewrite ?fst_zip by lia; [done|lia|]. by rewrite Hs.
Qed.

(** A builder inside or before a range that holds all of the bytes up to [byte_end]. *)
Definition range_holds (b : ChunkWindowBuilder.t) (byte_end : Z) : Prop :=
    ChunkWindowBuilder.cursor b < byte_end /\ ChunkWindowBuilder.entry_fully_dirty b byte_end = true.

Lemma merge_ahead_none b byte_end :
    ranges_sorted (ChunkWindowBuilder.dirty_ranges b) -> ChunkWindowBuilder.entry_fully_dirty b byte_end = true ->
    ChunkWindowBuilder.merge_ahead_loop (length (ChunkWindowBuilder.dirty_ranges b)) (ChunkWindowBuilder.dirty_ranges b)
      (ChunkWindowBuilder.dirty_idx b) byte_end = ChunkWindowBuilder.dirty_idx b.
Proof.
  unfold ChunkWindowBuilder.entry_fully_dirty. intros Hs He.
  destruct (ChunkWindowBuilder.dirty_ranges b !! ChunkWindowBuilder.dirty_idx b) as [r|] eqn:Hr; [|done].
  apply andb_true_iff in He as [_ He%Z.leb_le]. destruct (length _); [done|]. cbn [ChunkWindowBuilder.merge_ahead_loop].
  destruct (ChunkWindowBuilder.dirty_ranges b !! S _) as [r'|] eqn:Hr'; [|done].
  specialize (Hs _ _ _ Hr Hr'). destruct (Z.ltb_spec (FileRange.start r') byte_end); [lia|done].
Qed.

Lemma process_chunk_skip b hash size byte_end :
    ranges_sorted (ChunkWindowBuilder.dirty_ranges b) -> range_holds b byte_end ->
    ChunkWindowBuilder.process_chunk b hash size byte_end = ChunkWindowBuilder.skip_dirty_entry b byte_end.
Proof.
  intros Hs [Hlt He]. unfold ChunkWindowBuilder.process_chunk, ChunkWindowBuilder.skip_dirty_entry.
  assert (ChunkWindowBuilder.overlaps_dirty_at b (ChunkWindowBuilder.dirty_idx b) (ChunkWindowBuilder.cursor b) byte_end = true) as ->.
  { unfold ChunkWindowBuilder.entry_fully_dirty, ChunkWindowBuilder.overlaps_dirty_at in *.
    destruct (ChunkWindowBuilder.dirty_ranges b !! _) as [r|]; [|done]. apply andb_true_iff in He as [?%Z.leb_le ?%Z.leb_le].
    apply andb_true_iff. split; apply Z.ltb_lt; lia. }
  destruct (ChunkWindowBuilder.in_dirty_zone b); cbn [negb orb]; [|done]. by destruct (ChunkWindowBuilder.extend_open_window b byte_end).
Qed.

Lemma skip_twice b byte_end byte_end' :
    ranges_sorted (ChunkWindowBuilder.dirty_ranges b) -> range_holds b byte_end -> range_holds b byte_end' -> byte_end < byte_end' ->
    match ChunkWindowBuilder.skip_dirty_entry b byte_end with
    | Some b1 => ChunkWindowBuilder.skip_dirty_entry b1 byte_end' = ChunkWindowBuilder.skip_dirty_entry b byte_end' /\
        ChunkWindowBuilder.dirty_ranges b1 = ChunkWindowBuilder.dirty_ranges b /\ ChunkWindowBuilder.cursor b1 = byte_end /\
        range_holds b1 byte_end'
    | None => ChunkWindowBuilder.skip_dirty_entry b byte_end' = None
    end.
Proof.
  intros Hs [Hlt He] [Hlt' He'] Hbe. pose proof (merge_ahead_none b _ Hs He) as Hm. pose proof (merge_ahead_none b _ Hs He') as Hm'.
  destruct b as [rs idx zone first c gap ws hs tail]. unfold ChunkWindowBuilder.entry_fully_dirty in He, He'. cbn in *.
  destruct (rs !! idx) as [r|] eqn:Hr; [|done]. apply andb_true_iff in He as [H1%Z.leb_le H2%Z.leb_le], He' as [_ H3%Z.leb_le].
  assert (forall w f ts hr g, range_holds (ChunkWindowBuilder.mk rs idx true f byte_end g w hr ts) byte_end') as Hh.
  { intros w f ts hr g. split; [done|]. unfold ChunkWindowBuilder.entry_fully_dirty. cbn. rewrite Hr. apply andb_true_iff. split; apply Z.leb_le; lia. }
  unfold ChunkWindowBuilder.skip_dirty_entry, ChunkWindowBuilder.open_window, ChunkWindowBuilder.extend_open_window, ChunkWindowBuilder.merge_ahead.
  destruct zone; cbn.
  - destruct ws as [|w ws0 _] using rev_ind; [done|]. rewrite last_snoc. cbn. rewrite !update_last_snoc, last_snoc, Hm. cbn.
    rewrite ?update_last_snoc, ?Hm'. split_and!; [done..|apply Hh].
  - rewrite Hm. cbn. rewrite last_snoc. cbn. rewrite update_last_snoc, Hm'. split_and!; [done..|apply Hh].
Qed.

(** C38: Skipping an entry is the same as reading its chunks.  Where an entry of a shard lies inside the
    current dirty range, [skip_dirty_entry] leaves the builder in the state that processing the
    chunks of the entry one after another would, however the entry is cut into chunks, and panics
    when that would. *)
Theorem skip_dirty_entry_equiv b l :
    ranges_sorted (ChunkWindowBuilder.dirty_ranges b) -> Forall (fun n : Node => 0 < n.2) l -> l <> [] ->
    0 <= ChunkWindowBuilder.cursor b -> ChunkWindowBuilder.cursor b + nodes_size l < 2 ^ 64 ->
    ChunkWindowBuilder.entry_fully_dirty b (ChunkWindowBuilder.cursor b + nodes_size l) = true ->
    fst <$> ChunkWindowBuilder.process_chunks b (ChunkWindowBuilder.cursor b) l =
    ChunkWindowBuilder.skip_dirty_entry b (ChunkWindowBuilder.cursor b + nodes_size l).
Proof.
  intros Hs Hpos. revert b Hs. induction Hpos as [|[h z] l Hz Hpos IH]; intros b Hs Hne H0 Hlt He; [done|]. cbn in Hz.
  change (nodes_size ((h, z) :: l)) with (z + nodes_size l) in *. cbn [ChunkWindowBuilder.process_chunks].
  assert (0 <= nodes_size l) by (apply nodes_size_pos; eapply Forall_impl; [done|]; cbn; lia).
  rewrite wrap64_small by (unfold is_u64; lia). set (be := ChunkWindowBuilder.cursor b + (z + nodes_size l)) in *.
  assert (range_holds b be) as Hh' by (split; [lia|done]).
  assert (range_holds b (ChunkWindowBuilder.cursor b + z)) as Hh.
  { split; [lia|]. unfold ChunkWindowBuilder.entry_fully_dirty in *. destruct (_ !! _) as [r|]; [|done].
    apply andb_true_iff in He as [-> H2%Z.leb_le]. apply Z.leb_le. lia. }
  rewrite (process_chunk_skip b h z _ Hs Hh). destruct l as [|n l].
  - change (nodes_size []) with 0 in be. replace (ChunkWindowBuilder.cursor b + z) with be by lia. by destruct (ChunkWindowBuilder.skip_dirty_entry b be).
  - assert (0 < nodes_size (n :: l)).
    { apply Forall_cons in Hpos as [Hn Hl]. change (nodes_size (n :: l)) with (n.2 + nodes_size l).
      pose proof (nodes_size_pos l ltac:(eapply Forall_impl; [exact Hl|]; cbn; lia)). lia. }
    pose proof (skip_twice b _ be Hs Hh Hh' ltac:(lia)) as Ht.
    destruct (ChunkWindowBuilder.skip_dirty_entry b (ChunkWindowBuilder.cursor b + z)) as [b1|]; [|by rewrite Ht].
    destruct Ht as (Ht & Hrs & Hc & [_ Hf]). rewrite <- Ht. cbn [mbind option_bind]. rewrite <- Hc.
    assert (be = ChunkWindowBuilder.cursor b1 + nodes_size (n :: l)) as Eb by lia. rewrite Eb in Hf |- *.
    apply IH; [by rewrite Hrs|done|lia|lia|done].
Qed.

(** C30: The response covers the edits.  For sorted dirty ranges of a file, the response is built
    without a panic or an error.  Its windows and gaps are the chunks of the file, in order; every
    dirty range is inside one window and no gap meets one; a window begins with the chunk in which
    a dirty range starts, and ends with two clean chunks of stable sizes, or at the end of the
    file; the subtrees are those of the gaps, and the verification hashes are those of the
    segments that no window meets. *)
Theorem chunk_windows_laid_out file_info dirty chunks :
    file_of_chunks file_info chunks -> verification_matches file_info ->
    Forall (fun r => FileRange.start r <= FileRange.end_ r) dirty -> ordered 0 dirty ->
    clamp_ranges (nodes_size chunks) dirty <> [] ->
    exists ps trailing,
      build_file_chunk_hashes_response file_info dirty chunks =
        Some (Ok (mkFileChunkHashesResponse (Z.of_nat (length chunks)) (nodes_size chunks) (p_range <$> ps)
          (all_subtrees ps trailing) (kept_hashes file_info (p_range <$> ps)))) /\
      ps <> [] /\ laid_out (clamp_ranges (nodes_size chunks) dirty) ps trailing chunks.
Proof. apply response_ok. Qed.

End Properties.
