(* ===== verification/UploadSession.v ===== *)
(** * The upload session and its cleaners

    Model of [xet_data/src/processing/file_upload_session.rs], [deduplication_interface.rs],
    [file_cleaner.rs] and [sha256.rs]: a session collects the remainders of cleaned files into
    xorbs and registers what it uploads; a cleaner chunks the data of one file, passes the chunks
    to a deduper whose data manager is the session, and hands the result back to the session.

    The shards of the session, the completion tracker and the upload tasks are behind the class
    [SessionBackend]; what they promise is [SessionContract].  The data manager of the session
    then implements the interface of [Dedup], and its contract is proved, not assumed.

    A background task of the code is run where its result is awaited: the deduper of a cleaner is
    the result of its last task, so that an error of one call is reported by the next; global
    dedup queries take effect when they are joined; the bytes an upload task transmits are counted
    when it is joined.  One cleaner at a time works on a session here.  The [simulation] feature
    is off.  SHA-256 is a class with the law that hashing block by block is hashing the
    concatenation. *)

From Stdlib Require Import SpecFloat.
From coqutil Require Import Byte Word.LittleEndianList.
From stdpp Require Import base numbers gmap list.
From S2P Require Import Prelude DataHash AggregatedHash Chunking FileStructs XorbStructs RawXorb Defrag Dedup Aggregator.

(** ** Errors *)

Inductive DataError (E : Type) :=
  | Backend (e : E)
  | InvalidOperation
  | InternalError
  | ParameterError
  | DataPanic
  | DataDiverges.
Arguments Backend {E} e.
Arguments InvalidOperation {E}.
Arguments InternalError {E}.
Arguments ParameterError {E}.
Arguments DataPanic {E}.
Arguments DataDiverges {E}.

Definition of_dedup_error {E} (e : DedupError E) : DataError E :=
  match e with Interface e => Backend e | Panic => DataPanic | Diverges => DataDiverges end.

Definition of_dedup {E A} (r : result (DedupError E) A) : result (DataError E) A :=
  match r with Ok a => Ok a | Err e => Err (of_dedup_error e) end.

Definition backend {E A} (r : result E A) : result (DataError E) A :=
  match r with Ok a => Ok a | Err e => Err (Backend e) end.

Definition some_or_panic {E A} (o : option A) : result (DataError E) A := result_of_option DataPanic o.

(** ** SHA-256 *)

Class Sha2 := {
  Hasher : Type;
  sha2_default : Hasher;
  sha2_update : Hasher -> list byte -> Hasher;
  sha2_finalize : Hasher -> list byte;
  sha2_update_app h a b : sha2_update (sha2_update h a) b = sha2_update h (a ++ b);
  sha2_finalize_length h : length (sha2_finalize h) = 32;
}.

Definition sha256_of `{Sha2} (data : list byte) : DataHash := from_be_bytes (sha2_finalize (sha2_update sha2_default data)).

Module Sha256Generator.
Section Generator.
  Context `{Sha2}.

Record t := mk { hasher : option Hasher }.

Definition new : t := mk None.

Definition update (g : t) (new_data : list byte) : t :=
    let hasher := match hasher g with Some h => h | None => sha2_default end in
    mk (Some (sha2_update hasher new_data)).

Definition finalize (g : t) : DataHash :=
    match hasher g with
    | Some h => from_be_bytes (sha2_finalize h)
    | None => default
    end.

End Generator.
End Sha256Generator.

Inductive Sha256Policy := ComputeSha | Provided (hash : DataHash) | Skip.

Definition from_skip (skip : bool) : Sha256Policy := if skip then Skip else ComputeSha.

Definition policy_of_option (sha256 : option DataHash) : Sha256Policy :=
  match sha256 with Some hash => Provided hash | None => ComputeSha end.

Definition policy_from_hex (s : list byte) : Sha256Policy :=
  policy_of_option (match from_hex s with Ok h => Some h | Err _ => None end).

(** ** What a session is built on *)

Class SessionBackend (X E : Type) := {
  global_dedup_query_enabled : bool;
  (* the shards of the session *)
  shard_dedup_query : X -> list DataHash -> result E (option DedupHit * X);
  query_dedup_shard_by_chunk : X -> DataHash -> result E X;
  add_xorb_block : X -> RawXorbData.t -> result E X;
  add_file_reconstruction_info : X -> MDBFileInfo.t -> result E X;
  session_file_info_list : X -> result E (list MDBFileInfo.t);
  upload_and_register_session_shards : X -> result E (Z * X);
  (* the completion tracker *)
  register_new_file : X -> option Z -> Z * X;
  increment_file_size : X -> Z -> Z -> X;
  tracker_register_new_xorb : X -> RawXorbData.t -> bool * X;
  register_dependencies : X -> list FileXorbDependency -> X;
  register_xorb_upload_completion : X -> DataHash -> X;
  (* the upload tasks; the joins return the bytes that the tasks joined have transmitted *)
  join_finished_uploads : X -> result E (Z * X);
  start_xorb_upload : X -> RawXorbData.t -> result E X;
  join_all_uploads : X -> result E (Z * X);
}.

Definition empty_aggregator : DataAggregator.t := DataAggregator.mk [] 0 [] [].

Definition uploaded_metrics (n : Z) : DeduplicationMetrics.t := DeduplicationMetrics.mk 0 0 0 0 0 0 0 0 0 0 n 0 0.

Definition with_shard_bytes (m : DeduplicationMetrics.t) (n : Z) : DeduplicationMetrics.t :=
  DeduplicationMetrics.mk (DeduplicationMetrics.total_bytes m) (DeduplicationMetrics.deduped_bytes m) (DeduplicationMetrics.new_bytes m)
    (DeduplicationMetrics.deduped_bytes_by_global_dedup m) (DeduplicationMetrics.defrag_prevented_dedup_bytes m)
    (DeduplicationMetrics.total_chunks m) (DeduplicationMetrics.deduped_chunks m) (DeduplicationMetrics.new_chunks m)
    (DeduplicationMetrics.deduped_chunks_by_global_dedup m) (DeduplicationMetrics.defrag_prevented_dedup_chunks m)
    (DeduplicationMetrics.xorb_bytes_uploaded m) n (wrap64 (n + DeduplicationMetrics.xorb_bytes_uploaded m)).

(** ** The session *)

Module FileUploadSession.

Record t (X : Type) := mk {
  inner : X;
  current_session_data : DataAggregator.t;
  deduplication_metrics : DeduplicationMetrics.t;
  finalized : bool;
}.
Arguments mk {X}.
Arguments inner {X}.
Arguments current_session_data {X}.
Arguments deduplication_metrics {X}.
Arguments finalized {X}.

Section Session.
  Context `{B3 : Blake3} `{XC : XorbConstants} {X E : Type} `{SB : !SessionBackend X E}.

Definition new (x : X) : t X := mk x empty_aggregator DeduplicationMetrics.default false.

Definition with_inner (s : t X) (x : X) : t X := mk x (current_session_data s) (deduplication_metrics s) (finalized s).
Definition with_current (s : t X) (a : DataAggregator.t) : t X := mk (inner s) a (deduplication_metrics s) (finalized s).
Definition add_metrics (s : t X) (m : DeduplicationMetrics.t) : t X :=
    mk (inner s) (current_session_data s) (DeduplicationMetrics.merge_in (deduplication_metrics s) m) (finalized s).

Definition check_not_finalized (s : t X) : result (DataError E) () :=
    if finalized s then Err InvalidOperation else Ok tt.

(** Whether the xorb was added to the upload queue. *)
Definition register_new_xorb (s : t X) (xorb : RawXorbData.t) (file_dependencies : list FileXorbDependency) : result E (bool * t X) :=
    '(n, x) ← join_finished_uploads (inner s);
    let s := add_metrics s (uploaded_metrics n) in
    let '(xorb_is_new, x) := tracker_register_new_xorb x xorb in
    let x := register_dependencies x file_dependencies in
    if negb xorb_is_new then Ok (false, with_inner s x)
    else if (RawXorbData.num_bytes xorb =? 0)%Z
    then Ok (true, with_inner s (register_xorb_upload_completion x (RawXorbData.hash xorb)))
    else
      x ← add_xorb_block x xorb;
      x ← start_xorb_upload x xorb;
      Ok (true, with_inner s x).

(** [for (file_id, fi, bytes_in_xorb) in new_files] *)
Fixpoint register_files (s : t X) (xorb_hash : DataHash) (register : bool) (new_files : list (Z * MDBFileInfo.t * Z))
    (dependencies : list FileXorbDependency) (file_infos : list MDBFileInfo.t) :
    result E (list FileXorbDependency * list MDBFileInfo.t * t X) :=
    match new_files with
    | [] => Ok (dependencies, file_infos, s)
    | (file_id, fi, bytes_in_xorb) :: new_files' =>
        let dependencies := dependencies ++ [mkFileXorbDependency file_id xorb_hash bytes_in_xorb false] in
        if register then
          x ← add_file_reconstruction_info (inner s) fi;
          register_files (with_inner s x) xorb_hash register new_files' dependencies file_infos
        else register_files s xorb_hash register new_files' dependencies (file_infos ++ [fi])
    end.

Definition process_aggregated_data_as_xorb_impl (s : t X) (data_agg : DataAggregator.t) (register : bool) :
    result (DataError E) (list MDBFileInfo.t * t X) :=
    '(xorb, new_files) ← some_or_panic (DataAggregator.finalize data_agg);
    '(new_dependencies, file_infos, s) ← backend (register_files s (RawXorbData.hash xorb) register new_files [] []);
    '(_, s) ← backend (register_new_xorb s xorb new_dependencies);
    Ok (file_infos, s).

Definition process_aggregated_data_as_xorb (s : t X) (data_agg : DataAggregator.t) : result (DataError E) (t X) :=
    '(_, s) ← process_aggregated_data_as_xorb_impl s data_agg true;
    Ok s.

Definition register_single_file_clean_completion (s : t X) (file_data : DataAggregator.t) (dedup_metrics : DeduplicationMetrics.t) :
    result (DataError E) (t X) :=
    let current := current_session_data s in
    s ←
      (if (MAX_XORB_BYTES <? DataAggregator.num_bytes current + DataAggregator.num_bytes file_data)
          || (MAX_XORB_CHUNKS <? DataAggregator.num_chunks current + DataAggregator.num_chunks file_data)
       then
         let '(current, file_data) :=
           if DataAggregator.num_bytes file_data <? DataAggregator.num_bytes current then (file_data, current) else (current, file_data) in
         process_aggregated_data_as_xorb (with_current s current) file_data
       else Ok (with_current s (DataAggregator.merge_in current file_data)));
    Ok (add_metrics s dedup_metrics).

Definition register_single_file_clean_completion_detached (s : t X) (file_data : DataAggregator.t) (dedup_metrics : DeduplicationMetrics.t) :
    result (DataError E) (MDBFileInfo.t * t X) :=
    '(file_infos, s) ← process_aggregated_data_as_xorb_impl s file_data false;
    let s := add_metrics s dedup_metrics in
    match file_infos with
    | fi :: _ => Ok (fi, s)
    | [] => Err InternalError
    end.

Definition finalize_impl (s : t X) (return_files : bool) : result (DataError E) (DeduplicationMetrics.t * list MDBFileInfo.t * t X) :=
    if finalized s then Err InvalidOperation
    else
      let data_agg := current_session_data s in
      let s := mk (inner s) empty_aggregator (deduplication_metrics s) true in
      s ← process_aggregated_data_as_xorb s data_agg;
      '(n, x) ← backend (join_all_uploads (inner s));
      let metrics := DeduplicationMetrics.merge_in (deduplication_metrics s) (uploaded_metrics n) in
      let s := mk x (current_session_data s) DeduplicationMetrics.default (finalized s) in
      all_file_info ← (if return_files then backend (session_file_info_list (inner s)) else Ok []);
      '(shard_bytes, x) ← backend (upload_and_register_session_shards (inner s));
      Ok (with_shard_bytes metrics shard_bytes, all_file_info, with_inner s x).

Definition checkpoint (s : t X) : result (DataError E) (t X) :=
    let data_agg := current_session_data s in
    s ← process_aggregated_data_as_xorb (with_current s empty_aggregator) data_agg;
    '(n, x) ← backend (join_all_uploads (inner s));
    Ok (add_metrics (with_inner s x) (uploaded_metrics n)).

Definition register_composed_file (s : t X) (file_info : MDBFileInfo.t) : result (DataError E) (t X) :=
    _ ← check_not_finalized s;
    x ← backend (add_file_reconstruction_info (inner s) file_info);
    Ok (with_inner s x).

End Session.

End FileUploadSession.

(** ** The data manager of a deduper *)

Module UploadSessionDataManager.

Record t (X : Type) := mk {
  session : FileUploadSession.t X;
  active_global_dedup_queries : list DataHash;
}.
Arguments mk {X}.
Arguments session {X}.
Arguments active_global_dedup_queries {X}.

Section Manager.
  Context `{B3 : Blake3} `{XC : XorbConstants} {X E : Type} `{SB : !SessionBackend X E}.

Definition new (s : FileUploadSession.t X) : t X := mk s [].

Definition inner (m : t X) : X := FileUploadSession.inner (session m).
Definition with_inner (m : t X) (x : X) : t X :=
    mk (FileUploadSession.with_inner (session m) x) (active_global_dedup_queries m).

(** [while let Some(result) = self.active_global_dedup_queries.join_next().await] *)
Fixpoint join_queries (queries : list DataHash) (x : X) (any_result : bool) : result E (bool * X) :=
    match queries with
    | [] => Ok (any_result, x)
    | chunk_hash :: queries' => x ← query_dedup_shard_by_chunk x chunk_hash; join_queries queries' x true
    end.

Definition dedup_query (m : t X) (query_hashes : list DataHash) : result E (option DedupHit * t X) :=
    '(r, x) ← shard_dedup_query (inner m) query_hashes;
    Ok (r, with_inner m x).

Definition register_query (m : t X) (chunk_hash : DataHash) : result E (t X) :=
    if negb (global_dedup_query_enabled (X := X) (E := E)) then Ok m
    else Ok (mk (session m) (active_global_dedup_queries m ++ [chunk_hash])).

Definition complete_queries (m : t X) : result E (bool * t X) :=
    if negb (global_dedup_query_enabled (X := X) (E := E)) then Ok (false, m)
    else
      '(any_result, x) ← join_queries (active_global_dedup_queries m) (inner m) false;
      Ok (any_result, mk (FileUploadSession.with_inner (session m) x) []).

Definition register_xorb (m : t X) (xorb : RawXorbData.t) : result E (t X) :=
    '(_, s) ← FileUploadSession.register_new_xorb (session m) xorb [];
    Ok (mk s (active_global_dedup_queries m)).

#[global] Instance interface : DeduplicationDataInterface (t X) E := {|
    chunk_hash_dedup_query := dedup_query;
    register_global_dedup_query := register_query;
    complete_global_dedup_queries := complete_queries;
    Dedup.register_new_xorb := register_xorb;
    register_xorb_dependencies m deps := with_inner m (register_dependencies (inner m) deps);
  |}.

End Manager.

End UploadSessionDataManager.

(** ** The cleaner *)

Record XetFileInfo := mkXetFileInfo {
  hash_hex : list byte;
  file_size : option Z;
  sha256_hex : option (list byte);
}.

Definition XetFileInfo_new (hash : list byte) (size : Z) : XetFileInfo := mkXetFileInfo hash (Some size) None.

(** [MDBFileInfo::default()] *)
Definition default_file_info : MDBFileInfo.t := MDBFileInfo.mk (FileDataSequenceHeader.mk default 0 0 0) [] [] None.

Module SingleFileCleaner.

Record t `{SH : Sha2} (X E : Type) := mk {
  file_id : Z;
  chunker : Chunker;
  dedup_manager_fut : result (DataError E) (FileDeduper.t (UploadSessionDataManager.t X));
  sha_generator : option Sha256Generator.t;
  provided_sha256 : option DataHash;
}.
Arguments mk {SH X E}.
Arguments file_id {SH X E}.
Arguments chunker {SH X E}.
Arguments dedup_manager_fut {SH X E}.
Arguments sha_generator {SH X E}.
Arguments provided_sha256 {SH X E}.

Section Cleaner.
  Context `{B3 : Blake3} `{XC : XorbConstants} `{CC : ChunkConstants} `{GH : GearHasher} `{SH : Sha2}
    {X E : Type} `{SB : !SessionBackend X E}.

(** [None] when the assertions of the chunker fail. *)
Definition new (file_id : Z) (sha256 : Sha256Policy) (session : FileUploadSession.t X) (defrag : DefragPrevention.t) : option (t X E) :=
    let deduper := FileDeduper.new (UploadSessionDataManager.new session) file_id defrag in
    let '(sha_generator, provided_sha256) :=
      match sha256 with
      | ComputeSha => (Some Sha256Generator.new, None)
      | Provided hash => (None, Some hash)
      | Skip => (None, None)
      end in
    chunker ← Chunker_new TARGET_CHUNK_SIZE;
    Some (mk file_id chunker (Ok deduper) sha_generator provided_sha256).

Definition with_fut (cl : t X E) (fut : result (DataError E) (FileDeduper.t (UploadSessionDataManager.t X))) : t X E :=
    mk (file_id cl) (chunker cl) fut (sha_generator cl) (provided_sha256 cl).
Definition with_chunker (cl : t X E) (c : Chunker) : t X E :=
    mk (file_id cl) c (dedup_manager_fut cl) (sha_generator cl) (provided_sha256 cl).
Definition with_sha (cl : t X E) (g : option Sha256Generator.t) : t X E :=
    mk (file_id cl) (chunker cl) (dedup_manager_fut cl) g (provided_sha256 cl).

(** Waits for the last call and starts the next. *)
Definition deduper_process_chunks (cl : t X E) (chunks : list Chunk) : result (DataError E) (t X E) :=
    deduper ← dedup_manager_fut cl;
    Ok (with_fut cl ('(_, deduper) ← of_dedup (FileDeduper.process_chunks deduper chunks); Ok deduper)).

(** [completion_tracker.increment_file_size] on the session of the deduper. *)
Definition increment_size (n : Z) (cl : t X E) : t X E :=
    with_fut cl (deduper ← dedup_manager_fut cl;
      let m := FileDeduper.data_mng deduper in
      Ok (FileDeduper.with_data_mng deduper
            (UploadSessionDataManager.with_inner m (increment_file_size (UploadSessionDataManager.inner m) (file_id cl) n)))).

Definition add_data_chunk_impl (cl : t X E) (data : list byte) : result (DataError E) (t X E) :=
    let cl := increment_size (Z.of_nat (length data)) cl in
    let '(chunks, chunker) := next_block_bytes (chunker cl) data false in
    let cl := with_sha cl ((fun g => Sha256Generator.update g data) <$> sha_generator cl) in
    let cl := with_chunker cl chunker in
    match chunks with
    | [] => Ok cl
    | _ => deduper_process_chunks cl chunks
    end.

(** [while pos < data.len()], on the data from [pos]; every round takes a byte when the block
    size is positive. *)
Fixpoint add_data_loop (fuel : nat) (cl : t X E) (block_size : nat) (data : list byte) : result (DataError E) (t X E) :=
    match data with
    | [] => Ok cl
    | _ =>
        match fuel with
        | O => Err DataDiverges
        | S fuel' =>
            cl ← add_data_chunk_impl cl (take block_size data);
            add_data_loop fuel' cl block_size (drop block_size data)
        end
    end.

(** [add_data] and [add_data_from_bytes], with [ingestion_block_size]. *)
Definition add_data (block_size : nat) (cl : t X E) (data : list byte) : result (DataError E) (t X E) :=
    if block_size <? length data then add_data_loop (length data) cl block_size data
    else add_data_chunk_impl cl data.

Definition checkpoint (cl : t X E) : result (DataError E) (t X E) := deduper_process_chunks cl [].

Definition finish_inner (cl : t X E) (register : bool) :
    result (DataError E) (XetFileInfo * list Node * MDBFileInfo.t * DeduplicationMetrics.t * FileUploadSession.t X) :=
    let '(last, chunker) := finish (chunker cl) in
    cl ← (match last with
          | Some chunk => deduper_process_chunks (with_chunker cl chunker) [chunk]
          | None => Ok (with_chunker cl chunker)
          end);
    let sha256 := match sha_generator cl with
                  | Some generator => Some (Sha256Generator.finalize generator)
                  | None => provided_sha256 cl
                  end in
    let metadata_ext := FileMetadataExt.new <$> sha256 in
    deduper ← dedup_manager_fut cl;
    '(file_hash, chunk_hashes, remaining_file_data, metrics) ← some_or_panic (finalize_file deduper metadata_ext);
    let file_info := mkXetFileInfo (hex file_hash) (Some (DeduplicationMetrics.total_bytes metrics)) (hex <$> sha256) in
    let session := UploadSessionDataManager.session (FileDeduper.data_mng deduper) in
    '(mdb_file_info, session) ←
      (if register then
         session ← FileUploadSession.register_single_file_clean_completion session remaining_file_data metrics;
         Ok (default_file_info, session)
       else FileUploadSession.register_single_file_clean_completion_detached session remaining_file_data metrics);
    Ok (file_info, chunk_hashes, mdb_file_info, metrics, session).

Definition finish_with_chunks (cl : t X E) : result (DataError E) (XetFileInfo * list Node * DeduplicationMetrics.t * FileUploadSession.t X) :=
    '(file_info, chunk_hashes, _, metrics, session) ← finish_inner cl true;
    Ok (file_info, chunk_hashes, metrics, session).

Definition finish_with_chunks_detached (cl : t X E) := finish_inner cl false.

Definition finish_file (cl : t X E) : result (DataError E) (XetFileInfo * DeduplicationMetrics.t * FileUploadSession.t X) :=
    '(info, _chunks, metrics, session) ← finish_with_chunks cl;
    Ok (info, metrics, session).

End Cleaner.

End SingleFileCleaner.

Section StartClean.
  Context `{B3 : Blake3} `{XC : XorbConstants} `{CC : ChunkConstants} `{GH : GearHasher} `{SH : Sha2}
    {X E : Type} `{SB : !SessionBackend X E}.

(** [start_clean] and [start_clean_with_id]; the configuration of the fragmentation control is that
    of the session. *)
Definition start_clean (defrag : DefragPrevention.t) (s : FileUploadSession.t X) (size : option Z) (sha256 : Sha256Policy) :
    result (DataError E) (SingleFileCleaner.t X E) :=
    _ ← FileUploadSession.check_not_finalized s;
    let '(file_id, x) := register_new_file (FileUploadSession.inner s) size in
    some_or_panic (SingleFileCleaner.new file_id sha256 (FileUploadSession.with_inner s x) defrag).

(** The loop of [feed_file_to_cleaner], on the results of its reads up to the end of the file. *)
Fixpoint feed_reads (block_size : nat) (cl : SingleFileCleaner.t X E) (reads : list (list byte)) : result (DataError E) (SingleFileCleaner.t X E) :=
    match reads with
    | [] => Ok cl
    | data :: reads' => cl ← SingleFileCleaner.add_data block_size cl data; feed_reads block_size cl reads'
    end.

Definition feed_file_to_cleaner (block_size : nat) (cl : SingleFileCleaner.t X E) (reads : list (list byte)) :
    result (DataError E) (XetFileInfo * DeduplicationMetrics.t * FileUploadSession.t X) :=
    cl ← feed_reads block_size cl reads;
    SingleFileCleaner.finish_file cl.

(** [spawn_upload_from_path], awaited. *)
Definition upload_from_path (defrag : DefragPrevention.t) (block_size : nat) (s : FileUploadSession.t X) (file_len : Z)
    (sha256 : Sha256Policy) (reads : list (list byte)) : result (DataError E) (XetFileInfo * DeduplicationMetrics.t * FileUploadSession.t X) :=
    _ ← FileUploadSession.check_not_finalized s;
    cleaner ← start_clean defrag s (Some file_len) sha256;
    feed_file_to_cleaner block_size cleaner reads.

(** [spawn_upload_bytes], awaited. *)
Definition upload_bytes (defrag : DefragPrevention.t) (block_size : nat) (s : FileUploadSession.t X) (bytes : list byte) (sha256 : Sha256Policy) :
    result (DataError E) (XetFileInfo * DeduplicationMetrics.t * FileUploadSession.t X) :=
    _ ← FileUploadSession.check_not_finalized s;
    cleaner ← start_clean defrag s (Some (Z.of_nat (length bytes))) sha256;
    cleaner ← SingleFileCleaner.add_data block_size cleaner bytes;
    SingleFileCleaner.finish_file cleaner.

(** Files uploaded one after another, and the end of the session. *)
Fixpoint upload_all (defrag : DefragPrevention.t) (block_size : nat) (s : FileUploadSession.t X)
    (files : list (Sha256Policy * list (list byte))) : result (DataError E) (list XetFileInfo * FileUploadSession.t X) :=
    match files with
    | [] => Ok ([], s)
    | (sha256, reads) :: files' =>
        '(info, _, s) ← upload_from_path defrag block_size s (Z.of_nat (length (concat reads))) sha256 reads;
        '(infos, s) ← upload_all defrag block_size s files';
        Ok (info :: infos, s)
    end.

Definition upload_session (defrag : DefragPrevention.t) (block_size : nat) (x : X) (files : list (Sha256Policy * list (list byte))) :
    result (DataError E) (list XetFileInfo * FileUploadSession.t X) :=
    '(infos, s) ← upload_all defrag block_size (FileUploadSession.new x) files;
    '(_, _, s) ← FileUploadSession.finalize_impl s false;
    Ok (infos, s).

End StartClean.

(** ** What the backend promises

    What a state of the backend says of xorbs and files.  [XHolds x h nodes]: the xorb [h] is known in
    the shards of the session or in the cached ones, with these chunks; [Listed x fi]: the file is
    registered in the shards of the session.  On the side of the server, [Stored x h nodes]: it has
    the xorb; [Published x fi]: it has a shard with the file; and in between, [Sending x h nodes]: an
    upload task for the xorb was started and not joined. *)

Class SessionView (X : Type) := {
  XHolds : X -> DataHash -> list Node -> Prop;
  Listed : X -> MDBFileInfo.t -> Prop;
  Stored : X -> DataHash -> list Node -> Prop;
  Sending : X -> DataHash -> list Node -> Prop;
  Published : X -> MDBFileInfo.t -> Prop;
}.

(** Every known xorb is on the server, or on its way. *)
Definition backed `{SessionView X} (x : X) : Prop := forall h n, XHolds x h n -> Stored x h n \/ Sending x h n.

(** Nothing is forgotten; what was being sent is, or has arrived. *)
Record keeps `{SessionView X} (x x' : X) : Prop := {
  keeps_holds h n : XHolds x h n -> XHolds x' h n;
  keeps_listed fi : Listed x fi -> Listed x' fi;
  keeps_stored h n : Stored x h n -> Stored x' h n;
  keeps_sending h n : Sending x h n -> Sending x' h n \/ Stored x' h n;
  keeps_published fi : Published x fi -> Published x' fi;
}.

(** And what becomes known is on the server. *)
Definition grows `{SessionView X} (x x' : X) : Prop := keeps x x' /\ (backed x -> backed x').

(** Nothing known is forgotten, and what a query makes known comes from the shards of the server, whose
    xorbs it has.  A hit of a query names chunks with the hashes asked for; a xorb that is added is
    known, under a hash that is not the marker (see [DedupContract]), and it is the only one that
    becomes known; a xorb that the tracker has seen before has been added.  A registered file is
    listed.  An upload that is started is under way, and when all uploads were joined without an error
    they have arrived; when the shards were uploaded without an error the files listed are published. *)
Class SessionContract `{Blake3} `{XorbConstants} (X E : Type) `{SessionBackend X E} := {
  session_view :: SessionView X;
  XHolds_unique x h n1 n2 : XHolds x h n1 -> XHolds x h n2 -> n1 = n2;
  XHolds_not_marker x h n : XHolds x h n -> h <> marker;
  XHolds_bounded x h n : XHolds x h n -> nodes_bounded n;
  shard_query_grows x hs r x' : shard_dedup_query x hs = Ok (r, x') -> grows x x';
  shard_query_hit x hs n fse ext x' :
    shard_dedup_query x hs = Ok (Some (n, fse, ext), x') ->
    0 < n <= length hs /\ exists nodes, XHolds x' (FileDataSequenceEntry.xorb_hash fse) nodes /\ range_of nodes fse (take n hs);
  query_by_chunk_grows x c x' : query_dedup_shard_by_chunk x c = Ok x' -> grows x x';
  add_xorb_keeps x xo x' : add_xorb_block x xo = Ok x' -> keeps x x';
  add_xorb_holds x xo x' : add_xorb_block x xo = Ok x' -> xorb_within xo -> XHolds x' (RawXorbData.hash xo) (RawXorbData.nodes xo);
  add_xorb_only x xo x' h n :
    add_xorb_block x xo = Ok x' -> XHolds x' h n -> XHolds x h n \/ (h = RawXorbData.hash xo /\ n = RawXorbData.nodes xo);
  add_file_grows x fi x' : add_file_reconstruction_info x fi = Ok x' -> grows x x';
  add_file_listed x fi x' : add_file_reconstruction_info x fi = Ok x' -> Listed x' fi;
  upload_shards_grows x n x' : upload_and_register_session_shards x = Ok (n, x') -> grows x x';
  upload_shards_published x n x' fi : upload_and_register_session_shards x = Ok (n, x') -> Listed x fi -> Published x' fi;
  new_file_grows x size : grows x (register_new_file x size).2;
  increment_grows x id n : grows x (increment_file_size x id n);
  tracker_xorb_grows x xo : grows x (tracker_register_new_xorb x xo).2;
  tracker_xorb_known x xo :
    (tracker_register_new_xorb x xo).1 = false -> xorb_within xo -> XHolds x (RawXorbData.hash xo) (RawXorbData.nodes xo);
  register_deps_grows x deps : grows x (register_dependencies x deps);
  completion_grows x h : grows x (register_xorb_upload_completion x h);
  join_finished_grows x n x' : join_finished_uploads x = Ok (n, x') -> grows x x';
  start_upload_keeps x xo x' : start_xorb_upload x xo = Ok x' -> keeps x x';
  start_upload_only x xo x' h n : start_xorb_upload x xo = Ok x' -> XHolds x' h n -> XHolds x h n;
  start_upload_sends x xo x' : start_xorb_upload x xo = Ok x' -> Sending x' (RawXorbData.hash xo) (RawXorbData.nodes xo);
  join_all_grows x n x' : join_all_uploads x = Ok (n, x') -> grows x x';
  join_all_stored x n x' h nodes : join_all_uploads x = Ok (n, x') -> Sending x h nodes -> Stored x' h nodes;
}.

(** ** The data manager keeps the contract of the deduper *)

Section Manager.
  Context `{B3 : Blake3} `{XC : XorbConstants} {X E : Type} `{SB : !SessionBackend X E} `{SC : !SessionContract X E}.

#[export] Instance keeps_preorder : PreOrder (keeps (X := X)).
Proof.
  split; [intros x; by constructor; auto|]. intros x y z [H1 H2 H3 H4 H5] [G1 G2 G3 G4 G5]. constructor; auto.
  intros h n [H|H]%H4; auto.
Qed.

#[export] Instance grows_preorder : PreOrder (grows (X := X)).
Proof. split; [by intros x|]. intros x y z [H1 H2] [H3 H4]. split; [by etrans|auto]. Qed.

Lemma grows_holds (x x' : X) h n : grows x x' -> XHolds x h n -> XHolds x' h n.
Proof. intros [H _]. apply (keeps_holds _ _ H). Qed.

Lemma grows_listed (x x' : X) fi : grows x x' -> Listed x fi -> Listed x' fi.
Proof. intros [H _]. apply (keeps_listed _ _ H). Qed.

(** A xorb that is added and sent. *)
Lemma added_and_sent x xo x' x'' : add_xorb_block x xo = Ok x' -> start_xorb_upload x' xo = Ok x'' -> grows x x''.
Proof.
  intros Ha Hs. pose proof (add_xorb_keeps _ _ _ Ha) as Ka. pose proof (start_upload_keeps _ _ _ Hs) as Ks. split; [by etrans|].
  intros Hb h n Hh. apply (start_upload_only _ _ _ _ _ Hs) in Hh. destruct (add_xorb_only _ _ _ _ _ Ha Hh) as [Hx|[-> ->]].
  - destruct (Hb _ _ Hx) as [H|H]; [left; by apply (keeps_stored _ _ Ks), (keeps_stored _ _ Ka)|].
    destruct (keeps_sending _ _ Ka _ _ H) as [H'|H']; [|left; by apply (keeps_stored _ _ Ks)].
    destruct (keeps_sending _ _ Ks _ _ H') as [?|?]; auto.
  - right. by eapply start_upload_sends.
Qed.

(** The parts of a session that its uploads leave alone. *)
Definition same_data (s s' : FileUploadSession.t X) : Prop :=
    FileUploadSession.current_session_data s' = FileUploadSession.current_session_data s /\
    FileUploadSession.finalized s' = FileUploadSession.finalized s.

Lemma register_new_xorb_ok (s s' : FileUploadSession.t X) xo deps b :
    FileUploadSession.register_new_xorb s xo deps = Ok (b, s') ->
    grows (FileUploadSession.inner s) (FileUploadSession.inner s') /\ same_data s s' /\
    (xorb_within xo -> XHolds (FileUploadSession.inner s') (RawXorbData.hash xo) (RawXorbData.nodes xo)).
Proof.
  unfold FileUploadSession.register_new_xorb. destruct (join_finished_uploads _) as [[n x1]|] eqn:Hj; [|done]. cbn [mbind result_bind].
  apply join_finished_grows in Hj. pose proof (tracker_xorb_grows x1 xo) as Ht. pose proof (tracker_xorb_known x1 xo) as Hk.
  destruct (tracker_register_new_xorb x1 xo) as [is_new x2]. cbn [fst snd] in *.
  pose proof (register_deps_grows x2 deps) as Hd. set (x3 := register_dependencies x2 deps) in *.
  assert (grows (FileUploadSession.inner s) x3) as H3 by (etrans; [exact Hj|]; etrans; [exact Ht|exact Hd]).
  destruct is_new; cbn [negb].
  2: { intros [= <- <-]. split_and!; [done|done|]. intros Hw. by apply (grows_holds _ _ _ _ Hd), (grows_holds _ _ _ _ Ht), Hk. }
  destruct (Z.eqb_spec (RawXorbData.num_bytes xo) 0) as [E0|_].
  { intros [= <- <-]. split_and!; [|done|intros (_ & ? & _); lia]. etrans; [exact H3|apply completion_grows]. }
  destruct (add_xorb_block x3 xo) as [x4|] eqn:Ha; [|done]. cbn [mbind result_bind].
  destruct (start_xorb_upload x4 xo) as [x5|] eqn:Hs; [|done]. cbn [mbind result_bind]. intros [= <- <-].
  split_and!; [|done|].
  - etrans; [exact H3|]. by eapply added_and_sent.
  - intros Hw. apply (keeps_holds _ _ (start_upload_keeps _ _ _ Hs)). by eapply add_xorb_holds.
Qed.

Lemma join_queries_grows queries x any b x' :
    UploadSessionDataManager.join_queries (E := E) queries x any = Ok (b, x') -> grows x x'.
Proof.
  revert x any. induction queries as [|h queries IH]; intros x any; cbn [UploadSessionDataManager.join_queries]; [by intros [= <- <-]|].
  destruct (query_dedup_shard_by_chunk x h) as [x1|] eqn:Hq; [|done]. cbn [mbind result_bind]. intros Hj.
  etrans; [by eapply query_by_chunk_grows|by eapply IH].
Qed.

#[global, refine] Instance manager_contract : DedupContract (UploadSessionDataManager.t X) E := {|
    Holds m := XHolds (UploadSessionDataManager.inner m);
  |}.
Proof.
  all: cbn [chunk_hash_dedup_query register_global_dedup_query complete_global_dedup_queries Dedup.register_new_xorb register_xorb_dependencies
            UploadSessionDataManager.interface].
  - intros m. apply XHolds_unique.
  - intros m. apply XHolds_not_marker.
  - intros m. apply XHolds_bounded.
  - intros m hs r m'. unfold UploadSessionDataManager.dedup_query. destruct (shard_dedup_query _ hs) as [[r' x]|] eqn:Hq; [|done].
    intros [= <- <-] h n. cbn. apply grows_holds. exact (shard_query_grows _ _ _ _ Hq).
  - intros m hs n fse ext m'. unfold UploadSessionDataManager.dedup_query. destruct (shard_dedup_query _ hs) as [[r' x]|] eqn:Hq; [|done].
    intros [= -> <-]. by eapply shard_query_hit.
  - intros m c m'. unfold UploadSessionDataManager.register_query. case_match; by intros [= <-].
  - intros m b m'. unfold UploadSessionDataManager.complete_queries. case_match; [by intros [= <- <-]|].
    destruct (UploadSessionDataManager.join_queries _ _ _) as [[b' x]|] eqn:Hj; [|done]. intros [= <- <-] h n.
    apply grows_holds. exact (join_queries_grows _ _ _ _ _ Hj).
  - intros m x m'. unfold UploadSessionDataManager.register_xorb. destruct (FileUploadSession.register_new_xorb _ _ _) as [[b s]|] eqn:Hr; [|done].
    intros [= <-] h n. apply grows_holds. by apply (register_new_xorb_ok _ _ _ _ _ Hr).
  - intros m x m'. unfold UploadSessionDataManager.register_xorb. destruct (FileUploadSession.register_new_xorb _ _ _) as [[b s]|] eqn:Hr; [|done].
    intros [= <-]. by apply (register_new_xorb_ok _ _ _ _ _ Hr).
  - intros m deps h n. apply grows_holds, (register_deps_grows (UploadSessionDataManager.inner m) deps).
Defined.

(** A deduper that works on a session changes only what the backend holds. *)
Definition works_on (s : FileUploadSession.t X) (m : UploadSessionDataManager.t X) : Prop :=
    grows (FileUploadSession.inner s) (UploadSessionDataManager.inner m) /\ same_data s (UploadSessionDataManager.session m).

Lemma works_on_invariant s : interface_invariant (works_on s).
Proof.
  assert (forall m m', works_on s m -> grows (UploadSessionDataManager.inner m) (UploadSessionDataManager.inner m') ->
    same_data (UploadSessionDataManager.session m) (UploadSessionDataManager.session m') -> works_on s m') as Hstep.
  { intros m m' [Hg [H1 H2]] Hg' [H3 H4]. split; [by etrans|]. split; congruence. }
  split; cbn [chunk_hash_dedup_query register_global_dedup_query complete_global_dedup_queries Dedup.register_new_xorb register_xorb_dependencies
              UploadSessionDataManager.interface].
  - intros m hs r m'. unfold UploadSessionDataManager.dedup_query. destruct (shard_dedup_query _ hs) as [[r' x]|] eqn:Hq; [|done].
    intros [= <- <-] Hm. eapply Hstep; [exact Hm| |done]. exact (shard_query_grows _ _ _ _ Hq).
  - intros m c m'. unfold UploadSessionDataManager.register_query. case_match; by intros [= <-].
  - intros m b m'. unfold UploadSessionDataManager.complete_queries. case_match; [by intros [= <- <-]|].
    destruct (UploadSessionDataManager.join_queries _ _ _) as [[b' x]|] eqn:Hj; [|done]. intros [= <- <-] Hm.
    eapply Hstep; [exact Hm| |done]. exact (join_queries_grows _ _ _ _ _ Hj).
  - intros m x m'. unfold UploadSessionDataManager.register_xorb. destruct (FileUploadSession.register_new_xorb _ _ _) as [[b s']|] eqn:Hr; [|done].
    intros [= <-] _ Hm. destruct (register_new_xorb_ok _ _ _ _ _ Hr) as (Hg & Hs & _). by eapply Hstep.
  - intros m deps Hm. eapply Hstep; [exact Hm| |done]. apply register_deps_grows.
Qed.

End Manager.

(** ** Runs that end, without a panic, in a value or in an error of the backend *)

Definition yields {E A} (r : result (DataError E) A) (P : A -> Prop) : Prop :=
  match r with
  | Ok a => P a
  | Err (Backend _) => True
  | Err _ => False
  end.

Lemma session_bind {E A B} (r : result (DataError E) A) (k : A -> result (DataError E) B) P Q :
  yields r P -> (forall a, P a -> yields (k a) Q) -> yields (r ≫= k) Q.
Proof. destruct r as [a|[]]; cbn; auto. Qed.

Lemma yields_impl {E A} (r : result (DataError E) A) (P Q : A -> Prop) : yields r P -> (forall a, P a -> Q a) -> yields r Q.
Proof. destruct r as [a|[]]; cbn; auto. Qed.

Lemma yields_backend {E A} (r : result E A) (P : A -> Prop) : (forall a, r = Ok a -> P a) -> yields (backend r) P.
Proof. destruct r; cbn; auto. Qed.

Lemma yields_dedup {E A} (r : result (DedupError E) A) (P : A -> Prop) : returns r P -> yields (of_dedup r) P.
Proof. destruct r as [a|[]]; cbn; auto. Qed.

(** ** The files of a session *)

Section Files.
  Context `{B3 : Blake3} `{XC : XorbConstants} {X E : Type} `{SB : !SessionBackend X E} `{SC : !SessionContract X E}.

(** A file: its chunks and its extension. *)
Abbreviation File := (list Node * option FileMetadataExt.t)%type.

Abbreviation manager := (UploadSessionDataManager.new (X := X)).

(** The file information [fi] is that of the file [f], with segments that are known. *)
Definition stands_for (x : X) (fi : MDBFileInfo.t) (f : File) : Prop :=
    exists hss, describes fi f.1 f.2 hss /\ Forall2 (resolved (manager (FileUploadSession.new x))) (MDBFileInfo.segments fi) hss.

(** A file is registered, and its segments are known and name its chunks. *)
Definition settled (x : X) (f : File) : Prop :=
    exists fi, Listed x fi /\ stands_for x fi f.

(** The server has the file: a shard with it, and the xorbs of its segments. *)
Definition uploaded (x : X) (f : File) : Prop :=
    exists fi hss, Published x fi /\ describes fi f.1 f.2 hss /\
      Forall2 (fun seg hs => exists nodes, Stored x (FileDataSequenceEntry.xorb_hash seg) nodes /\ range_of nodes seg hs) (MDBFileInfo.segments fi) hss.

(** The pending files of an aggregator. *)
Definition waiting (x : X) (a : DataAggregator.t) (files : list File) : Prop :=
    exists hsss, agg_ok (manager (FileUploadSession.new x)) a hsss /\
      Forall3 (fun p f hss => describes p.1.1 f.1 f.2 hss) (DataAggregator.pending_file_info a) files hsss.

Lemma extends_grows (m m' : UploadSessionDataManager.t X) :
    grows (UploadSessionDataManager.inner m) (UploadSessionDataManager.inner m') -> extends m m'.
Proof. intros H h n. by apply grows_holds. Qed.

Lemma resolved_grows x x' s hs :
    grows x x' -> resolved (manager (FileUploadSession.new x)) s hs -> resolved (manager (FileUploadSession.new x')) s hs.
Proof. intros Hg (nodes & Hn & Hr). exists nodes. split; [by eapply grows_holds|done]. Qed.

Lemma settled_grows x x' f : grows x x' -> settled x f -> settled x' f.
Proof.
  intros Hg (fi & Hl & hss & Hd & Hr). exists fi. split; [by eapply grows_listed|]. exists hss. split; [done|].
  eapply Forall2_impl; [done|]. intros s hs. by apply resolved_grows.
Qed.

Lemma waiting_grows x x' a files : grows x x' -> waiting x a files -> waiting x' a files.
Proof.
  intros Hg (hsss & (Hnd & Hn & Hp) & Hf). exists hsss. split; [|done]. split_and!; [done|done|].
  eapply Forall2_impl; [done|]. intros p hss [Hm Hs]. split; [done|]. eapply Forall2_impl; [done|]. intros s hs.
  apply segment_in_extends. by apply extends_grows.
Qed.

Lemma waiting_empty x : waiting x empty_aggregator [].
Proof. exists []. split; [|constructor]. split_and!; [|done|constructor]. split_and!; [unfold chunks_size; simpl; lia|simpl; lia|constructor]. Qed.

Lemma waiting_merge x a b fa fb :
    waiting x a fa -> waiting x b fb ->
    DataAggregator.num_bytes a + DataAggregator.num_bytes b <= MAX_XORB_BYTES ->
    DataAggregator.num_chunks a + DataAggregator.num_chunks b <= MAX_XORB_CHUNKS ->
    waiting x (DataAggregator.merge_in a b) (fa ++ fb).
Proof.
  intros (ha & Ha & Fa) (hb & Hb & Fb) H1 H2. exists (ha ++ hb). split; [by apply merge_in_ok|]. cbn.
  apply Forall3_app; [done|]. clear -Fb. induction Fb as [|[[fi idx] id] f hss pb fb hb Hd _ IH]; constructor; [|done].
  apply describes_segments; [done|]. by rewrite length_fmap.
Qed.

Lemma register_files_ok s h register new_files deps infos :
    yields (backend (FileUploadSession.register_files s h register new_files deps infos)) (fun '(_, infos', s') =>
      grows (FileUploadSession.inner s) (FileUploadSession.inner s') /\ same_data s s' /\
      if register then Forall (fun f => Listed (FileUploadSession.inner s') f.1.2) new_files else infos' = infos ++ ((fun f => f.1.2) <$> new_files)).
Proof.
  apply yields_backend. revert s deps infos. induction new_files as [|[[id fi] n] new_files IH]; intros s deps infos [[deps' infos'] s'];
    cbn [FileUploadSession.register_files].
  { intros [= <- <- <-]. split_and!; [done|done|]. destruct register; [constructor|by rewrite app_nil_r]. }
  destruct register.
  - destruct (add_file_reconstruction_info (FileUploadSession.inner s) fi) as [x|] eqn:Ha; [|done]. cbn [mbind result_bind].
    intros Hr. destruct (IH _ _ _ _ Hr) as (Hg & Hs & Hf). cbn [FileUploadSession.inner FileUploadSession.with_inner] in Hg. split_and!; [|done|].
    + etrans; [exact (add_file_grows _ _ _ Ha)|exact Hg].
    + constructor; [|done]. cbn. eapply grows_listed; [exact Hg|]. by eapply add_file_listed.
  - intros Hr. destruct (IH _ _ _ _ Hr) as (Hg & Hs & ->). split_and!; [done|done|]. by rewrite <- app_assoc.
Qed.

Lemma files_finalized x m chunks pending out files hsss :
    Forall3 (finalized (manager (FileUploadSession.new x))) pending out hsss -> Forall2 (pending_ok m chunks) pending hsss ->
    Forall3 (fun p (f : File) hss => describes p.1.1 f.1 f.2 hss) pending files hsss ->
    Forall2 (fun o => stands_for x o.1.2) out files.
Proof.
  intros Hf. revert files. induction Hf as [|p o hss ps out hsss Hp Hf IH]; intros files Hk Hd.
  { inversion Hd; subst. constructor. }
  apply Forall2_cons in Hk as [[_ Hk] Hks]. inversion Hd as [|? f ? ? files' ? Hdf Hds]; subst. constructor; [|by apply IH].
  destruct Hp as (_ & Hm & Hv & He & Hr). exists hss. split; [|done].
  destruct Hdf as (H1 & H2 & H3 & H4). unfold describes. rewrite Hm, Hv, He.
  rewrite (Forall2_length _ _ _ Hr), <- (Forall2_length _ _ _ Hk). done.
Qed.

(** A xorb is cut: the files that waited for it are settled, or returned. *)
Lemma process_aggregated_ok s a files register :
    waiting (FileUploadSession.inner s) a files ->
    yields (FileUploadSession.process_aggregated_data_as_xorb_impl s a register) (fun '(infos, s') =>
      grows (FileUploadSession.inner s) (FileUploadSession.inner s') /\ same_data s s' /\
      if register then Forall (settled (FileUploadSession.inner s')) files
      else Forall2 (stands_for (FileUploadSession.inner s')) infos files).
Proof.
  intros (hsss & Hagg & Hdesc). unfold FileUploadSession.process_aggregated_data_as_xorb_impl.
  pose proof Hagg as ((Hb & Hc & Hst) & Hnum & _).
  destruct (finalize_ok _ _ _ Hagg) as (xo & out & Hfin & Hn & Ho & Hr). rewrite Hfin. cbn [some_or_panic result_of_option mbind result_bind].
  eapply session_bind; [apply register_files_ok|]. intros [[deps infos] s1] (Hg1 & Hs1 & Hl).
  eapply session_bind; [apply yields_backend; intros r Hr'; exact Hr'|]. intros [b s2] Hreg. cbn beta in Hreg.
  apply register_new_xorb_ok in Hreg as (Hg2 & Hs2 & Hx). cbn [yields]. split_and!; [by etrans|by destruct Hs1, Hs2; split; congruence|].
  assert (grows (FileUploadSession.inner s) (FileUploadSession.inner s2)) as Hg by by etrans.
  specialize (Hr (manager (FileUploadSession.new (FileUploadSession.inner s2))) ltac:(by apply extends_grows)).
  pose proof (filled_finalized _ _ _ _ _ Ho (Hr ltac:(intros Hne; by apply Hx; eapply finalize_within))) as Hall. clear Hr Hx.
  destruct Hagg as (_ & _ & Hpend). pose proof (files_finalized _ _ _ _ _ _ _ Hall Hpend Hdesc) as Hout. destruct register.
  - clear -Hg2 Hl Hout. revert files Hout. induction Hl as [|o out Ho _ IH]; intros files Hf; [by apply Forall2_nil_inv_l in Hf as ->|].
    apply Forall2_cons_inv_l in Hf as (f & files' & Hof & Hf & ->). constructor; [|by apply IH]. exists o.1.2. split; [by eapply grows_listed|done].
  - rewrite Hl. cbn. by apply Forall2_fmap_l.
Qed.

(** The files of a session, each settled or waiting for the next xorb. *)
Definition SessionInv (s : FileUploadSession.t X) (files : list File) : Prop :=
    exists pending, waiting (FileUploadSession.inner s) (FileUploadSession.current_session_data s) pending /\
      Forall (fun f => settled (FileUploadSession.inner s) f \/ f ∈ pending) files.

Lemma session_inv_new x : SessionInv (FileUploadSession.new x) [].
Proof. exists []. split; [apply waiting_empty|constructor]. Qed.

Lemma session_inv_grows s s' files :
    grows (FileUploadSession.inner s) (FileUploadSession.inner s') ->
    FileUploadSession.current_session_data s' = FileUploadSession.current_session_data s ->
    SessionInv s files -> SessionInv s' files.
Proof.
  intros Hg Hc (pending & Hw & Hf). exists pending. rewrite Hc. split; [by eapply waiting_grows|].
  eapply Forall_impl; [exact Hf|]. intros f [Hs|Hp]; [left; by eapply settled_grows|by right].
Qed.

(** Cutting one aggregator and keeping another. *)
Lemma process_aggregated_inv s a kept fa fk files :
    waiting (FileUploadSession.inner s) a fa -> waiting (FileUploadSession.inner s) kept fk ->
    Forall (fun f => settled (FileUploadSession.inner s) f \/ f ∈ fa \/ f ∈ fk) files ->
    yields (FileUploadSession.process_aggregated_data_as_xorb (FileUploadSession.with_current s kept) a) (fun s' =>
      waiting (FileUploadSession.inner s') kept fk /\
      Forall (fun f => settled (FileUploadSession.inner s') f \/ f ∈ fk) files /\
      grows (FileUploadSession.inner s) (FileUploadSession.inner s') /\ same_data (FileUploadSession.with_current s kept) s').
Proof.
  intros Ha Hk Hf. unfold FileUploadSession.process_aggregated_data_as_xorb.
  eapply session_bind; [exact (process_aggregated_ok (FileUploadSession.with_current s kept) a fa true Ha)|].
  intros [infos s'] (Hg & Hs & Hset). cbn in Hg. cbn [yields]. split_and!; [by eapply waiting_grows| |done|done].
  eapply Forall_impl; [exact Hf|]. intros f [H|[H|H]].
  - left. by eapply settled_grows.
  - left. by eapply Forall_forall in Hset.
  - by right.
Qed.

(** A cleaned file is handed to the session. *)
Lemma clean_completion_ok s files a f m :
    SessionInv s files -> waiting (FileUploadSession.inner s) a [f] ->
    yields (FileUploadSession.register_single_file_clean_completion s a m) (fun s' =>
      SessionInv s' (files ++ [f]) /\ grows (FileUploadSession.inner s) (FileUploadSession.inner s') /\
      FileUploadSession.finalized s' = FileUploadSession.finalized s).
Proof.
  intros (pending & Hw & Hf) Ha. unfold FileUploadSession.register_single_file_clean_completion.
  set (cur := FileUploadSession.current_session_data s) in *.
  assert (Forall (fun g => settled (FileUploadSession.inner s) g \/ g ∈ pending \/ g ∈ [f]) (files ++ [f])) as Hfs.
  { apply Forall_app. split; [eapply Forall_impl; [exact Hf|]; intros g Hg; cbn in *; tauto|]. constructor; [|constructor]. right. right. by apply list_elem_of_singleton. }
  assert (forall s0, FileUploadSession.finalized s0 = FileUploadSession.finalized s -> grows (FileUploadSession.inner s) (FileUploadSession.inner s0) ->
    SessionInv s0 (files ++ [f]) -> yields (Ok (FileUploadSession.add_metrics s0 m) : result (DataError E) _) (fun s' =>
      SessionInv s' (files ++ [f]) /\ grows (FileUploadSession.inner s) (FileUploadSession.inner s') /\
      FileUploadSession.finalized s' = FileUploadSession.finalized s)) as Hend by done.
  destruct (_ || _) eqn:Hfull.
  - destruct (DataAggregator.num_bytes a <? DataAggregator.num_bytes cur); (eapply session_bind;
      [eapply process_aggregated_inv with (files := files ++ [f]);
         [done..|eapply Forall_impl; [exact Hfs|]; intros g Hg; cbn in *; tauto]
      |intros s0 (Hi & Hset & Hg & [Hc Hs]); apply Hend; [done|done|]; eexists; rewrite Hc; by split]).
  - apply orb_false_iff in Hfull as [H1%Nat.ltb_ge H2%Nat.ltb_ge]. cbn [mbind result_bind]. apply Hend; [done|done|].
    exists (pending ++ [f]). split; [by apply waiting_merge|]. eapply Forall_impl; [exact Hfs|]. intros g. rewrite elem_of_app. tauto.
Qed.

(** The same without a registration: the file information is returned. *)
Lemma clean_completion_detached_ok s files a f m :
    SessionInv s files -> waiting (FileUploadSession.inner s) a [f] ->
    yields (FileUploadSession.register_single_file_clean_completion_detached s a m) (fun '(fi, s') =>
      SessionInv s' files /\ grows (FileUploadSession.inner s) (FileUploadSession.inner s') /\ same_data s s' /\
      stands_for (FileUploadSession.inner s') fi f).
Proof.
  intros Hi Ha. unfold FileUploadSession.register_single_file_clean_completion_detached.
  eapply session_bind; [by apply (process_aggregated_ok s a [f] false)|]. intros [infos s'] (Hg & Hs & Hst).
  apply Forall2_cons_inv_r in Hst as (fi & infos' & Hst & ->%Forall2_nil_inv_r & ->). cbn [yields]. split_and!; try done.
  apply (session_inv_grows s); [done|by destruct Hs|done].
Qed.

(** Joining the uploads and then uploading the shards puts every settled file on the server. *)
Lemma settled_uploaded x n x1 m x2 :
    backed x -> join_all_uploads x = Ok (n, x1) -> upload_and_register_session_shards x1 = Ok (m, x2) -> forall f, settled x f -> uploaded x2 f.
Proof.
  intros Hb Hj Hu f (fi & Hl & hss & Hd & Hr). pose proof (join_all_grows _ _ _ Hj) as Gj. pose proof (upload_shards_grows _ _ _ Hu) as [Ku _].
  exists fi, hss. split; [eapply upload_shards_published; [exact Hu|by eapply grows_listed]|]. split; [done|].
  eapply Forall2_impl; [exact Hr|]. intros seg hs (nodes & Hn & Hrg). exists nodes. split; [|done]. apply (keeps_stored _ _ Ku).
  destruct (Hb _ _ Hn) as [H|H]; [by apply (keeps_stored _ _ (proj1 Gj))|by eapply join_all_stored].
Qed.

(** The end of a session: every file is settled, and on the server. *)
Lemma finalize_impl_ok s files return_files :
    SessionInv s files -> FileUploadSession.finalized s = false ->
    yields (FileUploadSession.finalize_impl s return_files) (fun '(_, _, s') =>
      Forall (settled (FileUploadSession.inner s')) files /\ grows (FileUploadSession.inner s) (FileUploadSession.inner s') /\
      FileUploadSession.finalized s' = true /\
      (backed (FileUploadSession.inner s) -> Forall (uploaded (FileUploadSession.inner s')) files /\
         forall f, settled (FileUploadSession.inner s) f -> uploaded (FileUploadSession.inner s') f)).
Proof.
  intros (pending & Hw & Hf) Hfin. unfold FileUploadSession.finalize_impl. rewrite Hfin.
  set (s0 := FileUploadSession.mk _ _ _ true).
  eapply session_bind; [apply (process_aggregated_inv s0 _ empty_aggregator pending [] files); [done|apply waiting_empty|]|].
  { eapply Forall_impl; [exact Hf|]. intros g Hg; cbn in *; tauto. }
  intros s1 (_ & Hset & Hg1 & [_ Hf1]). cbn in Hf1, Hg1.
  eapply session_bind; [apply yields_backend; intros r Hr; exact Hr|]. intros [n x1] Hj. cbn beta in Hj. cbn [FileUploadSession.inner].
  eapply (session_bind _ _ (fun _ => True)); [destruct return_files; [by apply yields_backend|done]|]. intros all _.
  eapply session_bind; [apply yields_backend; intros r Hr; exact Hr|]. intros [sb x2] Hu. cbn beta in Hu. cbn.
  assert (grows (FileUploadSession.inner s1) x2) as Hg2.
  { etrans; [exact (join_all_grows _ _ _ Hj)|exact (upload_shards_grows _ _ _ Hu)]. }
  split_and!; [|by etrans|done|].
  - eapply Forall_impl; [exact Hset|]. intros f [H|H]; [by eapply settled_grows|by apply elem_of_nil in H].
  - intros Hb. pose proof (settled_uploaded _ _ _ _ _ (proj2 Hg1 Hb) Hj Hu) as Hup. split.
    + eapply Forall_impl; [exact Hset|]. intros f [H|H]; [by apply Hup|by apply elem_of_nil in H].
    + intros f Hsf. apply Hup. by eapply settled_grows.
Qed.

End Files.

(** ** Cleaning a file *)

Section Clean.
  Context `{B3 : Blake3} `{XC : XorbConstants} `{CC : ChunkConstants} `{GH : GearHasher} `{SH : Sha2}
    {X E : Type} `{SB : !SessionBackend X E} `{SC : !SessionContract X E}.
  Context (c : Chunker) (Hnew : Chunker_new TARGET_CHUNK_SIZE = Some c) (Hmax : maximum_chunk c <= MAX_XORB_BYTES).

#[local] Abbreviation Cleaner := (SingleFileCleaner.t X E).

(** The chunks of a file. *)
Definition file_nodes (data : list byte) : list Node := chunk_node <$> (Chunk_new <$> cdc c data).

Lemma cdc_chunk_ok data : Forall chunk_ok (Chunk_new <$> cdc c data).
Proof.
  destruct (Chunker_new_ok _ _ Hnew) as [Hc _]. apply Forall_fmap, Forall_lookup_2. intros i d Hd.
  destruct (cdc_sizes c _ _ _ Hc Hd) as [Hs _]. split; cbn; [lia|]. unfold storable. cbn. lia.
Qed.

Lemma cdc_split data : cdc c data = (cdc_open c data).1 ++ match (cdc_open c data).2 with [] => [] | r => [r] end.
Proof.
  destruct (Chunker_new_ok _ _ Hnew) as [Hc _]. pose proof (cdc_app c data [] Hc) as E0. rewrite !app_nil_r in E0. rewrite E0. f_equal.
  destruct (cdc_open c data).2 eqn:E2; [done|]. rewrite cdc_none; [done..|]. rewrite <- E2. by apply cdc_open_rest.
Qed.

Lemma cdc_open_chunk_ok data : Forall chunk_ok (Chunk_new <$> (cdc_open c data).1).
Proof. pose proof (cdc_chunk_ok data) as H. rewrite cdc_split, fmap_app in H. by apply Forall_app in H as [H _]. Qed.

(** The deduper of a cleaner has seen the chunks [chunks]. *)
Definition deduper_ok (s : FileUploadSession.t X) (chunks : list Chunk) (fd : FileDeduper.t (UploadSessionDataManager.t X)) : Prop :=
    Inv fd (FileDeduper.chunk_hashes fd).*1 /\ FileDeduper.chunk_hashes fd = chunk_node <$> chunks /\
    works_on s (FileDeduper.data_mng fd).

(** The SHA-256 state after the blocks [blocks]. *)
Definition sha_ok (policy : Sha256Policy) (blocks : list (list byte)) (cl : Cleaner) : Prop :=
    match policy with
    | ComputeSha =>
        SingleFileCleaner.sha_generator cl = Some (Sha256Generator.mk
          (match blocks with [] => None | _ => Some (sha2_update sha2_default (concat blocks)) end))
    | Provided h => SingleFileCleaner.sha_generator cl = None /\ SingleFileCleaner.provided_sha256 cl = Some h
    | Skip => SingleFileCleaner.sha_generator cl = None /\ SingleFileCleaner.provided_sha256 cl = None
    end.

(** A cleaner that has been given the blocks [blocks]. *)
Definition CleanerInv (s : FileUploadSession.t X) (policy : Sha256Policy) (blocks : list (list byte)) (cl : Cleaner) : Prop :=
    SingleFileCleaner.chunker cl = fed c (cdc_open c (concat blocks)).2 /\ sha_ok policy blocks cl /\
    yields (SingleFileCleaner.dedup_manager_fut cl) (deduper_ok s (Chunk_new <$> (cdc_open c (concat blocks)).1)).

Lemma cleaner_new_ok s id policy defrag :
    exists cl, SingleFileCleaner.new (E := E) id policy s defrag = Some cl /\ CleanerInv s policy [] cl.
Proof.
  unfold SingleFileCleaner.new. rewrite Hnew. destruct (Chunker_new_ok _ _ Hnew) as [_ Ec].
  destruct policy; (eexists; split; [done|]; split_and!; [exact Ec|done|]; cbn; split_and!; [apply new_inv|done|done]).
Qed.

Lemma deduper_process_ok s seen cl chunks :
    yields (SingleFileCleaner.dedup_manager_fut cl) (deduper_ok s seen) -> Forall chunk_ok chunks ->
    yields (SingleFileCleaner.deduper_process_chunks cl chunks) (fun cl' =>
      exists fut, cl' = SingleFileCleaner.with_fut cl fut /\ yields fut (deduper_ok s (seen ++ chunks))).
Proof.
  intros Hf Hok. unfold SingleFileCleaner.deduper_process_chunks. eapply session_bind; [exact Hf|].
  intros fd (Hinv & Hch & Hw). cbn [yields]. eexists. split; [done|].
  eapply session_bind; [apply yields_dedup, (process_chunks_ok _ (works_on_invariant s)); [exact Hok|exact Hinv|exact Hw]|].
  intros [m fd'] (Hinv' & Hch' & _ & _ & Hw' & _). cbn [yields]. split_and!; [done|by rewrite Hch', Hch, fmap_app|done].
Qed.

Lemma increment_size_ok s seen n cl :
    yields (SingleFileCleaner.dedup_manager_fut cl) (deduper_ok s seen) ->
    yields (SingleFileCleaner.dedup_manager_fut (SingleFileCleaner.increment_size n cl)) (deduper_ok s seen).
Proof.
  intros Hf. cbn. eapply session_bind; [exact Hf|]. intros fd (Hinv & Hch & Hw). cbn [yields].
  assert (grows (UploadSessionDataManager.inner (FileDeduper.data_mng fd))
    (increment_file_size (UploadSessionDataManager.inner (FileDeduper.data_mng fd)) (SingleFileCleaner.file_id cl) n)) as Hg by apply increment_grows.
  split_and!; [by apply Inv_extends; [|apply extends_grows]|done|]. destruct Hw as [Hw1 Hw2]. split; [by etrans|done].
Qed.

Lemma add_data_chunk_ok s policy blocks cl data :
    CleanerInv s policy blocks cl -> yields (SingleFileCleaner.add_data_chunk_impl cl data) (CleanerInv s policy (blocks ++ [data])).
Proof.
  intros (Hch & Hsha & Hfut). destruct (Chunker_new_ok _ _ Hnew) as [Hc _]. unfold SingleFileCleaner.add_data_chunk_impl.
  apply (increment_size_ok s _ (Z.of_nat (length data))) in Hfut. set (cl1 := SingleFileCleaner.increment_size _ cl) in *.
  assert (SingleFileCleaner.chunker cl1 = SingleFileCleaner.chunker cl) as Ec by done. rewrite Ec, Hch.
  set (r := (cdc_open c (concat blocks)).2). assert (first_boundary c r = None) as Hr by (by apply cdc_open_rest).
  rewrite next_block_bytes_open by done.
  assert (concat (blocks ++ [data]) = concat blocks ++ data) as Hcat by (by rewrite concat_app; cbn; rewrite app_nil_r).
  pose proof (cdc_open_app c (concat blocks) data Hc) as Happ. fold r in Happ. rewrite <- Hcat in Happ.
  set (cs := Chunk_new <$> (cdc_open c (r ++ data)).1).
  set (cl2 := SingleFileCleaner.with_chunker _ _).
  assert (sha_ok policy (blocks ++ [data]) cl2) as Hsha2.
  { unfold sha_ok in *. subst cl2. cbn. destruct policy as [|h|].
    - rewrite Hsha. unfold Sha256Generator.update. cbn. do 3 f_equal. rewrite Hcat. destruct blocks as [|b bs]; cbn; [done|]. f_equal. apply sha2_update_app.
    - destruct Hsha as [-> ?]. done.
    - destruct Hsha as [-> ?]. done. }
  assert (forall fut, yields fut (deduper_ok s ((Chunk_new <$> (cdc_open c (concat blocks)).1) ++ cs)) ->
    CleanerInv s policy (blocks ++ [data]) (SingleFileCleaner.with_fut cl2 fut)) as Hend.
  { intros fut Hf. split_and!; [cbn; by rewrite Happ|by destruct policy|]. rewrite Happ. cbn. by rewrite fmap_app. }
  destruct cs as [|c0 cs'] eqn:Ecs.
  - apply (Hend (SingleFileCleaner.dedup_manager_fut cl2)). by rewrite app_nil_r.
  - eapply yields_impl; [eapply (deduper_process_ok s _ cl2); [exact Hfut|rewrite <- Ecs; apply cdc_open_chunk_ok]|].
    intros cl' (fut & -> & Hf). by apply Hend.
Qed.

Lemma add_data_loop_ok s policy block_size data fuel blocks cl :
    0 < block_size -> length data <= fuel -> CleanerInv s policy blocks cl ->
    yields (SingleFileCleaner.add_data_loop fuel cl block_size data) (fun cl' =>
      exists pieces, concat pieces = data /\ (data <> [] -> pieces <> []) /\ CleanerInv s policy (blocks ++ pieces) cl').
Proof.
  intros Hb. revert data blocks cl. induction fuel as [|fuel IH]; intros data blocks cl Hf Hcl; destruct data as [|x data]; cbn [SingleFileCleaner.add_data_loop].
  1, 3: cbn; exists []; by rewrite app_nil_r.
  - simpl in Hf. lia.
  - set (d := x :: data) in *. eapply session_bind; [by apply add_data_chunk_ok|]. intros cl1 H1.
    eapply yields_impl; [apply IH; [rewrite length_drop; lia|exact H1]|]. intros cl2 (pieces & Hc & _ & H2).
    exists (take block_size d :: pieces). rewrite <- app_assoc in H2. split_and!; [cbn; by rewrite Hc, take_drop|done|done].
Qed.

Lemma add_data_ok s policy block_size data blocks cl :
    0 < block_size -> CleanerInv s policy blocks cl ->
    yields (SingleFileCleaner.add_data block_size cl data) (fun cl' =>
      exists pieces, concat pieces = data /\ pieces <> [] /\ CleanerInv s policy (blocks ++ pieces) cl').
Proof.
  intros Hb Hcl. unfold SingleFileCleaner.add_data. destruct (Nat.ltb_spec block_size (length data)).
  - eapply yields_impl; [by apply (add_data_loop_ok s policy)|]. intros cl' (pieces & Hc & Hne & H'). exists pieces. split_and!; [done| |done].
    apply Hne. intros ->. simpl in *. lia.
  - eapply yields_impl; [by apply add_data_chunk_ok|]. intros cl' H'. exists [data]. cbn. by rewrite app_nil_r.
Qed.

(** The SHA-256 that is reported. *)
Definition policy_sha (policy : Sha256Policy) (blocks : list (list byte)) : option DataHash :=
    match policy with
    | ComputeSha => Some (match blocks with [] => default | _ => sha256_of (concat blocks) end)
    | Provided h => Some h
    | Skip => None
    end.

Definition file_spec (policy : Sha256Policy) (blocks : list (list byte)) : list Node * option FileMetadataExt.t :=
    (file_nodes (concat blocks), FileMetadataExt.new <$> policy_sha policy blocks).

Lemma finish_chunks_ok s policy blocks cl :
    CleanerInv s policy blocks cl ->
    let '(last, ch) := finish (SingleFileCleaner.chunker cl) in
    yields (match last with
            | Some chunk => SingleFileCleaner.deduper_process_chunks (SingleFileCleaner.with_chunker cl ch) [chunk]
            | None => Ok (SingleFileCleaner.with_chunker cl ch)
            end) (fun cl' => sha_ok policy blocks cl' /\
      yields (SingleFileCleaner.dedup_manager_fut cl') (deduper_ok s (Chunk_new <$> cdc c (concat blocks)))).
Proof.
  intros (Hch & Hsha & Hfut). destruct (Chunker_new_ok _ _ Hnew) as [Hc _]. rewrite Hch, finish_fed by (exact Hc || by apply cdc_open_rest).
  pose proof (cdc_chunk_ok (concat blocks)) as Hok. pose proof (cdc_split (concat blocks)) as Hs. rewrite Hs in Hok |- *. rewrite fmap_app in *.
  apply Forall_app in Hok as [_ Hok]. set (cs := Chunk_new <$> (cdc_open c (concat blocks)).1) in *.
  destruct (cdc_open c (concat blocks)).2 as [|x r] eqn:Er.
  - cbn. rewrite app_nil_r. split; [by destruct policy|done].
  - eapply yields_impl; [apply (deduper_process_ok s cs); [exact Hfut|exact Hok]|]. intros cl' (fut & -> & Hf). split; [by destruct policy|done].
Qed.

(** What [finish] and its variants do. *)
Definition finished (s : FileUploadSession.t X) (files : list (list Node * option FileMetadataExt.t)) (policy : Sha256Policy)
    (blocks : list (list byte)) (register : bool)
    (r : XetFileInfo * list Node * MDBFileInfo.t * DeduplicationMetrics.t * FileUploadSession.t X) : Prop :=
    let '(info, nodes, mdb, _, s') := r in
    hash_hex info = hex (file_hash (file_nodes (concat blocks))) /\ sha256_hex info = hex <$> policy_sha policy blocks /\
    nodes = file_nodes (concat blocks) /\
    grows (FileUploadSession.inner s) (FileUploadSession.inner s') /\ FileUploadSession.finalized s' = FileUploadSession.finalized s /\
    if register then SessionInv s' (files ++ [file_spec policy blocks])
    else SessionInv s' files /\ stands_for (FileUploadSession.inner s') mdb (file_spec policy blocks).

Lemma finish_inner_ok s files policy blocks cl register :
    CleanerInv s policy blocks cl -> SessionInv s files -> (Z.of_nat (length (cdc c (concat blocks))) < 2 ^ 32)%Z ->
    yields (SingleFileCleaner.finish_inner cl register) (finished s files policy blocks register).
Proof.
  intros Hcl Hs Hlen. unfold SingleFileCleaner.finish_inner. pose proof (finish_chunks_ok s policy blocks cl Hcl) as Hfin.
  destruct (finish _) as [last ch]. eapply session_bind; [exact Hfin|]. clear Hfin. intros cl1 [Hsha Hfut].
  set (sha256 := match SingleFileCleaner.sha_generator cl1 with Some g => _ | None => _ end).
  assert (sha256 = policy_sha policy blocks) as ->.
  { subst sha256. unfold sha_ok in Hsha. destruct policy; [rewrite Hsha; by destruct blocks|destruct Hsha as [-> ->]; done..]. }
  eapply session_bind; [exact Hfut|]. intros fd (Hinv & Hch & [Hg [Hcur Hfin]]).
  destruct (finalize_file_ok fd _ (FileMetadataExt.new <$> policy_sha policy blocks) Hinv Hch)
    as (fi & hss & Hff & Hagg & Hd); [by rewrite !length_fmap|]. cbn zeta in *. rewrite Hff. cbn [some_or_panic result_of_option mbind result_bind].
  set (agg := DataAggregator.new _ _ _ _) in *. set (s1 := UploadSessionDataManager.session (FileDeduper.data_mng fd)) in *.
  assert (SessionInv s1 files) as Hs1 by (by apply (session_inv_grows s)).
  assert (waiting (FileUploadSession.inner s1) agg [file_spec policy blocks]) as Hw.
  { exists [hss]. split; [exact Hagg|]. constructor; [done|constructor]. }
  destruct register.
  - eapply (session_bind _ _ (fun r => SessionInv r.2 (files ++ [file_spec policy blocks]) /\
      grows (FileUploadSession.inner s1) (FileUploadSession.inner r.2) /\ FileUploadSession.finalized r.2 = FileUploadSession.finalized s1)).
    + eapply session_bind; [by apply (clean_completion_ok s1 files agg (file_spec policy blocks))|]. by intros s2 H2.
    + intros [mdb s2] (Hi2 & Hg2 & Hf2). cbn in *. split_and!; [done|done|done|by etrans|congruence|done].
  - eapply session_bind; [by apply (clean_completion_detached_ok s1 files agg (file_spec policy blocks))|].
    intros [mdb s2] (Hi2 & Hg2 & [_ Hf2] & Hst). cbn. split_and!; [done|done|done|by etrans|congruence|done|done].
Qed.

Lemma policy_sha_pieces policy blocks blocks' :
    concat blocks = concat blocks' -> (blocks = [] <-> blocks' = []) -> policy_sha policy blocks = policy_sha policy blocks'.
Proof. intros Hc Hn. destruct policy; [|done..]. cbn. do 2 f_equal. rewrite Hc. destruct blocks, blocks'; naive_solver. Qed.

Lemma feed_reads_ok s policy block_size reads blocks cl :
    0 < block_size -> CleanerInv s policy blocks cl ->
    yields (feed_reads block_size cl reads) (fun cl' =>
      exists pieces, concat pieces = concat reads /\ (pieces = [] <-> reads = []) /\ CleanerInv s policy (blocks ++ pieces) cl').
Proof.
  intros Hb. revert blocks cl. induction reads as [|d reads IH]; intros blocks cl Hcl; cbn [feed_reads].
  - cbn. exists []. by rewrite app_nil_r.
  - eapply session_bind; [by apply (add_data_ok s policy block_size d)|]. intros cl1 (p1 & Hc1 & Hn1 & H1).
    eapply yields_impl; [by apply IH|]. intros cl2 (p2 & Hc2 & _ & H2). exists (p1 ++ p2). rewrite <- app_assoc in H2.
    split_and!; [by rewrite concat_app, Hc1, Hc2| |done]. split; [|done]. intros [? _]%app_eq_nil. done.
Qed.

Lemma start_clean_ok s files defrag size policy :
    SessionInv s files -> FileUploadSession.finalized s = false ->
    yields (start_clean (E := E) defrag s size policy) (fun cl => exists s', CleanerInv s' policy [] cl /\ SessionInv s' files /\
      grows (FileUploadSession.inner s) (FileUploadSession.inner s') /\ FileUploadSession.finalized s' = false).
Proof.
  intros Hs Hf. unfold start_clean, FileUploadSession.check_not_finalized. rewrite Hf. cbn [mbind result_bind].
  pose proof (new_file_grows (FileUploadSession.inner s) size) as Hg. destruct (register_new_file _ _) as [id x]. cbn [snd] in Hg.
  destruct (cleaner_new_ok (FileUploadSession.with_inner s x) id policy defrag) as (cl & -> & Hcl). cbn.
  eexists. split_and!; [exact Hcl|by apply (session_inv_grows s)|done|done].
Qed.

Lemma upload_from_path_ok s files defrag block_size len policy reads :
    0 < block_size -> SessionInv s files -> FileUploadSession.finalized s = false -> (Z.of_nat (length (cdc c (concat reads))) < 2 ^ 32)%Z ->
    yields (upload_from_path (E := E) defrag block_size s len policy reads) (fun '(info, _, s') =>
      hash_hex info = hex (file_hash (file_nodes (concat reads))) /\ sha256_hex info = hex <$> policy_sha policy reads /\
      SessionInv s' (files ++ [file_spec policy reads]) /\ FileUploadSession.finalized s' = false /\
      grows (FileUploadSession.inner s) (FileUploadSession.inner s')).
Proof.
  intros Hb Hs Hf Hl. unfold upload_from_path, feed_file_to_cleaner. unfold FileUploadSession.check_not_finalized at 1. rewrite Hf. cbn [mbind result_bind].
  eapply session_bind; [by apply (start_clean_ok s files)|]. intros cl (s1 & Hcl & Hs1 & Hg1 & Hf1).
  eapply session_bind; [by apply (feed_reads_ok s1 policy _ reads [])|]. intros cl1 (pieces & Hc & Hn & Hcl1). cbn [app] in Hcl1.
  assert (policy_sha policy pieces = policy_sha policy reads) as Hsha by (by apply policy_sha_pieces).
  unfold SingleFileCleaner.finish_file, SingleFileCleaner.finish_with_chunks.
  eapply session_bind; [eapply session_bind; [apply (finish_inner_ok s1 files policy pieces cl1 true); [done|done|by rewrite Hc]|]|].
  - intros [[[[info nodes] mdb] m] s2] H. instantiate (1 := fun '(info, nodes, m, s2) => finished s1 files policy pieces true (info, nodes, default_file_info, m, s2)). done.
  - intros [[[info nodes] m] s2] (H1 & H2 & _ & H4 & H5 & H6). cbn. rewrite Hc in H1. rewrite Hsha in H2. unfold file_spec in *. rewrite Hc, Hsha in H6.
    split_and!; [done|done|done|congruence|by etrans].
Qed.

Lemma upload_all_ok s done defrag block_size files :
    0 < block_size -> SessionInv s done -> FileUploadSession.finalized s = false ->
    Forall (fun f => (Z.of_nat (length (cdc c (concat f.2))) < 2 ^ 32)%Z) files ->
    yields (upload_all (E := E) defrag block_size s files) (fun '(infos, s') =>
      Forall2 (fun info f => hash_hex info = hex (file_hash (file_nodes (concat f.2))) /\ sha256_hex info = hex <$> policy_sha f.1 f.2) infos files /\
      SessionInv s' (done ++ ((fun f => file_spec f.1 f.2) <$> files)) /\ FileUploadSession.finalized s' = false /\
      grows (FileUploadSession.inner s) (FileUploadSession.inner s')).
Proof.
  intros Hb. revert s done. induction files as [|[policy reads] files IH]; intros s dn Hs Hf Hl; cbn [upload_all].
  - cbn. rewrite app_nil_r. by split_and!.
  - apply Forall_cons in Hl as [Hl1 Hl]. eapply session_bind; [by apply (upload_from_path_ok s dn)|].
    intros [[info m] s1] (H1 & H2 & Hs1 & Hf1 & Hg1). eapply session_bind; [by apply IH|]. intros [infos s2] (H3 & Hs2 & Hf2 & Hg2). cbn.
    split_and!; [by constructor| |done|by etrans]. by rewrite <- app_assoc in Hs2.
Qed.

(** C4: Every file of a session ends up on the server and can be read back.  Files are uploaded one after
    another, each read in any blocks, and the session is finalized, with a backend that keeps its
    contract (and so never accepts a xorb under the marker hash).  The run ends without a panic, in a
    value or in an error of the backend.  In the first case each file is reported with the Merkle hash
    of its content-defined chunks and the SHA-256 its policy asks for, and is registered in the
    shards of the session with segments of known xorbs that name exactly those chunks, in order,
    whichever xorbs the session cut and however files share them.  When the xorbs known at the start
    were on the server, or on their way, the server then has a shard with each file and every xorb that
    its segments name: no upload is skipped, and all of them were waited for.  This is the code of
    release builds, which do not check the size that was announced for a file. *)
Theorem upload_session_settles defrag block_size x files :
    0 < block_size -> Forall (fun f => (Z.of_nat (length (cdc c (concat f.2))) < 2 ^ 32)%Z) files ->
    yields (upload_session (E := E) defrag block_size x files) (fun '(infos, s') =>
      Forall2 (fun info f => hash_hex info = hex (file_hash (file_nodes (concat f.2))) /\ sha256_hex info = hex <$> policy_sha f.1 f.2) infos files /\
      Forall (fun f => settled (FileUploadSession.inner s') (file_spec f.1 f.2)) files /\ FileUploadSession.finalized s' = true /\
      (backed x -> Forall (fun f => uploaded (FileUploadSession.inner s') (file_spec f.1 f.2)) files)).
Proof.
  intros Hb Hl. unfold upload_session. eapply session_bind; [apply (upload_all_ok (FileUploadSession.new x) []); [done|apply session_inv_new|done|done]|].
  intros [infos s1] (Hi & Hs1 & Hf1 & Hg1). eapply session_bind; [by apply finalize_impl_ok|].
  intros [[m all] s2] (Hset & _ & Hf2 & Hup). cbn [app] in *. rewrite Forall_fmap in Hset. cbn [yields]. split_and!; [exact Hi|exact Hset|exact Hf2|].
  intros Hbx. destruct (Hup (proj2 Hg1 Hbx)) as [Hall _]. by rewrite Forall_fmap in Hall.
Qed.

End Clean.
