(* ===== verification/RangeUpload.v ===== *)
(** * Uploading the edited ranges of a file

    Model of [xet_data/src/processing/range_upload.rs]: an existing file is edited by replacing
    ranges of its bytes, and only the windows of chunks around the edits are uploaded again; the
    hash of the new file is merged from the subtrees of the unchanged gaps and of the new windows,
    and its file information is spliced from the old segments and the new ones.

    The session and the cleaner are those of [UploadSession], and the response of the server is
    that of [ChunkWindows].  The client is the class [RangeClient]; a stream of reconstructed data
    is the list of its items.  A reader is the list of bytes it can yield.  The index into the
    edits, into the segments and into the verification hashes is the list of those that are
    left. *)

From Stdlib Require Import SpecFloat.
From coqutil Require Import Byte Word.LittleEndianList.
From stdpp Require Import base numbers gmap list.
From S2P Require Import Prelude Sums DataHash AggregatedHash MerkleSubtree Chunking ChunkStability FileStructs XorbStructs RawXorb Defrag Dedup Aggregator CasTypes ChunkWindows UploadSession.

#[local] Open Scope Z_scope.

Record DirtyInput := mkDirtyInput {
  original_range : FileRange.t;
  reader : list byte;
  new_length : Z;
}.

Definition STREAM_BLOCK_SIZE : Z := 4 * 1024 * 1024.

Record UploadedWindow := mkUploadedWindow {
  uw_start : Z;
  uw_end : Z;
  uw_chunks : list Node;
  uw_mdb : MDBFileInfo.t;
}.

Class RangeClient (E : Type) := {
  get_file_reconstruction_info : DataHash -> result E (option MDBFileInfo.t);
  get_file_chunk_hashes : DataHash -> list FileRange.t -> result E FileChunkHashesResponse;
  reconstruct_to_stream : DataHash -> FileRange.t -> list (result E (list byte));
}.

Definition e_start (d : DirtyInput) : Z := FileRange.start (original_range d).
Definition e_end (d : DirtyInput) : Z := FileRange.end_ (original_range d).

(** ** Checks of the arguments *)

(** [for (i, input) in dirty_inputs.iter().enumerate()]; [first] is [i == 0]. *)
Fixpoint validate_loop {E} (first : bool) (prev_end : Z) (dirty_inputs : list DirtyInput) (original_size : Z) : result (DataError E) () :=
  match dirty_inputs with
  | [] => Ok tt
  | input :: dirty_inputs' =>
      if e_end input <? e_start input then Err ParameterError
      else if original_size <? e_end input then Err ParameterError
      else if negb first && (e_start input <? prev_end) then Err ParameterError
      else validate_loop false (e_end input) dirty_inputs' original_size
  end.

Definition validate_dirty_ranges {E} (dirty_inputs : list DirtyInput) (original_size : Z) : result (DataError E) () :=
  validate_loop true 0 dirty_inputs original_size.

(** The bytes removed and added by a list of edits. *)
Definition removed_added (dirty_inputs : list DirtyInput) : Z * Z :=
  fold_left (fun '(r, a) d => (wrap64 (r + (e_end d - e_start d)), wrap64 (a + new_length d))) dirty_inputs (0, 0).

Definition compute_total_size {E} (original_size : Z) (dirty_inputs : list DirtyInput) : result (DataError E) Z :=
  let '(removed, added) := removed_added dirty_inputs in
  if 2 ^ 64 <=? original_size + added then Err ParameterError
  else if original_size + added <? removed then Err ParameterError
  else Ok (original_size + added - removed).

(** ** Segment boundaries *)

Fixpoint seg_starts_loop (acc : Z) (segments : list Segment) : list Z :=
  match segments with
  | [] => []
  | s :: segments' =>
      let acc := wrap64 (acc + FileDataSequenceEntry.unpacked_segment_bytes s) in
      acc :: seg_starts_loop acc segments'
  end.

Definition seg_byte_starts_of (segments : list Segment) : list Z := 0 :: seg_starts_loop 0 segments.

(** [partition_point] of a sorted list. *)
Fixpoint partition_point (p : Z -> bool) (l : list Z) : nat :=
  match l with
  | x :: l' => if p x then S (partition_point p l') else 0
  | [] => 0
  end.

Definition snap_to_segment_start (seg_byte_starts : list Z) (byte : Z) : option Z :=
  let idx := partition_point (fun s => s <=? byte) seg_byte_starts in
  seg_byte_starts !! (idx - 1)%nat.

Definition snap_to_segment_end (seg_byte_starts : list Z) (byte : Z) : option Z :=
  let idx := partition_point (fun s => s <? byte) seg_byte_starts in
  seg_byte_starts !! idx.

(** One round of [for input in &dirty_inputs]; [None] when an index is out of range. *)
Definition snap_input (seg_byte_starts : list Z) (n_segs : nat) (original_size : Z) (input : DirtyInput) : option (Z * Z) :=
  let r := original_range input in
  if FileRange.start r =? FileRange.end_ r then
    if FileRange.start r =? original_size then
      match n_segs with
      | O => None
      | S i => s ← seg_byte_starts !! i; e ← seg_byte_starts !! n_segs; Some (s, e)
      end
    else
      s ← snap_to_segment_start seg_byte_starts (FileRange.start r);
      e ← snap_to_segment_end seg_byte_starts (FileRange.start r + 1);
      Some (s, e)
  else
    s ← snap_to_segment_start seg_byte_starts (FileRange.start r);
    e ← snap_to_segment_end seg_byte_starts (FileRange.end_ r);
    Some (s, e).

(** [sort_by_key(|&(s, _)| s)], a stable sort. *)
Fixpoint insert_by_start (r : Z * Z) (l : list (Z * Z)) : list (Z * Z) :=
  match l with
  | [] => [r]
  | x :: l' => if r.1 <=? x.1 then r :: l else x :: insert_by_start r l'
  end.

Definition sort_by_start (l : list (Z * Z)) : list (Z * Z) := foldr insert_by_start [] l.

(** [for r in snapped]; [last] is the last range of [coalesced]. *)
Fixpoint coalesce_loop (snapped : list (Z * Z)) (last : option (Z * Z)) : list (Z * Z) :=
  match snapped with
  | [] => option_list last
  | r :: snapped' =>
      match last with
      | Some (s, e) =>
          if r.1 <=? e then coalesce_loop snapped' (Some (s, e `max` r.2))
          else (s, e) :: coalesce_loop snapped' (Some r)
      | None => coalesce_loop snapped' (Some r)
      end
  end.

Definition coalesce (snapped : list (Z * Z)) : list (Z * Z) := coalesce_loop snapped None.

(** ** The windows *)

(** The condition of [take_while]. *)
Definition edit_in_window (original_size w_end : Z) (d : DirtyInput) : bool :=
  if e_start d =? e_end d then (e_start d <? w_end) || ((e_start d =? w_end) && (w_end =? original_size))
  else e_end d <=? w_end.

Fixpoint take_edits (original_size w_end : Z) (dirty_inputs : list DirtyInput) : list DirtyInput * list DirtyInput :=
  match dirty_inputs with
  | d :: dirty_inputs' =>
      if edit_in_window original_size w_end d
      then let '(es, rest) := take_edits original_size w_end dirty_inputs' in (d :: es, rest)
      else ([], dirty_inputs)
  | [] => ([], [])
  end.

(** A segment with its first byte and the byte after its last. *)
Abbreviation PlacedSegment := (Segment * (Z * Z))%type.

Section Windows.
  Context `{B3 : Blake3} `{XC : XorbConstants} `{CC : ChunkConstants} `{GH : GearHasher} `{SH : Sha2}
    {X E : Type} `{SB : !SessionBackend X E} `{RC : !RangeClient E}.
  Context (defrag : DefragPrevention.t) (block_size : nat).

#[local] Abbreviation Cleaner := (SingleFileCleaner.t X E).

(** [while let Some(chunk) = stream.next().await?] *)
Fixpoint stream_items (cl : Cleaner) (items : list (result E (list byte))) : result (DataError E) Cleaner :=
    match items with
    | [] => Ok cl
    | item :: items' =>
        chunk ← backend item;
        cl ← SingleFileCleaner.add_data block_size cl chunk;
        stream_items cl items'
    end.

Definition stream_cas_range (cl : Cleaner) (file_hash : DataHash) (start end_ : Z) : result (DataError E) Cleaner :=
    stream_items cl (reconstruct_to_stream file_hash (FileRange.new start end_)).

(** [while remaining > 0], with [read_exact]; a round reads at least a byte. *)
Fixpoint read_loop (fuel : nat) (buf_len : Z) (cl : Cleaner) (reader : list byte) (remaining : Z) : result (DataError E) Cleaner :=
    if remaining <=? 0 then Ok cl
    else
      match fuel with
      | O => Err DataDiverges
      | S fuel' =>
          let to_read := buf_len `min` remaining in
          if Z.of_nat (length reader) <? to_read then Err InternalError
          else
            cl ← SingleFileCleaner.add_data block_size cl (take (Z.to_nat to_read) reader);
            read_loop fuel' buf_len cl (drop (Z.to_nat to_read) reader) (remaining - to_read)
      end.

(** [for input in window_edits.iter_mut()]; the cleaner and the cursor after it. *)
Fixpoint edits_loop (cl : Cleaner) (file_hash : DataHash) (cursor : Z) (window_edits : list DirtyInput) : result (DataError E) (Cleaner * Z) :=
    match window_edits with
    | [] => Ok (cl, cursor)
    | input :: window_edits' =>
        cl ← (if cursor <? e_start input then stream_cas_range cl file_hash cursor (e_start input) else Ok cl);
        cl ← read_loop (Z.to_nat (new_length input)) STREAM_BLOCK_SIZE cl (reader input) (new_length input);
        edits_loop cl file_hash (e_end input) window_edits'
    end.

(** One round of [for window in response.windows.iter()]. *)
Definition upload_window (s : FileUploadSession.t X) (file_hash : DataHash) (original_size : Z) (window : FileRange.t)
    (dirty_inputs : list DirtyInput) : result (DataError E) (UploadedWindow * list DirtyInput * FileUploadSession.t X) :=
    let w_start := FileRange.start window in
    let w_end := FileRange.end_ window in
    let '(window_edits, rest) := take_edits original_size w_end dirty_inputs in
    let '(removed, added) := removed_added window_edits in
    let middle_size := wrap64 (wrap64 (w_end - w_start + added) - removed) in
    cleaner ← start_clean defrag s (Some middle_size) Skip;
    '(cleaner, cursor) ← edits_loop cleaner file_hash w_start window_edits;
    cleaner ← (if cursor <? w_end then stream_cas_range cleaner file_hash cursor w_end else Ok cleaner);
    '(_, chunks, mdb, _, s) ← SingleFileCleaner.finish_with_chunks_detached cleaner;
    Ok (mkUploadedWindow w_start w_end chunks mdb, rest, s).

Fixpoint upload_windows (s : FileUploadSession.t X) (file_hash : DataHash) (original_size : Z) (windows : list FileRange.t)
    (dirty_inputs : list DirtyInput) : result (DataError E) (list UploadedWindow * list DirtyInput * FileUploadSession.t X) :=
    match windows with
    | [] => Ok ([], dirty_inputs, s)
    | window :: windows' =>
        '(w, dirty_inputs, s) ← upload_window s file_hash original_size window dirty_inputs;
        '(ws, dirty_inputs, s) ← upload_windows s file_hash original_size windows' dirty_inputs;
        Ok (w :: ws, dirty_inputs, s)
    end.

(** [upload_fresh_file] *)
Fixpoint fresh_loop (cl : Cleaner) (dirty_inputs : list DirtyInput) : result (DataError E) Cleaner :=
    match dirty_inputs with
    | [] => Ok cl
    | input :: dirty_inputs' =>
        let remaining := new_length input in
        cl ← read_loop (Z.to_nat remaining) (STREAM_BLOCK_SIZE `min` (remaining `max` 1)) cl (reader input) remaining;
        fresh_loop cl dirty_inputs'
    end.

Definition upload_fresh_file (x : X) (dirty_inputs : list DirtyInput) (total_size : Z) :
    result (DataError E) (XetFileInfo * FileUploadSession.t X) :=
    let session := FileUploadSession.new x in
    cleaner ← start_clean defrag session (Some total_size) Skip;
    cleaner ← fresh_loop cleaner dirty_inputs;
    '(info, _, session) ← SingleFileCleaner.finish_file cleaner;
    '(_, _, session) ← FileUploadSession.finalize_impl session false;
    Ok (info, session).

(** ** The hash of the new file *)

(** [for (i, (w, gap)) in uploaded.iter().zip(hash_ranges).enumerate()] *)
Fixpoint merge_seq_loop (first first_window_at_start last_window_at_end : bool) (windows : list (UploadedWindow * option MerkleHashSubtree)) :
    list MerkleHashSubtree :=
    match windows with
    | [] => []
    | (w, gap) :: windows' =>
        let at_start := first && first_window_at_start in
        let at_end := match windows' with [] => last_window_at_end | _ => false end in
        option_list gap ++ from_chunks at_start (uw_chunks w) at_end :: merge_seq_loop false first_window_at_start last_window_at_end windows'
    end.

Definition merge_seq (uploaded : list UploadedWindow) (hash_ranges : list (option MerkleHashSubtree)) : list MerkleHashSubtree :=
    let trailing_gap := match last hash_ranges with Some g => g | None => None end in
    let hash_ranges := removelast hash_ranges in
    let first_window_at_start := match hash_ranges with None :: _ => true | _ => false end in
    let last_window_at_end := match trailing_gap with None => true | Some _ => false end in
    merge_seq_loop true first_window_at_start last_window_at_end (zip uploaded hash_ranges) ++ option_list trailing_gap.

Definition combined_hash_of (total_size : Z) (uploaded : list UploadedWindow) (hash_ranges : list (option MerkleHashSubtree)) :
    result (DataError E) DataHash :=
    merged ← (match merge (merge_seq uploaded hash_ranges) with Ok t => Ok t | Err _ => Err InternalError end);
    aggregated ← some_or_panic (final_hash merged);
    aggregated_hash ← result_of_option InternalError aggregated;
    Ok (if total_size =? 0 then default else hmac aggregated_hash default).

(** ** The file information of the new file *)

(** [while seg_idx < n_segs && seg_byte_starts[seg_idx] < w.start] *)
Fixpoint copy_before (w_start : Z) (segs : list PlacedSegment) (gaps : list DataHash) :
    result (DataError E) (list Segment * list FileVerificationEntry.t * list PlacedSegment * list DataHash) :=
    match segs with
    | (seg, (seg_start, seg_end)) :: segs' =>
        if seg_start <? w_start then
          if w_start <? seg_end then Err InternalError
          else
            match gaps with
            | [] => Err InternalError
            | entry :: gaps' =>
                '(ss, vs, segs, gaps) ← copy_before w_start segs' gaps';
                Ok (seg :: ss, FileVerificationEntry.new entry :: vs, segs, gaps)
            end
        else Ok ([], [], segs, gaps)
    | [] => Ok ([], [], [], gaps)
    end.

(** [while seg_idx < n_segs && seg_byte_starts[seg_idx] < w.end] *)
Fixpoint skip_window (w_end : Z) (segs : list PlacedSegment) : list PlacedSegment :=
    match segs with
    | (seg, (seg_start, seg_end)) :: segs' => if seg_start <? w_end then skip_window w_end segs' else segs
    | [] => []
    end.

(** The last loop. *)
Fixpoint copy_rest (segs : list PlacedSegment) (gaps : list DataHash) :
    result (DataError E) (list Segment * list FileVerificationEntry.t * list DataHash) :=
    match segs with
    | [] => Ok ([], [], gaps)
    | (seg, _) :: segs' =>
        match gaps with
        | [] => Err InternalError
        | entry :: gaps' =>
            '(ss, vs, gaps) ← copy_rest segs' gaps';
            Ok (seg :: ss, FileVerificationEntry.new entry :: vs, gaps)
        end
    end.

(** [for w in uploaded], and the last loop. *)
Fixpoint compose_loop (uploaded : list UploadedWindow) (segs : list PlacedSegment) (gaps : list DataHash) :
    result (DataError E) (list Segment * list FileVerificationEntry.t * list DataHash) :=
    match uploaded with
    | [] => copy_rest segs gaps
    | w :: uploaded' =>
        '(ss, vs, segs, gaps) ← copy_before (uw_start w) segs gaps;
        let segs := skip_window (uw_end w) segs in
        if negb (length (MDBFileInfo.verification (uw_mdb w)) =? length (MDBFileInfo.segments (uw_mdb w)))%nat then Err InternalError
        else
          '(ss', vs', gaps) ← compose_loop uploaded' segs gaps;
          Ok (ss ++ MDBFileInfo.segments (uw_mdb w) ++ ss', vs ++ MDBFileInfo.verification (uw_mdb w) ++ vs', gaps)
    end.

Definition place (segments : list Segment) (seg_byte_starts : list Z) : list PlacedSegment :=
    zip segments (zip seg_byte_starts (tail seg_byte_starts)).

Definition compose_mdb (original_mdb : MDBFileInfo.t) (seg_byte_starts : list Z) (uploaded : list UploadedWindow)
    (gap_verification : list DataHash) (combined_hash : DataHash) : result (DataError E) MDBFileInfo.t :=
    '(all_segments, all_verification, gaps) ←
      compose_loop uploaded (place (MDBFileInfo.segments original_mdb) seg_byte_starts) gap_verification;
    match gaps with
    | _ :: _ => Err InternalError
    | [] =>
        metadata ← some_or_panic (FileDataSequenceHeader.new combined_hash (Z.of_nat (length all_segments)) true false);
        Ok (MDBFileInfo.mk metadata all_segments all_verification None)
    end.

(** ** [upload_ranges] *)

Definition server_query (segments : list Segment) (original_size : Z) (dirty_inputs : list DirtyInput) : option (list FileRange.t) :=
    let seg_byte_starts := seg_byte_starts_of segments in
    snapped ← mapM (snap_input seg_byte_starts (length segments) original_size) dirty_inputs;
    let coalesced := coalesce (sort_by_start snapped) in
    Some ((fun '(s, e) => FileRange.new s e) <$> coalesced).

(** The part after the response: the windows are uploaded, and the new file is composed. *)
Definition upload_response (x : X) (original_hash : DataHash) (original_size total_size : Z) (original_mdb : MDBFileInfo.t)
    (dirty_inputs : list DirtyInput) (response : FileChunkHashesResponse) : result (DataError E) (XetFileInfo * FileUploadSession.t X) :=
    if (length (response_windows response) =? 0)%nat then Err InternalError
    else if negb (length (response_hash_ranges response) =? length (response_windows response) + 1)%nat then Err InternalError
    else
      let session := FileUploadSession.new x in
      '(uploaded, rest, session) ← upload_windows session original_hash original_size (response_windows response) dirty_inputs;
      match rest with
      | _ :: _ => Err InternalError
      | [] =>
          combined_hash ← combined_hash_of total_size uploaded (response_hash_ranges response);
          composed_mdb ← compose_mdb original_mdb (seg_byte_starts_of (MDBFileInfo.segments original_mdb)) uploaded
                           (gap_verification response) combined_hash;
          session ← FileUploadSession.register_composed_file session composed_mdb;
          '(_, _, session) ← FileUploadSession.finalize_impl session false;
          Ok (XetFileInfo_new (hex combined_hash) total_size, session)
      end.

(** The information on the new file, and the session when there is one. *)
Definition upload_ranges (x : X) (original_hash : DataHash) (original_size : Z) (dirty_inputs : list DirtyInput) :
    result (DataError E) (XetFileInfo * option (FileUploadSession.t X)) :=
    _ ← validate_dirty_ranges dirty_inputs original_size;
    total_size ← compute_total_size original_size dirty_inputs;
    match dirty_inputs with
    | [] => Ok (XetFileInfo_new (hex original_hash) original_size, None)
    | _ =>
        if original_size =? 0 then
          '(info, session) ← upload_fresh_file x dirty_inputs total_size;
          Ok (info, Some session)
        else
          recon_result ← backend (get_file_reconstruction_info original_hash);
          original_mdb ← result_of_option ParameterError recon_result;
          if negb (MDBFileInfo.file_size original_mdb =? original_size) then Err ParameterError
          else
            query ← some_or_panic (server_query (MDBFileInfo.segments original_mdb) original_size dirty_inputs);
            match query with
            | [] => Err InternalError
            | _ =>
                response ← backend (get_file_chunk_hashes original_hash query);
                '(info, session) ← upload_response x original_hash original_size total_size original_mdb dirty_inputs response;
                Ok (info, Some session)
            end
    end.

End Windows.

(** ** The query *)

Lemma partition_point_spec p l :
  (forall i x, (i < partition_point p l)%nat -> l !! i = Some x -> p x = true) /\
  (forall x, l !! partition_point p l = Some x -> p x = false) /\ (partition_point p l <= length l)%nat.
Proof.
  induction l as [|y l (IH1 & IH2 & IH3)]; cbn; [split_and!; [intros; lia|done|lia]|]. destruct (p y) eqn:Hy; cbn.
  - split_and!; [|done|lia]. intros [|i] x Hi Hx; [by simplify_eq/=|]. apply (IH1 i); [lia|done].
  - split_and!; [intros; lia|by intros x [= <-]|lia].
Qed.

Lemma snap_start_ok bs byte : head bs = Some 0 -> 0 <= byte -> exists s, snap_to_segment_start bs byte = Some s /\ s <= byte /\ s ∈ bs.
Proof.
  intros Hh Hb. unfold snap_to_segment_start. destruct (partition_point_spec (fun s => s <=? byte) bs) as (H1 & _ & H3).
  destruct bs as [|x bs]; [done|]. injection Hh as ->.
  assert (0 < partition_point (fun s => (s <=? byte)%Z) (0%Z :: bs))%nat as Hpos by (cbn; apply Z.leb_le in Hb; rewrite Hb; lia).
  destruct (lookup_lt_is_Some_2 (0 :: bs) (partition_point (fun s => s <=? byte) (0 :: bs) - 1)) as [s Hs]; [lia|].
  exists s. split_and!; [done| |by eapply list_elem_of_lookup_2]. apply Z.leb_le. apply (H1 _ s) in Hs; [done|lia].
Qed.

Lemma snap_end_ok bs byte x : x ∈ bs -> byte <= x -> exists e, snap_to_segment_end bs byte = Some e /\ byte <= e /\ e ∈ bs.
Proof.
  intros Hx Hb. unfold snap_to_segment_end. destruct (partition_point_spec (fun s => s <? byte) bs) as (H1 & H2 & H3).
  apply list_elem_of_lookup_1 in Hx as [i Hi].
  destruct (lookup_lt_is_Some_2 bs (partition_point (fun s => s <? byte) bs)) as [e He].
  { apply Nat.nle_gt. intros Hle. pose proof (lookup_lt_Some _ _ _ Hi). specialize (H1 i x ltac:(lia) Hi). apply Z.ltb_lt in H1. lia. }
  exists e. split_and!; [done| |by eapply list_elem_of_lookup_2]. specialize (H2 e He). by apply Z.ltb_ge in H2.
Qed.

(** The boundaries of segments, without wrap-around. *)
Fixpoint bounds (acc : Z) (segments : list Segment) : list Z :=
  match segments with
  | [] => []
  | s :: segments' => acc + FileDataSequenceEntry.unpacked_segment_bytes s :: bounds (acc + FileDataSequenceEntry.unpacked_segment_bytes s) segments'
  end.

Definition segments_positive (segments : list Segment) : Prop :=
  Forall (fun s => 0 < FileDataSequenceEntry.unpacked_segment_bytes s) segments.

Lemma segments_size_cons s segments : segments_size (s :: segments) = FileDataSequenceEntry.unpacked_segment_bytes s + segments_size segments.
Proof. done. Qed.

Lemma segments_size_nonneg segments : segments_positive segments -> 0 <= segments_size segments.
Proof. induction 1; [done|]. rewrite segments_size_cons. lia. Qed.

Lemma segments_size_app l1 l2 : segments_size (l1 ++ l2) = segments_size l1 + segments_size l2.
Proof. apply sum_of_app. Qed.

Lemma seg_starts_loop_bounds acc segments :
  segments_positive segments -> 0 <= acc -> acc + segments_size segments < 2 ^ 64 -> seg_starts_loop acc segments = bounds acc segments.
Proof.
  intros Hp. revert acc. induction Hp as [|s segments Hs Hp IH]; intros acc H0 Hlt; [done|]. rewrite segments_size_cons in Hlt.
  pose proof (segments_size_nonneg _ Hp). cbn. rewrite wrap64_small by (unfold is_u64; lia). f_equal. apply IH; lia.
Qed.

(** A segment boundary splits the segments. *)
Lemma bounds_elem acc segments b :
  b ∈ acc :: bounds acc segments <-> exists l1 l2, segments = l1 ++ l2 /\ b = acc + segments_size l1.
Proof.
  revert acc. induction segments as [|s segments IH]; intros acc; cbn [bounds].
  - rewrite list_elem_of_singleton. split.
    + intros ->. exists [], []. split; [done|]. change (segments_size []) with 0. lia.
    + intros (l1 & l2 & E & ->). symmetry in E. apply app_nil in E as [-> _]. change (segments_size []) with 0. lia.
  - rewrite elem_of_cons, IH. split.
    + intros [->|(l1 & l2 & -> & ->)].
      * exists [], (s :: segments). split; [done|]. change (segments_size []) with 0. lia.
      * exists (s :: l1), l2. rewrite segments_size_cons. split; [done|lia].
    + intros ([|s' l1] & l2 & E & ->).
      * left. change (segments_size []) with 0. lia.
      * right. injection E as <- ->. exists l1, l2. rewrite segments_size_cons. split; [done|lia].
Qed.

Lemma bounds_lookup acc segments i : (i <= length segments)%nat ->
  (acc :: bounds acc segments) !! i = Some (acc + segments_size (take i segments)).
Proof.
  revert acc segments. induction i as [|i IH]; intros acc segments Hi.
  - rewrite take_0. change (segments_size []) with 0. by rewrite Z.add_0_r.
  - destruct segments as [|s segments]; [simpl in Hi; lia|]. cbn [bounds]. change ((acc :: ?b :: ?l) !! S i) with ((b :: l) !! i).
    rewrite IH by (simpl in Hi; lia). cbn [take]. rewrite segments_size_cons. f_equal. lia.
Qed.

(** A range that holds an edit: not empty, within the file, and for an insertion before the end of
    the file, also past the position. *)
Definition holds_edit (size : Z) (d : DirtyInput) (s e : Z) : Prop :=
  s <= e_start d /\ e_end d <= e /\ s < e <= size /\ (e_start d = e_end d -> e_start d < size -> e_start d < e).

(** An edit within the file. *)
Definition edit_valid (size : Z) (d : DirtyInput) : Prop :=
  0 <= e_start d <= e_end d /\ e_end d <= size /\ 0 <= new_length d <= Z.of_nat (length (reader d)).

Lemma snap_input_ok segments size d :
  segments_positive segments -> segments_size segments = size -> 0 < size -> edit_valid size d ->
  exists s e, snap_input (0 :: bounds 0 segments) (length segments) size d = Some (s, e) /\ holds_edit size d s e /\
    s ∈ 0 :: bounds 0 segments.
Proof.
  intros Hp Hs H0 (He & Hsize & _). set (bs := 0 :: bounds 0 segments).
  assert (size ∈ bs) as Hin.
  { apply (bounds_elem 0). exists segments, []. rewrite app_nil_r. split; [done|lia]. }
  assert (forall x, x ∈ bs -> x <= size) as Hle.
  { intros x (l1 & l2 & -> & ->)%(bounds_elem 0). apply Forall_app in Hp as [_ Hp2]. rewrite segments_size_app in Hs.
    pose proof (segments_size_nonneg _ Hp2). lia. }
  unfold snap_input. fold (e_start d) (e_end d). destruct (Z.eqb_spec (e_start d) (e_end d)) as [Hins|Hins].
  - destruct (Z.eqb_spec (e_start d) size) as [Hend|Hend].
    + destruct (length segments) as [|n] eqn:Hn; [apply nil_length_inv in Hn; subst segments; change (segments_size []) with 0 in Hs; lia|].
      unfold bs. rewrite !bounds_lookup by lia. cbn [mbind option_bind]. eexists _, _. split; [done|].
      rewrite (take_ge segments (S n)) by lia. rewrite <- (take_drop n segments) in Hs, Hp. rewrite segments_size_app in Hs.
      apply Forall_app in Hp as [Hp1 Hp2]. assert (0 < segments_size (drop n segments)).
      { destruct (drop n segments) as [|s l] eqn:Ed; [apply (f_equal length) in Ed; rewrite length_drop in Ed; simpl in Ed; lia|].
        apply Forall_cons in Hp2 as [Hs1 Hp2]. rewrite segments_size_cons. pose proof (segments_size_nonneg _ Hp2). lia. }
      rewrite <- (take_drop n segments) at 2. rewrite segments_size_app.
      split; [unfold holds_edit; lia|]. apply (bounds_elem 0). exists (take n segments), (drop n segments). by rewrite take_drop.
    + destruct (snap_start_ok bs (e_start d)) as (s & -> & Hs1 & Hs2); [done|lia|].
      destruct (snap_end_ok bs (e_start d + 1) size) as (e & -> & He1 & He2); [done|lia|]. cbn [mbind option_bind].
      pose proof (Hle e He2). eexists _, _. split; [done|]. split; [unfold holds_edit; lia|done].
  - destruct (snap_start_ok bs (e_start d)) as (s & -> & Hs1 & Hs2); [done|lia|].
    destruct (snap_end_ok bs (e_end d) size) as (e & -> & He1 & He2); [done|lia|]. cbn [mbind option_bind].
    pose proof (Hle e He2). eexists _, _. split; [done|]. split; [unfold holds_edit; lia|done].
Qed.

(** *** Sorting and coalescing *)

Fixpoint sorted_from (pos : Z) (l : list (Z * Z)) : Prop :=
  match l with
  | [] => True
  | r :: l' => pos <= r.1 /\ sorted_from r.1 l'
  end.

Lemma insert_by_start_sorted r pos l : pos <= r.1 -> sorted_from pos l -> sorted_from pos (insert_by_start r l).
Proof.
  revert pos. induction l as [|x l IH]; intros pos Hr Hl; cbn in *; [done|]. destruct Hl as [Hx Hl].
  destruct (Z.leb_spec r.1 x.1); cbn; [done|]. split; [done|]. apply IH; [lia|done].
Qed.

Lemma insert_by_start_elem r l x : x ∈ insert_by_start r l <-> x = r \/ x ∈ l.
Proof.
  induction l as [|y l IH]; cbn; [by rewrite list_elem_of_singleton, elem_of_nil; tauto|].
  destruct (r.1 <=? y.1); rewrite !elem_of_cons; [tauto|]. rewrite IH. tauto.
Qed.

Lemma sort_by_start_ok pos l : Forall (fun r => pos <= r.1) l -> sorted_from pos (sort_by_start l) /\ forall x, x ∈ sort_by_start l <-> x ∈ l.
Proof.
  induction 1 as [|r l Hr _ [IH1 IH2]]; cbn; [done|]. split; [by apply insert_by_start_sorted|].
  intros x. rewrite insert_by_start_elem, elem_of_cons, IH2. done.
Qed.

Definition range_of_pair (r : Z * Z) : FileRange.t := FileRange.new r.1 r.2.

(** Each range is within one of the coalesced ranges, which are apart and begin where some range
    begins. *)
Lemma coalesce_loop_ok size l s e :
  sorted_from s l -> s < e <= size -> Forall (fun r => r.1 < r.2 <= size) l ->
  let out := coalesce_loop l (Some (s, e)) in
  ordered s (range_of_pair <$> out) /\ Forall (fun r => r.1 < r.2 <= size) out /\
  (forall r, r ∈ out -> r.1 = s \/ exists x, x ∈ l /\ r.1 = x.1) /\
  (forall x, x = (s, e) \/ x ∈ l -> exists r, r ∈ out /\ r.1 <= x.1 /\ x.2 <= r.2).
Proof.
  cbn zeta. revert s e. induction l as [|x l IH]; intros s e Hs He Hl; cbn [coalesce_loop].
  { cbn. split_and!; [lia|done|by constructor| |].
    - intros r ->%list_elem_of_singleton. by left.
    - intros x [->|Hx%elem_of_nil]; [|done]. exists (s, e). split; [by apply list_elem_of_singleton|cbn; lia]. }
  cbn in Hs. destruct Hs as [Hx Hs]. apply Forall_cons in Hl as [Hxe Hl]. destruct (Z.leb_spec x.1 e) as [Hin|Hout].
  - destruct (IH s (e `max` x.2)) as (O1 & O2 & O3 & O4); [|lia|done|].
    { destruct l as [|y l]; [done|]. cbn in *. destruct Hs. split; [lia|done]. }
    split_and!; [done|done| |].
    + intros r Hr. destruct (O3 r Hr) as [?|(y & Hy & ?)]; [by left|]. right. exists y. split; [by right|done].
    + destruct (O4 (s, e `max` x.2)) as (r0 & Hr0 & H1 & H2); [by left|]. cbn in H1, H2. intros y [->|[->|Hy]%elem_of_cons].
      * exists r0. split; [done|cbn; lia].
      * exists r0. split; [done|lia].
      * apply O4. by right.
  - destruct x as [xs xe]. cbn [fst snd] in *. destruct (IH xs xe) as (O1 & O2 & O3 & O4); [done|lia|done|].
    split_and!.
    + cbn. split; [lia|]. eapply ordered_weaken; [|exact O1]. lia.
    + constructor; [done|done].
    + intros r [->|Hr]%elem_of_cons; [by left|]. destruct (O3 r Hr) as [?|(y & Hy & ?)]; right; [exists (xs, xe); split; [left|done]|exists y; split; [by right|done]].
    + intros y [->|Hy].
      * exists (s, e). split; [left|cbn; lia].
      * apply elem_of_cons in Hy as [->|Hy]; [destruct (O4 (xs, xe)) as (r & ? & ?); [by left|]|destruct (O4 y) as (r & ? & ?); [by right|]];
          (exists r; split; [by right|done]).
Qed.

Lemma query_ok segments size edits :
  segments_positive segments -> segments_size segments = size -> 0 < size < 2 ^ 64 -> Forall (edit_valid size) edits -> edits <> [] ->
  exists q, server_query segments size edits = Some q /\ q <> [] /\ ordered 0 q /\
    Forall (fun r => FileRange.start r < FileRange.end_ r <= size /\ FileRange.start r ∈ 0 :: bounds 0 segments) q /\
    Forall (fun d => exists r, r ∈ q /\ holds_edit size d (FileRange.start r) (FileRange.end_ r)) edits.
Proof.
  intros Hp Hs H0 Hv Hne. unfold server_query, seg_byte_starts_of. rewrite seg_starts_loop_bounds by (done || lia).
  set (bs := 0 :: bounds 0 segments) in *.
  assert (exists sn, mapM (snap_input bs (length segments) size) edits = Some sn /\
    Forall2 (fun d r => holds_edit size d r.1 r.2 /\ r.1 ∈ bs) edits sn) as (sn & -> & Hsn).
  { clear Hne. induction Hv as [|d edits Hd _ (sn & IH1 & IH2)]; [by exists []; split; [|constructor]|].
    destruct (snap_input_ok segments size d Hp Hs ltac:(lia) Hd) as (s & e & E & Hh & Hb). exists ((s, e) :: sn).
    split; [|by constructor]. fold bs in E. cbn [mapM]. rewrite E. cbn [mbind option_bind]. by rewrite IH1. }
  cbn [mbind option_bind].
  assert (forall x, x ∈ bs -> 0 <= x) as Hpos.
  { intros x (l1 & l2 & -> & ->)%(bounds_elem 0). apply Forall_app in Hp as [Hp1 _]. pose proof (segments_size_nonneg _ Hp1). lia. }
  assert (Forall (fun r : Z * Z => 0 <= r.1) sn) as Hpos'.
  { apply Forall_forall. intros r Hr. apply list_elem_of_lookup in Hr as [i Hi]. destruct (Forall2_lookup_r _ _ _ _ _ Hsn Hi) as (d & _ & _ & Hb). by apply Hpos. }
  destruct (sort_by_start_ok 0 sn Hpos') as [Hsort Helem].
  assert (Forall (fun r => r.1 < r.2 <= size /\ r.1 ∈ bs) (sort_by_start sn)) as Hall.
  { apply Forall_forall. intros r Hr%Helem. apply list_elem_of_lookup in Hr as [i Hi].
    destruct (Forall2_lookup_r _ _ _ _ _ Hsn Hi) as (d & _ & (_ & _ & ? & _) & Hb). done. }
  destruct (sort_by_start sn) as [|[s e] l] eqn:El.
  { destruct edits as [|d edits]; [done|]. apply Forall2_cons_inv_l in Hsn as (r & sn' & _ & _ & ->). exfalso. apply (elem_of_nil r), Helem. left. }
  unfold coalesce. cbn [coalesce_loop]. cbn in Hsort. destruct Hsort as [Hs0 Hsort]. apply Forall_cons in Hall as [[Hse Hsb] Hall]. cbn in Hse, Hsb.
  destruct (coalesce_loop_ok size l s e Hsort Hse) as (O1 & O2 & O3 & O4); [eapply Forall_impl; [exact Hall|]; by intros r [? _]|].
  set (out := coalesce_loop l (Some (s, e))) in *.
  assert (((fun '(s, e) => FileRange.new s e) <$> out) = range_of_pair <$> out) as -> by (apply list_fmap_ext; by intros i [? ?]).
  eexists. split; [done|]. split_and!.
  - destruct (O4 (s, e)) as (r & Hr & _); [by left|]. intros E. destruct out; [by apply elem_of_nil in Hr|done].
  - eapply ordered_weaken; [|exact O1]. done.
  - apply Forall_fmap, Forall_forall. intros r Hr. rewrite Forall_forall in O2. split; [by apply O2|]. cbn.
    destruct (O3 r Hr) as [->|(x & Hx & ->)]; [done|]. rewrite Forall_forall in Hall. by apply Hall.
  - apply Forall_forall. intros d Hd. apply list_elem_of_lookup in Hd as [i Hi]. destruct (Forall2_lookup_l _ _ _ _ _ Hsn Hi) as (x & Hx & Hh & _).
    apply list_elem_of_lookup_2, Helem in Hx. destruct (O4 x) as (r & Hr & H1 & H2).
    { apply elem_of_cons in Hx as [->|Hx]; [by left|by right]. }
    exists (range_of_pair r). split; [by apply list_elem_of_fmap_2|]. unfold holds_edit in *. cbn.
    rewrite Forall_forall in O2. specialize (O2 r Hr). cbn in O2. lia.
Qed.

Lemma clamp_ranges_same size q :
  Forall (fun r => FileRange.start r < FileRange.end_ r <= size) q -> clamp_ranges size q = q.
Proof.
  unfold clamp_ranges. induction 1 as [|r q Hr _ IH]; [done|]. rewrite fmap_cons, filter_cons. cbn [FileRange.start FileRange.end_].
  rewrite decide_True; [|apply Is_true_true, andb_true_iff; split; apply Z.ltb_lt; lia]. rewrite IH. f_equal. destruct r. cbn in *. f_equal. lia.
Qed.

(** ** The edited file *)

(** The bytes [[a, b)]. *)
Definition zslice (data : list byte) (a b : Z) : list byte := data ⟦Z.to_nat a, Z.to_nat b⟧.

Definition added_bytes (d : DirtyInput) : list byte := take (Z.to_nat (new_length d)) (reader d).

(** The bytes [[a, b)] of a file after the edits, which are inside them. *)
Fixpoint edit_range (data : list byte) (a b : Z) (edits : list DirtyInput) : list byte :=
  match edits with
  | [] => zslice data a b
  | d :: edits' => zslice data a (e_start d) ++ added_bytes d ++ edit_range data (e_end d) b edits'
  end.

Definition apply_edits (data : list byte) (edits : list DirtyInput) : list byte :=
  edit_range data 0 (Z.of_nat (length data)) edits.

(** The edits are in order and in [[a, b]]. *)
Fixpoint edits_within (a b : Z) (edits : list DirtyInput) : Prop :=
  match edits with
  | [] => a <= b
  | d :: edits' => a <= e_start d <= e_end d /\ edits_within (e_end d) b edits'
  end.

Lemma zslice_app data a b c : 0 <= a <= b -> b <= c -> zslice data a b ++ zslice data b c = zslice data a c.
Proof.
  intros H1 H2. unfold zslice, slice. rewrite <- (take_drop (Z.to_nat b - Z.to_nat a) (take (Z.to_nat c - Z.to_nat a) _)).
  rewrite firstn_firstn, Nat.min_l by lia. f_equal. rewrite skipn_firstn_comm, drop_drop. f_equal; [lia|]. f_equal. lia.
Qed.

Lemma zslice_length data a b : 0 <= a <= b -> b <= Z.of_nat (length data) -> Z.of_nat (length (zslice data a b)) = b - a.
Proof. intros. unfold zslice. rewrite slice_length by lia. lia. Qed.

Lemma zslice_nil data a : zslice data a a = [].
Proof. unfold zslice, slice. by rewrite Nat.sub_diag. Qed.

Lemma zslice_all data : zslice data 0 (Z.of_nat (length data)) = data.
Proof. unfold zslice, slice. rewrite Nat2Z.id. cbn. by rewrite drop_0, Nat.sub_0_r, take_ge. Qed.

(** The middle of a concatenation. *)
Lemma zslice_app3 a b c : zslice (a ++ b ++ c) (Z.of_nat (length a)) (Z.of_nat (length a) + Z.of_nat (length b)) = b.
Proof.
  unfold zslice, slice. rewrite Z2Nat.inj_add, !Nat2Z.id by lia. rewrite drop_app_length.
  by replace (length a + length b - length a)%nat with (length b) by lia; rewrite take_app_length.
Qed.

Lemma edits_within_le a b edits : edits_within a b edits -> a <= b.
Proof. revert a. induction edits as [|d edits IH]; intros a; cbn; [done|]. intros [? ?%IH]. lia. Qed.

Lemma edit_range_cut data a m b edits :
  0 <= a <= m -> edits_within m b edits -> edit_range data a b edits = zslice data a m ++ edit_range data m b edits.
Proof.
  intros Ha He. destruct edits as [|d edits]; cbn in *; [by rewrite zslice_app|]. rewrite <- (zslice_app data a m (e_start d)) by lia. by rewrite <- app_assoc.
Qed.

Lemma edit_range_app data a m b edits edits' :
  0 <= a -> edits_within a m edits -> edits_within m b edits' ->
  edit_range data a b (edits ++ edits') = edit_range data a m edits ++ edit_range data m b edits'.
Proof.
  revert a. induction edits as [|d edits IH]; intros a Ha He He'; cbn [app edit_range].
  - cbn in He. by apply edit_range_cut.
  - destruct He as [H1 He]. rewrite (IH (e_end d)) by (done || lia). by rewrite <- !app_assoc.
Qed.

Lemma edits_within_app a m b edits edits' : edits_within a m edits -> edits_within m b edits' -> edits_within a b (edits ++ edits').
Proof.
  revert a. induction edits as [|d edits IH]; intros a H1 H2; cbn in *.
  - destruct edits' as [|d edits']; cbn in *; [lia|]. destruct H2. split; [lia|done].
  - destruct H1. split; [done|by apply IH].
Qed.

Lemma edits_within_starts a b edits : edits_within a b edits -> Forall (fun d => a <= e_start d) edits.
Proof.
  revert a. induction edits as [|d edits IH]; intros a He; [constructor|]. cbn in He. destruct He as [? He]. constructor; [lia|].
  eapply Forall_impl; [by apply (IH (e_end d))|]. cbn. lia.
Qed.

Lemma edits_within_narrow a b lo hi edits :
  edits_within a b edits -> Forall (fun d => lo <= e_start d /\ e_end d <= hi) edits -> lo <= hi -> edits_within lo hi edits.
Proof.
  revert a lo. induction edits as [|d edits IH]; intros a lo He Hf Hle; cbn in *; [done|].
  destruct He as [H1 He]. apply Forall_cons in Hf as [[? ?] Hf]. split; [lia|]. apply (IH (e_end d)); [done| |lia].
  apply Forall_and. split; [by eapply edits_within_starts|]. eapply Forall_impl; [exact Hf|]. by intros ? [_ ?].
Qed.

Definition removed_size (edits : list DirtyInput) : Z := sum_of (fun d => e_end d - e_start d) edits.
Definition added_size (edits : list DirtyInput) : Z := sum_of new_length edits.

Lemma edit_range_length data a b edits :
  0 <= a -> b <= Z.of_nat (length data) -> edits_within a b edits -> Forall (edit_valid (Z.of_nat (length data))) edits ->
  Z.of_nat (length (edit_range data a b edits)) = b - a + added_size edits - removed_size edits.
Proof.
  intros Ha Hb He Hv. revert a Ha He. induction Hv as [|d edits Hd Hv IH]; intros a Ha He; cbn in He.
  - cbn. rewrite zslice_length by lia. change (added_size []) with 0. change (removed_size []) with 0. lia.
  - destruct He as [H1 He]. cbn [edit_range]. rewrite !length_app, !Nat2Z.inj_add, (IH (e_end d)) by (done || lia).
    pose proof (edits_within_le _ _ _ He). rewrite zslice_length by lia. destruct Hd as (_ & _ & Hd). unfold added_bytes. rewrite length_take.
    change (added_size (d :: edits)) with (new_length d + added_size edits).
    change (removed_size (d :: edits)) with (e_end d - e_start d + removed_size edits). lia.
Qed.

(** ** The checks of the arguments *)

Lemma validate_loop_spec {E} first prev edits size :
  prev <= size -> (first = true -> Forall (fun d => prev <= e_start d) edits) ->
  validate_loop (E := E) first prev edits size = Ok () /\ edits_within prev size edits \/
  validate_loop (E := E) first prev edits size = Err ParameterError /\ ~ edits_within prev size edits.
Proof.
  revert first prev. induction edits as [|d edits IH]; intros first prev Hp Hf; cbn [validate_loop edits_within]; [by left|].
  destruct (Z.ltb_spec (e_end d) (e_start d)); [right; split; [done|]; lia|].
  destruct (Z.ltb_spec size (e_end d)); [right; split; [done|]; intros [_ Hw%edits_within_le]; lia|].
  assert (negb first && (e_start d <? prev) = (e_start d <? prev)) as ->.
  { destruct first; [|done]. specialize (Hf eq_refl). apply Forall_cons in Hf as [Hf _]. symmetry. apply Z.ltb_ge. exact Hf. }
  destruct (Z.ltb_spec (e_start d) prev); [right; split; [done|]; lia|].
  destruct (IH false (e_end d)) as [[-> ?]|[-> ?]]; [lia|done|left; split; [done|]; by split; [lia|]|right; split; [done|]; tauto].
Qed.

Lemma removed_added_loop edits r a :
  0 <= r -> 0 <= a -> Forall (fun d => e_start d <= e_end d /\ 0 <= new_length d) edits ->
  r + removed_size edits < 2 ^ 64 -> a + added_size edits < 2 ^ 64 ->
  fold_left (fun '(r, a) d => (wrap64 (r + (e_end d - e_start d)), wrap64 (a + new_length d))) edits (r, a) = (r + removed_size edits, a + added_size edits).
Proof.
  intros Hr Ha Hf. revert r a Hr Ha. induction Hf as [|d edits [H1 H2] Hf IH]; intros r a Hr Ha Hlr Hla.
  - cbn. by rewrite !Z.add_0_r.
  - assert (0 <= removed_size edits /\ 0 <= added_size edits) as [? ?].
    { split; apply sum_of_nonneg; (eapply Forall_impl; [exact Hf|]); cbn; lia. }
    change (added_size (d :: edits)) with (new_length d + added_size edits) in *.
    change (removed_size (d :: edits)) with (e_end d - e_start d + removed_size edits) in *.
    cbn [fold_left]. rewrite !wrap64_small by (unfold is_u64; lia). rewrite IH by lia. f_equal; lia.
Qed.

Lemma removed_size_le a b edits : edits_within a b edits -> removed_size edits <= b - a.
Proof.
  revert a. induction edits as [|d edits IH]; intros a; cbn [edits_within]; [change (removed_size []) with 0; lia|].
  intros [H1 H2%IH]. change (removed_size (d :: edits)) with (e_end d - e_start d + removed_size edits). lia.
Qed.

Lemma compute_total_size_ok {E} data edits :
  edits_within 0 (Z.of_nat (length data)) edits -> Forall (edit_valid (Z.of_nat (length data))) edits ->
  Z.of_nat (length data) + added_size edits < 2 ^ 64 ->
  compute_total_size (E := E) (Z.of_nat (length data)) edits = Ok (Z.of_nat (length (apply_edits data edits))).
Proof.
  intros He Hv Hlt. pose proof (removed_size_le _ _ _ He).
  assert (0 <= added_size edits) by (apply sum_of_nonneg; eapply Forall_impl; [exact Hv|]; intros d (_ & _ & ?); lia).
  unfold compute_total_size, removed_added. rewrite removed_added_loop; [|lia|lia|eapply Forall_impl; [exact Hv|]; intros d (? & _ & ?); lia|lia|lia].
  destruct (Z.leb_spec (2 ^ 64) (Z.of_nat (length data) + (0 + added_size edits))); [lia|].
  destruct (Z.ltb_spec (Z.of_nat (length data) + (0 + added_size edits)) (0 + removed_size edits)); [lia|].
  f_equal. unfold apply_edits. rewrite edit_range_length by (done || lia). lia.
Qed.

(** ** The edits of a window *)

Definition belongs (size : Z) (w : FileRange.t) (d : DirtyInput) : Prop :=
  FileRange.start w <= e_start d /\ edit_in_window size (FileRange.end_ w) d = true.

Lemma edit_in_window_end size w_end d : edit_in_window size w_end d = true -> e_end d <= w_end.
Proof.
  unfold edit_in_window. destruct (Z.eqb_spec (e_start d) (e_end d)) as [E|E]; [|by intros ?%Z.leb_le].
  intros [?%Z.ltb_lt|[?%Z.eqb_eq _]%andb_true_iff]%orb_true_iff; lia.
Qed.

(** Windows in order, not empty and within the file. *)
Definition windows_ok (size : Z) (ws : list FileRange.t) : Prop :=
  ordered 0 ws /\ Forall (fun w => FileRange.start w < FileRange.end_ w <= size) ws.

Lemma windows_ok_after size w ws v : windows_ok size (w :: ws) -> v ∈ ws -> FileRange.end_ w <= FileRange.start v < size.
Proof.
  intros [[_ Ho] Hf] Hv. apply Forall_cons in Hf as [_ Hf].
  assert (Forall (fun r => FileRange.end_ w <= FileRange.start r) ws) as Hs.
  { apply ordered_starts; [|done]. eapply Forall_impl; [exact Hf|]. cbn. lia. }
  rewrite Forall_forall in Hs, Hf. specialize (Hs v Hv). specialize (Hf v Hv). cbn in *. lia.
Qed.

Lemma windows_ok_tail size w ws : windows_ok size (w :: ws) -> windows_ok size ws.
Proof.
  intros [[H1 H2] [H3 H4]%Forall_cons]. split; [|done]. eapply ordered_weaken; [|done]. lia.
Qed.

(** An edit of a later window is not in this one, and neither is any edit after it. *)
Lemma edits_after size w ws edits a :
  windows_ok size (w :: ws) -> edits_within a size edits -> FileRange.end_ w <= a -> 
  (exists v, v ∈ ws) -> Forall (fun d => exists v, v ∈ w :: ws /\ belongs size v d) edits -> Forall (fun d => exists v, v ∈ ws /\ belongs size v d) edits.
Proof.
  intros Hw He Hle Hex Hf. revert a He Hle. induction Hf as [|d edits (v & Hv & Hb) Hf IH]; intros a He Hle; [constructor|].
  destruct He as [H1 He]. constructor; [|apply (IH (e_end d)); [done|lia]]. apply elem_of_cons in Hv as [->|Hv]; [|by exists v].
  exfalso. destruct Hb as [_ Hb]. pose proof (edit_in_window_end _ _ _ Hb). destruct Hex as (v & Hv).
  pose proof (windows_ok_after _ _ _ _ Hw Hv). unfold edit_in_window in Hb.
  destruct (Z.eqb_spec (e_start d) (e_end d)); [|lia].
  apply orb_true_iff in Hb as [?%Z.ltb_lt|[_ ?%Z.eqb_eq]%andb_true_iff]; lia.
Qed.

Lemma take_edits_ok size w ws a edits :
  windows_ok size (w :: ws) -> edits_within a size edits -> Forall (fun d => exists v, v ∈ w :: ws /\ belongs size v d) edits ->
  let '(es, rest) := take_edits size (FileRange.end_ w) edits in
  edits = es ++ rest /\ edits_within (FileRange.start w) (FileRange.end_ w) es /\
  edits_within (FileRange.end_ w) size rest /\ Forall (fun d => exists v, v ∈ ws /\ belongs size v d) rest /\
  Forall (fun d => edit_in_window size (FileRange.end_ w) d = true) es.
Proof.
  intros Hw He Hf.
  assert (forall es rest, take_edits size (FileRange.end_ w) edits = (es, rest) ->
    edits = es ++ rest /\ Forall (fun d => edit_in_window size (FileRange.end_ w) d = true) es /\
    (forall d rest', rest = d :: rest' -> edit_in_window size (FileRange.end_ w) d = false)) as Htake.
  { clear He Hf. induction edits as [|d edits IH]; intros es rest; cbn; [by intros [= <- <-]; split_and!; [|constructor|]|].
    destruct (edit_in_window _ _ d) eqn:Hd.
    - destruct (take_edits _ _ edits) as [es' rest']. intros [= <- <-]. destruct (IH _ _ eq_refl) as (-> & H2 & H3).
      split_and!; [done| |done]. by constructor.
    - intros [= <- <-]. split_and!; [done|constructor|]. by intros ? ? [= <- <-]. }
  destruct (take_edits _ _ edits) as [es rest]. destruct (Htake _ _ eq_refl) as (-> & Hends & Hstop). clear Htake.
  apply Forall_app in Hf as [Hfe Hfr].
  pose proof Hw as [[_ _] [Hw0 _]%Forall_cons].
  assert (edits_within (FileRange.start w) (FileRange.end_ w) es) as Hes.
  { assert (exists b, edits_within a b es) as [b Hb].
    { clear -He. revert a He. induction es as [|d es IH]; intros a He; [by exists a; cbn|]. cbn in He. destruct He as [? He].
      destruct (IH _ He) as [b Hb]. by exists b. }
    eapply edits_within_narrow; [exact Hb| |lia]. clear -Hw Hends Hfe. apply Forall_forall. intros d Hd. rewrite Forall_forall in Hends, Hfe.
    destruct (Hfe d Hd) as (v & Hv & Hs & _). split; [|by apply (edit_in_window_end size), (Hends d)]. apply elem_of_cons in Hv as [->|Hv]; [done|].
    pose proof (windows_ok_after _ _ _ _ Hw Hv). destruct Hw as [_ [? _]%Forall_cons]. lia. }
  assert (exists a', edits_within a' size rest) as [a' Hr].
  { clear -He. revert a He. induction es as [|d es IH]; intros a He; [by exists a|]. cbn in He. destruct He as [_ He]. by eapply IH. }
  split; [done|]. split; [done|].
  destruct rest as [|d rest]; [split_and!; [cbn; lia|constructor|done]|].
  specialize (Hstop d rest eq_refl). pose proof Hfr as [(v & Hv & Hb) _]%Forall_cons.
  apply elem_of_cons in Hv as [->|Hv]; [by destruct Hb; congruence|]. pose proof (windows_ok_after _ _ _ _ Hw Hv) as Hvw.
  assert (edits_within (FileRange.end_ w) size (d :: rest)) as Hwithin.
  { cbn in Hr |- *. destruct Hb as [Hb _]. destruct Hr. split; [lia|done]. }
  split_and!; [done| |done].
  apply (edits_after size w ws _ (FileRange.end_ w)); [done|done|lia|by exists v|done].
Qed.

(** ** The bytes of the pieces *)

Section Bytes.
  Context `{B3 : Blake3}.

Definition nodes (ks : list (list byte)) : list Node := chunk_node <$> (Chunk_new <$> ks).

Definition piece_bytes (p : Piece) (b : list (list byte) * list (list byte)) : Prop := p_gap p = nodes b.1 /\ p_window p = nodes b.2.

Definition flat (bps : list (list (list byte) * list (list byte))) : list (list byte) := concat ((fun b => b.1 ++ b.2) <$> bps).

(** The bytes of the new file, given the new contents of the windows. *)
Fixpoint new_content (bps : list (list (list byte) * list (list byte))) (contents : list (list byte)) (bt : list (list byte)) : list byte :=
    match bps, contents with
    | b :: bps', w :: contents' => concat b.1 ++ w ++ new_content bps' contents' bt
    | _, _ => concat bt
    end.

Lemma nodes_app k1 k2 : nodes (k1 ++ k2) = nodes k1 ++ nodes k2.
Proof. unfold nodes. by rewrite !fmap_app. Qed.

Lemma nodes_size_bytes ks : nodes_size (nodes ks) = Z.of_nat (length (concat ks)).
Proof.
  unfold nodes, nodes_size. induction ks as [|k ks IH]; [done|]. cbn in *. rewrite IH, length_app. lia.
Qed.

Lemma nodes_split ks l1 l2 : nodes ks = l1 ++ l2 -> exists k1 k2, ks = k1 ++ k2 /\ l1 = nodes k1 /\ l2 = nodes k2.
Proof.
  unfold nodes. rewrite <- list_fmap_compose. intros (k1 & k2 & -> & -> & ->)%fmap_app_inv. exists k1, k2. by rewrite <- !list_fmap_compose.
Qed.

Lemma split_pieces ps trailing ks :
    nodes ks = pieces_chunks ps ++ trailing -> exists bps bt, ks = flat bps ++ bt /\ Forall2 piece_bytes ps bps /\ trailing = nodes bt.
Proof.
  revert ks. induction ps as [|p ps IH]; intros ks Hk; [exists [], ks; by split_and!; [|constructor|]|].
  unfold pieces_chunks in Hk. cbn in Hk. rewrite <- !app_assoc in Hk. apply nodes_split in Hk as (k1 & k2 & -> & H1 & H2).
  symmetry in H2. apply nodes_split in H2 as (k3 & k4 & -> & H3 & H4). symmetry in H4. apply IH in H4 as (bps & bt & -> & Hf & ->).
  exists ((k1, k3) :: bps), bt. split_and!; [unfold flat; cbn; by rewrite <- !app_assoc| |done]. by constructor.
Qed.

Lemma chain_within pos ps e ess b :
    Forall (fun p => 0 <= nodes_size (p_gap p) /\ 0 <= nodes_size (p_window p)) ps -> chained pos ps e -> e <= b ->
    Forall2 (fun p es => edits_within (p_from p) (p_end p) es) ps ess -> edits_within pos b (concat ess).
Proof.
  intros Hp. revert pos ess. induction Hp as [|p ps [Hg Hw] _ IH]; intros pos ess Hch He Hes.
  - apply Forall2_nil_inv_l in Hes as ->. cbn in *. lia.
  - apply Forall2_cons_inv_l in Hes as (es & ess' & H1 & H2 & ->). cbn in Hch |- *. destruct Hch as [<- Hch].
    apply (edits_within_app _ (p_end p)); [|by eapply IH]. destruct es as [|d es]; cbn in *; unfold p_end, p_from in *; [lia|].
    destruct H1. split; [lia|done].
Qed.

Lemma piece_bytes_size p b : piece_bytes p b ->
    nodes_size (p_gap p) = Z.of_nat (length (concat b.1)) /\ nodes_size (p_window p) = Z.of_nat (length (concat b.2)).
Proof. intros [-> ->]. by rewrite !nodes_size_bytes. Qed.

Lemma piece_bytes_nonneg ps bps : Forall2 piece_bytes ps bps -> Forall (fun p => 0 <= nodes_size (p_gap p) /\ 0 <= nodes_size (p_window p)) ps.
Proof. induction 1 as [|p b ps bps Hpb _ IH]; constructor; [|done]. destruct (piece_bytes_size _ _ Hpb). lia. Qed.

Lemma pieces_flat_size ps bps : Forall2 piece_bytes ps bps -> nodes_size (pieces_chunks ps) = Z.of_nat (length (concat (flat bps))).
Proof.
  induction 1 as [|p b ps bps Hpb _ IH]; [done|]. unfold pieces_chunks, flat in *. cbn.
  rewrite !nodes_size_app, IH, !concat_app, !length_app. destruct (piece_bytes_size _ _ Hpb). lia.
Qed.

End Bytes.

(** ** The merged hash *)

Section Merging.
  Context `{B3 : Blake3} {E : Type}.

Definition gap_part (gap : list Node) : list (list Node) := if is_nil gap then [] else [gap].

(** The ranges of chunks of the new file: the gaps that are not empty, and the new windows. *)
Fixpoint parts (ps : list Piece) (news : list (list Node)) (trailing : list Node) : list (list Node) :=
    match ps, news with
    | p :: ps', n :: news' => gap_part (p_gap p) ++ n :: parts ps' news' trailing
    | _, _ => gap_part trailing
    end.

Fixpoint ranges_from (first : bool) (parts : list (list Node)) : list MerkleHashSubtree :=
    match parts with
    | [] => []
    | [p] => [from_chunks first p true]
    | p :: ps => from_chunks first p false :: ranges_from false ps
    end.

Lemma ranges_from_later ps : ranges_from false ps = later_ranges ps.
Proof. induction ps as [|p [|q ps] IH]; [done..|]. cbn [ranges_from later_ranges] in *. by rewrite IH. Qed.

Lemma ranges_from_file ps : ranges_from true ps = file_ranges ps.
Proof. destruct ps as [|p [|q ps]]; [done..|]. change (ranges_from true (p :: q :: ps)) with (from_chunks true p false :: ranges_from false (q :: ps)). by rewrite ranges_from_later. Qed.

Lemma to_option_chunks s gap e : ChunkWindowBuilder.to_option (from_chunks s gap e) = if is_nil gap then None else Some (from_chunks s gap e).
Proof. unfold ChunkWindowBuilder.to_option. by rewrite from_chunks_empty. Qed.

Lemma concat_gap_part gap : concat (gap_part gap) = gap.
Proof. destruct gap; [done|]. cbn. by rewrite app_nil_r. Qed.

Lemma ranges_from_cons first p q ps : ranges_from first (p :: q :: ps) = from_chunks first p false :: ranges_from false (q :: ps).
Proof. done. Qed.

Lemma merge_seq_loop_ranges first at_start p ps trailing uploaded :
    length uploaded = length (p :: ps) -> (first = true -> at_start = is_nil (p_gap p)) ->
    merge_seq_loop first at_start (is_nil trailing) (zip uploaded (gap_subtrees first (p :: ps))) ++
      option_list (if is_nil trailing then None else Some (from_chunks false trailing true)) =
    ranges_from first (parts (p :: ps) (uw_chunks <$> uploaded) trailing).
Proof.
  revert first p uploaded. induction ps as [|p' ps IH]; intros first p [|w uploaded] Hl Hs; try done.
  - destruct uploaded; [|done]. cbn [gap_subtrees zip zip_with merge_seq_loop fmap list_fmap parts]. rewrite to_option_chunks.
    assert (first && at_start = first && is_nil (p_gap p)) as -> by (destruct first; [by rewrite Hs|done]).
    destruct (is_nil (p_gap p)) eqn:Eg; unfold gap_part; rewrite Eg; destruct (is_nil trailing); cbn; by rewrite ?andb_true_r, ?andb_false_r.
  - destruct uploaded as [|w' uploaded]; [done|]. specialize (IH false p' (w' :: uploaded) ltac:(cbn in *; lia) ltac:(done)).
    assert (exists q l, parts (p' :: ps) (uw_chunks <$> w' :: uploaded) trailing = q :: l) as (q & l & Hq).
    { cbn [parts fmap list_fmap]. unfold gap_part. destruct (is_nil (p_gap p')); cbn; eauto. }
    change (gap_subtrees first (p :: p' :: ps)) with (ChunkWindowBuilder.to_option (from_chunks first (p_gap p) false) :: gap_subtrees false (p' :: ps)).
    change (parts (p :: p' :: ps) (uw_chunks <$> w :: w' :: uploaded) trailing)
      with (gap_part (p_gap p) ++ uw_chunks w :: parts (p' :: ps) (uw_chunks <$> w' :: uploaded) trailing).
    rewrite Hq in *.
    assert (merge_seq_loop first at_start (is_nil trailing)
        (zip (w :: w' :: uploaded) (ChunkWindowBuilder.to_option (from_chunks first (p_gap p) false) :: gap_subtrees false (p' :: ps))) =
      option_list (ChunkWindowBuilder.to_option (from_chunks first (p_gap p) false)) ++
      from_chunks (first && at_start) (uw_chunks w) false ::
      merge_seq_loop false at_start (is_nil trailing) (zip (w' :: uploaded) (gap_subtrees false (p' :: ps)))) as -> by done.
    rewrite <- app_assoc. cbn [app]. rewrite IH, to_option_chunks.
    assert (first && at_start = first && is_nil (p_gap p)) as -> by (destruct first; [by rewrite Hs|done]).
    destruct (is_nil (p_gap p)) eqn:Eg; unfold gap_part; rewrite Eg; cbn [app option_list]; by rewrite ?ranges_from_cons, ?andb_true_r, ?andb_false_r.
Qed.

Lemma merge_seq_ranges ps trailing uploaded :
    ps <> [] -> length uploaded = length ps ->
    merge_seq uploaded (all_subtrees ps trailing) = file_ranges (parts ps (uw_chunks <$> uploaded) trailing).
Proof.
  intros Hne Hl. destruct ps as [|p ps]; [done|]. unfold merge_seq, all_subtrees. rewrite last_snoc, removelast_last.
  rewrite <- ranges_from_file, <- (merge_seq_loop_ranges true (is_nil (p_gap p)) p ps trailing uploaded Hl) by done.
  cbn [is_nil]. rewrite to_option_chunks. cbn [gap_subtrees]. rewrite (to_option_chunks true (p_gap p)).
  destruct (is_nil trailing), (is_nil (p_gap p)); done.
Qed.

Lemma combined_hash_ok ps trailing uploaded total :
    ps <> [] -> length uploaded = length ps ->
    (total =? 0) = is_nil (concat (parts ps (uw_chunks <$> uploaded) trailing)) ->
    combined_hash_of (E := E) total uploaded (all_subtrees ps trailing) = Ok (file_hash (concat (parts ps (uw_chunks <$> uploaded) trailing))).
Proof.
  intros Hne Hl Ht. unfold combined_hash_of. rewrite merge_seq_ranges by done.
  destruct (file_ranges_merge (parts ps (uw_chunks <$> uploaded) trailing)) as (t & -> & Hf). cbn [mbind result_bind]. rewrite Hf. cbn.
  rewrite Ht. unfold file_hash, file_hash_with_salt. by destruct (concat _).
Qed.

End Merging.

(** ** The composed segments *)

Abbreviation seg_size := FileDataSequenceEntry.unpacked_segment_bytes.

(** Segments with their places, from [acc] on. *)
Fixpoint placed (acc : Z) (segments : list Segment) : list PlacedSegment :=
  match segments with
  | [] => []
  | s :: segments' => (s, (acc, acc + seg_size s)) :: placed (acc + seg_size s) segments'
  end.

Lemma place_placed acc segments : place segments (acc :: bounds acc segments) = placed acc segments.
Proof. unfold place. revert acc. induction segments as [|s segments IH]; intros acc; [done|]. cbn in *. f_equal. apply IH. Qed.

Abbreviation entries hs := (FileVerificationEntry.new <$> hs).

Lemma kept_verification_app l1 l2 acc ws :
  kept_verification (l1 ++ l2) acc ws = kept_verification l1 acc ws ++ kept_verification l2 (acc + segments_size l1.*1) ws.
Proof.
  revert acc. induction l1 as [|[s v] l1 IH]; intros acc; cbn [app kept_verification fmap list_fmap fst].
  - change (segments_size []) with 0. by rewrite Z.add_0_r.
  - rewrite segments_size_cons, IH, <- app_assoc, Z.add_assoc. done.
Qed.

(** Segments before and after the windows are kept. *)
Lemma kept_verification_all segs hs acc ws :
  segments_positive segs -> length hs = length segs ->
  Forall (fun w => FileRange.end_ w <= acc \/ acc + segments_size segs <= FileRange.start w) ws ->
  kept_verification (zip segs (entries hs)) acc ws = hs.
Proof.
  intros Hp. revert acc hs. induction Hp as [|s segs Hs Hp IH]; intros acc [|x hs] Hl Hw; try done. cbn [zip zip_with fmap list_fmap kept_verification].
  rewrite segments_size_cons in Hw. pose proof (segments_size_nonneg _ Hp).
  assert (outside_windows ws acc (acc + seg_size s) = true) as ->.
  { apply forallb_forall. intros w Hin%list_elem_of_In. rewrite Forall_forall in Hw. specialize (Hw w Hin). cbn in Hw.
    apply orb_true_iff. rewrite !Z.leb_le. lia. }
  cbn. f_equal. apply IH; [cbn in Hl; lia|]. eapply Forall_impl; [exact Hw|]. cbn. intros w ?. lia.
Qed.

(** Segments that begin inside a window are not. *)
Lemma kept_verification_none segs hs acc ws w :
  w ∈ ws -> FileRange.start w <= acc -> segments_positive segs ->
  (forall l s l', segs = l ++ s :: l' -> acc + segments_size l < FileRange.end_ w) ->
  kept_verification (zip segs (entries hs)) acc ws = [].
Proof.
  intros Hin. revert acc hs. induction segs as [|s segs IH]; intros acc [|x hs] H0 Hp Hb; try done. cbn [zip zip_with fmap list_fmap kept_verification].
  apply Forall_cons in Hp as [Hs Hp]. pose proof (Hb [] s segs eq_refl) as Hb0. change (segments_size []) with 0 in Hb0.
  assert (outside_windows ws acc (acc + seg_size s) = false) as ->.
  { apply not_true_iff_false. intros Ho. unfold outside_windows in Ho. rewrite forallb_forall in Ho. apply list_elem_of_In in Hin. specialize (Ho w Hin).
    apply orb_true_iff in Ho. rewrite !Z.leb_le in Ho. lia. }
  cbn. apply IH; [lia|done|]. intros l s' l' E. pose proof (Hb (s :: l) s' l' ltac:(by rewrite E)) as H. rewrite segments_size_cons in H. lia.
Qed.

Lemma copy_before_ok {E} acc s1 s2 hs gaps :
  segments_positive s1 -> length hs = length s1 ->
  copy_before (E := E) (acc + segments_size s1) (placed acc (s1 ++ s2)) (hs ++ gaps) =
    Ok (s1, entries hs, placed (acc + segments_size s1) s2, gaps).
Proof.
  intros Hp. revert acc hs. induction Hp as [|s s1 Hs Hp IH]; intros acc [|x hs] Hl; try done.
  - change (segments_size []) with 0. rewrite Z.add_0_r. destruct s2 as [|s s2]; [done|]. cbn. by rewrite Z.ltb_irrefl.
  - cbn [app placed copy_before fmap list_fmap]. rewrite segments_size_cons. pose proof (segments_size_nonneg _ Hp).
    destruct (Z.ltb_spec acc (acc + (seg_size s + segments_size s1))); [|lia].
    destruct (Z.ltb_spec (acc + (seg_size s + segments_size s1)) (acc + seg_size s)); [lia|].
    rewrite Z.add_assoc. rewrite IH by (cbn in Hl; lia). done.
Qed.

Lemma copy_rest_ok {E} acc segs hs : length hs = length segs -> copy_rest (E := E) (placed acc segs) hs = Ok (segs, entries hs, []).
Proof.
  revert acc hs. induction segs as [|s segs IH]; intros acc [|x hs] Hl; try done. cbn. rewrite IH by (cbn in Hl; lia). done.
Qed.

Lemma skip_window_ok w_end acc segs :
  segments_positive segs -> w_end <= acc + segments_size segs ->
  exists s2 s3, segs = s2 ++ s3 /\ skip_window w_end (placed acc segs) = placed (acc + segments_size s2) s3 /\
    w_end <= acc + segments_size s2 /\ forall l s l', s2 = l ++ s :: l' -> acc + segments_size l < w_end.
Proof.
  intros Hp. revert acc. induction Hp as [|s segs Hs Hp IH]; intros acc Hw.
  - exists [], []. split_and!; [done|done|done|]. by intros [|] ? ?.
  - cbn [placed skip_window]. destruct (Z.ltb_spec acc w_end).
    + rewrite segments_size_cons in Hw. destruct (IH (acc + seg_size s)) as (s2 & s3 & -> & E2 & Hge & Hlt); [lia|].
      exists (s :: s2), s3. rewrite segments_size_cons, Z.add_assoc. split_and!; [done|done|done|].
      intros [|s' l] x l' [= <- El]; [change (segments_size []) with 0; lia|]. rewrite segments_size_cons. pose proof (Hlt l x l' El). lia.
    + exists [], (s :: segs). change (segments_size []) with 0. rewrite Z.add_0_r. split_and!; [done|done|done|]. by intros [|] ? ?.
Qed.

(** A window that begins where a segment does: the segments before it are copied, with their
    hashes, and those that begin in it are left out. *)
Lemma window_split {E} acc segs hs passed w ws :
  segments_positive segs -> length hs = length segs -> Forall (fun v => FileRange.end_ v <= acc) passed ->
  FileRange.start w ∈ acc :: bounds acc segs -> FileRange.start w < FileRange.end_ w <= acc + segments_size segs ->
  Forall (fun v => FileRange.end_ w <= FileRange.start v) ws ->
  exists s1 s2 s3 h1 h2 h3, segs = s1 ++ s2 ++ s3 /\ hs = h1 ++ h2 ++ h3 /\ length h1 = length s1 /\ length h2 = length s2 /\ length h3 = length s3 /\
    FileRange.start w = acc + segments_size s1 /\ FileRange.end_ w <= FileRange.start w + segments_size s2 /\
    (forall l s l', s2 = l ++ s :: l' -> FileRange.start w + segments_size l < FileRange.end_ w) /\
    kept_verification (zip segs (entries hs)) acc (passed ++ w :: ws) =
      h1 ++ kept_verification (zip s3 (entries h3)) (FileRange.start w + segments_size s2) (passed ++ w :: ws) /\
    (forall gaps, copy_before (E := E) (FileRange.start w) (placed acc segs) (h1 ++ gaps) = Ok (s1, entries h1, placed (FileRange.start w) (s2 ++ s3), gaps)) /\
    skip_window (FileRange.end_ w) (placed (FileRange.start w) (s2 ++ s3)) = placed (FileRange.start w + segments_size s2) s3.
Proof.
  intros Hp Hl Hpass Hin Hw Hws. apply bounds_elem in Hin as (s1 & rest & -> & Hs1). apply Forall_app in Hp as [Hp1 Hp].
  rewrite segments_size_app in Hw. destruct (skip_window_ok (FileRange.end_ w) (FileRange.start w) rest Hp) as (s2 & s3 & -> & Hskip & Hge & Hlt); [lia|].
  rewrite !length_app in Hl.
  exists s1, s2, s3, (take (length s1) hs), (take (length s2) (drop (length s1) hs)), (drop (length s2) (drop (length s1) hs)).
  assert (hs = take (length s1) hs ++ take (length s2) (drop (length s1) hs) ++ drop (length s2) (drop (length s1) hs)) as Hhs by (by rewrite !take_drop).
  assert (length (take (length s1) hs) = length s1 /\ length (take (length s2) (drop (length s1) hs)) = length s2 /\
    length (drop (length s2) (drop (length s1) hs)) = length s3) as (L1 & L2 & L3).
  { rewrite !length_take, !length_drop. lia. }
  set (h1 := take (length s1) hs) in *. set (h2 := take (length s2) _) in *. set (h3 := drop (length s2) _) in *. clearbody h1 h2 h3. subst hs.
  apply Forall_app in Hp as [Hp2 Hp3].
  split_and!; [done..| |intros gaps; rewrite Hs1; by apply copy_before_ok|done].
  rewrite !fmap_app, !zip_with_app by (by rewrite ?length_fmap). fold (zip s1 (entries h1)) (zip s2 (entries h2)) (zip s3 (entries h3)).
  rewrite !kept_verification_app, !fst_zip by (rewrite length_fmap; lia). rewrite <- Hs1. f_equal.
  - apply kept_verification_all; [done|done|]. apply Forall_app. split; [eapply Forall_impl; [exact Hpass|]; cbn; lia|].
    constructor; [lia|]. eapply Forall_impl; [exact Hws|]. cbn. lia.
  - rewrite (kept_verification_none _ _ _ _ w); [done|apply elem_of_app; right; left|lia|done|done].
Qed.

Lemma bounds_ge acc segs x : segments_positive segs -> x ∈ acc :: bounds acc segs -> acc <= x.
Proof. intros Hp (l1 & l2 & -> & ->)%bounds_elem. apply Forall_app in Hp as [Hp _]. pose proof (segments_size_nonneg _ Hp). lia. Qed.

(** A boundary after the starts of the segments [s1]. *)
Lemma bounds_after acc s1 s2 x :
  (forall l s l', s1 = l ++ s :: l' -> acc + segments_size l < x) ->
  x ∈ acc :: bounds acc (s1 ++ s2) -> x ∈ acc + segments_size s1 :: bounds (acc + segments_size s1) s2.
Proof.
  revert acc. induction s1 as [|s s1 IH]; intros acc Hb Hx.
  - change (segments_size []) with 0. by rewrite Z.add_0_r.
  - rewrite segments_size_cons, Z.add_assoc. apply IH.
    + intros l s' l' E. pose proof (Hb (s :: l) s' l' ltac:(by rewrite E)) as H. rewrite segments_size_cons in H. lia.
    + apply elem_of_cons in Hx as [->|Hx]; [|done]. pose proof (Hb [] s s1 eq_refl) as H. change (segments_size []) with 0 in H. lia.
Qed.

Lemma segments_starts_before acc segs x l s l' :
  segments_positive segs -> acc + segments_size segs <= x -> segs = l ++ s :: l' -> acc + segments_size l < x.
Proof.
  intros Hp Hx ->. rewrite segments_size_app, segments_size_cons in Hx. apply Forall_app in Hp as [_ Hp]. apply Forall_cons in Hp as [Hs Hp].
  pose proof (segments_size_nonneg _ Hp). lia.
Qed.

Lemma bounds_past acc s1 s2 s3 w_start w_end x :
  segments_positive s1 -> w_start = acc + segments_size s1 -> w_start < w_end <= x ->
  (forall l s l', s2 = l ++ s :: l' -> w_start + segments_size l < w_end) ->
  x ∈ acc :: bounds acc (s1 ++ s2 ++ s3) -> x ∈ w_start + segments_size s2 :: bounds (w_start + segments_size s2) s3.
Proof.
  intros Hp1 Hs1 Hw Hlt Hx. apply bounds_after in Hx.
  - rewrite <- Hs1 in Hx. apply bounds_after in Hx; [done|]. intros l s l' E. pose proof (Hlt l s l' E). lia.
  - intros l s l' E. apply (segments_starts_before acc s1 x l s l'); [done|lia|done].
Qed.

(** The windows begin where segments do, one after another. *)
Definition windows_aligned (acc : Z) (segs : list Segment) (ws : list FileRange.t) : Prop :=
  ordered acc ws /\ Forall (fun w => FileRange.start w < FileRange.end_ w <= acc + segments_size segs /\ FileRange.start w ∈ acc :: bounds acc segs) ws.

Lemma windows_aligned_after acc segs w ws : windows_aligned acc segs (w :: ws) -> Forall (fun v => FileRange.end_ w <= FileRange.start v) ws.
Proof.
  intros [[_ Ho] [_ Hf]%Forall_cons]. apply ordered_starts; [|done]. eapply Forall_impl; [exact Hf|]. cbn. lia.
Qed.

Lemma windows_aligned_next acc s1 s2 s3 w ws :
  segments_positive s1 -> windows_aligned acc (s1 ++ s2 ++ s3) (w :: ws) ->
  FileRange.start w = acc + segments_size s1 -> FileRange.end_ w <= FileRange.start w + segments_size s2 ->
  (forall l s l', s2 = l ++ s :: l' -> FileRange.start w + segments_size l < FileRange.end_ w) ->
  segments_positive s3 ->
  windows_aligned (FileRange.start w + segments_size s2) s3 ws.
Proof.
  intros Hp1 Ha Hst Hend Hlt Hp3. pose proof (windows_aligned_after _ _ _ _ Ha) as Haft. destruct Ha as [[_ Ho] [[Hw _] Hf]%Forall_cons].
  assert (Forall (fun v => FileRange.start v < FileRange.end_ v <= FileRange.start w + segments_size s2 + segments_size s3 /\
    FileRange.start v ∈ FileRange.start w + segments_size s2 :: bounds (FileRange.start w + segments_size s2) s3) ws) as Hf'.
  { apply Forall_forall. intros v Hv. rewrite Forall_forall in Hf, Haft. destruct (Hf v Hv) as [Hv1 Hv2]. specialize (Haft v Hv). cbn in Haft.
    rewrite !segments_size_app in Hv1. split; [lia|]. apply (bounds_past acc s1 s2 s3 _ (FileRange.end_ w)); [done|done|lia|done|done]. }
  split; [|done]. destruct ws as [|v ws]; [done|]. destruct Ho as [_ Ho]. split; [|done]. apply Forall_cons in Hf' as [[_ Hv] _]. by apply bounds_ge in Hv.
Qed.

Definition mdb_segments (u : UploadedWindow) : list Segment := MDBFileInfo.segments (uw_mdb u).

Lemma compose_total {E} acc segs hs passed ws uploaded :
  segments_positive segs -> length hs = length segs -> Forall (fun v => FileRange.end_ v <= acc) passed -> windows_aligned acc segs ws ->
  Forall2 (fun u w => uw_start u = FileRange.start w /\ uw_end u = FileRange.end_ w /\
    length (MDBFileInfo.verification (uw_mdb u)) = length (mdb_segments u)) uploaded ws ->
  exists out vs, compose_loop (E := E) uploaded (placed acc segs) (kept_verification (zip segs (entries hs)) acc (passed ++ ws)) = Ok (out, vs, []) /\
    (length out <= length segs + length (concat (mdb_segments <$> uploaded)))%nat.
Proof.
  intros Hp Hl Hpass Ha Hu. revert acc segs hs passed Hp Hl Hpass Ha. induction Hu as [|u w uploaded ws (Hu1 & Hu2 & Hu3) Hu IH]; intros acc segs hs passed Hp Hl Hpass Ha.
  - cbn [compose_loop]. rewrite app_nil_r, kept_verification_all, copy_rest_ok; [|done|done|done|eapply Forall_impl; [exact Hpass|]; cbn; lia].
    eexists _, _. split; [done|]. cbn. lia.
  - pose proof (windows_aligned_after _ _ _ _ Ha) as Haft. pose proof Ha as [_ [[Hw1 Hw2] _]%Forall_cons].
    destruct (window_split (E := E) acc segs hs passed w ws Hp Hl Hpass Hw2 Hw1 Haft)
      as (s1 & s2 & s3 & h1 & h2 & h3 & -> & -> & L1 & L2 & L3 & Hst & Hend & Hlt & -> & Hcopy & Hskip).
    pose proof Hp as [Hp1 [Hp2 Hp3]%Forall_app]%Forall_app.
    destruct (IH (FileRange.start w + segments_size s2) s3 h3 (passed ++ [w]) Hp3 L3) as (out & vs & Hc & Hlen).
    { apply Forall_app. split; [eapply Forall_impl; [exact Hpass|]; pose proof (segments_size_nonneg _ Hp1); pose proof (segments_size_nonneg _ Hp2); cbn; lia|].
      by constructor. }
    { by apply (windows_aligned_next acc s1 s2 s3 w ws). }
    rewrite <- app_assoc in Hc. cbn [app] in Hc. cbn [compose_loop]. rewrite Hu1, Hu2, Hcopy. cbn [mbind result_bind]. rewrite Hskip, Hu3, Nat.eqb_refl. cbn [negb].
    rewrite Hc. eexists _, _. split; [done|]. unfold mdb_segments in *. cbn. rewrite !length_app. lia.
Qed.

(** *** Segments and chunks *)

Abbreviation nodes_positive := (Forall (fun n : Node => 0 < n.2)).

Lemma nodes_positive_size l : nodes_positive l -> 0 <= nodes_size l.
Proof. intros H. apply nodes_size_pos. eapply Forall_impl; [exact H|]. cbn. lia. Qed.

Lemma nodes_size_cons n l : nodes_size (n :: l) = n.2 + nodes_size l.
Proof. done. Qed.

Lemma nodes_prefix l1 l2 m1 m2 :
  nodes_positive (l1 ++ l2) -> l1 ++ l2 = m1 ++ m2 -> nodes_size l1 = nodes_size m1 -> l1 = m1 /\ l2 = m2.
Proof.
  revert m1. induction l1 as [|n l1 IH]; intros [|m m1] Hp Heq Hs; cbn [app] in *; [done| | |].
  - rewrite Heq in Hp. apply Forall_cons in Hp as [? [Hp _]%Forall_app]. apply nodes_positive_size in Hp. rewrite nodes_size_cons in Hs. change (nodes_size []) with 0 in Hs. lia.
  - apply Forall_cons in Hp as [? [Hp _]%Forall_app]. apply nodes_positive_size in Hp. rewrite nodes_size_cons in Hs. change (nodes_size []) with 0 in Hs. lia.
  - injection Heq as -> Heq. apply Forall_cons in Hp as [_ Hp]. rewrite !nodes_size_cons in Hs. destruct (IH m1 Hp Heq) as [-> ->]; [lia|done].
Qed.

(** A boundary inside a chunk is its start. *)
Lemma nodes_boundary l1 l2 pre n post :
  nodes_positive (l1 ++ l2) -> l1 ++ l2 = pre ++ n :: post -> nodes_size pre <= nodes_size l1 < nodes_size pre + n.2 -> nodes_size l1 = nodes_size pre.
Proof.
  revert pre. induction l1 as [|m l1 IH]; intros [|x pre] Hp Heq Hs; cbn [app] in *.
  - done.
  - rewrite Heq in Hp. apply Forall_cons in Hp as [? [Hp _]%Forall_app]. apply nodes_positive_size in Hp. rewrite nodes_size_cons in Hs. change (nodes_size []) with 0 in Hs. lia.
  - injection Heq as -> Heq. apply Forall_cons in Hp as [_ [Hp _]%Forall_app]. apply nodes_positive_size in Hp. rewrite nodes_size_cons in Hs. change (nodes_size []) with 0 in Hs. lia.
  - injection Heq as -> Heq. apply Forall_cons in Hp as [_ Hp]. rewrite !nodes_size_cons in *. rewrite (IH pre Hp Heq) by lia. done.
Qed.

Lemma concat_fst (groups : list (list Node)) : concat ((fun g => g.*1) <$> groups) = (concat groups).*1.
Proof. induction groups as [|g groups IH]; [done|]. cbn. by rewrite fmap_app, IH. Qed.

Definition sized (s : Segment) (g : list Node) : Prop := seg_size s = nodes_size g.

Lemma sized_total segs groups : Forall2 sized segs groups -> segments_size segs = nodes_size (concat groups).
Proof. induction 1 as [|s g segs groups Hs _ IH]; [done|]. cbn [concat]. by rewrite segments_size_cons, nodes_size_app, IH, Hs. Qed.

Lemma sized_positive segs groups : Forall2 sized segs groups -> nodes_positive (concat groups) -> Forall (fun g => g <> []) groups -> segments_positive segs.
Proof.
  induction 1 as [|s g segs groups Hs _ IH]; intros Hp Hg; [constructor|]. cbn in Hp. apply Forall_app in Hp as [Hp1 Hp]. apply Forall_cons in Hg as [Hg1 Hg].
  constructor; [|by apply IH]. rewrite Hs. destruct g as [|n g]; [done|]. apply Forall_cons in Hp1 as [? Hp1%nodes_positive_size]. rewrite nodes_size_cons. lia.
Qed.

Lemma chained_start pos ps1 p ps2 e : chained pos (ps1 ++ p :: ps2) e -> p_start p = pos + nodes_size (pieces_chunks ps1).
Proof.
  revert pos. induction ps1 as [|q ps1 IH]; intros pos; cbn; [intros [<- _]; unfold pieces_chunks; cbn; change (nodes_size []) with 0; lia|].
  intros [Hq Hc]. rewrite (IH _ Hc). unfold pieces_chunks. cbn. rewrite !nodes_size_app. unfold p_end, p_from. lia.
Qed.

(** The windows begin where segments do: the ranges of the query do, and so each window begins
    where the first range in it does. *)
Lemma pieces_aligned rs ps trailing chunks segs groups :
  Forall2 sized segs groups -> concat groups = chunks -> nodes_positive chunks -> segments_positive segs ->
  Forall (fun r => FileRange.start r ∈ 0 :: bounds 0 segs) rs ->
  chunks = pieces_chunks ps ++ trailing -> (exists e, chained 0 ps e) -> Forall (piece_ok rs) ps ->
  windows_aligned 0 segs (p_range <$> ps).
Proof.
  intros Hs Hg Hpos Hsp Hrs Hch [e Hc] Hok. pose proof (pieces_sizes ps trailing) as Hsz. rewrite <- Hch in Hsz. specialize (Hsz Hpos).
  split; [by eapply chained_windows|]. apply Forall_fmap, Forall_forall. intros p Hp. cbn.
  rewrite Forall_forall in Hok. destruct (Hok p Hp) as (_ & Hw0 & n & w & r & Hw & Hr & Hin).
  apply list_elem_of_split in Hp as (ps1 & ps2 & Eps). rewrite Eps in Hc, Hch.
  assert (p_start p = nodes_size (pieces_chunks ps1)) as Hst.
  { by apply chained_start in Hc. }
  assert (chunks = (pieces_chunks ps1 ++ p_gap p) ++ n :: (w ++ pieces_chunks ps2 ++ trailing)) as Hsplit.
  { rewrite Hch. unfold pieces_chunks. rewrite fmap_app, concat_app. cbn. rewrite Hw. by rewrite <- !app_assoc. }
  assert (p_from p = nodes_size (pieces_chunks ps1 ++ p_gap p)) as Hfrom by (rewrite nodes_size_app; unfold p_from; lia).
  assert (p_end p <= segments_size segs) as Hend.
  { rewrite (sized_total _ _ Hs), Hg, Hsplit, !nodes_size_app, nodes_size_cons, !nodes_size_app. unfold p_end, p_from. rewrite Hw, nodes_size_cons.
    rewrite Hsplit in Hpos. apply Forall_app in Hpos as [_ Hpos]. apply Forall_cons in Hpos as [_ Hpos]. apply Forall_app in Hpos as [_ Hpos].
    apply nodes_positive_size in Hpos. rewrite nodes_size_app in Hpos. lia. }
  split; [unfold p_end in *; lia|]. rewrite Forall_forall in Hrs. specialize (Hrs r Hr).
  assert (FileRange.start r = p_from p) as <-; [|done].
  apply bounds_elem in Hrs as (s1 & s2 & -> & Hr0). apply Forall2_app_inv_l in Hs as (g1 & g2 & Hs1 & _ & ->). rewrite (sized_total _ _ Hs1) in Hr0.
  rewrite concat_app in Hg. rewrite Hfrom in Hin |- *. rewrite Hr0 in Hin |- *. rewrite !Z.add_0_l in *.
  eapply (nodes_boundary _ (concat g2)); [by rewrite Hg|by rewrite Hg|done].
Qed.

(** ** Uploading a window *)

Section Upload.
  Context `{B3 : Blake3} `{XC : XorbConstants} `{CC : ChunkConstants} `{GH : GearHasher} `{SH : Sha2}
    {X E : Type} `{SB : !SessionBackend X E} `{SC : !SessionContract X E} `{RC : !RangeClient E}.
  Context (c : Chunker) (Hnew : Chunker_new TARGET_CHUNK_SIZE = Some c) (Hmax : (maximum_chunk c <= MAX_XORB_BYTES)%nat).
  Context (defrag : DefragPrevention.t) (block_size : nat) (Hblock : (0 < block_size)%nat).
  Context (data : list byte) (h : DataHash).

(** The client reads back the bytes of the original file. *)
Definition client_reads : Prop :=
    forall a b blocks, 0 <= a <= b -> b <= Z.of_nat (length data) ->
      reconstruct_to_stream (E := E) h (FileRange.new a b) = Ok <$> blocks -> concat blocks = zslice data a b.

Context (Hclient : client_reads).

(** A cleaner that has been given [content]. *)
Definition Cleaning (s : FileUploadSession.t X) (content : list byte) (cl : SingleFileCleaner.t X E) : Prop :=
    exists blocks, concat blocks = content /\ CleanerInv c s Skip blocks cl.

Lemma add_data_cleaning s content cl d :
    Cleaning s content cl -> yields (SingleFileCleaner.add_data block_size cl d) (Cleaning s (content ++ d)).
Proof.
  intros (blocks & <- & Hcl).
  eapply yields_impl; [by apply (add_data_ok c Hnew Hmax s Skip)|]. intros cl' (pieces & <- & _ & H').
  exists (blocks ++ pieces). by rewrite concat_app.
Qed.

Lemma stream_items_cleaning s content cl items :
    Cleaning s content cl ->
    yields (stream_items block_size cl items) (fun cl' => exists blocks, items = Ok <$> blocks /\ Cleaning s (content ++ concat blocks) cl').
Proof.
  revert content cl. induction items as [|[chunk|e] items IH]; intros content cl Hcl; cbn [stream_items].
  - cbn. exists []. cbn. by rewrite app_nil_r.
  - cbn [backend mbind result_bind]. eapply session_bind; [by apply add_data_cleaning|]. intros cl1 H1.
    eapply yields_impl; [by apply IH|]. intros cl2 (blocks & -> & H2). exists (chunk :: blocks). cbn. by rewrite app_assoc.
  - done.
Qed.

Lemma stream_range_cleaning s content cl a b :
    Cleaning s content cl -> 0 <= a <= b -> b <= Z.of_nat (length data) ->
    yields (if a <? b then stream_cas_range block_size cl h a b else Ok cl) (Cleaning s (content ++ zslice data a b)).
Proof.
  intros Hcl Hab Hb. destruct (Z.ltb_spec a b).
  - eapply yields_impl; [by apply stream_items_cleaning|]. intros cl' (blocks & Hi & H'). by rewrite <- (Hclient a b blocks).
  - assert (a = b) as -> by lia. rewrite zslice_nil, app_nil_r. done.
Qed.

Lemma read_loop_cleaning s fuel buf_len cl rd remaining content :
    Cleaning s content cl -> 0 < buf_len -> remaining <= Z.of_nat fuel -> 0 <= remaining <= Z.of_nat (length rd) ->
    yields (read_loop block_size fuel buf_len cl rd remaining) (Cleaning s (content ++ take (Z.to_nat remaining) rd)).
Proof.
  intros Hcl Hbuf. revert cl rd remaining content Hcl. induction fuel as [|fuel IH]; intros cl rd remaining content Hcl Hf Hr; cbn [read_loop].
  - destruct (Z.leb_spec remaining 0); [|lia]. assert (remaining = 0) as -> by lia. cbn. by rewrite take_0, app_nil_r.
  - destruct (Z.leb_spec remaining 0); [assert (remaining = 0) as -> by lia; cbn; by rewrite take_0, app_nil_r|].
    set (n := buf_len `min` remaining). destruct (Z.ltb_spec (Z.of_nat (length rd)) n); [lia|].
    eapply session_bind; [by apply add_data_cleaning|]. intros cl1 H1.
    eapply yields_impl; [apply IH; [exact H1|lia|rewrite length_drop; lia]|]. intros cl2 H2. rewrite <- app_assoc in H2.
    assert (take (Z.to_nat remaining) rd = take (Z.to_nat n) rd ++ take (Z.to_nat (remaining - n)) (drop (Z.to_nat n) rd)) as ->; [|done].
    rewrite take_take_drop. f_equal. lia.
Qed.

Lemma edits_loop_cleaning s content cl cursor stop edits :
    Cleaning s content cl -> 0 <= cursor -> stop <= Z.of_nat (length data) ->
    edits_within cursor stop edits -> Forall (edit_valid (Z.of_nat (length data))) edits ->
    yields (edits_loop block_size cl h cursor edits) (fun '(cl', cursor') =>
      0 <= cursor' <= stop /\ exists content', Cleaning s content' cl' /\
      content' ++ zslice data cursor' stop = content ++ edit_range data cursor stop edits).
Proof.
  intros Hcl H0 Hstop He Hv. revert content cl cursor Hcl H0 He. induction Hv as [|d edits Hd Hv IH]; intros content cl cursor Hcl H0 He; cbn [edits_loop].
  - cbn in He |- *. split; [lia|]. by exists content.
  - cbn [edits_within] in He. destruct He as [H1 He]. pose proof (edits_within_le _ _ _ He).
    eapply session_bind; [apply stream_range_cleaning; [exact Hcl|lia|lia]|]. intros cl1 C1.
    destruct Hd as (_ & _ & Hd). eapply session_bind; [apply read_loop_cleaning; [exact C1|done|lia|done]|]. intros cl2 C2.
    eapply yields_impl; [apply IH; [exact C2|lia|exact He]|]. intros [cl3 cur] (Hc & content' & C3 & E3). split; [done|].
    exists content'. split; [done|]. rewrite E3. cbn [edit_range]. by rewrite <- !app_assoc.
Qed.

(** What is known of a window after its upload. *)
Definition window_uploaded (x : X) (w : UploadedWindow) (r : FileRange.t) (content : list byte) : Prop :=
    uw_start w = FileRange.start r /\ uw_end w = FileRange.end_ r /\ uw_chunks w = file_nodes c content /\
    stands_for x (uw_mdb w) (file_nodes c content, None).

Lemma upload_window_ok s r edits es rest :
    SessionInv s [] -> FileUploadSession.finalized s = false ->
    0 <= FileRange.start r <= FileRange.end_ r -> FileRange.end_ r <= Z.of_nat (length data) ->
    take_edits (Z.of_nat (length data)) (FileRange.end_ r) edits = (es, rest) ->
    edits_within (FileRange.start r) (FileRange.end_ r) es -> Forall (edit_valid (Z.of_nat (length data))) es ->
    let content := edit_range data (FileRange.start r) (FileRange.end_ r) es in
    Z.of_nat (length (cdc c content)) < 2 ^ 32 ->
    yields (upload_window defrag block_size s h (Z.of_nat (length data)) r edits) (fun '(w, rest', s') =>
      rest' = rest /\ SessionInv s' [] /\ FileUploadSession.finalized s' = false /\
      grows (FileUploadSession.inner s) (FileUploadSession.inner s') /\ window_uploaded (FileUploadSession.inner s') w r content).
Proof.
  intros Hs Hf Hr Hlen Htake Hes Hv content Hcount. unfold upload_window. rewrite Htake. destruct (removed_added es) as [removed added].
  eapply session_bind; [by apply (start_clean_ok c Hnew s [])|]. intros cl (s1 & Hcl & Hs1 & Hg1 & Hf1).
  eapply session_bind; [apply (edits_loop_cleaning s1 []); [exists []; by split|apply Hr|exact Hlen|exact Hes|exact Hv]|].
  intros [cl1 cur] (Hcur & content1 & C1 & E1). cbn [app] in E1.
  eapply session_bind; [apply stream_range_cleaning; [exact C1|lia|done]|]. intros cl2 (blocks & Hblocks & Hcl2). rewrite E1 in Hblocks. fold content in Hblocks.
  eapply session_bind; [apply (finish_inner_ok c Hnew Hmax s1 [] Skip blocks cl2 false); [done|done|by rewrite Hblocks]|].
  intros [[[[info nodes] mdb] m] s2] (_ & _ & Hn & Hg2 & Hf2 & Hs2 & Hst). cbn [yields].
  unfold file_spec in Hst. rewrite Hblocks in *. cbn [policy_sha fmap option_fmap option_map] in Hst.
  split_and!; [done|done|congruence|by etrans|]. by split_and!.
Qed.

(** *** All windows *)

(** The edits of each window. *)
Fixpoint windows_edits (ws : list FileRange.t) (edits : list DirtyInput) : list (list DirtyInput) * list DirtyInput :=
    match ws with
    | [] => ([], edits)
    | w :: ws' =>
        let '(es, rest) := take_edits (Z.of_nat (length data)) (FileRange.end_ w) edits in
        let '(ess, rest) := windows_edits ws' rest in (es :: ess, rest)
    end.

(** The new content of each window. *)
Definition windows_contents (ws : list FileRange.t) (ess : list (list DirtyInput)) : list (list byte) :=
    zip_with (fun w es => edit_range data (FileRange.start w) (FileRange.end_ w) es) ws ess.

(** The edits of a window are valid, in order and inside it. *)
Definition window_edits_ok (w : FileRange.t) (es : list DirtyInput) : Prop :=
    edits_within (FileRange.start w) (FileRange.end_ w) es /\
    Forall (fun d => edit_valid (Z.of_nat (length data)) d /\ edit_in_window (Z.of_nat (length data)) (FileRange.end_ w) d = true) es.

Lemma upload_windows_ok s ws edits ess rest :
    SessionInv s [] -> FileUploadSession.finalized s = false -> windows_ok (Z.of_nat (length data)) ws ->
    windows_edits ws edits = (ess, rest) ->
    Forall2 window_edits_ok ws ess ->
    Forall (fun content => Z.of_nat (length (cdc c content)) < 2 ^ 32) (windows_contents ws ess) ->
    yields (upload_windows defrag block_size s h (Z.of_nat (length data)) ws edits) (fun '(uploaded, rest', s') =>
      rest' = rest /\ SessionInv s' [] /\ FileUploadSession.finalized s' = false /\
      grows (FileUploadSession.inner s) (FileUploadSession.inner s') /\
      Forall3 (window_uploaded (FileUploadSession.inner s')) uploaded ws (windows_contents ws ess)).
Proof.
  intros Hs Hf Hw. revert s edits ess Hs Hf. induction ws as [|w ws IH]; intros s edits ess Hs Hf Hsplit Hes Hcount; cbn [windows_edits upload_windows] in *.
  { injection Hsplit as <- <-. cbn. split_and!; try done. constructor. }
  destruct (take_edits _ _ edits) as [es rest1] eqn:Htake. destruct (windows_edits ws rest1) as [ess' rest2] eqn:Hrest.
  injection Hsplit as <- <-. apply Forall2_cons in Hes as [[He Hv] Hes]. apply Forall_and in Hv as [Hv _]. unfold windows_contents in Hcount. cbn [zip_with] in Hcount.
  apply Forall_cons in Hcount as [Hc1 Hcount]. pose proof Hw as [[H0 _] [H1 _]%Forall_cons].
  eapply session_bind; [eapply (upload_window_ok s w edits es rest1); [done|done|lia|lia|done|done|done|done]|].
  intros [[uw rest1'] s1] (-> & Hs1 & Hf1 & Hg1 & Hu).
  eapply session_bind; [by apply (IH (windows_ok_tail _ _ _ Hw) s1 rest1 ess')|].
  intros [[uws rest2'] s2] (-> & Hs2 & Hf2 & Hg2 & Hus). cbn [yields]. split_and!; [done|done|done|by etrans|].
  constructor; [|done]. destruct Hu as (U1 & U2 & U3 & hss & U4 & U5). split_and!; [done|done|done|]. exists hss. split; [done|].
  eapply Forall2_impl; [exact U5|]. intros sg hs. by apply resolved_grows.
Qed.

Lemma windows_edits_ok a ws edits ess rest :
    windows_ok (Z.of_nat (length data)) ws -> edits_within a (Z.of_nat (length data)) edits -> Forall (edit_valid (Z.of_nat (length data))) edits ->
    Forall (fun d => exists v, v ∈ ws /\ belongs (Z.of_nat (length data)) v d) edits ->
    windows_edits ws edits = (ess, rest) ->
    rest = [] /\ edits = concat ess /\
    Forall2 window_edits_ok ws ess.
Proof.
  revert a edits ess. induction ws as [|w ws IH]; intros a edits ess Hw He Hv Hb Hsplit; cbn [windows_edits] in Hsplit.
  { injection Hsplit as <- <-. destruct Hb as [|d edits (v & Hv' & _) _]; [|by apply elem_of_nil in Hv']. done. }
  pose proof (take_edits_ok _ w ws a edits Hw He Hb) as Ht. destruct (take_edits _ _ edits) as [es rest1].
  destruct Ht as (-> & Hes & Hr & Hbr & Hin). apply Forall_app in Hv as [Hv1 Hv2].
  destruct (windows_edits ws rest1) as [ess' rest2] eqn:Hrest. injection Hsplit as <- <-.
  destruct (IH _ _ _ (windows_ok_tail _ _ _ Hw) Hr Hv2 Hbr Hrest) as (-> & -> & Hall). split_and!; [done|done|]. constructor; [|done]. split; [done|]. by apply Forall_and.
Qed.

(** *** The chunks of the new file *)

Context (Hwin : (HASH_WINDOW_SIZE <= minimum_chunk c)%nat).

(** The chunks of the new file, given the new contents of the windows. *)
Fixpoint new_chunks (bps : list (list (list byte) * list (list byte))) (contents : list (list byte)) (bt : list (list byte)) : list (list byte) :=
    match bps, contents with
    | b :: bps', w :: contents' => b.1 ++ cdc c w ++ new_chunks bps' contents' bt
    | _, _ => bt
    end.

(** The window still ends with the two chunks of stable sizes that it ended with. *)
Definition keeps_tail (b : list (list byte) * list (list byte)) (w : list byte) : Prop :=
    exists w0 x y p, b.2 = w0 ++ [x; y] /\ is_stable_chunk_size (length x) = true /\ is_stable_chunk_size (length y) = true /\ w = p ++ x ++ y.

Fixpoint tails_kept (bps : list (list (list byte) * list (list byte))) (contents : list (list byte)) (bt : list (list byte)) : Prop :=
    match bps, contents with
    | b :: bps', w :: contents' => b.2 <> [] /\ (keeps_tail b w \/ bps' = [] /\ bt = []) /\ tails_kept bps' contents' bt
    | [], [] => True
    | _, _ => False
    end.

(** Where the windows keep their last two chunks, the chunks of the new file are those of the gaps
    and of the new windows. *)
Lemma new_chunks_cdc bps contents bt :
    cdc c (concat (flat bps ++ bt)) = flat bps ++ bt -> tails_kept bps contents bt ->
    cdc c (new_content bps contents bt) = new_chunks bps contents bt.
Proof.
  destruct (Chunker_new_ok _ _ Hnew) as [Hc _]. revert contents. induction bps as [|b bps IH]; intros contents Hcdc Ht; destruct contents as [|w contents]; try done.
  destruct Ht as (Hne & Hkeep & Ht). cbn [new_content new_chunks].
  set (L := flat bps ++ bt) in *.
  assert (flat (b :: bps) ++ bt = b.1 ++ b.2 ++ L) as Hflat by (unfold flat; cbn; by rewrite <- !app_assoc).
  rewrite Hflat in Hcdc.
  assert (cdc c (concat L) = L) as HL by (eapply (cdc_suffix c _ (b.1 ++ b.2) L Hc); rewrite <- app_assoc; exact Hcdc).
  specialize (IH contents HL Ht). rewrite (cdc_closed c _ b.1 (b.2 ++ L) _ Hc Hcdc) by (by destruct b.2). f_equal.
  destruct (decide (L = [])) as [HLn|HLn].
  { apply app_nil in HLn as [Hfl ->]. destruct bps as [|b' bps]; [|exfalso; unfold flat in Hfl; cbn in Hfl].
    - destruct contents; [|done]. cbn [new_content new_chunks concat]. by rewrite !app_nil_r.
    - destruct contents as [|w' contents]; [done|]. destruct Ht as (Hne' & _). apply app_nil in Hfl as [Hfl _]. by apply app_nil in Hfl as [_ ?]. }
  destruct Hkeep as [(w0 & x & y & p & Hb & Sx & Sy & ->)|[-> ->]]; [|done].
  rewrite <- !app_assoc, <- IH.
  apply (is_stable_chunk_size_spec c _ Hnew) in Sx, Sy.
  assert (forall k, k ∈ b.1 ++ b.2 ++ L -> k <> []) as Hk.
  { intros k Hk ->. rewrite <- Hcdc in Hk. apply list_elem_of_lookup_1 in Hk as [i Hi]. destruct (cdc_sizes c _ _ _ Hc Hi) as [Hsz _]. simpl in Hsz. lia. }
  assert (x <> [] /\ y <> []) as [Hx Hy] by (split; apply Hk; rewrite Hb; set_solver).
  assert (concat L <> []) as Ht'.
  { destruct L as [|k L']; [done|]. assert (k <> []) by (apply Hk; set_solver). cbn. by destruct k. }
  rewrite (stable_pair_closed c Hc Hwin x y (concat L) p (new_content bps contents bt)); [done| |done|done|done|done|done].
  rewrite HL. pose proof (cdc_suffix c (concat (b.1 ++ b.2 ++ L)) (b.1 ++ w0) (x :: y :: L) Hc) as Hs. cbn [concat] in Hs. apply Hs.
  rewrite Hcdc, Hb, <- !app_assoc. done.
Qed.

(** *** The content of the new file *)

Lemma edited_content pre ps e bps bt ess :
    data = pre ++ concat (flat bps ++ bt) -> chained (Z.of_nat (length pre)) ps e -> Forall2 piece_bytes ps bps ->
    Forall2 (fun p es => edits_within (p_from p) (p_end p) es) ps ess ->
    edit_range data (Z.of_nat (length pre)) (Z.of_nat (length data)) (concat ess) = new_content bps (windows_contents (p_range <$> ps) ess) bt.
Proof.
  intros Hd Hch Hb. revert pre ess Hd Hch. induction Hb as [|p b ps bps Hpb Hb IH]; intros pre ess Hd Hch Hes.
  - apply Forall2_nil_inv_l in Hes as ->. cbn. rewrite Hd, length_app, Nat2Z.inj_add. pose proof (zslice_app3 pre (concat bt) []) as H.
    by rewrite app_nil_r in H.
  - apply Forall2_cons_inv_l in Hes as (es & ess' & H1 & H2 & ->). cbn in Hch. destruct Hch as [Hst Hch].
    destruct (piece_bytes_size _ _ Hpb) as [Sg Sw]. pose proof (piece_bytes_nonneg _ _ Hb) as Hnn.
    assert (data = (pre ++ concat b.1 ++ concat b.2) ++ concat (flat bps ++ bt)) as Hd'.
    { rewrite Hd. unfold flat. cbn. by rewrite !concat_app, <- !app_assoc. }
    assert (Z.of_nat (length (pre ++ concat b.1 ++ concat b.2)) = p_end p) as Hlen.
    { rewrite !length_app. unfold p_end, p_from. lia. }
    assert (p_end p <= Z.of_nat (length data)) as Hle by (rewrite Hd', length_app; lia).
    pose proof (chained_size _ _ _ Hch) as He.
    assert (e <= Z.of_nat (length data)) as Hel.
    { rewrite Hd', length_app, Nat2Z.inj_add, Hlen, concat_app, length_app, He.
      rewrite (pieces_flat_size _ _ Hb). lia. }
    cbn [concat fmap list_fmap]. unfold windows_contents. cbn [zip_with new_content FileRange.start FileRange.end_ p_range].
    rewrite (edit_range_app data _ (p_end p)); [| |by destruct es; cbn in *; unfold p_end, p_from in *; [lia|destruct H1; split; [lia|]]|by eapply chain_within]; [|lia].
    rewrite (edit_range_cut data _ (p_from p)); [|unfold p_from; lia|done].
    rewrite <- app_assoc. f_equal; [|f_equal].
    + assert (data = pre ++ concat b.1 ++ (concat b.2 ++ concat (flat bps ++ bt))) as Hd2 by (rewrite Hd', <- !app_assoc; done).
      rewrite Hd2. unfold p_from. rewrite Hst, Sg. apply zslice_app3.
    + rewrite <- Hlen. apply (IH _ ess' Hd'); [by rewrite Hlen|done].
Qed.

(** *** The windows that the server returns *)

Lemma keeps_tail_piece pre rest rs p b es :
    data = pre ++ concat b.2 ++ rest -> p_from p = Z.of_nat (length pre) -> piece_bytes p b -> resynced rs p ->
    window_edits_ok (p_range p) es ->
    Forall (fun d => exists r, r ∈ rs /\ holds_edit (Z.of_nat (length data)) d (FileRange.start r) (FileRange.end_ r)) es ->
    keeps_tail b (edit_range data (p_from p) (p_end p) es).
Proof.
  intros Hd Hfrom Hpb (w & nx & ny & Hw & Sx & Sy & Hun) [Hes Hin] Hr. cbn in Hes, Hin.
  destruct (piece_bytes_size _ _ Hpb) as [_ Sw]. destruct Hpb as [_ Hpw]. rewrite Hw in Hpw. symmetry in Hpw.
  apply nodes_split in Hpw as (w0 & k2 & Hb & -> & H2). unfold nodes in H2.
  destruct k2 as [|x [|y [|]]]; try done. cbn in H2. injection H2 as -> ->. cbn [snd chunk_node chunk_data Chunk_new] in *.
  assert (p_end p = Z.of_nat (length pre) + Z.of_nat (length (concat b.2))) as Hend by (unfold p_end; lia).
  assert (length (concat b.2) = length (concat w0) + length x + length y)%nat as Hlb.
  { rewrite Hb, concat_app, length_app. cbn. rewrite app_nil_r, length_app. lia. }
  set (sa := p_end p - Z.of_nat (length y) - Z.of_nat (length x)) in *.
  assert (edits_within (p_from p) sa es) as Hes'.
  { eapply edits_within_narrow; [exact Hes| |lia]. apply Forall_forall. intros d Hdin. rewrite Forall_forall in Hin, Hr.
    destruct (Hin d Hdin) as [(Hv1 & Hv2 & _) Hwd]. destruct (Hr d Hdin) as (r & Hrin & H1 & H3 & H4 & H5).
    pose proof (edits_within_starts _ _ _ Hes) as Hst. rewrite Forall_forall in Hst. split; [by apply Hst|].
    pose proof (edit_in_window_end _ _ _ Hwd). unfold untouched in Hun. rewrite Forall_forall in Hun. destruct (Hun r Hrin) as [?|Hge]; [lia|].
    exfalso. unfold edit_in_window in Hwd. destruct (Z.eqb_spec (e_start d) (e_end d)) as [E1|]; [|lia].
    apply orb_true_iff in Hwd as [?%Z.ltb_lt|[? ?%Z.eqb_eq]%andb_true_iff]; lia. }
  exists w0, x, y, (edit_range data (p_from p) sa es). split_and!; [done|by unfold ChunkWindowBuilder.stable_size in Sx; rewrite Nat2Z.id in Sx|by unfold ChunkWindowBuilder.stable_size in Sy; rewrite Nat2Z.id in Sy|].
  rewrite <- (app_nil_r es) at 1. rewrite (edit_range_app data _ sa) by (done || cbn; lia). f_equal. cbn.
  assert (data = (pre ++ concat w0) ++ (x ++ y) ++ rest) as Hd2.
  { rewrite Hd, Hb, concat_app. cbn. by rewrite app_nil_r, <- !app_assoc. }
  rewrite Hd2. replace sa with (Z.of_nat (length (pre ++ concat w0))) by (rewrite length_app; lia).
  replace (p_end p) with (Z.of_nat (length (pre ++ concat w0)) + Z.of_nat (length (x ++ y))) by (rewrite !length_app; lia).
  apply zslice_app3.
Qed.

Lemma tails_kept_ok pre rs ps e bps bt ess :
    data = pre ++ concat (flat bps ++ bt) -> chained (Z.of_nat (length pre)) ps e -> Forall2 piece_bytes ps bps ->
    Forall2 window_edits_ok (p_range <$> ps) ess ->
    Forall (Forall (fun d => exists r, r ∈ rs /\ holds_edit (Z.of_nat (length data)) d (FileRange.start r) (FileRange.end_ r))) ess ->
    Forall (piece_ok rs) ps -> (Forall (resynced rs) ps \/ bt = [] /\ exists ps0 p, ps = ps0 ++ [p] /\ Forall (resynced rs) ps0) ->
    tails_kept bps (windows_contents (p_range <$> ps) ess) bt.
Proof.
  intros Hd Hch Hb. revert pre ess Hd Hch. induction Hb as [|p b ps bps Hpb Hb IH]; intros pre ess Hd Hch Hes Hr Hok Hres.
  - apply Forall2_nil_inv_l in Hes as ->. done.
  - apply Forall2_cons_inv_l in Hes as (es & ess' & H1 & H2 & ->). apply Forall_cons in Hr as [Hr1 Hr]. apply Forall_cons in Hok as [[_ [Hne _]] Hok].
    destruct Hch as [Hst Hch]. destruct (piece_bytes_size _ _ Hpb) as [Sg Sw].
    assert (data = (pre ++ concat b.1) ++ concat b.2 ++ concat (flat bps ++ bt)) as Hd1.
    { rewrite Hd. unfold flat. cbn. by rewrite !concat_app, <- !app_assoc. }
    assert (data = (pre ++ concat b.1 ++ concat b.2) ++ concat (flat bps ++ bt)) as Hd2 by (rewrite Hd1, <- !app_assoc; done).
    unfold windows_contents. cbn [zip_with fmap list_fmap tails_kept].
    assert (p_from p = Z.of_nat (length (pre ++ concat b.1))) as Hfrom by (rewrite length_app; unfold p_from; lia).
    split_and!; [by intros En; rewrite En in Sw; cbn in Sw; lia| |].
    + destruct Hres as [[Hp _]%Forall_cons|[Hbt (ps0 & q & Hq & Hres)]].
      * left. by apply (keeps_tail_piece (pre ++ concat b.1) (concat (flat bps ++ bt)) rs).
      * destruct ps0 as [|p0 ps0]; injection Hq as -> ->.
        -- right. split; [by inversion Hb|done].
        -- apply Forall_cons in Hres as [Hp _]. left. by apply (keeps_tail_piece (pre ++ concat b.1) (concat (flat bps ++ bt)) rs).
    + apply (IH (pre ++ concat b.1 ++ concat b.2) ess' Hd2); [|done|done|done|].
      * assert (Z.of_nat (length (pre ++ concat b.1 ++ concat b.2)) = p_end p) as ->; [|done]. rewrite !length_app. unfold p_end, p_from. lia.
      * destruct Hres as [[_ Hres]%Forall_cons|[Hbt (ps0 & q & Hq & Hres)]]; [by left|]. destruct ps0 as [|p0 ps0]; injection Hq as -> ->.
        -- left. constructor.
        -- right. split; [done|]. apply Forall_cons in Hres as [_ Hres]. by exists ps0, q.
Qed.

(** *** The composed file information *)

Definition group_hash (g : list Node) : DataHash := RawXorbData.range_hash_from_chunks g.*1.

Lemma group_hashes (groups : list (list Node)) : group_hash <$> groups = RawXorbData.range_hash_from_chunks <$> ((fun g : list Node => g.*1) <$> groups).
Proof. by rewrite <- list_fmap_compose. Qed.

Abbreviation resolved_in x := (resolved (UploadSessionDataManager.new (X := X) (FileUploadSession.new x))).

Lemma window_uploaded_segments x u w content :
    window_uploaded x u w content ->
    exists hss, MDBFileInfo.verification (uw_mdb u) = entries (RawXorbData.range_hash_from_chunks <$> hss) /\
      Forall2 (resolved_in x) (mdb_segments u) hss /\ concat hss = (uw_chunks u).*1.
Proof.
  intros (_ & _ & -> & hss & (_ & _ & Hv & Hc) & Hr). exists hss. split_and!; [|done|done]. rewrite Hv, <- list_fmap_compose. done.
Qed.

Lemma compose_aligned x acc segs groups passed ps e trailing uploaded contents :
    Forall2 sized segs groups -> Forall2 (fun s g => resolved_in x s g.*1) segs groups ->
    nodes_positive (concat groups) -> segments_positive segs -> Forall (fun v => FileRange.end_ v <= acc) passed ->
    windows_aligned acc segs (p_range <$> ps) -> Forall (fun p => p_end p ∈ acc :: bounds acc segs) ps ->
    concat groups = pieces_chunks ps ++ trailing -> chained acc ps e -> Forall3 (window_uploaded x) uploaded (p_range <$> ps) contents ->
    exists out hss,
      compose_loop (E := E) uploaded (placed acc segs) (kept_verification (zip segs (entries (group_hash <$> groups))) acc (passed ++ (p_range <$> ps))) =
        Ok (out, entries (RawXorbData.range_hash_from_chunks <$> hss), []) /\
      Forall2 (resolved_in x) out hss /\ concat hss = (concat (parts ps (uw_chunks <$> uploaded) trailing)).*1.
Proof.
  revert acc segs groups passed uploaded contents. induction ps as [|p ps IH]; intros acc segs groups passed uploaded contents Hs Hr Hpos Hsp Hpass Ha Hends Hch Hc Hu.
  - inversion Hu; subst. cbn [compose_loop fmap list_fmap parts].
    pose proof (Forall2_length _ _ _ Hs) as Hl. rewrite app_nil_r, kept_verification_all, copy_rest_ok;
      [|by rewrite length_fmap|done|by rewrite length_fmap|eapply Forall_impl; [exact Hpass|]; cbn; lia].
    exists segs, ((fun g : list Node => g.*1) <$> groups). split_and!.
    + by rewrite group_hashes.
    + by apply Forall2_fmap_r.
    + cbn in Hch. by rewrite concat_gap_part, <- Hch, concat_fst.
  - cbn [fmap list_fmap] in *. apply Forall3_cons_inv_m in Hu as (u & uploaded' & content & contents' & -> & -> & Hu1 & Hu).
    apply Forall_cons in Hends as [Hend1 Hends]. destruct Hc as [Hst0 Hc].
    pose proof (windows_aligned_after _ _ _ _ Ha) as Haft. pose proof Ha as [_ [[Hw1 Hw2] _]%Forall_cons].
    pose proof (Forall2_length _ _ _ Hs) as Hl.
    destruct (window_split (E := E) acc segs (group_hash <$> groups) passed (p_range p) (p_range <$> ps) Hsp ltac:(by rewrite length_fmap) Hpass Hw2 Hw1 Haft)
      as (s1 & s2 & s3 & h1 & h2 & h3 & Es & Eh & L1 & L2 & L3 & Hst & Hend & Hlt & -> & Hcopy & Hskip).
    subst segs. apply Forall2_app_inv_l in Hs as (g1 & g23 & Hs1 & Hs & ->). apply Forall2_app_inv_l in Hs as (g2 & g3 & Hs2 & Hs3 & ->).
    apply Forall2_app_inv in Hr as [Hr1 Hr]; [|by eapply Forall2_length]. apply Forall2_app_inv in Hr as [_ Hr3]; [|by eapply Forall2_length].
    pose proof (Forall2_length _ _ _ Hs1) as G1. pose proof (Forall2_length _ _ _ Hs2) as G2.
    rewrite !fmap_app in Eh. apply app_inj_1 in Eh as [<- Eh]; [|rewrite length_fmap; lia]. apply app_inj_1 in Eh as [<- <-]; [|rewrite length_fmap; lia].
    pose proof Hsp as [Hp1 [Hp2 Hp3]%Forall_app]%Forall_app. cbn [FileRange.start FileRange.end_ p_range] in *.
    assert (p_from p + segments_size s2 = p_end p) as Hacc.
    { apply (bounds_past acc s1 s2 s3 (p_from p) (p_end p)) in Hend1; [|done|done|lia|done]. apply bounds_ge in Hend1; [lia|done]. }
    rewrite !concat_app in Hch, Hpos. change (pieces_chunks (p :: ps)) with ((p_gap p ++ p_window p) ++ pieces_chunks ps) in Hch. rewrite <- !app_assoc in Hch.
    destruct (nodes_prefix _ _ _ _ Hpos Hch) as [Hg1 Hch2]; [rewrite <- (sized_total _ _ Hs1); unfold p_from in Hst; lia|].
    apply Forall_app in Hpos as [_ Hpos].
    destruct (nodes_prefix _ _ _ _ Hpos Hch2) as [_ Hch3]; [rewrite <- (sized_total _ _ Hs2); unfold p_end in Hacc; lia|].
    apply Forall_app in Hpos as [_ Hpos].
    destruct (IH (p_end p) s3 g3 (passed ++ [p_range p]) uploaded' contents') as (out & hss & Hcomp & Hres & Hcc); try done.
    { apply Forall_app. split; [eapply Forall_impl; [exact Hpass|]; pose proof (segments_size_nonneg _ Hp1); cbn; lia|]. constructor; [cbn; lia|constructor]. }
    { rewrite <- Hacc. apply (windows_aligned_next acc s1 s2 s3 (p_range p)); [done..]. }
    { apply Forall_forall. intros q Hq. rewrite Forall_forall in Hends. rewrite <- Hacc. apply (bounds_past acc s1 s2 s3 (p_from p) (p_end p)); [done|done| |done|by apply Hends].
      rewrite Forall_fmap, Forall_forall in Haft. specialize (Haft q Hq). cbn in Haft. destruct Ha as [_ [_ Hf]%Forall_cons].
      rewrite Forall_fmap, Forall_forall in Hf. destruct (Hf q Hq) as [? _]. cbn in *. lia. }
    destruct (window_uploaded_segments _ _ _ _ Hu1) as (hssw & Hv & Hrw & Hcw). destruct Hu1 as (Hu1 & Hu2 & _). cbn in Hu1, Hu2.
    rewrite <- app_assoc in Hcomp. cbn [app] in Hcomp. cbn [compose_loop]. rewrite Hu1, Hu2, Hcopy. cbn [mbind result_bind]. rewrite Hskip, Hacc.
    rewrite Hv, !length_fmap. rewrite <- (Forall2_length _ _ _ Hrw). unfold mdb_segments in *. rewrite Nat.eqb_refl. cbn [negb].
    rewrite Hcomp. cbn [mbind result_bind]. exists (s1 ++ MDBFileInfo.segments (uw_mdb u) ++ out), (((fun g : list Node => g.*1) <$> g1) ++ hssw ++ hss).
    split_and!.
    + by rewrite !fmap_app, group_hashes.
    + apply Forall2_app; [by apply Forall2_fmap_r|]. by apply Forall2_app.
    + change (parts (p :: ps) (uw_chunks <$> u :: uploaded') trailing) with (gap_part (p_gap p) ++ uw_chunks u :: parts ps (uw_chunks <$> uploaded') trailing).
      rewrite !concat_app. cbn [concat]. rewrite !fmap_app, concat_gap_part, Hcw, Hcc, concat_fst, Hg1. done.
Qed.

(** *** The plan of an upload *)

Lemma holds_edit_belongs rs ps d e :
    Forall (covered ps) rs -> chained 0 ps e -> Forall (fun w => FileRange.end_ w <= Z.of_nat (length data)) (p_range <$> ps) ->
    (exists r, r ∈ rs /\ holds_edit (Z.of_nat (length data)) d (FileRange.start r) (FileRange.end_ r)) -> edit_valid (Z.of_nat (length data)) d ->
    exists v, v ∈ p_range <$> ps /\ belongs (Z.of_nat (length data)) v d.
Proof.
  intros Hcov Hc Hends (r & Hr & H1 & H2 & H3 & H4) (V1 & V2 & _). rewrite Forall_forall in Hcov. destruct (Hcov r Hr) as (p & Hp & Hp1 & Hp2).
  exists (p_range p). split; [by apply list_elem_of_fmap_2|]. rewrite Forall_fmap, Forall_forall in Hends. specialize (Hends p Hp). cbn in Hends.
  split; [cbn; lia|]. unfold edit_in_window. cbn [FileRange.end_ p_range]. destruct (Z.eqb_spec (e_start d) (e_end d)) as [Ed|Ed]; [|apply Z.leb_le; lia].
  apply orb_true_iff. rewrite andb_true_iff, Z.ltb_lt, !Z.eqb_eq. destruct (Z.lt_ge_cases (e_start d) (Z.of_nat (length data))); [specialize (H4 Ed); lia|lia].
Qed.

Lemma file_nodes_positive content : nodes_positive (file_nodes c content).
Proof.
  destruct (Chunker_new_ok _ _ Hnew) as [Hc _]. apply Forall_fmap, Forall_fmap, Forall_lookup_2. intros i k Hk.
  destruct (cdc_sizes c _ _ _ Hc Hk) as [Hs _]. cbn. lia.
Qed.

Lemma file_nodes_size content : nodes_size (file_nodes c content) = Z.of_nat (length content).
Proof.
  destruct (Chunker_new_ok _ _ Hnew) as [Hc _]. change (file_nodes c content) with (nodes (cdc c content)). by rewrite nodes_size_bytes, concat_cdc.
Qed.

Lemma windows_plan rs ps trailing edits ess rest :
    laid_out rs ps trailing (file_nodes c data) -> edits_within 0 (Z.of_nat (length data)) edits -> Forall (edit_valid (Z.of_nat (length data))) edits ->
    Forall (fun d => exists r, r ∈ rs /\ holds_edit (Z.of_nat (length data)) d (FileRange.start r) (FileRange.end_ r)) edits ->
    windows_edits (p_range <$> ps) edits = (ess, rest) ->
    exists bps bt, rest = [] /\ windows_ok (Z.of_nat (length data)) (p_range <$> ps) /\ Forall2 window_edits_ok (p_range <$> ps) ess /\
      Forall2 piece_bytes ps bps /\ trailing = nodes bt /\
      cdc c (apply_edits data edits) = new_chunks bps (windows_contents (p_range <$> ps) ess) bt.
Proof.
  intros (Hch & (e & Hc & _) & Hok & Hcov & Hres) He Hv Hr Hsplit. destruct (Chunker_new_ok _ _ Hnew) as [Hcfg _].
  pose proof (file_nodes_positive data) as Hpos. pose proof (file_nodes_size data) as Hsize. rewrite Hch in Hpos, Hsize.
  pose proof (pieces_sizes _ _ Hpos) as Hsz. pose proof (chained_windows _ _ _ Hsz Hc) as [_ Hord].
  assert (Forall (fun w => FileRange.start w < FileRange.end_ w <= Z.of_nat (length data)) (p_range <$> ps)) as Hws.
  { apply Forall_fmap, Forall_forall. intros p Hp. rewrite Forall_forall in Hok. destruct (Hok p Hp) as (_ & Hw0 & _). cbn. split; [unfold p_end; lia|].
    apply list_elem_of_split in Hp as (ps1 & ps2 & ->). pose proof (chained_start _ _ _ _ _ Hc) as Hst.
    rewrite <- Hsize. unfold pieces_chunks in Hpos |- *. rewrite fmap_app, concat_app in Hpos |- *. cbn in Hpos |- *. rewrite !nodes_size_app.
    unfold p_end, p_from. rewrite Hst. unfold pieces_chunks. apply Forall_app in Hpos as [[_ [_ H1]%Forall_app]%Forall_app H2].
    apply nodes_positive_size in H1, H2. lia. }
  destruct (windows_edits_ok 0 (p_range <$> ps) edits ess rest) as (-> & -> & Hes); [by split|done|done| |done|].
  { apply Forall_forall. intros d Hd. rewrite Forall_forall in Hr, Hv. eapply (holds_edit_belongs rs ps d e); [done|done| |by apply Hr|by apply Hv].
    eapply Forall_impl; [exact Hws|]. cbn. lia. }
  destruct (split_pieces ps trailing (cdc c data)) as (bps & bt & Hk & Hpb & Htr); [exact Hch|].
  assert (data = [] ++ concat (flat bps ++ bt)) as Hdata by (cbn [app]; by rewrite <- Hk, concat_cdc).
  exists bps, bt. split_and!; [done|by split|done|done|done|]. unfold apply_edits.
  assert (Forall2 (fun p es => edits_within (p_from p) (p_end p) es) ps ess) as Hes'.
  { pose proof (proj1 (Forall2_fmap_l p_range window_edits_ok ps ess) Hes) as Hes2. eapply Forall2_impl; [exact Hes2|]. by intros p es [? _]. }
  pose proof (edited_content [] ps e bps bt ess Hdata Hc Hpb Hes') as Hnc. cbn [length] in Hnc. change (Z.of_nat 0) with 0 in Hnc. rewrite Hnc. apply new_chunks_cdc.
  - by rewrite <- Hk, concat_cdc.
  - apply (tails_kept_ok [] rs ps e); [done|done|done|done| |done|].
    + clear -Hr. induction ess as [|es ess IH]; [constructor|]. cbn in Hr. apply Forall_app in Hr as [? ?]. constructor; [done|by apply IH].
    + destruct Hres as [?|[H1 H2]]; [by left|]. right. split; [|done]. rewrite Htr in H1. by destruct bt.
Qed.

Lemma parts_new_chunks x ps bps bt uploaded contents :
    Forall2 piece_bytes ps bps -> Forall3 (window_uploaded x) uploaded (p_range <$> ps) contents ->
    concat (parts ps (uw_chunks <$> uploaded) (nodes bt)) = nodes (new_chunks bps contents bt).
Proof.
  intros Hb. revert uploaded contents. induction Hb as [|p b ps bps [Hg _] _ IH]; intros uploaded contents Hu.
  - inversion Hu; subst. cbn. apply concat_gap_part.
  - cbn [fmap list_fmap] in Hu. apply Forall3_cons_inv_m in Hu as (u & uploaded' & content & contents' & -> & -> & (_ & _ & Hn & _) & Hu).
    change (parts (p :: ps) (uw_chunks <$> u :: uploaded') (nodes bt)) with (gap_part (p_gap p) ++ uw_chunks u :: parts ps (uw_chunks <$> uploaded') (nodes bt)).
    rewrite concat_app. cbn [concat new_chunks]. rewrite concat_gap_part, !nodes_app, (IH _ _ Hu), Hn, Hg. done.
Qed.

Lemma new_chunks_count bps contents bt :
    length contents = length bps -> (length (concat (cdc c <$> contents)) <= length (new_chunks bps contents bt))%nat.
Proof.
  revert contents. induction bps as [|b bps IH]; intros [|w contents] Hl; try done; [cbn; lia|]. rewrite fmap_cons. cbn [concat new_chunks].
  rewrite !length_app. specialize (IH contents ltac:(cbn in Hl; lia)). lia.
Qed.

Lemma resolved_count x segs hss : Forall2 (resolved_in x) segs hss -> (length segs <= length (concat hss))%nat.
Proof.
  induction 1 as [|s hs segs hss (ns & _ & a & b & _ & _ & Hab & -> & _) _ IH]; [done|]. cbn [length concat]. rewrite length_app, length_fmap, slice_length by lia. lia.
Qed.

Lemma uploaded_count x uploaded ws contents :
    Forall3 (window_uploaded x) uploaded ws contents -> (length (concat (mdb_segments <$> uploaded)) <= length (concat (cdc c <$> contents)))%nat.
Proof.
  induction 1 as [|u w content uploaded ws contents Hu _ IH]; [done|]. rewrite !fmap_cons. cbn [concat]. rewrite !length_app.
  destruct (window_uploaded_segments _ _ _ _ Hu) as (hss & _ & Hr & Hcc). apply resolved_count in Hr. rewrite Hcc in Hr.
  destruct Hu as (_ & _ & Hn & _). rewrite Hn in Hr. unfold file_nodes in Hr. rewrite !length_fmap in Hr. lia.
Qed.

(** *** The whole upload *)

(** The original file in the shards: its segments are groups of its chunks, with their
    verification hashes. *)
Definition original_file (x : X) (mdb : MDBFileInfo.t) (groups : list (list Node)) : Prop :=
    concat groups = file_nodes c data /\ Forall (fun g => g <> []) groups /\
    Forall2 sized (MDBFileInfo.segments mdb) groups /\
    Forall2 (fun s g => resolved_in x s g.*1) (MDBFileInfo.segments mdb) groups /\
    MDBFileInfo.verification mdb = entries (group_hash <$> groups).

(** The end of an upload: the file is registered and the session is closed. *)
Lemma register_composed_ok s fi :
    SessionInv s [] -> FileUploadSession.finalized s = false ->
    yields (session ← FileUploadSession.register_composed_file s fi; FileUploadSession.finalize_impl (E := E) session false) (fun '(_, _, s') =>
      forall f, stands_for (FileUploadSession.inner s) fi f ->
        settled (FileUploadSession.inner s') f /\ (backed (FileUploadSession.inner s) -> uploaded (FileUploadSession.inner s') f)).
Proof.
  intros Hs Hf. unfold FileUploadSession.register_composed_file, FileUploadSession.check_not_finalized. rewrite Hf. cbn [mbind result_bind].
  destruct (add_file_reconstruction_info _ _) as [x1|] eqn:Ha; [|done]. cbn [backend mbind result_bind].
  pose proof (add_file_grows _ _ _ Ha) as Hg. pose proof (add_file_listed _ _ _ Ha) as Hl.
  eapply yields_impl; [apply (finalize_impl_ok (FileUploadSession.with_inner s x1) [])|].
  - by apply (session_inv_grows s).
  - done.
  - intros [[m fis] s'] (_ & Hg' & _ & Hup) f (hss & Hd & Hr).
    assert (settled x1 f) as Hset.
    { exists fi. split; [done|]. exists hss. split; [done|]. eapply Forall2_impl; [exact Hr|]. intros seg hs. by apply resolved_grows. }
    split; [by apply (settled_grows x1)|]. intros Hb. by apply (Hup (proj2 Hg Hb)).
Qed.

(** Each window ends where a segment does. *)
Abbreviation ends_aligned mdb ws := (Forall (fun w => FileRange.end_ w ∈ 0 :: bounds 0 (MDBFileInfo.segments mdb)) ws).

Lemma compose_mdb_ok x mdb groups ps e trailing uploaded contents :
    original_file x mdb groups -> Z.of_nat (length data) < 2 ^ 64 -> segments_positive (MDBFileInfo.segments mdb) ->
    file_nodes c data = pieces_chunks ps ++ trailing -> chained 0 ps e -> windows_aligned 0 (MDBFileInfo.segments mdb) (p_range <$> ps) ->
    Forall3 (window_uploaded x) uploaded (p_range <$> ps) contents ->
    Z.of_nat (length (MDBFileInfo.segments mdb) + length (concat (mdb_segments <$> uploaded))) < 2 ^ 32 ->
    let new := concat (parts ps (uw_chunks <$> uploaded) trailing) in
    exists fi, compose_mdb (E := E) mdb (seg_byte_starts_of (MDBFileInfo.segments mdb)) uploaded (kept_hashes mdb (p_range <$> ps)) (file_hash new) = Ok fi /\
      (ends_aligned mdb (p_range <$> ps) -> stands_for x fi (new, None)).
Proof.
  intros (Hg & Hgn & Hsz & Hres & Hver) Hlt Hsp Hch Hc Ha Hu Hcount new. pose proof (sized_total _ _ Hsz) as Htot. rewrite Hg, file_nodes_size in Htot.
  unfold compose_mdb, seg_byte_starts_of, kept_hashes. rewrite seg_starts_loop_bounds by (done || lia). rewrite place_placed, Hver.
  assert (length (group_hash <$> groups) = length (MDBFileInfo.segments mdb)) as Hl by (rewrite length_fmap; symmetry; by eapply Forall2_length).
  destruct (compose_total (E := E) 0 _ _ [] (p_range <$> ps) uploaded Hsp Hl) as (out & vs & Hcomp & Hout); [constructor|done| |].
  { clear -Hu. induction Hu as [|u w content uploaded ws contents Hu1 _ IH]; [constructor|]. constructor; [|done].
    destruct (window_uploaded_segments _ _ _ _ Hu1) as (hss & Hv & Hr & _). destruct Hu1 as (H1 & H2 & _). rewrite Hv, !length_fmap, (Forall2_length _ _ _ Hr). done. }
  cbn [app] in Hcomp. rewrite Hcomp. cbn [mbind result_bind].
  destruct (FileDataSequenceHeader.new (file_hash new) (Z.of_nat (length out)) true false) as [hd|] eqn:Hhd.
  2: { unfold FileDataSequenceHeader.new in Hhd. rewrite try_u32_small in Hhd by (unfold is_u32; lia). done. }
  eexists. split; [done|]. intros Hends.
  destruct (compose_aligned x 0 (MDBFileInfo.segments mdb) groups [] ps e trailing uploaded contents) as (out' & hss & Hcomp' & Hr & Hcc); try done.
  { rewrite Hg. apply file_nodes_positive. }
  { by rewrite Forall_fmap in Hends. }
  { by rewrite Hg. }
  cbn [app] in Hcomp'. rewrite Hcomp in Hcomp'. injection Hcomp' as <- ->. exists hss. split; [|done]. split_and!; [done|done| |done].
  cbn. by rewrite <- list_fmap_compose.
Qed.

Lemma upload_response_ok x mdb groups edits q resp :
    original_file x mdb groups -> 0 < Z.of_nat (length data) < 2 ^ 64 -> edits <> [] ->
    edits_within 0 (Z.of_nat (length data)) edits -> Forall (edit_valid (Z.of_nat (length data))) edits ->
    Z.of_nat (length (cdc c data) + length (cdc c (apply_edits data edits))) < 2 ^ 32 ->
    server_query (MDBFileInfo.segments mdb) (Z.of_nat (length data)) edits = Some q ->
    build_file_chunk_hashes_response mdb q (file_nodes c data) = Some (Ok resp) ->
    let new := apply_edits data edits in
    yields (upload_response defrag block_size x h (Z.of_nat (length data)) (Z.of_nat (length new)) mdb edits resp) (fun '(info, s') =>
      info = XetFileInfo_new (hex (file_hash (file_nodes c new))) (Z.of_nat (length new)) /\
      (ends_aligned mdb (response_windows resp) ->
         settled (FileUploadSession.inner s') (file_nodes c new, None) /\ (backed x -> uploaded (FileUploadSession.inner s') (file_nodes c new, None)))).
Proof.
  intros Horig Hsize Hne He Hv Hcount Hq Hresp new. pose proof Horig as (Hg & Hgn & Hsz & Hres & Hver).
  pose proof (file_nodes_positive data) as Hpos. pose proof (file_nodes_size data) as Hns. destruct (Chunker_new_ok _ _ Hnew) as [Hcfg _].
  assert (segments_positive (MDBFileInfo.segments mdb)) as Hsp by (eapply sized_positive; [done|by rewrite Hg|done]).
  pose proof (sized_total _ _ Hsz) as Htot. rewrite Hg, Hns in Htot.
  destruct (query_ok _ _ edits Hsp Htot Hsize Hv Hne) as (q' & Hq' & Hqn & Hqo & Hqs & Hqe). rewrite Hq in Hq'. injection Hq' as <-.
  assert (clamp_ranges (nodes_size (file_nodes c data)) q = q) as Hclamp.
  { rewrite Hns. apply clamp_ranges_same. eapply Forall_impl; [exact Hqs|]. cbn. tauto. }
  destruct (response_ok mdb q (file_nodes c data)) as (ps & trailing & Hr & Hps & Hlaid).
  { split_and!; [done|lia|eapply Forall_impl; [exact Hsp|]; cbn; lia|by rewrite Htot]. }
  { right. rewrite Hver, !length_fmap. symmetry. by eapply Forall2_length. }
  { eapply Forall_impl; [exact Hqs|]. cbn. lia. }
  { done. }
  { by rewrite Hclamp. }
  rewrite Hclamp in Hlaid. rewrite Hresp in Hr. injection Hr as ->.
  destruct (windows_edits (p_range <$> ps) edits) as [ess rest] eqn:Hsplit.
  destruct (windows_plan _ _ _ _ _ _ Hlaid He Hv Hqe Hsplit) as (bps & bt & -> & Hwok & Hes & Hpb & -> & Hcdc).
  pose proof Hlaid as (Hch & (e & Hc & _) & Hok & _).
  assert (windows_aligned 0 (MDBFileInfo.segments mdb) (p_range <$> ps)) as Hal.
  { eapply (pieces_aligned q); [done|done|done|done| |done|by exists e|done]. eapply Forall_impl; [exact Hqs|]. by intros r [_ ?]. }
  unfold upload_response. cbn [response_windows response_hash_ranges gap_verification].
  rewrite length_fmap. destruct (Nat.eqb_spec (length ps) 0) as [E0|_]; [by apply nil_length_inv in E0|].
  assert (length (all_subtrees ps (nodes bt)) = length ps + 1)%nat as ->.
  { unfold all_subtrees. rewrite length_app. cbn. f_equal. generalize true. clear. induction ps as [|p ps IH]; intros b; [done|]. cbn. by rewrite IH. }
  rewrite Nat.eqb_refl. cbn [negb]. set (contents := windows_contents (p_range <$> ps) ess) in *.
  assert (length contents = length bps) as Hlc.
  { unfold contents, windows_contents. rewrite length_zip_with, <- (Forall2_length _ _ _ Hes), length_fmap, (Forall2_length _ _ _ Hpb). lia. }
  pose proof (new_chunks_count bps contents bt Hlc) as Hnc. rewrite <- Hcdc in Hnc. fold new in Hnc, Hcount.
  eapply session_bind; [apply (upload_windows_ok _ _ _ ess []); [apply session_inv_new|done|done|done|done|]|].
  { fold contents. apply Forall_forall. intros w Hw. enough (length (cdc c w) <= length (concat (cdc c <$> contents)))%nat by lia.
    apply list_elem_of_split in Hw as (l1 & l2 & ->). rewrite fmap_app, fmap_cons, concat_app. cbn [concat]. rewrite !length_app. lia. }
  intros [[uploaded rest] s1] (-> & Hs1 & Hf1 & Hg1 & Hu). fold contents in Hu.
  pose proof (parts_new_chunks _ _ _ bt _ _ Hpb Hu) as Hparts. rewrite <- Hcdc in Hparts. change (nodes (cdc c (apply_edits data edits))) with (file_nodes c new) in Hparts.
  rewrite combined_hash_ok; [|done| |].
  2: { by rewrite (Forall3_length_lm _ _ _ _ Hu), length_fmap. }
  2: { rewrite Hparts. pose proof (file_nodes_size new) as Hfs. pose proof (file_nodes_positive new) as Hfp. destruct (file_nodes c new) as [|n l]; cbn [is_nil].
       - change (nodes_size []) with 0 in Hfs. rewrite <- Hfs. done.
       - apply Z.eqb_neq. apply Forall_cons in Hfp as [? Hfp%nodes_positive_size]. rewrite nodes_size_cons in Hfs. lia. }
  cbn [mbind result_bind].
  destruct (compose_mdb_ok (FileUploadSession.inner s1) mdb groups ps e (nodes bt) uploaded contents) as (fi & -> & Hst); [|lia|done|done|done|done|done| |].
  { split_and!; try done. eapply Forall2_impl; [exact Hres|]. intros s g. by apply resolved_grows. }
  { pose proof (uploaded_count _ _ _ _ Hu) as Huc. pose proof (resolved_count x _ _ (proj2 (Forall2_fmap_r (fun g : list Node => g.*1) _ _ _) Hres)) as Hsc.
    rewrite concat_fst, Hg in Hsc. unfold file_nodes in Hsc. rewrite !length_fmap in Hsc. lia. }
  cbn [mbind result_bind]. rewrite Hparts in *.
  pose proof (register_composed_ok s1 fi Hs1 Hf1) as Hreg. destruct (FileUploadSession.register_composed_file s1 fi) as [s2|err]; cbn [mbind result_bind] in *; [|by destruct err].
  eapply session_bind; [exact Hreg|]. intros [[m fis] s3] Hset. cbn [yields]. split; [done|]. intros Hal'. destruct (Hset _ (Hst Hal')) as [H1 H2].
  split; [done|]. intros Hb. by apply H2, (proj2 Hg1).
Qed.

(** *** A new file in the place of an empty one *)

Lemma edit_range_empty a b edits : edit_range [] a b edits = concat (added_bytes <$> edits).
Proof.
  assert (forall a b, zslice [] a b = []) as Hz by (intros; unfold zslice, slice; by rewrite drop_nil, take_nil || by rewrite take_nil, drop_nil).
  revert a. induction edits as [|d edits IH]; intros a; cbn [edit_range]; [by rewrite Hz|]. by rewrite Hz, IH.
Qed.

Lemma fresh_loop_cleaning s content cl edits size :
    Cleaning s content cl -> Forall (edit_valid size) edits ->
    yields (fresh_loop block_size cl edits) (Cleaning s (content ++ concat (added_bytes <$> edits))).
Proof.
  intros Hcl Hv. revert content cl Hcl. induction Hv as [|d edits (_ & _ & Hd) _ IH]; intros content cl Hcl; cbn [fresh_loop].
  - cbn. by rewrite app_nil_r.
  - eapply session_bind; [apply read_loop_cleaning; [exact Hcl|unfold STREAM_BLOCK_SIZE; lia|lia|done]|]. intros cl1 C1.
    eapply yields_impl; [by apply IH|]. intros cl2 C2. rewrite fmap_cons. cbn [concat]. by rewrite app_assoc.
Qed.

Lemma upload_fresh_ok x edits size total :
    Forall (edit_valid size) edits -> let new := concat (added_bytes <$> edits) in Z.of_nat (length (cdc c new)) < 2 ^ 32 ->
    yields (upload_fresh_file defrag block_size x edits total) (fun '(info, s') =>
      hash_hex info = hex (file_hash (file_nodes c new)) /\ settled (FileUploadSession.inner s') (file_nodes c new, None) /\
      (backed x -> uploaded (FileUploadSession.inner s') (file_nodes c new, None))).
Proof.
  intros Hv new Hcount. unfold upload_fresh_file.
  eapply session_bind; [apply (start_clean_ok c Hnew (FileUploadSession.new x) []); [apply session_inv_new|done]|]. intros cl (s1 & Hcl & Hs1 & Hg1 & Hf1).
  eapply session_bind; [apply (fresh_loop_cleaning s1 [] cl edits size); [by exists []|done]|]. cbn [app]. fold new. intros cl1 (blocks & Hb & Hcl1).
  unfold SingleFileCleaner.finish_file, SingleFileCleaner.finish_with_chunks.
  eapply (session_bind _ _ (fun '(info, _, s2) => hash_hex info = hex (file_hash (file_nodes c new)) /\
    SessionInv s2 [(file_nodes c new, None)] /\ FileUploadSession.finalized s2 = false /\ grows x (FileUploadSession.inner s2))).
  - eapply session_bind; [eapply session_bind; [apply (finish_inner_ok c Hnew Hmax s1 [] Skip blocks cl1 true); [done|done|by rewrite Hb]|]|].
    + intros [[[[info ns] mdb] m] s2] H.
      instantiate (1 := fun '(info, ns, m, s2) => finished c s1 [] Skip blocks true (info, ns, default_file_info, m, s2)). done.
    + intros [[[info ns] m] s2] (H1 & _ & _ & H4 & H5 & H6). cbn. rewrite Hb in H1. unfold file_spec in H6. rewrite Hb in H6. split_and!; [done|done|congruence|by etrans].
  - intros [[info m] s2] (H1 & H2 & H3 & H4).
    eapply session_bind; [by apply (finalize_impl_ok s2 [(file_nodes c new, None)])|].
    intros [[m' fis] s3] (Hset & _ & _ & Hup). cbn. apply Forall_cons in Hset as [Hset _]. split_and!; [done|done|]. intros Hbx.
    destruct (Hup (proj2 H4 Hbx)) as [[? _]%Forall_cons _]. done.
Qed.


End Upload.
