(* ===== verification/UploadExamples.v ===== *)
(** * A concrete backend of an upload session

    The contracts of [UploadSession] and [RangeUpload] hold of a small implementation: a map of
    xorbs, the list of the registered files, and a client that answers from them.  The properties
    of the two files, and of [ChunkWindows], are applied to files of a few hundred bytes, and the
    cases where the code does not do what it says are computed. *)

From Stdlib Require Import SpecFloat.
From coqutil Require Import Byte Word.LittleEndianList.
From stdpp Require Import base numbers gmap list.
From S2P Require Import Prelude DataHash AggregatedHash MerkleSubtree Chunking ChunkStability FileStructs XorbStructs RawXorb Defrag Dedup Aggregator DedupExamples CasTypes ChunkWindows UploadSession RangeUpload.

Module UploadExamples.

#[local] Existing Instance DedupExamples.usable_dec.
#[local] Existing Instance DedupExamples.nodes_bounded_dec.
#[local] Existing Instance Examples.table_gear.
#[local] Existing Instance Examples.small_constants.

(** A hash of eight bytes. *)
Definition light_keyed_hash (key data : list byte) : list byte :=
  le_split 8 (fold_left (fun a b => Z.land (a * 33 + u8 b + 1) 0xffffffffffffff) data 5%Z) ++ repeat Byte.x00 24.

Lemma light_keyed_hash_length key data : length (light_keyed_hash key data) = 32.
Proof. unfold light_keyed_hash. by rewrite length_app, length_le_split. Qed.

#[local] Instance light_blake3 : Blake3 := {| keyed_hash := light_keyed_hash; keyed_hash_length := light_keyed_hash_length |}.

(** Three chunks of 300 bytes fill a xorb. *)
#[local, refine] Instance three_chunk_xorbs : XorbConstants := {| MAX_XORB_BYTES := 1000; MAX_XORB_CHUNKS := 8 |}.
Proof. all: lia. Defined.

(** A hasher that keeps what it has seen. *)
#[local, refine] Instance toy_sha2 : Sha2 := {|
  Hasher := list byte;
  sha2_default := [];
  sha2_update h d := h ++ d;
  sha2_finalize h := le_split 32 (fold_left (fun a b => Z.land (a * 33 + u8 b + 1) 0xffffffffffffff) h 1%Z);
|}.
Proof.
  - intros h a b. symmetry. apply app_assoc.
  - intros h. apply length_le_split.
Defined.

(** ** The backend *)

(** The known xorbs, the files of the session, the uploads under way, and what the server has. *)
Record Store := mkStore {
  xorbs : DedupExamples.Known;
  files : list MDBFileInfo.t;
  next_id : Z;
  sending : list (DataHash * list Node);
  server_xorbs : list (DataHash * list Node);
  server_files : list MDBFileInfo.t;
}.

Definition holds (x : Store) (h : DataHash) (n : list Node) : Prop := DedupExamples.known_holds (xorbs x) h n.

#[local] Instance holds_dec x h n : Decision (holds x h n).
Proof. unfold holds, DedupExamples.known_holds. apply _. Defined.

#[local] Instance store_backend : SessionBackend Store () := {|
  global_dedup_query_enabled := false;
  shard_dedup_query x hs := Ok (match hs with h :: _ => DedupExamples.find_chunk h (map_to_list (xorbs x)) | [] => None end, x);
  query_dedup_shard_by_chunk x _ := Ok x;
  add_xorb_block x xo :=
    let h := RawXorbData.hash xo in
    if decide (DedupExamples.usable h (RawXorbData.nodes xo) /\ (xorbs x !! h = None \/ xorbs x !! h = Some (RawXorbData.nodes xo)))
    then Ok (mkStore (<[h := RawXorbData.nodes xo]> (xorbs x)) (files x) (next_id x) (sending x) (server_xorbs x) (server_files x)) else Err tt;
  add_file_reconstruction_info x fi := Ok (mkStore (xorbs x) (files x ++ [fi]) (next_id x) (sending x) (server_xorbs x) (server_files x));
  session_file_info_list x := Ok (files x);
  upload_and_register_session_shards x := Ok (0%Z, mkStore (xorbs x) (files x) (next_id x) (sending x) (server_xorbs x) (server_files x ++ files x));
  register_new_file x _ := (next_id x, mkStore (xorbs x) (files x) (next_id x + 1) (sending x) (server_xorbs x) (server_files x));
  increment_file_size x _ _ := x;
  tracker_register_new_xorb x xo := (negb (bool_decide (holds x (RawXorbData.hash xo) (RawXorbData.nodes xo))), x);
  register_dependencies x _ := x;
  register_xorb_upload_completion x _ := x;
  join_finished_uploads x := Ok (0%Z, x);
  start_xorb_upload x xo :=
    Ok (mkStore (xorbs x) (files x) (next_id x) ((RawXorbData.hash xo, RawXorbData.nodes xo) :: sending x) (server_xorbs x) (server_files x));
  join_all_uploads x := Ok (0%Z, mkStore (xorbs x) (files x) (next_id x) [] (sending x ++ server_xorbs x) (server_files x));
|}.

#[local] Instance store_view : SessionView Store := {|
  XHolds := holds;
  Listed x fi := fi ∈ files x;
  Stored x h n := (h, n) ∈ server_xorbs x;
  Sending x h n := (h, n) ∈ sending x;
  Published x fi := fi ∈ server_files x;
|}.

Lemma grows_same (x x' : Store) :
  xorbs x' = xorbs x -> files x' = files x -> sending x' = sending x -> server_xorbs x' = server_xorbs x -> server_files x' = server_files x -> grows x x'.
Proof.
  intros Hx Hf Hs Hsx Hsf. split; [constructor; cbn; unfold holds; rewrite ?Hx, ?Hf, ?Hs, ?Hsx, ?Hsf; auto|].
  unfold backed. cbn. unfold holds. by rewrite Hx, Hs, Hsx.
Qed.

#[local, refine] Instance store_contract : SessionContract Store () := {| session_view := store_view |}.
Proof.
  - intros x h n1 n2 [H1 _] [H2 _]. congruence.
  - by intros x h n (_ & ? & _).
  - by intros x h n (_ & _ & ?).
  - intros x hs r x' [= _ <-]. by apply grows_same.
  - intros x hs n fse ext x' [= Hr <-]. destruct hs as [|h hs]; [done|].
    unfold DedupExamples.find_chunk in Hr. apply head_Some in Hr as [rest Hr].
    assert ((n, fse, ext) ∈ omap (DedupExamples.find_in h) (map_to_list (xorbs x))) as (y & Hy & Hf)%list_elem_of_omap by (rewrite Hr; left).
    destruct (DedupExamples.find_in_ok (xorbs x) h y _ Hy Hf) as [Hn Hrange]. cbn in Hn, Hrange. subst n. cbn. rewrite take_0. split; [lia|done].
  - intros x c x' [= <-]. by apply grows_same.
  - intros x xo x'. cbn. case_decide as Hd; [|done]. intros [= <-]. constructor; cbn; auto. intros h n [Hn Hu]. split; [|done]. cbn.
    destruct (decide (RawXorbData.hash xo = h)) as [<-|]; [|by rewrite lookup_insert_ne].
    rewrite lookup_insert_eq. destruct Hd as [_ [Hd|Hd]]; congruence.
  - intros x xo x'. cbn. case_decide as Hd; [|done]. intros [= <-] _. split; [apply lookup_insert_eq|apply Hd].
  - intros x xo x' h n. cbn. case_decide as Hd; [|done]. intros [= <-] [Hn Hu]. cbn in Hn.
    destruct (decide (RawXorbData.hash xo = h)) as [<-|]; [rewrite lookup_insert_eq in Hn; injection Hn as <-; by right|].
    rewrite lookup_insert_ne in Hn by done. by left.
  - intros x fi x' [= <-]. split; [|done]. constructor; cbn; auto. intros fi'. rewrite elem_of_app. tauto.
  - intros x fi x' [= <-]. cbn. rewrite elem_of_app, list_elem_of_singleton. tauto.
  - intros x n x' [= _ <-]. split; [|done]. constructor; cbn; auto. intros fi. rewrite elem_of_app. tauto.
  - intros x n x' fi [= _ <-]. cbn. rewrite elem_of_app. tauto.
  - intros x size. by apply grows_same.
  - intros x id n. by apply grows_same.
  - intros x xo. by apply grows_same.
  - intros x xo. cbn. rewrite negb_false_iff. by intros ?%bool_decide_eq_true.
  - intros x deps. by apply grows_same.
  - intros x h. by apply grows_same.
  - intros x n x' [= _ <-]. by apply grows_same.
  - intros x xo x' [= <-]. constructor; cbn; auto. intros h n H. left. by right.
  - by intros x xo x' h n [= <-].
  - intros x xo x' [= <-]. by left.
  - intros x n x' [= _ <-]. split.
    + constructor; cbn; auto; intros h nodes; rewrite elem_of_app; tauto.
    + unfold backed. cbn. intros Hb h nodes Hh. left. rewrite elem_of_app. destruct (Hb h nodes Hh); tauto.
  - intros x n x' h nodes [= _ <-]. cbn. rewrite elem_of_app. tauto.
Defined.

Definition empty_store : Store := mkStore ∅ [] 0 [] [] [].

Lemma empty_backed : backed empty_store.
Proof. intros h n [H _]. cbn in H. by rewrite lookup_empty in H. Qed.

(** ** An upload of two files *)

(** A chunk of [n] bytes. *)
Definition fill (v : Z) (n : nat) : list byte := repeat (byte_of v) (n - 1) ++ [byte_of 0].

Definition six_chunks : list byte := concat ((fun v => fill v 300) <$> [11; 12; 13; 14; 15; 16]%Z).

(** The first file shares chunks with the second. *)
Definition two_files : list (Sha256Policy * list (list byte)) :=
  [(ComputeSha, [take 1000 six_chunks; drop 1000 six_chunks]); (Skip, [fill 12 300 ++ fill 17 300; fill 13 300])].

Abbreviation c := Examples.small_chunker.
Abbreviation defrag := (DefragPrevention.new 0 (S754_zero false) (S754_zero false)).

Definition two_uploads := upload_session (E := ()) defrag 500 empty_store two_files.

Definition is_ok {E A} (r : result E A) : bool := match r with Ok _ => true | Err _ => false end.

Lemma upload_session_settles_witness :
  is_ok two_uploads = true /\
  yields two_uploads (fun '(infos, s') =>
    Forall2 (fun info f => hash_hex info = hex (file_hash (file_nodes c (concat f.2))) /\ sha256_hex info = hex <$> policy_sha f.1 f.2) infos two_files /\
    Forall (fun f => uploaded (FileUploadSession.inner s') (file_spec c f.1 f.2)) two_files /\ FileUploadSession.finalized s' = true).
Proof.
  split; [vm_compute; reflexivity|].
  refine (yields_impl _ _ _ (upload_session_settles c _ _ defrag 500 empty_store two_files _ _) _).
  - vm_compute. reflexivity.
  - apply Nat.leb_le. vm_compute. reflexivity.
  - lia.
  - constructor; [apply Z.ltb_lt; vm_compute; reflexivity|]. constructor; [apply Z.ltb_lt; vm_compute; reflexivity|constructor].
  - intros [infos s'] (H1 & _ & H3 & H4). split; [exact H1|]. split; [exact (H4 empty_backed)|exact H3].
Defined.

(** The six chunks in two xorbs, and the three chunks of the second file, of which two are known. *)
Lemma two_uploads_segments :
  (match two_uploads with
   | Ok (_, s) => (fun fi => FileDataSequenceEntry.unpacked_segment_bytes <$> MDBFileInfo.segments fi) <$> files (FileUploadSession.inner s)
   | Err _ => []
   end) = [[900; 900]; [300; 300; 300]]%Z.
Proof. vm_compute. reflexivity. Qed.

(** ** Edits of a file *)

(** A segment that is the whole of a known xorb. *)
Definition known_range (x : Store) (s : Segment) (g : list Node) : Prop :=
  holds x (FileDataSequenceEntry.xorb_hash s) g /\ FileDataSequenceEntry.chunk_index_start s = 0%Z /\ FileDataSequenceEntry.chunk_index_end s = Z.of_nat (length g) /\ 0 < length g /\ FileDataSequenceEntry.unpacked_segment_bytes s = nodes_size g.

#[local] Instance known_range_dec x s g : Decision (known_range x s g).
Proof. unfold known_range. apply _. Defined.

Lemma known_range_resolved x s g :
  bool_decide (known_range x s g) = true -> resolved (E := ()) (UploadSessionDataManager.new (FileUploadSession.new x)) s g.*1.
Proof.
  intros (Hh & Ha & Hb & Hl & Hu)%bool_decide_eq_true. exists g. split; [exact Hh|]. exists 0, (length g).
  rewrite slice_0, take_ge by lia. split_and!; [done|done|lia|lia|done|done].
Qed.

Definition six_store : Store :=
  match upload_session (E := ()) defrag 500 empty_store [(Skip, [six_chunks])] with Ok (_, s) => FileUploadSession.inner s | Err _ => empty_store end.

(** Every known xorb is on the server. *)
Definition all_stored (x : Store) : bool := forallb (fun p => bool_decide (p ∈ server_xorbs x)) (map_to_list (xorbs x)).

Lemma all_stored_backed x : all_stored x = true -> backed x.
Proof.
  unfold all_stored. rewrite forallb_forall. intros H h n [Hn _]. left. apply elem_of_map_to_list, list_elem_of_In, H, bool_decide_eq_true in Hn. done.
Qed.

Lemma six_backed : backed six_store.
Proof. apply all_stored_backed. vm_compute. reflexivity. Qed.

Definition six_mdb : MDBFileInfo.t := match files six_store with fi :: _ => fi | [] => default_file_info end.

Definition six_hash : DataHash := file_hash (file_nodes c six_chunks).

Definition groups : list (list Node) := [take 3 (file_nodes c six_chunks); drop 3 (file_nodes c six_chunks)].

(** A client that answers from the file. *)
#[local] Instance six_client : RangeClient () := {|
  get_file_reconstruction_info _ := Ok (Some six_mdb);
  get_file_chunk_hashes _ q := match build_file_chunk_hashes_response six_mdb q (file_nodes c six_chunks) with Some (Ok r) => Ok r | _ => Err tt end;
  reconstruct_to_stream _ r := [Ok (zslice six_chunks (FileRange.start r) (FileRange.end_ r))];
|}.

Lemma six_client_reads : client_reads (E := ()) six_chunks six_hash.
Proof. intros a b blocks _ _. unfold reconstruct_to_stream, six_client. destruct blocks as [|d [|]]; try done. intros [= <-]. apply app_nil_r. Qed.

Lemma six_hashes q resp :
  get_file_chunk_hashes (E := ()) six_hash q = Ok resp -> build_file_chunk_hashes_response six_mdb q (file_nodes c six_chunks) = Some (Ok resp).
Proof. unfold get_file_chunk_hashes, six_client. destruct (build_file_chunk_hashes_response _ _ _) as [[r|]|]; try done. by intros [= ->]. Qed.

Lemma six_original : original_file (X := Store) (E := ()) c six_chunks six_store six_mdb groups.
Proof.
  split_and!.
  - vm_compute. reflexivity.
  - vm_compute. repeat constructor; discriminate.
  - vm_compute. repeat constructor.
  - assert (exists s1 s2, MDBFileInfo.segments six_mdb = [s1; s2] /\
      bool_decide (known_range six_store s1 (take 3 (file_nodes c six_chunks))) = true /\
      bool_decide (known_range six_store s2 (drop 3 (file_nodes c six_chunks))) = true) as (s1 & s2 & -> & H1 & H2).
    { eexists _, _. split; [vm_compute; reflexivity|]. split; vm_compute; reflexivity. }
    constructor; [by apply known_range_resolved|]. constructor; [by apply known_range_resolved|constructor].
  - vm_compute. reflexivity.
Qed.

Definition edit (a b : Z) (bytes : list byte) : DirtyInput := mkDirtyInput (FileRange.new a b) bytes (Z.of_nat (length bytes)).

#[local] Instance edit_valid_dec size d : Decision (edit_valid size d).
Proof. unfold edit_valid. apply _. Defined.

(** A range of the second segment is replaced, and bytes are appended. *)
Definition tail_edits : list DirtyInput := [edit 1000 1100 (repeat (byte_of 33) 40); edit 1800 1800 (fill 34 20)].

Definition tail_upload := upload_ranges (E := ()) defrag 500 six_store six_hash (Z.of_nat (length six_chunks)) tail_edits.

Lemma tail_aligned q resp :
  server_query (MDBFileInfo.segments six_mdb) (Z.of_nat (length six_chunks)) tail_edits = Some q ->
  get_file_chunk_hashes (E := ()) six_hash q = Ok resp ->
  Forall (fun w => FileRange.end_ w ∈ 0%Z :: bounds 0 (MDBFileInfo.segments six_mdb)) (response_windows resp).
Proof.
  intros Hq Hr%six_hashes. assert (q = [FileRange.new 900 1800]) as ->.
  { apply (inj Some). rewrite <- Hq. vm_compute. reflexivity. }
  assert (response_windows resp = [FileRange.new 900 1800]) as ->.
  { apply (inj Some). transitivity (response_windows <$> (match build_file_chunk_hashes_response six_mdb [FileRange.new 900 1800] (file_nodes c six_chunks) with
      Some (Ok r) => Some r | _ => None end)); [by rewrite Hr|]. vm_compute. reflexivity. }
  constructor; [|constructor]. assert (bounds 0 (MDBFileInfo.segments six_mdb) = [900; 1800]%Z) as -> by (vm_compute; reflexivity).
  right. right. left.
Qed.

Lemma small_new : Chunker_new TARGET_CHUNK_SIZE = Some c.
Proof. vm_compute. reflexivity. Qed.

Lemma small_max : maximum_chunk c <= MAX_XORB_BYTES.
Proof. apply Nat.leb_le. vm_compute. reflexivity. Qed.

Lemma small_window : HASH_WINDOW_SIZE <= minimum_chunk c.
Proof. apply Nat.leb_le. vm_compute. reflexivity. Qed.


(** ** Where the composition loses bytes *)

(** Ten bytes of the first segment are replaced by five. *)
Definition head_edits : list DirtyInput := [edit 10 20 (repeat (byte_of 33) 5)].

(** The window of an edit reaches past the segments of the edit, to two stable chunks, and so can
    end inside a segment.  The rest of that segment is then left out of the composed file, without
    an error: an edit of a file of 1800 bytes gives the hash of the 1795 bytes of the edited file,
    and file information of 1495 bytes. *)
Theorem composed_file_loses_bytes :
  match upload_ranges (E := ()) defrag 500 six_store six_hash 1800 head_edits with
  | Ok (info, Some s') =>
      file_size info = Some 1795%Z /\
      (fun fi => (FileDataSequenceHeader.file_hash (MDBFileInfo.metadata fi), MDBFileInfo.file_size fi)) <$> last (files (FileUploadSession.inner s')) =
        Some (file_hash (file_nodes c (apply_edits six_chunks head_edits)), 1495%Z) /\
      length (apply_edits six_chunks head_edits) = 1795
  | _ => False
  end.
Proof. vm_compute. repeat split; reflexivity. Qed.

(** ** What a session reports *)

Definition strict_defrag : DefragPrevention.t := DedupExamples.strict_defrag.

(** The size in the information on a file is the count of bytes of the deduper, which counts the
    bytes of a deduplication that the fragmentation control prevents twice. *)
Theorem reported_size_counts_twice :
  match upload_session (E := ()) strict_defrag 500 six_store [(Skip, [fill 31 300; fill 32 300; fill 33 300; fill 14 300])] with
  | Ok (infos, _) => file_size <$> infos = [Some 1500%Z]
  | Err _ => False
  end.
Proof. vm_compute. reflexivity. Qed.

(** The SHA-256 of an empty file depends on how it is uploaded: it is zero when the file is read
    from a path, and the SHA-256 of the empty string when it is given as bytes. *)
Theorem empty_file_sha_differs :
  exists info m s' info' m' s'',
    upload_from_path (E := ()) defrag 500 (FileUploadSession.new empty_store) 0 ComputeSha [] = Ok (info, m, s') /\
    upload_bytes (E := ()) defrag 500 (FileUploadSession.new empty_store) [] ComputeSha = Ok (info', m', s'') /\
    sha256_hex info = Some (hex default) /\ sha256_hex info' = Some (hex (sha256_of [])) /\ sha256_of [] <> default.
Proof.
  eexists _, _, _, _, _, _. split; [vm_compute; reflexivity|]. split; [vm_compute; reflexivity|].
  split; [vm_compute; reflexivity|]. split; [vm_compute; reflexivity|]. vm_compute. discriminate.
Qed.

(** ** The windows of a file *)

Definition sample_chunks : list Node := (fun z => (default, z)) <$> [300; 300; 100; 300; 300; 300; 300]%Z.

Definition sample_file : MDBFileInfo.t :=
  MDBFileInfo.mk (FileDataSequenceHeader.mk default 0 2 0) [FileDataSequenceEntry.mk default 0 700 0 3; FileDataSequenceEntry.mk default 0 1200 3 7] [] None.

Lemma chunk_windows_laid_out_witness :
  exists ps trailing,
    (fun r => match r with Ok resp => Some (response_windows resp) | Err _ => None end) <$>
      build_file_chunk_hashes_response sample_file [FileRange.new 350 360; FileRange.new 650 4000] sample_chunks = Some (Some (p_range <$> ps)) /\
    ps <> [] /\ laid_out [FileRange.new 350 360; FileRange.new 650 1900] ps trailing sample_chunks.
Proof.
  destruct (chunk_windows_laid_out sample_file [FileRange.new 350 360; FileRange.new 650 4000] sample_chunks) as (ps & trailing & H1 & H2 & H3).
  - unfold file_of_chunks. vm_compute. repeat split; repeat constructor; discriminate.
  - left. reflexivity.
  - repeat constructor; discriminate.
  - repeat split; discriminate.
  - vm_compute. discriminate.
  - exists ps, trailing. rewrite H1. split; [reflexivity|]. split; [exact H2|exact H3].
Defined.

Definition sample_builder : ChunkWindowBuilder.t := ChunkWindowBuilder.new [FileRange.new 0 700].

Lemma skip_dirty_entry_equiv_witness :
  fst <$> ChunkWindowBuilder.process_chunks sample_builder 0 (take 3 sample_chunks) = ChunkWindowBuilder.skip_dirty_entry sample_builder 700.
Proof.
  apply (skip_dirty_entry_equiv sample_builder (take 3 sample_chunks)).
  - intros [|i] r r' H1 H2; discriminate H2.
  - vm_compute. repeat constructor.
  - vm_compute. discriminate.
  - discriminate.
  - reflexivity.
  - reflexivity.
Defined.

End UploadExamples.
