(* ===== verification/ReconstructionRanges.v ===== *)
(** * Reconstruction ranges

    Model of [compute_reconstruction_ranges] in
    [xet_client/src/cas_client/simulation/xorb_utils.rs], with which the simulated servers answer a
    reconstruction query: the segments of the file that meet the requested bytes, cut down to the
    chunks that are needed, and for each xorb the ranges to fetch.

    [get_xorb_footer] is the argument of the function.  [ClientPanicked] is a failed assertion or an
    index out of range. *)

From Stdlib Require Import Sorted.
From coqutil Require Import Byte.
From stdpp Require Import base numbers gmap sorting list.
From S2P Require Import Prelude DataHash AggregatedHash FileStructs Chunking XorbStructs ChunkFormat RawXorb XorbInfo XorbObject CasTypes.

(** The variants of [ClientError] that the modelled code returns. *)
Inductive ClientError :=
| InvalidRangeError
| InvalidArgumentsError
| XORBNotFound (h : DataHash)
| FileNotFound (h : DataHash)
| PresignedUrlExpirationError
| OtherError
| FormatError (e : CoreError).

Inductive client_failure := ClientFailed (e : ClientError) | ClientPanicked.

(** [?] on an operation of a xorb object. *)
Definition try_object {A} (x : result failure A) : result client_failure A :=
  match x with
  | Ok a => Ok a
  | Err (Failed e) => Err (ClientFailed (FormatError e))
  | Err Panicked => Err ClientPanicked
  end.

(** [assert!] *)
Definition client_assert (b : bool) : result client_failure () := if b then Ok tt else Err ClientPanicked.

Module MergedRange.

Record t := mk { chunk_range : ChunkRange.t; byte_range : FileRange.t }.

End MergedRange.

(** [FetchInfoIntermediate] has the same fields. *)
Abbreviation FetchInfoIntermediate := MergedRange.t.

#[local] Open Scope Z_scope.

(** ** Merging the ranges of a xorb *)

Definition chunk_start (fi : FetchInfoIntermediate) : Z := ChunkRange.start (MergedRange.chunk_range fi).
Definition chunk_end (fi : FetchInfoIntermediate) : Z := ChunkRange.end_ (MergedRange.chunk_range fi).

Definition start_le (a b : FetchInfoIntermediate) : Prop := chunk_start a <= chunk_start b.
#[global] Instance start_le_dec a b : Decision (start_le a b).
Proof. unfold start_le. apply _. Defined.

Definition extend_range (cur next : FetchInfoIntermediate) : FetchInfoIntermediate :=
  MergedRange.mk
    (ChunkRange.new (chunk_start cur) (Z.max (chunk_end cur) (chunk_end next)))
    (FileRange.new (FileRange.start (MergedRange.byte_range cur))
       (Z.max (FileRange.end_ (MergedRange.byte_range cur)) (FileRange.end_ (MergedRange.byte_range next)))).

(** The loops over [fi_vec], at [cur] with the entries after it. *)
Fixpoint merge_from (cur : FetchInfoIntermediate) (rest : list FetchInfoIntermediate) : list MergedRange.t :=
  match rest with
  | [] => [cur]
  | next :: rest' =>
      if chunk_start next <=? chunk_end cur then merge_from (extend_range cur next) rest'
      else cur :: merge_from next rest'
  end.

Definition merge_ranges (fi_vec : list FetchInfoIntermediate) : list MergedRange.t :=
  match merge_sort start_le fi_vec with
  | [] => []
  | cur :: rest => merge_from cur rest
  end.

(** [for (hash, mut fi_vec) in fetch_info_map] *)
Definition merge_all (fetch_info_map : gmap DataHash (list FetchInfoIntermediate)) : gmap DataHash (list MergedRange.t) :=
  merge_ranges <$> fetch_info_map.

(** ** The terms *)

Section Ranges.
  Context (get_xorb_footer : DataHash -> result client_failure XorbObject.t).

(** The first loop: the segments from the one that holds the byte [start] on, and where it starts. *)
Fixpoint find_segment (segments : list FileDataSequenceEntry.t) (start cumulative_bytes : Z) :
    result client_failure (list FileDataSequenceEntry.t * Z) :=
    match segments with
    | [] => Err (ClientFailed InvalidRangeError)
    | segment :: segments' =>
        let n := FileDataSequenceEntry.unpacked_segment_bytes segment in
        if start <? wrap64 (cumulative_bytes + n) then
          _ ← client_assert (cumulative_bytes <=? start);
          Ok (segments, cumulative_bytes)
        else find_segment segments' start (wrap64 (cumulative_bytes + n))
    end.

(** [while chunk_range.start < chunk_range.end], with as much fuel as there are chunks left. *)
Fixpoint prune_front (fuel : nat) (xorb_footer : XorbObject.t) (start cumulative_bytes first_chunk_byte_start unpacked chunk : Z) :
    result client_failure (Z * Z * Z * Z) :=
    match fuel with
    | O => Ok (cumulative_bytes, first_chunk_byte_start, unpacked, chunk)
    | S fuel' =>
        next_chunk_size ← try_object (XorbObject.uncompressed_chunk_length xorb_footer chunk);
        if wrap64 (cumulative_bytes + next_chunk_size) <=? start then
          prune_front fuel' xorb_footer start (wrap64 (cumulative_bytes + next_chunk_size))
            (wrap64 (first_chunk_byte_start + next_chunk_size)) (wrap32 (unpacked - next_chunk_size)) (wrap32 (chunk + 1))
        else Ok (cumulative_bytes, first_chunk_byte_start, unpacked, chunk)
    end.

(** [while chunk_range.end > chunk_range.start] *)
Fixpoint prune_back (fuel : nat) (xorb_footer : XorbObject.t) (end_ cumulative_bytes unpacked chunk : Z) :
    result client_failure (Z * Z) :=
    match fuel with
    | O => Ok (unpacked, chunk)
    | S fuel' =>
        last_chunk_size ← try_object (XorbObject.uncompressed_chunk_length xorb_footer (wrap32 (chunk - 1)));
        let without := wrap32 (unpacked - last_chunk_size) in
        if end_ <=? wrap64 (cumulative_bytes + without) then
          _ ← client_assert (0 <? without);
          prune_back fuel' xorb_footer end_ cumulative_bytes without (wrap32 (chunk - 1))
        else Ok (unpacked, chunk)
    end.

(** [fetch_info_map.entry(hash).or_default().push(info)] *)
Definition push_info (m : gmap DataHash (list FetchInfoIntermediate)) (hash : DataHash) (info : FetchInfoIntermediate) :
    gmap DataHash (list FetchInfoIntermediate) :=
    <[hash := from_option id [] (m !! hash) ++ [info]]> m.

(** The body of the second loop: the term of a segment, its fetch information, and
    [cumulative_bytes] and [first_chunk_byte_start] afterwards. *)
Definition segment_term (file_range : FileRange.t) (segment : FileDataSequenceEntry.t) (cumulative_bytes first_chunk_byte_start : Z) :
    result client_failure (XorbReconstructionTerm.t * FetchInfoIntermediate * Z * Z) :=
    let hash := FileDataSequenceEntry.xorb_hash segment in
    let unpacked := FileDataSequenceEntry.unpacked_segment_bytes segment in
    let start := FileDataSequenceEntry.chunk_index_start segment in
    let end_ := FileDataSequenceEntry.chunk_index_end segment in
    xorb_footer ← get_xorb_footer hash;
    '(cumulative_bytes, first_chunk_byte_start, unpacked, start) ←
      (if cumulative_bytes <? FileRange.start file_range
       then prune_front (Z.to_nat (end_ - start)) xorb_footer (FileRange.start file_range) cumulative_bytes first_chunk_byte_start unpacked start
       else Ok (cumulative_bytes, first_chunk_byte_start, unpacked, start));
    '(unpacked, end_) ←
      (if FileRange.end_ file_range <? wrap64 (cumulative_bytes + unpacked)
       then prune_back (Z.to_nat (end_ - start)) xorb_footer (FileRange.end_ file_range) cumulative_bytes unpacked end_
       else Ok (unpacked, end_));
    '(byte_start, byte_end) ← try_object (XorbObject.get_byte_offset xorb_footer start end_);
    let chunk_range := ChunkRange.new start end_ in
    Ok (XorbReconstructionTerm.mk hash unpacked chunk_range, MergedRange.mk chunk_range (FileRange.new byte_start byte_end),
        wrap64 (cumulative_bytes + unpacked), first_chunk_byte_start).

(** The second loop. *)
Fixpoint terms_loop (file_range : FileRange.t) (segments : list FileDataSequenceEntry.t) (cumulative_bytes first_chunk_byte_start : Z)
    (terms : list XorbReconstructionTerm.t) (fetch_info_map : gmap DataHash (list FetchInfoIntermediate)) :
    result client_failure (Z * list XorbReconstructionTerm.t * gmap DataHash (list FetchInfoIntermediate)) :=
    match segments with
    | [] => Ok (first_chunk_byte_start, terms, fetch_info_map)
    | segment :: segments' =>
        if cumulative_bytes <? FileRange.end_ file_range then
          '(term, info, cumulative_bytes, first_chunk_byte_start) ← segment_term file_range segment cumulative_bytes first_chunk_byte_start;
          terms_loop file_range segments' cumulative_bytes first_chunk_byte_start (terms ++ [term])
            (push_info fetch_info_map (XorbReconstructionTerm.hash term) info)
        else Ok (first_chunk_byte_start, terms, fetch_info_map)
    end.

(** The offset into the first range, the terms, and the merged ranges of each xorb. *)
Abbreviation ReconstructionRanges := (Z * list XorbReconstructionTerm.t * gmap DataHash (list MergedRange.t))%type.

(** The range of bytes to cover, or the result when there is nothing to cover. *)
Definition requested_file_range (total_file_size : Z) (bytes_range : option FileRange.t) : FileRange.t + option ReconstructionRanges :=
    match bytes_range with
    | Some range =>
        if total_file_size <=? FileRange.start range then
          if (total_file_size =? 0) && (FileRange.start range =? 0) then inr (Some (0, [], ∅)) else inr None
        else inl (FileRange.new (FileRange.start range) (Z.min (FileRange.end_ range) total_file_size))
    | None => if total_file_size =? 0 then inr (Some (0, [], ∅)) else inl FileRange.full
    end.

Definition compute_reconstruction_ranges (file_info : MDBFileInfo.t) (bytes_range : option FileRange.t) :
    result client_failure (option ReconstructionRanges) :=
    match requested_file_range (MDBFileInfo.file_size file_info) bytes_range with
    | inr r => Ok r
    | inl file_range =>
        '(segments, cumulative_bytes) ← find_segment (MDBFileInfo.segments file_info) (FileRange.start file_range) 0;
        '(first_chunk_byte_start, terms, fetch_info_map) ← terms_loop file_range segments cumulative_bytes cumulative_bytes [] ∅;
        Ok (Some (wrap64 (FileRange.start file_range - first_chunk_byte_start), terms, merge_all fetch_info_map))
    end.
End Ranges.

(** ** What the ranges stand for *)

(** For each xorb the contents of its chunks and the bytes that serialise them. *)
Definition xorb_view : Type := DataHash -> option (list (list byte) * list (list byte)).

(** What the computation relies on in a footer. *)
Record describes (x : XorbObject.t) (datas bss : list (list byte)) : Prop := {
  describes_length : length datas = length bss;
  describes_size (a : nat) d : datas !! a = Some d -> XorbObject.uncompressed_chunk_length x (Z.of_nat a) = Ok (Z.of_nat (length d));
  describes_offset (a b : nat) : (a < b <= length bss)%nat ->
    XorbObject.get_byte_offset x (Z.of_nat a) (Z.of_nat b) =
      Ok (Z.of_nat (length (concat (take a bss))), Z.of_nat (length (concat (take b bss))));
}.

Definition chunks_in (view : xorb_view) (h : DataHash) (r : ChunkRange.t) : list (list byte) :=
  match view h with
  | Some (datas, _) => datas ⟦Z.to_nat (ChunkRange.start r), Z.to_nat (ChunkRange.end_ r)⟧
  | None => []
  end.

Definition range_data (view : xorb_view) (h : DataHash) (r : ChunkRange.t) : list byte := concat (chunks_in view h r).

(** A range of chunks that the xorb has. *)
Definition range_ok (view : xorb_view) (h : DataHash) (r : ChunkRange.t) : Prop :=
  exists datas bss, view h = Some (datas, bss) /\
    0 <= ChunkRange.start r < ChunkRange.end_ r /\ ChunkRange.end_ r <= Z.of_nat (length datas).

Definition segment_range (seg : FileDataSequenceEntry.t) : ChunkRange.t :=
  ChunkRange.new (FileDataSequenceEntry.chunk_index_start seg) (FileDataSequenceEntry.chunk_index_end seg).

Definition segment_data (view : xorb_view) (seg : FileDataSequenceEntry.t) : list byte :=
  range_data view (FileDataSequenceEntry.xorb_hash seg) (segment_range seg).

Definition segment_ok (view : xorb_view) (seg : FileDataSequenceEntry.t) : Prop :=
  range_ok view (FileDataSequenceEntry.xorb_hash seg) (segment_range seg) /\
  FileDataSequenceEntry.unpacked_segment_bytes seg = Z.of_nat (length (segment_data view seg)).

(** The content of a file. *)
Definition file_data (view : xorb_view) (segments : list FileDataSequenceEntry.t) : list byte :=
  concat (segment_data view <$> segments).

Definition term_data (view : xorb_view) (t : XorbReconstructionTerm.t) : list byte :=
  range_data view (XorbReconstructionTerm.hash t) (XorbReconstructionTerm.range t).

Definition term_ok (view : xorb_view) (t : XorbReconstructionTerm.t) : Prop :=
  range_ok view (XorbReconstructionTerm.hash t) (XorbReconstructionTerm.range t) /\
  XorbReconstructionTerm.unpacked_length t = Z.of_nat (length (term_data view t)).

Definition terms_data (view : xorb_view) (terms : list XorbReconstructionTerm.t) : list byte := concat (term_data view <$> terms).

(** The bytes of the serialised xorb that hold a range of chunks. *)
Definition byte_range_of (view : xorb_view) (h : DataHash) (r : ChunkRange.t) : FileRange.t :=
  match view h with
  | Some (_, bss) => FileRange.new (Z.of_nat (length (concat (take (Z.to_nat (ChunkRange.start r)) bss))))
                       (Z.of_nat (length (concat (take (Z.to_nat (ChunkRange.end_ r)) bss))))
  | None => FileRange.new 0 0
  end.

Definition info_of (view : xorb_view) (t : XorbReconstructionTerm.t) : FetchInfoIntermediate :=
  MergedRange.mk (XorbReconstructionTerm.range t) (byte_range_of view (XorbReconstructionTerm.hash t) (XorbReconstructionTerm.range t)).

(** The fetch information of a list of terms. *)
Definition add_infos (view : xorb_view) (m : gmap DataHash (list FetchInfoIntermediate)) (terms : list XorbReconstructionTerm.t) :
  gmap DataHash (list FetchInfoIntermediate) :=
  fold_left (fun m t => push_info m (XorbReconstructionTerm.hash t) (info_of view t)) terms m.

(** ** Slices of chunks *)

Lemma concat_length_le {A} (l : list (list A)) i j : (i <= j)%nat -> (length (concat (take i l)) <= length (concat (take j l)))%nat.
Proof.
  intros Hij. rewrite <- (take_drop i (take j l)), take_take, Nat.min_l, concat_app, length_app by lia. lia.
Qed.

Lemma concat_take_all {A} (l : list (list A)) i : (length (concat (take i l)) <= length (concat l))%nat.
Proof. rewrite <- (take_drop i l) at 2. rewrite concat_app, length_app. lia. Qed.

Lemma slice_first {A} (l : list A) a b x : (a < b)%nat -> l !! a = Some x -> l ⟦a, b⟧ = x :: l ⟦S a, b⟧.
Proof.
  intros Hab Hx. unfold slice. rewrite (drop_S _ _ _ Hx). replace (b - a)%nat with (S (b - S a)) by lia. done.
Qed.

Lemma slice_last {A} (l : list A) a b x : (a <= b)%nat -> l !! b = Some x -> l ⟦a, S b⟧ = l ⟦a, b⟧ ++ [x].
Proof.
  intros Hab Hx. unfold slice. replace (S b - a)%nat with (S (b - a)) by lia.
  rewrite (take_S_r _ _ x); [done|]. rewrite lookup_drop. by replace (a + (b - a))%nat with b by lia.
Qed.

Lemma slice_split {A} (l : list A) a b c : (a <= b <= c)%nat -> l ⟦a, c⟧ = l ⟦a, b⟧ ++ l ⟦b, c⟧.
Proof. intros H. symmetry. apply slice_app_slice; lia. Qed.

Lemma slice_concat_le {A} (l : list (list A)) a b : (length (concat (l ⟦a, b⟧)) <= length (concat l))%nat.
Proof.
  unfold slice. etrans; [apply concat_take_all|]. rewrite <- (take_drop a l) at 2. rewrite concat_app, length_app. lia.
Qed.

Lemma not_nil_length {A} (l : list (list A)) : Forall (fun d => d <> []) l -> (length l <= length (concat l))%nat.
Proof. induction 1 as [|d l Hd _ IH]; cbn; [lia|]. rewrite length_app. destruct d; [done|]. cbn. lia. Qed.

Lemma slice_not_nil {A} (l : list (list A)) a b :
  Forall (fun d => d <> []) l -> (a < b <= length l)%nat -> (0 < length (concat (l ⟦a, b⟧)))%nat.
Proof.
  intros Hl Hab. destruct (lookup_lt_is_Some_2 l a) as [d Hd]; [lia|]. rewrite (slice_first _ _ _ _ (proj1 Hab) Hd). cbn. rewrite length_app.
  rewrite Forall_lookup in Hl. specialize (Hl _ _ Hd). destruct d; [done|]. cbn. lia.
Qed.

(** ** Pruning *)

Section Pruning.
  Context (x : XorbObject.t) (datas bss : list (list byte)).
  Hypothesis footer : describes x datas bss.
  Hypothesis not_empty : Forall (fun d => d <> []) datas.
  Hypothesis small : Z.of_nat (length (concat datas)) < 2 ^ 32.

Abbreviation size a b := (Z.of_nat (length (concat (datas ⟦a, b⟧)))).

Lemma size_first a b d : (a < b)%nat -> datas !! a = Some d -> size a b = Z.of_nat (length d) + size (S a) b.
Proof. intros Hab Hd. rewrite (slice_first _ _ _ _ Hab Hd). cbn [concat]. rewrite length_app. lia. Qed.

Lemma size_last a b d : (a <= b)%nat -> datas !! b = Some d -> size a (S b) = size a b + Z.of_nat (length d).
Proof. intros Hab Hd. rewrite (slice_last _ _ _ _ Hab Hd), concat_app, length_app. cbn [concat]. rewrite app_nil_r. lia. Qed.

Lemma size_small a b : 0 <= size a b < 2 ^ 32.
Proof. pose proof (slice_concat_le datas a b). lia. Qed.

Lemma size_refl a : size a a = 0.
Proof. unfold slice. by rewrite Nat.sub_diag, take_0. Qed.

Lemma size_split a b c : (a <= b <= c)%nat -> size a c = size a b + size b c.
Proof. intros H. rewrite (slice_split _ _ _ _ H), concat_app, length_app. lia. Qed.

Lemma count_small : Z.of_nat (length datas) < 2 ^ 32.
Proof. pose proof (not_nil_length _ not_empty). lia. Qed.

Lemma prune_front_ok k a b start cum first :
    (b - a = k)%nat -> (b <= length datas)%nat -> 0 <= cum <= start -> start < cum + size a b -> cum + size a b < 2 ^ 64 ->
    0 <= first -> first + size a b < 2 ^ 64 ->
    exists a', (a <= a' < b)%nat /\
      prune_front k x start cum first (size a b) (Z.of_nat a) = Ok (cum + size a a', first + size a a', size a' b, Z.of_nat a') /\
      cum + size a a' <= start < cum + size a (S a').
Proof.
  pose proof count_small as Hcount. revert a cum first. induction k as [|k IH]; intros a cum first Hk Hb Hc Hs Hf Hfi Hff.
  { assert (b <= a)%nat by lia. unfold slice in Hs. replace (b - a)%nat with 0%nat in Hs by lia. rewrite take_0 in Hs. cbn in Hs. lia. }
  destruct (lookup_lt_is_Some_2 datas a) as [d Hd]; [lia|]. pose proof (size_first a b d ltac:(lia) Hd) as E.
  pose proof (size_small (S a) b) as Hsm. pose proof (size_small a b) as Hsm0. cbn [prune_front].
  rewrite (describes_size _ _ _ footer _ _ Hd). cbn [try_object]. rewrite result_bind_Ok, wrap64_small by (unfold is_u64; lia).
  destruct (Z.leb_spec (cum + Z.of_nat (length d)) start) as [Hle|Hgt].
  - rewrite wrap64_small, !wrap32_small by (unfold is_u64, is_u32; lia). replace (Z.of_nat a + 1) with (Z.of_nat (S a)) by lia.
    replace (size a b - Z.of_nat (length d)) with (size (S a) b) by lia.
    destruct (IH (S a) (cum + Z.of_nat (length d)) (first + Z.of_nat (length d))) as (a' & Ha' & E' & Hb'); [lia..|].
    exists a'. split; [lia|]. rewrite (size_first a a' d), (size_first a (S a') d) by (done || lia). split; [|lia].
    rewrite E'. do 4 f_equal; lia.
  - exists a. split; [lia|]. rewrite size_refl, !Z.add_0_r. split; [done|]. rewrite (size_first a (S a) d), size_refl by (done || lia). lia.
Qed.

Lemma prune_back_ok k a b end_ cum :
    (b - a = k)%nat -> (b <= length datas)%nat -> 0 <= cum < end_ -> end_ <= cum + size a b -> cum + size a b < 2 ^ 64 ->
    exists b', (a < b' <= b)%nat /\
      prune_back k x end_ cum (size a b) (Z.of_nat b) = Ok (size a b', Z.of_nat b') /\
      cum + size a (b' - 1) < end_ <= cum + size a b'.
Proof.
  pose proof count_small as Hcount. revert b. induction k as [|k IH]; intros b Hk Hb Hc He Hf.
  { unfold slice in He. replace (b - a)%nat with 0%nat in He by lia. rewrite take_0 in He. cbn in He. lia. }
  destruct b as [|b]; [lia|]. destruct (lookup_lt_is_Some_2 datas b) as [d Hd]; [lia|].
  pose proof (size_last a b d ltac:(lia) Hd) as E. pose proof (size_small a b) as Hsm. pose proof (size_small a (S b)) as Hsm0.
  cbn [prune_back]. replace (Z.of_nat (S b) - 1) with (Z.of_nat b) by lia. rewrite (wrap32_small (Z.of_nat b)) by (unfold is_u32; lia).
  rewrite (describes_size _ _ _ footer _ _ Hd). cbn [try_object]. rewrite result_bind_Ok. cbn zeta.
  replace (size a (S b) - Z.of_nat (length d)) with (size a b) by lia. rewrite wrap32_small, wrap64_small by (unfold is_u64, is_u32; lia).
  destruct (Z.leb_spec end_ (cum + size a b)) as [Hle|Hgt].
  - rewrite (proj2 (Z.ltb_lt 0 _)) by lia. cbn [client_assert]. rewrite result_bind_Ok.
    destruct (IH b) as (b' & Hb' & E' & H'); [lia..|]. exists b'. split; [lia|done].
  - exists (S b). split; [lia|]. replace (S b - 1)%nat with b by lia. split; [done|lia].
Qed.

Lemma chunk_not_empty a d : datas !! a = Some d -> 0 < Z.of_nat (length d).
Proof. intros Hd. rewrite Forall_lookup in not_empty. specialize (not_empty _ _ Hd). destruct d; [done|]. cbn. lia. Qed.

(** What is left of a segment after the front, and after the back, has been looked at. *)
Lemma front_cut a b start cum first :
    (a < b <= length datas)%nat -> 0 <= cum -> start < cum + size a b -> cum + size a b < 2 ^ 64 -> 0 <= first -> first + size a b < 2 ^ 64 ->
    exists a', (a <= a' < b)%nat /\
      (if cum <? start then prune_front (Z.to_nat (Z.of_nat b - Z.of_nat a)) x start cum first (size a b) (Z.of_nat a)
       else Ok (cum, first, size a b, Z.of_nat a)) = Ok (cum + size a a', first + size a a', size a' b, Z.of_nat a') /\
      (start <= cum -> a' = a) /\ (cum <= start -> cum + size a a' <= start < cum + size a (S a')).
Proof.
  intros Hab Hc Hs Hf Hfi Hff. destruct (Z.ltb_spec cum start) as [Hlt|Hge].
  - destruct (prune_front_ok (Z.to_nat (Z.of_nat b - Z.of_nat a)) a b start cum first) as (a' & ? & ? & ?); [lia..|].
    exists a'. split_and!; [lia|lia|done|lia|]. intros _. done.
  - exists a. rewrite size_refl, !Z.add_0_r. split_and!; [lia|lia|done|done|].
    intros ?. destruct (lookup_lt_is_Some_2 datas a) as [d Hda]; [lia|]. rewrite (size_first a (S a) d), size_refl by (done || lia).
    pose proof (chunk_not_empty _ _ Hda). lia.
Qed.

Lemma back_cut a b end_ cum :
    (a < b <= length datas)%nat -> 0 <= cum < end_ -> cum + size a b < 2 ^ 64 ->
    exists b', (a < b' <= b)%nat /\
      (if end_ <? cum + size a b then prune_back (Z.to_nat (Z.of_nat b - Z.of_nat a)) x end_ cum (size a b) (Z.of_nat b)
       else Ok (size a b, Z.of_nat b)) = Ok (size a b', Z.of_nat b') /\
      cum + size a (b' - 1) < end_ /\ (b' = b \/ end_ <= cum + size a b').
Proof.
  intros Hab Hc Hf. destruct (Z.ltb_spec end_ (cum + size a b)) as [Hlt|Hge].
  - destruct (prune_back_ok (Z.to_nat (Z.of_nat b - Z.of_nat a)) a b end_ cum) as (b' & ? & ? & ?); [lia..|].
    exists b'. split_and!; [lia|lia|done|lia|]. right. lia.
  - exists b. split_and!; [lia|lia|done| |by left]. destruct b as [|b0]; [lia|]. replace (S b0 - 1)%nat with b0 by lia.
    destruct (lookup_lt_is_Some_2 datas b0) as [d Hdb]; [lia|]. rewrite (size_last a b0 d) in Hge by (done || lia).
    pose proof (chunk_not_empty _ _ Hdb). lia.
Qed.
End Pruning.

(** ** The terms cover the request *)

Definition view_wf (view : xorb_view) : Prop :=
  forall h datas bss, view h = Some (datas, bss) ->
    Forall (fun d => d <> []) datas /\ Z.of_nat (length (concat datas)) < 2 ^ 32.

Section Terms.
  Context (get_xorb_footer : DataHash -> result client_failure XorbObject.t) (view : xorb_view).
  Hypothesis footers : forall h datas bss, view h = Some (datas, bss) -> exists x, get_xorb_footer h = Ok x /\ describes x datas bss.
  Hypothesis wf : view_wf view.

Lemma segment_term_ok s e seg cum first :
    segment_ok view seg -> 0 <= cum < e -> 0 <= s < e -> s < cum + Z.of_nat (length (segment_data view seg)) ->
    cum + Z.of_nat (length (segment_data view seg)) < 2 ^ 64 ->
    0 <= first -> first + Z.of_nat (length (segment_data view seg)) < 2 ^ 64 ->
    exists t A B, segment_term get_xorb_footer (FileRange.new s e) seg cum first =
        Ok (t, info_of view t, cum + Z.of_nat (length A) + Z.of_nat (length (term_data view t)), first + Z.of_nat (length A)) /\
      term_ok view t /\ segment_data view seg = A ++ term_data view t ++ B /\
      (s <= cum -> A = []) /\
      (cum <= s -> cum + Z.of_nat (length A) <= s /\
         exists c cs, chunks_in view (XorbReconstructionTerm.hash t) (XorbReconstructionTerm.range t) = c :: cs /\
           s < cum + Z.of_nat (length A) + Z.of_nat (length c)) /\
      (B = [] \/ e <= cum + Z.of_nat (length A) + Z.of_nat (length (term_data view t))) /\
      exists cs c, chunks_in view (XorbReconstructionTerm.hash t) (XorbReconstructionTerm.range t) = cs ++ [c] /\
        cum + Z.of_nat (length A) + Z.of_nat (length (concat cs)) < e.
Proof.
  destruct seg as [h flags unpacked za zb]. intros [(datas & bss & Hv & Ha & Hb) Hu]. cbn [segment_range ChunkRange.start ChunkRange.end_] in *.
  cbn in Hv, Ha, Hb. destruct (footers _ _ _ Hv) as (x & Hx & Hd). destruct (wf _ _ _ Hv) as [Hn Hsm].
  assert (exists a b : nat, za = Z.of_nat a /\ zb = Z.of_nat b /\ (a < b <= length datas)%nat) as (a & b & -> & -> & Hab).
  { exists (Z.to_nat za), (Z.to_nat zb). cbn in *. lia. }
  assert (segment_data view (FileDataSequenceEntry.mk h flags unpacked (Z.of_nat a) (Z.of_nat b)) = concat (datas ⟦a, b⟧)) as ->.
  { unfold segment_data, range_data, chunks_in. cbn. by rewrite Hv, !Nat2Z.id. }
  cbn in Hu. unfold segment_data, range_data, chunks_in in Hu. cbn in Hu. rewrite Hv, !Nat2Z.id in Hu.
  intros Hc Hse Hs Hf Hfi Hff. set (size := fun a b => Z.of_nat (length (concat (datas ⟦a, b⟧)))).
  unfold segment_term. cbn [FileDataSequenceEntry.xorb_hash FileDataSequenceEntry.unpacked_segment_bytes FileDataSequenceEntry.chunk_index_start
    FileDataSequenceEntry.chunk_index_end FileRange.start FileRange.end_]. rewrite Hx, result_bind_Ok. subst unpacked.
  destruct (front_cut x datas bss Hd Hn Hsm a b s cum first) as (a' & Ha' & E1 & H1 & H2); [done|lia..|].
  fold (size a b) (size a a') (size a' b) (size a (S a')) in *. rewrite E1, result_bind_Ok. clear E1.
  assert (cum + size a a' < e) as Hca.
  { destruct (Z.le_gt_cases s cum) as [Hle|Hgt]; [rewrite (H1 Hle); unfold size; rewrite size_refl; lia|]. destruct H2; lia. }
  pose proof (size_split datas a a' b ltac:(lia)) as Hsplit. pose proof (size_small datas Hsm a a') as Hsz1.
  pose proof (size_small datas Hsm a' b) as Hsz2. fold (size a a') (size a' b) (size a b) in *.
  rewrite wrap64_small by (unfold is_u64; lia).
  destruct (back_cut x datas bss Hd Hn Hsm a' b e (cum + size a a')) as (b' & Hb' & E2 & H3 & H4); [lia|fold (size a' b); lia..|].
  fold (size a' b) (size a' b') (size a' (b' - 1)%nat) in *.
  rewrite E2, result_bind_Ok, (describes_offset _ _ _ Hd) by (rewrite <- (describes_length _ _ _ Hd); lia). clear E2.
  cbn [try_object]. rewrite result_bind_Ok. cbn zeta.
  set (t := XorbReconstructionTerm.mk h (size a' b') (ChunkRange.new (Z.of_nat a') (Z.of_nat b'))).
  assert (chunks_in view h (ChunkRange.new (Z.of_nat a') (Z.of_nat b')) = datas ⟦a', b'⟧) as Ech.
  { unfold chunks_in. cbn. by rewrite Hv, !Nat2Z.id. }
  assert (term_data view t = concat (datas ⟦a', b'⟧)) as Et by (unfold term_data, range_data; cbn; by rewrite Ech).
  pose proof (size_split datas a' b' b ltac:(lia)) as Hsplit2. pose proof (size_small datas Hsm a' b') as Hsz3. pose proof (size_small datas Hsm b' b) as Hsz4.
  fold (size a' b') (size b' b) (size a' b) in *.
  exists t, (concat (datas ⟦a, a'⟧)), (concat (datas ⟦b', b⟧)). rewrite Et. fold (size a a') (size a' b').
  cbn [XorbReconstructionTerm.hash XorbReconstructionTerm.range t]. rewrite Ech. split_and!.
  - rewrite wrap64_small by (unfold is_u64; lia). unfold info_of, byte_range_of. cbn. by rewrite Hv, !Nat2Z.id.
  - split; [exists datas, bss; cbn; split_and!; [done|lia..]|]. cbn. by rewrite Et.
  - rewrite <- !concat_app. f_equal. rewrite (slice_split datas a a' b) by lia. f_equal. apply slice_split. lia.
  - intros Hle. rewrite (H1 Hle). unfold slice. by rewrite Nat.sub_diag, take_0.
  - intros Hle. destruct (H2 Hle) as [H5 H6]. split; [done|]. destruct (lookup_lt_is_Some_2 datas a') as [d Hda]; [lia|].
    exists d, (datas ⟦S a', b'⟧). split; [apply slice_first; [lia|done]|]. unfold size in H6. rewrite (size_last datas a a' d) in H6 by (done || lia). fold (size a a') in H6. lia.
  - destruct H4 as [->|H4]; [left|right; done]. unfold slice. by rewrite Nat.sub_diag, take_0.
  - destruct b' as [|b0]; [lia|]. replace (S b0 - 1)%nat with b0 in H3 by lia. destruct (lookup_lt_is_Some_2 datas b0) as [d Hdb]; [lia|].
    exists (datas ⟦a', b0⟧), d. split; [apply slice_last; [lia|done]|]. done.
Qed.

Abbreviation term_chunks t := (chunks_in view (XorbReconstructionTerm.hash t) (XorbReconstructionTerm.range t)).

(** The last chunk of the last term starts before [e], where the first term is at [cum]. *)
Definition ends_before (cum e : Z) (terms : list XorbReconstructionTerm.t) : Prop :=
    exists ts t cs c, terms = ts ++ [t] /\ term_chunks t = cs ++ [c] /\
      cum + Z.of_nat (length (terms_data view ts)) + Z.of_nat (length (concat cs)) < e.

Lemma ends_before_cons cum e t terms :
    ends_before (cum + Z.of_nat (length (term_data view t))) e terms -> ends_before cum e (t :: terms).
Proof.
  intros (ts & t' & cs & c & -> & Hc & H). exists (t :: ts), t', cs, c. split_and!; [done|done|].
  unfold terms_data in *. cbn. rewrite length_app. lia.
Qed.

Lemma terms_loop_ok s e segs cum first terms m :
    Forall (segment_ok view) segs -> 0 <= s < e -> s <= cum -> cum + Z.of_nat (length (file_data view segs)) < 2 ^ 64 -> 0 <= first <= cum ->
    exists new B, terms_loop get_xorb_footer (FileRange.new s e) segs cum first terms m = Ok (first, terms ++ new, add_infos view m new) /\
      Forall (term_ok view) new /\ file_data view segs = terms_data view new ++ B /\
      (B = [] \/ e <= cum + Z.of_nat (length (terms_data view new))) /\ (new = [] \/ ends_before cum e new).
Proof.
  intros Hsegs. revert cum terms m. induction Hsegs as [|seg segs Hseg _ IH]; intros cum terms m Hse Hc Hf Hfi.
  { exists [], []. cbn. rewrite app_nil_r. split_and!; auto. }
  unfold file_data in *. cbn [fmap list_fmap concat] in *. rewrite length_app in Hf. cbn [terms_loop FileRange.end_].
  destruct (Z.ltb_spec cum e) as [Hlt|Hge].
  2:{ exists [], (segment_data view seg ++ concat (segment_data view <$> segs)). cbn. rewrite app_nil_r. split_and!; auto. right. lia. }
  assert (0 < length (segment_data view seg))%nat.
  { destruct Hseg as [(datas & bss & Hv & H1 & H2) _]. unfold segment_data, range_data, chunks_in. rewrite Hv. apply slice_not_nil; [by eapply wf|lia]. }
  destruct (segment_term_ok s e seg cum first) as (t & A & B & E & Ht & Hd & HA & _ & HB & Hl); [done|lia..|].
  rewrite (HA Hc) in *. cbn [length app] in *. rewrite !Z.add_0_r in *. rewrite E, result_bind_Ok. clear E.
  assert (length (segment_data view seg) = length (term_data view t) + length B)%nat as Hlen by (rewrite Hd, length_app; done).
  destruct (IH (cum + Z.of_nat (length (term_data view t))) (terms ++ [t]) (push_info m (XorbReconstructionTerm.hash t) (info_of view t)))
    as (new & B' & E & Hnew & Hd' & HB' & Hl'); [lia..|].
  rewrite E. destruct Hl as (cs & c & Hcs & Hl). exists (t :: new). rewrite <- app_assoc. cbn [app].
  destruct HB as [->|HB].
  - exists B'. rewrite app_nil_r in Hd. unfold terms_data in *. cbn [fmap list_fmap concat]. rewrite length_app, Hd, Hd', <- app_assoc.
    split_and!; [done|by constructor|done|destruct HB'; [by left|right; lia]|]. right. destruct Hl' as [->|Hl']; [|by apply ends_before_cons].
    exists [], t, cs, c. split_and!; [done|done|cbn; lia].
  - destruct new as [|t' new].
    + exists (B ++ concat (segment_data view <$> segs)). unfold terms_data. cbn [fmap list_fmap concat]. rewrite app_nil_r, Hd, <- app_assoc.
      split_and!; [done|by constructor|done|right; lia|]. right. exists [], t, cs, c. split_and!; [done|done|cbn; lia].
    + exfalso. destruct Hl' as [?|(ts & t2 & cs2 & c2 & _ & _ & Hl')]; [done|]. lia.
Qed.

(** The segment found holds the byte [s]. *)
Lemma find_segment_ok s segs cum :
    Forall (segment_ok view) segs -> 0 <= cum <= s -> s < cum + Z.of_nat (length (file_data view segs)) ->
    cum + Z.of_nat (length (file_data view segs)) < 2 ^ 64 ->
    exists before seg after, segs = before ++ seg :: after /\
      find_segment segs s cum = Ok (seg :: after, cum + Z.of_nat (length (file_data view before))) /\
      cum + Z.of_nat (length (file_data view before)) <= s < cum + Z.of_nat (length (file_data view before)) + Z.of_nat (length (segment_data view seg)).
Proof.
  intros Hsegs. revert cum. induction Hsegs as [|seg segs Hseg _ IH]; intros cum Hc Hs Hf; [cbn in Hs; lia|].
  unfold file_data in *. cbn [fmap list_fmap concat] in *. rewrite length_app in *. cbn [find_segment].
  rewrite (proj2 Hseg), wrap64_small by (unfold is_u64; lia).
  destruct (Z.ltb_spec s (cum + Z.of_nat (length (segment_data view seg)))) as [Hlt|Hge].
  - exists [], seg, segs. rewrite (proj2 (Z.leb_le _ _)) by lia. cbn. rewrite Z.add_0_r. split_and!; [done|done|lia|lia].
  - destruct (IH (cum + Z.of_nat (length (segment_data view seg)))) as (before & seg' & after & -> & E & Hb); [lia..|].
    exists (seg :: before), seg', after. cbn [fmap list_fmap concat]. rewrite length_app. rewrite E.
    split_and!; [done|do 2 f_equal; lia|lia|lia].
Qed.

(** The terms of a request: with [A] before them and [B] after them in the file, they hold every
    byte from [s] to [e], and neither their first nor their last chunk could be left out. *)
Record covers (data : list byte) (s e offset : Z) (terms : list XorbReconstructionTerm.t) : Prop := {
    covers_terms : Forall (term_ok view) terms;
    covers_data : exists A B, data = A ++ terms_data view terms ++ B /\ Z.of_nat (length A) + offset = s /\
      (B = [] \/ e <= Z.of_nat (length A) + Z.of_nat (length (terms_data view terms))) /\
      ends_before (Z.of_nat (length A)) e terms;
    covers_first : exists t ts c cs, terms = t :: ts /\ term_chunks t = c :: cs /\ 0 <= offset < Z.of_nat (length c);
}.

Lemma file_size_ok fi :
    Forall (segment_ok view) (MDBFileInfo.segments fi) -> Z.of_nat (length (file_data view (MDBFileInfo.segments fi))) < 2 ^ 64 ->
    MDBFileInfo.file_size fi = Z.of_nat (length (file_data view (MDBFileInfo.segments fi))).
Proof.
  unfold MDBFileInfo.file_size. generalize (MDBFileInfo.segments fi). intros segs Hsegs.
  enough (forall a, 0 <= a -> a + Z.of_nat (length (file_data view segs)) < 2 ^ 64 ->
    fold_left (fun a fse => wrap64 (a + FileDataSequenceEntry.unpacked_segment_bytes fse)) segs a = a + Z.of_nat (length (file_data view segs))) as H.
  { intros Hf. rewrite H; lia. }
  induction Hsegs as [|seg segs Hseg _ IH]; intros a Ha Hf; [cbn; lia|].
  unfold file_data in *. cbn [fmap list_fmap concat fold_left] in *. rewrite length_app in *. rewrite (proj2 Hseg), wrap64_small by (unfold is_u64; lia).
  rewrite IH; lia.
Qed.

Lemma ranges_cover fi s e :
    let data := file_data view (MDBFileInfo.segments fi) in
    Forall (segment_ok view) (MDBFileInfo.segments fi) -> Z.of_nat (length data) < 2 ^ 64 -> 0 <= s < e -> s < Z.of_nat (length data) ->
    exists offset terms, covers data s e offset terms /\
      (file_range ← Ok (FileRange.new s e);
       '(segments, cumulative_bytes) ← find_segment (MDBFileInfo.segments fi) (FileRange.start file_range) 0;
       '(first_chunk_byte_start, terms, fetch_info_map) ← terms_loop get_xorb_footer file_range segments cumulative_bytes cumulative_bytes [] ∅;
       Ok (Some (wrap64 (FileRange.start file_range - first_chunk_byte_start), terms, merge_all fetch_info_map))) =
      Ok (Some (offset, terms, merge_all (add_infos view ∅ terms))).
Proof.
  cbn zeta. intros Hsegs Hf Hse Hs. rewrite result_bind_Ok. cbn [FileRange.start].
  destruct (find_segment_ok s (MDBFileInfo.segments fi) 0) as (before & seg & after & Esegs & E & Hb); [done|lia..|].
  rewrite E, result_bind_Ok. clear E. rewrite Z.add_0_l in *. rewrite Esegs in *. apply Forall_app in Hsegs as [_ Hsegs].
  apply Forall_cons in Hsegs as [Hseg Hafter]. unfold file_data in *. rewrite fmap_app, concat_app in *. cbn [fmap list_fmap concat] in *.
  rewrite !length_app in *. set (before_data := concat (segment_data view <$> before)) in *. set (cum := Z.of_nat (length before_data)) in *.
  cbn [terms_loop FileRange.end_]. rewrite (proj2 (Z.ltb_lt _ _)) by lia.
  destruct (segment_term_ok s e seg cum cum) as (t & A & B & E & Ht & Hd & _ & HA & HB & cs & c & Hcs & Hl); [done|lia..|].
  rewrite E, result_bind_Ok. clear E. destruct HA as [HA (c' & cs' & Hc' & HA')]; [lia|].
  assert (length (segment_data view seg) = length A + (length (term_data view t) + length B))%nat as Hlen by (rewrite Hd, !length_app; done).
  assert (length (term_data view t) = length c' + length (concat cs'))%nat as Hlt by (unfold term_data, range_data; rewrite Hc'; cbn; apply length_app).
  destruct (terms_loop_ok s e after (cum + Z.of_nat (length A) + Z.of_nat (length (term_data view t))) (cum + Z.of_nat (length A)) [t]
    (push_info ∅ (XorbReconstructionTerm.hash t) (info_of view t))) as (new & B' & E & Hnew & Hd' & HB' & Hl');
    [done|lia|lia|unfold file_data; lia|lia|].
  cbn [app]. rewrite E, result_bind_Ok. clear E. rewrite wrap64_small by (unfold is_u64; lia).
  exists (s - (cum + Z.of_nat (length A))), (t :: new). split; [|done]. split; [by constructor| |].
  2:{ exists t, new, c', cs'. split_and!; [done|done|lia..]. }
  assert (Z.of_nat (length (before_data ++ A)) = cum + Z.of_nat (length A)) as Hba by (rewrite length_app; lia).
  exists (before_data ++ A). unfold terms_data in *. cbn [fmap list_fmap concat]. rewrite Hba, length_app.
  destruct HB as [->|HB].
  - exists B'. unfold file_data in Hd'. rewrite Hd, Hd', app_nil_r, <- !app_assoc. split_and!; [done|lia|destruct HB'; [by left|right; lia]|].
    destruct Hl' as [->|Hl']; [|by apply ends_before_cons]. exists [], t, cs, c. split_and!; [done|done|cbn; lia].
  - destruct new as [|t' new].
    + exists (B ++ concat (segment_data view <$> after)). cbn. rewrite app_nil_r, Hd, <- !app_assoc. split_and!; [done|lia|right; lia|].
      exists [], t, cs, c. split_and!; [done|done|cbn; lia].
    + exfalso. destruct Hl' as [?|(ts & t2 & cs2 & c2 & _ & _ & Hl')]; [done|]. lia.
Qed.

End Terms.

(** ** The ranges to fetch *)

Definition contains (r c : ChunkRange.t) : Prop := ChunkRange.start r <= ChunkRange.start c /\ ChunkRange.end_ c <= ChunkRange.end_ r.
Definition in_range (i : Z) (r : ChunkRange.t) : Prop := ChunkRange.start r <= i < ChunkRange.end_ r.

(** Ranges in order, with a chunk between each and the next. *)
Definition separated (ranges : list MergedRange.t) : Prop := Sorted (fun r r' => chunk_end r < chunk_start r') ranges.

Section Merged.
  Context (view : xorb_view).

Definition merged_ok (h : DataHash) (r : MergedRange.t) : Prop :=
    range_ok view h (MergedRange.chunk_range r) /\ MergedRange.byte_range r = byte_range_of view h (MergedRange.chunk_range r).

(** The merged ranges [ranges] stand for the ranges [infos]. *)
Record merges (h : DataHash) (infos : list FetchInfoIntermediate) (ranges : list MergedRange.t) : Prop := {
    merges_ok : Forall (merged_ok h) ranges;
    merges_separated : separated ranges;
    merges_contain x : x ∈ infos -> exists r, r ∈ ranges /\ contains (MergedRange.chunk_range r) (MergedRange.chunk_range x);
    merges_needed r i : r ∈ ranges -> in_range i (MergedRange.chunk_range r) -> exists x, x ∈ infos /\ in_range i (MergedRange.chunk_range x);
}.

Lemma extend_ok h cur next : chunk_start next <= chunk_end cur -> start_le cur next -> merged_ok h cur -> merged_ok h next -> merged_ok h (extend_range cur next).
Proof.
  destruct cur as [[a b] br], next as [[a' b'] br']. unfold chunk_start, chunk_end, start_le, merged_ok, extend_range, chunk_start, chunk_end. cbn.
  intros H1 H2 [(datas & bss & Hv & Ha & Hb) ->] [(datas' & bss' & Hv' & Ha' & Hb') ->]. cbn in *. rewrite Hv in Hv'. injection Hv' as <- <-.
  split; [exists datas, bss; cbn; split_and!; [done|lia..]|]. unfold byte_range_of. rewrite Hv. cbn. f_equal.
  destruct (Z.max_spec b b') as [[? ->]|[? ->]].
  - pose proof (concat_length_le bss (Z.to_nat b) (Z.to_nat b') ltac:(lia)). lia.
  - pose proof (concat_length_le bss (Z.to_nat b') (Z.to_nat b) ltac:(lia)). lia.
Qed.

Lemma merge_from_ok h cur rest :
    StronglySorted start_le (cur :: rest) -> Forall (merged_ok h) (cur :: rest) ->
    merges h (cur :: rest) (merge_from cur rest) /\ exists r rs, merge_from cur rest = r :: rs /\ chunk_start r = chunk_start cur.
Proof.
  revert cur. induction rest as [|next rest IH]; intros cur Hs Hok; cbn [merge_from].
  { split; [|by exists cur, []]. split; [done|by repeat constructor| |].
    - intros x ->%list_elem_of_singleton. exists cur. split; [by left|]. split; lia.
    - intros r i ->%list_elem_of_singleton Hi. exists cur. split; [by left|done]. }
  apply StronglySorted_inv in Hs as [Hs Hcur]. apply Forall_cons in Hok as [Hok1 Hok]. pose proof Hok as Hok'. apply Forall_cons in Hok' as [Hok2 Hok3].
  pose proof Hcur as Hcur'. apply Forall_cons in Hcur' as [Hcn Hcur'].
  destruct (Z.leb_spec (chunk_start next) (chunk_end cur)) as [Hle|Hgt].
  - destruct (IH (extend_range cur next)) as [[H1 H2 H3 H4] Hh].
    + apply StronglySorted_inv in Hs as [Hs _]. constructor; [done|exact Hcur'].
    + constructor; [by apply extend_ok|done].
    + split; [|exact Hh]. split; [done|done| |].
      * intros x [->|[->|Hx]%elem_of_cons]%elem_of_cons.
        -- destruct (H3 (extend_range cur next)) as (r & Hr & Hc); [by left|]. exists r. split; [done|]. destruct Hc as [Hc1 Hc2]. cbn in *. split; unfold chunk_start, chunk_end in *; lia.
        -- destruct (H3 (extend_range cur next)) as (r & Hr & Hc); [by left|]. exists r. split; [done|]. destruct Hc as [Hc1 Hc2]. cbn in *. unfold start_le in Hcn. split; unfold chunk_start, chunk_end in *; lia.
        -- apply H3. by right.
      * intros r i Hr Hi. destruct (H4 r i Hr Hi) as (x & [->|Hx]%elem_of_cons & Hxi); [|exists x; split; [by do 2 right|done]].
        destruct (Z.lt_ge_cases i (chunk_end cur)) as [Hlt|Hge]; [exists cur|exists next]; (split; [set_solver|]);
          unfold in_range, extend_range, chunk_start, chunk_end in *; cbn in *; lia.
  - destruct (IH next Hs Hok) as [[H1 H2 H3 H4] (r & rs & Hm & Hr)]. split; [|by exists cur, (merge_from next rest)]. split.
    + by constructor.
    + constructor; [done|]. rewrite Hm. constructor. lia.
    + intros x [->|Hx]%elem_of_cons; [exists cur; split; [by left|split; lia]|]. destruct (H3 x Hx) as (r' & ? & ?). exists r'. split; [by right|done].
    + intros r' i [->|Hr']%elem_of_cons Hi; [exists cur; split; [by left|done]|]. destruct (H4 r' i Hr' Hi) as (x & ? & ?). exists x. split; [by right|done].
Qed.

Lemma merge_ranges_ok h infos : Forall (merged_ok h) infos -> merges h infos (merge_ranges infos).
Proof.
  intros Hok. unfold merge_ranges. pose proof (merge_sort_Permutation start_le infos) as Hp.
  assert (StronglySorted start_le (merge_sort start_le infos)) as Hs.
  { apply Sorted_StronglySorted; [intros a b c; unfold start_le; lia|]. apply Sorted_merge_sort. intros a b. unfold start_le. lia. }
  rewrite <- Hp in Hok. destruct (merge_sort start_le infos) as [|cur rest].
  - apply Permutation_nil_l in Hp. subst infos. split; [done|constructor| |]; intros ?; set_solver.
  - destruct (merge_from_ok h cur rest Hs Hok) as [[H1 H2 H3 H4] _]. split; [done|done| |].
    + intros x Hx. apply H3. by rewrite Hp.
    + intros r i Hr Hi. destruct (H4 r i Hr Hi) as (x & Hx & ?). exists x. rewrite Hp in Hx. done.
Qed.

Lemma add_infos_lookup m terms h :
    add_infos view m terms !! h =
      match m !! h, info_of view <$> filter (fun t => XorbReconstructionTerm.hash t = h) terms with
      | None, [] => None
      | o, l => Some (from_option id [] o ++ l)
      end.
Proof.
  revert m. induction terms as [|t terms IH]; intros m.
  { cbn. destruct (m !! h) as [l|]; [|done]. cbn. by rewrite app_nil_r. }
  change (add_infos view m (t :: terms)) with (add_infos view (push_info m (XorbReconstructionTerm.hash t) (info_of view t)) terms).
  rewrite IH, filter_cons. unfold push_info. destruct (decide (XorbReconstructionTerm.hash t = h)) as [->|Hne].
  - rewrite lookup_insert_eq. cbn. rewrite <- app_assoc. cbn. by destruct (m !! h).
  - by rewrite lookup_insert_ne.
Qed.

(** The ranges to fetch for the terms: each term is in a range of its xorb, and each chunk of a
    range is in a term. *)
Record fetches (terms : list XorbReconstructionTerm.t) (merged : gmap DataHash (list MergedRange.t)) : Prop := {
    fetches_xorb h : is_Some (merged !! h) <-> exists t, t ∈ terms /\ XorbReconstructionTerm.hash t = h;
    fetches_ok h ranges : merged !! h = Some ranges -> Forall (merged_ok h) ranges /\ separated ranges;
    fetches_contain t ranges : t ∈ terms -> merged !! XorbReconstructionTerm.hash t = Some ranges ->
      exists r, r ∈ ranges /\ contains (MergedRange.chunk_range r) (XorbReconstructionTerm.range t);
    fetches_needed h ranges r i : merged !! h = Some ranges -> r ∈ ranges -> in_range i (MergedRange.chunk_range r) ->
      exists t, t ∈ terms /\ XorbReconstructionTerm.hash t = h /\ in_range i (XorbReconstructionTerm.range t);
}.

Lemma term_info_ok t : term_ok view t -> merged_ok (XorbReconstructionTerm.hash t) (info_of view t).
Proof. intros [Hr _]. by split. Qed.

Lemma merge_all_lookup terms h ranges :
    Forall (term_ok view) terms -> merge_all (add_infos view ∅ terms) !! h = Some ranges ->
    merges h (info_of view <$> filter (fun t => XorbReconstructionTerm.hash t = h) terms) ranges.
Proof.
  intros Hok. unfold merge_all. rewrite lookup_fmap, add_infos_lookup, lookup_empty.
  destruct (info_of view <$> filter _ terms) as [|x l] eqn:El; [done|]. cbn. intros [= <-]. rewrite <- El. apply merge_ranges_ok.
  rewrite Forall_fmap. rewrite Forall_forall in *. intros t [<- Ht]%list_elem_of_filter. by apply term_info_ok, Hok.
Qed.

Lemma merge_all_fetches terms : Forall (term_ok view) terms -> fetches terms (merge_all (add_infos view ∅ terms)).
Proof.
  intros Hok. split.
  - intros h. unfold merge_all. rewrite lookup_fmap, add_infos_lookup, lookup_empty. split.
    + destruct (filter (fun t => XorbReconstructionTerm.hash t = h) terms) as [|t l] eqn:El; [intros [? H]; discriminate H|]. intros _.
      exists t. assert (t ∈ t :: l) as Ht by (by left). rewrite <- El in Ht. apply list_elem_of_filter in Ht as [? ?]. done.
    + intros (t & Ht & Hh). assert (t ∈ filter (fun t => XorbReconstructionTerm.hash t = h) terms) as Hf by (by apply list_elem_of_filter).
      destruct (filter _ terms); [set_solver|]. cbn. eauto.
  - intros h ranges Hm. destruct (merge_all_lookup _ _ _ Hok Hm). done.
  - intros t ranges Ht Hm. destruct (merge_all_lookup _ _ _ Hok Hm) as [_ _ H _].
    destruct (H (info_of view t)) as (r & Hr & Hc); [|by exists r]. apply list_elem_of_fmap. exists t. split; [done|]. by apply list_elem_of_filter.
  - intros h ranges r i Hm Hr Hi. destruct (merge_all_lookup _ _ _ Hok Hm) as [_ _ _ H].
    destruct (H r i Hr Hi) as (x & Hx & Hxi). apply list_elem_of_fmap in Hx as (t & -> & Ht). apply list_elem_of_filter in Ht as [? ?]. by exists t.
Qed.

End Merged.

(** ** The computation *)

Section Compute.
  Context (get_xorb_footer : DataHash -> result client_failure XorbObject.t) (view : xorb_view).
  Hypothesis footers : forall h datas bss, view h = Some (datas, bss) -> exists x, get_xorb_footer h = Ok x /\ describes x datas bss.
  Hypothesis wf : view_wf view.
  Context (fi : MDBFileInfo.t).
  Hypothesis segments_ok : Forall (segment_ok view) (MDBFileInfo.segments fi).

Let data := file_data view (MDBFileInfo.segments fi).
Let size := Z.of_nat (length data).
  Hypothesis size_fits : size < 2 ^ 64.

(** The bytes of the file that a request names. *)
Definition request_range (bytes_range : option FileRange.t) : FileRange.t :=
    match bytes_range with
    | Some range => FileRange.new (FileRange.start range) (Z.min (FileRange.end_ range) size)
    | None => FileRange.full
    end.

Lemma compute_ranges_ok bytes_range :
    (forall r, bytes_range = Some r -> 0 <= FileRange.start r < FileRange.end_ r /\ FileRange.start r < size) -> 0 < size ->
    exists offset terms merged, compute_reconstruction_ranges get_xorb_footer fi bytes_range = Ok (Some (offset, terms, merged)) /\
      covers view data (FileRange.start (request_range bytes_range)) (FileRange.end_ (request_range bytes_range)) offset terms /\ fetches view terms merged.
Proof.
  intros Hr Hpos. unfold compute_reconstruction_ranges.
  assert (requested_file_range (MDBFileInfo.file_size fi) bytes_range = inl (request_range bytes_range)) as ->.
  { rewrite (file_size_ok view) by done. fold data size. unfold requested_file_range, request_range. destruct bytes_range as [r|].
    - destruct (Hr r eq_refl). rewrite (proj2 (Z.leb_gt _ _)) by lia. done.
    - rewrite (proj2 (Z.eqb_neq _ _)) by lia. done. }
  assert (0 <= FileRange.start (request_range bytes_range) < FileRange.end_ (request_range bytes_range) /\ FileRange.start (request_range bytes_range) < size) as [H1 H2].
  { unfold request_range. destruct bytes_range as [r|]; [destruct (Hr r eq_refl)|]; cbn; lia. }
  destruct (request_range bytes_range) as [s e]. cbn [FileRange.start FileRange.end_] in *.
  destruct (ranges_cover get_xorb_footer view footers wf fi s e) as (offset & terms & Hc & E); [done..|].
  rewrite result_bind_Ok in E. cbn [FileRange.start] in E. exists offset, terms, (merge_all (add_infos view ∅ terms)).
  split_and!; [exact E|exact Hc|]. by apply merge_all_fetches, Hc.
Qed.

Lemma compute_beyond bytes_range r :
    bytes_range = Some r -> size <= FileRange.start r ->
    compute_reconstruction_ranges get_xorb_footer fi bytes_range =
      Ok (if (size =? 0) && (FileRange.start r =? 0) then Some (0, [], ∅) else None).
Proof.
  intros -> Hs. unfold compute_reconstruction_ranges, requested_file_range. rewrite (file_size_ok view) by done. fold data size.
  rewrite (proj2 (Z.leb_le _ _)) by done. by destruct (_ && _).
Qed.

(** C16: The answer to a reconstruction query covers exactly what is asked for.  For a range that starts
    inside the file, and whatever part of it lies beyond the end, the terms name chunks of the
    xorbs whose contents, in order, hold every byte of the range; the offset is the position of its
    first byte in the first term, and neither the first nor the last chunk could be left out.  The
    fetch ranges of each xorb are disjoint and not adjacent, give the bytes that hold their chunks,
    contain every term, and name no chunk that no term needs.  A range that starts at the end of
    the file or beyond is answered with nothing, or with no terms at the start of an empty file. *)
Theorem reconstruction_ranges_cover s e :
    0 <= s < e ->
    (s < size -> exists offset terms merged,
       compute_reconstruction_ranges get_xorb_footer fi (Some (FileRange.new s e)) = Ok (Some (offset, terms, merged)) /\
       covers view data s (Z.min e size) offset terms /\ fetches view terms merged) /\
    (size <= s -> compute_reconstruction_ranges get_xorb_footer fi (Some (FileRange.new s e)) =
       Ok (if (size =? 0) && (s =? 0) then Some (0, [], ∅) else None)).
Proof.
  intros Hse. split; intros Hs; [|by apply (compute_beyond (Some (FileRange.new s e)) (FileRange.new s e))].
  destruct (compute_ranges_ok (Some (FileRange.new s e))) as (offset & terms & merged & ? & ? & ?); [|lia|by exists offset, terms, merged].
  intros r [= <-]. cbn. lia.
Qed.

End Compute.
