(* ===== verification/FileTerms.v ===== *)
(** * File terms and xorb blocks

    Model of [xet_data/src/file_reconstruction/reconstruction_terms]: [retrieve_file_term_block] and
    [FileTerm] of [file_term.rs], [XorbBlock] of [xorb_block.rs] with the retrieval of its data and
    the size that can be inferred from the terms, and the refresh of retrieval URLs of
    [retrieval_urls.rs].

    The client is a class with the two calls that reconstruction makes, and the cache of chunks a
    function from a xorb and a range to what it holds.  The [OnceCell] of a block makes the first
    result of a retrieval the result of all, and is left out, as is the progress callback.  An
    acquisition identifier is a number that grows with every acquisition. *)

From Stdlib Require Import Sorted.
From coqutil Require Import Byte.
From stdpp Require Import base numbers gmap sorting list.
From S2P Require Import Prelude DataHash AggregatedHash FileStructs Chunking XorbStructs ChunkFormat RawXorb XorbInfo XorbObject CasTypes ReconstructionRanges.

#[local] Open Scope Z_scope.

(** The variants of [FileReconstructionError] that the modelled code returns, and a panic. *)
Inductive ReconstructionError (E : Type) :=
| ClientCall (e : E)
| CorruptedReconstruction
| InternalWriterError
| IoError
| RuntimeError
| ReconstructionPanic.
Arguments ClientCall {E} e.
Arguments CorruptedReconstruction {E}.
Arguments InternalWriterError {E}.
Arguments IoError {E}.
Arguments RuntimeError {E}.
Arguments ReconstructionPanic {E}.

(** ** The client *)

Class ReconstructionClient (E : Type) := {
  get_reconstruction : Z -> DataHash -> option FileRange.t -> result E (option QueryReconstructionResponseV2.t);
  get_file_term_data : Z -> list byte -> list HttpRange.t -> result E (list byte * list Z);
}.

(** [?] on a call of the client. *)
Definition try_client {E A} (x : result E A) : result (ReconstructionError E) A :=
  match x with Ok a => Ok a | Err e => Err (ClientCall e) end.

Definition term_index {E A} (l : list A) (i : nat) : result (ReconstructionError E) A := result_of_option ReconstructionPanic (l !! i).

(** ** Xorb blocks *)

Module XorbReference.

Record t := mk { term_chunks : ChunkRange.t; uncompressed_size : Z }.

Definition start_le (a b : t) : Prop := ChunkRange.start (term_chunks a) <= ChunkRange.start (term_chunks b).

#[global] Instance start_le_dec a b : Decision (start_le a b).
Proof. unfold start_le. apply _. Defined.

End XorbReference.

Module XorbBlockData.

Record t := mk { chunk_offsets : list (Z * Z); data : list byte }.

End XorbBlockData.

Module XorbBlock.

Record t := mk {
  xorb_hash : DataHash;
  chunk_ranges : list ChunkRange.t;
  xorb_block_index : nat;
  references : list XorbReference.t;
  uncompressed_size_if_known : option Z;
}.

Definition push_reference (r : XorbReference.t) (b : t) : t :=
  mk (xorb_hash b) (chunk_ranges b) (xorb_block_index b) (references b ++ [r]) (uncompressed_size_if_known b).

(** [xorb_ranges.windows(2)] *)
Fixpoint gap_bridges (xorb_ranges : list ChunkRange.t) : gmap Z Z :=
  match xorb_ranges with
  | a :: (b :: _) as rest =>
      let m := gap_bridges rest in
      if ChunkRange.end_ a <? ChunkRange.start b then
        match m !! ChunkRange.end_ a with
        | Some _ => m
        | None => <[ChunkRange.end_ a := ChunkRange.start b]> m
        end
      else m
  | _ => ∅
  end.

(** [entry(k).or_insert(v)] *)
Definition or_insert (k v : Z) (m : gmap Z Z) : gmap Z Z := match m !! k with Some _ => m | None => <[k := v]> m end.

(** [for term in terms] *)
Fixpoint reach (gaps reachable : gmap Z Z) (terms : list XorbReference.t) : gmap Z Z :=
  match terms with
  | [] => reachable
  | term :: terms' =>
      match reachable !! ChunkRange.start (XorbReference.term_chunks term) with
      | None => reach gaps reachable terms'
      | Some accumulated =>
          let new_end := ChunkRange.end_ (XorbReference.term_chunks term) in
          let new_size := accumulated + XorbReference.uncompressed_size term in
          let reachable := or_insert new_end new_size reachable in
          let reachable := match gaps !! new_end with Some target => or_insert target new_size reachable | None => reachable end in
          reach gaps reachable terms'
      end
  end.

Definition determine_size_if_possible (xorb_ranges : list ChunkRange.t) (terms : list XorbReference.t) : option Z :=
  match xorb_ranges, last xorb_ranges with
  | first :: _, Some final => reach (gap_bridges xorb_ranges) {[ChunkRange.start first := 0]} terms !! ChunkRange.end_ final
  | _, _ => Some 0
  end.

(** The references sorted by their start, and the size they give. *)
Definition settle (b : t) : t :=
  let references := merge_sort XorbReference.start_le (references b) in
  mk (xorb_hash b) (chunk_ranges b) (xorb_block_index b) references (determine_size_if_possible (chunk_ranges b) references).

Section Retrieve.
  Context {E : Type} `{RC : ReconstructionClient E}.

(** [for chunk_idx in range.start..range.end]; [n] chunks from [chunk_idx] on. *)
Fixpoint range_offsets (n : nat) (chunk_idx : Z) (byte_offsets : list Z) : result (ReconstructionError E) (list (Z * Z) * list Z) :=
    match n, byte_offsets with
    | O, _ => Ok ([], byte_offsets)
    | S _, [] => Err ReconstructionPanic
    | S n', o :: byte_offsets' => '(l, rest) ← range_offsets n' (chunk_idx + 1) byte_offsets'; Ok ((chunk_idx, o) :: l, rest)
    end.

(** [for range in chunk_ranges], on the byte offsets from [offset_idx] on. *)
Fixpoint build_chunk_offsets (chunk_ranges : list ChunkRange.t) (byte_offsets : list Z) : result (ReconstructionError E) (list (Z * Z)) :=
    match chunk_ranges with
    | [] => Ok []
    | range :: chunk_ranges' =>
        '(l, rest) ← range_offsets (Z.to_nat (ChunkRange.end_ range - ChunkRange.start range)) (ChunkRange.start range) byte_offsets;
        l' ← build_chunk_offsets chunk_ranges' rest;
        Ok (l ++ l')
    end.

(** What the cache holds for a range of a xorb: the offsets of its chunks and its data. *)
Definition ChunkCacheGet : Type := DataHash -> ChunkRange.t -> option (list Z * list byte).

Definition default_chunk_range : ChunkRange.t := ChunkRange.new 0 0.

(** On the URL and the ranges that the provider gives. *)
Definition retrieve_data (now : Z) (chunk_cache : option ChunkCacheGet) (b : t) (url : list byte) (http_ranges : list HttpRange.t) :
    result (ReconstructionError E) XorbBlockData.t :=
    let cached :=
      cache ← chunk_cache;
      cache (xorb_hash b) (from_option id default_chunk_range (head (chunk_ranges b))) in
    match cached with
    | Some (offsets, data) =>
        chunk_offsets ← build_chunk_offsets (chunk_ranges b) offsets;
        Ok (XorbBlockData.mk chunk_offsets data)
    | None =>
        '(data, chunk_byte_offsets) ← try_client (get_file_term_data now url http_ranges);
        chunk_offsets ← build_chunk_offsets (chunk_ranges b) chunk_byte_offsets;
        Ok (XorbBlockData.mk chunk_offsets data)
    end.

End Retrieve.

End XorbBlock.

(** ** File terms *)

Module FileTerm.

Record t := mk {
  byte_range : FileRange.t;
  xorb_chunk_range : ChunkRange.t;
  xorb_block_start_index : nat;
  offset_into_first_range : Z;
  xorb_block : XorbBlock.t;
}.

(** The bytes of the term in the data of its block. *)
Definition extract_bytes {E} (term : t) (d : XorbBlockData.t) : result (ReconstructionError E) (list byte) :=
  '(_, start_byte_offset) ← term_index (XorbBlockData.chunk_offsets d) (xorb_block_start_index term);
  let start_byte_offset := wrap64 (start_byte_offset + offset_into_first_range term) in
  let expected_size := wrap64 (FileRange.end_ (byte_range term) - FileRange.start (byte_range term)) in
  let end_byte_offset := wrap64 (start_byte_offset + expected_size) in
  if (start_byte_offset <=? end_byte_offset) && (end_byte_offset <=? Z.of_nat (length (XorbBlockData.data d)))
  then Ok ((XorbBlockData.data d) ⟦Z.to_nat start_byte_offset, Z.to_nat end_byte_offset⟧)
  else Err ReconstructionPanic.

End FileTerm.

Module FileTermEntry.

Record t := mk {
  byte_range : FileRange.t;
  xorb_chunk_range : ChunkRange.t;
  offset_into_first_range : Z;
  xorb_block_index : nat;
  xorb_block_start_index : nat;
}.

Definition shrink (n : Z) (e : t) : t :=
  mk (FileRange.new (FileRange.start (byte_range e)) (wrap64 (FileRange.end_ (byte_range e) - n))) (xorb_chunk_range e)
    (offset_into_first_range e) (xorb_block_index e) (xorb_block_start_index e).

End FileTermEntry.

(** The URL and the ranges of each block, with the identifier of their acquisition. *)
Module TermBlockRetrievalURLs.

Record t := mk {
  file_hash : DataHash;
  byte_range : FileRange.t;
  acquisition_id : Z;
  retrieval_urls : list (list byte * list HttpRange.t);
}.

End TermBlockRetrievalURLs.

(** A fetch entry or a range of it that a block is made of: its key, ranges, URL and HTTP ranges. *)
Record Candidate := mkCandidate {
  first_chunk_start : Z;
  cand_chunks : list ChunkRange.t;
  cand_url : list byte;
  cand_bytes : list HttpRange.t;
}.

Definition holds (term : XorbReconstructionTerm.t) (r : XorbRangeDescriptor.t) : bool :=
  (ChunkRange.start (XorbRangeDescriptor.chunks r) <=? ChunkRange.start (XorbReconstructionTerm.range term)) &&
  (ChunkRange.end_ (XorbReconstructionTerm.range term) <=? ChunkRange.end_ (XorbRangeDescriptor.chunks r)).

(** [for range in &fetch_entry.ranges] *)
Fixpoint find_range (term : XorbReconstructionTerm.t) (url : list byte) (ranges : list XorbRangeDescriptor.t) : option Candidate :=
  match ranges with
  | [] => None
  | r :: ranges' =>
      if holds term r then Some (mkCandidate (ChunkRange.start (XorbRangeDescriptor.chunks r)) [XorbRangeDescriptor.chunks r] url [XorbRangeDescriptor.bytes r])
      else find_range term url ranges'
  end.

(** [for fetch_entry in xorb_descriptor.iter()] *)
Fixpoint find_candidate (enable_multirange : bool) (term : XorbReconstructionTerm.t) (entries : list XorbMultiRangeFetch.t) : option Candidate :=
  match entries with
  | [] => None
  | fetch_entry :: entries' =>
      let ranges := XorbMultiRangeFetch.ranges fetch_entry in
      let url := XorbMultiRangeFetch.url fetch_entry in
      if enable_multirange then
        match ranges with
        | first :: _ =>
            if existsb (holds term) ranges
            then Some (mkCandidate (ChunkRange.start (XorbRangeDescriptor.chunks first)) (XorbRangeDescriptor.chunks <$> ranges) url (XorbRangeDescriptor.bytes <$> ranges))
            else find_candidate enable_multirange term entries'
        | [] => find_candidate enable_multirange term entries'
        end
      else
        match find_range term url ranges with
        | Some c => Some c
        | None => find_candidate enable_multirange term entries'
        end
  end.

(** The blocks and what finds them. *)
Record Blocks := mkBlocks {
  xorb_blocks : list XorbBlock.t;
  xorb_block_retrieval_urls : list (list byte * list HttpRange.t);
  xorb_index_lookup : gmap (DataHash * Z) nat;
}.

(** The index of the block of a candidate, which is added when its key is new. *)
Definition block_of (bs : Blocks) (xorb_hash : DataHash) (c : Candidate) : nat * Blocks :=
  match xorb_index_lookup bs !! (xorb_hash, first_chunk_start c) with
  | Some index => (index, bs)
  | None =>
      let new_index := length (xorb_blocks bs) in
      (new_index,
       mkBlocks (xorb_blocks bs ++ [XorbBlock.mk xorb_hash (cand_chunks c) new_index [] None])
         (xorb_block_retrieval_urls bs ++ [(cand_url c, cand_bytes c)])
         (<[(xorb_hash, first_chunk_start c) := new_index]> (xorb_index_lookup bs)))
  end.

(** [for range in chunk_ranges], from the flattened index [idx]. *)
Fixpoint find_start_index (chunk_start : Z) (chunk_ranges : list ChunkRange.t) (idx : nat) : option nat :=
  match chunk_ranges with
  | [] => None
  | range :: chunk_ranges' =>
      if (ChunkRange.start range <=? chunk_start) && (chunk_start <? ChunkRange.end_ range)
      then Some (idx + Z.to_nat (chunk_start - ChunkRange.start range))%nat
      else find_start_index chunk_start chunk_ranges' (idx + Z.to_nat (ChunkRange.end_ range - ChunkRange.start range))%nat
  end.

Section Terms.
  Context {E : Type} `{RC : ReconstructionClient E}.

(** One round of the first pass: the entry of a term, the blocks, and the offset in the file. *)
Definition term_entry (enable_multirange : bool) (r : QueryReconstructionResponseV2.t) (first : bool) (term : XorbReconstructionTerm.t)
    (bs : Blocks) (cur_file_byte_offset : Z) : result (ReconstructionError E) (FileTermEntry.t * Blocks * Z) :=
    let xorb_hash := XorbReconstructionTerm.hash term in
    xorb_descriptor ← result_of_option CorruptedReconstruction (QueryReconstructionResponseV2.xorbs r !! xorb_hash);
    candidate ← result_of_option CorruptedReconstruction (find_candidate enable_multirange term xorb_descriptor);
    let '(xorb_block_index, bs) := block_of bs xorb_hash candidate in
    let offset_into_first_range := if first then QueryReconstructionResponseV2.offset_into_first_range r else 0 in
    let term_byte_size := wrap64 (XorbReconstructionTerm.unpacked_length term - offset_into_first_range) in
    let reference := XorbReference.mk (XorbReconstructionTerm.range term) (XorbReconstructionTerm.unpacked_length term) in
    let blocks := alter (XorbBlock.push_reference reference) xorb_block_index (xorb_blocks bs) in
    let bs := mkBlocks blocks (xorb_block_retrieval_urls bs) (xorb_index_lookup bs) in
    block ← term_index blocks xorb_block_index;
    xorb_block_start_index ← result_of_option CorruptedReconstruction
      (find_start_index (ChunkRange.start (XorbReconstructionTerm.range term)) (XorbBlock.chunk_ranges block) 0);
    let end_ := wrap64 (cur_file_byte_offset + term_byte_size) in
    Ok (FileTermEntry.mk (FileRange.new cur_file_byte_offset end_) (XorbReconstructionTerm.range term) offset_into_first_range
          xorb_block_index xorb_block_start_index, bs, end_).

(** [for (local_term_index, term) in raw_reconstruction.terms.iter().enumerate()] *)
Fixpoint term_entries (enable_multirange : bool) (r : QueryReconstructionResponseV2.t) (first : bool) (terms : list XorbReconstructionTerm.t)
    (bs : Blocks) (cur_file_byte_offset : Z) : result (ReconstructionError E) (list FileTermEntry.t * Blocks * Z) :=
    match terms with
    | [] => Ok ([], bs, cur_file_byte_offset)
    | term :: terms' =>
        '(entry, bs, cur) ← term_entry enable_multirange r first term bs cur_file_byte_offset;
        '(entries, bs, cur) ← term_entries enable_multirange r false terms' bs cur;
        Ok (entry :: entries, bs, cur)
    end.

(** [if let Some(entry) = file_term_data.last_mut()] *)
Definition shrink_last (n : Z) (entries : list FileTermEntry.t) : list FileTermEntry.t :=
    alter (FileTermEntry.shrink n) (length entries - 1)%nat entries.

(** [xorb_blocks_arc[entry.xorb_block_index]] *)
Fixpoint build_terms (blocks : list XorbBlock.t) (entries : list FileTermEntry.t) : result (ReconstructionError E) (list FileTerm.t) :=
    match entries with
    | [] => Ok []
    | entry :: entries' =>
        block ← term_index blocks (FileTermEntry.xorb_block_index entry);
        rest ← build_terms blocks entries';
        Ok (FileTerm.mk (FileTermEntry.byte_range entry) (FileTermEntry.xorb_chunk_range entry) (FileTermEntry.xorb_block_start_index entry)
              (FileTermEntry.offset_into_first_range entry) block :: rest)
    end.

(** The range covered, the bytes to transfer, the terms, and the URLs they share. *)
Abbreviation TermBlock := (FileRange.t * Z * list FileTerm.t * TermBlockRetrievalURLs.t)%type.

Definition term_block (enable_multirange : bool) (acquisition_id : Z) (file_hash : DataHash) (query : FileRange.t)
    (r : QueryReconstructionResponseV2.t) : result (ReconstructionError E) TermBlock :=
    '(entries, bs, cur_file_byte_offset) ←
      term_entries enable_multirange r true (QueryReconstructionResponseV2.terms r) (mkBlocks [] [] ∅) (FileRange.start query);
    let blocks := XorbBlock.settle <$> xorb_blocks bs in
    let entries := if FileRange.end_ query <? cur_file_byte_offset
                   then shrink_last (wrap64 (cur_file_byte_offset - FileRange.end_ query)) entries else entries in
    let actual_range := FileRange.new (from_option (fun e => FileRange.start (FileTermEntry.byte_range e)) 0 (head entries))
                                      (from_option (fun e => FileRange.end_ (FileTermEntry.byte_range e)) 0 (last entries)) in
    let total_transfer_bytes := fold_left (fun a l => wrap64 (a + l)) (HttpRange.length <$> concat (snd <$> xorb_block_retrieval_urls bs)) 0 in
    let url_info := TermBlockRetrievalURLs.mk file_hash actual_range acquisition_id (xorb_block_retrieval_urls bs) in
    file_terms ← build_terms blocks entries;
    Ok (actual_range, total_transfer_bytes, file_terms, url_info).

Definition retrieve_file_term_block (enable_multirange : bool) (now acquisition_id : Z) (file_hash : DataHash) (query : FileRange.t) :
    result (ReconstructionError E) (option TermBlock) :=
    raw_reconstruction ← try_client (get_reconstruction now file_hash (Some query));
    match raw_reconstruction with
    | None => Ok None
    | Some r => block ← term_block enable_multirange acquisition_id file_hash query r; Ok (Some block)
    end.

(** *** The URLs of a block of terms *)

Definition get_retrieval_url (u : TermBlockRetrievalURLs.t) (xorb_block_index : nat) : result (ReconstructionError E) (Z * list byte * list HttpRange.t) :=
    '(url, ranges) ← term_index (TermBlockRetrievalURLs.retrieval_urls u) xorb_block_index;
    Ok (TermBlockRetrievalURLs.acquisition_id u, url, ranges).

(** [new_id] is the identifier of the acquisition that a refresh makes. *)
Definition refresh_retrieval_urls (enable_multirange : bool) (now new_id : Z) (u : TermBlockRetrievalURLs.t) (acquisition_id : Z) :
    result (ReconstructionError E) TermBlockRetrievalURLs.t :=
    if negb (TermBlockRetrievalURLs.acquisition_id u =? acquisition_id) then Ok u
    else
      block ← retrieve_file_term_block enable_multirange now new_id (TermBlockRetrievalURLs.file_hash u) (TermBlockRetrievalURLs.byte_range u);
      match block with
      | None => Err CorruptedReconstruction
      | Some (returned_range, _, file_terms, url_info) =>
          if decide (returned_range <> TermBlockRetrievalURLs.byte_range u) then Err CorruptedReconstruction
          else
            match file_terms with
            | [] => Err CorruptedReconstruction
            | _ => Ok (TermBlockRetrievalURLs.mk (TermBlockRetrievalURLs.file_hash u) (TermBlockRetrievalURLs.byte_range u)
                         (TermBlockRetrievalURLs.acquisition_id url_info) (TermBlockRetrievalURLs.retrieval_urls url_info))
            end
      end.

(** The data of a term: the URL of its block, the data of the block, and the bytes of the term. *)
Definition get_data (now : Z) (chunk_cache : option XorbBlock.ChunkCacheGet) (u : TermBlockRetrievalURLs.t) (term : FileTerm.t) :
    result (ReconstructionError E) (list byte) :=
    '(_, url, http_ranges) ← get_retrieval_url u (XorbBlock.xorb_block_index (FileTerm.xorb_block term));
    d ← XorbBlock.retrieve_data now chunk_cache (FileTerm.xorb_block term) url http_ranges;
    FileTerm.extract_bytes term d.

End Terms.

(** ** What a client promises *)

Definition before (r r' : ChunkRange.t) : Prop := ChunkRange.end_ r <= ChunkRange.start r'.

(** The chunks of a block of ranges. *)
Definition block_chunks (view : xorb_view) (h : DataHash) (ranges : list ChunkRange.t) : list (list byte) :=
  concat (chunks_in view h <$> ranges).

Definition offsets_ok (chunks : list (list byte)) (offsets : list Z) : Prop :=
  forall i, (i <= length chunks)%nat -> offsets !! i = Some (Z.of_nat (length (concat (take i chunks)))).

Definition block_data_ok (view : xorb_view) (h : DataHash) (ranges : list ChunkRange.t) (data : list byte) (offsets : list Z) : Prop :=
  data = concat (block_chunks view h ranges) /\ offsets_ok (block_chunks view h ranges) offsets.

(** The ranges that one request names: those of a fetch entry, or one of them. *)
Definition selection (entry : XorbMultiRangeFetch.t) (sel : list XorbRangeDescriptor.t) : Prop :=
  sel <> [] /\ (sel = XorbMultiRangeFetch.ranges entry \/ exists d, d ∈ XorbMultiRangeFetch.ranges entry /\ sel = [d]).

Definition all_ranges (entries : list XorbMultiRangeFetch.t) : list XorbRangeDescriptor.t := concat (XorbMultiRangeFetch.ranges <$> entries).

Section Contract.
  Context {E : Type} `{RC : ReconstructionClient E}.

(** A response that lets the bytes from [s] to [e] of the file be fetched: its terms cover them,
    every term lies in a range of its xorb, the ranges of a xorb are in order and disjoint, and what
    is fetched for them is the data of their chunks. *)
Record response_ok (view : xorb_view) (data : list byte) (s e : Z) (r : QueryReconstructionResponseV2.t) : Prop := {
    response_covers : covers view data s e (QueryReconstructionResponseV2.offset_into_first_range r) (QueryReconstructionResponseV2.terms r);
    response_holds t : t ∈ QueryReconstructionResponseV2.terms r ->
      exists entries d, QueryReconstructionResponseV2.xorbs r !! XorbReconstructionTerm.hash t = Some entries /\ d ∈ all_ranges entries /\
        contains (XorbRangeDescriptor.chunks d) (XorbReconstructionTerm.range t);
    response_ranges h entries : QueryReconstructionResponseV2.xorbs r !! h = Some entries ->
      StronglySorted before (XorbRangeDescriptor.chunks <$> all_ranges entries) /\
      Forall (fun d => range_ok view h (XorbRangeDescriptor.chunks d)) (all_ranges entries);
    response_data h entries entry sel now d o : QueryReconstructionResponseV2.xorbs r !! h = Some entries -> entry ∈ entries -> selection entry sel ->
      get_file_term_data now (XorbMultiRangeFetch.url entry) (XorbRangeDescriptor.bytes <$> sel) = Ok (d, o) ->
      block_data_ok view h (XorbRangeDescriptor.chunks <$> sel) d o;
}.

(** Every answer to a query for the file is right: there is none beyond the end of the file, and one
    with no terms at the start of an empty file. *)
Definition serves (view : xorb_view) (file_hash : DataHash) (data : list byte) : Prop :=
    forall now s e r, 0 <= s < e -> e < 2 ^ 64 -> get_reconstruction now file_hash (Some (FileRange.new s e)) = Ok r ->
      match r with
      | None => Z.of_nat (length data) <= s
      | Some r =>
          (s < Z.of_nat (length data) /\ response_ok view data s (Z.min e (Z.of_nat (length data))) r) \/
          (length data = 0%nat /\ s = 0 /\ QueryReconstructionResponseV2.terms r = [])
      end.

(** What the cache of chunks holds is the data of the range it is asked for. *)
Definition cache_ok (view : xorb_view) (chunk_cache : option XorbBlock.ChunkCacheGet) : Prop :=
    forall cache h range offsets data, chunk_cache = Some cache -> cache h range = Some (offsets, data) -> block_data_ok view h [range] data offsets.

End Contract.

(** ** Ranges in order *)

Lemma ordered_member {A} (R : A -> A -> Prop) (l : list A) x y :
  StronglySorted R l -> x ∈ l -> y ∈ l -> x = y \/ R x y \/ R y x.
Proof.
  induction 1 as [|z l Hs IH Hz]; [set_solver|]. rewrite Forall_forall in Hz.
  intros [->|Hx]%elem_of_cons [->|Hy]%elem_of_cons; auto.
Qed.

Lemma StronglySorted_app_2 {A} (R : A -> A -> Prop) l1 l2 : StronglySorted R (l1 ++ l2) -> StronglySorted R l2.
Proof. induction l1 as [|x l1 IH]; [done|]. cbn. intros [H _]%StronglySorted_inv. auto. Qed.

Lemma StronglySorted_app_1 {A} (R : A -> A -> Prop) l1 l2 : StronglySorted R (l1 ++ l2) -> StronglySorted R l1.
Proof.
  induction l1 as [|x l1 IH]; [constructor|]. cbn. intros [H Hx]%StronglySorted_inv. constructor; [auto|]. by apply Forall_app in Hx as [? _].
Qed.

Lemma StronglySorted_cross {A} (R : A -> A -> Prop) l1 l2 x y : StronglySorted R (l1 ++ l2) -> x ∈ l1 -> y ∈ l2 -> R x y.
Proof.
  induction l1 as [|z l1 IH]; [set_solver|]. cbn. intros [H Hz]%StronglySorted_inv [->|Hx]%elem_of_cons Hy; [|auto].
  rewrite Forall_forall in Hz. apply Hz. set_solver.
Qed.

Section Flat.
  Context (view : xorb_view) (h : DataHash).

Lemma range_chunks_length r : range_ok view h r -> length (chunks_in view h r) = Z.to_nat (ChunkRange.end_ r - ChunkRange.start r).
Proof.
  intros (datas & bss & Hv & H1 & H2). unfold chunks_in. rewrite Hv, slice_length; lia.
Qed.

(** The chunks of a range that is part of another. *)
Lemma chunks_sub r c :
    range_ok view h r -> contains r c -> ChunkRange.start c <= ChunkRange.end_ c ->
    exists pre post, chunks_in view h r = pre ++ chunks_in view h c ++ post /\ length pre = Z.to_nat (ChunkRange.start c - ChunkRange.start r).
Proof.
  intros (datas & bss & Hv & H1 & H2) [H3 H4] H5. unfold chunks_in. rewrite Hv.
  exists (datas ⟦Z.to_nat (ChunkRange.start r), Z.to_nat (ChunkRange.start c)⟧), (datas ⟦Z.to_nat (ChunkRange.end_ c), Z.to_nat (ChunkRange.end_ r)⟧).
  split; [|rewrite slice_length; lia]. rewrite <- (slice_split datas) by lia. apply slice_split. lia.
Qed.

(** The flattened index of a term is where its chunks are among the chunks of the block. *)
Lemma start_index_ok ranges r c idx :
    StronglySorted before ranges -> Forall (range_ok view h) ranges -> r ∈ ranges -> contains r c -> ChunkRange.start c < ChunkRange.end_ c ->
    exists pre post, find_start_index (ChunkRange.start c) ranges idx = Some (idx + length pre)%nat /\
      block_chunks view h ranges = pre ++ chunks_in view h c ++ post.
Proof.
  intros Hs Hok. revert idx. induction Hs as [|r0 ranges Hs IH Hr0]; intros idx Hr Hc Hlt; [set_solver|].
  apply Forall_cons in Hok as [Hok0 Hok]. unfold block_chunks. cbn [find_start_index fmap list_fmap concat].
  pose proof Hc as [Hc1 Hc2]. apply elem_of_cons in Hr as [->|Hr].
  - rewrite (proj2 (Z.leb_le _ _)), (proj2 (Z.ltb_lt _ _)) by lia. cbn [andb].
    destruct (chunks_sub r0 c) as (pre & post & E & Hl); [done|done|lia|]. exists pre, (post ++ concat (chunks_in view h <$> ranges)).
    rewrite E, Hl, <- !app_assoc. done.
  - rewrite Forall_forall in Hr0. specialize (Hr0 r Hr). unfold before in Hr0.
    rewrite (proj2 (Z.ltb_ge (ChunkRange.start c) _)), andb_false_r by lia.
    destruct (IH Hok (idx + Z.to_nat (ChunkRange.end_ r0 - ChunkRange.start r0))%nat Hr Hc Hlt) as (pre & post & E & E').
    exists (chunks_in view h r0 ++ pre), post. rewrite E, length_app, (range_chunks_length r0 Hok0). split; [f_equal; lia|].
    unfold block_chunks in E'. rewrite E', <- app_assoc. done.
Qed.

End Flat.

(** ** Candidates *)

(** A candidate is made of a selection of a fetch entry: all of its ranges, or one of them. *)
Definition is_candidate (enable_multirange : bool) (entries : list XorbMultiRangeFetch.t) (c : Candidate) : Prop :=
  exists entry d sel, entry ∈ entries /\
    (if enable_multirange then d :: sel = XorbMultiRangeFetch.ranges entry else d ∈ XorbMultiRangeFetch.ranges entry /\ sel = []) /\
    c = mkCandidate (ChunkRange.start (XorbRangeDescriptor.chunks d)) (XorbRangeDescriptor.chunks <$> d :: sel) (XorbMultiRangeFetch.url entry)
          (XorbRangeDescriptor.bytes <$> d :: sel).

Lemma elem_of_all_ranges d entries : d ∈ all_ranges entries <-> exists entry, entry ∈ entries /\ d ∈ XorbMultiRangeFetch.ranges entry.
Proof.
  unfold all_ranges. induction entries as [|e0 entries IH]; cbn [fmap list_fmap concat]; [set_solver|]. rewrite elem_of_app, IH. set_solver.
Qed.

Lemma holds_contains term d : holds term d = true <-> contains (XorbRangeDescriptor.chunks d) (XorbReconstructionTerm.range term).
Proof. unfold holds, contains. by rewrite andb_true_iff, !Z.leb_le. Qed.

Lemma find_range_ok term url ranges :
  match find_range term url ranges with
  | Some c => exists d, d ∈ ranges /\ contains (XorbRangeDescriptor.chunks d) (XorbReconstructionTerm.range term) /\
      c = mkCandidate (ChunkRange.start (XorbRangeDescriptor.chunks d)) [XorbRangeDescriptor.chunks d] url [XorbRangeDescriptor.bytes d]
  | None => forall d, d ∈ ranges -> ~ contains (XorbRangeDescriptor.chunks d) (XorbReconstructionTerm.range term)
  end.
Proof.
  induction ranges as [|r ranges IH]; cbn [find_range]; [set_solver|]. destruct (holds term r) eqn:Eh.
  - exists r. apply holds_contains in Eh. split_and!; [by left|done|done].
  - destruct (find_range term url ranges) as [c|].
    + destruct IH as (d & Hd & ?). exists d. split; [by right|done].
    + intros d [->|Hd]%elem_of_cons Hc; [apply holds_contains in Hc; congruence|by apply (IH d)].
Qed.

Lemma find_candidate_ok m term entries d :
  d ∈ all_ranges entries -> contains (XorbRangeDescriptor.chunks d) (XorbReconstructionTerm.range term) ->
  exists c, find_candidate m term entries = Some c /\ is_candidate m entries c /\
    exists r, r ∈ cand_chunks c /\ contains r (XorbReconstructionTerm.range term).
Proof.
  intros (entry & He & Hd)%elem_of_all_ranges Hc. induction entries as [|e0 entries IH]; [set_solver|]. cbn [find_candidate].
  assert (entry ∈ entries -> exists c, find_candidate m term entries = Some c /\ is_candidate m (e0 :: entries) c /\
    exists r, r ∈ cand_chunks c /\ contains r (XorbReconstructionTerm.range term)) as IH'.
  { intros He'. destruct (IH He') as (c & ? & (e1 & d1 & sel & ? & ? & ?) & ?). exists c. split_and!; [done| |done]. exists e1, d1, sel. split; [by right|done]. }
  destruct m.
  - destruct (XorbMultiRangeFetch.ranges e0) as [|d0 rest] eqn:Er.
    { apply elem_of_cons in He as [->|He]; [rewrite Er in Hd; set_solver|auto]. }
    destruct (existsb (holds term) (d0 :: rest)) eqn:Ex.
    + apply existsb_exists in Ex as (d1 & Hd1 & Hh). apply holds_contains in Hh. apply list_elem_of_In in Hd1.
      eexists. split; [reflexivity|]. split; [exists e0, d0, rest; split_and!; [by left|by rewrite Er|done]|].
      exists (XorbRangeDescriptor.chunks d1). cbn [cand_chunks]. split; [|done]. rewrite <- Er. rewrite <- Er in Hd1. apply list_elem_of_fmap. by exists d1.
    + apply elem_of_cons in He as [->|He]; [|auto]. exfalso. rewrite Er in Hd.
      assert (existsb (holds term) (d0 :: rest) = true); [|congruence]. apply existsb_exists. exists d. split; [by apply list_elem_of_In|by apply holds_contains].
  - pose proof (find_range_ok term (XorbMultiRangeFetch.url e0) (XorbMultiRangeFetch.ranges e0)) as Hf.
    destruct (find_range _ _ _) as [c|].
    + destruct Hf as (d1 & Hd1 & Hc1 & ->). eexists. split; [done|]. split; [exists e0, d1, []; split_and!; [by left|done|done|done]|].
      exists (XorbRangeDescriptor.chunks d1). cbn. split; [by left|done].
    + apply elem_of_cons in He as [->|He]; [|auto]. exfalso. by apply (Hf d).
Qed.

Section Keys.
  Context (view : xorb_view) (h : DataHash) (entries : list XorbMultiRangeFetch.t).
  Hypothesis sorted : StronglySorted before (XorbRangeDescriptor.chunks <$> all_ranges entries).
  Hypothesis ranges_ok : Forall (fun d => range_ok view h (XorbRangeDescriptor.chunks d)) (all_ranges entries).

Lemma entry_range_ok d : d ∈ all_ranges entries -> ChunkRange.start (XorbRangeDescriptor.chunks d) < ChunkRange.end_ (XorbRangeDescriptor.chunks d).
Proof. rewrite Forall_forall in ranges_ok. intros (? & ? & _ & H & _)%ranges_ok. lia. Qed.

(** The start of its first range determines the ranges of a candidate. *)
Lemma key_unique m c c' :
    is_candidate m entries c -> is_candidate m entries c' -> first_chunk_start c = first_chunk_start c' -> cand_chunks c = cand_chunks c'.
Proof.
  intros (e & d & sel & He & Hsel & ->) (e' & d' & sel' & He' & Hsel' & ->). cbn [first_chunk_start cand_chunks]. intros Hk.
  assert (d ∈ XorbMultiRangeFetch.ranges e) as Hd by (destruct m; [rewrite <- Hsel; by left|by destruct Hsel]).
  assert (d' ∈ XorbMultiRangeFetch.ranges e') as Hd' by (destruct m; [rewrite <- Hsel'; by left|by destruct Hsel']).
  assert (d ∈ all_ranges entries) as Ha by (apply elem_of_all_ranges; by exists e). assert (d' ∈ all_ranges entries) as Ha' by (apply elem_of_all_ranges; by exists e').
  pose proof (entry_range_ok _ Ha) as Hn. pose proof (entry_range_ok _ Ha') as Hn'. destruct m.
  - rewrite Hsel, Hsel'. enough (e = e') as -> by done. clear ranges_ok Ha Ha'. revert He He' sorted. unfold all_ranges.
    induction entries as [|e0 es IH]; [set_solver|]. cbn [fmap list_fmap concat]. rewrite fmap_app. intros He He' Hs.
    assert (forall x y dx dy, x = e0 -> y ∈ es -> dx ∈ XorbMultiRangeFetch.ranges x -> dy ∈ XorbMultiRangeFetch.ranges y ->
      before (XorbRangeDescriptor.chunks dx) (XorbRangeDescriptor.chunks dy)) as Hcross.
    { intros x y dx dy -> Hy Hdx Hdy. eapply StronglySorted_cross; [exact Hs|by apply list_elem_of_fmap; exists dx|].
      apply list_elem_of_fmap. exists dy. split; [done|]. apply elem_of_all_ranges. by exists y. }
    unfold before in Hcross. apply elem_of_cons in He as [->|He]; apply elem_of_cons in He' as [->|He']; [done| | |].
    + specialize (Hcross e0 e' d d' eq_refl He' Hd Hd'). lia.
    + specialize (Hcross e0 e d' d eq_refl He Hd' Hd). lia.
    + apply IH; [done|done|]. by eapply StronglySorted_app_2.
  - destruct Hsel as [_ ->], Hsel' as [_ ->]. cbn. f_equal.
    destruct (ordered_member _ _ (XorbRangeDescriptor.chunks d) (XorbRangeDescriptor.chunks d') sorted) as [?|[Hb|Hb]];
      [by apply list_elem_of_fmap; exists d|by apply list_elem_of_fmap; exists d'|done|unfold before in Hb; lia..].
Qed.

Lemma candidate_ranges m c :
    is_candidate m entries c -> StronglySorted before (cand_chunks c) /\ Forall (range_ok view h) (cand_chunks c).
Proof.
  intros (e & d & sel & He & Hsel & ->). cbn [cand_chunks]. destruct m.
  - rewrite Hsel. apply list_elem_of_split in He as (l1 & l2 & He). rewrite He in sorted, ranges_ok. unfold all_ranges in *.
    rewrite fmap_app, concat_app in *. cbn [fmap list_fmap concat] in *. rewrite !fmap_app in sorted. apply Forall_app in ranges_ok as [_ H2].
    apply Forall_app in H2 as [H2 _]. split; [|by apply Forall_fmap]. eapply StronglySorted_app_1, StronglySorted_app_2. exact sorted.
  - destruct Hsel as [Hd ->]. cbn. split; [by repeat constructor|]. repeat constructor. rewrite Forall_forall in ranges_ok. apply ranges_ok.
    apply elem_of_all_ranges. by exists e.
Qed.

Lemma candidate_selection m c :
    is_candidate m entries c -> exists entry sel, entry ∈ entries /\ selection entry sel /\ cand_chunks c = XorbRangeDescriptor.chunks <$> sel /\
      cand_url c = XorbMultiRangeFetch.url entry /\ cand_bytes c = XorbRangeDescriptor.bytes <$> sel.
Proof.
  intros (e & d & sel & He & Hsel & ->). exists e, (d :: sel). split_and!; [done| |done|done|done]. split; [done|].
  destruct m; [by left|]. destruct Hsel as [Hd ->]. right. by exists d.
Qed.
End Keys.

(** ** Offsets of a block *)

Section Offsets.
  Context {E : Type} (view : xorb_view) (h : DataHash).
  Hypothesis wf : view_wf view.

Lemma range_offsets_ok n i offsets :
    (n <= length offsets)%nat -> exists l, XorbBlock.range_offsets (E := E) n i offsets = Ok (l, drop n offsets) /\ l.*2 = take n offsets.
Proof.
  revert i offsets. induction n as [|n IH]; intros i offsets Hn; [exists []; by destruct offsets|].
  destruct offsets as [|o offsets]; cbn [length] in Hn; [lia|]. destruct (IH (i + 1) offsets) as (l & E1 & E2); [lia|].
  exists ((i, o) :: l). cbn. rewrite E1. cbn. by rewrite E2.
Qed.

Lemma build_chunk_offsets_ok ranges offsets :
    Forall (range_ok view h) ranges -> (length (block_chunks view h ranges) <= length offsets)%nat ->
    exists l, XorbBlock.build_chunk_offsets (E := E) ranges offsets = Ok l /\ l.*2 = take (length (block_chunks view h ranges)) offsets.
Proof.
  intros Hok. revert offsets. induction Hok as [|r ranges Hr _ IH]; intros offsets Hl; [exists []; done|].
  unfold block_chunks in *. cbn [fmap list_fmap concat] in *. rewrite length_app, (range_chunks_length view h r Hr) in *.
  cbn [XorbBlock.build_chunk_offsets].
  destruct (range_offsets_ok (Z.to_nat (ChunkRange.end_ r - ChunkRange.start r)) (ChunkRange.start r) offsets) as (l1 & E1 & E2); [lia|].
  rewrite E1, result_bind_Ok. destruct (IH (drop (Z.to_nat (ChunkRange.end_ r - ChunkRange.start r)) offsets)) as (l2 & E3 & E4); [rewrite length_drop; lia|].
  rewrite E3, result_bind_Ok. exists (l1 ++ l2). split; [done|]. rewrite fmap_app, E2, E4, take_take_drop. done.
Qed.

(** The data of ranges that are in order is no more than the data of the xorb. *)
Lemma block_size_le datas bss ranges lo :
    view h = Some (datas, bss) -> StronglySorted before ranges -> Forall (range_ok view h) ranges -> Forall (fun r => Z.of_nat lo <= ChunkRange.start r) ranges ->
    (length (concat (take lo datas)) + length (concat (block_chunks view h ranges)) <= length (concat datas))%nat.
Proof.
  intros Hv Hs. revert lo. induction Hs as [|r ranges Hs IH Hr]; intros lo Hok Hlo.
  { cbn. rewrite Nat.add_0_r. apply concat_take_all. }
  apply Forall_cons in Hok as [Hok0 Hok]. apply Forall_cons in Hlo as [Hlo0 _].
  pose proof Hok0 as (datas' & bss' & Hv' & H1 & H2). rewrite Hv in Hv'. injection Hv' as <- <-.
  specialize (IH (Z.to_nat (ChunkRange.end_ r)) Hok). unfold block_chunks in *. cbn [fmap list_fmap concat]. rewrite concat_app, length_app.
  assert (Forall (fun r' => Z.of_nat (Z.to_nat (ChunkRange.end_ r)) <= ChunkRange.start r') ranges) as Hb.
  { eapply Forall_impl; [exact Hr|]. intros r'. unfold before. lia. }
  specialize (IH Hb). unfold chunks_in at 1. rewrite Hv.
  assert (length (concat (take lo datas)) + length (concat (datas ⟦Z.to_nat (ChunkRange.start r), Z.to_nat (ChunkRange.end_ r)⟧)) <=
    length (concat (take (Z.to_nat (ChunkRange.end_ r)) datas)))%nat; [|lia].
  pose proof (concat_length_le datas lo (Z.to_nat (ChunkRange.start r)) ltac:(lia)).
  rewrite (concat_slice datas (Z.to_nat (ChunkRange.start r)) (Z.to_nat (ChunkRange.end_ r))), length_app by lia. lia.
Qed.

Lemma block_small ranges :
    StronglySorted before ranges -> Forall (range_ok view h) ranges -> Z.of_nat (length (concat (block_chunks view h ranges))) < 2 ^ 32.
Proof.
  intros Hs Hok. destruct ranges as [|r ranges]; [done|]. pose proof Hok as Hok'. apply Forall_cons in Hok' as [(datas & bss & Hv & _) _].
  pose proof (block_size_le datas bss (r :: ranges) 0 Hv Hs Hok) as Hle. destruct (wf _ _ _ Hv) as [_ Hsm].
  assert (Forall (fun r0 => Z.of_nat 0 <= ChunkRange.start r0) (r :: ranges)) as H0.
  { eapply Forall_impl; [exact Hok|]. intros r0 (? & ? & _ & ? & _). lia. }
  specialize (Hle H0). lia.
Qed.

(** The bytes that a term takes out of the data of its block. *)
Lemma extract_ok ranges data offsets term pre cs post :
    StronglySorted before ranges -> Forall (range_ok view h) ranges -> block_data_ok view h ranges data offsets ->
    block_chunks view h ranges = pre ++ cs ++ post -> length pre = FileTerm.xorb_block_start_index term -> cs <> [] ->
    let off := FileTerm.offset_into_first_range term in
    let len := FileRange.end_ (FileTerm.byte_range term) - FileRange.start (FileTerm.byte_range term) in
    0 <= off -> 0 <= len -> off + len <= Z.of_nat (length (concat cs)) ->
    exists l, XorbBlock.build_chunk_offsets (E := E) ranges offsets = Ok l /\
      FileTerm.extract_bytes (E := E) term (XorbBlockData.mk l data) = Ok ((concat cs) ⟦Z.to_nat off, Z.to_nat (off + len)⟧).
Proof.
  intros Hs Hok [-> Hoff] Hbc Hpre Hcs off len H0 Hl Hfit. pose proof (block_small ranges Hs Hok) as Hsm. rewrite Hbc in Hsm, Hoff.
  assert (length (block_chunks view h ranges) < length offsets)%nat as Hlen.
  { rewrite Hbc. specialize (Hoff (length (pre ++ cs ++ post)) (le_n _)). by apply lookup_lt_Some in Hoff. }
  destruct (build_chunk_offsets_ok ranges offsets Hok) as (l & El & El2); [lia|]. exists l. split; [done|].
  assert (l.*2 !! length pre = Some (Z.of_nat (length (concat pre)))) as Hk.
  { rewrite El2, lookup_take_lt by (rewrite Hbc, !length_app; destruct cs; [done|]; cbn [length]; lia).
    rewrite Hoff, take_app_length by (rewrite length_app; lia). done. }
  rewrite list_lookup_fmap in Hk. destruct (l !! length pre) as [[i o]|] eqn:Elk; [|done]. injection Hk as ->.
  rewrite !concat_app, !length_app in Hsm. unfold FileTerm.extract_bytes, term_index. cbn [XorbBlockData.chunk_offsets XorbBlockData.data].
  rewrite <- Hpre, Elk. cbn [result_of_option]. rewrite result_bind_Ok. fold len off. rewrite Hbc, !concat_app, !length_app.
  rewrite (wrap64_small len), (wrap64_small (_ + off)) by (unfold is_u64; lia). rewrite wrap64_small by (unfold is_u64; lia).
  rewrite !(proj2 (Z.leb_le _ _)) by lia. cbn [andb]. f_equal. unfold slice.
  replace (Z.to_nat (Z.of_nat (length (concat pre)) + off + len) - Z.to_nat (Z.of_nat (length (concat pre)) + off))%nat with (Z.to_nat (off + len) - Z.to_nat off)%nat by lia.
  replace (Z.to_nat (Z.of_nat (length (concat pre)) + off)) with (length (concat pre) + Z.to_nat off)%nat by lia.
  rewrite drop_app_add, drop_app_le by lia. apply take_app_le. rewrite length_drop. lia.
Qed.
End Offsets.

(** ** The size of a block *)

Section Size.
  Context (view : xorb_view) (h : DataHash).

(** The bytes of a range that lie before the chunk [pos]. *)
Definition bytes_before (pos : Z) (r : ChunkRange.t) : Z :=
    Z.of_nat (length (range_data view h (ChunkRange.new (ChunkRange.start r) (Z.min (ChunkRange.end_ r) pos)))).

Fixpoint size_before (ranges : list ChunkRange.t) (pos : Z) : Z :=
    match ranges with
    | [] => 0
    | r :: ranges' => bytes_before pos r + size_before ranges' pos
    end.

Lemma range_data_empty a b : b <= a -> range_data view h (ChunkRange.new a b) = [].
Proof.
  intros Hab. unfold range_data, chunks_in. cbn. destruct (view h) as [[datas bss]|]; [|done]. unfold slice.
  replace (Z.to_nat b - Z.to_nat a)%nat with 0%nat by lia. by rewrite take_0.
Qed.

Lemma bytes_before_start r pos : pos <= ChunkRange.start r -> bytes_before pos r = 0.
Proof. intros Hp. unfold bytes_before. rewrite range_data_empty by lia. done. Qed.

Lemma bytes_before_end r pos : ChunkRange.end_ r <= pos -> bytes_before pos r = Z.of_nat (length (range_data view h r)).
Proof. intros Hp. unfold bytes_before. rewrite Z.min_l by done. by destruct r. Qed.

Lemma bytes_before_inside r a b :
    range_ok view h r -> ChunkRange.start r <= a <= b -> b <= ChunkRange.end_ r ->
    bytes_before b r = bytes_before a r + Z.of_nat (length (range_data view h (ChunkRange.new a b))).
Proof.
  intros (datas & bss & Hv & H1 & H2) Hab Hb. unfold bytes_before, range_data, chunks_in. cbn. rewrite Hv, !Z.min_r by lia.
  rewrite (slice_split datas (Z.to_nat (ChunkRange.start r)) (Z.to_nat a) (Z.to_nat b)), concat_app, length_app by lia. lia.
Qed.

(** Chunks between ranges do not count. *)
Lemma size_before_gap ranges a b :
    Forall (fun r => ChunkRange.end_ r <= a \/ b <= ChunkRange.start r) ranges -> a <= b -> size_before ranges a = size_before ranges b.
Proof.
  intros Hr Hab. induction Hr as [|r ranges [Hr|Hr] _ IH]; cbn; [done| |]; rewrite IH.
  - rewrite !bytes_before_end by lia. done.
  - rewrite !bytes_before_start by lia. done.
Qed.

Lemma size_before_step ranges r a b :
    StronglySorted before ranges -> Forall (range_ok view h) ranges -> r ∈ ranges -> ChunkRange.start r <= a <= b -> b <= ChunkRange.end_ r ->
    size_before ranges b = size_before ranges a + Z.of_nat (length (range_data view h (ChunkRange.new a b))).
Proof.
  intros Hs Hok Hr Hab Hb. induction Hs as [|r0 ranges Hs IH Hr0]; [set_solver|]. apply Forall_cons in Hok as [Hok0 Hok]. cbn.
  apply elem_of_cons in Hr as [->|Hr].
  - rewrite (bytes_before_inside r0 a b) by done. rewrite (size_before_gap ranges a b); [lia| |lia].
    eapply Forall_impl; [exact Hr0|]. intros r'. unfold before. lia.
  - rewrite (IH Hok Hr). rewrite Forall_forall in Hr0. specialize (Hr0 r Hr). unfold before in Hr0. rewrite !bytes_before_end by lia. lia.
Qed.

Lemma size_before_all ranges pos :
    Forall (fun r => ChunkRange.end_ r <= pos) ranges -> size_before ranges pos = Z.of_nat (length (concat (block_chunks view h ranges))).
Proof.
  unfold block_chunks. induction 1 as [|r ranges Hr _ IH]; [done|]. cbn. rewrite IH, bytes_before_end, concat_app, length_app by done. unfold range_data. lia.
Qed.

Lemma gap_bridges_ok ranges a b :
    StronglySorted before ranges -> Forall (range_ok view h) ranges -> XorbBlock.gap_bridges ranges !! a = Some b ->
    (exists r0, r0 ∈ ranges /\ a = ChunkRange.end_ r0) /\ a <= b /\ Forall (fun r => ChunkRange.end_ r <= a \/ b <= ChunkRange.start r) ranges.
Proof.
  intros Hs. induction Hs as [|r ranges Hs IH Hr]; intros Hok Hg; [cbn in Hg; by rewrite lookup_empty in Hg|].
  pose proof Hok as Hok'. apply Forall_cons in Hok' as [_ Hokt]. destruct ranges as [|r' ranges]; [cbn in Hg; by rewrite lookup_empty in Hg|].
  assert (XorbBlock.gap_bridges (r' :: ranges) !! a = Some b ->
    (exists r0, r0 ∈ r :: r' :: ranges /\ a = ChunkRange.end_ r0) /\ a <= b /\ Forall (fun r => ChunkRange.end_ r <= a \/ b <= ChunkRange.start r) (r :: r' :: ranges)) as Htail.
  { intros Ht. destruct (IH Hokt Ht) as ((r0 & Hr0 & ->) & Hab & Hall). split; [exists r0; split; [by right|done]|]. split; [done|].
    constructor; [|done]. left. rewrite Forall_forall in Hr, Hokt. specialize (Hr r0 Hr0). destruct (Hokt r0 Hr0) as (? & ? & _ & ? & _). unfold before in Hr. lia. }
  change (XorbBlock.gap_bridges (r :: r' :: ranges)) with
    (if ChunkRange.end_ r <? ChunkRange.start r' then
       match XorbBlock.gap_bridges (r' :: ranges) !! ChunkRange.end_ r with
       | Some _ => XorbBlock.gap_bridges (r' :: ranges)
       | None => <[ChunkRange.end_ r := ChunkRange.start r']> (XorbBlock.gap_bridges (r' :: ranges))
       end
     else XorbBlock.gap_bridges (r' :: ranges)) in Hg.
  destruct (Z.ltb_spec (ChunkRange.end_ r) (ChunkRange.start r')) as [Hlt|]; [|by apply Htail].
  destruct (XorbBlock.gap_bridges (r' :: ranges) !! ChunkRange.end_ r); [by apply Htail|].
  apply lookup_insert_Some in Hg as [[<- <-]|[_ Hg]]; [|by apply Htail].
  split; [exists r; split; [by left|done]|]. split; [lia|]. constructor; [by left|]. constructor; [right; lia|].
  apply StronglySorted_inv in Hs as [_ Hs]. apply Forall_cons in Hokt as [(? & ? & _ & ? & _) _]. eapply Forall_impl; [exact Hs|].
  intros r0. unfold before. right. lia.
Qed.

Definition reachable_ok (ranges : list ChunkRange.t) (reachable : gmap Z Z) : Prop :=
    forall pos v, reachable !! pos = Some v -> v = size_before ranges pos.

Lemma or_insert_ok ranges k v reachable :
    reachable_ok ranges reachable -> v = size_before ranges k -> reachable_ok ranges (XorbBlock.or_insert k v reachable).
Proof.
  intros Hr Hv pos x. unfold XorbBlock.or_insert. destruct (reachable !! k); [apply Hr|].
  intros [[<- <-]|[_ Hx]]%lookup_insert_Some; [done|by apply Hr].
Qed.

(** References to chunks of a range, with the size of their data. *)
Definition sized_reference (ranges : list ChunkRange.t) (ref : XorbReference.t) : Prop :=
    ChunkRange.start (XorbReference.term_chunks ref) < ChunkRange.end_ (XorbReference.term_chunks ref) /\
    (exists r, r ∈ ranges /\ contains r (XorbReference.term_chunks ref)) /\
    XorbReference.uncompressed_size ref = Z.of_nat (length (range_data view h (XorbReference.term_chunks ref))).

Lemma reach_ok ranges reachable refs :
    StronglySorted before ranges -> Forall (range_ok view h) ranges -> Forall (sized_reference ranges) refs -> reachable_ok ranges reachable ->
    reachable_ok ranges (XorbBlock.reach (XorbBlock.gap_bridges ranges) reachable refs).
Proof.
  intros Hs Hok Hrefs. revert reachable. induction Hrefs as [|ref refs (Hne & (r & Hr & Hc) & Hsize) _ IH]; intros reachable Hreach; [done|].
  destruct Hc as [Hc1 Hc2]. cbn [XorbBlock.reach]. destruct (reachable !! _) as [acc|] eqn:Ea; [|by apply IH]. apply Hreach in Ea.
  assert (acc + XorbReference.uncompressed_size ref = size_before ranges (ChunkRange.end_ (XorbReference.term_chunks ref))) as Hnew.
  { rewrite (size_before_step ranges r (ChunkRange.start (XorbReference.term_chunks ref))), Ea, Hsize by (done || lia). by destruct (XorbReference.term_chunks ref). }
  apply IH. destruct (XorbBlock.gap_bridges ranges !! _) as [target|] eqn:Eg; [|by apply or_insert_ok].
  destruct (gap_bridges_ok _ _ _ Hs Hok Eg) as (_ & Hab & Hgap). apply or_insert_ok; [by apply or_insert_ok|]. rewrite Hnew. by apply size_before_gap.
Qed.

(** The size that is found, when one is found, is the size of the data of the block. *)
Lemma determine_size_ok ranges refs n :
    StronglySorted before ranges -> Forall (range_ok view h) ranges -> Forall (sized_reference ranges) refs ->
    XorbBlock.determine_size_if_possible ranges refs = Some n -> n = Z.of_nat (length (concat (block_chunks view h ranges))).
Proof.
  intros Hs Hok Hrefs. unfold XorbBlock.determine_size_if_possible. destruct ranges as [|r0 ranges]; [by intros [= <-]|].
  destruct (last (r0 :: ranges)) as [rl|] eqn:El; [|by apply last_None in El]. intros Hn.
  assert (reachable_ok (r0 :: ranges) {[ChunkRange.start r0 := 0]}) as H0.
  { intros pos v [<- <-]%lookup_singleton_Some. symmetry. assert (ChunkRange.start r0 < ChunkRange.end_ r0) as H0.
    { apply Forall_cons in Hok as [(? & ? & _ & ? & _) _]. lia. }
    clear -Hs H0. apply StronglySorted_inv in Hs as [_ Hr0]. cbn. rewrite bytes_before_start by lia.
    rewrite Z.add_0_l. induction Hr0 as [|r ranges Hr _ IH]; [done|]. cbn. unfold before in Hr. rewrite IH, bytes_before_start by lia. done. }
  apply (reach_ok _ _ _ Hs Hok Hrefs H0) in Hn as ->. apply size_before_all.
  apply last_Some in El as [l' El]. rewrite El in *. apply Forall_app. split; [|by repeat constructor].
  rewrite Forall_forall. intros r Hr. pose proof (StronglySorted_cross _ _ _ r rl Hs Hr ltac:(by left)) as Hb. unfold before in Hb.
  apply Forall_app in Hok as [_ Hok]. apply Forall_cons in Hok as [(? & ? & _ & ? & _) _]. lia.
Qed.

End Size.

(** ** The blocks of a response *)

Section Response.
  Context {E : Type} `{RC : ReconstructionClient E} (view : xorb_view) (data : list byte) (s e : Z)
    (r : QueryReconstructionResponseV2.t) (m : bool).
  Hypothesis wf : view_wf view.
  Hypothesis resp : response_ok view data s e r.

Definition shape (b : XorbBlock.t) : DataHash * list ChunkRange.t := (XorbBlock.xorb_hash b, XorbBlock.chunk_ranges b).

Definition reference_ok (b : XorbBlock.t) : XorbReference.t -> Prop := sized_reference view (XorbBlock.xorb_hash b) (XorbBlock.chunk_ranges b).

(** A block is made of a candidate, whose URL and ranges are at its index. *)
Definition block_ok (urls : list (list byte * list HttpRange.t)) (i : nat) (b : XorbBlock.t) : Prop :=
    XorbBlock.xorb_block_index b = i /\ Forall (reference_ok b) (XorbBlock.references b) /\
    exists entries c, QueryReconstructionResponseV2.xorbs r !! XorbBlock.xorb_hash b = Some entries /\ is_candidate m entries c /\
      XorbBlock.chunk_ranges b = cand_chunks c /\ urls !! i = Some (cand_url c, cand_bytes c).

Record blocks_inv (bs : Blocks) : Prop := {
    inv_length : length (xorb_block_retrieval_urls bs) = length (xorb_blocks bs);
    inv_block i b : xorb_blocks bs !! i = Some b -> block_ok (xorb_block_retrieval_urls bs) i b;
    inv_lookup h k i : xorb_index_lookup bs !! (h, k) = Some i ->
      exists b entries c, xorb_blocks bs !! i = Some b /\ XorbBlock.xorb_hash b = h /\ QueryReconstructionResponseV2.xorbs r !! h = Some entries /\
        is_candidate m entries c /\ XorbBlock.chunk_ranges b = cand_chunks c /\ first_chunk_start c = k;
}.

Lemma empty_blocks_inv : blocks_inv (mkBlocks [] [] ∅).
Proof. split; [done|done|]. intros h k i. cbn. by rewrite lookup_empty. Qed.

Lemma block_of_ok bs h entries c :
    blocks_inv bs -> QueryReconstructionResponseV2.xorbs r !! h = Some entries -> is_candidate m entries c ->
    exists i bs', block_of bs h c = (i, bs') /\ blocks_inv bs' /\ (shape <$> xorb_blocks bs) `prefix_of` (shape <$> xorb_blocks bs') /\
      shape <$> xorb_blocks bs' !! i = Some (h, cand_chunks c).
Proof.
  intros [Hlen Hblock Hlook] Hx Hc. unfold block_of. destruct (xorb_index_lookup bs !! (h, first_chunk_start c)) as [i|] eqn:El.
  - exists i, bs. split_and!; [done|done|done|]. destruct (Hlook _ _ _ El) as (b & entries' & c' & Hb & Hh & Hx' & Hc' & Hr & Hk).
    rewrite Hx in Hx'. injection Hx' as <-. rewrite Hb. cbn. unfold shape. rewrite Hh, Hr. do 2 f_equal.
    destruct (response_ranges _ _ _ _ _ resp _ _ Hx) as [Hs Hok]. by eapply key_unique.
  - set (b := XorbBlock.mk h (cand_chunks c) (length (xorb_blocks bs)) [] None).
    exists (length (xorb_blocks bs)). eexists. split; [reflexivity|]. split; [split|split].
    + cbn. rewrite !length_app. cbn. lia.
    + cbn. intros i b' [Hb|[Hi Hb]]%lookup_app_Some.
      * destruct (Hblock _ _ Hb) as (H1 & H2 & entries' & c' & H3 & H4 & H5 & H6). split_and!; [done|done|].
        exists entries', c'. split_and!; [done|done|done|]. by apply lookup_app_l_Some.
      * rewrite list_lookup_singleton in Hb. destruct (i - length (xorb_blocks bs))%nat eqn:Ei; [|done]. injection Hb as <-.
        split_and!; [cbn; lia|done|]. exists entries, c. split_and!; [done|done|done|].
        rewrite lookup_app_r, Hlen by (rewrite Hlen; lia). by rewrite Ei.
    + cbn. intros h' k' i'. destruct (decide ((h, first_chunk_start c) = (h', k'))) as [Heq|Hne].
      * rewrite Heq, lookup_insert_eq. intros [= <-]. injection Heq as <- <-. exists b, entries, c. split_and!; try done.
        by rewrite lookup_app_r, Nat.sub_diag by lia.
      * rewrite lookup_insert_ne by done. intros Hl. destruct (Hlook _ _ _ Hl) as (b' & entries' & c' & Hb & ?). exists b', entries', c'.
        split; [by apply lookup_app_l_Some|done].
    + cbn. rewrite fmap_app. by apply prefix_app_r.
    + cbn. by rewrite lookup_app_r, Nat.sub_diag by lia.
Qed.

Lemma alter_shape f (i : nat) (l : list XorbBlock.t) : (forall b, shape (f b) = shape b) -> shape <$> alter f i l = shape <$> l.
Proof.
  intros Hf. apply list_eq. intros j. rewrite !list_lookup_fmap. destruct (decide (i = j)) as [->|Hne].
  - rewrite list_lookup_alter_eq. destruct (l !! j); [|done]. cbn. by rewrite Hf.
  - by rewrite list_lookup_alter_ne.
Qed.

Lemma push_reference_inv bs i b ref :
    blocks_inv bs -> xorb_blocks bs !! i = Some b -> reference_ok b ref ->
    blocks_inv (mkBlocks (alter (XorbBlock.push_reference ref) i (xorb_blocks bs)) (xorb_block_retrieval_urls bs) (xorb_index_lookup bs)).
Proof.
  intros [Hlen Hblock Hlook] Hb Href. split; cbn.
  - by rewrite length_alter.
  - intros j b'. destruct (decide (i = j)) as [<-|Hne].
    + rewrite list_lookup_alter_eq, Hb. cbn. intros [= <-]. destruct (Hblock _ _ Hb) as (H1 & H2 & H3). split_and!; [done| |done].
      cbn. apply Forall_app. split; [exact H2|]. constructor; [exact Href|constructor].
    + rewrite list_lookup_alter_ne by done. apply Hblock.
  - intros h k j Hl. destruct (Hlook _ _ _ Hl) as (b' & entries & c & Hb' & ?). destruct (decide (i = j)) as [<-|Hne].
    + exists (XorbBlock.push_reference ref b'), entries, c. split; [by rewrite list_lookup_alter_eq, Hb'|done].
    + exists b', entries, c. split; [by rewrite list_lookup_alter_ne|done].
Qed.

(** An entry whose bytes are those of the file, found in a block of the shape at its index. *)
Definition entry_good (shapes : list (DataHash * list ChunkRange.t)) (en : FileTermEntry.t) : Prop :=
    exists h ranges pre post A B,
      let cs := chunks_in view h (FileTermEntry.xorb_chunk_range en) in
      shapes !! FileTermEntry.xorb_block_index en = Some (h, ranges) /\
      block_chunks view h ranges = pre ++ cs ++ post /\ length pre = FileTermEntry.xorb_block_start_index en /\
      data = A ++ concat cs ++ B /\ 0 <= FileTermEntry.offset_into_first_range en /\
      Z.of_nat (length A) + FileTermEntry.offset_into_first_range en = FileRange.start (FileTermEntry.byte_range en) /\
      FileRange.start (FileTermEntry.byte_range en) < FileRange.end_ (FileTermEntry.byte_range en) <= Z.of_nat (length A) + Z.of_nat (length (concat cs)).

Lemma entry_good_prefix l l' en : l `prefix_of` l' -> entry_good l en -> entry_good l' en.
Proof.
  intros Hp (h & ranges & pre & post & A & B & H1 & H2). exists h, ranges, pre, post, A, B. split; [by eapply prefix_lookup_Some|done].
Qed.

Lemma term_data_pos t : term_ok view t -> (0 < length (term_data view t))%nat.
Proof.
  intros [(datas & bss & Hv & H1 & H2) _]. unfold term_data, range_data, chunks_in. rewrite Hv. apply slice_not_nil; [by eapply wf|lia].
Qed.

Lemma term_entry_ok (first : bool) t bs cur A B :
    t ∈ QueryReconstructionResponseV2.terms r -> term_ok view t -> blocks_inv bs -> data = A ++ term_data view t ++ B -> Z.of_nat (length data) < 2 ^ 64 ->
    let off := if first then QueryReconstructionResponseV2.offset_into_first_range r else 0 in
    0 <= off < Z.of_nat (length (term_data view t)) -> Z.of_nat (length A) + off = cur ->
    exists en bs', term_entry (E := E) m r first t bs cur = Ok (en, bs', Z.of_nat (length A) + Z.of_nat (length (term_data view t))) /\
      blocks_inv bs' /\ (shape <$> xorb_blocks bs) `prefix_of` (shape <$> xorb_blocks bs') /\ entry_good (shape <$> xorb_blocks bs') en /\
      FileTermEntry.byte_range en = FileRange.new cur (Z.of_nat (length A) + Z.of_nat (length (term_data view t))).
Proof.
  intros Ht Hok Hinv Hd Hsz off Hoff Hcur. assert (length data = length A + (length (term_data view t) + length B))%nat as Hlen by (rewrite Hd, !length_app; done).
  unfold term_entry. destruct (response_holds _ _ _ _ _ resp _ Ht) as (entries & d & Hx & Hd' & Hc). rewrite Hx. cbn [result_of_option]. rewrite result_bind_Ok.
  destruct (find_candidate_ok m t entries d Hd' Hc) as (c & Ec & Hcand & range & Hr & Hrc). rewrite Ec. cbn [result_of_option]. rewrite result_bind_Ok.
  destruct (block_of_ok bs _ entries c Hinv Hx Hcand) as (i & bs1 & Eb & Hinv1 & Hp & Hsh). rewrite Eb. cbn zeta. fold off.
  destruct (xorb_blocks bs1 !! i) as [b|] eqn:Ebi; [|done]. injection Hsh as Hbh Hbr.
  set (ref := XorbReference.mk (XorbReconstructionTerm.range t) (XorbReconstructionTerm.unpacked_length t)).
  assert (ChunkRange.start (XorbReconstructionTerm.range t) < ChunkRange.end_ (XorbReconstructionTerm.range t)) as Hne.
  { destruct Hok as [(? & ? & _ & ? & _) _]. lia. }
  assert (reference_ok b ref) as Href.
  { split_and!; [done|exists range; by rewrite Hbr|]. cbn. rewrite Hbh. apply Hok. }
  pose proof (push_reference_inv bs1 i b ref Hinv1 Ebi Href) as Hinv2.
  unfold term_index at 1. rewrite list_lookup_alter_eq, Ebi. cbn [fmap option_fmap option_map result_of_option]. rewrite result_bind_Ok.
  change (XorbBlock.chunk_ranges (XorbBlock.push_reference ref b)) with (XorbBlock.chunk_ranges b). rewrite Hbr.
  destruct (response_ranges _ _ _ _ _ resp _ _ Hx) as [Hs Hrs].
  destruct (candidate_ranges view (XorbReconstructionTerm.hash t) entries Hs Hrs m c Hcand) as [Hcs Hcr].
  destruct (start_index_ok view (XorbReconstructionTerm.hash t) (cand_chunks c) range (XorbReconstructionTerm.range t) 0) as (pre & post & Ei & Eb2); [done..|].
  rewrite Ei. cbn [result_of_option]. rewrite result_bind_Ok. rewrite (proj2 Hok).
  rewrite (wrap64_small (_ - off)) by (unfold is_u64; lia). rewrite wrap64_small by (unfold is_u64; lia).
  replace (cur + (Z.of_nat (length (term_data view t)) - off)) with (Z.of_nat (length A) + Z.of_nat (length (term_data view t))) by lia.
  eexists _, _. split; [reflexivity|]. cbn [xorb_blocks]. rewrite alter_shape by done. split_and!; [done|done| |done].
  exists (XorbReconstructionTerm.hash t), (cand_chunks c), pre, post, A, B. cbn. split_and!; [|done|lia|done|lia|lia|lia|unfold term_data, range_data; lia].
  rewrite list_lookup_fmap, Ebi. cbn. unfold shape. by rewrite Hbh, Hbr.
Qed.

(** The ranges of the entries follow each other from [pos] to [fin]. *)
Fixpoint contiguous (pos : Z) (ranges : list FileRange.t) (fin : Z) : Prop :=
    match ranges with
    | [] => pos = fin
    | range :: ranges' => FileRange.start range = pos /\ contiguous (FileRange.end_ range) ranges' fin
    end.

(** The ranges of the file that the terms stand for, from [pos] on; [off] bytes of the first are skipped. *)
Fixpoint term_ranges (pos off : Z) (terms : list XorbReconstructionTerm.t) : list FileRange.t :=
    match terms with
    | [] => []
    | t :: terms' =>
        let fin := pos + Z.of_nat (length (term_data view t)) in
        FileRange.new (pos + off) fin :: term_ranges fin 0 terms'
    end.

Lemma term_ranges_contiguous pos off terms :
    terms <> [] -> contiguous (pos + off) (term_ranges pos off terms) (pos + Z.of_nat (length (terms_data view terms))).
Proof.
  revert pos off. induction terms as [|t terms IH]; [done|]. intros pos off _. unfold terms_data. cbn. rewrite length_app. split; [done|].
  destruct terms as [|t' terms]; [cbn; lia|]. specialize (IH (pos + Z.of_nat (length (term_data view t))) 0 ltac:(done)).
  rewrite Z.add_0_r in IH. unfold terms_data in IH. replace (pos + Z.of_nat (length (term_data view t) + length (concat (term_data view <$> t' :: terms))))
    with (pos + Z.of_nat (length (term_data view t)) + Z.of_nat (length (concat (term_data view <$> t' :: terms)))) by lia. done.
Qed.

Lemma term_ranges_last pos off ts t :
    exists init fin, term_ranges pos off (ts ++ [t]) =
      init ++ [FileRange.new (if decide (ts = []) then pos + off else pos + Z.of_nat (length (terms_data view ts))) fin].
Proof.
  revert pos off. induction ts as [|t0 ts IH]; intros pos off; [by exists [], (pos + Z.of_nat (length (term_data view t)))|].
  cbn [app term_ranges]. destruct (IH (pos + Z.of_nat (length (term_data view t0))) 0) as (init & fin & E1). rewrite E1.
  exists (FileRange.new (pos + off) (pos + Z.of_nat (length (term_data view t0))) :: init), fin. cbn [app]. f_equal. f_equal. f_equal. f_equal.
  rewrite (decide_False (P := t0 :: ts = [])) by done. unfold terms_data. cbn [fmap list_fmap concat]. rewrite length_app.
  destruct (decide (ts = [])) as [->|]; cbn; lia.
Qed.

Lemma term_entries_ok (first : bool) terms bs cur A B :
    (forall t, t ∈ terms -> t ∈ QueryReconstructionResponseV2.terms r) -> Forall (term_ok view) terms -> blocks_inv bs ->
    data = A ++ terms_data view terms ++ B -> Z.of_nat (length data) < 2 ^ 64 ->
    let off := if first then QueryReconstructionResponseV2.offset_into_first_range r else 0 in
    (forall t, head terms = Some t -> 0 <= off < Z.of_nat (length (term_data view t))) -> (terms = [] -> off = 0) -> Z.of_nat (length A) + off = cur ->
    exists ens bs', term_entries (E := E) m r first terms bs cur = Ok (ens, bs', Z.of_nat (length A) + Z.of_nat (length (terms_data view terms))) /\
      blocks_inv bs' /\ (shape <$> xorb_blocks bs) `prefix_of` (shape <$> xorb_blocks bs') /\ Forall (entry_good (shape <$> xorb_blocks bs')) ens /\
      FileTermEntry.byte_range <$> ens = term_ranges (Z.of_nat (length A)) off terms.
Proof.
  intros Hin Hok. revert first bs cur A Hin. induction Hok as [|t terms Ht Hterms IH]; intros first bs cur A Hin Hinv Hd Hsz off Hoff Hnil Hcur.
  { exists [], bs. cbn. rewrite (Hnil eq_refl), !Z.add_0_r in *. subst cur. split_and!; done. }
  unfold terms_data in *. cbn [fmap list_fmap concat] in *. rewrite <- app_assoc in Hd. cbn [term_entries].
  destruct (term_entry_ok first t bs cur A (concat (term_data view <$> terms) ++ B)) as (en & bs1 & E1 & Hinv1 & Hp1 & Hg1 & Hr1);
    [apply Hin; by left|done|done|done|done|by apply Hoff|done|]. rewrite E1, result_bind_Ok.
  destruct (IH false bs1 (Z.of_nat (length A) + Z.of_nat (length (term_data view t))) (A ++ term_data view t)) as (ens & bs2 & E2 & Hinv2 & Hp2 & Hg2 & Hr2).
  - intros t' Ht'. apply Hin. by right.
  - done.
  - by rewrite <- app_assoc.
  - done.
  - destruct terms as [|t' terms]; [done|]. intros t0 [= <-]. apply Forall_cons in Hterms as [Ht' _]. pose proof (term_data_pos t' Ht'). cbn. lia.
  - done.
  - rewrite length_app. lia.
  - rewrite E2, result_bind_Ok. rewrite !length_app in *. exists (en :: ens), bs2. split_and!.
    + do 2 f_equal. lia.
    + done.
    + by etrans.
    + constructor; [by eapply entry_good_prefix|done].
    + cbn. rewrite Hr1, Hr2. f_equal; [f_equal; lia|f_equal; lia].
Qed.

(** *** The terms of the block *)

Lemma contiguous_app pos l1 l2 fin : contiguous pos (l1 ++ l2) fin <-> exists mid, contiguous pos l1 mid /\ contiguous mid l2 fin.
Proof.
  revert pos. induction l1 as [|x l1 IH]; intros pos; cbn; [naive_solver|]. rewrite IH. naive_solver.
Qed.

(** Cutting the last entry, which still has a byte left. *)
Lemma shrink_last_ok shapes pos ens fin n :
    Forall (entry_good shapes) ens -> contiguous pos (FileTermEntry.byte_range <$> ens) fin -> ens <> [] -> 0 <= n -> 0 <= pos -> fin < 2 ^ 64 ->
    (forall en, last ens = Some en -> FileRange.start (FileTermEntry.byte_range en) < fin - n) ->
    Forall (entry_good shapes) (shrink_last n ens) /\ contiguous pos (FileTermEntry.byte_range <$> shrink_last n ens) (fin - n) /\ shrink_last n ens <> [].
Proof.
  intros Hg Hc Hne Hn Hpos Hfin Hlast. destruct (last ens) as [en|] eqn:El; [|by apply last_None in El]. specialize (Hlast en eq_refl).
  apply last_Some in El as [init ->]. unfold shrink_last. rewrite length_app. replace (length init + length [en] - 1)%nat with (length init + 0)%nat by (cbn; lia).
  rewrite alter_app_r. change (alter (FileTermEntry.shrink n) 0%nat [en]) with [FileTermEntry.shrink n en].
  apply Forall_app in Hg as [Hg1 Hg2]. apply Forall_cons in Hg2 as [Hg2 _]. rewrite fmap_app in *. apply contiguous_app in Hc as (mid & Hc1 & Hc2).
  cbn in Hc2. destruct Hc2 as [Hm Hf]. destruct Hg2 as (h & ranges & pre & post & A & B & H1 & H2 & H3 & H4 & H5 & H6 & H7).
  assert (wrap64 (FileRange.end_ (FileTermEntry.byte_range en) - n) = fin - n) as Hw by (rewrite wrap64_small; unfold is_u64; lia).
  split_and!; [|apply contiguous_app; exists mid; split; [done|]; cbn; by rewrite Hw|by destruct init].
  apply Forall_app. split; [done|]. constructor; [|constructor]. exists h, ranges, pre, post, A, B. cbn. rewrite Hw. split_and!; (done || lia).
Qed.

Definition term_of (blocks : list XorbBlock.t) (en : FileTermEntry.t) (ft : FileTerm.t) : Prop :=
    FileTerm.byte_range ft = FileTermEntry.byte_range en /\ FileTerm.xorb_chunk_range ft = FileTermEntry.xorb_chunk_range en /\
    FileTerm.xorb_block_start_index ft = FileTermEntry.xorb_block_start_index en /\
    FileTerm.offset_into_first_range ft = FileTermEntry.offset_into_first_range en /\
    blocks !! FileTermEntry.xorb_block_index en = Some (FileTerm.xorb_block ft).

Lemma build_terms_ok blocks ens :
    Forall (entry_good (shape <$> blocks)) ens -> exists fts, build_terms (E := E) blocks ens = Ok fts /\ Forall2 (term_of blocks) ens fts.
Proof.
  induction 1 as [|en ens Hg _ IH]; [exists []; by split|]. destruct IH as (fts & E1 & H1). cbn [build_terms].
  destruct Hg as (h & ranges & pre & post & A & B & Hs & _). rewrite list_lookup_fmap in Hs.
  destruct (blocks !! FileTermEntry.xorb_block_index en) as [b|] eqn:Eb; [|done]. unfold term_index. rewrite Eb. cbn [result_of_option].
  rewrite result_bind_Ok, E1, result_bind_Ok. eexists. split; [reflexivity|]. constructor; [|done]. by split_and!.
Qed.

(** A term gives the bytes of the file that its range names, unless the client fails. *)
Definition term_right (chunk_cache : option XorbBlock.ChunkCacheGet) (urls : TermBlockRetrievalURLs.t) (ft : FileTerm.t) : Prop :=
    let range := FileTerm.byte_range ft in
    0 <= FileRange.start range < FileRange.end_ range /\ FileRange.end_ range <= Z.of_nat (length data) /\
    forall now, match get_data now chunk_cache urls ft with
                | Ok d => d = data ⟦Z.to_nat (FileRange.start range), Z.to_nat (FileRange.end_ range)⟧
                | Err (ClientCall _) => True
                | Err _ => False
                end.

(** The inferred size of the block of a term is right. *)
Definition size_right (b : XorbBlock.t) : Prop :=
    forall n, XorbBlock.uncompressed_size_if_known b = Some n ->
      n = Z.of_nat (length (concat (block_chunks view (XorbBlock.xorb_hash b) (XorbBlock.chunk_ranges b)))).

Lemma block_ranges_ok urls i b :
    block_ok urls i b -> StronglySorted before (XorbBlock.chunk_ranges b) /\ Forall (range_ok view (XorbBlock.xorb_hash b)) (XorbBlock.chunk_ranges b).
Proof.
  intros (_ & _ & entries & c & Hx & Hc & -> & _). destruct (response_ranges _ _ _ _ _ resp _ _ Hx) as [Hs Hok]. by eapply candidate_ranges.
Qed.

Lemma settle_size_right urls i b : block_ok urls i b -> size_right (XorbBlock.settle b).
Proof.
  intros Hb. destruct (block_ranges_ok _ _ _ Hb) as [Hs Hok]. intros n. cbn. apply determine_size_ok; [done|done|].
  rewrite merge_sort_Permutation. apply Hb.
Qed.

Lemma block_retrieved chunk_cache urls i b url bytes now :
    cache_ok view chunk_cache -> chunk_cache = None \/ m = false -> block_ok urls i b -> urls !! i = Some (url, bytes) ->
    match XorbBlock.retrieve_data now chunk_cache b url bytes with
    | Ok d => exists offsets, block_data_ok view (XorbBlock.xorb_hash b) (XorbBlock.chunk_ranges b) (XorbBlockData.data d) offsets /\
        XorbBlock.build_chunk_offsets (E := E) (XorbBlock.chunk_ranges b) offsets = Ok (XorbBlockData.chunk_offsets d)
    | Err (ClientCall _) => True
    | Err _ => False
    end.
Proof.
  intros Hcache Hm Hb Hu. destruct (block_ranges_ok _ _ _ Hb) as [Hs Hok]. destruct Hb as (Hi & _ & entries & c & Hx & Hc & Hr & Hu'). rewrite Hu in Hu'. injection Hu' as -> ->.
  assert (forall d o, block_data_ok view (XorbBlock.xorb_hash b) (XorbBlock.chunk_ranges b) d o ->
    exists l, XorbBlock.build_chunk_offsets (E := E) (XorbBlock.chunk_ranges b) o = Ok l) as Hbuild.
  { intros d o [_ Ho]. destruct (build_chunk_offsets_ok (E := E) view (XorbBlock.xorb_hash b) (XorbBlock.chunk_ranges b) o Hok) as (l & ? & _); [|by exists l].
    specialize (Ho _ (le_n _)). apply lookup_lt_Some in Ho. lia. }
  unfold XorbBlock.retrieve_data. cbn zeta. destruct (_ ≫= _) as [[offsets d]|] eqn:Ec.
  - destruct chunk_cache as [cache|]; [|done]. destruct Hm as [?| ->]; [done|]. cbn in Ec.
    pose proof Hc as (e0 & d0 & sel & _ & [_ ->] & Ec0). assert (XorbBlock.chunk_ranges b = [XorbRangeDescriptor.chunks d0]) as Hone by (rewrite Hr, Ec0; done).
    rewrite Hone in Ec. apply (Hcache cache _ _ _ _ eq_refl) in Ec. cbn in Ec. rewrite <- Hone in Ec.
    destruct (Hbuild _ _ Ec) as (l & El). rewrite El, result_bind_Ok. cbn. by exists offsets.
  - destruct (get_file_term_data now (cand_url c) (cand_bytes c)) as [[d o]|e0] eqn:Eg; [|done]. cbn [try_client]. rewrite result_bind_Ok.
    destruct (candidate_selection entries m c Hc) as (entry & sel & He & Hsel & Ech & Eurl & Eby). rewrite Eurl, Eby in Eg.
    apply (response_data _ _ _ _ _ resp _ _ _ _ _ _ _ Hx He Hsel) in Eg. rewrite <- Ech, <- Hr in Eg.
    destruct (Hbuild _ _ Eg) as (l & El). rewrite El, result_bind_Ok. cbn. by exists o.
Qed.

Lemma good_term_right chunk_cache bs urls en ft :
    cache_ok view chunk_cache -> chunk_cache = None \/ m = false -> blocks_inv bs -> Z.of_nat (length data) < 2 ^ 64 ->
    TermBlockRetrievalURLs.retrieval_urls urls = xorb_block_retrieval_urls bs ->
    entry_good (shape <$> (XorbBlock.settle <$> xorb_blocks bs)) en -> term_of (XorbBlock.settle <$> xorb_blocks bs) en ft ->
    term_right chunk_cache urls ft /\ size_right (FileTerm.xorb_block ft).
Proof.
  intros Hcache Hm Hinv Hsz Hurls Hg (T1 & T2 & T3 & T4 & T5).
  destruct Hg as (h & ranges & pre & post & A & B & G1 & G2 & G3 & G4 & G5 & G6 & G7). set (cs := chunks_in view h _) in *.
  rewrite list_lookup_fmap, T5 in G1. cbn in G1. rewrite list_lookup_fmap in T5.
  destruct (xorb_blocks bs !! FileTermEntry.xorb_block_index en) as [b|] eqn:Eb; [|done]. injection T5 as T5. rewrite <- T5 in G1. injection G1 as G1h G1r.
  pose proof (inv_block _ Hinv _ _ Eb) as Hb. split; [|rewrite <- T5; by eapply settle_size_right].
  assert (length data = length A + (length (concat cs) + length B))%nat as Hlen by (rewrite G4, !length_app; done).
  unfold term_right. cbn zeta. rewrite T1. split; [lia|]. split; [lia|]. intros now.
  pose proof Hb as (Hi & Hrefs & entries & c & Hx & Hc & Hr & Hu).
  unfold get_data, get_retrieval_url. rewrite <- T5. cbn [XorbBlock.settle XorbBlock.xorb_block_index]. rewrite Hi, Hurls.
  unfold term_index at 1. rewrite Hu. cbn [result_of_option]. rewrite !result_bind_Ok.
  change (XorbBlock.retrieve_data now chunk_cache (XorbBlock.settle b)) with (XorbBlock.retrieve_data now chunk_cache b).
  pose proof (block_retrieved chunk_cache _ _ b _ _ now Hcache Hm Hb Hu) as Hret.
  destruct (XorbBlock.retrieve_data now chunk_cache b (cand_url c) (cand_bytes c)) as [d|err]; [|by destruct err].
  rewrite result_bind_Ok. destruct Hret as (offsets & Hbd & Ebuild). destruct (block_ranges_ok _ _ _ Hb) as [Hs Hok].
  destruct d as [l dd]. cbn in Hbd, Ebuild. rewrite <- G1h, <- G1r in *.
  destruct (extract_ok (E := E) view (XorbBlock.xorb_hash b) wf (XorbBlock.chunk_ranges b) dd offsets ft pre cs post) as (l' & El' & Eex); [done|done|done|done|by rewrite T3| | | | |].
  - intros ->. cbn in G7. lia.
  - rewrite T4. done.
  - rewrite T1. lia.
  - rewrite T1, T4. lia.
  - rewrite Ebuild in El'. injection El' as <-. rewrite Eex. rewrite T1, T4, G4. unfold slice.
    replace (Z.to_nat (FileRange.start (FileTermEntry.byte_range en))) with (length A + Z.to_nat (FileTermEntry.offset_into_first_range en))%nat by lia.
    rewrite drop_app_add, drop_app_le by lia.
    replace (Z.to_nat (FileRange.end_ (FileTermEntry.byte_range en)) - (length A + Z.to_nat (FileTermEntry.offset_into_first_range en)))%nat
      with (Z.to_nat (FileTermEntry.offset_into_first_range en + (FileRange.end_ (FileTermEntry.byte_range en) - FileRange.start (FileTermEntry.byte_range en))) -
            Z.to_nat (FileTermEntry.offset_into_first_range en))%nat by lia.
    symmetry. apply take_app_le. rewrite length_drop. lia.
Qed.

End Response.

(** ** Where errors of the client come from *)

(** A call of the client ended in the error [c]. *)
Definition client_failed {E} `{RC : ReconstructionClient E} (c : E) : Prop :=
  (exists now h range, get_reconstruction now h range = Err c) \/ (exists now url ranges, get_file_term_data now url ranges = Err c).

Section Failures.
  Context {E : Type} `{RC : ReconstructionClient E}.

Lemma range_offsets_panics n i offsets err : XorbBlock.range_offsets (E := E) n i offsets = Err err -> err = ReconstructionPanic.
Proof.
  revert i offsets. induction n as [|n IH]; intros i [|o offsets]; cbn; [done|done|by intros [= <-]|].
  destruct (XorbBlock.range_offsets n (i + 1) offsets) as [[]|err'] eqn:E1; cbn; [done|]. intros [= <-]. by eapply IH.
Qed.

Lemma chunk_offsets_panics ranges offsets err : XorbBlock.build_chunk_offsets (E := E) ranges offsets = Err err -> err = ReconstructionPanic.
Proof.
  revert offsets. induction ranges as [|r ranges IH]; intros offsets; cbn; [done|].
  destruct (XorbBlock.range_offsets _ _ _) as [[l rest]|err'] eqn:E1; cbn; [|intros [= <-]; by eapply range_offsets_panics].
  destruct (XorbBlock.build_chunk_offsets ranges rest) as [l'|err'] eqn:E2; cbn; [done|]. intros [= <-]. by eapply IH.
Qed.

Lemma get_data_failed now cache u t c : get_data now cache u t = Err (ClientCall c) -> client_failed c.
Proof.
  unfold get_data, get_retrieval_url, term_index. destruct (_ !! _) as [[url ranges]|]; cbn; [|done].
  destruct (XorbBlock.retrieve_data _ _ _ _ _) as [d|err] eqn:Er; cbn.
  - unfold FileTerm.extract_bytes, term_index. destruct (_ !! _) as [[]|]; cbn; [|done]. by destruct (_ && _).
  - intros [= ->]. revert Er. unfold XorbBlock.retrieve_data. destruct (_ ≫= _) as [[offsets d]|].
    + destruct (XorbBlock.build_chunk_offsets _ _) eqn:Eb; cbn; [done|]. intros [= ->]. by apply chunk_offsets_panics in Eb.
    + destruct (get_file_term_data now url ranges) as [[d o]|err] eqn:Eg; cbn; [|intros [= ->]; right; by exists now, url, ranges].
      destruct (XorbBlock.build_chunk_offsets _ _) eqn:Eb; cbn; [done|]. intros [= ->]. by apply chunk_offsets_panics in Eb.
Qed.
End Failures.

(** ** Retrieving a block of terms *)

Section Retrieved.
  Context {E : Type} `{RC : ReconstructionClient E} (view : xorb_view) (file_hash : DataHash) (data : list byte).
  Hypothesis wf : view_wf view.
  Hypothesis served : serves view file_hash data.
  Hypothesis size_fits : Z.of_nat (length data) < 2 ^ 64.
  Context (enable_multirange : bool) (chunk_cache : option XorbBlock.ChunkCacheGet).
  Hypothesis cached : cache_ok view chunk_cache.
  Hypothesis cache_single : chunk_cache = None \/ enable_multirange = false.

Let size := Z.of_nat (length data).

(** The terms follow each other from [s] to [e] and give the bytes of the file. *)
Definition terms_right (s e : Z) (fts : list FileTerm.t) (urls : TermBlockRetrievalURLs.t) : Prop :=
    contiguous s (FileTerm.byte_range <$> fts) e /\ fts <> [] /\
    Forall (fun ft => term_right data chunk_cache urls ft /\ size_right view (FileTerm.xorb_block ft)) fts.

Lemma retrieved_terms_ok s e acquisition_id r :
    0 <= s < e -> e < 2 ^ 64 -> s < size -> response_ok view data s (Z.min e size) r ->
    exists transfer fts urls, term_block (E := E) enable_multirange acquisition_id file_hash (FileRange.new s e) r =
        Ok (FileRange.new s (Z.min e size), transfer, fts, urls) /\ terms_right s (Z.min e size) fts urls /\
      urls = TermBlockRetrievalURLs.mk file_hash (FileRange.new s (Z.min e size)) acquisition_id (TermBlockRetrievalURLs.retrieval_urls urls).
Proof.
  intros Hse He Hs resp. destruct (response_covers _ _ _ _ _ resp) as [Hterms (A & B & Hd & HA & HB & Hends) (t0 & ts0 & c0 & cs0 & Et & Hc0 & Hoff)].
  set (terms := QueryReconstructionResponseV2.terms r) in *. set (off := QueryReconstructionResponseV2.offset_into_first_range r) in *.
  assert (length data = length A + (length (terms_data view terms) + length B))%nat as Hlen by (rewrite Hd at 1; rewrite !length_app; done).
  assert (0 <= off < Z.of_nat (length (term_data view t0))) as Hoff0.
  { unfold term_data, range_data. rewrite Hc0. cbn. rewrite length_app. lia. }
  destruct (term_entries_ok view data s (Z.min e size) r enable_multirange wf resp true terms (mkBlocks [] [] ∅) s A B)
    as (ens & bs & Ee & Hinv & _ & Hg & Hr); [done|done|apply empty_blocks_inv|done|done| |by rewrite Et|done|].
  { rewrite Et. intros t [= <-]. done. }
  assert (terms <> []) as Hne by (by rewrite Et). fold off in Hr.
  assert (ens <> []) as Hens by (destruct ens, terms; done).
  assert (contiguous s (FileTermEntry.byte_range <$> ens) (Z.of_nat (length A) + Z.of_nat (length (terms_data view terms)))) as Hc.
  { rewrite Hr, <- HA. by apply term_ranges_contiguous. }
  set (cur := Z.of_nat (length A) + Z.of_nat (length (terms_data view terms))) in *.
  unfold term_block. fold terms. cbn [FileRange.start FileRange.end_]. rewrite Ee, result_bind_Ok. cbn zeta.
  assert (cur <= size) by (unfold cur, size; lia).
  set (ens' := if e <? cur then shrink_last (wrap64 (cur - e)) ens else ens).
  assert (Forall (entry_good view data (shape <$> (XorbBlock.settle <$> xorb_blocks bs))) ens' /\
    contiguous s (FileTermEntry.byte_range <$> ens') (Z.min e size) /\ ens' <> []) as (Hg' & Hc' & Hens').
  { assert (shape <$> (XorbBlock.settle <$> xorb_blocks bs) = shape <$> xorb_blocks bs) as -> by (rewrite <- list_fmap_compose; done).
    unfold ens'. destruct (Z.ltb_spec e cur) as [Hlt|Hge].
    - rewrite wrap64_small by (unfold is_u64, size in *; lia). replace (Z.min e size) with (cur - (cur - e)) by lia.
      apply (shrink_last_ok view data _ s ens cur (cur - e)); [done|done|done|lia|lia|unfold size in *; lia|].
      intros en Hen. destruct Hends as (ts & t & cs & c & Eterms & Hcs & Hlt2). apply last_Some in Hen as [init Eens].
      destruct (term_ranges_last view (Z.of_nat (length A)) off ts t) as (init' & fin & Etr). rewrite <- Eterms, <- Hr, Eens, fmap_app in Etr.
      apply app_inj_tail in Etr as [_ Etr]. rewrite Etr. cbn. destruct (decide (ts = [])); lia.
    - split_and!; [done| |done]. assert (Z.min e size = cur) as ->; [|done]. destruct HB as [->|HB]; [cbn in Hlen|]; unfold cur, size in *; lia. }
  assert (from_option (fun e0 => FileRange.start (FileTermEntry.byte_range e0)) 0 (head ens') = s) as ->.
  { destruct ens' as [|en ens'']; [done|]. cbn in *. by destruct Hc'. }
  assert (from_option (fun e0 => FileRange.end_ (FileTermEntry.byte_range e0)) 0 (last ens') = Z.min e size) as ->.
  { destruct (last ens') as [en|] eqn:El; [|by apply last_None in El]. apply last_Some in El as [init ->]. rewrite fmap_app in Hc'.
    apply contiguous_app in Hc' as (mid & _ & Hm). cbn in Hm. cbn. lia. }
  destruct (build_terms_ok (E := E) view data _ _ Hg') as (fts & Ef & Hfts). rewrite Ef, result_bind_Ok.
  eexists _, fts, _. split; [reflexivity|]. split; [|done]. split_and!.
  - assert (FileTerm.byte_range <$> fts = FileTermEntry.byte_range <$> ens') as ->; [|done].
    clear -Hfts. induction Hfts as [|en ft ens' fts Ht _ IH]; [done|]. cbn. f_equal; [apply Ht|done].
  - intros ->. by apply Forall2_nil_inv_r in Hfts.
  - clear -Hfts Hg' resp Hinv wf cached cache_single size_fits. revert Hg'. induction Hfts as [|en ft ens' fts Ht _ IH]; [by constructor|].
    intros [Hen Hrest]%Forall_cons. constructor; [|by apply IH]. by eapply good_term_right.
Qed.

(** The block of terms retrieved for a range covers the range as far as the file goes, and its terms
    give the bytes of the file. *)
Lemma retrieve_block_ok s e now acquisition_id :
    0 <= s < e -> e < 2 ^ 64 ->
    match retrieve_file_term_block enable_multirange now acquisition_id file_hash (FileRange.new s e) with
    | Ok None => size <= s
    | Ok (Some (range, _, fts, urls)) =>
        (s < size /\ range = FileRange.new s (Z.min e size) /\ terms_right s (Z.min e size) fts urls) \/
        (size = 0 /\ s = 0 /\ range = FileRange.new 0 0 /\ fts = [])
    | Err (ClientCall _) => True
    | Err _ => False
    end.
Proof.
  intros Hse He. unfold retrieve_file_term_block. destruct (get_reconstruction _ _ _) as [r|err] eqn:Eg; [|done]. cbn [try_client]. rewrite result_bind_Ok.
  pose proof (served now s e r Hse He Eg) as Hsv. destruct r as [r|]; [|done]. destruct Hsv as [[Hs Hresp]|(H0 & -> & Hnil)].
  - destruct (retrieved_terms_ok s e acquisition_id r) as (transfer & fts & urls & Eb & Hr & _); [done..|]. rewrite Eb, result_bind_Ok. left. done.
  - unfold term_block. rewrite Hnil. cbn. rewrite (proj2 (Z.ltb_ge e 0)) by lia. cbn. right. unfold size. rewrite H0. done.
Qed.

Lemma retrieve_block_failed s e now acquisition_id c :
    0 <= s < e -> e < 2 ^ 64 ->
    retrieve_file_term_block enable_multirange now acquisition_id file_hash (FileRange.new s e) = Err (ClientCall c) -> client_failed c.
Proof.
  intros Hse He. unfold retrieve_file_term_block. destruct (get_reconstruction _ _ _) as [r|err] eqn:Eg; [|intros [= ->]; left; eauto]. cbn [try_client]. rewrite result_bind_Ok.
  pose proof (served now s e r Hse He Eg) as Hsv. destruct r as [r|]; [|done]. destruct Hsv as [[Hs Hresp]|(H0 & -> & Hnil)].
  - by destruct (retrieved_terms_ok s e acquisition_id r) as (transfer & fts & urls & -> & _).
  - unfold term_block. rewrite Hnil. cbn. by rewrite (proj2 (Z.ltb_ge e 0)) by lia.
Qed.

(** C14: Reconstruction terms are right.  For a client that answers queries for a file as it should, and a
    cache that holds what was fetched, retrieving the terms of a range never ends in an error or a
    panic of its own, with multi-range fetching or without; the cache is not used for multi-range
    fetches, where reading a term in a second range of a block would panic.  Beyond the end of the file there are no
    terms.  Otherwise the terms cover the range as far as the file goes, one after the other without
    a gap, and for each of them the bytes extracted from the data of its xorb block, which it may
    share with other terms, are the bytes of the file in its range.  The size of a block that is
    inferred from its terms, when it is, is the size of its data. *)
Theorem file_terms_correct s e now acquisition_id :
    0 <= s < e -> e < 2 ^ 64 ->
    match retrieve_file_term_block enable_multirange now acquisition_id file_hash (FileRange.new s e) with
    | Ok None => Z.of_nat (length data) <= s
    | Ok (Some (range, _, fts, urls)) =>
        (s < Z.of_nat (length data) /\ range = FileRange.new s (Z.min e (Z.of_nat (length data))) /\
         terms_right s (Z.min e (Z.of_nat (length data))) fts urls) \/
        (data = [] /\ s = 0 /\ fts = [])
    | Err (ClientCall _) => True
    | Err _ => False
    end.
Proof.
  intros Hse He. pose proof (retrieve_block_ok s e now acquisition_id Hse He) as H. unfold size in H.
  destruct (retrieve_file_term_block _ _ _ _ _) as [[[[[range tr] fts] urls]|]|]; [|done|done].
  destruct H as [H|(H0 & -> & _ & ->)]; [by left|right]. split; [apply nil_length_inv; lia|done].
Qed.

End Retrieved.

(** ** Refreshing the URLs *)

(** Responses that differ in the URLs and the bytes of their ranges only. *)
Definition same_fetch (f f' : XorbMultiRangeFetch.t) : Prop :=
  XorbRangeDescriptor.chunks <$> XorbMultiRangeFetch.ranges f = XorbRangeDescriptor.chunks <$> XorbMultiRangeFetch.ranges f'.

Record same_layout (r r' : QueryReconstructionResponseV2.t) : Prop := {
  layout_offset : QueryReconstructionResponseV2.offset_into_first_range r = QueryReconstructionResponseV2.offset_into_first_range r';
  layout_terms : QueryReconstructionResponseV2.terms r = QueryReconstructionResponseV2.terms r';
  layout_xorbs h entries : QueryReconstructionResponseV2.xorbs r !! h = Some entries ->
    exists entries', QueryReconstructionResponseV2.xorbs r' !! h = Some entries' /\ Forall2 same_fetch entries entries';
}.

Definition same_candidate (c c' : Candidate) : Prop := first_chunk_start c = first_chunk_start c' /\ cand_chunks c = cand_chunks c'.

Definition same_blocks (bs bs' : Blocks) : Prop := xorb_blocks bs = xorb_blocks bs' /\ xorb_index_lookup bs = xorb_index_lookup bs'.

Lemma holds_chunks term d d' : XorbRangeDescriptor.chunks d = XorbRangeDescriptor.chunks d' -> holds term d = holds term d'.
Proof. unfold holds. by intros ->. Qed.

Lemma find_range_layout term url url' l l' :
  XorbRangeDescriptor.chunks <$> l = XorbRangeDescriptor.chunks <$> l' ->
  match find_range term url l with
  | Some c => exists c', find_range term url' l' = Some c' /\ same_candidate c c'
  | None => find_range term url' l' = None
  end.
Proof.
  revert l'. induction l as [|d l IH]; intros [|d' l']; try done. cbn. intros [= Hd Hl]. rewrite (holds_chunks term d d' Hd).
  destruct (holds term d'); [|by apply IH]. eexists. split; [reflexivity|]. split; cbn; by rewrite Hd.
Qed.

Lemma existsb_layout term l l' :
  XorbRangeDescriptor.chunks <$> l = XorbRangeDescriptor.chunks <$> l' -> existsb (holds term) l = existsb (holds term) l'.
Proof. revert l'. induction l as [|d l IH]; intros [|d' l']; try done. cbn. intros [= Hd Hl]. by rewrite (holds_chunks term d d' Hd), (IH l'). Qed.

Lemma find_candidate_layout m term l l' c :
  Forall2 same_fetch l l' -> find_candidate m term l = Some c -> exists c', find_candidate m term l' = Some c' /\ same_candidate c c'.
Proof.
  induction 1 as [|f f' l l' Hf _ IH]; [done|]. cbn [find_candidate]. unfold same_fetch in Hf. destruct m.
  - destruct (XorbMultiRangeFetch.ranges f) as [|d ds] eqn:E1, (XorbMultiRangeFetch.ranges f') as [|d' ds'] eqn:E2; [done|done|done|].
    rewrite (existsb_layout term _ _ Hf). destruct (existsb (holds term) (d' :: ds')); [|done]. intros [= <-]. eexists. split; [reflexivity|].
    pose proof Hf as Hf'. cbn in Hf'. injection Hf' as Hd _. split; cbn [first_chunk_start cand_chunks]; [by rewrite Hd|done].
  - pose proof (find_range_layout term (XorbMultiRangeFetch.url f) (XorbMultiRangeFetch.url f') _ _ Hf) as Hr.
    destruct (find_range term (XorbMultiRangeFetch.url f) _) as [c0|].
    + destruct Hr as (c' & -> & Hc). intros [= <-]. by exists c'.
    + rewrite Hr. done.
Qed.

Lemma block_of_layout bs bs' h c c' :
  same_blocks bs bs' -> same_candidate c c' -> (block_of bs h c).1 = (block_of bs' h c').1 /\ same_blocks (block_of bs h c).2 (block_of bs' h c').2.
Proof.
  intros [Hb Hl] [Hk Hc]. unfold block_of. rewrite Hk, Hl, Hb, Hc. destruct (xorb_index_lookup bs' !! _); cbn; by split_and!.
Qed.

Section Refresh.
  Context {E : Type} `{RC : ReconstructionClient E} (m : bool) (r r' : QueryReconstructionResponseV2.t).
  Hypothesis layout : same_layout r r'.

Lemma term_entry_layout first t bs bs' cur en bs1 cur1 :
    same_blocks bs bs' -> term_entry (E := E) m r first t bs cur = Ok (en, bs1, cur1) ->
    exists bs1', term_entry (E := E) m r' first t bs' cur = Ok (en, bs1', cur1) /\ same_blocks bs1 bs1'.
Proof.
  intros Hbs. unfold term_entry. destruct (QueryReconstructionResponseV2.xorbs r !! _) as [entries|] eqn:Ex; [|done].
  destruct (layout_xorbs _ _ layout _ _ Ex) as (entries' & Ex' & Hf). rewrite Ex'. cbn [result_of_option]. rewrite !result_bind_Ok.
  destruct (find_candidate m t entries) as [c|] eqn:Ec; [|done]. destruct (find_candidate_layout m t _ _ _ Hf Ec) as (c' & Ec' & Hc). rewrite Ec'.
  cbn [result_of_option]. rewrite !result_bind_Ok. destruct (block_of_layout bs bs' (XorbReconstructionTerm.hash t) c c' Hbs Hc) as [Hi Hb].
  destruct (block_of bs _ c) as [i b1], (block_of bs' _ c') as [i' b1']. cbn in Hi, Hb. subst i'. destruct Hb as [Hb1 Hb2]. cbn zeta.
  rewrite <- (layout_offset _ _ layout), <- Hb1. destruct (term_index _ i) as [b|]; [|done]. rewrite !result_bind_Ok.
  destruct (find_start_index _ _ _); [|done]. cbn [result_of_option]. rewrite !result_bind_Ok. intros [= <- <- <-]. eexists. split; [reflexivity|]. done.
Qed.

Lemma term_entries_layout first terms bs bs' cur ens bs1 cur1 :
    same_blocks bs bs' -> term_entries (E := E) m r first terms bs cur = Ok (ens, bs1, cur1) ->
    exists bs1', term_entries (E := E) m r' first terms bs' cur = Ok (ens, bs1', cur1) /\ same_blocks bs1 bs1'.
Proof.
  revert first bs bs' cur ens bs1 cur1. induction terms as [|t terms IH]; intros first bs bs' cur ens bs1 cur1 Hbs; cbn [term_entries].
  { intros [= <- <- <-]. by exists bs'. }
  destruct (term_entry m r first t bs cur) as [[[en b1] c1]|] eqn:E1; [|done]. destruct (term_entry_layout _ _ _ _ _ _ _ _ Hbs E1) as (b1' & -> & Hb1).
  rewrite !result_bind_Ok. destruct (term_entries m r false terms b1 c1) as [[[ens' b2] c2]|] eqn:E2; [|done].
  destruct (IH _ _ _ _ _ _ _ Hb1 E2) as (b2' & -> & Hb2). rewrite !result_bind_Ok. intros [= <- <- <-]. by exists b2'.
Qed.

(** The same terms, with the URLs of the second response; the ends of the queries cut the same. *)
Lemma term_block_layout id id' h s e e' range transfer fts urls :
    (forall ens bs cur, term_entries (E := E) m r true (QueryReconstructionResponseV2.terms r) (mkBlocks [] [] ∅) s = Ok (ens, bs, cur) ->
       e < cur /\ e' = e \/ cur <= e /\ cur <= e') ->
    term_block (E := E) m id h (FileRange.new s e) r = Ok (range, transfer, fts, urls) ->
    exists transfer' urls', term_block (E := E) m id' h (FileRange.new s e') r' = Ok (range, transfer', fts, urls').
Proof.
  intros Hcur. unfold term_block. cbn [FileRange.start FileRange.end_].
  destruct (term_entries m r true _ _ s) as [[[ens bs] cur]|] eqn:E1; [|done].
  assert (same_blocks (mkBlocks [] [] ∅) (mkBlocks [] [] ∅)) as H0 by done.
  destruct (term_entries_layout _ _ _ _ _ _ _ _ H0 E1) as (bs' & E2 & Hb & _). rewrite <- (layout_terms _ _ layout), E2, !result_bind_Ok. cbn zeta.
  specialize (Hcur _ _ _ eq_refl). assert ((if e' <? cur then shrink_last (wrap64 (cur - e')) ens else ens) =
    (if e <? cur then shrink_last (wrap64 (cur - e)) ens else ens)) as ->.
  { destruct Hcur as [[? ->]|[? ?]]; [done|]. rewrite !(proj2 (Z.ltb_ge _ _)) by lia. done. }
  rewrite <- Hb. destruct (build_terms _ _) as [fts'|]; [|done]. rewrite !result_bind_Ok. intros [= <- <- <- <-]. eexists _, _. reflexivity.
Qed.
End Refresh.

Section Refreshed.
  Context {E : Type} `{RC : ReconstructionClient E} (view : xorb_view) (file_hash : DataHash) (data : list byte).
  Hypothesis wf : view_wf view.
  Hypothesis served : serves view file_hash data.
  Hypothesis size_fits : Z.of_nat (length data) < 2 ^ 64.
  Context (enable_multirange : bool) (chunk_cache : option XorbBlock.ChunkCacheGet).
  Hypothesis cached : cache_ok view chunk_cache.
  Hypothesis cache_single : chunk_cache = None \/ enable_multirange = false.

Let size := Z.of_nat (length data).

Lemma entries_end s e r ens bs cur :
    response_ok view data s e r -> term_entries (E := E) enable_multirange r true (QueryReconstructionResponseV2.terms r) (mkBlocks [] [] ∅) s = Ok (ens, bs, cur) ->
    cur <= size.
Proof.
  intros resp E1. destruct (response_covers _ _ _ _ _ resp) as [Hterms (A & B & Hd & HA & _ & _) (t0 & ts0 & c0 & cs0 & Et & Hc0 & Hoff)].
  destruct (term_entries_ok view data s e r enable_multirange wf resp true (QueryReconstructionResponseV2.terms r) (mkBlocks [] [] ∅) s A B)
    as (ens' & bs' & Ee & _); [done|done|apply empty_blocks_inv|done|done| |by rewrite Et|done|].
  { rewrite Et. intros t [= <-]. unfold term_data, range_data. rewrite Hc0. cbn. rewrite length_app. lia. }
  rewrite E1 in Ee. injection Ee as -> -> ->. pose proof (f_equal length Hd) as Hl. rewrite !length_app in Hl. unfold size. lia.
Qed.

(** The terms of a block survive the refresh of their URLs when the new response differs from the first
    in its URLs and byte ranges only, which the code does not check. *)
Lemma refresh_ok s e now now' id id' r r' range transfer fts urls :
    0 <= s < e -> e < 2 ^ 64 -> s < size ->
    get_reconstruction now file_hash (Some (FileRange.new s e)) = Ok (Some r) ->
    retrieve_file_term_block enable_multirange now id file_hash (FileRange.new s e) = Ok (Some (range, transfer, fts, urls)) ->
    get_reconstruction now' file_hash (Some range) = Ok (Some r') -> same_layout r r' ->
    exists urls', refresh_retrieval_urls enable_multirange now' id' urls id = Ok urls' /\ TermBlockRetrievalURLs.acquisition_id urls' = id' /\
      Forall (term_right data chunk_cache urls') fts /\
      TermBlockRetrievalURLs.file_hash urls = file_hash /\ TermBlockRetrievalURLs.byte_range urls = range /\ TermBlockRetrievalURLs.acquisition_id urls = id.
Proof.
  intros Hse He Hs Hg Hret Hg' Hlay.
  assert (response_ok view data s (Z.min e size) r) as resp.
  { pose proof (served now s e _ Hse He Hg) as [[_ ?]|(H0 & _)]; [done|]. unfold size in Hs. lia. }
  unfold retrieve_file_term_block in Hret. rewrite Hg in Hret. cbn [try_client] in Hret. rewrite result_bind_Ok in Hret.
  destruct (retrieved_terms_ok view file_hash data wf size_fits enable_multirange chunk_cache cached cache_single s e id r) as (tr & fts0 & urls0 & Eb & _ & Eu); [done..|].
  rewrite Eb, result_bind_Ok in Hret. injection Hret as <- <- <- <-. fold size in Hg', Eb, Eu.
  assert (0 <= s < Z.min e size) as Hse' by lia. assert (Z.min e size < 2 ^ 64) as He' by lia.
  assert (response_ok view data s (Z.min e size) r') as resp'.
  { pose proof (served now' s _ _ Hse' He' Hg') as [[_ H]|(H0 & _)]; [|unfold size in Hs; lia].
    by replace (Z.min (Z.min e size) (Z.of_nat (length data))) with (Z.min e size) in H by (unfold size; lia). }
  destruct (term_block_layout (E := E) enable_multirange r r' Hlay id id' file_hash s e (Z.min e size) (FileRange.new s (Z.min e size)) tr fts0 urls0) as (tr' & urls' & Eb'); [|done|].
  { intros ens bs cur Ee. pose proof (entries_end _ _ _ _ _ _ resp Ee). lia. }
  destruct (retrieved_terms_ok view file_hash data wf size_fits enable_multirange chunk_cache cached cache_single s (Z.min e size) id' r')
    as (tr2 & fts2 & urls2 & Eb2 & (_ & Hne & Hall) & Eu2); [done|done|done|by replace (Z.min (Z.min e size) (Z.of_nat (length data))) with (Z.min e size) by (unfold size; lia)|].
  rewrite Eb' in Eb2. injection Eb2 as Hrange <- <- <-.
  exists urls'. unfold refresh_retrieval_urls. rewrite Eu. cbn [TermBlockRetrievalURLs.acquisition_id TermBlockRetrievalURLs.file_hash TermBlockRetrievalURLs.byte_range].
  rewrite Z.eqb_refl. cbn [negb]. unfold retrieve_file_term_block. rewrite Hg'. cbn [try_client]. rewrite result_bind_Ok, Eb', !result_bind_Ok.
  rewrite decide_False by (by intros ?). destruct fts0 as [|ft fts0]; [done|].
  assert (TermBlockRetrievalURLs.mk file_hash (FileRange.new s (Z.min e size)) (TermBlockRetrievalURLs.acquisition_id urls') (TermBlockRetrievalURLs.retrieval_urls urls') = urls') as ->.
  { rewrite Eu2 at 3. rewrite Eu2. cbn. by rewrite <- Hrange. }
  split_and!; [done|by rewrite Eu2| |done|done|done]. eapply Forall_impl; [exact Hall|]. by intros ? [].
Qed.
End Refreshed.
