(* ===== verification/Reconstructor.v ===== *)
(** * Reconstructing a file

    Model of the loop that downloads a file: [ReconstructionTermManager] of
    [xet_data/src/file_reconstruction/reconstruction_terms/manager.rs], which prefetches blocks of
    terms, [FileReconstructor::run_impl] of [file_reconstructor.rs], which schedules the data of their
    terms, and the sequential writer of [data_writer/sequential_writer.rs], which writes it in order.

    A run is a sequence of steps.  The main loop, the prefetch tasks, the tasks that fetch the data
    of terms and the writer thread take steps in any order, and each step is what happens between two
    points where others can interleave.  The rate estimate that decides how much to prefetch is a
    number that a step is given; the time and the identifiers of acquisitions are too.  A task ends in
    an error when a call of the client does.  A write or the final flush of the writer can fail, and a
    shutdown can be requested: these are the steps of [fault].  The download buffer is what the run sees
    of the shared semaphore, with the permits it holds itself; what the other downloads do to it are the
    steps of [others].  The progress reports are left out. *)

From Stdlib Require Import Sorted.
From coqutil Require Import Byte.
From stdpp Require Import base numbers gmap relations list.
From S2P Require Import Prelude DataHash AggregatedHash FileStructs Chunking XorbStructs ChunkFormat RawXorb XorbInfo XorbObject CasTypes ReconstructionRanges FileTerms.

#[local] Open Scope Z_scope.

(** ** Prefetching *)

Section Reconstruct.
  Context {E : Type} `{RC : ReconstructionClient E}.
  Context (file_hash : DataHash) (enable_multirange : bool) (chunk_cache : option XorbBlock.ChunkCacheGet).
  Context (min_fetch_size max_fetch_size : Z).

(** The terms of a block and their URLs; [None] is beyond the end of the file. *)
Definition FetchedTerms : Type := result (ReconstructionError E) (option (list FileTerm.t * TermBlockRetrievalURLs.t)).

(** A prefetch task: its range, and its result once it has run. *)
Record Task := mkTask { task_range : FileRange.t; task_result : option FetchedTerms }.

Record Manager := mkManager {
    requested_byte_range : FileRange.t;
    known_final_byte_position : Z;
    prefetched_byte_position : Z;
    current_active_byte_position : Z;
    prefetch_queue : list Task;
}.

Definition with_known_final (mg : Manager) (k : Z) : Manager :=
    mkManager (requested_byte_range mg) k (prefetched_byte_position mg) (current_active_byte_position mg) (prefetch_queue mg).
Definition with_queue (mg : Manager) (q : list Task) : Manager :=
    mkManager (requested_byte_range mg) (known_final_byte_position mg) (prefetched_byte_position mg) (current_active_byte_position mg) q.
Definition with_active (mg : Manager) (p : Z) : Manager :=
    mkManager (requested_byte_range mg) (known_final_byte_position mg) (prefetched_byte_position mg) p (prefetch_queue mg).

(** [Ord::clamp] *)
Definition clamp (x lo hi : Z) : Z := if x <? lo then lo else if hi <? x then hi else x.

(** [clamp] panics when its bounds are not in order. *)
Definition prefetch_block (mg : Manager) (block_size : Z) : result (ReconstructionError E) Manager :=
    if max_fetch_size <? min_fetch_size then Err ReconstructionPanic
    else
      let block_size := clamp block_size min_fetch_size max_fetch_size in
      let start := prefetched_byte_position mg in
      let end_ := wrap64 (start + block_size) in
      let last_byte_position := Z.min (known_final_byte_position mg) (FileRange.end_ (requested_byte_range mg)) in
      let end_ := if last_byte_position <? end_ then last_byte_position else end_ in
      let end_ := if FileRange.end_ (requested_byte_range mg) <? wrap64 (end_ + min_fetch_size)
                  then FileRange.end_ (requested_byte_range mg) else end_ in
      if end_ <=? start then Ok mg
      else Ok (mkManager (requested_byte_range mg) (known_final_byte_position mg) end_ (current_active_byte_position mg)
                 (prefetch_queue mg ++ [mkTask (FileRange.new start end_) None])).

Definition manager_new (file_byte_range : FileRange.t) : result (ReconstructionError E) Manager :=
    let s := mkManager file_byte_range (FileRange.end_ file_byte_range) (FileRange.start file_byte_range) (FileRange.start file_byte_range) [] in
    let initial_fetch_size := min_fetch_size in
    s ← prefetch_block s initial_fetch_size;
    prefetch_block s (wrap64 (2 * initial_fetch_size)).

Definition is_done_fetching (mg : Manager) : bool := known_final_byte_position mg <=? prefetched_byte_position mg.

(** The size of the block to prefetch, for a target size of the prefetch buffer. *)
Definition next_block_size (mg : Manager) (prefetch_buffer_size : Z) : option Z :=
    let current_prefetch_buffer_size := wrap64 (prefetched_byte_position mg - current_active_byte_position mg) in
    if negb (match prefetch_queue mg with [] => true | _ => false end) && (prefetch_buffer_size <=? current_prefetch_buffer_size) then None
    else
      let next_prefetch_target_block_size := Z.max 0 (prefetch_buffer_size - current_prefetch_buffer_size) in
      Some (clamp next_prefetch_target_block_size min_fetch_size (Z.max max_fetch_size min_fetch_size)).

(** The body of a prefetch task: its result, and the known end of the file afterwards. *)
Definition run_task (now acquisition_id : Z) (range : FileRange.t) (known_final : Z) : FetchedTerms * Z :=
    match retrieve_file_term_block enable_multirange now acquisition_id file_hash range with
    | Ok (Some (returned_range, _, file_terms, urls)) =>
        (Ok (Some (file_terms, urls)), if FileRange.end_ returned_range <? FileRange.end_ range then FileRange.end_ returned_range else known_final)
    | Ok None => (Ok None, Z.min known_final (FileRange.start range))
    | Err e => (Err e, known_final)
    end.

(** ** The run *)

(** The channel from the task that fetches data to the writer: the task is running, it sent the data,
    or it failed and dropped the sender; [stored] is set once the error is in the run state. *)
Inductive Slot :=
  | Pending
  | Ready (d : list byte)
  | Dropped (e : ReconstructionError E) (stored : bool).

(** [SequentialRetrievalItem]: the range in the output, the term, the receiver, and the permits of the
    download buffer that are given back once it is written. *)
Record WriteItem := mkItem {
    item_range : FileRange.t;
    item_term : FileTerm.t;
    item_urls : TermBlockRetrievalURLs.t;
    item_slot : Slot;
    item_permit : Z;
}.

Fixpoint permits (q : list WriteItem) : Z := match q with [] => 0 | it :: q' => item_permit it + permits q' end.

(** The writer thread: at work, returned with an error, gone, its error stored, or ended after it has
    written and flushed everything. *)
Inductive Writer := Writing | Returned (e : ReconstructionError E) | Gone | Flushed.

(** The download buffer: how many bytes a permit stands for, the total number of permits, and those that
    no holder and no earlier request has claimed. *)
Record Buffer := mkBuffer { basis : Z; total_permits : Z; free_permits : Z }.

Definition div_ceil (a b : Z) : Z := (a + b - 1) / b.

(** [to_physical_acquire] *)
Definition physical_request (b : Buffer) (n : Z) : Z := clamp (div_ceil n (basis b)) 1 (Z.max (total_permits b) 1).

Definition give_back (b : Buffer) (n : Z) : Buffer := mkBuffer (basis b) (total_permits b) (free_permits b + n).

(** [AdjustableSemaphorePermit::split] on the permit a run starts with: what is split off, and what is left. *)
Definition split_seed (b : Buffer) (seed : option Z) (n : Z) : option (Z * Z) :=
    let physical_n := div_ceil n (basis b) in
    match seed with
    | Some k => if (k <? physical_n) || (physical_n <=? 0) then None else Some (physical_n, k - physical_n)
    | None => None
    end.

(** Where the main loop is. *)
Inductive PC :=
  | Looping
  | Prefetching (block_size : Z)
  | Popping
  | Joining (t : Task)
  | Scheduling (fts : list FileTerm.t) (urls : TermBlockRetrievalURLs.t)
  | Acquiring (n : Z) (ft : FileTerm.t) (fts : list FileTerm.t) (urls : TermBlockRetrievalURLs.t)
  | Finishing
  | Finished (bytes : Z)
  | Failed (e : ReconstructionError E)
  | Cancelled.

Record Run := mkRun {
    manager : Manager;
    pc : PC;
    next_position : Z;
    write_queue : list WriteItem;
    writer : Writer;
    output : list byte;
    stored_error : option (ReconstructionError E);
    total_bytes_scheduled : Z;
    buffer : Buffer;
    seed_buffer_permit : option Z;
}.

Definition with_manager (st : Run) (mg : Manager) (p : PC) : Run :=
    mkRun mg p (next_position st) (write_queue st) (writer st) (output st) (stored_error st) (total_bytes_scheduled st)
      (buffer st) (seed_buffer_permit st).
Definition with_pc (st : Run) (p : PC) : Run := with_manager st (manager st) p.
Definition with_items (st : Run) (q : list WriteItem) (out : list byte) : Run :=
    mkRun (manager st) (pc st) (next_position st) q (writer st) out (stored_error st) (total_bytes_scheduled st)
      (buffer st) (seed_buffer_permit st).
Definition with_writer (st : Run) (w : Writer) : Run :=
    mkRun (manager st) (pc st) (next_position st) (write_queue st) w (output st) (stored_error st) (total_bytes_scheduled st)
      (buffer st) (seed_buffer_permit st).
Definition with_buffer (st : Run) (b : Buffer) (seed : option Z) : Run :=
    mkRun (manager st) (pc st) (next_position st) (write_queue st) (writer st) (output st) (stored_error st) (total_bytes_scheduled st)
      b seed.

(** The writer thread returns an error: the items that it has not written are dropped, with their permits. *)
Definition stop_writer (st : Run) (e : ReconstructionError E) : Run :=
    with_buffer (with_writer st (Returned e)) (give_back (buffer st) (permits (write_queue st))) (seed_buffer_permit st).

(** The error of the run state, when there is one. *)
Definition error_or (o : option (ReconstructionError E)) (e : ReconstructionError E) : ReconstructionError E := match o with Some e0 => e0 | None => e end.

(** [RunState::set_error]: the first error is kept. *)
Definition set_error (st : Run) (e : ReconstructionError E) : Run :=
    mkRun (manager st) (pc st) (next_position st) (write_queue st) (writer st) (output st)
      (Some (error_or (stored_error st) e)) (total_bytes_scheduled st) (buffer st) (seed_buffer_permit st).

Definition running (p : PC) : bool := match p with Finished _ | Failed _ | Cancelled => false | _ => true end.

Definition relative (st : Run) (range : FileRange.t) : FileRange.t :=
    let range_start_offset := FileRange.start (requested_byte_range (manager st)) in
    FileRange.new (wrap64 (FileRange.start range - range_start_offset)) (wrap64 (FileRange.end_ range - range_start_offset)).

Definition term_size (ft : FileTerm.t) : Z := wrap64 (FileRange.end_ (FileTerm.byte_range ft) - FileRange.start (FileTerm.byte_range ft)).

(** [set_next_term_data_source] on a term, whose range is taken relative to the requested one, with its
    permits. *)
Definition schedule_term (st : Run) (permit : Z) (ft : FileTerm.t) (fts : list FileTerm.t) (urls : TermBlockRetrievalURLs.t) : Run :=
    let byte_range := relative st (FileTerm.byte_range ft) in
    if negb (FileRange.start byte_range =? next_position st) then with_pc st (Failed InternalWriterError)
    else match writer st with
         | Writing =>
             mkRun (manager st) (Scheduling fts urls) (FileRange.end_ byte_range) (write_queue st ++ [mkItem byte_range ft urls Pending permit])
               (writer st) (output st) (stored_error st) (wrap64 (total_bytes_scheduled st + term_size ft)) (buffer st) (seed_buffer_permit st)
         | _ => with_pc st (Failed (error_or (stored_error st) InternalWriterError))
         end.

(** The task that fetches the data of an item. *)
Definition fetch_item (now : Z) (it : WriteItem) : result (ReconstructionError E) (list byte) :=
    let expected_size := wrap64 (FileRange.end_ (item_range it) - FileRange.start (item_range it)) in
    data ← get_data now chunk_cache (item_urls it) (item_term it);
    if Z.of_nat (length data) =? expected_size then Ok data else Err InternalWriterError.

Definition with_slot (it : WriteItem) (slot : Slot) : WriteItem := mkItem (item_range it) (item_term it) (item_urls it) slot (item_permit it).

(** [byte_range.end] of the last term of a block. *)
Definition block_end (fts : list FileTerm.t) : Z := from_option (fun t => FileRange.end_ (FileTerm.byte_range t)) 0 (last fts).

(** [finish], once the writer thread has ended: the bytes written and those expected agree. *)
Definition finish (st : Run) : PC :=
    if Z.of_nat (length (output st)) =? next_position st then Finished (total_bytes_scheduled st) else Failed InternalWriterError.

(** Where the results of ended data tasks are looked at. *)
Definition joins (p : PC) : bool := match p with Finishing | Scheduling (_ :: _) _ | Acquiring _ _ _ _ => true | _ => false end.

Inductive step : Run -> Run -> Prop :=
  (* the main loop *)
  | step_done_fetching st : pc st = Looping -> is_done_fetching (manager st) = true -> step st (with_pc st Popping)
  | step_enough st b : pc st = Looping -> is_done_fetching (manager st) = false -> next_block_size (manager st) b = None ->
      step st (with_pc st Popping)
  | step_more st b n : pc st = Looping -> is_done_fetching (manager st) = false -> next_block_size (manager st) b = Some n ->
      step st (with_pc st (Prefetching n))
  | step_prefetch st n mg : pc st = Prefetching n -> prefetch_block (manager st) n = Ok mg -> step st (with_manager st mg Popping)
  | step_prefetch_fails st n e : pc st = Prefetching n -> prefetch_block (manager st) n = Err e -> step st (with_pc st (Failed e))
  | step_pop st t q : pc st = Popping -> prefetch_queue (manager st) = t :: q ->
      step st (with_manager st (with_queue (manager st) q) (Joining t))
  | step_pop_empty st : pc st = Popping -> prefetch_queue (manager st) = [] -> step st (with_pc st Finishing)
  | step_join st range fts urls : pc st = Joining (mkTask range (Some (Ok (Some (fts, urls))))) ->
      step st (with_manager st (with_active (manager st) (block_end fts)) (Scheduling fts urls))
  | step_join_end st range : pc st = Joining (mkTask range (Some (Ok None))) ->
      step st (with_manager st (with_known_final (manager st) (prefetched_byte_position (manager st))) Finishing)
  | step_join_fails st range e : pc st = Joining (mkTask range (Some (Err e))) -> step st (with_pc st (Failed e))
  | step_split st ft fts urls n k : pc st = Scheduling (ft :: fts) urls -> split_seed (buffer st) (seed_buffer_permit st) (term_size ft) = Some (n, k) ->
      step st (schedule_term (with_buffer st (buffer st) (Some k)) n ft fts urls)
  | step_request st ft fts urls : pc st = Scheduling (ft :: fts) urls -> split_seed (buffer st) (seed_buffer_permit st) (term_size ft) = None ->
      step st (with_pc (with_buffer st (give_back (buffer st) (from_option id 0 (seed_buffer_permit st))) None)
                 (Acquiring (physical_request (buffer st) (term_size ft)) ft fts urls))
  | step_acquire st n ft fts urls : pc st = Acquiring n ft fts urls -> n <= free_permits (buffer st) ->
      step st (schedule_term (with_buffer st (give_back (buffer st) (- n)) (seed_buffer_permit st)) n ft fts urls)
  | step_scheduled st urls : pc st = Scheduling [] urls -> step st (with_pc st Looping)
  | step_finish st : pc st = Finishing -> write_queue st = [] -> writer st = Flushed -> stored_error st = None ->
      step st (with_pc st (finish st))
  | step_finish_closed st e : pc st = Finishing -> writer st = Returned e -> step st (with_pc st (Failed (error_or (stored_error st) InternalWriterError)))
  | step_join_failed st i it e b : joins (pc st) = true -> write_queue st !! i = Some it -> item_slot it = Dropped e b ->
      step st (with_pc st (Failed e))
  (* the prefetch tasks *)
  | step_task st now id i range res k : prefetch_queue (manager st) !! i = Some (mkTask range None) ->
      run_task now id range (known_final_byte_position (manager st)) = (res, k) ->
      step st (with_manager st (with_known_final (with_queue (manager st) (<[i := mkTask range (Some res)]> (prefetch_queue (manager st)))) k) (pc st))
  | step_joined_task st now id range res k : pc st = Joining (mkTask range None) ->
      run_task now id range (known_final_byte_position (manager st)) = (res, k) ->
      step st (with_manager st (with_known_final (manager st) k) (Joining (mkTask range (Some res))))
  (* the tasks that fetch data *)
  | step_fetch st now i it d : write_queue st !! i = Some it -> item_slot it = Pending -> fetch_item now it = Ok d -> writer st = Writing ->
      step st (with_items st (<[i := with_slot it (Ready d)]> (write_queue st)) (output st))
  | step_fetch_closed st now i it d : write_queue st !! i = Some it -> item_slot it = Pending -> fetch_item now it = Ok d -> writer st <> Writing ->
      step st (with_items st (<[i := with_slot it (Dropped (error_or (stored_error st) InternalWriterError) false)]> (write_queue st)) (output st))
  | step_fetch_skips st i it e : write_queue st !! i = Some it -> item_slot it = Pending -> stored_error st = Some e ->
      step st (with_items st (<[i := with_slot it (Dropped e false)]> (write_queue st)) (output st))
  | step_fetch_fails st now i it e : write_queue st !! i = Some it -> item_slot it = Pending -> fetch_item now it = Err e ->
      step st (with_items st (<[i := with_slot it (Dropped e false)]> (write_queue st)) (output st))
  | step_store st i it e : write_queue st !! i = Some it -> item_slot it = Dropped e false ->
      step st (set_error (with_items st (<[i := with_slot it (Dropped e true)]> (write_queue st)) (output st)) e)
  (* the writer thread *)
  | step_write st it d q : writer st = Writing -> write_queue st = it :: q -> item_slot it = Ready d ->
      step st (with_buffer (with_items st q (output st ++ d)) (give_back (buffer st) (item_permit it)) (seed_buffer_permit st))
  | step_writer_fails st it e b q : writer st = Writing -> write_queue st = it :: q -> item_slot it = Dropped e b ->
      step st (stop_writer st (error_or (stored_error st) InternalWriterError))
  | step_writer_stores st e : writer st = Returned e -> step st (set_error (with_writer st Gone) e)
  | step_flush st : writer st = Writing -> pc st = Finishing -> write_queue st = [] -> step st (with_writer st Flushed)
  (* the checks for errors *)
  | step_fail st e : stored_error st = Some e -> running (pc st) = true -> step st (with_pc st (Failed e)).

(** What can go wrong in the writer thread: a write that fails after some of the bytes, the final flush, and
    a shutdown that it is told of between two writes. *)
Inductive fault : Run -> Run -> Prop :=
  | fault_write st it d q n : writer st = Writing -> write_queue st = it :: q -> item_slot it = Ready d ->
      fault st (stop_writer (with_items st (write_queue st) (output st ++ take n d)) IoError)
  | fault_flush st : writer st = Writing -> pc st = Finishing -> write_queue st = [] -> fault st (stop_writer st IoError)
  | fault_shutdown st : writer st = Writing -> fault st (stop_writer st RuntimeError).

(** The other downloads take and give back permits of the buffer, and its total is adjusted. *)
Inductive others : Run -> Run -> Prop :=
  | others_use st total free : others st (with_buffer st (mkBuffer (basis (buffer st)) total free) (seed_buffer_permit st)).

(** Cancellation from outside, seen at the next check, where a stored error comes first. *)
Inductive cancel : Run -> Run -> Prop :=
  | cancel_run st : running (pc st) = true -> stored_error st = None -> cancel st (with_pc st Cancelled).

(** A run starts with the buffer as it finds it, and with the permits by which the total was raised for it. *)
Definition start_run (mg : Manager) (b : Buffer) (seed : option Z) : Run := mkRun mg Looping 0 [] Writing [] None 0 b seed.

End Reconstruct.

(** ** The writer thread *)

Section WriterThread.
  Context {E : Type}.

(** What a turn of the vectored loop meets: a shutdown before anything else, or a call of [write_vectored]
    on the buffers, which writes a prefix of their bytes, of at most [n], is interrupted, or fails. *)
Inductive Written := Wrote (n : nat) | Interrupted | WriteFails | Shutdown.

(** What [write_all] of an item does, which can only fail before its last byte, and whether a shutdown is
    found after it. *)
Inductive ItemWritten := WroteAll | FailsAfter (n : nat) | ShutdownAfter.

Definition WRITEV_MAX_SLICE : nat := 24.

(** The removal of [remaining] written bytes from the pending writes. *)
Fixpoint pop_written (remaining : nat) (pending : list (list byte)) : list (list byte) :=
    match pending with
    | [] => []
    | front :: rest =>
        if Nat.eqb remaining 0 then pending
        else if Nat.leb (length front) remaining then pop_written (remaining - length front) rest
        else drop remaining front :: rest
    end.

Definition flush (flushes : bool) : result (ReconstructionError E) unit := if flushes then Ok tt else Err IoError.

(** The non-vectored loop on the data of the queue in order, up to the finish marker. *)
Fixpoint run (outcomes : nat -> ItemWritten) (flushes : bool) (items : list (list byte)) (out : list byte) :
    result (ReconstructionError E) unit * list byte :=
    match items with
    | [] => (flush flushes, out)
    | data :: items' =>
        let rest := run (fun i => outcomes (S i)) flushes items' (out ++ data) in
        match outcomes 0%nat with
        | WroteAll => rest
        | FailsAfter n => if Nat.ltb n (length data) then (Err IoError, out ++ take n data) else rest
        | ShutdownAfter => (Err RuntimeError, out ++ data)
        end
    end.

(** The writes of a turn of the vectored loop: at least one, and those that are ready. *)
Definition collect (ready : nat) (pending items : list (list byte)) : list (list byte) * list (list byte) :=
    let '(pending, items) := match pending with [] => (take 1 items, drop 1 items) | _ => (pending, items) end in
    (pending ++ take ready items, drop ready items).

(** The vectored loop on the same data.  A turn of the loop is given how many further items are ready, and
    what it meets; with no data left, the turn that finds the finish marker can still meet a shutdown. *)
Fixpoint run_vectorized (oracle : list (nat * Written)) (flushes : bool) (pending items : list (list byte)) (out : list byte) :
    option (result (ReconstructionError E) unit) * list byte * list (list byte) :=
    match pending ++ items with
    | [] => (Some match oracle with (_, Shutdown) :: _ => Err RuntimeError | _ => flush flushes end, out, [])
    | _ =>
        match oracle with
        | [] => (None, out, pending ++ items)
        | (ready, w) :: oracle' =>
            let '(pending, items) := collect ready pending items in
            let io_slices := take WRITEV_MAX_SLICE pending in
            match w with
            | Wrote n =>
                let written := Nat.min n (length (concat io_slices)) in
                if Nat.eqb written 0 then (Some (Err IoError), out, pending ++ items)
                else run_vectorized oracle' flushes (pop_written written pending) items (out ++ take written (concat io_slices))
            | Interrupted => run_vectorized oracle' flushes pending items out
            | WriteFails => (Some (Err IoError), out, pending ++ items)
            | Shutdown => (Some (Err RuntimeError), out, pending ++ items)
            end
        end
    end.

Lemma pop_written_concat n pending : (n <= length (concat pending))%nat -> concat (pop_written n pending) = drop n (concat pending).
Proof.
  revert n. induction pending as [|front rest IH]; intros n Hn; cbn in *; [by rewrite drop_nil|]. rewrite length_app in Hn.
  destruct (Nat.eqb_spec n 0) as [->|H0]; [by rewrite drop_0|]. destruct (Nat.leb_spec (length front) n).
  - rewrite IH by lia. by rewrite drop_app_ge.
  - cbn. rewrite drop_app_le by lia. done.
Qed.

Lemma pop_written_not_nil n pending : Forall (fun d => d <> []) pending -> Forall (fun d => d <> []) (pop_written n pending).
Proof.
  intros H. revert n. induction H as [|front rest Hf H IH]; intros n; cbn; [done|]. destruct (Nat.eqb_spec n 0); [by constructor|].
  destruct (Nat.leb_spec (length front) n); [by apply IH|]. constructor; [|done]. intros Hd%(f_equal length). rewrite length_drop in Hd. cbn in Hd. lia.
Qed.

Lemma concat_prefix_le {A} k (l : list (list A)) n : (n <= length (concat (take k l)))%nat -> take n (concat (take k l)) = take n (concat l).
Proof. intros H. rewrite <- (take_drop k l) at 2. rewrite concat_app, take_app_le by done. done. Qed.

Lemma run_vectorized_step ready w oracle flushes pending items out :
    pending ++ items <> [] ->
    run_vectorized ((ready, w) :: oracle) flushes pending items out =
    let '(pending, items) := collect ready pending items in
    match w with
    | Wrote n =>
        let written := Nat.min n (length (concat (take WRITEV_MAX_SLICE pending))) in
        if Nat.eqb written 0 then (Some (Err IoError), out, pending ++ items)
        else run_vectorized oracle flushes (pop_written written pending) items (out ++ take written (concat (take WRITEV_MAX_SLICE pending)))
    | Interrupted => run_vectorized oracle flushes pending items out
    | WriteFails => (Some (Err IoError), out, pending ++ items)
    | Shutdown => (Some (Err RuntimeError), out, pending ++ items)
    end.
Proof. cbn. by destruct (pending ++ items). Qed.

Lemma collect_ok ready pending items :
    pending ++ items <> [] ->
    (collect ready pending items).1 ++ (collect ready pending items).2 = pending ++ items /\ (collect ready pending items).1 <> [].
Proof.
  intros Hne. unfold collect. destruct pending as [|p pending].
  - destruct items as [|i items]; [done|]. cbn [take drop app fst snd]. rewrite take_0, drop_0. split; [|done]. cbn. by rewrite take_drop.
  - cbn. split; [|done]. f_equal. by rewrite <- app_assoc, take_drop.
Qed.

Lemma slices_not_nil (pending : list (list byte)) :
    Forall (fun d => d <> []) pending -> pending <> [] -> (0 < length (concat (take WRITEV_MAX_SLICE pending)))%nat.
Proof. intros [|d l Hd H]; [done|]. intros _. cbn. rewrite length_app. destruct d; [done|]. cbn. lia. Qed.

Lemma all_written_cons ready w (oracle : list (nat * Written)) :
    Forall (fun o => exists n, o.2 = Wrote (S n)) ((ready, w) :: oracle) -> exists n, w = Wrote (S n) /\ Forall (fun o => exists n, o.2 = Wrote (S n)) oracle.
Proof. intros [[n ?] ?]%Forall_cons. by exists n. Qed.

Lemma run_vectorized_ok oracle flushes pending items out :
    let '(r, out', rest) := run_vectorized oracle flushes pending items out in
    out' ++ concat rest = out ++ concat (pending ++ items) /\ (r = Some (Ok tt) -> rest = [] /\ flushes = true) /\
    (Forall (fun d => d <> []) (pending ++ items) -> Forall (fun o => exists n, o.2 = Wrote (S n)) oracle ->
     (length (concat (pending ++ items)) <= length oracle)%nat -> r = Some (flush flushes)).
Proof.
  revert pending items out. induction oracle as [|[ready w] oracle IH]; intros pending items out.
  - cbn. destruct (pending ++ items) as [|d l] eqn:Epi; cbn; [by destruct flushes|]. split_and!; [done|done|].
    intros [Hd _]%Forall_cons. destruct d; [done|cbn; lia].
  - destruct (decide (pending ++ items = [])) as [Hnil|Hne].
    { cbn. rewrite Hnil. split_and!; [done|destruct w, flushes; done|]. intros _ (n & -> & _)%all_written_cons. done. }
    rewrite run_vectorized_step by done. destruct (collect_ok ready pending items Hne) as [Hc Hp].
    destruct (collect ready pending items) as [pending' items'] eqn:Ec. cbn in Hc, Hp. rewrite <- Hc.
    destruct w as [n| | |].
    + cbn zeta. set (total := length (concat (take WRITEV_MAX_SLICE pending'))) in *. destruct (Nat.eqb_spec (Nat.min n total) 0) as [H0|H0].
      * split_and!; [done|done|]. intros [Hpn _]%Forall_app (m & [= ->] & _)%all_written_cons. pose proof (slices_not_nil _ Hpn Hp). unfold total in H0. lia.
      * set (k := Nat.min n total) in *.
        assert (k <= length (concat pending'))%nat as Hk.
        { rewrite <- (take_drop WRITEV_MAX_SLICE pending'), concat_app, length_app. unfold k, total. lia. }
        specialize (IH (pop_written k pending') items' (out ++ take k (concat (take WRITEV_MAX_SLICE pending')))).
        destruct (run_vectorized _ _ _ _ _) as [[r out'] rest]. destruct IH as (H1 & H2 & H3). split_and!; [|done|].
        -- rewrite H1, <- app_assoc. f_equal. rewrite !concat_app, pop_written_concat by done. rewrite concat_prefix_le by (unfold k, total; lia).
           by rewrite app_assoc, take_drop.
        -- intros [Hpn Hin]%Forall_app (_ & _ & Ho)%all_written_cons Hl. apply H3; [apply Forall_app; split; [by apply pop_written_not_nil|done]|done|].
           revert Hl. rewrite !concat_app, !length_app, pop_written_concat, length_drop by done. cbn. lia.
    + specialize (IH pending' items' out). destruct (run_vectorized _ _ _ _ _) as [[r out'] rest]. destruct IH as (H1 & H2 & _). split_and!; [done|done|].
      by intros _ (? & ? & _)%all_written_cons.
    + split_and!; [done|done|]. by intros _ (? & ? & _)%all_written_cons.
    + split_and!; [done|done|]. by intros _ (? & ? & _)%all_written_cons.
Qed.

Lemma run_ok outcomes flushes items out :
    let '(r, out') := run outcomes flushes items out in
    (exists k, out' = out ++ take k (concat items)) /\ (r = Ok tt -> out' = out ++ concat items /\ flushes = true) /\
    ((forall i, outcomes i = WroteAll) -> r = flush flushes).
Proof.
  revert outcomes out. induction items as [|d items IH]; intros outcomes out; cbn -[Nat.ltb].
  - split_and!; [exists 0%nat; by rewrite take_0, app_nil_r|by destruct flushes; rewrite app_nil_r|done].
  - specialize (IH (fun i => outcomes (S i)) (out ++ d)). destruct (run _ flushes items (out ++ d)) as [r out']. destruct IH as ((k & ->) & H2 & H3).
    rewrite <- !app_assoc in *. assert ((exists k', out ++ d ++ take k (concat items) = out ++ take k' (d ++ concat items)) /\
      (r = Ok tt -> out ++ d ++ take k (concat items) = out ++ d ++ concat items /\ flushes = true) /\
      ((forall i, outcomes i = WroteAll) -> r = flush flushes)) as Hrest.
    { split_and!; [|done|by auto]. exists (length d + k)%nat. by rewrite take_app_add. }
    destruct (outcomes 0%nat) as [|n|] eqn:E0; [done| |].
    + destruct (Nat.ltb_spec n (length d)); [|done]. split_and!; [|done|intros Hall; by rewrite Hall in E0].
      exists n. by rewrite take_app_le by lia.
    + split_and!; [|done|intros Hall; by rewrite Hall in E0]. exists (length d). by rewrite take_app_length.
Qed.

(** C32: The vectored writer and the plain one.  Whatever becomes ready when, however much each vectored
    write takes, wherever it is interrupted or fails, and whether a shutdown comes between, what the
    vectored loop has written followed by what it still holds is the data of the queue in order, and what
    the plain loop has written is a beginning of that data.  A loop that returns without an error has
    written all of it and flushed it, so that the two have written the same.  The plain loop returns
    without an error when no write, no flush and no shutdown gets in its way; the vectored one does too,
    within as many turns as there are bytes, when in addition no write takes nothing and no item is empty
    (an item with no bytes would make it fail, with [WriteZero]). *)
Theorem vectored_writer_writes_all oracle flushes outcomes flushes' items :
    let '(r, out, rest) := run_vectorized oracle flushes [] items [] in
    let '(r', out') := run outcomes flushes' items [] in
    out ++ concat rest = concat items /\ (exists k, out' = take k (concat items)) /\
    (r = Some (Ok tt) -> out = concat items /\ flushes = true) /\ (r' = Ok tt -> out' = concat items /\ flushes' = true) /\
    ((forall i, outcomes i = WroteAll) -> r' = flush flushes') /\
    (Forall (fun d => d <> []) items -> Forall (fun o => exists n, o.2 = Wrote (S n)) oracle ->
     (length (concat items) <= length oracle)%nat -> r = Some (flush flushes)).
Proof.
  pose proof (run_vectorized_ok oracle flushes [] items []) as H. destruct (run_vectorized _ _ _ _ _) as [[r out] rest].
  pose proof (run_ok outcomes flushes' items []) as H'. destruct (run _ _ _ _) as [r' out']. destruct H as (H1 & H2 & H3), H' as (H1' & H2' & H3').
  split_and!; try done. intros Hr. destruct (H2 Hr) as [-> ->]. cbn in H1. by rewrite app_nil_r in H1.
Qed.

(** An empty item makes the vectored writer fail with [WriteZero] where the plain one writes nothing. *)
Lemma vectored_writer_empty_item n :
    run_vectorized [(0%nat, Wrote n)] true [] [[]] [] = (Some (Err IoError), [], [[]]) /\ run (fun _ => WroteAll) true [[]] [] = (Ok tt, []).
Proof. cbn. by rewrite Nat.min_0_r. Qed.

End WriterThread.

(** ** Correctness of a run *)

Section Correct.
  Context {E : Type} `{RC : ReconstructionClient E} (view : xorb_view) (file_hash : DataHash) (data : list byte).
  Hypothesis wf : view_wf view.
  Hypothesis served : serves view file_hash data.
  Context (enable_multirange : bool) (chunk_cache : option XorbBlock.ChunkCacheGet).
  Hypothesis cached : cache_ok view chunk_cache.
  Hypothesis cache_single : chunk_cache = None \/ enable_multirange = false.
  Context (min_fetch max_fetch : Z).
  Hypothesis fetch_sizes : 0 < min_fetch <= max_fetch.
  Context (s e : Z).
  Hypothesis range_ordered : 0 <= s <= e.
  Hypothesis end_fits : e < 2 ^ 64.

Let size := Z.of_nat (length data).
(** Where fetching can get to, and the length of a prefetched block. *)
Let far := Z.max s size.
Let block_max := max_fetch + min_fetch.
  Hypothesis fits : far + 5 * block_max < 2 ^ 64.
  (* whether the writer can fail, and whether there are other downloads *)
  Context (faults shared : bool).

Notation prefetch := (prefetch_block (E := E) min_fetch max_fetch).
Notation Step := (step file_hash enable_multirange chunk_cache min_fetch max_fetch).

(** How much of the range lies before [p] in the file: the position up to which terms are scheduled. *)
Definition upto (p : Z) : Z := Z.max s (Z.min p size).

Definition block_terms (a b : Z) (fts : list FileTerm.t) (urls : TermBlockRetrievalURLs.t) : Prop :=
    contiguous a (FileTerm.byte_range <$> fts) b /\ Forall (term_right data chunk_cache urls) fts.

(** The error of a call of the client that failed. *)
Definition client_error (err : ReconstructionError E) : Prop := exists c, err = ClientCall c /\ client_failed c.

Definition fetched_ok (range : FileRange.t) (res : FetchedTerms) : Prop :=
    match res with
    | Ok None => size <= FileRange.start range
    | Ok (Some (fts, urls)) => FileRange.start range <= far /\ block_terms (upto (FileRange.start range)) (upto (FileRange.end_ range)) fts urls
    | Err err => client_error err
    end.

Definition task_good (t : Task) : Prop :=
    s <= FileRange.start (task_range t) < FileRange.end_ (task_range t) /\ FileRange.end_ (task_range t) <= e /\
    FileRange.end_ (task_range t) - FileRange.start (task_range t) <= block_max /\
    forall res, task_result t = Some res -> fetched_ok (task_range t) res.

(** The ranges of the queued tasks follow each other. *)
Definition queue_ok (p : Z) (mg : Manager (E := E)) : Prop :=
    contiguous p (task_range <$> prefetch_queue mg) (prefetched_byte_position mg) /\ Forall task_good (prefetch_queue mg).

(** The state of the loop, for the position [pos] up to which terms are scheduled, and [p], where the
    queued blocks start. *)
Definition pc_ok (mg : Manager (E := E)) (p pos : Z) (c : PC (E := E)) : Prop :=
    match c with
    | Looping => pos = upto p /\ p <= far + block_max /\ (length (prefetch_queue mg) <= 2)%nat
    | Prefetching n =>
        pos = upto p /\ p <= far + block_max /\ (length (prefetch_queue mg) <= 2)%nat /\ min_fetch <= n <= max_fetch /\
        (prefetch_queue mg = [] -> prefetched_byte_position mg < known_final_byte_position mg)
    | Popping =>
        pos = upto p /\ p <= far + block_max /\ (length (prefetch_queue mg) <= 3)%nat /\
        (prefetch_queue mg = [] -> known_final_byte_position mg <= prefetched_byte_position mg)
    | Joining t => pos = upto (FileRange.start (task_range t)) /\ task_good t /\ FileRange.end_ (task_range t) = p /\ (length (prefetch_queue mg) <= 2)%nat
    | Scheduling fts urls => block_terms pos (upto p) fts urls /\ p <= far + block_max /\ (length (prefetch_queue mg) <= 2)%nat
    | Acquiring _ ft fts urls => block_terms pos (upto p) (ft :: fts) urls /\ p <= far + block_max /\ (length (prefetch_queue mg) <= 2)%nat
    | Finishing | Finished _ => pos = upto e
    | Failed _ | Cancelled => True
    end.

Record loop_inv (mg : Manager (E := E)) (pos : Z) (c : PC (E := E)) : Prop := {
    inv_requested : requested_byte_range mg = FileRange.new s e;
    inv_final : Z.min e size <= known_final_byte_position mg <= e;
    inv_active : 0 <= current_active_byte_position mg <= prefetched_byte_position mg;
    inv_prefetched : prefetched_byte_position mg <= far + 4 * block_max;
    inv_queue : exists p, s <= p <= e /\ queue_ok p mg /\ pc_ok mg p pos c;
}.

Definition slot_ok (it : WriteItem (E := E)) : Prop :=
    match item_slot it with
    | Pending => True
    | Ready d => d = data ⟦Z.to_nat (FileRange.start (FileTerm.byte_range (item_term it))), Z.to_nat (FileRange.end_ (FileTerm.byte_range (item_term it)))⟧
    | Dropped _ _ => True
    end.

Definition item_good (it : WriteItem (E := E)) : Prop :=
    item_range it = FileRange.new (FileRange.start (FileTerm.byte_range (item_term it)) - s) (FileRange.end_ (FileTerm.byte_range (item_term it)) - s) /\
    s <= FileRange.start (FileTerm.byte_range (item_term it)) /\
    term_right data chunk_cache (item_urls it) (item_term it) /\ slot_ok it.

Definition past_loop (c : PC (E := E)) : bool := match c with Finishing => true | _ => negb (running c) end.

(** What is written, followed by what is scheduled, is the file from the start of the range on. *)
Record items_inv (st : Run (E := E)) : Prop := {
    inv_output : output st = data ⟦Z.to_nat s, (Z.to_nat s + length (output st))%nat⟧;
    inv_items : writer st = Writing \/ writer st = Flushed -> contiguous (Z.of_nat (length (output st))) (item_range <$> write_queue st) (next_position st);
    inv_good : Forall item_good (write_queue st);
    inv_next : 0 <= next_position st /\ s + next_position st <= far;
    inv_total : total_bytes_scheduled st = next_position st;
    inv_finished : forall n, pc st = Finished n -> writer st = Flushed /\ n = next_position st;
    inv_flushed : writer st = Flushed -> write_queue st = [] /\ past_loop (pc st) = true;
    inv_acquiring : forall n ft fts urls, pc st = Acquiring n ft fts urls -> seed_buffer_permit st = None;
}.

(** A client error was lost by a task that failed. *)
Definition lost (q : list (WriteItem (E := E))) : Prop := exists it c b, it ∈ q /\ item_slot it = Dropped (ClientCall c) b.

Definition cause (q : list (WriteItem (E := E))) : Prop := lost q \/ faults = true.

(** The errors of a run: of a call of the client, of the writer, and the one that stands in for them. *)
Definition error_ok (q : list (WriteItem (E := E))) (err : ReconstructionError E) : Prop :=
    client_error err \/ (err = InternalWriterError /\ lost q) \/
    (faults = true /\ (err = IoError \/ err = RuntimeError \/ err = InternalWriterError)).

Record errors_inv (st : Run (E := E)) : Prop := {
    inv_stored : forall err, stored_error st = Some err -> error_ok (write_queue st) err /\ cause (write_queue st);
    inv_failed : forall err, pc st = Failed err -> error_ok (write_queue st) err;
    inv_writer : match writer st with
                 | Writing | Flushed => True
                 | Returned err => error_ok (write_queue st) err /\ cause (write_queue st)
                 | Gone => stored_error st <> None
                 end;
    inv_dropped : forall it err b, it ∈ write_queue st -> item_slot it = Dropped err b -> error_ok (write_queue st) err /\ (b = true -> stored_error st <> None);
}.

Record inv (st : Run (E := E)) : Prop := {
    inv_loop : loop_inv (manager st) (s + next_position st) (pc st);
    inv_written : items_inv st;
    inv_errors : errors_inv st;
}.

(** *** The manager *)

Lemma upto_bounds p : s <= upto p <= far.
Proof. unfold upto, far. lia. Qed.

Lemma queue_length p mg : queue_ok p mg -> p <= prefetched_byte_position mg <= p + Z.of_nat (length (prefetch_queue mg)) * block_max.
Proof.
  unfold queue_ok. intros [Hc Hg]. revert p Hc. induction Hg as [|t q Ht Hg IH]; intros p Hc; cbn in *; [lia|].
  destruct Hc as [<- Hc]. apply IH in Hc. destruct Ht as (? & ? & ? & _). unfold block_max in *. lia.
Qed.

Lemma queue_at_most p mg n :
    queue_ok p mg -> (length (prefetch_queue mg) <= n)%nat -> prefetched_byte_position mg <= p + Z.of_nat n * block_max.
Proof.
  intros Hq Hn. apply queue_length in Hq. assert (Z.of_nat (length (prefetch_queue mg)) * block_max <= Z.of_nat n * block_max); [|lia].
  apply Z.mul_le_mono_nonneg_r; [unfold block_max; lia|lia].
Qed.

Lemma queue_end p mg : p <= e -> queue_ok p mg -> prefetched_byte_position mg <= e.
Proof.
  unfold queue_ok. intros Hp [Hc Hg]. revert p Hp Hc. induction Hg as [|t q Ht Hg IH]; intros p Hp Hc; cbn in *; [lia|].
  destruct Hc as [<- Hc]. eapply IH; [|exact Hc]. destruct Ht as (? & ? & _). lia.
Qed.

Lemma retrieved_ok range now id :
    s <= FileRange.start range < FileRange.end_ range -> FileRange.end_ range <= e ->
    forall k res k', run_task file_hash enable_multirange now id range k = (res, k') ->
    Z.min e size <= k <= e -> fetched_ok range res /\ Z.min e size <= k' <= e.
Proof.
  intros Hr He k res k' Hrun Hk. unfold run_task in Hrun. destruct range as [a b]. cbn in *.
  assert (size < 2 ^ 64) as Hsz by (unfold far, block_max in *; lia).
  pose proof (retrieve_block_ok view file_hash data wf served Hsz enable_multirange chunk_cache cached cache_single a b now id ltac:(lia) ltac:(lia)) as H.
  destruct (retrieve_file_term_block _ _ _ _ _) as [[[[[range tr] fts] urls]|]|err] eqn:Eret; injection Hrun as <- <-; cbn.
  - destruct H as [(Hs & -> & Hc & _ & Hright)|(Hs & -> & -> & ->)]; cbn.
    + split; [|destruct (Z.ltb_spec (Z.min b (Z.of_nat (length data))) b); lia]. split; [unfold far; lia|]. unfold block_terms, upto.
      replace (Z.max s (Z.min a size)) with a by lia. replace (Z.max s (Z.min b size)) with (Z.min b size) by lia. split; [done|].
      eapply Forall_impl; [exact Hright|]. cbn. tauto.
    + split; [|rewrite (proj2 (Z.ltb_lt 0 b)) by lia; lia]. split; [unfold far; lia|]. unfold block_terms, upto. cbn. split; [|done]. lia.
  - lia.
  - split; [|lia]. destruct err as [c| | | | |]; try done. exists c. split; [done|].
    by apply (retrieve_block_failed view file_hash data wf served Hsz enable_multirange chunk_cache cached cache_single a b now id); [lia|lia|].
Qed.

Lemma contiguous_snoc a l b c : contiguous a l b -> contiguous a (l ++ [FileRange.new b c]) c.
Proof. intros H. apply contiguous_app. exists b. done. Qed.

(** Prefetching appends at most one block to the queue, and at least one when the end is not reached. *)
Lemma prefetch_ok mg p n :
    requested_byte_range mg = FileRange.new s e -> 0 <= known_final_byte_position mg <= e -> s <= p <= e -> queue_ok p mg ->
    prefetched_byte_position mg <= far + 3 * block_max ->
    exists mg', prefetch mg n = Ok mg' /\ requested_byte_range mg' = requested_byte_range mg /\
      known_final_byte_position mg' = known_final_byte_position mg /\ current_active_byte_position mg' = current_active_byte_position mg /\
      prefetched_byte_position mg <= prefetched_byte_position mg' <= prefetched_byte_position mg + block_max /\
      queue_ok p mg' /\ (length (prefetch_queue mg') <= S (length (prefetch_queue mg)))%nat /\
      (prefetch_queue mg' = [] -> known_final_byte_position mg <= prefetched_byte_position mg').
Proof.
  intros Hreq Hkf Hp Hq Hpre. pose proof (queue_end _ _ (proj2 Hp) Hq) as Hend. pose proof (queue_length _ _ Hq) as Hlen.
  unfold prefetch_block. rewrite Hreq. rewrite (proj2 (Z.ltb_ge max_fetch min_fetch)) by lia. cbn [FileRange.end_].
  set (bs := clamp n min_fetch max_fetch). assert (min_fetch <= bs <= max_fetch) as Hbs.
  { unfold bs, clamp. destruct (Z.ltb_spec n min_fetch); [lia|]. destruct (Z.ltb_spec max_fetch n); lia. }
  set (q := prefetched_byte_position mg) in *. set (kf := known_final_byte_position mg) in *. unfold block_max in *.
  assert (size <= far) as Hfar by (unfold far; lia). rewrite (wrap64_small (q + bs)) by (unfold is_u64; lia).
  replace (Z.min kf e) with kf by lia.
  set (end1 := if kf <? q + bs then kf else q + bs).
  assert (end1 = Z.min kf (q + bs)) as -> by (unfold end1; destruct (Z.ltb_spec kf (q + bs)); lia).
  rewrite (wrap64_small (Z.min kf (q + bs) + min_fetch)) by (unfold is_u64; lia).
  set (end2 := if e <? Z.min kf (q + bs) + min_fetch then e else Z.min kf (q + bs)).
  assert (end2 <= e /\ (kf <= q \/ q < end2) /\ end2 - q <= max_fetch + min_fetch) as (H1 & H2 & H3).
  { unfold end2. destruct (Z.ltb_spec e (Z.min kf (q + bs) + min_fetch)); lia. }
  destruct (Z.leb_spec end2 q).
  - eexists. split; [done|]. split_and!; try done; lia.
  - eexists. split; [done|]. cbn. split_and!; try done; [lia..| |rewrite length_app; cbn; lia|by destruct (prefetch_queue mg)].
    destruct Hq as [Hc Hg]. split; cbn.
    + rewrite fmap_app. by apply contiguous_snoc.
    + apply Forall_app. split; [done|]. constructor; [|done]. unfold task_good, block_max. cbn. split_and!; try lia. done.
Qed.

(** *** The loop *)

Lemma loop_done mg pos : loop_inv mg pos Looping -> is_done_fetching mg = true -> loop_inv mg pos Popping.
Proof.
  intros [H1 H2 H3 H4 (p & Hp & Hq & Hpos & Hfar & Hl)] Hd%Z.leb_le. constructor; try done. exists p. cbn. split_and!; try done; lia.
Qed.

Lemma loop_enough mg pos b : loop_inv mg pos Looping -> next_block_size min_fetch max_fetch mg b = None -> loop_inv mg pos Popping.
Proof.
  intros [H1 H2 H3 H4 (p & Hp & Hq & Hpos & Hfar & Hl)] Hb. constructor; try done. exists p. cbn. split_and!; try done; try lia.
  intros Hnil. unfold next_block_size in Hb. by rewrite Hnil in Hb.
Qed.

Lemma loop_more mg pos b n :
    loop_inv mg pos Looping -> is_done_fetching mg = false -> next_block_size min_fetch max_fetch mg b = Some n -> loop_inv mg pos (Prefetching n).
Proof.
  intros [H1 H2 H3 H4 (p & Hp & Hq & Hpos & Hfar & Hl)] Hd%Z.leb_gt Hb. constructor; try done. exists p. cbn. split_and!; try done.
  all: unfold next_block_size in Hb; destruct (negb _ && _); [done|]; injection Hb as <-; unfold clamp.
  all: destruct (Z.ltb_spec (Z.max 0 (b - wrap64 (prefetched_byte_position mg - current_active_byte_position mg))) min_fetch); [lia|].
  all: destruct (Z.ltb_spec (Z.max max_fetch min_fetch) (Z.max 0 (b - wrap64 (prefetched_byte_position mg - current_active_byte_position mg)))); lia.
Qed.

Lemma loop_prefetch mg pos n :
    loop_inv mg pos (Prefetching n) -> exists mg', prefetch mg n = Ok mg' /\ loop_inv mg' pos Popping.
Proof.
  intros [H1 H2 H3 H4 (p & Hp & Hq & Hpos & Hfar & Hl & Hn & Hnil)]. pose proof (queue_at_most _ _ _ Hq Hl) as Hlen.
  destruct (prefetch_ok mg p n) as (mg' & E1 & E2 & E3 & E4 & E5 & E6 & E7 & E8); [done|lia|done|done|lia|].
  exists mg'. split; [done|]. constructor; [congruence|lia|lia|lia|]. exists p. split; [done|]. split; [done|]. cbn. split_and!; try done; try lia.
Qed.

Lemma loop_pop mg pos t q : loop_inv mg pos Popping -> prefetch_queue mg = t :: q -> loop_inv (with_queue mg q) pos (Joining t).
Proof.
  intros [H1 H2 H3 H4 (p & Hp & [Hc Hg] & Hpos & Hfar & Hl & _)] Hq. rewrite Hq in *. cbn in Hc. destruct Hc as [<- Hc].
  apply Forall_cons in Hg as [Ht Hg]. pose proof Ht as (? & ? & _). constructor; try done. exists (FileRange.end_ (task_range t)). cbn in *. split_and!; try done; lia.
Qed.

Lemma loop_pop_empty mg pos : loop_inv mg pos Popping -> prefetch_queue mg = [] -> loop_inv mg pos Finishing.
Proof.
  intros [H1 H2 H3 H4 (p & Hp & [Hc Hg] & Hpos & Hfar & Hl & Hnil)] Hq. specialize (Hnil Hq). constructor; try done. exists p. split; [done|].
  split; [done|]. cbn. rewrite Hq in Hc. cbn in Hc. rewrite Hpos. unfold upto. lia.
Qed.

Lemma contiguous_le a l b : Forall (fun r => FileRange.start r <= FileRange.end_ r) l -> contiguous a l b -> a <= b.
Proof. intros H. revert a. induction H as [|r l Hr H IH]; intros a; cbn; [lia|]. intros [<- Hc%IH]. lia. Qed.

Lemma contiguous_end a l b x : contiguous a l b -> last l = Some x -> FileRange.end_ x = b.
Proof. revert a. induction l as [|r l IH]; intros a; [done|]. cbn. intros [_ Hc] Hx. destruct l; [|by eapply IH]. injection Hx as <-. done. Qed.

Lemma block_end_ok a b fts urls : 0 <= b -> block_terms a b fts urls -> 0 <= block_end fts <= b.
Proof.
  intros Hb [Hc _]. unfold block_end. destruct (last fts) as [ft|] eqn:El; cbn; [|lia].
  assert (FileRange.end_ (FileTerm.byte_range ft) = b) as -> by (eapply contiguous_end; [exact Hc|]; by rewrite fmap_last, El). lia.
Qed.

Lemma upto_le p : s <= p -> upto p <= p.
Proof. unfold upto. lia. Qed.

Lemma loop_join mg pos range fts urls :
    loop_inv mg pos (Joining (mkTask range (Some (Ok (Some (fts, urls)))))) -> loop_inv (with_active mg (block_end fts)) pos (Scheduling fts urls).
Proof.
  intros [H1 H2 H3 H4 (p & Hp & Hq & Hpos & Ht & He & Hl)]. destruct Ht as (Hr & Hre & Hlen & Hres). specialize (Hres _ eq_refl) as [Hfar Hb]. cbn in *.
  pose proof (queue_length _ _ Hq) as Hlen'. subst p pos. constructor; try done; cbn.
  - pose proof (block_end_ok _ (upto (FileRange.end_ range)) _ _ ltac:(unfold upto; lia) Hb). pose proof (upto_le (FileRange.end_ range) ltac:(lia)). lia.
  - exists (FileRange.end_ range). cbn. split_and!; try done; unfold far, block_max, size in *; lia.
Qed.

Lemma loop_join_end mg pos range :
    loop_inv mg pos (Joining (mkTask range (Some (Ok None)))) -> loop_inv (with_known_final mg (prefetched_byte_position mg)) pos Finishing.
Proof.
  intros [H1 H2 H3 H4 (p & Hp & Hq & Hpos & Ht & He & Hl)]. destruct Ht as (Hr & Hre & Hlen & Hres). specialize (Hres _ eq_refl). cbn in *.
  pose proof (queue_length _ _ Hq). pose proof (queue_end _ _ (proj2 Hp) Hq). constructor; try done; cbn; [lia|].
  exists p. cbn. split_and!; try done; try lia. unfold upto in *. lia.
Qed.

Lemma loop_scheduled mg pos urls : loop_inv mg pos (Scheduling [] urls) -> loop_inv mg pos Looping.
Proof. intros [H1 H2 H3 H4 (p & Hp & Hq & [Hb _] & Hl)]. constructor; try done. by exists p. Qed.

Lemma loop_stop mg pos c c' : (forall p, pc_ok mg p pos c') -> loop_inv mg pos c -> loop_inv mg pos c'.
Proof. intros Hc [H1 H2 H3 H4 (p & Hp & Hq & _)]. constructor; try done. by exists p. Qed.

(** A prefetch task that completes. *)
Lemma pc_ok_final mg p pos c k q :
    length q = length (prefetch_queue mg) -> prefetch_queue mg <> [] -> pc_ok mg p pos c -> pc_ok (with_known_final (with_queue mg q) k) p pos c.
Proof. intros Hl Hne. assert (q <> []) by (destruct q; [by destruct (prefetch_queue mg)|done]). destruct c; cbn; rewrite ?Hl; naive_solver. Qed.

Lemma insert_task_range (q : list (Task (E := E))) i range r r' :
    q !! i = Some (mkTask range r) -> task_range <$> <[i := mkTask range r']> q = task_range <$> q.
Proof. intros H. rewrite list_fmap_insert. apply list_insert_id. by rewrite list_lookup_fmap, H. Qed.

Lemma loop_task mg pos c now id i range res k :
    loop_inv mg pos c -> prefetch_queue mg !! i = Some (mkTask range None) ->
    run_task file_hash enable_multirange now id range (known_final_byte_position mg) = (res, k) ->
    loop_inv (with_known_final (with_queue mg (<[i := mkTask range (Some res)]> (prefetch_queue mg))) k) pos c.
Proof.
  intros [H1 H2 H3 H4 (p & Hp & [Hc Hg] & Hpc)] Hi Hrun. pose proof (proj1 (Forall_lookup _ _) Hg _ _ Hi) as (Hr & Hre & Hlen & _). cbn in *.
  destruct (retrieved_ok range now id Hr Hre _ _ _ Hrun H2) as [Hf Hk]. constructor; try done. exists p. split; [done|]. split.
  - split; cbn; [by rewrite (insert_task_range _ _ _ _ _ Hi)|]. apply Forall_insert; [done|]. unfold task_good. cbn. split_and!; try done; try lia. by intros ? [= <-].
  - apply pc_ok_final; [by rewrite length_insert|intros Hnil; by rewrite Hnil in Hi|done].
Qed.

Lemma loop_joined_task mg pos now id range res k :
    loop_inv mg pos (Joining (mkTask range None)) ->
    run_task file_hash enable_multirange now id range (known_final_byte_position mg) = (res, k) ->
    loop_inv (with_known_final mg k) pos (Joining (mkTask range (Some res))).
Proof.
  intros [H1 H2 H3 H4 (p & Hp & Hq & Hpos & Ht & He & Hl)] Hrun. destruct Ht as (Hr & Hre & Hlen & _). cbn in *.
  destruct (retrieved_ok range now id Hr Hre _ _ _ Hrun H2) as [Hf Hk]. constructor; try done. exists p. cbn. unfold task_good. cbn. split_and!; try done; try lia. by intros ? [= <-].
Qed.

(** *** The data *)

(** The places of the loop that a step goes to before the data is all scheduled, or where the loop ends
    without having finished. *)
Definition plain (c : PC (E := E)) : bool := match c with Finished _ | Acquiring _ _ _ _ => false | _ => true end.

Lemma items_inv_pc st mg c : plain c = true -> (past_loop (pc st) = true -> past_loop c = true) -> items_inv st -> items_inv (with_manager st mg c).
Proof. intros Hc Hp [O1 O2 O3 O4 O5 O6 O7 O8]. constructor; try done; cbn; [by intros n ->|intros Hw; destruct (O7 Hw); auto|by intros n ft fts urls ->]. Qed.

Lemma errors_inv_pc st mg c : (forall err, c <> Failed err) -> errors_inv st -> errors_inv (with_manager st mg c).
Proof. intros Hc []. constructor; try done. cbn. intros err ->. by destruct (Hc err). Qed.

Lemma errors_inv_failed st mg err : error_ok (write_queue st) err -> errors_inv st -> errors_inv (with_manager st mg (Failed err)).
Proof. intros He []. constructor; try done. by intros ? [= <-]. Qed.

Lemma inv_pc st mg c :
    plain c = true -> (forall err, c <> Failed err) -> (past_loop (pc st) = true -> past_loop c = true) ->
    loop_inv mg (s + next_position st) c -> inv st -> inv (with_manager st mg c).
Proof. intros H1 H2 H3 Hl []. constructor; [done|by apply items_inv_pc|by apply errors_inv_pc]. Qed.

Lemma inv_fail st err : error_ok (write_queue st) err -> inv st -> inv (with_pc st (Failed err)).
Proof. intros He []. constructor; [by eapply loop_stop|by apply items_inv_pc|by apply errors_inv_failed]. Qed.

Lemma inv_with_buffer st b seed : seed = seed_buffer_permit st \/ seed = None \/ (forall n ft fts urls, pc st <> Acquiring n ft fts urls) ->
    inv st -> inv (with_buffer st b seed).
Proof.
  intros Hs [HL [O1 O2 O3 O4 O5 O6 O7 O8] []]. constructor; [done| |by constructor]. constructor; try done. cbn. intros n ft fts urls Hpc.
  destruct Hs as [->|[->|Hs]]; [by eapply O8|done|by destruct (Hs n ft fts urls)].
Qed.

Lemma error_or_ok st err : inv st -> error_ok (write_queue st) err -> error_ok (write_queue st) (error_or (stored_error st) err).
Proof. intros Hi He. destruct (stored_error st) as [err'|] eqn:Es; [|done]. by apply (inv_stored _ (inv_errors _ Hi)). Qed.

Lemma internal_ok q : cause q -> error_ok q InternalWriterError.
Proof. unfold error_ok. intros [?|?]; tauto. Qed.

(** An error that a task ended with has its cause in the queue. *)
Lemma dropped_cause q it err b : it ∈ q -> item_slot it = Dropped err b -> error_ok q err -> cause q.
Proof.
  intros Hit Hs [(c & -> & _)|[[_ ?]|[? _]]]; [|by left|by right]. left. by exists it, c, b.
Qed.

(** What is told when the channel of the writer is closed. *)
Lemma closed_ok st : inv st -> writer st <> Writing -> writer st <> Flushed -> error_ok (write_queue st) (error_or (stored_error st) InternalWriterError).
Proof.
  intros Hi Hw Hf. pose proof (inv_writer _ (inv_errors _ Hi)) as H. destruct (writer st) as [|err| |]; [done| | |done].
  - apply error_or_ok; [done|]. apply internal_ok. tauto.
  - destruct (stored_error st) eqn:Es; [|done]. by apply (inv_stored _ (inv_errors _ Hi)).
Qed.

Lemma lost_app q it : lost q -> lost (q ++ [it]).
Proof. intros (it' & c & b & H1 & H2). exists it', c, b. split; [by apply elem_of_app; left|done]. Qed.

Lemma error_ok_mono q q' err : (lost q -> lost q') -> error_ok q err -> error_ok q' err.
Proof. unfold error_ok. tauto. Qed.

Lemma error_cause_mono q q' err : (lost q -> lost q') -> error_ok q err /\ cause q -> error_ok q' err /\ cause q'.
Proof. unfold error_ok, cause. tauto. Qed.

Lemma error_dropped_mono q q' err (P : Prop) : (lost q -> lost q') -> error_ok q err /\ P -> error_ok q' err /\ P.
Proof. unfold error_ok. tauto. Qed.

Lemma errors_inv_queue st q :
    (lost (write_queue st) -> lost q) ->
    (forall it err b, it ∈ q -> item_slot it = Dropped err b -> it ∈ write_queue st \/ (error_ok (write_queue st) err /\ b = false) \/ client_error err /\ b = false) ->
    forall out, errors_inv st -> errors_inv (with_items st q out).
Proof.
  intros Hl Hq out [H1 H2 H3 H4]. constructor; cbn.
  - intros err Hs. by eapply error_cause_mono, H1.
  - intros. by eapply error_ok_mono, H2.
  - destruct (writer st); [done| |done|done]. by eapply error_cause_mono, H3.
  - intros it err b Hit Hs. destruct (Hq _ _ _ Hit Hs) as [Hit'|[[He ->]|[He ->]]].
    + by eapply error_dropped_mono, H4.
    + split; [by eapply error_ok_mono, He|done].
    + split; [by left|done].
Qed.

(** A term is scheduled. *)
Lemma schedule_ok st permit ft fts urls :
    loop_inv (manager st) (s + next_position st) (Scheduling (ft :: fts) urls) -> past_loop (pc st) = false -> inv st -> inv (schedule_term st permit ft fts urls).
Proof.
  intros HL Hpl Hi. pose proof Hi as [_ [O1 O2 O3 O4 O5 O6 O7 O8] He]. destruct HL as [H1 H2 H3 H4 (p & Hp & Hq & Hb & Hpf)].
  destruct Hb as [[Hst Hc] [Hft Hfts]%Forall_cons]. pose proof Hft as (Hr & Hsz & _). unfold schedule_term, relative, term_size.
  rewrite H1. cbn [FileRange.start]. assert (size <= far /\ s <= far) as [Hfar Hfar'] by (unfold far; lia). unfold block_max in *. fold size in Hsz.
  rewrite !wrap64_small by (unfold is_u64; lia). cbn [FileRange.start FileRange.end_ negb].
  replace (FileRange.start (FileTerm.byte_range ft) - s =? next_position st) with true by (symmetry; apply Z.eqb_eq; lia). cbn [negb].
  destruct (writer st) eqn:Ew.
  - constructor; [| |].
    + constructor; try done. exists p. split; [done|]. split; [done|]. cbn. split; [|done]. split; [|done].
      by replace (s + (FileRange.end_ (FileTerm.byte_range ft) - s)) with (FileRange.end_ (FileTerm.byte_range ft)) by lia.
    + constructor; cbn; try done.
      * intros _. rewrite fmap_app. cbn. replace (FileRange.start (FileTerm.byte_range ft) - s) with (next_position st) by lia. apply contiguous_snoc, O2. by left.
      * apply Forall_app. split; [done|]. constructor; [|done]. split_and!; try done. cbn. lia.
      * lia.
      * rewrite O5, (wrap64_small (_ - FileRange.start _)), wrap64_small by (unfold is_u64; lia). lia.
    + destruct He as [E1 E2 E3 E4]. constructor; cbn; try done.
      * intros err Hs. eapply error_cause_mono; [apply lost_app|by apply E1].
      * intros it err b Hit Hs. apply elem_of_app in Hit as [Hit|Hit]; [|by apply list_elem_of_singleton in Hit as ->].
        eapply error_dropped_mono; [apply lost_app|by eapply E4].
  - apply inv_fail; [|done]. apply closed_ok; [done|by rewrite Ew..].
  - apply inv_fail; [|done]. apply closed_ok; [done|by rewrite Ew..].
  - destruct (O7 eq_refl). congruence.
Qed.

(** The task of an item ends. *)
Lemma fetch_ok now it : item_good it -> match fetch_item chunk_cache now it with
    | Ok d => item_good (with_slot it (Ready d)) | Err err => item_good (with_slot it (Dropped err false)) /\ client_error err end.
Proof.
  intros (Hr & Hs & Ht & _). pose proof Ht as (Hlo & Hhi & Hget). specialize (Hget now). unfold fetch_item. fold size in Hhi.
  destruct (get_data now chunk_cache (item_urls it) (item_term it)) as [d|err] eqn:Eget.
  2: { destruct err as [c| | | | |]; try done. assert (client_error (ClientCall c)) by (exists c; split; [done|]; by eapply get_data_failed). by split; [split_and!|]. }
 
  rewrite result_bind_Ok, Hr. cbn [FileRange.start FileRange.end_]. set (a := FileRange.start (FileTerm.byte_range (item_term it))) in *.
  set (b := FileRange.end_ (FileTerm.byte_range (item_term it))) in *. assert (size <= far) as Hfar by (unfold far; lia). unfold block_max in *.
  assert (Z.of_nat (length d) = b - a) as Hlen by (rewrite Hget, slice_length; lia).
  rewrite wrap64_small by (unfold is_u64; lia). rewrite Hlen. rewrite (proj2 (Z.eqb_eq _ _)) by lia. split_and!; done.
Qed.

Lemma insert_slot_range (q : list (WriteItem (E := E))) i it slot :
    q !! i = Some it -> item_range <$> <[i := with_slot it slot]> q = item_range <$> q.
Proof. intros H. rewrite list_fmap_insert. apply list_insert_id. by rewrite list_lookup_fmap, H. Qed.

Lemma insert_lost (q : list (WriteItem (E := E))) i it slot :
    q !! i = Some it -> (forall c b, item_slot it = Dropped (ClientCall c) b -> exists b', slot = Dropped (ClientCall c) b') ->
    lost q -> lost (<[i := with_slot it slot]> q).
Proof.
  intros Hi Hs (it' & c & b & [j Hj]%list_elem_of_lookup & Hd). destruct (decide (j = i)) as [->|Hne].
  - rewrite Hi in Hj. injection Hj as <-. destruct (Hs _ _ Hd) as [b' ->]. exists (with_slot it (Dropped (ClientCall c) b')), c, b'. split; [|done].
    apply list_elem_of_lookup. exists i. apply list_lookup_insert_eq. by eapply lookup_lt_Some.
  - exists it', c, b. split; [|done]. apply list_elem_of_lookup. exists j. by rewrite list_lookup_insert_ne.
Qed.

Lemma items_inv_slot st i it slot :
    write_queue st !! i = Some it -> item_good (with_slot it slot) -> items_inv st -> items_inv (with_items st (<[i := with_slot it slot]> (write_queue st)) (output st)).
Proof.
  intros Hi Hg [O1 O2 O3 O4 O5 O6 O7 O8]. constructor; cbn; try done.
  - by rewrite (insert_slot_range _ _ _ _ Hi).
  - by apply Forall_insert.
  - intros Hw. destruct (O7 Hw) as [Hnil ?]. by rewrite Hnil in *.
Qed.

Lemma inserted_member (q : list (WriteItem (E := E))) i it it' : it' ∈ <[i := it]> q -> it' = it \/ it' ∈ q.
Proof.
  intros [j Hj]%list_elem_of_lookup. destruct (decide (j = i)) as [->|Hne].
  - left. assert (i < length q)%nat by (rewrite <- (length_insert q i it); by eapply lookup_lt_Some). rewrite list_lookup_insert_eq in Hj by done. congruence.
  - right. rewrite list_lookup_insert_ne in Hj by done. by eapply list_elem_of_lookup_2.
Qed.

Lemma inv_slot st i it slot :
    write_queue st !! i = Some it -> item_slot it = Pending -> item_good (with_slot it slot) ->
    (forall err b, slot = Dropped err b -> (error_ok (write_queue st) err /\ b = false) \/ client_error err /\ b = false) ->
    inv st -> inv (with_items st (<[i := with_slot it slot]> (write_queue st)) (output st)).
Proof.
  intros Hi Hp Hg Hn [HL HI HE]. constructor; [done|by apply items_inv_slot|]. apply errors_inv_queue; [| |done].
  - apply insert_lost; [done|]. rewrite Hp. done.
  - intros it' err b [->|Hit]%inserted_member Hs; [|by left]. right. by apply Hn.
Qed.

(** The task of an item ends with an error that it did not make itself. *)
Lemma inv_slot_dropped st i it err :
    write_queue st !! i = Some it -> item_slot it = Pending -> error_ok (write_queue st) err ->
    inv st -> inv (with_items st (<[i := with_slot it (Dropped err false)]> (write_queue st)) (output st)).
Proof.
  intros Hi Hp He Hinv. apply inv_slot; [done|done| |intros ? ? [= <- <-]; by left|done].
  destruct (proj1 (Forall_lookup _ _) (inv_good _ (inv_written _ Hinv)) _ _ Hi) as (? & ? & ? & _). by split_and!.
Qed.

(** The failure of a task is stored. *)
Lemma inv_store st i it err :
    write_queue st !! i = Some it -> item_slot it = Dropped err false -> inv st ->
    inv (set_error (with_items st (<[i := with_slot it (Dropped err true)]> (write_queue st)) (output st)) err).
Proof.
  intros Hi Hs Hinv. pose proof (proj1 (Forall_lookup _ _) (inv_good _ (inv_written _ Hinv)) _ _ Hi) as (G1 & G2 & G3 & _).
  assert (item_good (with_slot it (Dropped err true))) as Hg' by by split_and!. pose proof (list_elem_of_lookup_2 _ _ _ Hi) as Hit.
  assert (lost (write_queue st) -> lost (<[i := with_slot it (Dropped err true)]> (write_queue st))) as Hmono.
  { apply insert_lost; [done|]. intros c b Hd. rewrite Hs in Hd. injection Hd as -> _. by eexists. }
  destruct (inv_dropped _ (inv_errors _ Hinv) _ _ _ Hit Hs) as [He _]. pose proof (dropped_cause _ _ _ _ Hit Hs He) as Hca.
  pose proof (error_or_ok st err Hinv He) as Ho. destruct Hinv as [HL HI [E1 E2 E3 E4]]. pose proof (items_inv_slot _ _ _ _ Hi Hg' HI) as []. constructor; [done|by constructor|].
  constructor; cbn.
  - intros ? [= <-]. by eapply error_cause_mono.
  - intros. by eapply error_ok_mono, E2.
  - destruct (writer st); [done| |done|done]. by eapply error_cause_mono, E3.
  - intros it' err' b [->|Hit']%inserted_member Hs'; [cbn in Hs'; injection Hs' as <- <-; split; [by eapply error_ok_mono, He|done]|].
    destruct (E4 _ _ _ Hit' Hs'). split; [by eapply error_ok_mono|done].
Qed.

(** The writer writes data of the front item. *)
Lemma output_extends st it d q n :
    writer st = Writing -> write_queue st = it :: q -> item_slot it = Ready d -> items_inv st ->
    output st ++ take n d = data ⟦Z.to_nat s, (Z.to_nat s + length (output st ++ take n d))%nat⟧ /\
    Z.of_nat (length (output st ++ d)) = FileRange.end_ (item_range it).
Proof.
  intros Hw Hq Hs [O1 O2 O3 _ _ _ _ _]. specialize (O2 (or_introl Hw)). rewrite Hq in *. cbn in O2. destruct O2 as [Hst _].
  apply Forall_cons in O3 as [(G1 & G2 & (Hlo & Hhi & _) & G4) _]. unfold slot_ok in G4. rewrite Hs in G4. rewrite G1 in *. cbn in Hst |- *. fold size in Hhi.
  set (a := FileRange.start (FileTerm.byte_range (item_term it))) in *. set (b := FileRange.end_ (FileTerm.byte_range (item_term it))) in *.
  assert (length d = Z.to_nat b - Z.to_nat a)%nat as Hd by (rewrite G4, slice_length; lia). split; [|rewrite length_app; lia].
  rewrite length_app, length_take, Hd. rewrite O1 at 1. rewrite G4.
  assert (take n (data ⟦Z.to_nat a, Z.to_nat b⟧) = data ⟦Z.to_nat a, (Z.to_nat a + Nat.min n (Z.to_nat b - Z.to_nat a))%nat⟧) as ->.
  { unfold slice. rewrite take_take. f_equal. lia. }
  replace (Z.to_nat s + length (output st))%nat with (Z.to_nat a) by lia. rewrite slice_app_slice by lia. f_equal. lia.
Qed.

Lemma inv_write st it d q :
    writer st = Writing -> write_queue st = it :: q -> item_slot it = Ready d -> inv st -> inv (with_items st q (output st ++ d)).
Proof.
  intros Hw Hq Hs [HL HI HE]. destruct (output_extends st it d q (length d) Hw Hq Hs HI) as [Hout Hlen]. rewrite firstn_all in Hout.
  destruct HI as [O1 O2 O3 O4 O5 O6 O7 O8]. rewrite Hq in *. constructor; [done| |].
  - constructor; cbn; try done.
    + intros H. specialize (O2 H). destruct O2 as [_ Hc]. by rewrite Hlen.
    + by apply Forall_cons in O3 as [_ O3].
    + rewrite Hw. done.
  - apply errors_inv_queue; [| |done]; rewrite Hq.
    + intros (it' & c & b & Hit & Hd). exists it', c, b. split; [|done]. apply elem_of_cons in Hit as [->|Hit]; [|done]. congruence.
    + intros. left. by right.
Qed.

(** The writer thread returns an error. *)
Lemma inv_stop_writer st err :
    writer st <> Flushed -> error_ok (write_queue st) err -> cause (write_queue st) -> inv st -> inv (stop_writer st err).
Proof.
  intros Hw He Hc [HL [O1 O2 O3 O4 O5 O6 O7 O8] []]. constructor; [done| |by constructor]. constructor; cbn; try done; [by intros [?|?]|].
  intros n Hn. by destruct (O6 n Hn).
Qed.

Lemma inv_writer_fails st it err b q :
    writer st = Writing -> write_queue st = it :: q -> item_slot it = Dropped err b -> inv st -> inv (stop_writer st (error_or (stored_error st) InternalWriterError)).
Proof.
  intros Hw Hq Hs Hi. assert (it ∈ write_queue st) as Hit by (rewrite Hq; by left). destruct (inv_dropped _ (inv_errors _ Hi) _ _ _ Hit Hs) as [He _].
  pose proof (dropped_cause _ _ _ _ Hit Hs He) as Hc. apply inv_stop_writer; [by rewrite Hw| |done|done]. apply error_or_ok; [done|by apply internal_ok].
Qed.

Lemma inv_writer_stores st err : writer st = Returned err -> inv st -> inv (set_error (with_writer st Gone) err).
Proof.
  intros Hw Hi. pose proof (inv_writer _ (inv_errors _ Hi)) as He. rewrite Hw in He. destruct He as [He Hl].
  pose proof (error_or_ok _ _ Hi He) as Ho. destruct Hi as [HL [O1 O2 O3 O4 O5 O6 O7 O8] [E1 E2 E3 E4]]. constructor; [done| |].
  - constructor; cbn; try done; [by intros [?|?]|]. intros n Hn. destruct (O6 n Hn). congruence.
  - constructor; cbn; try done; [by intros ? [= <-]|]. intros it' err' b Hit' Hs'. by destruct (E4 _ _ _ Hit' Hs').
Qed.

Lemma inv_flush st : writer st = Writing -> pc st = Finishing -> write_queue st = [] -> inv st -> inv (with_writer st Flushed).
Proof.
  intros Hw Hpc Hq [HL [O1 O2 O3 O4 O5 O6 O7 O8] [E1 E2 E3 E4]]. constructor; [done| |by constructor]. constructor; cbn; try done; [auto|by rewrite Hpc..].
Qed.

Lemma finish_ok st : pc st = Finishing -> write_queue st = [] -> writer st = Flushed -> inv st -> finish st = Finished (next_position st) /\ inv (with_pc st (finish st)).
Proof.
  intros Hpc Hq Hw Hi. pose proof Hi as [HL [O1 O2 O3 O4 O5 O6 O7 O8] HE]. specialize (O2 (or_intror Hw)). rewrite Hq in O2. cbn in O2.
  unfold finish. rewrite (proj2 (Z.eqb_eq _ _) O2), O5. split; [done|].
  constructor; [|constructor; cbn; rewrite ?Hq; try done; by intros ? [= <-]|by apply errors_inv_pc].
  rewrite Hpc in HL. destruct HL as [H1 H2 H3 H4 (p & Hp & Hqq & Hpos)]. constructor; try done. by exists p.
Qed.

Lemma inv_request st n ft fts urls b :
    pc st = Scheduling (ft :: fts) urls -> inv st -> inv (with_pc (with_buffer st b None) (Acquiring n ft fts urls)).
Proof.
  intros Hpc [HL [O1 O2 O3 O4 O5 O6 O7 O8] HE]. rewrite Hpc in *. constructor.
  - destruct HL as [H1 H2 H3 H4 (p & Hp)]. constructor; try done. by exists p.
  - constructor; try done.
  - destruct HE as [E1 E2 E3 E4]. by constructor.
Qed.

Lemma loop_acquired mg pos n ft fts urls : loop_inv mg pos (Acquiring n ft fts urls) -> loop_inv mg pos (Scheduling (ft :: fts) urls).
Proof. intros [H1 H2 H3 H4 (p & Hp)]. constructor; try done. by exists p. Qed.

Ltac step_cases H :=
  destruct H as
    [st Hpc Hd|st b Hpc Hd Hb|st b n Hpc Hd Hb|st n mg Hpc Hp|st n err Hpc Hp|st t q Hpc Hq|st Hpc Hq|st range fts urls Hpc|st range Hpc|st range err Hpc
    |st ft fts urls n k Hpc Hsp|st ft fts urls Hpc Hsp|st n ft fts urls Hpc Hfree|st urls Hpc|st Hpc Hq Hw Hs|st err Hpc Hw|st i it err b Hpc Hit Hs
    |st now id i range res k Hq Hrun|st now id range res k Hpc Hrun
    |st now i it d Hit Hs Hf Hw|st now i it d Hit Hs Hf Hw|st i it err Hit Hs He|st now i it err Hit Hs Hf|st i it err Hit Hs
    |st it d q Hw Hq Hs|st it err b q Hw Hq Hs|st err Hw|st Hw Hpc Hq|st err Hs Hr].

Lemma not_flushed_item st i it : inv st -> write_queue st !! i = Some it -> writer st <> Flushed.
Proof. intros Hi Hit Hw. destruct (inv_flushed _ (inv_written _ Hi) Hw) as [Hq _]. by rewrite Hq in Hit. Qed.

(** Every step keeps the invariant. *)
Lemma inv_step st st' : Step st st' -> inv st -> inv st'.
Proof.
  intros Hstep Hi. pose proof (inv_loop _ Hi) as HL. step_cases Hstep; try rewrite Hpc in HL.
  - apply inv_pc; [done..|by rewrite Hpc| |done]. by eapply loop_done.
  - apply inv_pc; [done..|by rewrite Hpc| |done]. by eapply loop_enough.
  - apply inv_pc; [done..|by rewrite Hpc| |done]. by eapply loop_more.
  - destruct (loop_prefetch _ _ _ HL) as (mg' & E1 & E2). rewrite E1 in Hp. injection Hp as <-. apply inv_pc; try done. by rewrite Hpc.
  - destruct (loop_prefetch _ _ _ HL) as (mg' & E1 & E2). congruence.
  - apply inv_pc; [done..|by rewrite Hpc| |done]. by eapply loop_pop.
  - apply inv_pc; [done..| |done]. by eapply loop_pop_empty.
  - apply inv_pc; [done..|by rewrite Hpc| |done]. by eapply loop_join.
  - apply inv_pc; [done..| |done]. by eapply loop_join_end.
  - apply inv_fail; [|done]. left. destruct HL as [_ _ _ _ (p & _ & _ & _ & (_ & _ & _ & Hres) & _)]. by apply (Hres _ eq_refl).
  - apply schedule_ok; [done|cbn; by rewrite Hpc|]. apply inv_with_buffer; [|done]. right. right. intros ????. by rewrite Hpc.
  - by apply inv_request.
  - apply schedule_ok; [by eapply loop_acquired|cbn; by rewrite Hpc|]. apply inv_with_buffer; [by left|done].
  - apply inv_pc; [done..|by rewrite Hpc| |done]. by eapply loop_scheduled.
  - by apply finish_ok.
  - apply inv_fail; [|done]. apply closed_ok; [done|by rewrite Hw..].
  - apply inv_fail; [|done]. by destruct (inv_dropped _ (inv_errors _ Hi) _ _ _ (list_elem_of_lookup_2 _ _ _ Hit) Hs).
  - pose proof (loop_task _ _ _ _ _ _ _ _ _ HL Hq Hrun) as HL'. pose proof Hi as [_ [] []]. by constructor.
  - pose proof (loop_joined_task _ _ _ _ _ _ _ HL Hrun). apply inv_pc; try done. by rewrite Hpc.
  - pose proof (proj1 (Forall_lookup _ _) (inv_good _ (inv_written _ Hi)) _ _ Hit) as Hg. pose proof (fetch_ok now it Hg) as Hok. rewrite Hf in Hok. by apply inv_slot.
  - apply inv_slot_dropped; [done..| |done]. apply closed_ok; [done|done|by eapply not_flushed_item].
  - apply inv_slot_dropped; [done..| |done]. by apply (inv_stored _ (inv_errors _ Hi)).
  - pose proof (proj1 (Forall_lookup _ _) (inv_good _ (inv_written _ Hi)) _ _ Hit) as Hg. pose proof (fetch_ok now it Hg) as Hok. rewrite Hf in Hok. destruct Hok.
    apply inv_slot; try done. intros ? ? [= <- <-]. by right.
  - by apply inv_store.
  - apply inv_with_buffer; [by left|]. by eapply inv_write.
  - by eapply inv_writer_fails.
  - by apply inv_writer_stores.
  - by apply inv_flush.
  - apply inv_fail; [|done]. by apply (inv_stored _ (inv_errors _ Hi)).
Qed.

Lemma inv_fault st st' : faults = true -> fault st st' -> inv st -> inv st'.
Proof.
  intros Hf [st0 it d q n Hw Hq Hs|st0 Hw Hpc Hq|st0 Hw] Hi.
  - pose proof Hi as [HL HI HE]. destruct (output_extends st0 it d q n Hw Hq Hs HI) as [Hout _].
    destruct HI as [O1 O2 O3 O4 O5 O6 O7 O8], HE as [E1 E2 E3 E4]. constructor; [done| |].
    + constructor; cbn; try done; [by intros [?|?]|]. intros m Hm. destruct (O6 m Hm). congruence.
    + constructor; try done. cbn. split; [right; right; tauto|by right].
  - apply inv_stop_writer; [by rewrite Hw|right; right; tauto|by right|done].
  - apply inv_stop_writer; [by rewrite Hw|right; right; tauto|by right|done].
Qed.

Lemma inv_others st st' : others st st' -> inv st -> inv st'.
Proof. intros [] Hi. apply inv_with_buffer; [by left|done]. Qed.

Lemma inv_cancel st st' : cancel st st' -> inv st -> inv st'.
Proof. intros [] Hi. destruct Hi as [HL HI HE]. constructor; [by eapply loop_stop|by apply items_inv_pc|by apply errors_inv_pc]. Qed.

(** The manager is created with at most two blocks in its queue. *)
Lemma manager_new_ok : exists mg, manager_new min_fetch max_fetch (FileRange.new s e) = Ok mg /\ forall b seed, inv (start_run mg b seed).
Proof.
  unfold manager_new. cbn [FileRange.start FileRange.end_]. set (mg0 := mkManager _ _ _ _ _). unfold block_max in *. assert (0 <= size <= far /\ s <= far) as Hfar by (unfold far, size; lia).
  destruct (prefetch_ok mg0 s min_fetch) as (mg1 & E1 & E2 & E3 & E4 & E5 & E6 & E7 & _); [done|cbn; lia|lia| |cbn; unfold block_max; lia|].
  { split; cbn; [done|constructor]. }
  rewrite E1, result_bind_Ok. cbn in E7. pose proof (queue_at_most _ _ _ E6 E7) as Hl1. unfold block_max in *.
  destruct (prefetch_ok mg1 s (wrap64 (2 * min_fetch))) as (mg2 & F1 & F2 & F3 & F4 & F5 & F6 & F7 & _);
    [by rewrite E2|rewrite E3; cbn; lia|lia|done|unfold block_max; lia|].
  rewrite F1. exists mg2. split; [done|]. intros b seed. constructor.
  - constructor; cbn.
    + by rewrite F2, E2.
    + rewrite F3, E3. cbn. lia.
    + rewrite F4, E4. cbn in *. lia.
    + pose proof (queue_at_most _ _ _ F6 (Nat.le_trans _ _ _ F7 (le_n_S _ _ E7))). unfold block_max in *. lia.
    + exists s. split; [lia|]. split; [done|]. split_and!; [unfold upto; lia|unfold block_max; lia|lia].
  - constructor; cbn; try done; try lia. unfold slice. by rewrite Nat.add_0_r, Nat.sub_diag.
  - constructor; cbn; try done. intros it err b0 H. by apply not_elem_of_nil in H.
Qed.

(** The steps of a run, their number, with what the other downloads do in between. *)
Inductive moves : nat -> Run (E := E) -> Run (E := E) -> Prop :=
  | moves_none st : moves 0 st st
  | moves_step n st1 st2 st3 : moves n st1 st2 -> Step st2 st3 -> moves (S n) st1 st3
  | moves_fault n st1 st2 st3 : moves n st1 st2 -> faults = true -> fault st2 st3 -> moves (S n) st1 st3
  | moves_cancel n st1 st2 st3 : moves n st1 st2 -> cancel st2 st3 -> moves (S n) st1 st3
  | moves_others n st1 st2 st3 : moves n st1 st2 -> shared = true -> others st2 st3 -> moves n st1 st3.

Lemma moves_inv n st st' : inv st -> moves n st st' -> inv st'.
Proof. intros Hi Hm. induction Hm; eauto using inv_step, inv_fault, inv_cancel, inv_others. Qed.

(** What holds at every point of every run. *)
Lemma reconstruction_ok :
    exists mg, manager_new min_fetch max_fetch (FileRange.new s e) = Ok mg /\
    forall b seed n st, moves n (start_run mg b seed) st ->
      output st = data ⟦Z.to_nat s, (Z.to_nat s + length (output st))%nat⟧ /\
      (forall n, pc st = Finished n -> output st = data ⟦Z.to_nat s, Z.to_nat (Z.min e size)⟧ /\ n = Z.of_nat (length (output st))) /\
      (forall err, pc st = Failed err -> error_ok (write_queue st) err) /\
      0 <= current_active_byte_position (manager st) <= prefetched_byte_position (manager st) /\ prefetched_byte_position (manager st) < 2 ^ 64.
Proof.
  destruct manager_new_ok as (mg & Enew & Hi). exists mg. split; [done|]. intros b seed k st Hm.
  pose proof (moves_inv _ _ _ (Hi b seed) Hm) as [HL [O1 O2 O3 O4 O5 O6 O7 O8] HE]. split; [done|]. split_and!.
  - intros n Hn. destruct (O6 n Hn) as [Hw ->]. specialize (O2 (or_intror Hw)). destruct (O7 Hw) as [Hq _]. rewrite Hq in O2. cbn in O2. split; [|done]. rewrite O1. rewrite Hn in HL.
    destruct HL as [_ _ _ _ (p & _ & _ & Hpos)]. cbn in Hpos. unfold upto in Hpos. unfold slice. f_equal. unfold size in *. lia.
  - apply (inv_failed _ HE).
  - apply (inv_active _ _ _ HL).
  - apply (inv_active _ _ _ HL).
  - pose proof (inv_prefetched _ _ _ HL). unfold block_max in *. lia.
Qed.

(** *** Termination *)

(** What is still to be done: per byte to prefetch, per queued task, per scheduled term. *)
Definition slot_work (it : WriteItem (E := E)) : Z := match item_slot it with Pending => 3 | Dropped _ false => 2 | _ => 1 end.

Definition task_work (t : Task (E := E)) : Z :=
    10 * (FileRange.end_ (task_range t) - FileRange.start (task_range t)) + match task_result t with None => 1 | Some _ => 0 end.

Definition pc_work (c : PC (E := E)) : Z :=
    match c with
    | Looping => 4
    | Prefetching _ => 3
    | Popping => 2
    | Joining t => 1 + task_work t
    | Scheduling fts _ => 5 + 5 * Z.of_nat (length fts)
    | Acquiring _ _ fts _ => 9 + 5 * Z.of_nat (length fts)
    | Finishing => 1
    | _ => 0
    end.

Definition writer_work (w : Writer (E := E)) : Z := match w with Writing => 2 | Returned _ => 1 | Gone | Flushed => 0 end.

Fixpoint total {A} (f : A -> Z) (l : list A) : Z :=
    match l with
    | [] => 0
    | x :: l' => f x + total f l'
    end.

Definition horizon : Z := Z.min e (far + 4 * block_max).

Definition work (st : Run (E := E)) : Z :=
    11 * (horizon - prefetched_byte_position (manager st)) + total task_work (prefetch_queue (manager st)) + pc_work (pc st) +
    total slot_work (write_queue st) + writer_work (writer st).

Lemma total_app {A} (f : A -> Z) l1 l2 : total f (l1 ++ l2) = total f l1 + total f l2.
Proof. induction l1; cbn; lia. Qed.

Lemma total_insert {A} (f : A -> Z) l i x y : l !! i = Some x -> total f (<[i := y]> l) = total f l + f y - f x.
Proof.
  revert i. induction l as [|z l IH]; intros [|i] H; cbn in H; [done|done|injection H as ->; cbn; lia|].
  change (f z + total f (<[i := y]> l) = f z + total f l + f y - f x). rewrite (IH _ H). lia.
Qed.

Lemma total_nonneg {A} (f : A -> Z) l : Forall (fun x => 0 <= f x) l -> 0 <= total f l.
Proof. induction 1; cbn; lia. Qed.

Lemma slot_work_pos it : 1 <= slot_work it <= 3.
Proof. unfold slot_work. destruct (item_slot it) as [| |? []]; lia. Qed.

Lemma task_work_pos t : task_good t -> 10 <= task_work t.
Proof. intros (? & _ & _ & _). unfold task_work. destruct (task_result t); lia. Qed.

Lemma pc_work_pos c mg p pos : pc_ok mg p pos c -> 0 <= pc_work c /\ (running c = true -> 1 <= pc_work c).
Proof.
  destruct c; cbn [pc_ok pc_work running]; intros H; try (split; [lia|intros; first [done|lia]]).
  destruct H as (_ & Ht & _). apply task_work_pos in Ht. split; [|intros _]; lia.
Qed.

Lemma work_nonneg st : inv st -> 0 <= work st.
Proof.
  intros [[H1 H2 H3 H4 (p & Hp & Hq & Hpc)] _ _]. unfold work. pose proof (pc_work_pos _ _ _ _ Hpc) as [? _]. pose proof (queue_end _ _ (proj2 Hp) Hq).
  assert (0 <= total task_work (prefetch_queue (manager st))).
  { apply total_nonneg. eapply Forall_impl; [apply Hq|]. intros t Ht%task_work_pos. lia. }
  assert (0 <= total slot_work (write_queue st)). { apply total_nonneg, Forall_true. intros it. pose proof (slot_work_pos it). lia. }
  assert (0 <= writer_work (writer st)) by (destruct (writer st); cbn; lia). unfold horizon. lia.
Qed.

Lemma block_terms_count a b fts urls : block_terms a b fts urls -> Z.of_nat (length fts) <= b - a.
Proof.
  intros [Hc Hf]. revert a Hc. induction Hf as [|ft fts (Hr & _) Hf IH]; intros a Hc; cbn in *; [lia|]. destruct Hc as [<- Hc]. apply IH in Hc. lia.
Qed.

Lemma prefetch_shape mg n mg' :
    prefetch mg n = Ok mg' ->
    mg' = mg \/ (prefetched_byte_position mg < prefetched_byte_position mg' /\
      prefetch_queue mg' = prefetch_queue mg ++ [mkTask (FileRange.new (prefetched_byte_position mg) (prefetched_byte_position mg')) None]).
Proof.
  unfold prefetch_block. destruct (max_fetch <? min_fetch); [done|]. cbn zeta. set (b := if FileRange.end_ (requested_byte_range mg) <? _ then _ else _).
  destruct (Z.leb_spec b (prefetched_byte_position mg)); intros [= <-]; [by left|]. right. done.
Qed.

Lemma joining_work st range res :
    inv st -> pc st = Joining (mkTask range res) -> 1 <= FileRange.end_ range - FileRange.start range /\
    forall fts urls, res = Some (Ok (Some (fts, urls))) -> Z.of_nat (length fts) <= FileRange.end_ range - FileRange.start range.
Proof.
  intros Hi Hpc. pose proof (inv_loop _ Hi) as HL. rewrite Hpc in HL. destruct HL as [_ _ _ _ (p & _ & _ & _ & (Hr & _ & _ & Hres) & _)]. cbn in Hr, Hres.
  split; [lia|]. intros fts urls ->. destruct (Hres _ eq_refl) as [_ Hb%block_terms_count]. unfold upto in Hb. lia.
Qed.

Lemma schedule_work st permit ft fts urls :
    9 + 5 * Z.of_nat (length fts) <= pc_work (pc st) -> work (schedule_term st permit ft fts urls) < work st.
Proof.
  intros Hpc. unfold schedule_term, work. destruct (negb _); [cbn; lia|]. destruct (writer st) eqn:Ew; cbn; rewrite ?Ew; cbn; try lia.
  rewrite total_app. cbn. lia.
Qed.

Lemma stop_writer_work st err : writer st = Writing -> work (stop_writer st err) < work st.
Proof. intros Hw. unfold work. cbn. rewrite Hw. cbn. lia. Qed.

Lemma slot_step_work st i it slot out :
    write_queue st !! i = Some it -> slot_work (with_slot it slot) < slot_work it -> work (with_items st (<[i := with_slot it slot]> (write_queue st)) out) < work st.
Proof. intros Hi Hs. unfold work. cbn. rewrite (total_insert _ _ _ _ _ Hi). lia. Qed.

(** Every step leaves less work. *)
Lemma work_step st st' : Step st st' -> inv st -> work st' < work st.
Proof.
  intros Hstep Hi. pose proof (inv_loop _ Hi) as HL. step_cases Hstep; try (unfold work; cbn; rewrite Hpc; cbn; lia).
  - unfold work. cbn. rewrite Hpc. cbn. destruct (prefetch_shape _ _ _ Hp) as [->|[Hlt ->]]; [lia|]. rewrite total_app. cbn. unfold task_work. cbn. lia.
  - unfold work. cbn. rewrite Hpc, Hq. cbn. lia.
  - destruct (joining_work _ _ _ Hi Hpc) as [Hlen Hn]. specialize (Hn _ _ eq_refl). unfold work. cbn. rewrite Hpc. unfold pc_work, task_work. cbn. lia.
  - destruct (joining_work _ _ _ Hi Hpc) as [Hlen _]. unfold work. cbn. rewrite Hpc. unfold pc_work, task_work. cbn. lia.
  - destruct (joining_work _ _ _ Hi Hpc) as [Hlen _]. unfold work. cbn. rewrite Hpc. unfold pc_work, task_work. cbn. lia.
  - apply (schedule_work (with_buffer st _ _)). cbn. rewrite Hpc. cbn. lia.
  - apply (schedule_work (with_buffer st _ _)). cbn. rewrite Hpc. cbn. lia.
  - destruct (finish_ok _ Hpc Hq Hw Hi) as [-> _]. unfold work. cbn. rewrite Hpc. cbn. lia.
  - destruct HL as [_ _ _ _ (p & _ & _ & Hok)]. destruct (pc_work_pos _ _ _ _ Hok) as [_ Hpos].
    assert (running (pc st) = true) as Hr by (destruct (pc st) as [| | | |[]| | | | |]; done). specialize (Hpos Hr). unfold work. cbn. lia.
  - unfold work. cbn. rewrite (total_insert _ _ _ _ _ Hq). unfold task_work. cbn. lia.
  - unfold work. cbn. rewrite Hpc. unfold pc_work, task_work. cbn. lia.
  - apply slot_step_work; [done|]. unfold slot_work. rewrite Hs. cbn. lia.
  - apply slot_step_work; [done|]. unfold slot_work. rewrite Hs. cbn. lia.
  - apply slot_step_work; [done|]. unfold slot_work. rewrite Hs. cbn. lia.
  - apply slot_step_work; [done|]. unfold slot_work. rewrite Hs. cbn. lia.
  - apply (slot_step_work st); [done|]. unfold slot_work. rewrite Hs. cbn. lia.
  - unfold work. cbn. rewrite Hq. cbn. pose proof (slot_work_pos it). lia.
  - by apply stop_writer_work.
  - unfold work. cbn. rewrite Hw. cbn. lia.
  - unfold work. cbn. rewrite Hw. cbn. lia.
  - destruct HL as [_ _ _ _ (p & _ & _ & Hpc)]. destruct (pc_work_pos _ _ _ _ Hpc) as [_ Hpos]. specialize (Hpos Hr). unfold work. cbn. lia.
Qed.

Lemma work_fault st st' : fault st st' -> work st' < work st.
Proof. intros []; by apply (stop_writer_work (with_items _ _ _)) || by apply stop_writer_work. Qed.

Lemma work_cancel st st' : cancel st st' -> inv st -> work st' < work st.
Proof.
  intros [st0 Hr _] Hi. destruct (inv_loop _ Hi) as [_ _ _ _ (p & _ & _ & Hpc)]. destruct (pc_work_pos _ _ _ _ Hpc) as [_ Hpos]. specialize (Hpos Hr).
  unfold work. cbn. lia.
Qed.

Lemma moves_bounded n st st' : inv st -> moves n st st' -> Z.of_nat n + work st' <= work st.
Proof.
  intros Hi Hm. induction Hm as [st|n st1 st2 st3 Hm IH Hs|n st1 st2 st3 Hm IH _ Hs|n st1 st2 st3 Hm IH Hs|n st1 st2 st3 Hm IH _ Hs]; [lia|..];
    specialize (IH Hi); pose proof (moves_inv _ _ _ Hi Hm) as Hi2.
  - pose proof (work_step _ _ Hs Hi2). lia.
  - pose proof (work_fault _ _ Hs). lia.
  - pose proof (work_cancel _ _ Hs Hi2). lia.
  - destruct Hs. done.
Qed.

(** The writer and the data tasks can make a step as long as there is something to write. *)
Lemma items_progress st : inv st -> write_queue st <> [] -> running (pc st) = true -> exists st', Step st st'.
Proof.
  intros Hi Hne Hr. destruct (write_queue st) as [|it q] eqn:Hq; [done|].
  destruct (stored_error st) as [err|] eqn:Es; [eexists; by eapply step_fail|]. pose proof (inv_writer _ (inv_errors _ Hi)) as HW.
  destruct (writer st) eqn:Hw; [|eexists; by eapply step_writer_stores|done|].
  2: { destruct (inv_flushed _ (inv_written _ Hi) Hw). congruence. }
  destruct (item_slot it) as [|d|err [|]] eqn:Hs.
  - destruct (fetch_item chunk_cache 0 it) as [d|err] eqn:Hf.
    + eexists. eapply (step_fetch _ _ _ _ _ st 0 0 it); [by rewrite Hq|done..].
    + eexists. eapply (step_fetch_fails _ _ _ _ _ st 0 0 it); [by rewrite Hq|done..].
  - eexists; by eapply step_write.
  - destruct (inv_dropped _ (inv_errors _ Hi) it err true) as [_ H]; [rewrite Hq; by left|done|]. by destruct H.
  - eexists. eapply (step_store _ _ _ _ _ st 0 it); [by rewrite Hq|done].
Qed.

(** Without an item to write, what the writer found can be told, or it is waiting. *)
Lemma writer_progress st : inv st -> running (pc st) = true -> (exists st', Step st st') \/ write_queue st = [] /\ stored_error st = None /\ (writer st = Writing \/ writer st = Flushed).
Proof.
  intros Hi Hr. destruct (write_queue st) eqn:Hq; [|left; apply items_progress; [done|by rewrite Hq|done]].
  destruct (stored_error st) as [err|] eqn:Es; [left; eexists; by eapply step_fail|]. pose proof (inv_writer _ (inv_errors _ Hi)) as HW.
  destruct (writer st) eqn:Hw; [by auto|left; eexists; by eapply step_writer_stores|done|by auto].
Qed.

(** The run waits for permits that other downloads hold, and holds none itself. *)
Definition waiting (st : Run (E := E)) : Prop :=
    (exists n ft fts urls, pc st = Acquiring n ft fts urls /\ free_permits (buffer st) < n) /\ write_queue st = [] /\ seed_buffer_permit st = None /\ writer st = Writing.

(** A run that is not over can make a step, or waits. *)
Lemma progress st : inv st -> running (pc st) = true -> (exists st', Step st st') \/ waiting st.
Proof.
  intros Hi Hr. destruct (writer_progress _ Hi Hr) as [?|(Hq & Es & Hw)]; [by left|].
  destruct (pc st) as [|n| |[range res]|fts urls|n ft fts urls| |n|err|] eqn:Hpc; try done; try (left; destruct (prefetch_queue (manager st)) eqn:Hpq; eexists; (by eapply step_pop_empty) || by eapply step_pop).
  - left. destruct (is_done_fetching (manager st)) eqn:Hd; [eexists; by apply step_done_fetching|].
    destruct (next_block_size min_fetch max_fetch (manager st) 0) eqn:Hb; eexists; [by eapply step_more|by eapply step_enough].
  - left. destruct (prefetch (manager st) n) eqn:Hp; eexists; [by eapply step_prefetch|by eapply step_prefetch_fails].
  - left. destruct res as [[[[fts urls]|]|err]|].
    + eexists. by eapply step_join.
    + eexists. by eapply step_join_end.
    + eexists. by eapply step_join_fails.
    + destruct (run_task file_hash enable_multirange 0 0 range (known_final_byte_position (manager st))) eqn:Hrun. eexists. by eapply step_joined_task.
  - left. destruct fts as [|ft fts]; [eexists; by eapply step_scheduled|].
    destruct (split_seed (buffer st) (seed_buffer_permit st) (term_size ft)) as [[n k]|] eqn:Hsp; eexists; [by eapply step_split|by eapply step_request].
  - destruct (Z.le_gt_cases n (free_permits (buffer st))); [left; eexists; by eapply step_acquire|]. right. split; [by exists n, ft, fts, urls|].
    split; [done|]. split; [by eapply (inv_acquiring _ (inv_written _ Hi))|]. destruct Hw as [?|Hw]; [done|].
    destruct (inv_flushed _ (inv_written _ Hi) Hw) as [_ Hp]. by rewrite Hpc in Hp.
  - left. destruct Hw as [Hw|Hw]; eexists; [by eapply step_flush|by eapply step_finish].
Qed.

(** *** The permits of the only download *)

(** No permit is lost: those of the buffer are free, kept from the start, or held by an item; and no more
    are asked for than there are. *)
Record conserved (st : Run (E := E)) : Prop := {
    all_permits : running (pc st) = true -> writer st = Writing ->
      free_permits (buffer st) + from_option id 0 (seed_buffer_permit st) + permits (write_queue st) = total_permits (buffer st);
    request_fits : forall n ft fts urls, pc st = Acquiring n ft fts urls -> n <= total_permits (buffer st);
    some_permits : 1 <= total_permits (buffer st);
}.

Lemma permits_insert (q : list (WriteItem (E := E))) i it slot : q !! i = Some it -> permits (<[i := with_slot it slot]> q) = permits q.
Proof.
  revert i. induction q as [|it' q IH]; intros [|i] Hi; [done|done|by injection Hi as ->|]. cbn in Hi |- *. f_equal. by apply IH.
Qed.

Lemma permits_app (q : list (WriteItem (E := E))) it : permits (q ++ [it]) = permits q + item_permit it.
Proof. induction q as [|it' q IH]; cbn; [lia|]. rewrite IH. lia. Qed.

Lemma conserved_pc st mg c :
    (forall n ft fts urls, c <> Acquiring n ft fts urls) -> (running c = true -> running (pc st) = true) -> conserved st -> conserved (with_manager st mg c).
Proof. intros Hc Hr [H1 H2 H3]. constructor; [cbn; auto| |done]. intros n ft fts urls Hpc. by destruct (Hc n ft fts urls). Qed.

Lemma conserved_slot st i it slot out :
    write_queue st !! i = Some it -> conserved st -> conserved (with_items st (<[i := with_slot it slot]> (write_queue st)) out).
Proof. intros Hi [H1 H2 H3]. constructor; try done. cbn. by rewrite (permits_insert _ _ _ _ Hi). Qed.

Lemma conserved_schedule st permit ft fts urls b seed :
    running (pc st) = true -> total_permits b = total_permits (buffer st) ->
    free_permits b + from_option id 0 seed + permit = free_permits (buffer st) + from_option id 0 (seed_buffer_permit st) ->
    conserved st -> conserved (schedule_term (with_buffer st b seed) permit ft fts urls).
Proof.
  intros Hr Ht Hp [H1 H2 H3]. specialize (H1 Hr). unfold schedule_term. cbn -[relative]. destruct (negb _); [|destruct (writer st) eqn:Ew]; constructor; cbn -[relative]; rewrite ?Ht; try done.
  intros _ _. specialize (H1 eq_refl). rewrite permits_app. cbn. lia.
Qed.

Lemma request_bounds b n : 1 <= total_permits b -> physical_request b n <= total_permits b.
Proof. intros H. unfold physical_request, clamp. destruct (Z.ltb_spec (div_ceil n (basis b)) 1); [lia|]. destruct (Z.ltb_spec (Z.max (total_permits b) 1) (div_ceil n (basis b))); lia. Qed.

Lemma split_left b seed n m k : split_seed b seed n = Some (m, k) -> seed = Some (k + m).
Proof. unfold split_seed. destruct seed as [t|]; [|done]. destruct (_ || _); [done|]. intros [= <- <-]. f_equal. lia. Qed.

Lemma conserved_stopped st w b seed : w <> Writing -> total_permits b = total_permits (buffer st) -> conserved st -> conserved (with_buffer (with_writer st w) b seed).
Proof. intros Hw Ht [H1 H2 H3]. constructor; cbn; rewrite ?Ht; try done. Qed.

Lemma conserved_step st st' : Step st st' -> conserved st -> conserved st'.
Proof.
  intros Hstep Hc. step_cases Hstep; try (apply conserved_pc; [done|by rewrite Hpc|done]); try by apply conserved_slot.
  - apply conserved_schedule; [by rewrite Hpc|done| |done]. rewrite (split_left _ _ _ _ _ Hsp). cbn. lia.
  - destruct Hc as [H1 H2 H3]. rewrite Hpc in H1. constructor; [|intros ? ? ? ? [= <- _ _ _]; by apply (request_bounds (buffer st))|done]. cbn. intros _ Hw. specialize (H1 eq_refl Hw). destruct (seed_buffer_permit st); cbn in *; lia.
  - apply conserved_schedule; [by rewrite Hpc|done| |done]. cbn. lia.
  - apply conserved_pc; [|by rewrite Hpc|done]. unfold finish. by destruct (_ =? _).
  - by apply conserved_pc.
  - destruct Hc as [H1 H2 H3]. by constructor.
  - destruct (conserved_slot st i it (Dropped err true) (output st) Hit Hc) as [H1 H2 H3]. by constructor.
  - destruct Hc as [H1 H2 H3]. constructor; try done. cbn. intros Hr _. specialize (H1 Hr Hw). rewrite Hq in H1. cbn in H1. lia.
  - by apply conserved_stopped.
  - destruct Hc as [H1 H2 H3]. by constructor.
  - destruct Hc as [H1 H2 H3]. by constructor.
  - by apply conserved_pc.
Qed.

Lemma moves_conserved n st st' : shared = false -> conserved st -> moves n st st' -> conserved st'.
Proof.
  intros Hsh Hc Hm. induction Hm as [st|n st1 st2 st3 Hm IH Hs|n st1 st2 st3 Hm IH _ Hs|n st1 st2 st3 Hm IH Hs|n st1 st2 st3 Hm IH Hs' Hs]; [done|..|congruence]; specialize (IH Hc).
  - by eapply conserved_step.
  - destruct Hs; [|by apply conserved_stopped..]. by apply (conserved_stopped (with_items _ _ _)); [..|destruct IH; constructor].
  - destruct Hs. by apply conserved_pc.
Qed.

Lemma conserved_not_waiting st : conserved st -> waiting st -> False.
Proof.
  intros [H1 H2 H3] ((n & ft & fts & urls & Hpc & Hn) & Hq & Hs & Hw). specialize (H2 _ _ _ _ Hpc). rewrite Hpc in H1. specialize (H1 eq_refl Hw).
  rewrite Hq, Hs in H1. cbn in H1. lia.
Qed.

Lemma total_tasks p mg : queue_ok p mg -> total task_work (prefetch_queue mg) <= 11 * (prefetched_byte_position mg - p).
Proof.
  intros [Hc Hg]. revert p Hc. induction Hg as [|t q (Hr & _) Hg IH]; intros p Hc; cbn in *; [lia|]. destruct Hc as [<- Hc]. apply IH in Hc.
  unfold task_work at 1. destruct (task_result t); lia.
Qed.

Lemma reliable_never_fails st err : (forall c, ~ client_failed c) -> faults = false -> inv st -> pc st <> Failed err.
Proof.
  intros Hrel Hf [_ HI HE] Hpc. destruct (inv_failed _ HE err Hpc) as [(c & _ & Hc)|[[_ (it & c & b & Hit & Hs)]|[? _]]]; [by destruct (Hrel c)| |congruence].
  destruct (inv_dropped _ HE _ _ _ Hit Hs) as [[(c' & _ & Hc)|[[? _]|[? _]]] _]; [by destruct (Hrel c')|done|congruence].
Qed.

(** C13: Downloads end.  However the steps of the loop, the tasks and the writer are interleaved, whatever
    the other downloads do to the buffer in between, and whether a write fails, a shutdown is requested or
    the run is cancelled, a run makes at most eleven steps for each byte it can prefetch, which is no more
    than the range and no more than a few blocks beyond the end of the file, and six more.  Until it has
    finished, failed or been cancelled there is a step that it can make, or it waits for permits of the
    download buffer that others hold, while it holds none itself; when there are no others, it never
    waits.  When no call of the client, no write and no flush fails and no shutdown is requested, a run
    that is over and was not cancelled has finished.  The chunk cache is not used for multi-range
    fetches: there, reading the file would panic. *)
Theorem reconstruction_terminates mg b seed n st :
    manager_new min_fetch max_fetch (FileRange.new s e) = Ok mg ->
    moves n (start_run mg b seed) st ->
    Z.of_nat n <= 11 * (Z.min e (Z.max s size + 4 * (max_fetch + min_fetch)) - s) + 6 /\
    (running (pc st) = true -> (exists st', Step st st') \/ waiting st) /\
    (shared = false -> 1 <= total_permits b -> free_permits b + from_option id 0 seed = total_permits b -> running (pc st) = true -> exists st', Step st st') /\
    ((forall c, ~ client_failed c) -> faults = false -> running (pc st) = false -> pc st = Cancelled \/ exists m, pc st = Finished m).
Proof.
  intros Hmg Hm. destruct manager_new_ok as (mg' & Enew & Hi). rewrite Enew in Hmg. injection Hmg as ->. specialize (Hi b seed).
  pose proof (moves_inv _ _ _ Hi Hm) as Hi'. split; [|split; [by apply progress|split]].
  - pose proof (moves_bounded _ _ _ Hi Hm) as Hw. pose proof (work_nonneg _ Hi').
    destruct (inv_loop _ Hi) as [_ _ _ _ (p & Hp & Hq & Hpos & _)]. unfold work in Hw at 2. cbn [manager start_run pc write_queue writer total pc_work writer_work] in Hw, Hq, Hpos.
    pose proof (total_tasks _ _ Hq). unfold horizon, far, block_max in *. lia.
  - intros Hsh Htot Hall Hr. destruct (progress _ Hi' Hr) as [?|Hwait]; [done|]. exfalso. eapply conserved_not_waiting, Hwait. eapply moves_conserved; [done| |exact Hm].
    constructor; cbn; [lia|done|done].
  - intros Hrel Hf Hr. destruct (pc st) eqn:Hpc; try done; [right; by eexists|exfalso; by eapply reliable_never_fails|by left].
Qed.

(** C6: A download.  With a client that answers queries for the file as it should, fetch sizes that make
    sense and positions that fit their words, the manager is created; and at every point of every run,
    in whatever order the prefetch tasks, the data tasks and the writer make their steps, whatever the
    other downloads do to the shared buffer, and whether a write fails, a shutdown is requested or the
    run is cancelled, the output is the file from the start of the range, up to some point.  A run that
    finishes has written the range, as far as the file goes, and returns the number of its bytes.  A
    run fails only with the error of a call of the client that failed, of a write that failed or of a
    shutdown, or with the internal error that the writer and the tasks tell when they find the other end
    of a channel gone after one of these; and no position under- or overflows.  The chunk cache is not
    used for multi-range fetches: there, reading the file would panic. *)
Theorem reconstruction_correct :
    exists mg, manager_new min_fetch max_fetch (FileRange.new s e) = Ok mg /\
    forall b seed n st, moves n (start_run mg b seed) st ->
      output st = data ⟦Z.to_nat s, (Z.to_nat s + length (output st))%nat⟧ /\
      (forall n, pc st = Finished n -> output st = data ⟦Z.to_nat s, Z.to_nat (Z.min e size)⟧ /\ n = Z.of_nat (length (output st))) /\
      (forall err, pc st = Failed err -> error_ok (write_queue st) err) /\
      0 <= current_active_byte_position (manager st) <= prefetched_byte_position (manager st) /\ prefetched_byte_position (manager st) < 2 ^ 64.
Proof. apply reconstruction_ok. Qed.

End Correct.

(** ** The error that is reported *)

(** The task that fetches data drops its end of the channel before it stores its error, and the writer
    that finds the channel closed stores one of its own: the run can then fail with that one, although
    what failed was a call of the client. *)
Lemma client_error_masked {E} `{RC : ReconstructionClient E} file_hash m cache lo hi (st : Run (E := E)) it q now err :
    writer st = Writing -> write_queue st = it :: q -> item_slot it = Pending -> fetch_item cache now it = Err err -> stored_error st = None ->
    running (pc st) = true ->
    exists st', rtc (step file_hash m cache lo hi) st st' /\ pc st' = Failed InternalWriterError /\
      exists st'', step file_hash m cache lo hi st' st'' /\ stored_error st'' = Some InternalWriterError /\
        write_queue st'' = with_slot it (Dropped err true) :: q.
Proof.
  intros Hw Hq Hs Hf Hn Hr. set (it' := with_slot it (Dropped err false)). eexists. split; [|split].
  - eapply rtc_l; [eapply (step_fetch_fails _ _ _ _ _ st now 0); [by rewrite Hq|done|done]|].
    eapply rtc_l; [eapply (step_writer_fails _ _ _ _ _ _ it' err false q); [done|cbn; by rewrite Hq|done]|].
    eapply rtc_l; [by eapply step_writer_stores|].
    eapply rtc_l; [eapply (step_fail _ _ _ _ _ _ InternalWriterError); [cbn; by rewrite Hn|done]|]. apply rtc_refl.
  - done.
  - eexists. split; [eapply (step_store _ _ _ _ _ _ 0 it' err); [cbn; by rewrite Hq|done]|]. cbn. rewrite Hq, Hn. done.
Qed.
