(* ===== verification/MemoryClient.v ===== *)
(** * The in-memory server

    Model of [MemoryClient] in [xet_client/src/cas_client/simulation/memory_client.rs], the server
    that the client is tested against: xorbs and shards that are uploaded, the answers to
    reconstruction queries, the URLs they hand out and the data behind them, and deletion, which can
    leave objects in place under a tag.  The URLs are those of that file and of [xorb_utils.rs].

    Xorbs are kept as they were uploaded; the variant that generates its chunks from a seed is left
    out, and so are the delays and the concurrency controller.  A lock is taken around each
    operation as a whole.  An [Instant] is the number of milliseconds since [REFERENCE_INSTANT], and
    the time [now] an argument.  Base64 is a third-party encoding, of which only the round trip and the
    absence of colons is used. *)

From Stdlib Require Import Sorted.
From coqutil Require Import Byte Word.LittleEndianList.
From stdpp Require Import base numbers gmap sorting list.
From S2P Require Import Prelude DataHash AggregatedHash MerkleSubtree Codec Chunking FileStructs XorbStructs ChunkFormat RawXorb XorbInfo XorbObject ShardMemory ShardFormat.
From S2P Require Import ShardPass StreamingShard CasTypes ChunkWindows ReconstructionRanges FileTerms.

#[local] Open Scope Z_scope.

(** [?] on an operation of [xet_core_structures]. *)
Definition try_format {A} (x : result CoreError A) : result client_failure A :=
  match x with Ok a => Ok a | Err e => Err (ClientFailed (FormatError e)) end.

Definition client_some {A} (x : option A) : result client_failure A :=
  match x with Some a => Ok a | None => Err ClientPanicked end.

Definition client_ok_or {A} (e : ClientError) (x : option A) : result client_failure A :=
  match x with Some a => Ok a | None => Err (ClientFailed e) end.

(** ** URLs *)

(** [URL_SAFE_NO_PAD] of the crate [base64]. *)
Class Base64 := {
  base64_encode : list byte -> list byte;
  base64_decode : list byte -> option (list byte);
  base64_roundtrip s : base64_decode (base64_encode s) = Some s;
  base64_no_colon s : Forall (fun b => b <> Byte.x3a) (base64_encode s);
}.

Fixpoint join (sep : byte) (l : list (list byte)) : list byte :=
  match l with
  | [] => []
  | [s] => s
  | s :: l' => s ++ sep :: join sep l'
  end.

(** [split] at every [sep]; the fuel is the length of the text. *)
Fixpoint split_all (fuel : nat) (sep : byte) (s : list byte) : list (list byte) :=
  match fuel with
  | O => [s]
  | S fuel' =>
      match split_once sep s with
      | None => [s]
      | Some (before, after) => before :: split_all fuel' sep after
      end
  end.

(** The text before and after the last [sep]. *)
Definition rsplit_once (sep : byte) (s : list byte) : option (list byte * list byte) :=
  '(after, before) ← split_once sep (reverse s); Some (reverse before, reverse after).

Definition max_u64 : Z := 2 ^ 64 - 1.

Definition generate_fetch_url (hash : DataHash) (byte_range : FileRange.t) (timestamp : Z) : list byte :=
  hex hash ++ [Byte.x3a] ++ write_decimal_u64 (FileRange.start byte_range) ++ [Byte.x3a] ++ write_decimal_u64 (FileRange.end_ byte_range) ++
  [Byte.x3a] ++ write_decimal_u64 timestamp.

(** [rsplitn(4, ':')] *)
Definition rsplit4 (sep : byte) (s : list byte) : option (list byte * list byte * list byte * list byte) :=
  '(s, p3) ← rsplit_once sep s;
  '(s, p2) ← rsplit_once sep s;
  '(p0, p1) ← rsplit_once sep s;
  Some (p0, p1, p2, p3).

Definition parse_hash (s : list byte) : option DataHash := match from_hex s with Ok h => Some h | Err _ => None end.

Definition parse_fetch_url (url : list byte) : result client_failure (DataHash * FileRange.t * Z) :=
  client_ok_or InvalidArgumentsError (
    '(p0, p1, p2, p3) ← rsplit4 Byte.x3a url;
    hash ← parse_hash p0;
    start_pos ← parse_uint max_u64 p1;
    end_pos ← parse_uint max_u64 p2;
    timestamp_ms ← parse_uint max_u64 p3;
    Some (hash, FileRange.new start_pos end_pos, timestamp_ms)).

Section Urls.
  Context `{B64 : Base64}.

Definition v2_payload (hash : DataHash) (ranges : list XorbRangeDescriptor.t) (timestamp : Z) : list byte :=
    let ranges_str := (fun r => range_text (HttpRange.start (XorbRangeDescriptor.bytes r)) (HttpRange.end_ (XorbRangeDescriptor.bytes r))) <$> ranges in
    hex hash ++ [Byte.x3a] ++ write_decimal_u64 timestamp ++ [Byte.x3a] ++ join Byte.x2c ranges_str.

Definition generate_v2_fetch_url (hash : DataHash) (ranges : list XorbRangeDescriptor.t) (timestamp : Z) : list byte :=
    base64_encode (v2_payload hash ranges timestamp).

(** [for r in ranges_str.split(',').filter(|s| !s.is_empty())] *)
Fixpoint parse_ranges (parts : list (list byte)) : option (list HttpRange.t) :=
    match parts with
    | [] => Some []
    | [] :: parts' => parse_ranges parts'
    | r :: parts' =>
        '(start, end_) ← split_once Byte.x2d r;
        start ← parse_uint max_u64 start;
        end_ ← parse_uint max_u64 end_;
        ranges ← parse_ranges parts';
        Some (HttpRange.new start end_ :: ranges)
    end.

(** A payload that is not UTF-8 fails to parse as well, with the same error. *)
Definition parse_v2_fetch_url (url : list byte) : result client_failure (DataHash * Z * list HttpRange.t) :=
    client_ok_or InvalidArgumentsError (
      payload ← base64_decode url;
      '(hash_hex, rest) ← split_once Byte.x3a payload;
      '(ts_str, ranges_str) ← split_once Byte.x3a rest;
      hash ← parse_hash hash_hex;
      timestamp_ms ← parse_uint max_u64 ts_str;
      ranges ← parse_ranges (split_all (length ranges_str) Byte.x2c ranges_str);
      Some (hash, timestamp_ms, ranges)).

Definition parse_any_fetch_url (url : list byte) : result client_failure (DataHash * Z) :=
    match parse_fetch_url url with
    | Ok (hash, _, ts) => Ok (hash, ts)
    | Err _ => '(hash, ts, _) ← parse_v2_fetch_url url; Ok (hash, ts)
    end.
End Urls.

(** ** The state *)

Module MaterializedXorb.

Record t := mk { serialized_data : list byte; xorb_object : XorbObject.t; generation : Z }.

End MaterializedXorb.

Module MemoryClient.

Record t := mk {
  xorbs : gmap DataHash MaterializedXorb.t;
  shard : MDBInMemoryShard.t;
  global_dedup : gmap DataHash (list byte);
  xorb_generation : Z;
  url_expiration_ms : Z;
  global_dedup_expiration_secs : Z;
  max_ranges_per_fetch : Z;
  lifecycle_tag_deletion : bool;
  gc_tagged_xorbs : gset DataHash;
  gc_tagged_shard : option DataHash;
}.

Definition new : t := mk ∅ MDBInMemoryShard.default ∅ 0 max_u64 0 max_u64 false ∅ None.

Definition with_settings (c : t) (url_expiration_ms global_dedup_expiration_secs max_ranges : Z) (on : bool) : t :=
  mk (xorbs c) (shard c) (global_dedup c) (xorb_generation c) url_expiration_ms global_dedup_expiration_secs max_ranges on (gc_tagged_xorbs c) (gc_tagged_shard c).

Definition set_lifecycle_tag_deletion (c : t) (on : bool) : t :=
  with_settings c (url_expiration_ms c) (global_dedup_expiration_secs c) (max_ranges_per_fetch c) on.
Definition set_fetch_term_url_expiration (c : t) (ms : Z) : t :=
  with_settings c (wrap64 ms) (global_dedup_expiration_secs c) (max_ranges_per_fetch c) (lifecycle_tag_deletion c).
Definition set_max_ranges_per_fetch (c : t) (max_ranges : Z) : t :=
  with_settings c (url_expiration_ms c) (global_dedup_expiration_secs c) max_ranges (lifecycle_tag_deletion c).

Definition with_xorbs (c : t) (xorbs : gmap DataHash MaterializedXorb.t) (generation : Z) (tagged : gset DataHash) : t :=
  mk xorbs (shard c) (global_dedup c) generation (url_expiration_ms c) (global_dedup_expiration_secs c) (max_ranges_per_fetch c)
    (lifecycle_tag_deletion c) tagged (gc_tagged_shard c).
Definition with_shard (c : t) (shard : MDBInMemoryShard.t) (dedup : gmap DataHash (list byte)) (tagged_shard : option DataHash) : t :=
  mk (xorbs c) shard dedup (xorb_generation c) (url_expiration_ms c) (global_dedup_expiration_secs c) (max_ranges_per_fetch c)
    (lifecycle_tag_deletion c) (gc_tagged_xorbs c) tagged_shard.

Definition xorb_is_tagged (c : t) (hash : DataHash) : bool := bool_decide (hash ∈ gc_tagged_xorbs c).
Definition shard_is_tagged (c : t) (hash : DataHash) : bool := bool_decide (gc_tagged_shard c = Some hash).

(** The xorb under a hash, unless it is tagged. *)
Definition visible_xorb (c : t) (hash : DataHash) : result client_failure MaterializedXorb.t :=
  if xorb_is_tagged c hash then Err (ClientFailed (XORBNotFound hash))
  else client_ok_or (XORBNotFound hash) (xorbs c !! hash).

Section Client.
  Context `{B3 : Blake3} `{CC : ChunkConstants} `{CP : Compression} `{SU : SortUnstable (Z * Z)} `{B64 : Base64}.

(** *** Uploads *)

(** The bytes written. *)
Definition upload_xorb (c : t) (serialized_xorb_object : SerializedXorbObject.t) : result client_failure (Z * t) :=
    let hash := SerializedXorbObject.hash serialized_xorb_object in
    let serialized_data := SerializedXorbObject.serialized_data serialized_xorb_object in
    '(xorb_obj, serialized_data) ←
      match SerializedXorbObject.footer_start serialized_xorb_object with
      | Some _ => '(xorb_obj, _) ← try_format (XorbObject.deserialize serialized_data); Ok (xorb_obj, serialized_data)
      | None =>
          '(data_with_footer, xorb_obj, computed_hash) ← try_format (reconstruct_xorb_with_footer serialized_data);
          if decide (computed_hash = hash) then Ok (xorb_obj, data_with_footer) else Err (ClientFailed OtherError)
      end;
    let generation := xorb_generation c in
    let entry := MaterializedXorb.mk serialized_data xorb_obj generation in
    Ok (Z.of_nat (length serialized_data),
        with_xorbs c (<[hash := entry]> (xorbs c)) (wrap64 (generation + 1)) (gc_tagged_xorbs c ∖ {[hash]})).

(** [for i in 0..minimal_shard.num_files()] *)
Fixpoint add_files (shard : MDBInMemoryShard.t) (views : list MDBFileInfoView.t) : result client_failure MDBInMemoryShard.t :=
    match views with
    | [] => Ok shard
    | v :: views' => fi ← client_some (MDBFileInfoView.to_file_info v); add_files (MDBInMemoryShard.add_file_reconstruction_info shard fi) views'
    end.

(** [for i in 0..minimal_shard.num_xorb()] *)
Fixpoint add_xorbs (shard : MDBInMemoryShard.t) (views : list MDBXorbInfoView.t) : result client_failure MDBInMemoryShard.t :=
    match views with
    | [] => Ok shard
    | v :: views' => x ← client_some (MDBXorbInfoView.to_xorb_info v); add_xorbs (MDBInMemoryShard.add_xorb_block shard x) views'
    end.

Definition upload_shard (c : t) (shard_data : list byte) : result client_failure t :=
    '(minimal_shard, _) ← try_format (MDBMinimalShard.from_reader true true shard_data);
    shard_lg ← add_files (shard c) (MDBMinimalShard.file_info_views minimal_shard);
    shard_lg ← add_xorbs shard_lg (MDBMinimalShard.xorb_info_views minimal_shard);
    chunk_hashes ← client_some (MDBMinimalShard.global_dedup_eligible_chunks minimal_shard);
    Ok (with_shard c shard_lg (gset_to_gmap shard_data chunk_hashes ∪ global_dedup c) None).

(** *** Reading xorbs *)

Definition get_full_xorb (c : t) (hash : DataHash) : result client_failure (list byte) :=
    storage ← visible_xorb c hash;
    let f := MaterializedXorb.serialized_data storage in
    '(xorb_obj, _) ← try_format (XorbObject.deserialize f);
    try_format (XorbObject.get_all_bytes xorb_obj f).

(** [for r in chunk_ranges] *)
Fixpoint read_ranges (xorb_obj : XorbObject.t) (f : list byte) (chunk_ranges : list ChunkRange.t) : result client_failure (list (list byte)) :=
    match chunk_ranges with
    | [] => Ok []
    | r :: chunk_ranges' =>
        data ← (if ChunkRange.end_ r <=? ChunkRange.start r then Ok []
                else try_object (XorbObject.get_bytes_by_chunk_range xorb_obj f (ChunkRange.start r) (ChunkRange.end_ r)));
        rest ← read_ranges xorb_obj f chunk_ranges';
        Ok (data :: rest)
    end.

Definition get_xorb_ranges (c : t) (hash : DataHash) (chunk_ranges : list ChunkRange.t) : result client_failure (list (list byte)) :=
    if xorb_is_tagged c hash then Err (ClientFailed (XORBNotFound hash))
    else
      match chunk_ranges with
      | [] => Ok [[]]
      | _ =>
          storage ← client_ok_or (XORBNotFound hash) (xorbs c !! hash);
          let f := MaterializedXorb.serialized_data storage in
          '(xorb_obj, _) ← try_format (XorbObject.deserialize f);
          read_ranges xorb_obj f chunk_ranges
      end.

Definition xorb_length (c : t) (hash : DataHash) : result client_failure Z :=
    if xorb_is_tagged c hash then Err (ClientFailed (XORBNotFound hash))
    else data ← get_full_xorb c hash; Ok (wrap32 (Z.of_nat (length data))).

Definition xorb_exists (c : t) (hash : DataHash) : bool := negb (xorb_is_tagged c hash) && bool_decide (is_Some (xorbs c !! hash)).

Definition xorb_footer (c : t) (hash : DataHash) : result client_failure XorbObject.t :=
    storage ← visible_xorb c hash; Ok (MaterializedXorb.xorb_object storage).

Definition get_xorb_raw_bytes (c : t) (hash : DataHash) (byte_range : option FileRange.t) : result client_failure (list byte) :=
    storage ← visible_xorb c hash;
    let data := MaterializedXorb.serialized_data storage in
    let len := Z.of_nat (length data) in
    let start := match byte_range with Some r => FileRange.start r | None => 0 end in
    let end_ := Z.min (match byte_range with Some r => FileRange.end_ r | None => len end) len in
    if len <=? start then Err (ClientFailed InvalidRangeError)
    else _ ← client_assert (start <=? end_); Ok (data ⟦Z.to_nat start, Z.to_nat end_⟧).

Definition xorb_raw_length (c : t) (hash : DataHash) : result client_failure Z :=
    storage ← visible_xorb c hash; Ok (Z.of_nat (length (MaterializedXorb.serialized_data storage))).

(** *** Reading files *)

(** The time only counts for shards with an expiry, which this one has not. *)
Definition current_shard_hash_and_bytes (now : Z) (s : MDBInMemoryShard.t) : option (DataHash * list byte) :=
    if MDBInMemoryShard.is_empty s then None
    else let bytes := MDBShardInfo.to_bytes now s in Some (compute_data_hash bytes, bytes).

Definition current_shard_tagged (c : t) (now : Z) : bool :=
    match current_shard_hash_and_bytes now (shard c) with
    | Some (shard_hash, _) => shard_is_tagged c shard_hash
    | None => false
    end.

Definition get_file_size (c : t) (now : Z) (hash : DataHash) : result client_failure Z :=
    if current_shard_tagged c now then Err (ClientFailed (FileNotFound hash))
    else
      file_info ← client_ok_or (FileNotFound hash) (MDBInMemoryShard.get_file_reconstruction_info (shard c) hash);
      Ok (MDBFileInfo.file_size file_info).

(** [for entry in &file_info.segments] *)
Fixpoint file_bytes (c : t) (segments : list FileDataSequenceEntry.t) : result client_failure (list byte) :=
    match segments with
    | [] => Ok []
    | entry :: segments' =>
        l ← get_xorb_ranges c (FileDataSequenceEntry.xorb_hash entry)
              [ChunkRange.new (FileDataSequenceEntry.chunk_index_start entry) (FileDataSequenceEntry.chunk_index_end entry)];
        entry_bytes ← client_some (last l);
        rest ← file_bytes c segments';
        Ok (entry_bytes ++ rest)
    end.

Definition get_file_data (c : t) (now : Z) (hash : DataHash) (byte_range : option FileRange.t) : result client_failure (list byte) :=
    if current_shard_tagged c now then Err (ClientFailed (FileNotFound hash))
    else
      file_info ← client_ok_or (FileNotFound hash) (MDBInMemoryShard.get_file_reconstruction_info (shard c) hash);
      file_vec ← file_bytes c (MDBFileInfo.segments file_info);
      let file_size := Z.of_nat (length file_vec) in
      let start := match byte_range with Some r => FileRange.start r | None => 0 end in
      if bool_decide (is_Some byte_range) && (file_size <=? start) then Err (ClientFailed InvalidRangeError)
      else
        let end_ := Z.min (match byte_range with Some r => FileRange.end_ r | None => file_size end) file_size in
        _ ← client_assert (start <=? end_);
        Ok (file_vec ⟦Z.to_nat start, Z.to_nat end_⟧).

Definition get_file_reconstruction_info (c : t) (file_hash : DataHash) : option (MDBFileInfo.t * option DataHash) :=
    (fun fi => (fi, None)) <$> MDBInMemoryShard.get_file_reconstruction_info (shard c) file_hash.

Definition query_for_global_dedup_shard (c : t) (now_ns : Z) (chunk_hash : DataHash) : result client_failure (option (list byte)) :=
    match global_dedup c !! chunk_hash with
    | None => Ok None
    | Some shard_bytes =>
        if global_dedup_expiration_secs c =? 0 then Ok (Some shard_bytes)
        else
          let expiry := now_ns + global_dedup_expiration_secs c * 10 ^ 9 in
          '(minimal_shard, _) ← try_format (MDBMinimalShard.from_reader true true shard_bytes);
          r ← client_some (MDBMinimalShard.serialize_xorb_subset_with_expiry (now_ns / 10 ^ 9) minimal_shard (Some expiry) (fun _ => true));
          '(out, _) ← try_format r;
          Ok (Some out)
    end.

(** *** Reconstruction *)

Definition reconstruction_ranges (c : t) (file_id : DataHash) (bytes_range : option FileRange.t) :
    result client_failure (option (Z * list XorbReconstructionTerm.t * gmap DataHash (list MergedRange.t))) :=
    match MDBInMemoryShard.get_file_reconstruction_info (shard c) file_id with
    | None => Ok None
    | Some file_info => compute_reconstruction_ranges (xorb_footer c) file_info bytes_range
    end.

Definition fetch_info_of (hash : DataHash) (timestamp : Z) (r : MergedRange.t) : XorbReconstructionFetchInfo.t :=
    XorbReconstructionFetchInfo.mk (MergedRange.chunk_range r) (generate_fetch_url hash (MergedRange.byte_range r) timestamp)
      (http_range_of_file (MergedRange.byte_range r)).

Definition fetch_infos_of (timestamp : Z) (hash : DataHash) (ranges : list MergedRange.t) : list XorbReconstructionFetchInfo.t :=
    fetch_info_of hash timestamp <$> ranges.

Definition get_reconstruction_v1 (c : t) (now : Z) (file_id : DataHash) (bytes_range : option FileRange.t) :
    result client_failure (option QueryReconstructionResponse.t) :=
    r ← reconstruction_ranges c file_id bytes_range;
    match r with
    | None => Ok None
    | Some (offset_into_first_range, [], _) => Ok (Some (QueryReconstructionResponse.mk offset_into_first_range [] ∅))
    | Some (offset_into_first_range, terms, merged_ranges) =>
        let fetch_info : gmap DataHash _ := map_imap (fun hash ranges => Some (fetch_infos_of now hash ranges)) merged_ranges in
        Ok (Some (QueryReconstructionResponse.mk offset_into_first_range terms fetch_info))
    end.

(** [chunks(n)] for a positive [n]; the fuel is the length of the list. *)
Fixpoint chunks_of {A} (fuel n : nat) (l : list A) : list (list A) :=
    match fuel, l with
    | S fuel', _ :: _ => take n l :: chunks_of fuel' n (drop n l)
    | _, _ => []
    end.

Definition range_descriptor (r : MergedRange.t) : XorbRangeDescriptor.t :=
    XorbRangeDescriptor.mk (MergedRange.chunk_range r) (http_range_of_file (MergedRange.byte_range r)).

(** [for chunk in ranges.chunks(max_ranges)]; a size beyond the length of the list is that length. *)
Definition fetch_entries (max_ranges : Z) (hash : DataHash) (timestamp : Z) (ranges : list MergedRange.t) : list XorbMultiRangeFetch.t :=
    (fun chunk => let range_descriptors := range_descriptor <$> chunk in
       XorbMultiRangeFetch.mk (generate_v2_fetch_url hash range_descriptors timestamp) range_descriptors)
    <$> chunks_of (length ranges) (Z.to_nat (Z.min max_ranges (Z.of_nat (length ranges)))) ranges.

Definition get_reconstruction_v2 (c : t) (now : Z) (file_id : DataHash) (bytes_range : option FileRange.t) :
    result client_failure (option QueryReconstructionResponseV2.t) :=
    r ← reconstruction_ranges c file_id bytes_range;
    match r with
    | None => Ok None
    | Some (offset_into_first_range, [], _) => Ok (Some (QueryReconstructionResponseV2.mk offset_into_first_range [] ∅))
    | Some (offset_into_first_range, terms, merged_ranges) =>
        _ ← client_assert (bool_decide (merged_ranges = ∅) || negb (max_ranges_per_fetch c =? 0));
        let xorbs : gmap DataHash _ := map_imap (fun hash ranges => Some (fetch_entries (max_ranges_per_fetch c) hash now ranges)) merged_ranges in
        Ok (Some (QueryReconstructionResponseV2.mk offset_into_first_range terms xorbs))
    end.

(** *** Data *)

Definition url_expired (c : t) (now timestamp : Z) : bool := url_expiration_ms c <? Z.max 0 (now - timestamp).

(** [for chunk_idx in fetch_term.range.start..fetch_term.range.end] *)
Fixpoint chunk_ends (xorb_obj : XorbObject.t) (idxs : list nat) (cumulative : Z) : result client_failure (list Z) :=
    match idxs with
    | [] => Ok []
    | i :: idxs' =>
        chunk_len ← match XorbObject.uncompressed_chunk_length xorb_obj (Z.of_nat i) with
                    | Ok n => Ok n
                    | Err (Failed _) => Err (ClientFailed OtherError)
                    | Err Panicked => Err ClientPanicked
                    end;
        let cumulative := wrap32 (cumulative + chunk_len) in
        rest ← chunk_ends xorb_obj idxs' cumulative;
        Ok (cumulative :: rest)
    end.

Definition fetch_term_data (c : t) (now : Z) (hash : DataHash) (fetch_term : XorbReconstructionFetchInfo.t) :
    result client_failure (list byte * list Z) :=
    '(xorb_hash, url_byte_range, url_timestamp) ← parse_fetch_url (XorbReconstructionFetchInfo.url fetch_term);
    if url_expired c now url_timestamp then Err (ClientFailed PresignedUrlExpirationError)
    else if decide (url_byte_range <> file_range_of_http (XorbReconstructionFetchInfo.url_range fetch_term)) then Err (ClientFailed InvalidArgumentsError)
    else if xorb_is_tagged c xorb_hash then Err (ClientFailed (XORBNotFound xorb_hash))
    else
      storage ← client_ok_or (XORBNotFound hash) (xorbs c !! xorb_hash);
      let f := MaterializedXorb.serialized_data storage in
      '(xorb_obj, _) ← try_format (XorbObject.deserialize f);
      let start := ChunkRange.start (XorbReconstructionFetchInfo.range fetch_term) in
      let end_ := ChunkRange.end_ (XorbReconstructionFetchInfo.range fetch_term) in
      data ← try_object (XorbObject.get_bytes_by_chunk_range xorb_obj f start end_);
      chunk_byte_indices ← chunk_ends xorb_obj (seq (Z.to_nat start) (Z.to_nat end_ - Z.to_nat start)) 0;
      Ok (data, 0 :: chunk_byte_indices).

(** [for http_range in &http_ranges] *)
Fixpoint term_data_loop (f : list byte) (http_ranges : list HttpRange.t) (all_decompressed : list byte) (all_chunk_indices : list Z) :
    result client_failure (list byte * list Z) :=
    match http_ranges with
    | [] => Ok (all_decompressed, all_chunk_indices)
    | r :: http_ranges' =>
        let start := HttpRange.start r in
        let end_ := wrap64 (HttpRange.end_ r + 1) in
        _ ← client_assert ((start <=? end_) && (end_ <=? Z.of_nat (length f)));
        '(data, chunk_indices, _) ← try_format (deserialize_chunks (f ⟦Z.to_nat start, Z.to_nat end_⟧));
        let '(all_decompressed, all_chunk_indices) := append_chunk_segment all_decompressed all_chunk_indices data chunk_indices in
        term_data_loop f http_ranges' all_decompressed all_chunk_indices
    end.

(** On what the URL provider gives. *)
Definition get_file_term_data (c : t) (now : Z) (url : list byte) (http_ranges : list HttpRange.t) : result client_failure (list byte * list Z) :=
    '(xorb_hash, url_timestamp) ← parse_any_fetch_url url;
    if url_expired c now url_timestamp then Err (ClientFailed PresignedUrlExpirationError)
    else
      storage ← visible_xorb c xorb_hash;
      term_data_loop (MaterializedXorb.serialized_data storage) http_ranges [] [].

(** [for segment in &file_info.segments] *)
Fixpoint file_chunks (c : t) (segments : list FileDataSequenceEntry.t) : result client_failure (list Node) :=
    match segments with
    | [] => Ok []
    | segment :: segments' =>
        xorb_obj ← xorb_footer c (FileDataSequenceEntry.xorb_hash segment);
        chunks ← match XorbObject.chunk_hash_sizes xorb_obj (FileDataSequenceEntry.chunk_index_start segment) (FileDataSequenceEntry.chunk_index_end segment) with
                 | Ok l => Ok l
                 | Err (Failed _) => Err (ClientFailed OtherError)
                 | Err Panicked => Err ClientPanicked
                 end;
        rest ← file_chunks c segments';
        Ok (chunks ++ rest)
    end.

Definition get_file_chunk_hashes (c : t) (file_id : DataHash) (dirty_ranges : list FileRange.t) : result client_failure FileChunkHashesResponse :=
    file_info ← client_ok_or (FileNotFound file_id) (MDBInMemoryShard.get_file_reconstruction_info (shard c) file_id);
    chunks ← file_chunks c (MDBFileInfo.segments file_info);
    r ← client_some (build_file_chunk_hashes_response file_info dirty_ranges chunks);
    match r with Ok response => Ok response | Err _ => Err (ClientFailed OtherError) end.

(** [for file_id in file_ids] *)
Fixpoint batch_get_reconstruction (c : t) (now : Z) (file_ids : list DataHash) (files : gmap DataHash (list XorbReconstructionTerm.t))
    (fetch_info_map : gmap DataHash (list XorbReconstructionFetchInfo.t)) :
    result client_failure (gmap DataHash (list XorbReconstructionTerm.t) * gmap DataHash (list XorbReconstructionFetchInfo.t)) :=
    match file_ids with
    | [] => Ok (files, fetch_info_map)
    | file_id :: file_ids' =>
        r ← get_reconstruction_v1 c now file_id None;
        match r with
        | None => batch_get_reconstruction c now file_ids' files fetch_info_map
        | Some response =>
            batch_get_reconstruction c now file_ids' (<[file_id := QueryReconstructionResponse.terms response]> files)
              (union_with (fun l l' => Some (l ++ l')) fetch_info_map (QueryReconstructionResponse.fetch_info response))
        end
    end.

(** *** Deletion *)

Definition delete_xorb (c : t) (hash : DataHash) : t :=
    if lifecycle_tag_deletion c then with_xorbs c (xorbs c) (xorb_generation c) ({[hash]} ∪ gc_tagged_xorbs c)
    else with_xorbs c (delete hash (xorbs c)) (xorb_generation c) (gc_tagged_xorbs c).

Definition object_tag_from_key_and_payload (prefix : list byte) (key : DataHash) (payload : list byte) : DataHash :=
    compute_data_hash (prefix ++ as_bytes key ++ as_bytes (compute_data_hash payload)).

Definition xorb_tag (hash : DataHash) (storage : MaterializedXorb.t) : DataHash :=
    object_tag_from_key_and_payload [Byte.x78; Byte.x6f; Byte.x72; Byte.x62] hash
      (MaterializedXorb.serialized_data storage ++ le_split 8 (MaterializedXorb.generation storage)).

Definition delete_xorb_if_tag_matches (c : t) (hash tag : DataHash) : result client_failure (bool * t) :=
    storage ← client_ok_or (XORBNotFound hash) (xorbs c !! hash);
    if decide (xorb_tag hash storage = tag) then Ok (true, delete_xorb c hash) else Ok (false, c).

Definition list_xorbs (c : t) : list DataHash := filter (fun h => h ∉ gc_tagged_xorbs c) (map_to_list (xorbs c)).*1.

Definition list_xorbs_and_tags (c : t) : list (DataHash * DataHash) :=
    (fun e => (e.1, xorb_tag e.1 e.2)) <$> filter (fun e => e.1 ∉ gc_tagged_xorbs c) (map_to_list (xorbs c)).

Definition list_shard_entries (c : t) (now : Z) : list DataHash :=
    match current_shard_hash_and_bytes now (shard c) with
    | Some (h, _) => if shard_is_tagged c h then [] else [h]
    | None => []
    end.

Definition get_shard_bytes (c : t) (now : Z) (hash : DataHash) : result client_failure (list byte) :=
    if shard_is_tagged c hash then Err (ClientFailed OtherError)
    else
      match current_shard_hash_and_bytes now (shard c) with
      | Some (current_hash, bytes) => if decide (current_hash = hash) then Ok bytes else Err (ClientFailed OtherError)
      | None => Err (ClientFailed OtherError)
      end.

Definition delete_shard_entry (c : t) (now : Z) (hash : DataHash) : result client_failure t :=
    match current_shard_hash_and_bytes now (shard c) with
    | Some (current_hash, _) =>
        if decide (current_hash = hash) then
          if lifecycle_tag_deletion c then Ok (with_shard c (shard c) (global_dedup c) (Some current_hash))
          else Ok (with_shard c MDBInMemoryShard.default (global_dedup c) (gc_tagged_shard c))
        else Err (ClientFailed OtherError)
    | None => Err (ClientFailed OtherError)
    end.

Definition shard_tag (hash : DataHash) (bytes : list byte) : DataHash :=
    object_tag_from_key_and_payload [Byte.x73; Byte.x68; Byte.x61; Byte.x72; Byte.x64] hash bytes.

Definition list_shards_with_tags (c : t) (now : Z) : list (DataHash * DataHash) :=
    match current_shard_hash_and_bytes now (shard c) with
    | Some (shard_hash, bytes) => if shard_is_tagged c shard_hash then [] else [(shard_hash, shard_tag shard_hash bytes)]
    | None => []
    end.

Definition delete_shard_if_tag_matches (c : t) (now : Z) (hash tag : DataHash) : result client_failure (bool * t) :=
    match current_shard_hash_and_bytes now (shard c) with
    | Some (current_hash, bytes) =>
        if decide (current_hash = hash) then
          if decide (shard_tag current_hash bytes = tag) then
            if lifecycle_tag_deletion c then Ok (true, with_shard c (shard c) (global_dedup c) (Some current_hash))
            else Ok (true, with_shard c MDBInMemoryShard.default (global_dedup c) (gc_tagged_shard c))
          else Ok (false, c)
        else Err (ClientFailed OtherError)
    | None => Err (ClientFailed OtherError)
    end.

Definition list_file_shard_entries (c : t) (now : Z) : list (DataHash * DataHash) :=
    match current_shard_hash_and_bytes now (shard c) with
    | Some (shard_hash, _) => if shard_is_tagged c shard_hash then [] else (fun e => (e.1, shard_hash)) <$> MDBInMemoryShard.file_content (shard c)
    | None => []
    end.

Definition remove_file (s : MDBInMemoryShard.t) (file_hash : DataHash) : MDBInMemoryShard.t :=
    MDBInMemoryShard.mk (MDBInMemoryShard.xorb_content s) (filter (fun e => e.1 <> file_hash) (MDBInMemoryShard.file_content s))
      (MDBInMemoryShard.chunk_hash_lookup s) (MDBInMemoryShard.current_shard_file_size s).

Definition delete_file_entry (c : t) (file_hash : DataHash) : t :=
    if BTree.contains_key file_hash (MDBInMemoryShard.file_content (shard c))
    then with_shard c (MDBInMemoryShard.recalculate_shard_size (remove_file (shard c) file_hash)) (global_dedup c) (gc_tagged_shard c)
    else c.

Definition remove_shard_dedup_entries (c : t) (now : Z) (shard_hash : DataHash) : t :=
    match current_shard_hash_and_bytes now (shard c) with
    | Some (current_hash, _) => if decide (current_hash = shard_hash) then with_shard c (shard c) ∅ (gc_tagged_shard c) else c
    | None => c
    end.

(** [for segment in &file_info.segments], over all the files. *)
Fixpoint missing_xorb (c : t) (segments : list FileDataSequenceEntry.t) : option DataHash :=
    match segments with
    | [] => None
    | segment :: segments' =>
        let h := FileDataSequenceEntry.xorb_hash segment in
        if negb (bool_decide (is_Some (xorbs c !! h))) || xorb_is_tagged c h then Some h else missing_xorb c segments'
    end.

Definition verify_integrity (c : t) (now : Z) : result client_failure () :=
    if current_shard_tagged c now then Ok tt
    else
      match missing_xorb c (concat ((fun e => MDBFileInfo.segments e.2) <$> MDBInMemoryShard.file_content (shard c))) with
      | Some h => Err (ClientFailed (XORBNotFound h))
      | None => Ok tt
      end.

End Client.

End MemoryClient.

(** Integrity holds when no file that is not hidden with its shard names a xorb that is gone. *)
Lemma verify_integrity_spec `{B3 : Blake3} `{SU : SortUnstable (Z * Z)} c now :
  MemoryClient.verify_integrity c now = Ok tt <->
  (MemoryClient.current_shard_tagged c now = false ->
   forall e seg, e ∈ MDBInMemoryShard.file_content (MemoryClient.shard c) -> seg ∈ MDBFileInfo.segments e.2 -> MemoryClient.xorb_exists c (FileDataSequenceEntry.xorb_hash seg) = true).
Proof.
  unfold MemoryClient.verify_integrity. destruct (MemoryClient.current_shard_tagged c now); [done|].
  assert (forall segs, MemoryClient.missing_xorb c segs = None <-> forall seg, seg ∈ segs -> MemoryClient.xorb_exists c (FileDataSequenceEntry.xorb_hash seg) = true) as H.
  { induction segs as [|seg segs IH]; cbn [MemoryClient.missing_xorb]; [by split; [intros _ ? ?%not_elem_of_nil|]|].
    unfold MemoryClient.xorb_exists at 1. setoid_rewrite elem_of_cons.
    destruct (negb (bool_decide _) || _) eqn:Eb.
    - split; [done|]. intros Hall. specialize (Hall seg (or_introl eq_refl)). apply andb_true_iff in Hall as [H1 H2]. rewrite H2 in Eb. apply negb_true_iff in H1. by rewrite H1 in Eb.
    - rewrite IH. apply orb_false_iff in Eb as [H1 H2]. apply negb_false_iff in H1. split; [|naive_solver].
      intros Hall seg' [->|Hin]; [|by apply Hall]. by rewrite H1, H2. }
  set (segs := concat _). specialize (H segs).
  assert ((forall seg, seg ∈ segs -> MemoryClient.xorb_exists c (FileDataSequenceEntry.xorb_hash seg) = true) <->
    (forall e seg, e ∈ MDBInMemoryShard.file_content (MemoryClient.shard c) -> seg ∈ MDBFileInfo.segments e.2 -> MemoryClient.xorb_exists c (FileDataSequenceEntry.xorb_hash seg) = true)) as Hs.
  { unfold segs. split.
    - intros Hall e seg He Hseg. apply Hall, list_elem_of_In, in_concat. exists (MDBFileInfo.segments e.2). split; [|by apply list_elem_of_In].
      apply list_elem_of_In, list_elem_of_fmap. by exists e.
    - intros Hall seg Hseg. apply list_elem_of_In, in_concat in Hseg as (l & Hl%list_elem_of_In & Hseg%list_elem_of_In).
      apply list_elem_of_fmap in Hl as (e & -> & He). by eapply Hall. }
  rewrite <- Hs, <- H. destruct (MemoryClient.missing_xorb c segs); split; try done. intros Hf. specialize (Hf eq_refl). done.
Qed.

(** ** URLs are read back *)

Lemma hex_not b h : hash_wf h -> is_ascii_hexdigit b = false -> Forall (fun x => x <> b) (hex h).
Proof.
  intros (H0 & H1 & H2 & H3) Hb. unfold is_u64 in *.
  assert (forall v, 0 <= v -> Forall (fun x => x <> b) (format_hex 16 v)) as Hd.
  { intros v Hv. apply Forall_forall. intros x Hx ->. pose proof (format_hex_digits 16 v Hv) as Hf. rewrite forallb_forall in Hf.
    apply list_elem_of_In, Hf in Hx. congruence. }
  unfold hex. rewrite !Forall_app. split_and!; apply Hd; lia.
Qed.

Lemma parse_hash_hex h : hash_wf h -> parse_hash (hex h) = Some h.
Proof. intros Hh. unfold parse_hash. by rewrite from_hex_of_hex. Qed.

Lemma separator_not_digit b : u8 b < 48 \/ 57 < u8 b -> ~ is_decimal_digit b.
Proof. unfold is_decimal_digit. lia. Qed.

Lemma rsplit_once_app sep a b : Forall (fun x => x <> sep) b -> rsplit_once sep (a ++ sep :: b) = Some (a, b).
Proof.
  intros Hb. unfold rsplit_once. rewrite reverse_app, reverse_cons, <- app_assoc. cbn [app].
  rewrite split_once_app; [cbn; by rewrite !reverse_involutive|]. by apply Forall_reverse.
Qed.

Lemma rsplit_once_none sep s : Forall (fun x => x <> sep) s -> rsplit_once sep s = None.
Proof. intros H. unfold rsplit_once. rewrite split_once_none; [done|]. by apply Forall_reverse. Qed.

Lemma fetch_url_parsed h a b ts :
  hash_wf h -> is_u64 a -> is_u64 b -> is_u64 ts -> parse_fetch_url (generate_fetch_url h (FileRange.new a b) ts) = Ok (h, FileRange.new a b, ts).
Proof.
  intros Hh Ha Hb Ht. unfold parse_fetch_url, rsplit4.
  assert (generate_fetch_url h (FileRange.new a b) ts =
    ((hex h ++ Byte.x3a :: write_decimal_u64 a) ++ Byte.x3a :: write_decimal_u64 b) ++ Byte.x3a :: write_decimal_u64 ts) as ->.
  { unfold generate_fetch_url. cbn [FileRange.start FileRange.end_ app]. by rewrite <- !app_assoc. }
  assert (forall v, is_u64 v -> Forall (fun x => x <> Byte.x3a) (write_decimal_u64 v)) as Hd.
  { intros v Hv. apply decimal_not; [done|]. apply separator_not_digit. vm_compute. by right. }
  rewrite (rsplit_once_app _ _ (write_decimal_u64 ts)) by auto. cbn [mbind option_bind].
  rewrite (rsplit_once_app _ _ (write_decimal_u64 b)) by auto. cbn [mbind option_bind].
  rewrite (rsplit_once_app _ _ (write_decimal_u64 a)) by auto. cbn [mbind option_bind]. rewrite parse_hash_hex by done. cbn [mbind option_bind].
  unfold is_u64, max_u64 in *. rewrite !parse_decimal by lia. done.
Qed.

Lemma split_all_join sep l fuel :
  Forall (Forall (fun x => x <> sep)) l -> l <> [] -> (length l <= S fuel)%nat -> split_all fuel sep (join sep l) = l.
Proof.
  intros Hl. revert fuel. induction Hl as [|s l Hs Hl IH]; intros fuel Hne Hf; [done|]. destruct l as [|s' l].
  - cbn [join]. destruct fuel; [done|]. cbn. by rewrite split_once_none.
  - destruct fuel as [|fuel]; [cbn in Hf; lia|]. cbn [join split_all]. rewrite split_once_app by done. f_equal. apply IH; [done|]. cbn in *. lia.
Qed.

Lemma join_length sep l : l <> [] -> (length l <= S (length (join sep l)))%nat.
Proof.
  induction l as [|s [|s' l] IH]; intros Hne; [done|cbn; lia|]. specialize (IH ltac:(done)).
  change (join sep (s :: s' :: l)) with (s ++ sep :: join sep (s' :: l)). rewrite length_app. cbn [length] in *. lia.
Qed.

Section UrlRoundTrip.
  Context `{B64 : Base64}.

Definition range_small (r : XorbRangeDescriptor.t) : Prop :=
    is_u64 (HttpRange.start (XorbRangeDescriptor.bytes r)) /\ is_u64 (HttpRange.end_ (XorbRangeDescriptor.bytes r)).

Lemma parse_range_texts ranges :
    Forall range_small ranges ->
    parse_ranges ((fun r => range_text (HttpRange.start (XorbRangeDescriptor.bytes r)) (HttpRange.end_ (XorbRangeDescriptor.bytes r))) <$> ranges) =
      Some (XorbRangeDescriptor.bytes <$> ranges).
Proof.
  induction 1 as [|[ch [a b]] ranges [Ha Hb] _ IH]; [done|]. cbn in Ha, Hb. cbn [fmap list_fmap parse_ranges XorbRangeDescriptor.bytes HttpRange.start HttpRange.end_].
  unfold range_text at 1. cbn [app]. destruct (write_decimal_u64 a ++ Byte.x2d :: write_decimal_u64 b) as [|x l] eqn:E.
  { by apply app_eq_nil in E as [_ ?]. }
  assert (split_once Byte.x2d (range_text a b) = Some (write_decimal_u64 a, write_decimal_u64 b)) as ->.
  { apply split_once_app, decimal_not; [done|]. apply separator_not_digit. vm_compute. by left. }
  cbn [mbind option_bind]. unfold is_u64, max_u64 in *. rewrite parse_decimal by lia. cbn [mbind option_bind]. rewrite parse_decimal by lia. cbn [mbind option_bind]. by rewrite IH.
Qed.

Lemma v2_url_parsed h ranges ts :
    hash_wf h -> is_u64 ts -> Forall range_small ranges -> ranges <> [] ->
    parse_v2_fetch_url (generate_v2_fetch_url h ranges ts) = Ok (h, ts, XorbRangeDescriptor.bytes <$> ranges).
Proof.
  intros Hh Ht Hr Hne. unfold parse_v2_fetch_url, generate_v2_fetch_url. rewrite base64_roundtrip. cbn [mbind option_bind]. unfold v2_payload. cbn [app].
  rewrite split_once_app by (by apply hex_not). cbn [mbind option_bind].
  rewrite split_once_app by (apply decimal_not; [done|]; apply separator_not_digit; vm_compute; by right). cbn [mbind option_bind].
  rewrite parse_hash_hex by done. cbn [mbind option_bind]. unfold max_u64 at 1. rewrite parse_decimal by (unfold is_u64 in Ht; lia). cbn [mbind option_bind].
  set (texts := (fun r => _) <$> ranges). assert (texts <> []) as Hne' by (by destruct ranges).
  rewrite split_all_join; [|  |done|].
  - unfold texts. rewrite parse_range_texts by done. done.
  - unfold texts. rewrite Forall_fmap. eapply Forall_impl; [exact Hr|]. intros [ch [a b]] [Ha Hb]. cbn in *. unfold range_text. rewrite Forall_app. cbn.
    split; [apply decimal_not; [done|]; apply separator_not_digit; vm_compute; by left|]. constructor; [done|].
    apply decimal_not; [done|]. apply separator_not_digit. vm_compute. by left.
  - by apply join_length.
Qed.

(** A URL of either kind names the xorb and the time. *)
Lemma any_url_parsed h ts :
    hash_wf h -> is_u64 ts ->
    (forall a b, is_u64 a -> is_u64 b -> parse_any_fetch_url (generate_fetch_url h (FileRange.new a b) ts) = Ok (h, ts)) /\
    (forall ranges, Forall range_small ranges -> ranges <> [] -> parse_any_fetch_url (generate_v2_fetch_url h ranges ts) = Ok (h, ts)).
Proof.
  intros Hh Ht. split; [intros a b Ha Hb|intros ranges Hr Hne]; unfold parse_any_fetch_url.
  - by rewrite fetch_url_parsed.
  - assert (parse_fetch_url (generate_v2_fetch_url h ranges ts) = Err (ClientFailed InvalidArgumentsError)) as ->.
    { unfold parse_fetch_url, rsplit4, generate_v2_fetch_url. rewrite rsplit_once_none by apply base64_no_colon. done. }
    by rewrite v2_url_parsed.
Qed.
End UrlRoundTrip.

(** ** Reading what is stored *)

(** The server holds the xorb [h] with the chunks [datas], which [bss] serialise. *)
Record stored `{CC : ChunkConstants} `{CP : Compression} (c : MemoryClient.t) (h : DataHash) (datas bss : list (list byte)) : Prop := {
  stored_entry : exists hashes generation, let i := XorbObject.footer_of h hashes datas bss in
    MemoryClient.xorbs c !! h = Some (MaterializedXorb.mk (object_bytes i bss) (XorbObject.mk i (Z.of_nat (length (info_bytes i)))) generation) /\
    length hashes = length bss /\ info_wf i /\ Z.of_nat (length (info_bytes i)) < 2 ^ 32;
  stored_visible : h ∉ MemoryClient.gc_tagged_xorbs c;
  stored_chunks : Forall2 serialized datas bss;
  stored_fits : sizes_fit datas bss;
  stored_not_empty : bss <> [];
  stored_hash : hash_wf h /\ h <> DataHash.default;
}.

Definition backed `{CC : ChunkConstants} `{CP : Compression} (c : MemoryClient.t) (view : ReconstructionRanges.xorb_view) : Prop :=
  forall h datas bss, view h = Some (datas, bss) -> stored c h datas bss.

Section Stored.
  Context `{B3 : Blake3} `{CC : ChunkConstants} `{CP : Compression} `{B64 : Base64}.
  Hypothesis max_fits : MAX_CHUNK_SIZE < 2 ^ 24.
  Context (c : MemoryClient.t).

Lemma visible_untagged h : h ∉ MemoryClient.gc_tagged_xorbs c -> MemoryClient.xorb_is_tagged c h = false.
Proof. intros H. by apply bool_decide_eq_false. Qed.

Lemma footer_described h datas bss : stored c h datas bss -> exists x, MemoryClient.xorb_footer c h = Ok x /\ describes x datas bss.
Proof.
  intros [(hashes & g & Hx & Hl & Hw & Hf) Hv Hss Hfit Hne [_ Hd]]. eexists. split.
  - unfold MemoryClient.xorb_footer, MemoryClient.visible_xorb. rewrite visible_untagged, Hx by done. cbn. done.
  - cbn. split.
    + by eapply Forall2_length.
    + intros a d. by apply read_chunk_length.
    + intros a b [Hab Hb]. by apply read_byte_offset.
Qed.

Lemma full_xorb_read h datas bss : stored c h datas bss -> MemoryClient.get_full_xorb c h = Ok (concat datas).
Proof.
  intros [(hashes & g & Hx & Hl & Hw & Hf) Hv Hss Hfit Hne [_ Hd]]. unfold MemoryClient.get_full_xorb, MemoryClient.visible_xorb.
  rewrite visible_untagged, Hx by done. cbn [client_ok_or]. rewrite result_bind_Ok. cbn [MaterializedXorb.serialized_data].
  rewrite open_object by done. cbn [try_format]. rewrite result_bind_Ok. unfold object_bytes. by rewrite read_all.
Qed.

Lemma ranges_read h datas bss r :
    stored c h datas bss -> 0 <= ChunkRange.start r < ChunkRange.end_ r -> ChunkRange.end_ r <= Z.of_nat (length datas) ->
    MemoryClient.get_xorb_ranges c h [r] = Ok [concat (datas ⟦Z.to_nat (ChunkRange.start r), Z.to_nat (ChunkRange.end_ r)⟧)].
Proof.
  intros [(hashes & g & Hx & Hl & Hw & Hf) Hv Hss Hfit Hne [_ Hd]] Hr He. unfold MemoryClient.get_xorb_ranges.
  rewrite visible_untagged, Hx by done. cbn [client_ok_or]. rewrite result_bind_Ok. cbn [MaterializedXorb.serialized_data].
  rewrite open_object by done. cbn [try_format]. rewrite result_bind_Ok. cbn [MemoryClient.read_ranges].
  rewrite (proj2 (Z.leb_gt _ _)) by lia. pose proof (Forall2_length _ _ _ Hss) as Hlen.
  rewrite <- (Z2Nat.id (ChunkRange.start r)), <- (Z2Nat.id (ChunkRange.end_ r)) at 1 by lia. unfold object_bytes.
  rewrite read_chunk_range by (done || lia). cbn [try_object]. rewrite !result_bind_Ok. done.
Qed.

Lemma file_read view segments :
    backed c view -> Forall (segment_ok view) segments -> MemoryClient.file_bytes c segments = Ok (file_data view segments).
Proof.
  intros Hb. induction 1 as [|seg segments [(datas & bss & Hv & Hr & He) _] _ IH]; [done|]. cbn [MemoryClient.file_bytes]. cbn in Hr, He.
  rewrite (ranges_read _ datas bss) by (by try apply Hb). rewrite result_bind_Ok. cbn [last client_some]. rewrite result_bind_Ok, IH, result_bind_Ok.
  unfold file_data. cbn [fmap list_fmap concat]. unfold segment_data, range_data, chunks_in. by rewrite Hv.
Qed.

Lemma decode_chunks datas bss a b :
    Forall2 serialized datas bss -> deserialize_chunks (concat (bss ⟦a, b⟧)) = Ok (concat (datas ⟦a, b⟧), 0 :: byte_indices 0 (datas ⟦a, b⟧), []).
Proof.
  intros Hss. unfold deserialize_chunks. destruct (deserialize_stream max_fits (datas ⟦a, b⟧) (bss ⟦a, b⟧)) as [E _].
  { unfold slice. by apply Forall2_take, Forall2_drop. }
  by rewrite (bind_ok _ _ _ _ _ E).
Qed.

(** The http range of the bytes of a range of chunks. *)
Definition http_of (view : ReconstructionRanges.xorb_view) (h : DataHash) (r : ChunkRange.t) : HttpRange.t := http_range_of_file (byte_range_of view h r).

(** The bytes of the serialised xorb that an http range names. *)
Lemma object_slice view h datas bss r tail :
    view h = Some (datas, bss) -> range_ok view h r -> Forall2 serialized datas bss -> sizes_fit datas bss ->
    let f := concat bss ++ tail in
    let end_ := wrap64 (HttpRange.end_ (http_of view h r) + 1) in
    0 <= HttpRange.start (http_of view h r) <= end_ /\ end_ <= Z.of_nat (length f) /\ range_small (XorbRangeDescriptor.mk r (http_of view h r)) /\
    f ⟦Z.to_nat (HttpRange.start (http_of view h r)), Z.to_nat end_⟧ = concat (bss ⟦Z.to_nat (ChunkRange.start r), Z.to_nat (ChunkRange.end_ r)⟧).
Proof.
  intros Hv (datas' & bss' & Hv' & Hr & He) Hss [Hs _] f. rewrite Hv in Hv'. injection Hv' as <- <-. pose proof (Forall2_length _ _ _ Hss) as Hl.
  set (a := Z.to_nat (ChunkRange.start r)) in *. set (b := Z.to_nat (ChunkRange.end_ r)) in *.
  assert (0 < length (concat (bss ⟦a, b⟧)))%nat as Hpos.
  { pose proof (serialized_count max_fits (datas ⟦a, b⟧) (bss ⟦a, b⟧)) as Hc. rewrite slice_length in Hc by lia.
    enough (b - a <= length (concat (bss ⟦a, b⟧)))%nat by lia. apply Hc. unfold slice. by apply Forall2_take, Forall2_drop. }
  pose proof (f_equal length (slice_then_rest bss a b ltac:(lia))) as Elen. rewrite !length_app in Elen.
  pose proof (f_equal length (concat_slice bss a b ltac:(lia))) as Elen'. rewrite length_app in Elen'.
  unfold http_of, byte_range_of. rewrite Hv. fold a b. cbn [http_range_of_file FileRange.start FileRange.end_ HttpRange.start HttpRange.end_].
  unfold http_range_of_file. cbn [FileRange.start FileRange.end_ HttpRange.start HttpRange.end_].
  rewrite (wrap64_small (Z.of_nat (length (concat (take b bss))) - 1)) by (unfold is_u64; lia).
  rewrite wrap64_small by (unfold is_u64; lia). cbn zeta. unfold f. rewrite length_app. split; [lia|]. split; [lia|]. split.
  - unfold range_small, is_u64. cbn. lia.
  - rewrite (slice_then_rest bss a b ltac:(lia)), <- !app_assoc. rewrite slice_middle; [done|lia|lia].
Qed.

Lemma byte_indices_extend cs cs' :
    cs <> [] -> byte_indices 0 cs ++ ((fun o => wrap32 (o + wrap32 (Z.of_nat (length (concat cs))))) <$> byte_indices 0 cs') = byte_indices 0 (cs ++ cs').
Proof.
  intros Hne. rewrite byte_indices_app, byte_indices_shift. destruct cs; [done|]. rewrite !Z.add_0_l. f_equal.
  f_equal. apply Z.mod_small. apply wrap32_is_u32.
Qed.

Lemma block_chunks_cons (view : ReconstructionRanges.xorb_view) h datas bss r ranges :
    view h = Some (datas, bss) ->
    block_chunks view h (r :: ranges) = datas ⟦Z.to_nat (ChunkRange.start r), Z.to_nat (ChunkRange.end_ r)⟧ ++ block_chunks view h ranges.
Proof. intros Hv. unfold block_chunks. cbn [fmap list_fmap concat]. f_equal. unfold chunks_in. by rewrite Hv. Qed.

Lemma term_data_loop_ok view h datas bss tail ranges cs :
    view h = Some (datas, bss) -> Forall2 serialized datas bss -> sizes_fit datas bss -> Forall (range_ok view h) ranges -> cs <> [] ->
    MemoryClient.term_data_loop (concat bss ++ tail) (http_of view h <$> ranges) (concat cs) (0 :: byte_indices 0 cs) =
      Ok (concat (cs ++ block_chunks view h ranges), 0 :: byte_indices 0 (cs ++ block_chunks view h ranges)).
Proof.
  intros Hv Hss Hfit Hok. revert cs. induction Hok as [|r ranges Hr _ IH]; intros cs Hcs.
  { cbn. by rewrite !app_nil_r. }
  destruct (object_slice view h datas bss r tail Hv Hr Hss Hfit) as (H1 & H2 & _ & H3). cbn [fmap list_fmap MemoryClient.term_data_loop]. cbv zeta in H2, H3.
  rewrite (proj2 (Z.leb_le _ _)), (proj2 (Z.leb_le _ _)) by lia. cbn [client_assert andb]. rewrite result_bind_Ok. cbv zeta in H3. rewrite H3.
  rewrite (decode_chunks datas bss) by done. cbn [try_format]. rewrite result_bind_Ok. unfold append_chunk_segment. cbn [drop app].
  rewrite drop_0, byte_indices_extend by done. rewrite <- concat_app. rewrite IH by (intros [? _]%app_eq_nil; done).
  rewrite (block_chunks_cons _ _ _ _ _ _ Hv). by rewrite <- !app_assoc.
Qed.

(** What is fetched for ranges of a xorb is the data of their chunks. *)
Lemma term_data_ok view h datas bss tail ranges :
    view h = Some (datas, bss) -> Forall2 serialized datas bss -> sizes_fit datas bss -> Forall (range_ok view h) ranges -> ranges <> [] ->
    MemoryClient.term_data_loop (concat bss ++ tail) (http_of view h <$> ranges) [] [] =
      Ok (concat (block_chunks view h ranges), 0 :: byte_indices 0 (block_chunks view h ranges)).
Proof.
  intros Hv Hss Hfit Hok Hne. destruct Hok as [|r ranges Hr Hok]; [done|].
  destruct (object_slice view h datas bss r tail Hv Hr Hss Hfit) as (H1 & H2 & _ & H3). cbn [fmap list_fmap MemoryClient.term_data_loop]. cbv zeta in H2, H3.
  rewrite (proj2 (Z.leb_le _ _)), (proj2 (Z.leb_le _ _)) by lia. cbn [client_assert andb]. rewrite result_bind_Ok. rewrite H3.
  rewrite (decode_chunks datas bss) by done. cbn [try_format]. rewrite result_bind_Ok. cbn [append_chunk_segment app].
  rewrite (term_data_loop_ok view h datas bss) ; try done.
  - by rewrite (block_chunks_cons _ _ _ _ _ _ Hv).
  - destruct Hr as (datas' & bss' & Hv' & Hr & He). rewrite Hv in Hv'. injection Hv' as <- <-. intros Hnil%(f_equal length).
    rewrite slice_length in Hnil; cbn in Hnil; lia.
Qed.

Lemma offsets_exact cs : Z.of_nat (length (concat cs)) < 2 ^ 32 -> offsets_ok cs (0 :: byte_indices 0 cs).
Proof.
  intros Hs [|i] Hi; [done|]. cbn [lookup list_lookup]. pose proof (byte_indices_lookup 0 cs i ltac:(lia) ltac:(lia)) as H. exact H.
Qed.
End Stored.
