(* ===== verification/ServerContract.v ===== *)
(** * The server serves its clients

    What the clients of the server rely on, proved of the server: the contract that
    [FileTerms.v] states for a client of the reconstruction, discharged by [MemoryClient] with the
    second version of the API and with the first, the refresh of URLs, the upload of xorbs, and from
    there the whole path: what is downloaded through [FileReconstructor] is the file that was uploaded. *)

From Stdlib Require Import Sorted.
From coqutil Require Import Byte.
From stdpp Require Import base numbers gmap relations sorting list.
From S2P Require Import Prelude DataHash AggregatedHash MerkleSubtree Codec Chunking FileStructs XorbStructs ChunkFormat RawXorb XorbInfo XorbObject ShardMemory ShardFormat.
From S2P Require Import ShardPass StreamingShard CasTypes ChunkWindows ReconstructionRanges FileTerms Reconstructor MemoryClient.

#[local] Open Scope Z_scope.

(** ** Answers to reconstruction queries *)

Section Answers.
  Context `{B3 : Blake3} `{CC : ChunkConstants} `{CP : Compression} `{B64 : Base64}.
  Hypothesis max_fits : MAX_CHUNK_SIZE < 2 ^ 24.

(** The server as a client of the reconstruction, with the second version of the API; times are [u64]. *)
Definition server_v2 (c : MemoryClient.t) : ReconstructionClient client_failure := {|
    get_reconstruction now file_hash range := MemoryClient.get_reconstruction_v2 c (wrap64 now) file_hash range;
    get_file_term_data now url ranges := MemoryClient.get_file_term_data c (wrap64 now) url ranges;
  |}.

Definition reconstruction_from_v1 (c : MemoryClient.t) (now : Z) (file_hash : DataHash) (range : option FileRange.t) :
    result client_failure (option QueryReconstructionResponseV2.t) :=
    match MemoryClient.get_reconstruction_v1 c now file_hash range with
    | Ok r => Ok (option_map QueryReconstructionResponseV2.from_v1 r)
    | Err err => Err err
    end.

(** The same with the first version, whose answers are converted. *)
Definition server_v1 (c : MemoryClient.t) : ReconstructionClient client_failure := {|
    get_reconstruction now file_hash range := reconstruction_from_v1 c (wrap64 now) file_hash range;
    get_file_term_data now url ranges := MemoryClient.get_file_term_data c (wrap64 now) url ranges;
  |}.

Lemma chunks_of_ok {A} fuel n (l : list A) :
    (0 < n)%nat -> (length l <= fuel)%nat -> concat (MemoryClient.chunks_of fuel n l) = l /\ Forall (fun k => k <> []) (MemoryClient.chunks_of fuel n l).
Proof.
  intros Hn. revert l. induction fuel as [|fuel IH]; intros [|x l] Hl; cbn [MemoryClient.chunks_of]; [done|cbn in Hl; lia|done|].
  destruct (IH (drop n (x :: l))) as [E F]; [rewrite length_drop; cbn [length] in *; lia|]. split.
  - cbn [concat]. rewrite E. apply take_drop.
  - constructor; [|done]. destruct n; [lia|done].
Qed.

Lemma separated_sorted ranges :
    Forall (fun r => chunk_start r < chunk_end r) ranges -> separated ranges -> StronglySorted before (MergedRange.chunk_range <$> ranges).
Proof.
  unfold separated. induction 1 as [|r ranges Hr Hf IH]; intros Hs; [constructor|]. apply Sorted_inv in Hs as [Hs Hhd]. specialize (IH Hs).
  cbn [fmap list_fmap]. constructor; [done|]. destruct ranges as [|r1 ranges]; [constructor|]. apply HdRel_inv in Hhd. cbn [fmap list_fmap] in *.
  apply StronglySorted_inv in IH as [_ IH]. apply Forall_cons in Hf as [Hr1 _]. constructor; [unfold before, chunk_end, chunk_start in *; lia|].
  eapply Forall_impl; [exact IH|]. intros r2. unfold before, chunk_end, chunk_start in *. lia.
Qed.

(** The entries stand for the ranges of the xorb [h], and their URLs name it. *)
Definition entries_ok (h : DataHash) (ranges : list MergedRange.t) (entries : list XorbMultiRangeFetch.t) : Prop :=
    all_ranges entries = MemoryClient.range_descriptor <$> ranges /\
    forall entry, entry ∈ entries -> XorbMultiRangeFetch.ranges entry <> [] /\ exists ts, parse_any_fetch_url (XorbMultiRangeFetch.url entry) = Ok (h, ts).

  Context (c : MemoryClient.t) (view : ReconstructionRanges.xorb_view).
  Hypothesis backing : backed c view.
  Hypothesis wf : view_wf view.

Lemma merged_descriptor h r : merged_ok view h r -> MemoryClient.range_descriptor r = XorbRangeDescriptor.mk (MergedRange.chunk_range r) (http_of view h (MergedRange.chunk_range r)).
Proof. intros [_ Hb]. unfold MemoryClient.range_descriptor, http_of. by rewrite Hb. Qed.

Lemma merged_small h r : merged_ok view h r -> hash_wf h /\ range_small (MemoryClient.range_descriptor r) /\ exists a b, MergedRange.byte_range r = FileRange.new a b /\ is_u64 a /\ is_u64 b.
Proof.
  intros Hm. pose proof Hm as [Hr Hb]. pose proof Hr as (datas & bss & Hv & _). destruct (backing _ _ _ Hv) as [_ _ Hss Hfit _ [Hh _]].
  rewrite (merged_descriptor h) by done. destruct (object_slice max_fits view h datas bss (MergedRange.chunk_range r) [] Hv Hr Hss Hfit) as (_ & _ & Hsmall & _).
  split; [done|]. split; [done|]. rewrite Hb. unfold byte_range_of. rewrite Hv. eexists _, _. split; [done|]. destruct Hfit as [Hf _]. unfold is_u64.
  pose proof (concat_take_all bss (Z.to_nat (ChunkRange.start (MergedRange.chunk_range r)))). pose proof (concat_take_all bss (Z.to_nat (ChunkRange.end_ (MergedRange.chunk_range r)))). lia.
Qed.

Lemma v2_entries_ok h ranges now n : 0 < n -> Forall (merged_ok view h) ranges -> entries_ok h ranges (MemoryClient.fetch_entries n h (wrap64 now) ranges).
Proof.
  intros Hn Hm. unfold MemoryClient.fetch_entries. set (k := Z.to_nat _).
  assert (concat (MemoryClient.chunks_of (length ranges) k ranges) = ranges /\ Forall (fun l => l <> []) (MemoryClient.chunks_of (length ranges) k ranges)) as [E F].
  { destruct ranges as [|r ranges]; [done|]. apply chunks_of_ok; [unfold k; cbn [length]; lia|done]. }
  clearbody k. split.
  - transitivity (MemoryClient.range_descriptor <$> concat (MemoryClient.chunks_of (length ranges) k ranges)); [|by rewrite E].
    unfold all_ranges. clear E F. induction (MemoryClient.chunks_of _ _ _) as [|x l IH]; [done|]. cbn [fmap list_fmap concat]. rewrite IH. by rewrite fmap_app.
  - intros entry (g & -> & Hg)%list_elem_of_fmap. cbn. rewrite Forall_forall in F. assert (Forall (merged_ok view h) g) as Hmk.
    { rewrite Forall_forall in Hm |- *. intros r Hr. apply Hm. rewrite <- E. apply list_elem_of_In, in_concat. exists g. split; by apply list_elem_of_In. }
    specialize (F g Hg). split; [by destruct g|]. exists (wrap64 now). destruct g as [|r g]; [done|]. pose proof Hmk as [Hr _]%Forall_cons. destruct (merged_small _ _ Hr) as [Hh _].
    apply (any_url_parsed h (wrap64 now)); [done|apply wrap64_is_u64| |done]. rewrite Forall_fmap. eapply Forall_impl; [exact Hmk|]. intros r' Hr'. apply (merged_small h r' Hr').
Qed.

Lemma v1_entries_ok h ranges now :
    Forall (merged_ok view h) ranges -> entries_ok h ranges (QueryReconstructionResponseV2.fetch_of_info <$> MemoryClient.fetch_infos_of (wrap64 now) h ranges).
Proof.
  intros Hm. split.
  - unfold all_ranges, MemoryClient.fetch_infos_of. induction ranges as [|r ranges IH]; [done|]. apply Forall_cons in Hm as [_ Hm]. cbn [fmap list_fmap concat]. rewrite IH by done. done.
  - intros entry (info & -> & (r & -> & Hr)%list_elem_of_fmap)%list_elem_of_fmap. cbn. split; [done|]. exists (wrap64 now). rewrite Forall_forall in Hm.
    destruct (merged_small h r (Hm _ Hr)) as (Hh & _ & a & b & -> & Ha & Hb). by apply (any_url_parsed h (wrap64 now)); [|apply wrap64_is_u64|..].
Qed.

Lemma fetched_ranges_ok h ranges entries :
    Forall (merged_ok view h) ranges -> separated ranges -> entries_ok h ranges entries ->
    StronglySorted before (XorbRangeDescriptor.chunks <$> all_ranges entries) /\
    Forall (fun d => range_ok view h (XorbRangeDescriptor.chunks d) /\ XorbRangeDescriptor.bytes d = http_of view h (XorbRangeDescriptor.chunks d)) (all_ranges entries).
Proof.
  intros Hm Hs [-> _]. split.
  - rewrite <- list_fmap_compose. apply separated_sorted; [|done]. eapply Forall_impl; [exact Hm|].
    intros r [(datas & bss & _ & Hr & _) _]. unfold chunk_start, chunk_end. lia.
  - rewrite Forall_fmap. eapply Forall_impl; [exact Hm|]. intros r Hr. pose proof Hr as [Hr1 _]. unfold compose. by rewrite (merged_descriptor h r Hr).
Qed.

Lemma selection_sorted entries entry sel :
    entry ∈ entries -> selection entry sel -> StronglySorted before (XorbRangeDescriptor.chunks <$> all_ranges entries) ->
    StronglySorted before (XorbRangeDescriptor.chunks <$> sel).
Proof.
  intros (l1 & l2 & ->)%list_elem_of_split [_ [->|(d & _ & ->)]] Hs; [|repeat constructor]. unfold all_ranges in Hs.
  rewrite fmap_app, concat_app, fmap_app in Hs. apply StronglySorted_app_2 in Hs. cbn [fmap list_fmap concat] in Hs. rewrite fmap_app in Hs.
  by apply StronglySorted_app_1 in Hs.
Qed.

Lemma selection_member entries entry sel d : entry ∈ entries -> selection entry sel -> d ∈ sel -> d ∈ all_ranges entries.
Proof.
  intros He [_ Hsel] Hd. apply elem_of_all_ranges. exists entry. split; [done|]. destruct Hsel as [->|(d' & Hd' & ->)]; [done|].
  by apply list_elem_of_singleton in Hd as ->.
Qed.

(** What is fetched for a selection of the ranges of an entry. *)
Lemma fetched_data_ok h ranges entries entry sel now d o :
    Forall (merged_ok view h) ranges -> separated ranges -> entries_ok h ranges entries -> entry ∈ entries -> selection entry sel ->
    MemoryClient.get_file_term_data c now (XorbMultiRangeFetch.url entry) (XorbRangeDescriptor.bytes <$> sel) = Ok (d, o) ->
    block_data_ok view h (XorbRangeDescriptor.chunks <$> sel) d o.
Proof.
  intros Hm Hs He Hin Hsel Hget. destruct (fetched_ranges_ok _ _ _ Hm Hs He) as [Hsort Hall].
  assert (Forall (fun d => range_ok view h (XorbRangeDescriptor.chunks d) /\ XorbRangeDescriptor.bytes d = http_of view h (XorbRangeDescriptor.chunks d)) sel) as Hok.
  { rewrite Forall_forall in Hall |- *. intros d' Hd'. by eapply Hall, selection_member. }
  assert (XorbRangeDescriptor.bytes <$> sel = http_of view h <$> (XorbRangeDescriptor.chunks <$> sel)) as Eb.
  { rewrite <- list_fmap_compose. apply Forall_fmap_ext_1. eapply Forall_impl; [exact Hok|]. by intros ? []. }
  assert (Forall (range_ok view h) (XorbRangeDescriptor.chunks <$> sel)) as Hr by (rewrite Forall_fmap; eapply Forall_impl; [exact Hok|]; by intros ? []).
  destruct Hsel as [Hne Hsel'] eqn:Esel. assert (XorbRangeDescriptor.chunks <$> sel <> []) as Hne' by (by destruct sel).
  assert (exists datas bss, view h = Some (datas, bss)) as (datas & bss & Hv).
  { destruct (XorbRangeDescriptor.chunks <$> sel); [done|]. apply Forall_cons in Hr as [(datas & bss & ? & _) _]. by exists datas, bss. }
  destruct (proj2 He entry Hin) as [_ [ts Hurl]]. unfold MemoryClient.get_file_term_data in Hget. rewrite Hurl, result_bind_Ok in Hget.
  destruct (MemoryClient.url_expired c now ts); [done|]. destruct (backing _ _ _ Hv) as [(hashes & g & Hx & _) Hvis Hss Hfit _ _].
  unfold MemoryClient.visible_xorb in Hget. rewrite visible_untagged, Hx in Hget by done. cbn [client_ok_or] in Hget. rewrite result_bind_Ok in Hget.
  cbn [MaterializedXorb.serialized_data] in Hget. unfold object_bytes in Hget. rewrite Eb, (term_data_ok max_fits view h datas bss) in Hget by done.
  injection Hget as <- <-. split; [done|]. apply offsets_exact. eapply block_small; [exact wf| |done]. by eapply selection_sorted.
Qed.

Lemma answer_ok `{RC : ReconstructionClient client_failure} data s e offset terms merged (xorbs : gmap DataHash (list XorbMultiRangeFetch.t)) :
    (forall now url ranges, get_file_term_data now url ranges = MemoryClient.get_file_term_data c (wrap64 now) url ranges) ->
    covers view data s e offset terms -> fetches view terms merged ->
    (forall h, match merged !! h with Some ranges => exists entries, xorbs !! h = Some entries /\ entries_ok h ranges entries | None => xorbs !! h = None end) ->
    response_ok view data s e (QueryReconstructionResponseV2.mk offset terms xorbs).
Proof.
  intros Hget Hc [F1 F2 F3 _] Hx. split; cbn; [done|..].
  - intros t Ht. destruct (proj2 (F1 (XorbReconstructionTerm.hash t))) as [ranges Hm]; [by exists t|]. specialize (Hx (XorbReconstructionTerm.hash t)).
    rewrite Hm in Hx. destruct Hx as (entries & Hx & He). destruct (F3 t ranges Ht Hm) as (r & Hr & Hcont).
    exists entries, (MemoryClient.range_descriptor r). split; [done|]. split; [|done]. rewrite (proj1 He). apply list_elem_of_fmap. by exists r.
  - intros h entries Hh. specialize (Hx h). destruct (merged !! h) as [ranges|] eqn:Hm; [|congruence]. destruct Hx as (entries' & Hx & He).
    rewrite Hx in Hh. injection Hh as <-. destruct (F2 _ _ Hm) as [G1 G2]. destruct (fetched_ranges_ok _ _ _ G1 G2 He) as [Hs Ha]. split; [done|].
    eapply Forall_impl; [exact Ha|]. by intros ? [].
  - intros h entries entry sel now d o Hh Hin Hsel Hd. specialize (Hx h). destruct (merged !! h) as [ranges|] eqn:Hm; [|congruence].
    destruct Hx as (entries' & Hx & He). rewrite Hx in Hh. injection Hh as <-. destruct (F2 _ _ Hm) as [G1 G2]. rewrite Hget in Hd.
    by eapply fetched_data_ok.
Qed.

(** *** The file *)

  Context (file_hash : DataHash) (fi : MDBFileInfo.t).
  Hypothesis registered : MDBInMemoryShard.get_file_reconstruction_info (MemoryClient.shard c) file_hash = Some fi.
  Hypothesis segments_ok : Forall (segment_ok view) (MDBFileInfo.segments fi).
Let data := file_data view (MDBFileInfo.segments fi).
Let size := Z.of_nat (length data).
  Hypothesis size_fits : size < 2 ^ 64.

Lemma footers_described h datas bss : view h = Some (datas, bss) -> exists x, MemoryClient.xorb_footer c h = Ok x /\ describes x datas bss.
Proof. intros Hv. by apply footer_described, backing. Qed.

Lemma covers_not_empty s e offset terms : covers view data s e offset terms -> terms <> [].
Proof. intros [_ _ (t & ts & _ & _ & -> & _)]. done. Qed.

Lemma ranges_answer s e :
    0 <= s < e ->
    (s < size /\ exists offset terms merged, MemoryClient.reconstruction_ranges c file_hash (Some (FileRange.new s e)) = Ok (Some (offset, terms, merged)) /\
       covers view data s (Z.min e size) offset terms /\ fetches view terms merged) \/
    (size <= s /\ MemoryClient.reconstruction_ranges c file_hash (Some (FileRange.new s e)) = Ok (if (size =? 0) && (s =? 0) then Some (0, [], ∅) else None)).
Proof.
  intros Hse. unfold MemoryClient.reconstruction_ranges. rewrite registered. destruct (Z.lt_ge_cases s size) as [Hs|Hs]; [left|right]; (split; [done|]).
  - destruct (compute_ranges_ok (MemoryClient.xorb_footer c) view footers_described wf fi segments_ok size_fits (Some (FileRange.new s e)))
      as (offset & terms & merged & ? & ? & ?); [intros r [= <-]; cbn; fold data size; lia|fold data size; lia|]. by exists offset, terms, merged.
  - by apply (compute_beyond (MemoryClient.xorb_footer c) view fi segments_ok size_fits (Some (FileRange.new s e)) (FileRange.new s e)).
Qed.

(** With the second version of the API the server keeps the contract. *)
Lemma server_v2_serves : 0 < MemoryClient.max_ranges_per_fetch c -> serves (RC := server_v2 c) view file_hash data.
Proof.
  intros Hn now s e r Hse He Hget. cbn in Hget. unfold MemoryClient.get_reconstruction_v2 in Hget.
  destruct (ranges_answer s e Hse) as [(Hs & offset & terms & merged & E & Hc & Hf)|[Hs E]]; rewrite E, result_bind_Ok in Hget; fold size.
  - destruct terms as [|t terms]; [by apply covers_not_empty in Hc|]. rewrite (proj2 (Z.eqb_neq _ 0)) in Hget by lia.
    rewrite orb_true_r in Hget. cbn [client_assert] in Hget. rewrite result_bind_Ok in Hget. injection Hget as <-. left. split; [done|].
    eapply answer_ok; [done|done|done|]. intros h. rewrite map_lookup_imap. destruct (merged !! h) as [ranges|] eqn:Hm; [|done]. cbn.
    eexists. split; [done|]. apply v2_entries_ok; [done|]. by apply (fetches_ok _ _ _ Hf).
  - destruct (Z.eqb_spec size 0) as [H0|H0]; cbn in Hget; [|by injection Hget as <-]. destruct (Z.eqb_spec s 0) as [Hs0|Hs0]; injection Hget as <-; [|done].
    right. split; [|done]. unfold size in H0. lia.
Qed.

(** With the first version too. *)
Lemma server_v1_serves : serves (RC := server_v1 c) view file_hash data.
Proof.
  intros now s e r Hse He Hget. cbn in Hget. unfold reconstruction_from_v1, MemoryClient.get_reconstruction_v1 in Hget.
  destruct (ranges_answer s e Hse) as [(Hs & offset & terms & merged & E & Hc & Hf)|[Hs E]]; rewrite E, result_bind_Ok in Hget; fold size.
  - destruct terms as [|t terms]; [by apply covers_not_empty in Hc|]. injection Hget as <-. left. split; [done|].
    eapply answer_ok; [done|done|done|]. cbn. intros h. rewrite lookup_fmap, map_lookup_imap. destruct (merged !! h) as [ranges|] eqn:Hm; [|done]. cbn.
    eexists. split; [done|]. apply v1_entries_ok. by apply (fetches_ok _ _ _ Hf).
  - destruct (Z.eqb_spec size 0) as [H0|H0]; cbn in Hget; [|by injection Hget as <-]. destruct (Z.eqb_spec s 0) as [Hs0|Hs0]; injection Hget as <-; [|done].
    right. split; [|done]. unfold size in H0. lia.
Qed.
End Answers.

(** ** Uploads *)

Section Uploads.
  Context `{B3 : Blake3} `{CC : ChunkConstants} `{CP : Compression} `{B64 : Base64}.
  Hypothesis max_fits : MAX_CHUNK_SIZE < 2 ^ 24.

Definition chunks_footer (chunks : list Chunk) (bss : list (list byte)) : XorbObjectInfoV1.t :=
    XorbObject.footer_of (xorb_hash (chunk_node <$> chunks)) (chunk_hash <$> chunks) (chunk_data <$> chunks) bss.

(** The xorb [sx] holds the chunks, which [bss] serialise, with a footer or without. *)
Record built (chunks : list Chunk) (bss : list (list byte)) (sx : SerializedXorbObject.t) : Prop := {
    built_hashed : hashed chunks;
    built_not_empty : chunks <> [] /\ Forall (fun d => d <> []) (chunk_data <$> chunks);
    built_serialized : Forall2 serialized (chunk_data <$> chunks) bss;
    built_fits : sizes_fit (chunk_data <$> chunks) bss;
    built_footer : info_wf (chunks_footer chunks bss);
    built_hash : SerializedXorbObject.hash sx = xorb_hash (chunk_node <$> chunks) /\ SerializedXorbObject.hash sx <> DataHash.default;
    built_bytes : SerializedXorbObject.serialized_data sx =
      match SerializedXorbObject.footer_start sx with Some _ => object_bytes (chunks_footer chunks bss) bss | None => concat bss end;
}.

(** What is built from chunks is such a xorb, with any compression scheme, with a footer or without. *)
Lemma built_from_chunks chunks bounds xorb scheme retest footer sx :
    hashed chunks -> chunks <> [] -> Forall (fun c => chunk_data c <> []) chunks -> chunks_small (chunk_data <$> chunks) -> build_fits chunks ->
    file_boundaries_ok (length chunks) bounds -> xorb_hash (chunk_node <$> chunks) <> DataHash.default ->
    RawXorbData.from_chunks chunks bounds = Some xorb -> SerializedXorbObject.from_xorb_with_compression xorb scheme footer retest = Ok sx ->
    exists bss, built chunks bss sx.
Proof.
  intros Hh Hne Hd Hsm Hf Hb Hx Ex E. destruct (from_xorb_spec max_fits chunks bounds xorb scheme retest) as (bss & Hss & Hw & Es); [done|by apply hashed_wf|by apply hashed_xorb_hash_wf|done|done|done|].
  rewrite Es in E. injection E as <-. exists bss. constructor; cbn; try done.
  - split; [done|]. by rewrite Forall_fmap.
  - by apply sizes_fit_build.
  - by destruct footer.
Qed.

Lemma footer_small chunks bss sx : built chunks bss sx -> Z.of_nat (length (info_bytes (chunks_footer chunks bss))) < 2 ^ 32.
Proof.
  intros [_ _ Hss [Hf _] Hw _ _]. pose proof (Forall2_length _ _ _ Hss) as Hl. rewrite length_fmap in Hl. unfold chunks_footer in *. rewrite footer_length by done.
  rewrite length_fmap. lia.
Qed.

(** Uploading a xorb stores it, footer or not, under its hash and makes it visible again if it was
    tagged; the other xorbs and the shard are left alone. *)
Lemma upload_xorb_stores c chunks bss sx :
    built chunks bss sx ->
    exists n c', MemoryClient.upload_xorb c sx = Ok (n, c') /\ stored c' (SerializedXorbObject.hash sx) (chunk_data <$> chunks) bss /\
      n = Z.of_nat (length (object_bytes (chunks_footer chunks bss) bss)) /\
      MemoryClient.shard c' = MemoryClient.shard c /\ MemoryClient.max_ranges_per_fetch c' = MemoryClient.max_ranges_per_fetch c /\
      forall h datas bss', h <> SerializedXorbObject.hash sx -> stored c h datas bss' -> stored c' h datas bss'.
Proof.
  intros Hbuilt. pose proof (footer_small _ _ _ Hbuilt) as Hsmall. destruct Hbuilt as [Hh [Hne Hd] Hss Hfit Hw [Eh Hnd] Eb].
  set (i := chunks_footer chunks bss) in *. set (x := XorbObject.mk i (Z.of_nat (length (info_bytes i)))).
  assert (exists n c', MemoryClient.upload_xorb c sx = Ok (n, c') /\ n = Z.of_nat (length (object_bytes i bss)) /\
    c' = MemoryClient.with_xorbs c (<[SerializedXorbObject.hash sx := MaterializedXorb.mk (object_bytes i bss) x (MemoryClient.xorb_generation c)]> (MemoryClient.xorbs c))
           (wrap64 (MemoryClient.xorb_generation c + 1)) (MemoryClient.gc_tagged_xorbs c ∖ {[SerializedXorbObject.hash sx]})) as (n & c' & E & En & Ec).
  { unfold MemoryClient.upload_xorb. cbv zeta. rewrite Eb. destruct (SerializedXorbObject.footer_start sx).
    - rewrite open_object by done. cbn [try_format]. rewrite !result_bind_Ok. eexists _, _. split; [done|]. done.
    - pose proof (reconstruct_spec max_fits (chunk_data <$> chunks) bss [] Hss Hfit (or_introl eq_refl)) as Hr. rewrite app_nil_r in Hr.
      rewrite Hr; [|rewrite <- (hashed_nodes _ Hh); by apply hashed_xorb_hash_wf|apply data_hashes_wf]. cbn [try_format]. rewrite result_bind_Ok.
      rewrite <- (hashed_nodes _ Hh), <- (hashed_hashes _ Hh), <- Eh. rewrite decide_True by done. rewrite result_bind_Ok.
      unfold x, i, chunks_footer. rewrite <- Eh. eexists _, _. done. }
  exists n, c'. split; [done|]. subst c'. split_and!; try done.
  - constructor; cbn; try done.
    + exists (chunk_hash <$> chunks), (MemoryClient.xorb_generation c). pose proof (Forall2_length _ _ _ Hss) as Hl. rewrite length_fmap in Hl.
      unfold x, i, chunks_footer in *. rewrite <- Eh in *. rewrite lookup_insert_eq, length_fmap. done.
    + set_solver.
    + intros ->. apply Forall2_nil_inv_r in Hss. by destruct chunks.
    + split; [|done]. rewrite Eh. by apply hashed_xorb_hash_wf.
  - intros h datas bss' Hne' [(hashes & g & Hx & Hrest) Hv ? ? ? ?]. constructor; cbn; try done; [|set_solver]. exists hashes, g. by rewrite lookup_insert_ne.
Qed.

(** *** Shards *)

Lemma add_files_load s files : Forall MDBFileInfo.valid files -> MemoryClient.add_files s (file_view <$> files) = client_some (fold_left load_file files (Some s)).
Proof.
  intros Hf. revert s. induction Hf as [|i files Hi _ IH]; intros s; [done|]. cbn [fmap list_fmap MemoryClient.add_files fold_left].
  destruct (rebuilt_file_spec i Hi) as (Hr & _). rewrite Hr. cbn [client_some]. rewrite result_bind_Ok, IH. unfold load_file at 3. cbn. by rewrite Hr.
Qed.

Lemma add_xorbs_load s xorbs : Forall MDBXorbInfo.valid xorbs -> MemoryClient.add_xorbs s (StreamingShard.xorb_view <$> xorbs) = client_some (fold_left load_xorb xorbs (Some s)).
Proof.
  intros Hf. revert s. induction Hf as [|i xorbs Hi _ IH]; intros s; [done|]. cbn [fmap list_fmap MemoryClient.add_xorbs fold_left].
  destruct (rebuilt_xorb_spec i Hi) as (Hr & _). rewrite Hr. cbn [client_some]. rewrite result_bind_Ok, IH. unfold load_xorb at 3. cbn. by rewrite Hr.
Qed.

(** Uploading the bytes of a shard registers its files and offers its eligible chunks for
    deduplication; files and chunks that the shard does not have are kept, as are the xorbs. *)
Lemma upload_shard_registers `{SU : SortUnstable (Z * Z)} c now mdb expiry :
    shard_wf (MemoryClient.shard c) -> storable mdb ->
    let bytes := (MDBShardInfo.serialize_from now mdb expiry).1 in
    exists c', MemoryClient.upload_shard c bytes = Ok c' /\ MemoryClient.xorbs c' = MemoryClient.xorbs c /\
      MemoryClient.gc_tagged_xorbs c' = MemoryClient.gc_tagged_xorbs c /\ MemoryClient.gc_tagged_shard c' = None /\
      (forall h, MDBInMemoryShard.get_file_reconstruction_info (MemoryClient.shard c') h =
         match MDBInMemoryShard.get_file_reconstruction_info mdb h with
         | Some i => Some (rebuilt_file i)
         | None => MDBInMemoryShard.get_file_reconstruction_info (MemoryClient.shard c) h
         end) /\
      (forall h, eligible (MDBInMemoryShard.file_content mdb).*2 (MDBInMemoryShard.xorb_content mdb).*2 h -> MemoryClient.global_dedup c' !! h = Some bytes) /\
      (forall h, ~ eligible (MDBInMemoryShard.file_content mdb).*2 (MDBInMemoryShard.xorb_content mdb).*2 h ->
         MemoryClient.global_dedup c' !! h = MemoryClient.global_dedup c !! h).
Proof.
  intros Hwfc Hs bytes. pose proof Hs as [Hwf Hvf Hvx _ _]. unfold MemoryClient.upload_shard.
  assert (exists rest, bytes = stream_bytes (MDBInMemoryShard.file_content mdb).*2 (MDBInMemoryShard.xorb_content mdb).*2 ++ rest) as [rest Er].
  { unfold bytes. rewrite serialize_from_spec by done. apply (shard_bytes_stream DataHash.default 0 _ mdb Hs). }
  set (files := (MDBInMemoryShard.file_content mdb).*2) in *. set (xorbs := (MDBInMemoryShard.xorb_content mdb).*2) in *.
  assert (Forall MDBFileInfo.valid files) as Hf by (by apply Forall_fmap). assert (Forall MDBXorbInfo.valid xorbs) as Hx by (by apply Forall_fmap).
  assert (MDBMinimalShard.from_reader true true bytes = Ok (view_shard files xorbs, rest)) as Efr.
  { rewrite Er. apply from_reader_written; [done|done|]. by apply stored_hashes. }
  rewrite Efr. cbn [try_format]. rewrite result_bind_Ok. cbn [view_shard MDBMinimalShard.file_info_views MDBMinimalShard.xorb_info_views].
  destruct (add_files_content (MDBInMemoryShard.file_content mdb) (MemoryClient.shard c) Hvf) as (s1 & E1 & X1 & F1).
  { intros e He. apply (wf_file_keys _ Hwf), sorted_lookup; [by apply wf_files_sorted|]. by destruct e. }
  destruct (add_xorbs_content (MDBInMemoryShard.xorb_content mdb) s1 Hvx) as (s2 & E2 & F2 & X2).
  { intros e He. apply (wf_xorb_keys _ Hwf), sorted_lookup; [by apply wf_xorbs_sorted|]. by destruct e. }
  rewrite add_files_load by done. fold files in E1. rewrite E1. cbn [client_some]. rewrite result_bind_Ok, add_xorbs_load by done. fold xorbs in E2. rewrite E2.
  cbn [client_some]. rewrite result_bind_Ok. destruct (eligible_chunks_spec files xorbs Hf Hx) as (hs & Eh & Hhs). rewrite Eh.
  cbn [client_some]. rewrite result_bind_Ok. eexists. split; [done|]. cbn. split_and!; try done.
  - destruct (sorted_values rebuilt_file _ (wf_files_sorted _ Hwf)) as [K1 M1]. intros h. unfold MDBInMemoryShard.get_file_reconstruction_info.
    destruct (insert_all (MDBInMemoryShard.file_content (MemoryClient.shard c)) _ (wf_files_sorted _ Hwfc) K1) as [K2 M2]. rewrite F2, F1.
    rewrite !get_to_map; [|apply Hwfc|apply Hwf|exact K2]. rewrite M2, M1, lookup_union, lookup_fmap.
    destruct (to_map (MDBInMemoryShard.file_content mdb) !! h); cbn; [by destruct (to_map _ !! h)|by destruct (to_map _ !! h)].
  - intros h He. apply lookup_union_Some_l, lookup_gset_to_gmap_Some. by rewrite Hhs.
  - intros h He. apply lookup_union_r, lookup_gset_to_gmap_None. by rewrite Hhs.
Qed.
End Uploads.

(** ** The server as a whole *)

Section Reachable.
  Context `{B3 : Blake3} `{CC : ChunkConstants} `{CP : Compression} `{SU : SortUnstable (Z * Z)} `{B64 : Base64}.
  Hypothesis max_fits : MAX_CHUNK_SIZE < 2 ^ 24.

Definition view_with (view : ReconstructionRanges.xorb_view) (h : DataHash) (v : option (list (list byte) * list (list byte))) : ReconstructionRanges.xorb_view :=
    fun h' => if decide (h' = h) then v else view h'.

(** The states of the server after uploads and deletions, with the xorbs that it holds.  The shards
    are any bytes that it accepts. *)
Inductive reachable : MemoryClient.t -> ReconstructionRanges.xorb_view -> Prop :=
  | server_new : reachable MemoryClient.new (fun _ => None)
  | server_uploads_xorb c view chunks bss sx n c' : reachable c view -> built chunks bss sx -> MemoryClient.upload_xorb c sx = Ok (n, c') ->
      reachable c' (view_with view (SerializedXorbObject.hash sx) (Some (chunk_data <$> chunks, bss)))
  | server_uploads_shard c view bytes c' : reachable c view -> MemoryClient.upload_shard c bytes = Ok c' -> reachable c' view
  | server_deletes_xorb c view h : reachable c view -> reachable (MemoryClient.delete_xorb c h) (view_with view h None)
  | server_deletes_if_tagged c view h tag b c' : reachable c view -> MemoryClient.delete_xorb_if_tag_matches c h tag = Ok (b, c') ->
      reachable c' (if b then view_with view h None else view)
  | server_deletes_file c view h : reachable c view -> reachable (MemoryClient.delete_file_entry c h) view
  | server_deletes_shard c view now h c' : reachable c view -> MemoryClient.delete_shard_entry c now h = Ok c' -> reachable c' view
  | server_deletes_shard_if_tagged c view now h tag b c' : reachable c view -> MemoryClient.delete_shard_if_tag_matches c now h tag = Ok (b, c') -> reachable c' view
  | server_forgets_dedup c view now h : reachable c view -> reachable (MemoryClient.remove_shard_dedup_entries c now h) view
  | server_configured c view ms secs max_ranges on : reachable c view -> 0 < max_ranges -> reachable (MemoryClient.with_settings c ms secs max_ranges on) view.

Record server_ok (c : MemoryClient.t) (view : ReconstructionRanges.xorb_view) : Prop := {
    ok_backed : backed c view;
    ok_view : view_wf view;
    ok_ranges : 0 < MemoryClient.max_ranges_per_fetch c;
    ok_shard : shard_wf (MemoryClient.shard c);
}.

Lemma add_files_wf s views s' : MemoryClient.add_files s views = Ok s' -> shard_wf s -> shard_wf s'.
Proof.
  revert s. induction views as [|v views IH]; intros s; cbn [MemoryClient.add_files]; [by intros [= <-]|].
  destruct (MDBFileInfoView.to_file_info v) as [fi|]; [|done]. cbn [client_some]. rewrite result_bind_Ok. intros E Hs. by eapply IH, add_file_wf.
Qed.

Lemma add_xorbs_wf s views s' : MemoryClient.add_xorbs s views = Ok s' -> shard_wf s -> shard_wf s'.
Proof.
  revert s. induction views as [|v views IH]; intros s; cbn [MemoryClient.add_xorbs]; [by intros [= <-]|].
  destruct (MDBXorbInfoView.to_xorb_info v) as [x|]; [|done]. cbn [client_some]. rewrite result_bind_Ok. intros E Hs. by eapply IH, add_xorb_wf.
Qed.

(** A shard upload changes the shard and the deduplication table only. *)
Lemma upload_shard_frame c bytes c' :
    MemoryClient.upload_shard c bytes = Ok c' -> shard_wf (MemoryClient.shard c) ->
    shard_wf (MemoryClient.shard c') /\ MemoryClient.xorbs c' = MemoryClient.xorbs c /\ MemoryClient.gc_tagged_xorbs c' = MemoryClient.gc_tagged_xorbs c /\
    MemoryClient.max_ranges_per_fetch c' = MemoryClient.max_ranges_per_fetch c.
Proof.
  unfold MemoryClient.upload_shard. intros E Hs. destruct (MDBMinimalShard.from_reader _ _ _) as [[m r]|]; [|done]. cbn [try_format] in E. rewrite result_bind_Ok in E.
  destruct (MemoryClient.add_files _ _) as [s1|] eqn:E1; [|done]. rewrite result_bind_Ok in E. destruct (MemoryClient.add_xorbs _ _) as [s2|] eqn:E2; [|done]. rewrite result_bind_Ok in E.
  destruct (MDBMinimalShard.global_dedup_eligible_chunks m) as [hs|]; [|done]. cbn [client_some] in E. rewrite result_bind_Ok in E. injection E as <-. cbn.
  split; [|done]. by eapply add_xorbs_wf, add_files_wf.
Qed.

Lemma stored_frame c c' h datas bss :
    MemoryClient.xorbs c' !! h = MemoryClient.xorbs c !! h -> (h ∉ MemoryClient.gc_tagged_xorbs c -> h ∉ MemoryClient.gc_tagged_xorbs c') ->
    stored c h datas bss -> stored c' h datas bss.
Proof. intros Ex Et [(hashes & g & Hx & Hr) Hv ? ? ? ?]. constructor; try done; [|by apply Et]. exists hashes, g. by rewrite Ex. Qed.

Lemma delete_xorb_ok c view h : server_ok c view -> server_ok (MemoryClient.delete_xorb c h) (view_with view h None).
Proof.
  intros [Hb Hw Hn Hs]. constructor; try (unfold MemoryClient.delete_xorb; by destruct (MemoryClient.lifecycle_tag_deletion c)).
  - intros h' datas bss Hv. unfold view_with in Hv. destruct (decide (h' = h)) as [->|Hne]; [done|]. eapply stored_frame; [..|by apply Hb].
    + unfold MemoryClient.delete_xorb. destruct (MemoryClient.lifecycle_tag_deletion c); cbn; [done|]. by rewrite lookup_delete_ne.
    + unfold MemoryClient.delete_xorb. destruct (MemoryClient.lifecycle_tag_deletion c); cbn; set_solver.
  - intros h' datas bss Hv. unfold view_with in Hv. destruct (decide (h' = h)); [done|]. by eapply Hw.
Qed.

Lemma remove_file_wf s h : shard_wf s -> shard_wf (MDBInMemoryShard.recalculate_shard_size (MemoryClient.remove_file s h)).
Proof.
  intros [? ? ? Hk ?]. eapply same_content_wf; [apply recalculate_same|]. constructor; cbn; try done; [by apply filter_sorted|].
  intros k f Hf. apply Hk. apply sorted_lookup in Hf; [|by apply filter_sorted]. apply list_elem_of_filter in Hf as [_ Hf]. by apply sorted_lookup.
Qed.

Lemma with_shard_ok c view s dedup tag : server_ok c view -> shard_wf s -> server_ok (MemoryClient.with_shard c s dedup tag) view.
Proof. intros [Hb Hw Hn _] Hs. constructor; try done. intros h datas bss Hv. apply (stored_frame c); [done|done|]. by apply Hb. Qed.

(** The invariant of the server. *)
Lemma reachable_ok c view : reachable c view -> server_ok c view.
Proof.
  induction 1 as [|c view chunks bss sx n c' _ [Hb Hw Hn Hs] Hbuilt Hup|c view bytes c' _ [Hb Hw Hn Hs] Hup|c view h _ IH|c view h tag b c' _ IH Hd|c view h _ IH
    |c view now h c' _ IH Hd|c view now h tag b c' _ IH Hd|c view now h _ IH|c view ms secs n on _ [Hb Hw Hn Hs] Hpos].
  - constructor; cbn; try done. apply default_wf.
  - destruct (upload_xorb_stores max_fits c chunks bss sx Hbuilt) as (n' & c'' & E & Hst & _ & Hsh & Hm & Hframe). rewrite E in Hup. injection Hup as <- <-. constructor.
    + intros h datas bss' Hv. unfold view_with in Hv. destruct (decide _) as [->|Hne]; [by injection Hv as <- <-|]. by apply Hframe, Hb.
    + intros h datas bss' Hv. unfold view_with in Hv. destruct (decide _) as [->|Hne]; [|by eapply Hw]. injection Hv as <- <-.
      destruct Hbuilt as [_ [_ Hne] _ [_ Hf] _ _ _]. done.
    + by rewrite Hm.
    + by rewrite Hsh.
  - destruct (upload_shard_frame _ _ _ Hup Hs) as (Hs' & Ex & Et & Em). constructor; try done; [|by rewrite Em].
    intros h datas bss Hv. eapply stored_frame; [by rewrite Ex|by rewrite Et|]. by apply Hb.
  - by apply delete_xorb_ok.
  - unfold MemoryClient.delete_xorb_if_tag_matches in Hd. destruct (MemoryClient.xorbs c !! h); [|done]. cbn [client_ok_or] in Hd. rewrite result_bind_Ok in Hd.
    destruct (decide _); injection Hd as <- <-; [by apply delete_xorb_ok|done].
  - unfold MemoryClient.delete_file_entry. destruct (BTree.contains_key _ _); [|done]. apply with_shard_ok; [done|]. by apply remove_file_wf, IH.
  - unfold MemoryClient.delete_shard_entry in Hd. destruct (MemoryClient.current_shard_hash_and_bytes _ _) as [[? ?]|]; [|done]. destruct (decide _); [|done].
    destruct (MemoryClient.lifecycle_tag_deletion c); injection Hd as <-; (apply with_shard_ok; [done|]); [apply IH|apply default_wf].
  - unfold MemoryClient.delete_shard_if_tag_matches in Hd. destruct (MemoryClient.current_shard_hash_and_bytes _ _) as [[? ?]|]; [|done]. destruct (decide _); [|done].
    destruct (decide _); [|by injection Hd as <- <-].
    destruct (MemoryClient.lifecycle_tag_deletion c); injection Hd as <- <-; (apply with_shard_ok; [done|]); [apply IH|apply default_wf].
  - unfold MemoryClient.remove_shard_dedup_entries. destruct (MemoryClient.current_shard_hash_and_bytes _ _) as [[? ?]|]; [|done]. destruct (decide _); [|done].
    apply with_shard_ok; [done|apply IH].
  - constructor; try done. intros h datas bss Hv. apply (stored_frame c); [done|done|]. by apply Hb.
Qed.

(** C15: The server keeps the contract of its clients.  In every state that uploads and deletions lead to,
    each xorb that was uploaded and not deleted since is read back as the data of its chunks, whole or
    by ranges; for each file of the shard whose segments lie in such xorbs the size and the data are
    right; and the answers to reconstruction queries, with either version of the API, let a client
    fetch the file. *)
Theorem server_serves_files c view :
    reachable c view ->
    (forall h datas bss, view h = Some (datas, bss) -> MemoryClient.get_full_xorb c h = Ok (concat datas) /\ MemoryClient.xorb_exists c h = true) /\
    (forall file_hash fi now, let data := file_data view (MDBFileInfo.segments fi) in
       MDBInMemoryShard.get_file_reconstruction_info (MemoryClient.shard c) file_hash = Some fi -> Forall (segment_ok view) (MDBFileInfo.segments fi) ->
       Z.of_nat (length data) < 2 ^ 64 -> MemoryClient.current_shard_tagged c now = false ->
       MemoryClient.get_file_size c now file_hash = Ok (Z.of_nat (length data)) /\
       MemoryClient.get_file_data c now file_hash None = Ok data /\
       serves (RC := server_v2 c) view file_hash data /\ serves (RC := server_v1 c) view file_hash data).
Proof.
  intros [Hb Hw Hn Hs]%reachable_ok. split.
  - intros h datas bss Hv. specialize (Hb _ _ _ Hv). split; [by eapply full_xorb_read|]. destruct Hb as [(hashes & g & Hx & _) Hvis _ _ _ _].
    unfold MemoryClient.xorb_exists. rewrite visible_untagged by done. by rewrite bool_decide_eq_true_2 by (by rewrite Hx).
  - intros file_hash fi now data Hreg Hseg Hsz Htag. split_and!.
    + unfold MemoryClient.get_file_size. rewrite Htag, Hreg. cbn [client_ok_or]. rewrite result_bind_Ok. by rewrite (file_size_ok view).
    + unfold MemoryClient.get_file_data. rewrite Htag, Hreg. cbn [client_ok_or]. rewrite result_bind_Ok, (file_read max_fits c view) by done. rewrite result_bind_Ok.
      cbn [andb]. rewrite Z.min_id, bool_decide_eq_false_2 by (by intros [? [=]]). cbn [andb]. rewrite (proj2 (Z.leb_le _ _)) by lia. cbn [client_assert]. rewrite result_bind_Ok.
      rewrite Nat2Z.id. fold data. rewrite slice_0. by rewrite take_ge by lia.
    + by apply server_v2_serves.
    + by apply server_v1_serves.
Qed.

(** C5: What is downloaded is what was uploaded.  Take any state of the server that uploads and deletions
    lead to, and a file of its shard whose segments lie in uploaded xorbs.  A download of any range of
    it, in any order of its steps, with either version of the API, with multi-range fetching or
    without, whatever else uses the download buffer and whether writes fail or not, writes bytes of the file in their order from the start of the range; a download that
    finishes has written the range as far as the file goes. *)
Theorem download_what_was_uploaded c view file_hash fi (v2 enable_multirange : bool) min_fetch max_fetch s e :
    let data := file_data view (MDBFileInfo.segments fi) in
    let size := Z.of_nat (length data) in
    let RC := if v2 then server_v2 c else server_v1 c in
    reachable c view ->
    MDBInMemoryShard.get_file_reconstruction_info (MemoryClient.shard c) file_hash = Some fi -> Forall (segment_ok view) (MDBFileInfo.segments fi) ->
    0 < min_fetch <= max_fetch -> 0 <= s <= e -> e < 2 ^ 64 -> Z.max s size + 5 * (max_fetch + min_fetch) < 2 ^ 64 ->
    exists mg, manager_new (E := client_failure) min_fetch max_fetch (FileRange.new s e) = Ok mg /\
    forall faults shared buffer seed k st, moves (RC := RC) file_hash enable_multirange None min_fetch max_fetch faults shared k (start_run mg buffer seed) st ->
      output st = data ⟦Z.to_nat s, (Z.to_nat s + length (output st))%nat⟧ /\
      (forall n, pc st = Finished n -> output st = data ⟦Z.to_nat s, Z.to_nat (Z.min e size)⟧ /\ n = Z.of_nat (length (output st))) /\
      (forall err, pc st = Failed err -> error_ok faults (write_queue st) err).
Proof.
  intros data size RC [Hb Hw Hn Hs]%reachable_ok Hreg Hseg Hmm Hse He Hfits.
  assert (serves (RC := RC) view file_hash data) as Hserves by (unfold RC; destruct v2; [apply server_v2_serves|apply server_v1_serves]; (done || fold data size; lia)).
  pose proof (fun faults shared : bool => reconstruction_ok view file_hash data Hw Hserves enable_multirange None ltac:(done) (or_introl eq_refl) min_fetch max_fetch Hmm s e Hse He Hfits faults shared)
    as Hok. destruct (Hok true true) as (mg & Enew & _). exists mg. split; [done|]. intros faults shared buffer seed k st Hm.
  destruct (Hok faults shared) as (mg' & Enew' & Hrun). rewrite Enew in Enew'. injection Enew' as <-. destruct (Hrun buffer seed k st Hm) as (H1 & H2 & H3 & _). done.
Qed.

Lemma chunks_of_fetch {A} (f g : list A -> XorbMultiRangeFetch.t) (l : list (list A)) :
    (forall k, same_fetch (f k) (g k)) -> Forall2 same_fetch (f <$> l) (g <$> l).
Proof. intros Hfg. induction l; cbn; by constructor. Qed.

(** The part of a file that a query is about. *)
Lemma same_ranges c fi file_hash s e e' :
    MDBInMemoryShard.get_file_reconstruction_info (MemoryClient.shard c) file_hash = Some fi ->
    s < MDBFileInfo.file_size fi -> e' = Z.min e (MDBFileInfo.file_size fi) ->
    MemoryClient.reconstruction_ranges c file_hash (Some (FileRange.new s e')) = MemoryClient.reconstruction_ranges c file_hash (Some (FileRange.new s e)).
Proof.
  intros Hreg Hs ->. unfold MemoryClient.reconstruction_ranges. rewrite Hreg. unfold compute_reconstruction_ranges, requested_file_range.
  cbn [FileRange.start FileRange.end_]. rewrite !(proj2 (Z.leb_gt _ _)) by done. by rewrite <- Z.min_assoc, Z.min_id.
Qed.

(** Two answers of the server to queries for the same part of a file, at two times, differ only in their URLs. *)
Lemma server_same_layout c fi file_hash (v2 : bool) s e e' now now' r r' :
    MDBInMemoryShard.get_file_reconstruction_info (MemoryClient.shard c) file_hash = Some fi ->
    s < MDBFileInfo.file_size fi -> e' = Z.min e (MDBFileInfo.file_size fi) ->
    get_reconstruction (ReconstructionClient := if v2 then server_v2 c else server_v1 c) now file_hash (Some (FileRange.new s e)) = Ok (Some r) ->
    get_reconstruction (ReconstructionClient := if v2 then server_v2 c else server_v1 c) now' file_hash (Some (FileRange.new s e')) = Ok (Some r') ->
    same_layout r r'.
Proof.
  intros Hreg Hs He. destruct v2; cbn.
  - unfold MemoryClient.get_reconstruction_v2. rewrite (same_ranges c fi file_hash s e e') by done.
    destruct (MemoryClient.reconstruction_ranges _ _ _) as [[[[offset terms] merged]|]|]; [|done|done]. rewrite !result_bind_Ok.
    destruct terms as [|t terms]; [intros [= <-] [= <-]; by constructor|]. destruct (client_assert _); [|done]. rewrite !result_bind_Ok. intros [= <-] [= <-].
    constructor; [done|done|]. cbn. intros h entries. rewrite !map_lookup_imap. destruct (merged !! h) as [ranges|]; [|done]. cbn. intros [= <-].
    eexists. split; [done|]. by apply chunks_of_fetch.
  - unfold reconstruction_from_v1, MemoryClient.get_reconstruction_v1. rewrite (same_ranges c fi file_hash s e e') by done.
    destruct (MemoryClient.reconstruction_ranges _ _ _) as [[[[offset terms] merged]|]|]; [|done|done]. rewrite !result_bind_Ok.
    destruct terms as [|t terms]; [intros [= <-] [= <-]; by constructor|]. intros [= <-] [= <-].
    constructor; [done|done|]. cbn. intros h entries. rewrite !lookup_fmap, !map_lookup_imap. destruct (merged !! h) as [ranges|]; [|done]. cbn. intros [= <-].
    eexists. split; [done|]. unfold MemoryClient.fetch_infos_of. rewrite <- !list_fmap_compose. induction ranges; cbn; by constructor.
Qed.

(** The server answers at any time when it answered once. *)
Lemma server_answers c fi file_hash (v2 : bool) s e e' now now' r :
    MDBInMemoryShard.get_file_reconstruction_info (MemoryClient.shard c) file_hash = Some fi ->
    s < MDBFileInfo.file_size fi -> e' = Z.min e (MDBFileInfo.file_size fi) ->
    get_reconstruction (ReconstructionClient := if v2 then server_v2 c else server_v1 c) now file_hash (Some (FileRange.new s e)) = Ok (Some r) ->
    exists r', get_reconstruction (ReconstructionClient := if v2 then server_v2 c else server_v1 c) now' file_hash (Some (FileRange.new s e')) = Ok (Some r').
Proof.
  intros Hreg Hs He. destruct v2; cbn.
  - unfold MemoryClient.get_reconstruction_v2. rewrite (same_ranges c fi file_hash s e e') by done.
    destruct (MemoryClient.reconstruction_ranges _ _ _) as [[[[offset terms] merged]|]|]; [|done|done]. rewrite !result_bind_Ok.
    destruct terms as [|t terms]; [by eexists|]. destruct (client_assert _); [|done]. rewrite !result_bind_Ok. by eexists.
  - unfold reconstruction_from_v1, MemoryClient.get_reconstruction_v1. rewrite (same_ranges c fi file_hash s e e') by done.
    destruct (MemoryClient.reconstruction_ranges _ _ _) as [[[[offset terms] merged]|]|]; [|done|done]. rewrite !result_bind_Ok.
    destruct terms as [|t terms]; by eexists.
Qed.

Lemma server_forgot c file_hash (v2 : bool) now range :
    MDBInMemoryShard.get_file_reconstruction_info (MemoryClient.shard c) file_hash = None ->
    get_reconstruction (ReconstructionClient := if v2 then server_v2 c else server_v1 c) now file_hash range = Ok None.
Proof.
  intros Hreg. destruct v2; cbn; [unfold MemoryClient.get_reconstruction_v2|unfold reconstruction_from_v1, MemoryClient.get_reconstruction_v1];
    unfold MemoryClient.reconstruction_ranges; by rewrite Hreg.
Qed.

End Reachable.
