(* ===== verification/DownloadExamples.v ===== *)
(** * Downloads, run

    A server that holds one xorb of three chunks and a file of four segments in it, with a hash, a
    compression and an encoding that are easy to compute: the theorems about reconstruction are
    applied to it, and what happens outside their hypotheses is run. *)

From Stdlib Require Import Sorted.
From coqutil Require Import Byte.
From stdpp Require Import base numbers gmap relations sorting list.
From S2P Require Import Prelude DataHash AggregatedHash MerkleSubtree Codec Chunking FileStructs XorbStructs ChunkFormat RawXorb XorbInfo XorbObject ShardMemory ShardFormat.
From S2P Require Import ShardPass StreamingShard ShardExport CasTypes ChunkWindows ReconstructionRanges FileTerms Reconstructor MemoryClient ServerContract UploadExamples.

#[local] Open Scope Z_scope.

Module DownloadExamples.

#[local] Existing Instance UploadExamples.light_blake3.
#[local] Existing Instance FormatExamples.run_compression.
#[local] Existing Instance FormatExamples.format_constants.
#[local] Existing Instance sort_stable.

(** ** An encoding without colons: two letters for each byte *)

Definition letter (n : Z) : byte := byte_of (97 + n).

Fixpoint letters (s : list byte) : list byte :=
  match s with
  | [] => []
  | b :: s' => letter (u8 b / 16) :: letter (u8 b mod 16) :: letters s'
  end.

Fixpoint unletters (s : list byte) : option (list byte) :=
  match s with
  | [] => Some []
  | a :: b :: s' => rest ← unletters s'; Some (byte_of ((u8 a - 97) * 16 + (u8 b - 97)) :: rest)
  | [_] => None
  end.

Lemma letter_value b : byte_of ((u8 (letter (u8 b / 16)) - 97) * 16 + (u8 (letter (u8 b mod 16)) - 97)) = b.
Proof. by destruct b. Qed.

Lemma letter_not_colon b : letter (u8 b / 16) <> Byte.x3a /\ letter (u8 b mod 16) <> Byte.x3a.
Proof. by destruct b. Qed.

#[local, refine] Instance letters_base64 : Base64 := {| base64_encode := letters; base64_decode := unletters |}.
Proof.
  - induction s as [|b s IH]; [done|]. cbn [letters unletters]. rewrite IH. cbn [mbind option_bind]. by rewrite letter_value.
  - induction s as [|b s IH]; cbn [letters]; [done|]. destruct (letter_not_colon b). by repeat constructor.
Defined.

(** ** The server *)

Definition chunks : list Chunk := Chunk_new <$> [repeat Byte.x61 10; [Byte.x62; Byte.x63; Byte.x64]; repeat Byte.x65 5].

Definition raw_xorb : RawXorbData.t := match RawXorbData.from_chunks chunks [0%nat] with Some xorb => xorb | None => RawXorbData.mk [] (MDBXorbInfo.mk XorbChunkSequenceHeader.bookend []) [] end.

Definition serialized_xorb (with_footer : bool) : SerializedXorbObject.t :=
  match SerializedXorbObject.from_xorb_with_compression raw_xorb LZ4 with_footer 0 with
  | Ok s => s
  | Err _ => SerializedXorbObject.mk [] DataHash.default 0 0 None
  end.

Definition h : DataHash := xorb_hash (chunk_node <$> chunks).

Definition segment (size a b : Z) : FileDataSequenceEntry.t := FileDataSequenceEntry.mk h 0 size a b.

Definition segments : list FileDataSequenceEntry.t := [segment 8 1 3; segment 13 0 2; segment 5 2 3; segment 10 0 1].

Definition file : DataHash := mkDataHash 1 2 3 4.

Definition file_info : MDBFileInfo.t := MDBFileInfo.mk (FileDataSequenceHeader.mk file 0 4 0) segments [] None.

Definition shard : MDBInMemoryShard.t := MDBInMemoryShard.add_file_reconstruction_info MDBInMemoryShard.default file_info.

Definition shard_upload : list byte := (MDBShardInfo.serialize_from 0 shard None).1.

Definition or_empty {A} (r : result client_failure (A * MemoryClient.t)) : MemoryClient.t :=
  match r with Ok (_, c) => c | Err _ => MemoryClient.new end.

Definition two_per_fetch : MemoryClient.t := MemoryClient.with_settings MemoryClient.new 1000 0 2 true.

(** The xorb is uploaded without its footer. *)
Definition one_xorb : MemoryClient.t := or_empty (MemoryClient.upload_xorb two_per_fetch (serialized_xorb false)).

Definition server : MemoryClient.t := match MemoryClient.upload_shard one_xorb shard_upload with Ok c => c | Err _ => MemoryClient.new end.

Lemma xorb_uploaded : MemoryClient.upload_xorb two_per_fetch (serialized_xorb false) =
  Ok (match MemoryClient.upload_xorb two_per_fetch (serialized_xorb false) with Ok (n, _) => n | Err _ => 0 end, one_xorb).
Proof. vm_compute. reflexivity. Qed.

Lemma shard_uploaded : MemoryClient.upload_shard one_xorb shard_upload = Ok server.
Proof. vm_compute. reflexivity. Qed.

Lemma chunks_hashed : hashed chunks.
Proof. repeat constructor. Qed.

Lemma chunks_built : exists bss, built chunks bss (serialized_xorb false).
Proof.
  apply (built_from_chunks FormatExamples.max_fits chunks [0%nat] raw_xorb LZ4 0 false).
  - exact chunks_hashed.
  - done.
  - repeat constructor; done.
  - repeat constructor; apply Z.leb_le; vm_compute; reflexivity.
  - apply Z.ltb_lt. vm_compute. reflexivity.
  - exists []. repeat constructor.
  - intros E. apply (f_equal w0) in E. vm_compute in E. discriminate E.
  - vm_compute. reflexivity.
  - vm_compute. reflexivity.
Qed.

Definition contents : list (list byte) := chunk_data <$> chunks.

Lemma xorb_named : SerializedXorbObject.hash (serialized_xorb false) = h.
Proof. vm_compute. reflexivity. Qed.

Lemma server_reached : exists bss, reachable server (view_with (fun _ => None) h (Some (contents, bss))).
Proof.
  destruct chunks_built as [bss Hb]. exists bss.
  assert (reachable one_xorb (view_with (fun _ => None) (SerializedXorbObject.hash (serialized_xorb false)) (Some (chunk_data <$> chunks, bss)))) as Hr.
  { refine (server_uploads_xorb two_per_fetch (fun _ => None) chunks bss (serialized_xorb false) _ one_xorb _ Hb _).
    - apply server_configured; [apply server_new|lia].
    - apply xorb_uploaded. }
  rewrite xorb_named in Hr. exact (server_uploads_shard _ _ _ _ Hr shard_uploaded).
Qed.

Definition data : list byte := concat ((fun r => concat (contents ⟦r.1, r.2⟧)) <$> [(1, 3); (0, 2); (2, 3); (0, 1)]%nat).

Section View.
  Context (bss : list (list byte)).

Let view := view_with (fun _ => None) h (Some (contents, bss)).

Lemma view_h : view h = Some (contents, bss).
Proof. unfold view, view_with. by rewrite decide_True. Qed.

Lemma segment_bytes size a b : segment_data view (segment size a b) = concat (contents ⟦Z.to_nat a, Z.to_nat b⟧).
Proof.
  unfold segment_data, range_data, chunks_in. change (FileDataSequenceEntry.xorb_hash (segment size a b)) with h. by rewrite view_h.
Qed.

Lemma segment_in_view size a b :
    0 <= a < b -> b <= 3 -> size = Z.of_nat (length (concat (contents ⟦Z.to_nat a, Z.to_nat b⟧))) -> segment_ok view (segment size a b).
Proof. intros Ha Hb Hs. split; [exists contents, bss; split; [exact view_h|done]|]. by rewrite segment_bytes. Qed.

Lemma segments_in_view : Forall (segment_ok view) segments.
Proof. repeat apply Forall_cons_2; try apply Forall_nil_2; apply segment_in_view; (lia || vm_compute; reflexivity). Qed.

Lemma file_is_data : file_data view segments = data.
Proof. unfold file_data, segments. cbn [fmap list_fmap concat]. rewrite !segment_bytes. reflexivity. Qed.
End View.

Lemma file_registered : exists fi, MDBInMemoryShard.get_file_reconstruction_info (MemoryClient.shard server) file = Some fi /\ MDBFileInfo.segments fi = segments.
Proof. eexists. split; vm_compute; reflexivity. Qed.

(** ** The theorems, applied *)

Lemma setting : exists view fi, reachable server view /\
  MDBInMemoryShard.get_file_reconstruction_info (MemoryClient.shard server) file = Some fi /\ Forall (segment_ok view) (MDBFileInfo.segments fi) /\
  file_data view (MDBFileInfo.segments fi) = data.
Proof.
  destruct server_reached as [bss Hr], file_registered as (fi & Hfi & Hs). exists (view_with (fun _ => None) h (Some (contents, bss))), fi.
  split; [exact Hr|]. split; [exact Hfi|]. rewrite Hs. split; [apply segments_in_view|apply file_is_data].
Qed.

Lemma data_size : Z.of_nat (length data) = 36.
Proof. reflexivity. Qed.

Lemma reconstruction_ranges_cover_witness :
  exists view fi offset terms merged,
    compute_reconstruction_ranges (MemoryClient.xorb_footer server) fi (Some (FileRange.new 5 20)) = Ok (Some (offset, terms, merged)) /\
    covers view data 5 20 offset terms /\ fetches view terms merged.
Proof.
  destruct setting as (view & fi & Hr & Hfi & Hseg & Hd). pose proof (reachable_ok FormatExamples.max_fits _ _ Hr) as [Hb Hw _ _].
  destruct (reconstruction_ranges_cover (MemoryClient.xorb_footer server) view (footers_described server view Hb) Hw fi Hseg
    ltac:(rewrite Hd; reflexivity) 5 20 ltac:(lia)) as [Hc _].
  destruct Hc as (offset & terms & merged & E & Hcov & Hf); [rewrite Hd; reflexivity|]. exists view, fi, offset, terms, merged.
  rewrite Hd in Hcov. split; [exact E|]. split; [exact Hcov|exact Hf].
Defined.

Lemma serves_v2 : exists view, view_wf view /\ serves (RC := server_v2 server) view file data.
Proof.
  destruct setting as (view & fi & Hr & Hfi & Hseg & Hd). exists view. pose proof (reachable_ok FormatExamples.max_fits _ _ Hr) as [Hb Hw Hn _]. split; [exact Hw|].
  rewrite <- Hd. refine (server_v2_serves FormatExamples.max_fits server view Hb Hw file fi Hfi Hseg _ Hn). rewrite Hd. reflexivity.
Qed.

Lemma file_terms_correct_witness :
  exists view, match retrieve_file_term_block (RC := server_v2 server) true 0 0 file (FileRange.new 5 20) with
  | Ok None => False
  | Ok (Some (range, _, fts, urls)) => range = FileRange.new 5 20 /\ terms_right (RC := server_v2 server) view data None 5 20 fts urls
  | Err (ClientCall _) => True
  | Err _ => False
  end.
Proof.
  destruct serves_v2 as (view & Hw & Hs). exists view.
  pose proof (file_terms_correct (RC := server_v2 server) view file data Hw Hs ltac:(reflexivity) true None ltac:(done) (or_introl eq_refl) 5 20 0 0 ltac:(lia) ltac:(lia)) as H.
  destruct (retrieve_file_term_block _ _ _ _ _) as [[[[[range tr] fts] urls]|]|]; [|by vm_compute in H|exact H].
  destruct H as [(_ & -> & H)|(H & _)]; [|by vm_compute in H]. split; [reflexivity|exact H].
Defined.

Definition buffer : Buffer := mkBuffer 12 2 1.

Lemma reconstruction_correct_witness :
  exists mg, manager_new (E := client_failure) 4 8 (FileRange.new 5 100) = Ok mg /\
  forall k st, moves (RC := server_v2 server) file true None 4 8 true true k (start_run mg buffer (Some 1)) st -> forall n, pc st = Finished n -> output st = drop 5 data /\ n = 31.
Proof.
  destruct serves_v2 as (view & Hw & Hs).
  destruct (reconstruction_correct (RC := server_v2 server) view file data Hw Hs true None ltac:(done) (or_introl eq_refl) 4 8 ltac:(lia) 5 100 ltac:(lia) ltac:(lia)
    ltac:(reflexivity) true true) as (mg & E & H).
  exists mg. split; [exact E|]. intros k st Hm n Hn. destruct (H _ _ k st Hm) as (_ & Hf & _). destruct (Hf n Hn) as [Ho ->]. rewrite Ho. split; reflexivity.
Defined.

(** The only download, with permits for two chunks of which one is its own from the start: it can always
    make a step. *)
Lemma reconstruction_terminates_witness :
  exists mg, manager_new (E := client_failure) 4 8 (FileRange.new 5 100) = Ok mg /\
  forall n st, moves (RC := server_v2 server) file true None 4 8 false false n (start_run mg buffer (Some 1)) st ->
    (n <= 875)%nat /\ (running (pc st) = true -> exists st', step (RC := server_v2 server) file true None 4 8 st st').
Proof.
  destruct serves_v2 as (view & Hw & Hs). eexists. split; [vm_compute; reflexivity|]. intros n st Hn.
  destruct (reconstruction_terminates (RC := server_v2 server) view file data Hw Hs true None ltac:(done) (or_introl eq_refl) 4 8 ltac:(lia) 5 100 ltac:(lia) ltac:(lia)
    ltac:(reflexivity) false false _ buffer (Some 1) n st ltac:(vm_compute; reflexivity) Hn) as (H & _ & Hp & _).
  split; [|apply Hp; [reflexivity|cbn; lia|reflexivity]]. change (Z.of_nat (length data)) with 36 in H. lia.
Defined.

Lemma vectored_writer_writes_all_witness :
  let '(r, out, rest) := run_vectorized (E := client_failure) [(1%nat, Wrote 2); (0%nat, Interrupted); (5%nat, Wrote 9); (0%nat, Wrote 1)] true [] contents [] in
  out ++ concat rest = concat contents /\ run (E := client_failure) (fun _ => WroteAll) true contents [] = (Ok tt, concat contents).
Proof.
  pose proof (vectored_writer_writes_all (E := client_failure) [(1%nat, Wrote 2); (0%nat, Interrupted); (5%nat, Wrote 9); (0%nat, Wrote 1)] true (fun _ => WroteAll) true contents) as H.
  destruct (run_vectorized _ _ _ _ _) as [[r out] rest]. destruct (run _ _ _ _) as [r' out']. destruct H as (H1 & _ & _ & H2 & H3 & _).
  split; [exact H1|]. specialize (H3 ltac:(done)). cbn in H3. subst r'. by destruct (H2 eq_refl) as [-> _].
Defined.

Lemma server_serves_files_witness :
  MemoryClient.get_full_xorb server h = Ok (concat contents) /\ MemoryClient.get_file_data server 0 file None = Ok data /\
  exists view, serves (RC := server_v1 server) view file data.
Proof.
  destruct server_reached as [bss Hr], file_registered as (fi & Hfi & Hs).
  destruct (server_serves_files FormatExamples.max_fits server _ Hr) as [Hx Hf]. split.
  - apply (Hx h contents bss). apply view_h.
  - destruct (Hf file fi 0 Hfi) as (_ & Hd & _ & H1).
    + rewrite Hs. apply segments_in_view.
    + rewrite Hs, file_is_data. reflexivity.
    + vm_compute. reflexivity.
    + rewrite Hs, file_is_data in Hd, H1. split; [exact Hd|]. eexists. exact H1.
Defined.

Lemma download_what_was_uploaded_witness :
  exists mg, manager_new (E := client_failure) 4 8 (FileRange.new 0 30) = Ok mg /\
  forall k st, moves (RC := server_v1 server) file false None 4 8 true true k (start_run mg buffer None) st -> forall n, pc st = Finished n -> output st = take 30 data /\ n = 30.
Proof.
  destruct setting as (view & fi & Hr & Hfi & Hseg & Hd).
  destruct (download_what_was_uploaded FormatExamples.max_fits server view file fi false false 4 8 0 30 Hr Hfi Hseg ltac:(lia) ltac:(lia) ltac:(lia)
    ltac:(rewrite Hd; reflexivity)) as (mg & E & H).
  rewrite Hd in H. exists mg. split; [exact E|]. intros k st Hm n Hn. destruct (H true true buffer None k st Hm) as (_ & Hf & _). destruct (Hf n Hn) as [Ho ->]. rewrite Ho. split; reflexivity.
Defined.

(** *** A refresh *)

Definition block (now : Z) : FileRange.t * Z * list FileTerm.t * TermBlockRetrievalURLs.t :=
  match retrieve_file_term_block (RC := server_v2 server) true now 1 file (FileRange.new 5 20) with
  | Ok (Some b) => b
  | _ => (FileRange.new 0 0, 0, [], TermBlockRetrievalURLs.mk file (FileRange.new 0 0) 0 [])
  end.

Definition retrieved (now : Z) : bool :=
  match retrieve_file_term_block (RC := server_v2 server) true now 1 file (FileRange.new 5 20) with Ok (Some _) => true | _ => false end.

Lemma retrieved_spec now :
  retrieved now = true ->
  retrieve_file_term_block (RC := server_v2 server) true now 1 file (FileRange.new 5 20) =
    Ok (Some ((block now).1.1.1, (block now).1.1.2, (block now).1.2, (block now).2)).
Proof. unfold retrieved, block. by destruct (retrieve_file_term_block _ _ _ _ _) as [[[[[? ?] ?] ?]|]|]. Qed.


(** ** Outside the hypotheses *)

(** A fetch size below its minimum makes the creation of the manager panic. *)
Lemma fetch_sizes_swapped : manager_new (E := client_failure) 8 4 (FileRange.new 0 30) = Err ReconstructionPanic.
Proof. reflexivity. Qed.

(** The cache is asked for the first range of a block only: when the block has two, what it gives does
    not hold the chunks of the second, and a term in the second panics. *)
Definition two_ranges : XorbBlock.t := XorbBlock.mk h [ChunkRange.new 0 1; ChunkRange.new 2 3] 0 [] None.

Definition first_range_cache : XorbBlock.ChunkCacheGet :=
  fun _ r => if decide (r = ChunkRange.new 0 1) then Some ([0; 10], repeat Byte.x61 10) else None.

Definition second_range_term : FileTerm.t := FileTerm.mk (FileRange.new 0 5) (ChunkRange.new 2 3) 1 0 two_ranges.

Lemma cache_misses_second_range :
  get_data (RC := server_v2 server) 0 (Some first_range_cache) (TermBlockRetrievalURLs.mk file (FileRange.new 0 5) 0 [([], [])]) second_range_term =
    Err ReconstructionPanic.
Proof. vm_compute. reflexivity. Qed.

(** A refreshed block is accepted when its range is the same, even if its terms are not: a term then
    fetches another xorb block than its own. *)
Definition other_answer (now : Z) : QueryReconstructionResponseV2.t :=
  QueryReconstructionResponseV2.mk 0 [XorbReconstructionTerm.mk h 3 (ChunkRange.new 1 2)]
    {[h := [XorbMultiRangeFetch.mk (if now =? 0 then [Byte.x30] else [Byte.x31])
              [XorbRangeDescriptor.mk (ChunkRange.new (if now =? 0 then 1 else 0) 2) (HttpRange.new 0 9)]]]}.

#[local] Instance moving_client : ReconstructionClient () := {|
  get_reconstruction now _ _ := Ok (Some (other_answer now));
  get_file_term_data _ url _ :=
    if decide (url = [Byte.x30]) then Ok ([Byte.x62; Byte.x63; Byte.x64], [0; 3]) else Ok (repeat Byte.x61 10 ++ [Byte.x62; Byte.x63; Byte.x64], [0; 10; 13]);
|}.

Definition moved (now : Z) : option (list byte) :=
  match retrieve_file_term_block (RC := moving_client) true 0 1 file (FileRange.new 0 3) with
  | Ok (Some (_, _, [ft], urls)) =>
      match refresh_retrieval_urls (RC := moving_client) true now 2 urls 1 with
      | Ok urls' => match get_data (RC := moving_client) now None urls' ft with Ok d => Some d | Err _ => None end
      | Err _ => None
      end
  | _ => None
  end.

Lemma refresh_checks_range_only : moved 0 = Some [Byte.x62; Byte.x63; Byte.x64] /\ moved 7 = Some (repeat Byte.x61 3).
Proof. split; vm_compute; reflexivity. Qed.
End DownloadExamples.
